(* ===== verification/_CoqProject ===== *)
-Q . S2P
Prelude.v
Lists.v
BitMap.v
Machine.v
Bytes.v
Mips.v
Execute.v
Interpreters.v
Disasm.v
Threads.v
Managers.v
Frames.v
AddrSpace.v
Spaces.v
Coff.v
Interrupt.v
Syscalls.v
Processes.v
Lifecycle.v
Forking.v
Steps.v
Kernel.v
KernelTheorems.v
Disk.v
SharedDisk.v
FileSys.v
Files.v
Volume.v
FileTheorems.v
FsTest.v
SynchList.v
Network.v
Post.v
NetTest.v
Elevator.v
ThreadTest.v
Console.v
System.v
