(* ===== verification/Prelude.v ===== *)
(** * Nachos 3.4 (COP4610): a verification development

    Nachos is a small operating system that runs on a simulated MIPS machine.
    The sources are under src/nachos-3.4/code; all paths below are relative to
    it.  The build that is modelled is that of the course, with CHANGED, with
    USER_PROGRAM for the process system, and for the file system without
    FILESYS_STUB.  THREADS decides whether there are locks and condition
    variables at all: file Threads has the code with THREADS, and the files of
    programs that are built both ways have the build as a parameter
    ([SynchBuild]; [RealLocks] is the build with THREADS).

    ** The parts and how they interact

    - Hardware.  machine/machine, machine/translate and machine/mipssim simulate
      registers, memory, address translation and instructions.
      machine/interrupt keeps the pending interrupts and the simulated time;
      machine/timer, machine/disk, machine/console and machine/network are
      devices of it.  An exception or a system call goes from the instruction to
      ExceptionHandler of userprog/exception.cc.
    - Threads.  threads/list is the queue of everything; threads/thread and
      threads/scheduler switch between threads, threads/synch builds
      semaphores, locks and condition variables on Sleep and ReadyToRun;
      threads/synchlist, threads/elevator and threads/threadtest are programs on
      top of these; threads/main and threads/system start the kernel.
    - User programs.  userprog/bitmap, memorymanager, processmanager and pcb
      hand out page frames and process numbers; userprog/addrspace loads,
      copies and replaces programs; userprog/exception implements the system
      calls with all of these; userprog/progtest starts the first program and
      tests the console.
    - Files.  filesys/synchdisk turns the disk, which interrupts, into one that
      waits; filesys/filehdr, openfile, directory and filesys build a file
      system on its sectors; filesys/fstest copies, prints and tests files.
    - Network.  network/post is a post office on each machine: mail boxes that
      are synchronised lists, and a thread that carries mail from the network
      device to them; network/nettest is a test of it.
    - Tools (bin/).  coff2noff makes programs for the kernel out of object
      files; execute and system interpret MIPS programs on the host; d,
      opstrings and disasm print them.

    ** The files of this library

    - Prelude: outcomes of C++ code ([result]), machine integers ([u32], [s32]),
      arrays ([aget], [aset]), counting ([number]), the tactics [run_ok] and
      [bind_inv], the hint databases.
    - Lists: threads/list.  [NachosList] is the pointer program over a heap,
      [ListModel] the sequence that all other files use, [ListRefinement] the
      proof that they agree, undefined behaviour included.
    - BitMap: userprog/bitmap, on packed words.
    - Machine, Mips: machine/machine, machine/translate, machine/mipssim.
    - Bytes: words and buffers as bytes, for the files that store structs.
    - Execute, Interpreters: bin/execute, bin/system, bin/int.h, instr.h and
      encode.h; what the interpreter does, and that it agrees with
      machine/mipssim.
    - Disasm: bin/d, bin/opstrings and the listing of bin/disasm, with an
      assembler that reads the text back and has its own table of mnemonics.
    - Threads: threads/thread, scheduler, synch.  The state is [sys]: threads by
      address, ready list, semaphores, locks, conditions, the running thread.  A
      thread that is switched away from is kept with the place where it goes on,
      so that [step] is one turn of the running thread and reachability is an
      inductive relation.
    - Managers: userprog/memorymanager, processmanager, pcb, each under the lock
      interface [LockOps]; the memory manager is the instance of the interface
      [PageAllocator] that the address spaces are proved against.
    - Frames, AddrSpace, Spaces: main memory by frames; userprog/addrspace and
      bin/noff.h; the invariant of all address spaces and its properties.
    - Coff: bin/coff2noff and bin/coff.h, on the bytes of the files.
    - Interrupt: machine/interrupt, stats, timer and TimerInterruptHandler of
      threads/system; devices are a parameter type, handlers are called through
      their addresses.
    - Syscalls: userprog/exception, StartProcess of userprog/progtest, and the
      parts of Thread and Scheduler under USER_PROGRAM.  The state is [kernel]:
      machine and memory, threads, process manager, PCBs and address spaces in
      stores by address, the user registers of each thread.
    - Processes, Lifecycle, Forking, Steps, Kernel, KernelTheorems: the invariant
      [KInv] of the process system, what each system call does to it, what a
      step leaves alone, every step of the kernel with the reasons why it may
      stop ([stops], [call_stops]), and the theorems.
    - Disk: machine/disk and filesys/synchdisk, as a device of Interrupt, used by
      one thread.
    - SharedDisk: filesys/synchdisk with any number of threads, in any
      interleaving with the interrupt of the disk.
    - FileSys: filesys/filehdr, openfile, directory, filesys, and FetchFrom and
      WriteBack of BitMap, over the interface [SectorOps] of a disk.
    - Files, Volume, FileTheorems: the layout on disk; open files as lists of
      bytes; the free map, the directory and the invariant of a formatted disk;
      the theorems, and the synchronous disk as an instance of [SectorLaws].
    - FsTest: filesys/fstest.
    - SynchList, Network, Post, NetTest: threads/synchlist, machine/network,
      network/post, network/nettest.  A thread is the place where it stands;
      machines, threads and interrupts move in any order, and what happens is
      recorded as a list of events.
    - Elevator, ThreadTest, Console: threads/elevator, threads/threadtest,
      machine/console with ConsoleTest of userprog/progtest, in the same way.
    - System: threads/main, and Initialize of threads/system, for every
      combination of the macros of the Makefiles.

    A C++ routine is a function of the state that returns [Ok] or the reason
    why it stops: a failed ASSERT, a use of freed memory, a null pointer, an
    index outside an array.  Objects that are shared are in stores by address
    (heap cells, threads, page tables, PCBs, address spaces).  An [int] is a [Z]
    with [s32] where the source may overflow, an [unsigned] one with [u32].

    ** What the theorems show (C1 to C40)

    - C1 to C7, the kernel as a whole (KernelTheorems): from StartProcess on the
      process system stays consistent and stops only for the listed reasons,
      each tied to the call that is made; no step changes the memory of another
      process; what fork, exit, kill and join do, on every branch; a process
      finds its registers again after any steps of the others.
    - C8 to C11, threads (Threads): no operation fails or loops, every thread is
      accounted for, no wakeup is lost, mutual exclusion.
    - C12, the elevator (Elevator), for two floors or more and one caller:
      capacity, floors, queues, and that it stops when everyone has arrived.
    - C13 to C17, files (FileTheorems, FsTest): a formatted disk is a finite map
      from names to bytes, and Create (up to the largest size that a header has
      room for), Remove, Open, ReadAt, WriteAt, formatting and mounting are the
      operations on that map; Print after Copy gives the file that was copied.
    - C18 to C22, address spaces (Spaces, Coff): isolation of one instruction;
      loading and exec, for programs whose segments lie in their pages and do
      not cross the end of a page when they are shorter than one; agreement of
      the kernel's and the hardware's translation; and the way of such a program
      from the object file to memory.
    - C23 to C27, the processor (Machine, Mips, Interpreters, Disasm):
      translation, safety of the simulator, for which operands its arithmetic is
      that of the architecture (not for all of OR, SLT, SLTI and the right
      shifts), the agreement of the two simulators on what both do right without
      memory, and listings that determine the program.
    - C28 and C29, lists and synchronised lists refine sequences and queues.
    - C30 to C33, mail (Post, NetTest), with THREADS: order and content,
      delivery, and the test on two machines; without THREADS the test stops.
    - C34 to C38: completion of disk requests, the disk with many threads, the
      semaphore version of the thread test, the echo of the console, the command
      line.
    - C39 and C40, where the code does not do what it means to: the file header
      overflows, a multiplication loses its carries.

    The files hold more theorems of the same kind: the managers refine sets and
    maps, the bit map an array of booleans, the timer preempts, the lock version
    of the thread test, and others that show defects (exec starts at the second
    instruction, exec of a smaller program fails, a short segment overruns its
    frame, branches that deviate from the architecture, Release by a thread
    that does not hold the lock, a kernel with THREADS ignores its commands, the
    performance test of the file system fails, contiguous bss sections are
    refused, and without THREADS Remove of an empty synchronised list stops, the
    mail test stops and two threads meet in the disk).

    ** Fuel, and what is assumed

    Loops that are not structural run on fuel that is computed from the state,
    and the theorems that say that a routine returns show that it is enough: the
    number of cells of the heap in Lists, the length of the queue in Broadcast,
    the number of pending interrupts in CheckIfDue and in the wait for the disk,
    the size of the segment or of the name in ReadFile and ReadFileName, the
    number of arguments in System, the size of the text in Disasm.  The
    loops of P, Acquire, Yield and join that wait for another thread need none:
    each round is a step of the thread.  No theorem has [OutOfFuel] as an
    outcome.

    What is not under src/ or not initialised is a parameter: the byte order of
    the host; [uninit], the bytes of memory that was not initialised
    ([uninit_bytes]: they are bytes); the words, entries and headers that new
    leaves uninitialised ([header_room], [entry_ok]: they have the size of their
    type); the UNIX files that programs are loaded from ([files_are_bytes]); the
    random numbers of the timer ([Random_nonneg]); the addresses of functions
    and objects that handlers are called with; the calls of UNIX that the
    interpreter of bin/ makes.  The sockets of the network keep the order of
    packets.  Whether a command of the command line comes back is a parameter
    where it depends on the files.  Semaphore values and the numbers of the
    elevator's callers are not cut to 32 bits, which takes 2^31 calls.  A new
    list element or thread has an address that was not used before.

    ** What is not modelled, and why

    Output (printf, Print, List, DumpState, debug messages), destructors that
    only free memory, the assembly of threads/switch.s and the host calls of
    machine/sysdep.cc except those on files, the keyboard and sockets that the
    devices use.  The file system is used by one thread, as filesys.cc says.  The
    system calls Create, Open, Read, Write and Close have no code in
    exception.cc.  bin/main, bin/out, bin/coff2flat and the loading of
    bin/disasm are written against headers and a library of MIPS systems that
    are not in the repository; main and disasm also read from a stream that was
    closed.  The user programs of test/ and the c++examples are not part of
    the kernel; vm/ holds only a Makefile. *)

From stdpp Require Import base list gmap sorting.
From Stdlib Require Import ZArith Lia.

#[global] Open Scope Z_scope.

(** ** Outcomes of C++ code

    A routine of the kernel either returns or stops.  [ASSERT] calls
    [Abort()] (threads/utility.h, machine/sysdep.cc); an access through a
    freed or null pointer or outside an array is undefined behaviour in C++
    and is kept apart as a stop of its own, so that a theorem that some call
    returns [Ok] also says that the call is memory safe.  [MachineHalts] is the
    end of the simulation by [Interrupt::Halt] in the middle of a routine. *)
Inductive error : Type :=
  | AssertionFailed
  | UseAfterFree
  | NullDereference
  | OutOfBounds
  | OutOfFuel
  | MachineHalts.

Inductive result (A : Type) : Type :=
  | Ok (a : A)
  | Err (e : error).
Arguments Ok {A} a.
Arguments Err {A} e.

#[global] Instance error_eq_dec : EqDecision error.
Proof. solve_decision. Defined.

#[global] Instance result_ret : MRet result := λ A a, Ok a.
#[global] Instance result_bind : MBind result := λ A B f m,
  match m with Ok a => f a | Err e => Err e end.

(** [ASSERT(condition)] of threads/utility.h. *)
Definition ASSERT (condition : bool) : result unit :=
  if condition then Ok tt else Err AssertionFailed.

Definition is_ok {A} (r : result A) : bool :=
  match r with Ok _ => true | Err _ => false end.

(** ** The build

    threads/synch.cc has locks and condition variables only when THREADS is
    defined; in the other builds [Acquire], [Release], [Signal] and [Broadcast]
    are empty and [Wait] is [ASSERT(FALSE)].  The Makefiles of threads and of
    filesys define it, those of userprog and of network do not. *)
Class SynchBuild := THREADS_defined : bool.
Class RealLocks `{SynchBuild} : Prop := with_THREADS : THREADS_defined = true.

(** ** Machine integers

    [unsigned int] and [int] are 32 bits wide.  [u32] and [s32] are the
    conversions to the two types: reduction modulo 2^32 into [0, 2^32) and
    into [-2^31, 2^31). *)
Definition u32 (z : Z) : Z := z mod 2 ^ 32.
Definition s32 (z : Z) : Z := (z + 2 ^ 31) mod 2 ^ 32 - 2 ^ 31.

Definition is_u32 (z : Z) : Prop := 0 ≤ z < 2 ^ 32.
Definition is_s32 (z : Z) : Prop := - 2 ^ 31 ≤ z < 2 ^ 31.

(** [divRoundDown] and [divRoundUp] of threads/utility.h; [/] and [%] of C++
    truncate towards zero. *)
Definition divRoundDown (n s : Z) : Z := Z.quot n s.
Definition divRoundUp (n s : Z) : Z :=
  Z.quot n s + (if Z.rem n s >? 0 then 1 else 0).

Lemma u32_range z : is_u32 (u32 z).
Proof. apply Z.mod_pos_bound. lia. Qed.

Lemma s32_range z : is_s32 (s32 z).
Proof. unfold is_s32, s32. pose proof (Z.mod_pos_bound (z + 2 ^ 31) (2 ^ 32)). lia. Qed.

Lemma u32_id z : is_u32 z → u32 z = z.
Proof. intros. by apply Z.mod_small. Qed.

Lemma s32_id z : is_s32 z → s32 z = z.
Proof. intros H. unfold s32, is_s32 in *. rewrite Z.mod_small; lia. Qed.

Lemma u32_idem z : u32 (u32 z) = u32 z.
Proof. apply u32_id, u32_range. Qed.

Lemma u32_s32 z : u32 (s32 z) = u32 z.
Proof.
  unfold u32, s32. rewrite Zminus_mod_idemp_l. f_equal. lia.
Qed.

Lemma s32_u32 z : s32 (u32 z) = s32 z.
Proof. unfold u32, s32. by rewrite Zplus_mod_idemp_l. Qed.

Lemma u32_add_s32 z c : u32 (s32 z + c) = u32 (z + c).
Proof.
  unfold u32. rewrite <- Zplus_mod_idemp_l. fold (u32 (s32 z)). rewrite u32_s32. apply Zplus_mod_idemp_l.
Qed.

Lemma s32_add_s32 z c : s32 (s32 z + c) = s32 (z + c).
Proof. by rewrite <- (s32_u32 (s32 z + c)), u32_add_s32, s32_u32. Qed.

(** Two's complement, spelled out. *)
Lemma s32_cases z : is_u32 z → s32 z = if z <? 2 ^ 31 then z else z - 2 ^ 32.
Proof.
  unfold is_u32, s32. intros H. destruct (Z.ltb_spec z (2 ^ 31)).
  - rewrite Z.mod_small; lia.
  - replace (z + 2 ^ 31) with (z - 2 ^ 31 + 1 * 2 ^ 32) by lia.
    rewrite Z.mod_add by lia. rewrite Z.mod_small; lia.
Qed.

(** ** Bits *)

Lemma u32_testbit z i : 0 ≤ i → Z.testbit (u32 z) i = (i <? 32) && Z.testbit z i.
Proof.
  intros Hi. unfold u32. destruct (Z.ltb_spec i 32).
  - by rewrite Z.mod_pow2_bits_low by lia.
  - by rewrite Z.mod_pow2_bits_high by lia.
Qed.

Lemma s32_testbit z i : 0 ≤ i < 32 → Z.testbit (s32 z) i = Z.testbit z i.
Proof.
  intros Hi. pose proof (u32_testbit (s32 z) i) as H1. pose proof (u32_testbit z i) as H2.
  rewrite u32_s32, H2 in H1 by lia. destruct (Z.ltb_spec i 32); [|lia]. symmetry. apply H1. lia.
Qed.

Lemma u32_bits_eq a b :
  is_u32 a → is_u32 b → (∀ i, 0 ≤ i < 32 → Z.testbit a i = Z.testbit b i) → a = b.
Proof.
  intros Ha Hb H. rewrite <- (u32_id a Ha), <- (u32_id b Hb).
  apply Z.bits_inj'. intros i Hi. rewrite !u32_testbit by lia.
  destruct (Z.ltb_spec i 32); [|done]. simpl. apply H. lia.
Qed.

Lemma u32_lor a b : u32 (Z.lor a b) = Z.lor (u32 a) (u32 b).
Proof.
  apply Z.bits_inj'. intros i Hi. rewrite Z.lor_spec, !u32_testbit, Z.lor_spec by lia.
  by destruct (i <? 32).
Qed.

Lemma u32_land a b : u32 (Z.land a b) = Z.land (u32 a) (u32 b).
Proof.
  apply Z.bits_inj'. intros i Hi. rewrite Z.land_spec, !u32_testbit, Z.land_spec by lia.
  by destruct (i <? 32).
Qed.

Lemma u32_lxor a b : u32 (Z.lxor a b) = Z.lxor (u32 a) (u32 b).
Proof.
  apply Z.bits_inj'. intros i Hi. rewrite Z.lxor_spec, !u32_testbit, Z.lxor_spec by lia.
  by destruct (i <? 32).
Qed.

Lemma is_u32_lor a b : is_u32 a → is_u32 b → is_u32 (Z.lor a b).
Proof. intros Ha Hb. rewrite <- (u32_id a Ha), <- (u32_id b Hb), <- u32_lor. apply u32_range. Qed.

Lemma is_u32_land a b : is_u32 a → is_u32 b → is_u32 (Z.land a b).
Proof. intros Ha Hb. rewrite <- (u32_id a Ha), <- (u32_id b Hb), <- u32_land. apply u32_range. Qed.

Lemma is_u32_lxor a b : is_u32 a → is_u32 b → is_u32 (Z.lxor a b).
Proof. intros Ha Hb. rewrite <- (u32_id a Ha), <- (u32_id b Hb), <- u32_lxor. apply u32_range. Qed.

(** Masking with a word gives a word. *)
Lemma is_u32_land_r a b : is_u32 b → is_u32 (Z.land a b).
Proof.
  intros Hb. replace (Z.land a b) with (u32 (Z.land a b)); [apply u32_range|].
  apply Z.bits_inj'. intros i Hi. rewrite u32_testbit, Z.land_spec by lia.
  rewrite <- (u32_id b Hb), u32_testbit by lia. by destruct (i <? 32), (Z.testbit a i).
Qed.

(** [1 << k] as a word. *)
Lemma testbit_one_shl k i :
  0 ≤ k → 0 ≤ i < 32 → Z.testbit (u32 (Z.shiftl 1 k)) i = (i =? k).
Proof.
  intros Hk Hi. rewrite u32_testbit by lia. destruct (Z.ltb_spec i 32); [|lia].
  rewrite Z.shiftl_1_l, Z.pow2_bits_eqb by lia. simpl. apply Z.eqb_sym.
Qed.

(** The sign bit of a word. *)
Lemma sign_bit_clear x : is_u32 x → (Z.land x 0x80000000 =? 0) = (x <? 2 ^ 31).
Proof.
  intros Hx. unfold is_u32 in Hx.
  assert (Z.testbit x 31 = negb (x <? 2 ^ 31)) as Ht.
  { apply eq_true_iff_eq. rewrite Z.testbit_true by lia. rewrite negb_true_iff, Z.ltb_ge.
    Z.to_euclidean_division_equations; lia. }
  assert (∀ i, 0 ≤ i → Z.testbit 0x80000000 i = (31 =? i)) as Hm
    by (intros i Hi; change 0x80000000 with (2 ^ 31); by rewrite Z.pow2_bits_eqb by lia).
  destruct (x <? 2 ^ 31); cbn [negb] in Ht.
  - apply Z.eqb_eq, Z.bits_inj'. intros i Hi. rewrite Z.land_spec, Hm, Z.bits_0 by done.
    destruct (Z.eqb_spec 31 i) as [<-|]; [by rewrite Ht|apply andb_false_r].
  - apply Z.eqb_neq. intros H0. pose proof (Z.land_spec x 0x80000000 31) as H.
    by rewrite H0, Z.bits_0, Ht in H.
Qed.

Lemma lor_1_even x : Z.lor (2 * x) 1 = 2 * x + 1.
Proof.
  assert (Z.land (2 * x) 1 = 0) as H.
  { change 1 with (Z.ones 1). rewrite Z.land_ones, Z.mul_comm by lia. by apply Z.mod_mul. }
  by rewrite Z.add_nocarry_lxor, Z.lxor_lor.
Qed.

Lemma divRoundUp_spec n s :
  0 ≤ n → 0 < s → s * (divRoundUp n s - 1) < n ≤ s * divRoundUp n s.
Proof.
  intros Hn Hs. unfold divRoundUp. rewrite Z.quot_div_nonneg, Z.rem_mod_nonneg by lia.
  pose proof (Z.div_mod n s). pose proof (Z.mod_pos_bound n s).
  destruct (Z.gtb_spec (n mod s) 0); nia.
Qed.

Lemma divRoundUp_nonneg n s : 0 ≤ n → 0 < s → 0 ≤ divRoundUp n s.
Proof. intros Hn Hs. pose proof (divRoundUp_spec n s Hn Hs). nia. Qed.

(** ** Arrays

    An array is the list of its elements.  An index outside it is undefined
    behaviour in C++ and [Err OutOfBounds] here. *)
Definition aget {A} (l : list A) (i : Z) : result A :=
  if i <? 0 then Err OutOfBounds
  else match l !! Z.to_nat i with Some x => Ok x | None => Err OutOfBounds end.

Definition aset {A} (l : list A) (i : Z) (x : A) : result (list A) :=
  _ ← aget l i; Ok (<[Z.to_nat i := x]> l).

Lemma aget_Some {A} (l : list A) i x :
  0 ≤ i → l !! Z.to_nat i = Some x → aget l i = Ok x.
Proof. intros Hi Hx. unfold aget. destruct (Z.ltb_spec i 0); [lia|]. by rewrite Hx. Qed.

Lemma aget_ok {A} (l : list A) i :
  0 ≤ i < Z.of_nat (length l) → ∃ x, l !! Z.to_nat i = Some x ∧ aget l i = Ok x.
Proof.
  intros Hi. destruct (lookup_lt_is_Some_2 l (Z.to_nat i)) as [x Hx]; [lia|].
  exists x. split; [done|]. apply aget_Some; [lia|done].
Qed.

Lemma aget_Ok_inv {A} (l : list A) i x :
  aget l i = Ok x → 0 ≤ i < Z.of_nat (length l) ∧ l !! Z.to_nat i = Some x.
Proof.
  unfold aget. destruct (Z.ltb_spec i 0); [done|].
  destruct (l !! Z.to_nat i) eqn:E; [|done]. intros; simplify_eq.
  apply lookup_lt_Some in E as ?. split; [lia|done].
Qed.

Lemma aset_ok {A} (l : list A) i x :
  0 ≤ i < Z.of_nat (length l) → aset l i x = Ok (<[Z.to_nat i := x]> l).
Proof. intros Hi. destruct (aget_ok l i Hi) as (y & _ & Hy). unfold aset. by rewrite Hy. Qed.

Lemma aset_out {A} (l : list A) i x :
  ¬ (0 ≤ i < Z.of_nat (length l)) → aset l i x = Err OutOfBounds.
Proof.
  intros Hi. unfold aset, aget. destruct (Z.ltb_spec i 0); [done|].
  by rewrite lookup_ge_None_2 by lia.
Qed.

Lemma Forall_inserts {A} (P : A → Prop) i k (l : list A) :
  Forall P k → Forall P l → Forall P (list_inserts i k l).
Proof.
  intros Hk Hl. revert i. induction Hk as [|x k Hx _ IH]; intros i; simpl; [done|].
  by apply Forall_insert.
Qed.

(** Overwriting a stretch of a list leaves the rest. *)
Lemma inserts_ne {A} (l k : list A) (i j : nat) :
  ¬ (i ≤ j < i + length k)%nat → list_inserts i k l !! j = l !! j.
Proof.
  intros Hj. destruct (decide (j < i)%nat); [by apply list_lookup_inserts_lt|].
  apply list_lookup_inserts_ge. lia.
Qed.

Lemma inserts_insert {A} (l k : list A) (i : nat) (x : A) :
  (i < length l)%nat → list_inserts (S i) k (<[i := x]> l) = list_inserts i (x :: k) l.
Proof.
  intros Hi. apply list_eq. intros j. cbn [list_inserts]. destruct (decide (j = i)) as [->|Hne].
  - rewrite list_lookup_inserts_lt by lia. by rewrite !list_lookup_insert_eq by (rewrite ?length_inserts; lia).
  - rewrite list_lookup_insert_ne by done. destruct (decide (S i ≤ j < S i + length k)%nat) as [Hj|Hj].
    + destruct (decide (j < length l)%nat).
      * by rewrite !list_lookup_inserts by (rewrite ?length_insert; lia).
      * by rewrite !lookup_ge_None_2 by (rewrite length_inserts, ?length_insert; lia).
    + rewrite !inserts_ne by lia. by rewrite list_lookup_insert_ne.
Qed.

Lemma inserts_in_l {A} (l1 l2 k : list A) (i : nat) :
  (i + length k ≤ length l1)%nat →
  list_inserts i k (l1 ++ l2) = list_inserts i k l1 ++ l2.
Proof.
  revert i. induction k as [|x k IH]; intros i Hi; simpl in *; [done|].
  rewrite IH by lia. apply insert_app_l. rewrite length_inserts. lia.
Qed.

Lemma inserts_all {A} (k l : list A) : length k = length l → list_inserts 0 k l = k.
Proof.
  intros Hl. apply list_eq. intros i. destruct (decide (i < length k)%nat).
  - rewrite list_lookup_inserts by lia. f_equal. lia.
  - rewrite !lookup_ge_None_2; [done|lia|rewrite length_inserts; lia].
Qed.

Lemma inserts_prefix {A} (k l : list A) :
  (length k ≤ length l)%nat → list_inserts 0 k l = k ++ drop (length k) l.
Proof.
  intros Hl. rewrite <- (take_drop (length k) l) at 1. rewrite inserts_in_l.
  - by rewrite inserts_all by (rewrite length_take; lia).
  - rewrite length_take. lia.
Qed.

(** ** Lists without duplicates *)

Lemma NoDup_fmap_inj_in {A B} (f : A → B) (l : list A) x y :
  NoDup (f <$> l) → x ∈ l → y ∈ l → f x = f y → x = y.
Proof.
  intros Hnd (i & Hi)%list_elem_of_lookup (j & Hj)%list_elem_of_lookup Heq.
  assert (i = j) as ->; [|congruence].
  eapply NoDup_lookup; [exact Hnd|rewrite list_lookup_fmap, Hi; reflexivity|].
  rewrite list_lookup_fmap, Hj. simpl. by rewrite Heq.
Qed.

(** ** Counting *)

(** How many elements of a list satisfy a test. *)
Definition number {A} (f : A → bool) (l : list A) : nat := length (filter (λ x, f x = true) l).

Lemma number_cons {A} (f : A → bool) x l : number f (x :: l) = ((if f x then 1 else 0) + number f l)%nat.
Proof. unfold number. rewrite filter_cons. destruct (f x); repeat case_decide; done. Qed.

Lemma number_app {A} (f : A → bool) l k : number f (l ++ k) = (number f l + number f k)%nat.
Proof. unfold number. by rewrite filter_app, length_app. Qed.

Lemma number_insert {A} (f : A → bool) l i x y :
  l !! i = Some x → (number f (<[i := y]> l) + (if f x then 1 else 0) = number f l + (if f y then 1 else 0))%nat.
Proof.
  revert i. induction l as [|z l IH]; intros [|i] Hi; simplify_eq/=; rewrite !number_cons.
  - lia.
  - specialize (IH i Hi). lia.
Qed.

Lemma number_delete {A} (f : A → bool) l i x :
  l !! i = Some x → (number f (delete i l) + (if f x then 1 else 0) = number f l)%nat.
Proof.
  revert i. induction l as [|z l IH]; intros [|i] Hi; simplify_eq/=; rewrite !number_cons.
  - lia.
  - specialize (IH i Hi). lia.
Qed.

Lemma number_none {A} (f : A → bool) l : (∀ i x, l !! i = Some x → f x = false) → number f l = 0%nat.
Proof.
  induction l as [|z l IH]; intros H; [done|]. rewrite number_cons, (H 0%nat z eq_refl), IH; [done|].
  intros i x Hx. by apply (H (S i)).
Qed.

Lemma number_some {A} (f : A → bool) l i x : l !! i = Some x → f x = true → (0 < number f l)%nat.
Proof.
  revert i. induction l as [|z l IH]; intros [|i] Hi Hf; simplify_eq/=; rewrite number_cons; [rewrite Hf; lia|].
  specialize (IH i Hi Hf). lia.
Qed.

Lemma number_singleton {A} (f : A → bool) x : number f [x] = if f x then 1%nat else 0%nat.
Proof. rewrite number_cons. change (number f []) with 0%nat. by destruct (f x). Qed.

Lemma number_pos {A} (f : A → bool) l : (0 < number f l)%nat → ∃ i x, l !! i = Some x ∧ f x = true.
Proof.
  induction l as [|z l IH]; [by intros ?%Nat.lt_irrefl|]. rewrite number_cons. destruct (f z) eqn:E; [by exists 0%nat, z|].
  intros H. destruct (IH ltac:(lia)) as (i & x & Hi & Hx). by exists (S i), x.
Qed.

Lemma number_two {A} (f : A → bool) l i j x y :
  l !! i = Some x → l !! j = Some y → i ≠ j → f x = true → f y = true → (2 ≤ number f l)%nat.
Proof.
  revert i j. induction l as [|z l IH]; intros [|i] [|j] Hi Hj Hne Hx Hy; simplify_eq/=; rewrite number_cons.
  - pose proof (number_some f l j y Hj Hy). rewrite Hx. lia.
  - pose proof (number_some f l i x Hi Hx). rewrite Hy. lia.
  - specialize (IH i j Hi Hj ltac:(congruence) Hx Hy). lia.
Qed.

Lemma number_negb {A} (f : A → bool) l : (number f l + number (λ x, negb (f x)) l = length l)%nat.
Proof. induction l as [|z l IH]; [done|]. rewrite !number_cons. simpl. destruct (f z); simpl; lia. Qed.

(** All elements but one have the property. *)
Lemma number_but_one {A} (f : A → bool) l i j x y :
  l !! i = Some x → f x = false → (length l ≤ S (number f l))%nat → l !! j = Some y → j ≠ i → f y = true.
Proof.
  intros Hi Hx Hl Hj Hne. destruct (f y) eqn:Hy; [done|]. exfalso. pose proof (number_negb f l).
  pose proof (number_two (λ x, negb (f x)) l j i y x Hj Hi Hne) as H2. simpl in H2. rewrite Hx, Hy in H2. specialize (H2 eq_refl eq_refl). lia.
Qed.

(** An element of a list of which one element was replaced. *)
Lemma lookup_insert_cases {A} (l : list A) i j x y :
  <[i := x]> l !! j = Some y → (j = i ∧ y = x) ∨ (j ≠ i ∧ l !! j = Some y).
Proof. intros [(-> & -> & _)|[? ?]]%list_lookup_insert_Some; auto. Qed.

(** ** Automation *)

(** Run a monadic block as far as its known outcomes allow. *)
Ltac run_ok := cbn [mbind result_bind mret result_ret ASSERT].

(** Use the outcome of each step of a block that returned. *)
Ltac bind_inv :=
  repeat match goal with
  | H : mbind _ ?r = Ok _ |- _ =>
    let E := fresh "E" in
    destruct r eqn:E; cbn [mbind result_bind] in H; [|discriminate H]
  | H : Ok _ = Ok _ |- _ => injection H as H; subst
  | H : Err _ = Ok _ |- _ => discriminate H
  end.

Create HintDb nachos.
#[export] Hint Resolve u32_range s32_range is_u32_lor is_u32_land is_u32_lxor : nachos.
Create Rewrite HintDb nachos.
#[export] Hint Rewrite u32_idem u32_s32 s32_u32 : nachos.
