(* ===== verification/Lists.v ===== *)
(** * Linked lists: threads/list.h, threads/list.cc

    [NachosList] is the pointer program: list elements live in a heap, [first]
    and [last] are pointers, and [delete] makes a cell inaccessible.
    [ListModel] is what the rest of the development uses in its place: the
    sequence of items with their keys, and one bit that says that [last] points
    to an element that has been deleted.  The refinement theorems at the end
    relate the two operation by operation, undefined behaviour included. *)

From stdpp Require Import base list gmap sorting.
From S2P Require Import Prelude.

(** The pointer program. *)
Module NachosList.

Abbreviation loc := positive.

(** [class ListElement]; a [void *] item is its address, [NULL] is 0. *)
Record ListElement := mkElement {
  next : option loc;
  key : Z;
  item : Z;
}.

(** The C++ heap, as far as list elements are concerned.  [brk] is the next
    address [operator new] hands out: addresses are not handed out twice, so a
    dangling pointer stays recognisable. *)
Record heap := mkHeap {
  cells : gmap loc ListElement;
  brk : loc;
}.

(** [class List]. *)
Record List := mkList {
  first : option loc;
  last : option loc;
}.

Definition NULL : Z := 0.

(** ** Pointer accesses *)

Definition new (h : heap) (e : ListElement) : loc * heap :=
  (brk h, mkHeap (<[brk h := e]> (cells h)) (Pos.succ (brk h))).

Definition deref (h : heap) (p : option loc) : result ListElement :=
  match p with
  | None => Err NullDereference
  | Some a => match cells h !! a with
              | Some e => Ok e
              | None => Err UseAfterFree
              end
  end.

Definition store (h : heap) (p : option loc) (e : ListElement) : result heap :=
  _ ← deref h p;
  match p with
  | Some a => Ok (mkHeap (<[a := e]> (cells h)) (brk h))
  | None => Err NullDereference
  end.

Definition free (h : heap) (p : option loc) : result heap :=
  _ ← deref h p;
  match p with
  | Some a => Ok (mkHeap (delete a (cells h)) (brk h))
  | None => Err NullDereference
  end.

(** [p->next = q]. *)
Definition set_next (h : heap) (p q : option loc) : result heap :=
  e ← deref h p;
  store h p (mkElement q (key e) (item e)).

(** ** Operations of class List *)

Definition ListElement_new (itemPtr sortKey : Z) : ListElement :=
  mkElement None sortKey itemPtr.

Definition List_new : List := mkList None None.

Definition IsEmpty (l : List) : bool :=
  match first l with None => true | Some _ => false end.

Definition Append (h : heap) (l : List) (itemPtr : Z) : result (heap * List) :=
  let '(element, h) := new h (ListElement_new itemPtr 0) in
  if IsEmpty l then
    Ok (h, mkList (Some element) (Some element))
  else
    h ← set_next h (last l) (Some element);
    Ok (h, mkList (first l) (Some element)).

Definition Prepend (h : heap) (l : List) (itemPtr : Z) : result (heap * List) :=
  let '(element, h) := new h (ListElement_new itemPtr 0) in
  if IsEmpty l then
    Ok (h, mkList (Some element) (Some element))
  else
    h ← set_next h (Some element) (first l);
    Ok (h, mkList (Some element) (last l)).

(** The [for] loop of [SortedInsert], at [ptr]. *)
Fixpoint SortedInsert_loop (fuel : nat) (h : heap) (l : List) (ptr : option loc)
    (element : loc) (sortKey : Z) : result (heap * List) :=
  match fuel with
  | O => Err OutOfFuel
  | S fuel =>
    e ← deref h ptr;
    match next e with
    | None =>
      h ← set_next h (last l) (Some element);
      Ok (h, mkList (first l) (Some element))
    | Some _ =>
      e' ← deref h (next e);
      if sortKey <? key e' then
        h ← set_next h (Some element) (next e);
        h ← set_next h ptr (Some element);
        Ok (h, l)
      else SortedInsert_loop fuel h l (next e) element sortKey
    end
  end.

Definition SortedInsert (h : heap) (l : List) (itemPtr sortKey : Z)
    : result (heap * List) :=
  let '(element, h) := new h (ListElement_new itemPtr sortKey) in
  if IsEmpty l then
    Ok (h, mkList (Some element) (Some element))
  else
    e ← deref h (first l);
    if sortKey <? key e then
      h ← set_next h (Some element) (first l);
      Ok (h, mkList (Some element) (last l))
    else
      SortedInsert_loop (S (size (cells h))) h l (first l) element sortKey.

(** Returns the item and, for [*keyPtr], its key; [NULL] and no key when the
    list is empty. *)
Definition SortedRemove (h : heap) (l : List)
    : result (Z * option Z * heap * List) :=
  let element := first l in
  if IsEmpty l then Ok (NULL, None, h, l)
  else
    e ← deref h (first l);
    let thing := item e in
    let l' := if decide (first l = last l) then mkList None None
              else mkList (next e) (last l) in
    h ← free h element;
    Ok (thing, Some (key e), h, l').

Definition Remove (h : heap) (l : List) : result (Z * heap * List) :=
  '(thing, _, h, l) ← SortedRemove h l;
  Ok (thing, h, l).

(** The [while] loop of [RemoveElement], with its two pointers. *)
Fixpoint RemoveElement_loop (fuel : nat) (h : heap) (l : List)
    (previous current : option loc) (x : Z) : result (Z * heap * List) :=
  match fuel with
  | O => Err OutOfFuel
  | S fuel =>
    match current with
    | None => Ok (NULL, h, l)
    | Some _ =>
      e ← deref h current;
      if negb (item e =? x) then
        RemoveElement_loop fuel h l current (next e) x
      else
        let thing := item e in
        h ← set_next h previous (next e);
        h ← free h current;
        Ok (thing, h, l)
    end
  end.

Definition RemoveElement (h : heap) (l : List) (x : Z)
    : result (Z * heap * List) :=
  match first l with
  | Some _ =>
    e ← deref h (first l);
    if item e =? x then
      let l' := mkList (next e) (last l) in
      let thing := item e in
      h ← free h (first l);
      Ok (thing, h, l')
    else RemoveElement_loop (S (size (cells h))) h l None (first l) x
  | None => RemoveElement_loop (S (size (cells h))) h l None None x
  end.

Fixpoint Search_loop (fuel : nat) (h : heap) (current : option loc) (x : Z)
    : result bool :=
  match fuel with
  | O => Err OutOfFuel
  | S fuel =>
    match current with
    | None => Ok false
    | Some _ =>
      e ← deref h current;
      if item e =? x then Ok true else Search_loop fuel h (next e) x
    end
  end.

Definition Search (h : heap) (l : List) (x : Z) : result bool :=
  Search_loop (S (size (cells h))) h (first l) x.

Fixpoint Mapcar_loop {W} (func : W → Z → W) (fuel : nat) (h : heap)
    (ptr : option loc) (w : W) : result W :=
  match fuel with
  | O => Err OutOfFuel
  | S fuel =>
    match ptr with
    | None => Ok w
    | Some _ =>
      e ← deref h ptr;
      Mapcar_loop func fuel h (next e) (func w (item e))
    end
  end.

(** [func] acts on a state [W] of its own, not on the list. *)
Definition Mapcar {W} (func : W → Z → W) (h : heap) (l : List) (w : W)
    : result W :=
  Mapcar_loop func (S (size (cells h))) h (first l) w.

(** [List::~List]: remove until an item is [NULL]. *)
Fixpoint List_delete_loop (fuel : nat) (h : heap) (l : List) : result (heap * List) :=
  match fuel with
  | O => Err OutOfFuel
  | S fuel =>
    '(thing, h, l) ← Remove h l;
    if thing =? NULL then Ok (h, l) else List_delete_loop fuel h l
  end.

Definition List_delete (h : heap) (l : List) : result (heap * List) :=
  List_delete_loop (S (size (cells h))) h l.

End NachosList.

(** The sequence view: what a list is to the code that uses it. *)
Module ListModel.

(** Items with their keys, in list order.  [dangling] records that [last]
    points to a deleted element: it can only be set while the list is not
    empty, since every operation tests [first] before it looks at [last]. *)
Record qlist := mkQ {
  items : list (Z * Z);
  dangling : bool;
}.

Definition empty : qlist := mkQ [] false.

Definition IsEmpty (q : qlist) : bool :=
  match items q with [] => true | _ => false end.

(** [last->next = element; last = element]. *)
Definition link_at_end (q : qlist) (e : Z * Z) : result qlist :=
  if dangling q then Err UseAfterFree else Ok (mkQ (items q ++ [e]) false).

Definition Append (q : qlist) (x : Z) : result qlist :=
  if IsEmpty q then Ok (mkQ [(x, 0)] false) else link_at_end q (x, 0).

Definition Prepend (q : qlist) (x : Z) : qlist :=
  mkQ ((x, 0) :: items q) (dangling q).

(** The elements before the insertion point of [k], and those after it. *)
Fixpoint before (k : Z) (l : list (Z * Z)) : list (Z * Z) :=
  match l with
  | [] => []
  | e :: l => if k <? e.2 then [] else e :: before k l
  end.

Fixpoint after (k : Z) (l : list (Z * Z)) : list (Z * Z) :=
  match l with
  | [] => []
  | e :: l => if k <? e.2 then e :: l else after k l
  end.

Definition SortedInsert (q : qlist) (x k : Z) : result qlist :=
  match items q, after k (items q) with
  | [], _ => Ok (mkQ [(x, k)] false)
  | _, [] => link_at_end q (x, k)
  | _, rest => Ok (mkQ (before k (items q) ++ (x, k) :: rest) (dangling q))
  end.

Definition drop_first (q : qlist) (rest : list (Z * Z)) : qlist :=
  mkQ rest (match rest with [] => false | _ => dangling q end).

Definition SortedRemove (q : qlist) : Z * option Z * qlist :=
  match items q with
  | [] => (0, None, q)
  | (x, k) :: rest => (x, Some k, drop_first q rest)
  end.

Definition Remove (q : qlist) : Z * qlist :=
  let '(x, _, q) := SortedRemove q in (x, q).

(** Split at the first occurrence of an item. *)
Fixpoint split_at (x : Z) (l : list (Z * Z))
    : option (list (Z * Z) * Z * list (Z * Z)) :=
  match l with
  | [] => None
  | (y, k) :: l =>
    if y =? x then Some ([], k, l)
    else match split_at x l with
         | Some (pre, k', post) => Some ((y, k) :: pre, k', post)
         | None => None
         end
  end.

Definition RemoveElement (q : qlist) (x : Z) : Z * qlist :=
  match split_at x (items q) with
  | None => (0, q)
  | Some ([], _, post) => (x, drop_first q post)
  | Some (pre, _, post) =>
    (x, mkQ (pre ++ post) (match post with [] => true | _ => dangling q end))
  end.

Definition Search (q : qlist) (x : Z) : bool :=
  existsb (λ e, e.1 =? x) (items q).

Definition Mapcar {W} (func : W → Z → W) (q : qlist) (w : W) : W :=
  fold_left func ((items q).*1) w.

(** Sorted by key, in the order [Interrupt] relies on. *)
Definition by_key (e1 e2 : Z * Z) : Prop := e1.2 ≤ e2.2.

Lemma before_after k l : before k l ++ after k l = l.
Proof. induction l as [|e l IH]; csimpl; [done|]. by destruct (k <? e.2); csimpl; rewrite ?IH. Qed.

Lemma before_le k l e : e ∈ before k l → e.2 ≤ k.
Proof.
  induction l as [|e' l IH]; csimpl; [set_solver|].
  destruct (Z.ltb_spec k e'.2); set_solver by lia.
Qed.

Lemma after_nil k l : after k l = [] → before k l = l.
Proof. intros H. pose proof (before_after k l) as E. by rewrite H, app_nil_r in E. Qed.

Lemma split_at_Some x l pre k post :
  split_at x l = Some (pre, k, post) →
  l = pre ++ (x, k) :: post ∧ x ∉ pre.*1.
Proof.
  revert pre. induction l as [|[y k'] l IH]; intros pre; csimpl; [done|].
  destruct (Z.eqb_spec y x) as [->|Hne]; [intros; simplify_eq; set_solver|].
  destruct (split_at x l) as [[[pre' k''] post']|]; [|done].
  intros; simplify_eq. destruct (IH pre' eq_refl) as [-> ?]. set_solver.
Qed.

Lemma split_at_None x l : split_at x l = None → x ∉ l.*1.
Proof.
  induction l as [|[y k'] l IH]; csimpl; [set_solver|].
  destruct (Z.eqb_spec y x) as [->|Hne]; [done|].
  destruct (split_at x l) as [[[pre' k''] post']|]; set_solver.
Qed.

Lemma StronglySorted_split (l1 l2 : list (Z * Z)) e :
  StronglySorted by_key (l1 ++ l2) →
  (∀ a, a ∈ l1 → by_key a e) → (∀ a, a ∈ l2 → by_key e a) →
  StronglySorted by_key (l1 ++ e :: l2).
Proof.
  induction l1 as [|a l1 IH]; csimpl; intros Hs H1 H2.
  - constructor; [done|]. apply Forall_forall; auto.
  - apply StronglySorted_inv in Hs as [Hs Ha]. constructor.
    + apply IH; set_solver.
    + rewrite Forall_app in Ha |- *. destruct Ha. split; [done|].
      constructor; [|done]. apply H1; set_solver.
Qed.

Lemma after_gt k l :
  StronglySorted by_key l → ∀ e, e ∈ after k l → k < e.2.
Proof.
  induction l as [|e' l IH]; csimpl; intros Hs e; [set_solver|].
  apply StronglySorted_inv in Hs as [Hs Ha].
  destruct (Z.ltb_spec k e'.2); [|auto].
  intros [->|He]%elem_of_cons; [done|].
  rewrite Forall_forall in Ha. specialize (Ha e He). unfold by_key in Ha. lia.
Qed.

Lemma sorted_insert_items k x l :
  StronglySorted by_key l → StronglySorted by_key (before k l ++ (x, k) :: after k l).
Proof.
  intros Hs. apply StronglySorted_split.
  - by rewrite before_after.
  - intros a ?%before_le. done.
  - intros a Ha. pose proof (after_gt k l Hs a Ha). unfold by_key; simpl; lia.
Qed.

Lemma SortedInsert_ok q x k q' :
  SortedInsert q x k = Ok q' →
  items q' = before k (items q) ++ (x, k) :: after k (items q).
Proof.
  unfold SortedInsert, link_at_end.
  destruct (items q) as [|e l] eqn:Ei; [by intros; simplify_eq|].
  destruct (after k (e :: l)) as [|a r] eqn:Ea.
  - rewrite (after_nil _ _ Ea). by destruct (dangling q); intros; simplify_eq.
  - by intros; simplify_eq.
Qed.

Lemma SortedInsert_total q x k :
  dangling q = false → ∃ q', SortedInsert q x k = Ok q' ∧ dangling q' = false.
Proof.
  intros Hd. unfold SortedInsert, link_at_end. rewrite Hd.
  destruct (items q); [eauto|]. destruct (after _ _); eauto.
Qed.

End ListModel.

(** The pointer program refines the sequence view. *)
Module ListRefinement.
Import NachosList.

(** A node: its address, and its item and key. *)
Abbreviation nodes := (list (loc * (Z * Z))).

(** The cells from [p] up to (not including) [q] hold the nodes [ns]. *)
Fixpoint lseg (c : gmap loc ListElement) (p : option loc) (ns : nodes) (q : option loc)
    : Prop :=
  match ns with
  | [] => p = q
  | (a, (x, k)) :: ns =>
    p = Some a ∧ ∃ n, c !! a = Some (mkElement n k x) ∧ lseg c n ns q
  end.

(** [l] is a list with nodes [ns] in heap [h]; [d] says whether [l->last]
    dangles. *)
Record lrel (h : heap) (l : List) (ns : nodes) (d : bool) : Prop := mkLrel {
  lr_chain : lseg (cells h) (first l) ns None;
  lr_nodup : NoDup ns.*1;
  lr_fresh : ∀ a, (brk h ≤ a)%positive → cells h !! a = None;
  lr_last : match list.last ns with
            | None => d = false
            | Some (a, _) =>
              if d then ∃ b, last l = Some b ∧ cells h !! b = None ∧ (b < brk h)%positive
              else last l = Some a
            end;
}.

Definition represents (h : heap) (l : List) (q : ListModel.qlist) : Prop :=
  ∃ ns, lrel h l ns (ListModel.dangling q) ∧ ns.*2 = ListModel.items q.

(** What an operation on the list [ns] leaves alone: every cell outside it. *)
Record frame (h h' : heap) (ns ns' : nodes) : Prop := mkFrame {
  fr_brk : (brk h ≤ brk h')%positive;
  fr_out : ∀ a, (a < brk h)%positive → a ∉ ns.*1 → cells h' !! a = cells h !! a;
  fr_new : ∀ a, a ∈ ns'.*1 → a ∈ ns.*1 ∨ (brk h ≤ a)%positive;
}.

(** An operation's outcome on the heap, against its outcome on the sequence. *)
Definition refines (h : heap) (ns : nodes) (r : result (heap * List))
    (m : result ListModel.qlist) : Prop :=
  match r, m with
  | Ok (h', l'), Ok q' =>
    ∃ ns', lrel h' l' ns' (ListModel.dangling q') ∧
           ns'.*2 = ListModel.items q' ∧ frame h h' ns ns'
  | Err e, Err e' => e = e'
  | _, _ => False
  end.

Section lseg.
Implicit Types (c : gmap loc ListElement) (ns : nodes).

Lemma lseg_app c p ns1 ns2 q :
  lseg c p (ns1 ++ ns2) q ↔ ∃ r, lseg c p ns1 r ∧ lseg c r ns2 q.
Proof.
  revert p. induction ns1 as [|[a [x k]] ns1 IH]; intros p; csimpl.
  - naive_solver.
  - setoid_rewrite IH. naive_solver.
Qed.

Lemma lseg_same c c' p ns q :
  (∀ a, a ∈ ns.*1 → c' !! a = c !! a) → lseg c p ns q → lseg c' p ns q.
Proof.
  revert p. induction ns as [|[a [x k]] ns IH]; intros p Hs; csimpl; [done|].
  intros [-> (n & Ha & Hn)]. split; [done|]. exists n. split.
  - rewrite Hs; [done|set_solver].
  - apply IH; set_solver.
Qed.

Lemma lseg_insert c p ns q a e :
  a ∉ ns.*1 → lseg c p ns q → lseg (<[a := e]> c) p ns q.
Proof.
  intros Ha. apply lseg_same. intros b Hb. apply lookup_insert_ne. set_solver.
Qed.

Lemma lseg_delete c p ns q a :
  a ∉ ns.*1 → lseg c p ns q → lseg (delete a c) p ns q.
Proof.
  intros Ha. apply lseg_same. intros b Hb. apply lookup_delete_ne. set_solver.
Qed.

Lemma lseg_alive c p ns q a : lseg c p ns q → a ∈ ns.*1 → is_Some (c !! a).
Proof.
  revert p. induction ns as [|[b [x k]] ns IH]; intros p; csimpl; [set_solver|].
  intros [-> (n & Hb & Hn)] [->|?]%elem_of_cons; eauto.
Qed.

Lemma lseg_length c p ns q : lseg c p ns q → NoDup ns.*1 → (length ns ≤ size c)%nat.
Proof.
  intros Hl Hn. rewrite <- (length_fmap fst), <- size_dom.
  rewrite <- (size_list_to_set (C := gset loc) ns.*1) by done.
  apply subseteq_size. intros a Ha%elem_of_list_to_set.
  apply elem_of_dom. by eapply lseg_alive.
Qed.
End lseg.

Lemma lrel_below h l ns d a : lrel h l ns d → a ∈ ns.*1 → (a < brk h)%positive.
Proof.
  intros [Hc _ Hf _] Ha. destruct (decide (a < brk h)%positive); [done|].
  destruct (lseg_alive _ _ _ _ a Hc Ha) as [e He].
  rewrite Hf in He by lia. done.
Qed.

Lemma lrel_fresh_notin h l ns d : lrel h l ns d → brk h ∉ ns.*1.
Proof. intros Hr Hin. pose proof (lrel_below _ _ _ _ _ Hr Hin). lia. Qed.

Lemma frame_refl h ns : frame h h ns ns.
Proof. split; [lia|done|auto]. Qed.

(** An operation on one list leaves every list with other nodes as it was. *)
Lemma frame_other h h' ns ns' l2 ns2 d2 :
  frame h h' ns ns' → (∀ a, (brk h' ≤ a)%positive → cells h' !! a = None) →
  (∀ a, a ∈ ns.*1 → is_Some (cells h !! a)) →
  ns2.*1 ## ns.*1 → lrel h l2 ns2 d2 → lrel h' l2 ns2 d2 ∧ ns2.*1 ## ns'.*1.
Proof.
  intros [Hb Ho Hn] Hf Hal Hd Hr2. pose proof Hr2 as [Hc2 Hn2 Hf2 Hl2].
  split; [split|].
  - apply (lseg_same (cells h)); [|done]. intros a Ha.
    apply Ho; [by eapply lrel_below|]. intros Ha'. by apply (Hd a).
  - done.
  - done.
  - destruct (list.last ns2) as [[a ?]|]; [|done]. destruct d2; [|done].
    destruct Hl2 as (b & ? & Hb2 & ?). exists b. split_and!; [done| |lia].
    rewrite Ho; [done|lia|]. intros [e He]%Hal. congruence.
  - intros a Ha2 Ha'. destruct (Hn a Ha') as [?|?]; [by apply (Hd a)|].
    pose proof (lrel_below _ _ _ _ _ Hr2 Ha2). lia.
Qed.

(** ** Pointer accesses on live and dead cells *)

Lemma deref_ok h a e : cells h !! a = Some e → deref h (Some a) = Ok e.
Proof. intros H. unfold deref. by rewrite H. Qed.

Lemma set_next_ok h a e q :
  cells h !! a = Some e →
  set_next h (Some a) q =
    Ok (mkHeap (<[a := mkElement q (key e) (item e)]> (cells h)) (brk h)).
Proof. intros H. unfold set_next, store. by rewrite (deref_ok _ _ _ H). Qed.

Lemma set_next_dead h b q : cells h !! b = None → set_next h (Some b) q = Err UseAfterFree.
Proof. intros H. unfold set_next, deref. by rewrite H. Qed.

Lemma free_ok h a e :
  cells h !! a = Some e → free h (Some a) = Ok (mkHeap (delete a (cells h)) (brk h)).
Proof. intros H. unfold free. by rewrite (deref_ok _ _ _ H). Qed.

Lemma lseg_snoc c p ns a x k :
  lseg c p (ns ++ [(a, (x, k))]) None ↔
  lseg c p ns (Some a) ∧ c !! a = Some (mkElement None k x).
Proof. rewrite lseg_app. simpl. naive_solver. Qed.

Lemma lseg_first c a v ns q p : lseg c p ((a, v) :: ns) q → p = Some a.
Proof. destruct v. by intros [-> _]. Qed.

(** The heap just after [new ListElement]. *)
Definition new_heap (h : heap) (x k : Z) : heap := (new h (ListElement_new x k)).2.

Lemma new_heap_fresh h x k a :
  (∀ a, (brk h ≤ a)%positive → cells h !! a = None) →
  (brk (new_heap h x k) ≤ a)%positive → cells (new_heap h x k) !! a = None.
Proof.
  simpl. intros Hf Ha. rewrite lookup_insert_ne by lia. apply Hf. lia.
Qed.

Lemma singleton_sim h l x k :
  lrel h l [] false →
  refines h [] (Ok (new_heap h x k, mkList (Some (brk h)) (Some (brk h))))
    (Ok (ListModel.mkQ [(x, k)] false)).
Proof.
  intros [_ _ Hf _]. exists [(brk h, (x, k))]. split_and!; [split|done|split].
  - csimpl. split; [done|]. exists None. by rewrite lookup_insert_eq.
  - apply NoDup_singleton.
  - intros a. by apply new_heap_fresh.
  - done.
  - simpl; lia.
  - intros a ? _. simpl. rewrite lookup_insert_ne by lia. done.
  - simpl. set_solver by lia.
Qed.

(** [element->next = first; first = element]. *)
Lemma link_at_front_sim h l ns d x k :
  lrel h l ns d → ns ≠ [] →
  refines h ns
    (h2 ← set_next (new_heap h x k) (Some (brk h)) (first l);
     Ok (h2, mkList (Some (brk h)) (last l)))
    (Ok (ListModel.mkQ ((x, k) :: ns.*2) d)).
Proof.
  intros Hr Hne. pose proof Hr as [Hc Hn Hf Hl].
  pose proof (lrel_fresh_notin _ _ _ _ Hr) as Hnew.
  erewrite set_next_ok by (simpl; apply lookup_insert_eq).
  simpl. rewrite insert_insert_eq.
  exists ((brk h, (x, k)) :: ns). split_and!; [split|done|split]; simpl.
  - split; [done|]. exists (first l). rewrite lookup_insert_eq. split; [done|].
    by apply lseg_insert.
  - by constructor.
  - intros a Ha. rewrite lookup_insert_ne by lia. apply Hf. lia.
  - destruct ns as [|n ns]; [done|]. rewrite last_cons_cons.
    destruct (list.last (n :: ns)) as [[a ?]|]; [|done]. destruct d; [|done].
    destruct Hl as (b & ? & ? & ?). exists b. split_and!; [done| |lia].
    by rewrite lookup_insert_ne by lia.
  - lia.
  - intros a ? _. by rewrite lookup_insert_ne by lia.
  - set_solver by lia.
Qed.

(** [last->next = element; last = element]. *)
Lemma link_at_end_sim h l ns d x k :
  lrel h l ns d → ns ≠ [] →
  refines h ns
    (h2 ← set_next (new_heap h x k) (last l) (Some (brk h));
     Ok (h2, mkList (first l) (Some (brk h))))
    (ListModel.link_at_end (ListModel.mkQ ns.*2 d) (x, k)).
Proof.
  intros Hr Hne. pose proof Hr as [Hc Hn Hf Hl].
  pose proof (lrel_fresh_notin _ _ _ _ Hr) as Hnew.
  destruct ns as [|[a [y ky]] ns _] using rev_ind; [done|].
  rewrite last_snoc in Hl. unfold ListModel.link_at_end; simpl. destruct d.
  - destruct Hl as (b & -> & Hb & Hlt).
    by rewrite set_next_dead by (simpl; rewrite lookup_insert_ne by lia; done).
  - rewrite fmap_app in Hnew, Hn. csimpl in *.
    apply lseg_snoc in Hc as [Hc Ha]. rewrite Hl.
    erewrite set_next_ok by (simpl; rewrite lookup_insert_ne by set_solver; done).
    simpl. apply NoDup_app in Hn as (Hn & Hna & _).
    exists ((ns ++ [(a, (y, ky))]) ++ [(brk h, (x, k))]).
    split_and!; [split|by rewrite fmap_app|split]; simpl.
    + apply lseg_app. exists (Some (brk h)). split; [apply lseg_app; exists (Some a); split|].
      * apply lseg_insert; [set_solver|]. apply lseg_insert; [set_solver|done].
      * simpl. split; [done|]. exists (Some (brk h)). by rewrite lookup_insert_eq.
      * simpl. split; [done|]. exists None.
        rewrite lookup_insert_ne by set_solver. by rewrite lookup_insert_eq.
    + rewrite !fmap_app. csimpl. rewrite <- app_assoc. apply NoDup_app. split_and!; [done|set_solver|].
      apply NoDup_cons. split; [set_solver|apply NoDup_singleton].
    + intros b Hb. assert (a < brk h)%positive.
      { apply (lrel_below _ _ _ _ _ Hr). set_solver. }
      rewrite !lookup_insert_ne by lia. apply Hf. lia.
    + by rewrite last_snoc.
    + lia.
    + intros b Hb Hb'. rewrite !lookup_insert_ne by (try lia; set_solver). done.
    + rewrite !fmap_app. set_solver by lia.
Qed.

Lemma lrel_nil_first h l d : lrel h l [] d → first l = None ∧ d = false.
Proof. intros [Hc _ _ Hl]. done. Qed.

Lemma lrel_cons_IsEmpty h l n ns d : lrel h l (n :: ns) d → IsEmpty l = false.
Proof. intros [Hc _ _ _]. destruct n. unfold IsEmpty. by rewrite (lseg_first _ _ _ _ _ _ Hc). Qed.

Lemma Append_sim h l ns d x :
  lrel h l ns d →
  refines h ns (Append h l x) (ListModel.Append (ListModel.mkQ ns.*2 d) x).
Proof.
  intros Hr. unfold Append, ListModel.Append. destruct ns as [|n ns].
  - destruct (lrel_nil_first _ _ _ Hr) as [E ->]. unfold IsEmpty; rewrite E.
    by apply singleton_sim with l.
  - simpl. rewrite (lrel_cons_IsEmpty _ _ _ _ _ Hr). by apply link_at_end_sim.
Qed.

Lemma Prepend_sim h l ns d x :
  lrel h l ns d →
  refines h ns (Prepend h l x) (Ok (ListModel.Prepend (ListModel.mkQ ns.*2 d) x)).
Proof.
  intros Hr. unfold Prepend, ListModel.Prepend. destruct ns as [|n ns].
  - destruct (lrel_nil_first _ _ _ Hr) as [E ->]. unfold IsEmpty; rewrite E.
    by apply singleton_sim with l.
  - simpl. rewrite (lrel_cons_IsEmpty _ _ _ _ _ Hr). by apply (link_at_front_sim h l (n :: ns)).
Qed.

(** ** SortedInsert *)

Lemma before_app k l1 l2 :
  (∀ e, e ∈ l1 → e.2 ≤ k) →
  ListModel.before k (l1 ++ l2) = l1 ++ ListModel.before k l2.
Proof.
  induction l1 as [|e l1 IH]; simpl; intros H; [done|].
  destruct (Z.ltb_spec k e.2) as [Hlt|_]; [|by rewrite IH by set_solver].
  assert (e.2 ≤ k) by (apply H; set_solver). lia.
Qed.

Lemma after_app k l1 l2 :
  (∀ e, e ∈ l1 → e.2 ≤ k) → ListModel.after k (l1 ++ l2) = ListModel.after k l2.
Proof.
  induction l1 as [|e l1 IH]; simpl; intros H; [done|].
  destruct (Z.ltb_spec k e.2) as [Hlt|_]; [|by rewrite IH by set_solver].
  assert (e.2 ≤ k) by (apply H; set_solver). lia.
Qed.

(** The insertion between [(a, _)] and the node after it. *)
Lemma link_between_sim h l pre a va b vb post d x k :
  lrel h l (pre ++ (a, va) :: (b, vb) :: post) d →
  refines h (pre ++ (a, va) :: (b, vb) :: post)
    (h2 ← set_next (new_heap h x k) (Some (brk h)) (Some b);
     h3 ← set_next h2 (Some a) (Some (brk h));
     Ok (h3, l))
    (Ok (ListModel.mkQ (pre.*2 ++ va :: (x, k) :: vb :: post.*2) d)).
Proof.
  intros Hr. pose proof Hr as [Hc Hn Hf Hl].
  pose proof (lrel_fresh_notin _ _ _ _ Hr) as Hnew.
  pose proof (lrel_below _ _ _ _ a Hr ltac:(rewrite fmap_app; set_solver)) as Ha.
  apply lseg_app in Hc as (p & Hpre & Hc). destruct va as [xa ka]. simpl in Hc.
  destruct Hc as [-> (n & Hca & Hc)]. pose proof (lseg_first _ _ _ _ _ _ Hc) as ->.
  rewrite fmap_app in *; csimpl in *.
  erewrite set_next_ok by (simpl; apply lookup_insert_eq).
  simpl. rewrite insert_insert_eq.
  erewrite set_next_ok by (simpl; rewrite lookup_insert_ne by lia; done). simpl.
  apply NoDup_app in Hn as (Hnp & Hnd & Hn). apply NoDup_cons in Hn as [Hna Hn].
  exists (pre ++ (a, (xa, ka)) :: (brk h, (x, k)) :: (b, vb) :: post).
  split_and!; [split|by rewrite fmap_app|split]; simpl.
  - apply lseg_app. exists (Some a). split.
    { apply lseg_insert; [set_solver|]. apply lseg_insert; [set_solver|done]. }
    simpl. split; [done|]. exists (Some (brk h)). rewrite lookup_insert_eq. split; [done|].
    split; [done|]. exists (Some b). rewrite lookup_insert_ne, lookup_insert_eq by lia.
    split; [done|].
    apply (lseg_insert _ _ ((b, vb) :: post)); [set_solver|].
    apply (lseg_insert _ _ ((b, vb) :: post)); [set_solver|done].
  - rewrite fmap_app. apply NoDup_app. split_and!; [done|set_solver|].
    csimpl. do 2 (apply NoDup_cons; split; [set_solver|]). done.
  - intros c Hc'. rewrite !lookup_insert_ne by lia. apply Hf. lia.
  - rewrite last_app_cons, last_cons_cons in Hl. rewrite last_app_cons, !last_cons_cons.
    destruct (list.last ((b, vb) :: post)) as [[a' ?]|]; [|done]. destruct d; [|done].
    destruct Hl as (c & ? & ? & ?). exists c. split_and!; [done| |lia].
    rewrite !lookup_insert_ne; [done|lia|intros ->; congruence].
  - lia.
  - intros c Hc' Hout. rewrite !lookup_insert_ne by (try lia; rewrite fmap_app in Hout; set_solver). done.
  - rewrite !fmap_app. set_solver by lia.
Qed.

Lemma SortedInsert_loop_sim h l ns d x k post :
  lrel h l ns d →
  ∀ pre a y ky fuel,
  ns = pre ++ (a, (y, ky)) :: post → (length post < fuel)%nat →
  (∀ e, e ∈ pre.*2 ++ [(y, ky)] → e.2 ≤ k) →
  refines h ns (SortedInsert_loop fuel (new_heap h x k) l (Some a) (brk h) k)
    (ListModel.SortedInsert (ListModel.mkQ ns.*2 d) x k).
Proof.
  intros Hr. pose proof (lrel_fresh_notin _ _ _ _ Hr) as Hnew.
  pose proof (lr_chain _ _ _ _ Hr) as Hc.
  induction post as [|[b [z kz]] post IH]; intros pre a y ky fuel Hns Hfuel Hle;
    destruct fuel as [|fuel]; [simpl in Hfuel; lia| |simpl in Hfuel; lia|].
  - (* at the last element *)
    subst ns. pose proof Hc as Hc'. apply lseg_snoc in Hc' as [_ Ha].
    rewrite fmap_app in Hnew. csimpl in Hnew.
    simpl. rewrite lookup_insert_ne by set_solver. rewrite Ha. simpl.
    assert (pre ++ [(a, (y, ky))] ≠ []) as Hne by (by destruct pre).
    pose proof (link_at_end_sim h l _ d x k Hr Hne) as Hend.
    unfold ListModel.SortedInsert. simpl.
    rewrite !fmap_app in *. csimpl in *.
    rewrite <- (app_nil_r (pre.*2 ++ [(y, ky)])), (after_app k _ []) by done. simpl.
    rewrite app_nil_r. destruct (pre.*2 ++ [(y, ky)]) eqn:E; [by destruct (pre.*2)|].
    done.
  - subst ns. pose proof Hc as Hc'. apply lseg_app in Hc' as (p & _ & Hc').
    destruct Hc' as [-> (n & Ha & Hc')]. pose proof (lseg_first _ _ _ _ _ _ Hc') as ->.
    destruct Hc' as [_ (n' & Hb & _)].
    rewrite fmap_app in Hnew. csimpl in Hnew.
    simpl. rewrite lookup_insert_ne by set_solver. rewrite Ha. simpl.
    rewrite lookup_insert_ne by set_solver. rewrite Hb. simpl.
    destruct (Z.ltb_spec k kz) as [Hlt|Hge].
    + pose proof (link_between_sim h l pre a (y, ky) b (z, kz) post d x k Hr) as Hmid.
      unfold ListModel.SortedInsert. simpl.
      replace ((pre ++ (a, (y, ky)) :: (b, (z, kz)) :: post).*2)
        with ((pre.*2 ++ [(y, ky)]) ++ (z, kz) :: post.*2)
        by (rewrite fmap_app; csimpl; by rewrite <- app_assoc).
      rewrite after_app, before_app by done. simpl.
      destruct (Z.ltb_spec k kz); [|lia]. rewrite app_nil_r.
      rewrite <- !app_assoc. csimpl.
      destruct (pre.*2 ++ (y, ky) :: (z, kz) :: post.*2) eqn:E; [by destruct (pre.*2)|].
      done.
    + apply (IH (pre ++ [(a, (y, ky))]) b z kz).
      * by rewrite <- app_assoc.
      * simpl in Hfuel. lia.
      * rewrite fmap_app. csimpl. intros e [He|He]%elem_of_app; [by apply Hle|].
        assert (e = (z, kz)) as -> by set_solver. simpl. lia.
Qed.

Lemma SortedInsert_sim h l ns d x k :
  lrel h l ns d →
  refines h ns (SortedInsert h l x k)
    (ListModel.SortedInsert (ListModel.mkQ ns.*2 d) x k).
Proof.
  intros Hr. destruct ns as [|[a [y ky]] ns].
  - destruct (lrel_nil_first _ _ _ Hr) as [E ->]. unfold SortedInsert, IsEmpty. rewrite E.
    by apply singleton_sim with l.
  - pose proof Hr as [Hc Hn Hf Hl].
    pose proof (lrel_fresh_notin _ _ _ _ Hr) as Hnew.
    pose proof (lseg_length _ _ _ _ Hc Hn) as Hlen.
    unfold SortedInsert. change (new _ _) with (brk h, new_heap h x k). cbv iota beta zeta.
    rewrite (lrel_cons_IsEmpty _ _ _ _ _ Hr), (lseg_first _ _ _ _ _ _ Hc).
    pose proof Hc as [_ (n & Ha & _)]. csimpl in Hnew. simpl in Hlen.
    rewrite (deref_ok _ _ (mkElement n ky y)) by (simpl; rewrite lookup_insert_ne by set_solver; done).
    cbn [mbind result_bind key].
    destruct (Z.ltb_spec k ky) as [Hlt|Hge].
    + pose proof (link_at_front_sim h l _ d x k Hr ltac:(done)) as Hfront.
      unfold ListModel.SortedInsert. simpl. destruct (Z.ltb_spec k ky); [|lia].
      destruct Hc as [Hfst _]. by rewrite Hfst in Hfront.
    + eapply (SortedInsert_loop_sim h l _ d x k ns Hr [] a y ky); [done| |].
      * simpl. rewrite map_size_insert_None by (by apply Hf). lia.
      * intros e He. assert (e = (y, ky)) as -> by set_solver. done.
Qed.

(** ** Removal *)

Definition refines_out {A} (h : heap) (ns : nodes) (r : result (A * heap * List))
    (m : A * ListModel.qlist) : Prop :=
  match r with
  | Ok (v, h', l') =>
    v = m.1 ∧ ∃ ns', lrel h' l' ns' (ListModel.dangling m.2) ∧
                     ns'.*2 = ListModel.items m.2 ∧ frame h h' ns ns'
  | Err _ => False
  end.

Lemma list_last_app_cons {A} (l1 : list A) x l2 :
  l2 ≠ [] → list.last (l1 ++ x :: l2) = list.last (l1 ++ l2).
Proof.
  intros H. destruct l2 as [|y l2]; [done|].
  by rewrite !last_app_cons, last_cons_cons.
Qed.

(** Deleting the first cell, [last] left as it is. *)
Lemma unlink_first h l a x k ns d lst :
  lrel h l ((a, (x, k)) :: ns) d → (ns ≠ [] → lst = last l) →
  ∀ n, cells h !! a = Some (mkElement n k x) →
  lrel (mkHeap (delete a (cells h)) (brk h)) (mkList n lst) ns
    (ListModel.dangling (ListModel.drop_first (ListModel.mkQ ((x, k) :: ns.*2) d) ns.*2)) ∧
  frame h (mkHeap (delete a (cells h)) (brk h)) ((a, (x, k)) :: ns) ns.
Proof.
  intros [[Hfst (n' & Ha' & Hc)] Hn Hf Hl] Hlst n Ha. assert (n' = n) as -> by congruence.
  csimpl in *.
  apply NoDup_cons in Hn as [Hna Hn]. split; split; simpl.
  - by apply lseg_delete.
  - done.
  - intros b Hb. rewrite lookup_delete_ne; [by apply Hf|]. intros ->. rewrite Hf in Ha; done.
  - destruct ns as [|n1 ns]; [done|]. simpl. rewrite last_cons_cons in Hl.
    rewrite Hlst by done.
    destruct (list.last (n1 :: ns)) as [[b ?]|]; [|done]. destruct d; [|done].
    destruct Hl as (b' & ? & ? & ?). exists b'. split_and!; [done| |done].
    apply lookup_delete_None; auto.
  - lia.
  - intros b ? Hb. rewrite lookup_delete_ne by set_solver. done.
  - set_solver.
Qed.

Lemma drop_first_items q ns : ListModel.items (ListModel.drop_first q ns) = ns.
Proof. done. Qed.

Lemma SortedRemove_sim h l ns d :
  lrel h l ns d →
  refines_out h ns (SortedRemove h l) (ListModel.SortedRemove (ListModel.mkQ ns.*2 d)).
Proof.
  intros Hr. destruct ns as [|[a [x k]] ns].
  - destruct (lrel_nil_first _ _ _ Hr) as [E ->]. unfold SortedRemove, IsEmpty. rewrite E.
    split; [done|]. exists []. split_and!; [done..|apply frame_refl].
  - pose proof Hr as [Hc Hn Hf Hl]. unfold SortedRemove.
    rewrite (lrel_cons_IsEmpty _ _ _ _ _ Hr). destruct Hc as [-> (n & Ha & Hc)].
    rewrite (deref_ok _ _ _ Ha). simpl. rewrite (free_ok _ _ _ Ha). simpl.
    split; [done|]. exists ns.
    destruct (decide (Some a = last l)) as [E|Hne].
    + (* the only element *)
      assert (ns = []) as ->.
      { destruct ns as [|n1 ns _] using rev_ind; [done|]. exfalso.
        rewrite app_comm_cons, last_snoc in Hl. destruct n1 as [b v].
        rewrite fmap_cons, fmap_app in Hn. csimpl in Hn. destruct d.
        - destruct Hl as (b' & ? & ? & ?). congruence.
        - apply NoDup_cons in Hn as [Hn _]. assert (a = b) as -> by congruence. set_solver. }
      simpl in Hc. subst n.
      destruct (unlink_first h l a x k [] d None Hr ltac:(done) None Ha) as [? ?].
      split_and!; done.
    + destruct (unlink_first h l a x k ns d (last l) Hr ltac:(done) n Ha) as [? ?].
      split_and!; done.
Qed.

Lemma Remove_sim h l ns d :
  lrel h l ns d →
  refines_out h ns (Remove h l) (ListModel.Remove (ListModel.mkQ ns.*2 d)).
Proof.
  intros Hr. pose proof (SortedRemove_sim h l ns d Hr) as H.
  unfold Remove, ListModel.Remove.
  destruct (SortedRemove h l) as [[[[v ok] h'] l']|]; [|done]. simpl.
  destruct (ListModel.SortedRemove _) as [[v' ok'] q']. by destruct H as [[=-> ->] ?].
Qed.

(** ** RemoveElement, Search, Mapcar *)

Lemma split_at_app x (l1 l2 : list (Z * Z)) :
  x ∉ l1.*1 →
  ListModel.split_at x (l1 ++ l2) =
  match ListModel.split_at x l2 with
  | Some (pre, k, post) => Some (l1 ++ pre, k, post)
  | None => None
  end.
Proof.
  induction l1 as [|[y k] l1 IH]; csimpl; intros Hx.
  - by destruct (ListModel.split_at x l2) as [[[??]?]|].
  - destruct (Z.eqb_spec y x); [set_solver|]. rewrite IH by set_solver.
    by destruct (ListModel.split_at x l2) as [[[??]?]|].
Qed.

(** [previous->next = current->next; delete current]. *)
Lemma unlink_after h l pre a va b vb post d n :
  lrel h l (pre ++ (a, va) :: (b, vb) :: post) d →
  cells h !! b = Some (mkElement n vb.2 vb.1) →
  ∃ h1, set_next h (Some a) n = Ok h1 ∧
  ∃ h2, free h1 (Some b) = Ok h2 ∧
  lrel h2 l (pre ++ (a, va) :: post) (match post with [] => true | _ => d end) ∧
  frame h h2 (pre ++ (a, va) :: (b, vb) :: post) (pre ++ (a, va) :: post).
Proof.
  intros Hr Hb. pose proof Hr as [Hc Hn Hf Hl].
  pose proof (lrel_below _ _ _ _ b Hr ltac:(rewrite fmap_app; set_solver)) as Hblt.
  apply lseg_app in Hc as (p & Hpre & Hc). destruct va as [xa ka], vb as [xb kb].
  destruct Hc as [-> (n1 & Ha & [-> (n2 & Hb' & Hc)])]. simpl in Hb.
  assert (n2 = n) as -> by congruence. clear Hb'.
  rewrite fmap_app in Hn. csimpl in Hn.
  apply NoDup_app in Hn as (Hnp & Hnd & Hn).
  apply NoDup_cons in Hn as [Hna Hn]. apply NoDup_cons in Hn as [Hnb Hn].
  eexists. split; [by apply (set_next_ok _ _ _ _ Ha)|].
  eexists. split; [apply (free_ok _ _ (mkElement n kb xb)); simpl; rewrite lookup_insert_ne by set_solver; done|].
  split; split; simpl.
  - apply lseg_app. exists (Some a). split.
    { apply lseg_delete; [set_solver|]. apply lseg_insert; [set_solver|done]. }
    simpl. split; [done|]. exists n.
    rewrite lookup_delete_ne, lookup_insert_eq by set_solver. split; [done|].
    apply lseg_delete; [set_solver|]. apply lseg_insert; [set_solver|done].
  - rewrite fmap_app. csimpl. apply NoDup_app. split_and!; [done|set_solver|].
    apply NoDup_cons. set_solver.
  - intros c Hlt. apply lookup_delete_None. right. rewrite lookup_insert_ne; [by apply Hf|].
    intros ->. rewrite Hf in Ha by done. done.
  - rewrite last_app_cons, last_cons_cons in Hl. rewrite last_app_cons.
    destruct post as [|[c vc] post].
    + simpl in Hl |- *. destruct d.
      * destruct Hl as (c & ? & ? & ?). exists c. split_and!; [done| |done].
        apply lookup_delete_None. right. rewrite lookup_insert_ne; [done|].
        intros ->; congruence.
      * exists b. split_and!; [done| |done]. apply lookup_delete_eq.
    + rewrite last_cons_cons in Hl |- *.
      destruct (list.last ((c, vc) :: post)) as [[a' ?]|]; [|done]. destruct d; [|done].
      destruct Hl as (c' & ? & ? & ?). exists c'. split_and!; [done| |done].
      apply lookup_delete_None. right. rewrite lookup_insert_ne; [done|].
      intros ->; congruence.
  - lia.
  - intros c ? Hout. rewrite fmap_app in Hout. csimpl in Hout.
    rewrite lookup_delete_ne, lookup_insert_ne by set_solver. done.
  - rewrite !fmap_app. set_solver.
Qed.

Lemma RemoveElement_loop_sim h l ns d x post :
  lrel h l ns d →
  ∀ pre a va fuel c,
  ns = pre ++ (a, va) :: post → lseg (cells h) c post None →
  (length post < fuel)%nat → x ∉ ((pre ++ [(a, va)]).*2).*1 →
  refines_out h ns (RemoveElement_loop fuel h l (Some a) c x)
    (ListModel.RemoveElement (ListModel.mkQ ns.*2 d) x).
Proof.
  intros Hr. induction post as [|[b [y k]] post IH];
    intros pre a va fuel c Hns Hc Hfuel Hx; destruct fuel as [|fuel]; simpl in Hfuel; try lia.
  - simpl in Hc. subst c ns. unfold ListModel.RemoveElement; simpl.
    rewrite <- (app_nil_r ((pre ++ [(a, va)]).*2)), split_at_app by done. simpl.
    split; [done|]. exists (pre ++ [(a, va)]). rewrite app_nil_r.
    split_and!; [done|done|apply frame_refl].
  - destruct Hc as [-> (n & Hb & Hc)].
    cbn [RemoveElement_loop]. rewrite (deref_ok _ _ _ Hb). cbn [mbind result_bind item next].
    destruct (Z.eqb_spec y x) as [->|Hne]; simpl negb; cbv iota.
    + subst ns. destruct (unlink_after h l pre a va b (x, k) post d n Hr Hb)
        as (h1 & -> & h2 & Hfr & Hr' & Hframe).
      cbn [mbind result_bind]. rewrite Hfr. cbn [mbind result_bind refines_out].
      unfold ListModel.RemoveElement; simpl.
      replace ((pre ++ (a, va) :: (b, (x, k)) :: post).*2)
        with ((pre ++ [(a, va)]).*2 ++ (x, k) :: post.*2)
        by (rewrite !fmap_app; csimpl; by rewrite <- app_assoc).
      rewrite split_at_app by done. simpl. rewrite Z.eqb_refl, app_nil_r, fmap_app. csimpl.
      destruct (pre.*2 ++ [va]) eqn:E; [by destruct (pre.*2)|]. rewrite <- E. simpl.
      split; [done|]. exists (pre ++ (a, va) :: post).
      split_and!; [by destruct post| |done].
      rewrite fmap_app, <- app_assoc. done.
    + apply (IH (pre ++ [(a, va)]) b (y, k)); [by subst; rewrite <- app_assoc|done|lia|].
      rewrite !fmap_app in *. csimpl. set_solver.
Qed.

Lemma RemoveElement_sim h l ns d x :
  lrel h l ns d →
  refines_out h ns (RemoveElement h l x)
    (ListModel.RemoveElement (ListModel.mkQ ns.*2 d) x).
Proof.
  intros Hr. destruct ns as [|[a [y k]] ns].
  - destruct (lrel_nil_first _ _ _ Hr) as [E ->]. unfold RemoveElement. rewrite E. simpl.
    split; [done|]. exists []. split_and!; [done..|apply frame_refl].
  - pose proof Hr as [Hc Hn Hf Hl]. pose proof (lseg_length _ _ _ _ Hc Hn) as Hlen.
    destruct Hc as [Hfst (n & Ha & Hc)]. unfold RemoveElement. rewrite Hfst.
    rewrite (deref_ok _ _ _ Ha). cbn [mbind result_bind item next].
    unfold ListModel.RemoveElement.
    change (ListModel.items _) with ((y, k) :: ns.*2). cbn [ListModel.split_at].
    destruct (Z.eqb_spec y x) as [->|Hne].
    + rewrite (free_ok _ _ _ Ha). cbn [mbind result_bind refines_out].
      destruct (unlink_first h l a x k ns d (last l) Hr ltac:(done) n Ha) as [? ?].
      split; [done|]. exists ns. split_and!; done.
    + cbn [RemoveElement_loop]. rewrite (deref_ok _ _ _ Ha).
      cbn [mbind result_bind item next]. destruct (Z.eqb_spec y x); [done|]. simpl negb. cbv iota.
      pose proof (RemoveElement_loop_sim h l _ d x ns Hr [] a (y, k) (size (cells h)) n
        eq_refl Hc ltac:(simpl in Hlen; lia) ltac:(set_solver)) as H.
      unfold ListModel.RemoveElement in H. csimpl in H.
      by destruct (Z.eqb_spec y x).
Qed.

Lemma Search_loop_sim h ns x : ∀ fuel p,
  lseg (cells h) p ns None → (length ns < fuel)%nat →
  Search_loop fuel h p x = Ok (existsb (λ e, e.1 =? x) ns.*2).
Proof.
  induction ns as [|[a [y k]] ns IH]; intros [|fuel] p Hc Hf; simpl in Hf; try lia.
  - by rewrite Hc.
  - destruct Hc as [-> (n & Ha & Hc)]. cbn [Search_loop].
    rewrite (deref_ok _ _ _ Ha). cbn [mbind result_bind item next]. csimpl.
    destruct (y =? x); [done|]. apply IH; [done|lia].
Qed.

Lemma Mapcar_loop_sim {W} (func : W → Z → W) h ns : ∀ fuel p w,
  lseg (cells h) p ns None → (length ns < fuel)%nat →
  Mapcar_loop func fuel h p w = Ok (fold_left func (ns.*2).*1 w).
Proof.
  induction ns as [|[a [y k]] ns IH]; intros [|fuel] p w Hc Hf; simpl in Hf; try lia.
  - by rewrite Hc.
  - destruct Hc as [-> (n & Ha & Hc)]. cbn [Mapcar_loop].
    rewrite (deref_ok _ _ _ Ha). cbn [mbind result_bind item next]. csimpl.
    apply IH; [done|lia].
Qed.

Lemma frame_trans h1 h2 h3 ns1 ns2 ns3 :
  frame h1 h2 ns1 ns2 → frame h2 h3 ns2 ns3 → frame h1 h3 ns1 ns3.
Proof.
  intros [Hb1 Ho1 Hn1] [Hb2 Ho2 Hn2]. split; [lia| |].
  - intros a Ha Hout. rewrite Ho2; [by apply Ho1|lia|].
    intros [?|?]%Hn1; [done|lia].
  - intros a [?|?]%Hn2; [by apply Hn1|right; lia].
Qed.

Lemma List_delete_loop_sim its : ∀ ns h l d fuel,
  lrel h l ns d → ns.*2 = its → (length its < fuel)%nat → NULL ∉ its.*1 →
  ∃ h' l', List_delete_loop fuel h l = Ok (h', l') ∧ lrel h' l' [] false ∧ frame h h' ns [].
Proof.
  induction its as [|[x k] its IH]; intros ns h l d [|fuel] Hr Hits Hfuel Hnull;
    simpl in Hfuel; try lia; cbn [List_delete_loop];
    pose proof (Remove_sim h l ns d Hr) as H; rewrite Hits in H;
    destruct (Remove h l) as [[[v h'] l']|]; try done;
    destruct H as (-> & ns' & Hr' & Hns & Hfr); simpl in *;
    cbn [mbind result_bind].
  - apply fmap_nil_inv in Hits as ->. apply fmap_nil_inv in Hns as ->.
    destruct (lrel_nil_first _ _ _ Hr) as [_ ->]. by exists h', l'.
  - destruct (Z.eqb_spec x NULL); [set_solver|].
    destruct (IH ns' h' l' _ fuel Hr' Hns ltac:(lia) ltac:(set_solver))
      as (h2 & l2 & -> & ? & ?).
    exists h2, l2. split_and!; [done..|by eapply frame_trans].
Qed.

(** ** Sequences of operations *)

Inductive op :=
  | OpAppend (x : Z)
  | OpPrepend (x : Z)
  | OpSortedInsert (x k : Z)
  | OpSortedRemove
  | OpRemoveElement (x : Z)
  | OpSearch (x : Z)
  | OpIsEmpty.

(** What the caller sees of one call. *)
Inductive out :=
  | OutUnit
  | OutItem (x : Z) (k : option Z)
  | OutBool (b : bool).

Definition step_heap (o : op) (s : heap * List) : result (out * (heap * List)) :=
  let '(h, l) := s in
  match o with
  | OpAppend x => s ← Append h l x; Ok (OutUnit, s)
  | OpPrepend x => s ← Prepend h l x; Ok (OutUnit, s)
  | OpSortedInsert x k => s ← SortedInsert h l x k; Ok (OutUnit, s)
  | OpSortedRemove => '(x, k, h, l) ← SortedRemove h l; Ok (OutItem x k, (h, l))
  | OpRemoveElement x => '(y, h, l) ← RemoveElement h l x; Ok (OutItem y None, (h, l))
  | OpSearch x => b ← Search h l x; Ok (OutBool b, (h, l))
  | OpIsEmpty => Ok (OutBool (IsEmpty l), (h, l))
  end.

Definition step_model (o : op) (q : ListModel.qlist) : result (out * ListModel.qlist) :=
  match o with
  | OpAppend x => q ← ListModel.Append q x; Ok (OutUnit, q)
  | OpPrepend x => Ok (OutUnit, ListModel.Prepend q x)
  | OpSortedInsert x k => q ← ListModel.SortedInsert q x k; Ok (OutUnit, q)
  | OpSortedRemove => let '(x, k, q) := ListModel.SortedRemove q in Ok (OutItem x k, q)
  | OpRemoveElement x => let '(y, q) := ListModel.RemoveElement q x in Ok (OutItem y None, q)
  | OpSearch x => Ok (OutBool (ListModel.Search q x), q)
  | OpIsEmpty => Ok (OutBool (ListModel.IsEmpty q), q)
  end.

(** All outputs of a run, or the first error. *)
Fixpoint run {S} (step : op → S → result (out * S)) (os : list op) (s : S)
    : result (list out) :=
  match os with
  | [] => Ok []
  | o :: os => '(v, s) ← step o s; vs ← run step os s; Ok (v :: vs)
  end.

Lemma step_sim_nodes h l ns d o :
  lrel h l ns d →
  match step_heap o (h, l), step_model o (ListModel.mkQ ns.*2 d) with
  | Ok (v, (h', l')), Ok (v', q') =>
    v = v' ∧ ∃ ns', lrel h' l' ns' (ListModel.dangling q') ∧
                    ns'.*2 = ListModel.items q' ∧ frame h h' ns ns'
  | Err e, Err e' => e = e'
  | _, _ => False
  end.
Proof.
  intros Hr. pose proof Hr as [Hc Hn _ _].
  pose proof (lseg_length _ _ _ _ Hc Hn) as Hlen.
  destruct o as [x|x|x k| |x|x|]; cbn [step_heap step_model].
  - pose proof (Append_sim h l ns d x Hr) as H.
    by destruct (Append h l x) as [[h' l']|e], (ListModel.Append _ x) as [q'|e'].
  - pose proof (Prepend_sim h l ns d x Hr) as H.
    by destruct (Prepend h l x) as [[h' l']|e].
  - pose proof (SortedInsert_sim h l ns d x k Hr) as H.
    by destruct (SortedInsert h l x k) as [[h' l']|e],
      (ListModel.SortedInsert _ x k) as [q'|e'].
  - pose proof (SortedRemove_sim h l ns d Hr) as H.
    destruct (SortedRemove h l) as [[[[v k] h'] l']|e]; [|done].
    destruct (ListModel.SortedRemove _) as [[v' k'] q']. by destruct H as [[= -> ->] H].
  - pose proof (RemoveElement_sim h l ns d x Hr) as H.
    destruct (RemoveElement h l x) as [[[v h'] l']|e]; [|done].
    destruct (ListModel.RemoveElement _ x) as [v' q']. by destruct H as [-> H].
  - unfold Search. rewrite (Search_loop_sim h ns x) by (done || lia). simpl.
    split; [done|]. exists ns. split_and!; [done|done|apply frame_refl].
  - split; [|exists ns; split_and!; [done|done|apply frame_refl]].
    unfold IsEmpty, ListModel.IsEmpty. destruct ns as [|[a v] ns]; simpl; [by rewrite Hc|].
    by rewrite (lseg_first _ _ _ _ _ _ Hc).
Qed.

Lemma step_sim h l q o :
  represents h l q →
  match step_heap o (h, l), step_model o q with
  | Ok (v, (h', l')), Ok (v', q') => v = v' ∧ represents h' l' q'
  | Err e, Err e' => e = e'
  | _, _ => False
  end.
Proof.
  intros (ns & Hr & Hq). destruct q as [its d]. simpl in Hr, Hq. subst its.
  pose proof (step_sim_nodes h l ns d o Hr) as H.
  destruct (step_heap o (h, l)) as [[v [h' l']]|e],
    (step_model o _) as [[v' q']|e']; try done.
  destruct H as [-> (ns' & ? & ? & _)]. split; [done|]. by exists ns'.
Qed.

Lemma run_sim os : ∀ h l q,
  represents h l q → run step_heap os (h, l) = run step_model os q.
Proof.
  induction os as [|o os IH]; intros h l q Hr; cbn [run]; [done|].
  pose proof (step_sim h l q o Hr) as H.
  destruct (step_heap o (h, l)) as [[v [h' l']]|e],
    (step_model o q) as [[v' q']|e']; try done; cbn [mbind result_bind].
  - destruct H as [-> Hr']. by rewrite (IH h' l' q' Hr').
  - by subst.
Qed.

Definition empty_heap : heap := mkHeap ∅ 1%positive.

Lemma new_represents : represents empty_heap List_new ListModel.empty.
Proof.
  exists []. split; [|done].
  split; [done|constructor|intros a _; apply lookup_empty|done].
Qed.

(** C28: the linked list is a sequence.  Any program of calls on a newly
    constructed [List] gives, call by call, the results that the sequence view
    gives: append at the end, prepend at the front, insert before the first
    larger key, remove the head, remove the first occurrence of an item,
    membership.  The runs agree on undefined behaviour too, and no loop runs
    out of fuel, so every loop terminates. *)
Theorem list_refines_sequence os :
  run step_heap os (empty_heap, List_new) = run step_model os ListModel.empty.
Proof. apply run_sim, new_represents. Qed.

(** A list built with [SortedInsert] stays sorted: inserting into a list
    sorted by key returns, and leaves a sorted list that holds the old elements
    and the new one, the new one after every element with the same key. *)
Theorem sorted_insert_sorted h l q x k :
  represents h l q → ListModel.dangling q = false →
  StronglySorted ListModel.by_key (ListModel.items q) →
  ∃ h' l' q',
    SortedInsert h l x k = Ok (h', l') ∧ represents h' l' q' ∧
    ListModel.dangling q' = false ∧
    StronglySorted ListModel.by_key (ListModel.items q') ∧
    Permutation (ListModel.items q') ((x, k) :: ListModel.items q) ∧
    (∃ l1 l2, ListModel.items q = l1 ++ l2 ∧ ListModel.items q' = l1 ++ (x, k) :: l2 ∧
              (∀ e, e ∈ l1 → e.2 ≤ k) ∧ (∀ e, e ∈ l2 → k < e.2)).
Proof.
  intros (ns & Hr & Hq) Hd Hs. destruct q as [its d]. simpl in *. subst its d.
  pose proof (SortedInsert_sim h l ns false x k Hr) as H.
  destruct (ListModel.SortedInsert_total (ListModel.mkQ ns.*2 false) x k eq_refl)
    as (q' & Hq' & Hd').
  rewrite Hq' in H. destruct (SortedInsert h l x k) as [[h' l']|]; [|done].
  destruct H as (ns' & Hr' & Hns' & _). apply ListModel.SortedInsert_ok in Hq'. simpl in Hq'.
  exists h', l', q'. split_and!; [done|by exists ns'|done|..]; rewrite Hq'.
  - by apply ListModel.sorted_insert_items.
  - rewrite <- Permutation_middle, ListModel.before_after. done.
  - exists (ListModel.before k ns.*2), (ListModel.after k ns.*2).
    rewrite ListModel.before_after. split_and!; [done|done|apply ListModel.before_le|].
    by apply ListModel.after_gt.
Qed.

(** A heap with the list of items 1 and 2, both with key 0. *)
Definition sample_heap : heap :=
  mkHeap {[1%positive := mkElement (Some 2%positive) 0 1;
           2%positive := mkElement None 0 2]} 3%positive.
Definition sample_list : List := mkList (Some 1%positive) (Some 2%positive).

Lemma sample_represents :
  represents sample_heap sample_list (ListModel.mkQ [(1, 0); (2, 0)] false).
Proof.
  exists [(1%positive, (1, 0)); (2%positive, (2, 0))]. split; [|done]. split; simpl.
  - split; [done|]. eexists. split; [reflexivity|]. split; [done|].
    eexists. by split; [reflexivity|].
  - apply NoDup_cons. split; [set_solver|apply NoDup_singleton].
  - intros a Ha. by rewrite lookup_insert_ne, lookup_singleton_ne by lia.
  - done.
Qed.

Lemma sorted_insert_sorted_witness :
  ∃ h' l' q', SortedInsert sample_heap sample_list 9 (-1) = Ok (h', l') ∧
    represents h' l' q' ∧ StronglySorted ListModel.by_key (ListModel.items q').
Proof.
  destruct (sorted_insert_sorted sample_heap sample_list _ 9 (-1) sample_represents)
    as (h' & l' & q' & H); [reflexivity|repeat constructor; unfold ListModel.by_key; simpl; lia|].
  exists h', l', q'. tauto.
Defined.

(** [RemoveElement] does not maintain [last].  Removing the element at the
    end of a list of two or more elements leaves [last] pointing to the deleted
    cell, so that the next [Append] writes through a dangling pointer. *)
Theorem remove_last_then_append h l q pre x k y :
  represents h l q → ListModel.items q = pre ++ [(x, k)] → pre ≠ [] → x ∉ pre.*1 →
  ∃ h1 l1, RemoveElement h l x = Ok (x, h1, l1) ∧
           represents h1 l1 (ListModel.mkQ pre true) ∧
           Append h1 l1 y = Err UseAfterFree.
Proof.
  intros (ns & Hr & Hq) Hits Hne Hx. destruct q as [its d]. simpl in *. subst its.
  pose proof (RemoveElement_sim h l ns d x Hr) as H. rewrite Hits in H.
  unfold ListModel.RemoveElement in H. simpl in H. rewrite split_at_app in H by done.
  simpl in H. rewrite Z.eqb_refl in H. destruct pre as [|e pre]; [done|]. simpl in H.
  rewrite ?app_nil_r in H.
  destruct (RemoveElement h l x) as [[[r h1] l1]|]; [|done].
  destruct H as (-> & ns1 & Hr1 & Hns1 & _). simpl in Hr1, Hns1. rewrite ?app_nil_r in Hns1.
  exists h1, l1. split_and!; [done|by exists ns1|].
  pose proof (Append_sim h1 l1 ns1 true y Hr1) as H2.
  rewrite Hns1 in H2. unfold ListModel.Append, ListModel.link_at_end in H2.
  simpl in H2. destruct (Append h1 l1 y) as [[??]|e']; [done|]. by rewrite H2.
Qed.

Lemma remove_last_then_append_witness :
  ∃ h1 l1, RemoveElement sample_heap sample_list 2 = Ok (2, h1, l1) ∧
           Append h1 l1 3 = Err UseAfterFree.
Proof.
  destruct (remove_last_then_append sample_heap sample_list _ [(1, 0)] 2 0 3 sample_represents)
    as (h1 & l1 & H1 & _ & H2); [reflexivity|done|set_solver|].
  by exists h1, l1.
Defined.

(** Lists do not interfere.  An operation on one list keeps every other
    list that lives in the same heap and shares no element with it, and the two
    lists still share no element afterwards. *)
Theorem list_frame h l ns d o v h' l' l2 ns2 d2 :
  lrel h l ns d → lrel h l2 ns2 d2 → ns2.*1 ## ns.*1 →
  step_heap o (h, l) = Ok (v, (h', l')) →
  lrel h' l2 ns2 d2 ∧ ∃ ns' d', lrel h' l' ns' d' ∧ ns2.*1 ## ns'.*1.
Proof.
  intros Hr Hr2 Hd Hstep. pose proof (step_sim_nodes h l ns d o Hr) as H.
  rewrite Hstep in H. destruct (step_model o _) as [[v' q']|]; [|done].
  destruct H as (_ & ns' & Hr' & _ & Hf).
  destruct (frame_other h h' ns ns' l2 ns2 d2 Hf (lr_fresh _ _ _ _ Hr')) as [? ?];
    [by intros a; apply lseg_alive with (1 := lr_chain _ _ _ _ Hr)|done|done|].
  eauto.
Qed.

(** Two one-element lists in one heap. *)
Definition two_lists_heap : heap :=
  mkHeap {[1%positive := mkElement None 0 11; 2%positive := mkElement None 0 22]} 3%positive.

Lemma two_lists_rel a x :
  cells two_lists_heap !! a = Some (mkElement None 0 x) →
  lrel two_lists_heap (mkList (Some a) (Some a)) [(a, (x, 0))] false.
Proof.
  intros Ha. split; simpl.
  - split; [done|]. by exists None.
  - apply NoDup_singleton.
  - intros b Hb. by rewrite lookup_insert_ne, lookup_singleton_ne by lia.
  - done.
Qed.

Lemma list_frame_witness : ∃ h', 
  lrel h' (mkList (Some 2%positive) (Some 2%positive)) [(2%positive, (22, 0))] false.
Proof.
  eexists. refine (proj1 (list_frame two_lists_heap (mkList (Some 1%positive) (Some 1%positive))
    [(1%positive, (11, 0))] false OpSortedRemove (OutItem 11 (Some 0)) _ _
    (mkList (Some 2%positive) (Some 2%positive)) [(2%positive, (22, 0))] false _ _ _ _)).
  - by apply two_lists_rel.
  - by apply two_lists_rel.
  - set_solver.
  - vm_compute. reflexivity.
Defined.

End ListRefinement.
