(* ===== verification/BitMap.v ===== *)
(** * Bit maps: userprog/bitmap.h, userprog/bitmap.cc

    The bits are packed 32 to a word; the operations work on the words with
    shifts and masks.  [bits] reads the words back as a list of booleans, and
    every operation is proved to be the obvious one on that list. *)

From stdpp Require Import base list gmap.
From S2P Require Import Prelude.

Module BitMap.

Definition BitsInByte : Z := 8.
Definition BitsInWord : Z := 32.

(** [class BitMap]. *)
Record BitMap := mkBitMap {
  numBits : Z;
  numWords : Z;
  map : list Z;
}.

(** [1 << (which % BitsInWord)], an [int], and its complement, each converted
    to [unsigned int]. *)
Definition mask (which : Z) : Z := u32 (Z.shiftl 1 (Z.rem which BitsInWord)).
Definition inv_mask (which : Z) : Z :=
  u32 (Z.lnot (s32 (Z.shiftl 1 (Z.rem which BitsInWord)))).

Definition in_range (b : BitMap) (which : Z) : bool :=
  (which >=? 0) && (which <? numBits b).

Definition Mark (b : BitMap) (which : Z) : result BitMap :=
  _ ← ASSERT (in_range b which);
  w ← aget (map b) (Z.quot which BitsInWord);
  m ← aset (map b) (Z.quot which BitsInWord) (Z.lor w (mask which));
  Ok (mkBitMap (numBits b) (numWords b) m).

Definition Clear (b : BitMap) (which : Z) : result BitMap :=
  _ ← ASSERT (in_range b which);
  w ← aget (map b) (Z.quot which BitsInWord);
  m ← aset (map b) (Z.quot which BitsInWord) (Z.land w (inv_mask which));
  Ok (mkBitMap (numBits b) (numWords b) m).

Definition Test (b : BitMap) (which : Z) : result bool :=
  _ ← ASSERT (in_range b which);
  w ← aget (map b) (Z.quot which BitsInWord);
  Ok (negb (Z.land w (mask which) =? 0)).

(** The constructor.  [new unsigned int[numWords]] leaves the words
    uninitialised: [garbage] is what they hold. *)
Fixpoint clear_from (b : BitMap) (i : Z) (n : nat) : result BitMap :=
  match n with
  | O => Ok b
  | S n => b ← Clear b i; clear_from b (i + 1) n
  end.

Definition BitMap_new (nitems : Z) (garbage : list Z) : result BitMap :=
  let numWords := divRoundUp nitems BitsInWord in
  let map := take (Z.to_nat numWords) garbage in
  clear_from (mkBitMap nitems numWords map) 0 (Z.to_nat nitems).

(** The loop of [Find], from [i] on, with [n] bits to go. *)
Fixpoint Find_from (b : BitMap) (i : Z) (n : nat) : result (Z * BitMap) :=
  match n with
  | O => Ok (-1, b)
  | S n =>
    t ← Test b i;
    if negb t then (b ← Mark b i; Ok (i, b)) else Find_from b (i + 1) n
  end.

Definition Find (b : BitMap) : result (Z * BitMap) :=
  Find_from b 0 (Z.to_nat (numBits b)).

Fixpoint NumClear_from (b : BitMap) (i : Z) (n : nat) (count : Z) : result Z :=
  match n with
  | O => Ok count
  | S n =>
    t ← Test b i;
    NumClear_from b (i + 1) n (if negb t then count + 1 else count)
  end.

Definition NumClear (b : BitMap) : result Z :=
  NumClear_from b 0 (Z.to_nat (numBits b)) 0.

(** The numbers [Print] writes: those of the bits that are set. *)
Fixpoint Print_from (b : BitMap) (i : Z) (n : nat) : result (list Z) :=
  match n with
  | O => Ok []
  | S n =>
    t ← Test b i;
    rest ← Print_from b (i + 1) n;
    Ok (if (t : bool) then i :: rest else rest)
  end.

Definition Print (b : BitMap) : result (list Z) :=
  Print_from b 0 (Z.to_nat (numBits b)).

(** ** The abstract bit map *)

Record wf (b : BitMap) : Prop := mkWf {
  wf_bits : 0 ≤ numBits b;
  wf_words : numWords b = divRoundUp (numBits b) BitsInWord;
  wf_length : Z.of_nat (length (map b)) = numWords b;
  wf_u32 : Forall is_u32 (map b);
}.

Definition bit (b : BitMap) (i : Z) : bool :=
  Z.testbit (default 0 (map b !! Z.to_nat (Z.quot i BitsInWord))) (Z.rem i BitsInWord).

Definition bits (b : BitMap) : list bool := bit b <$> seqZ 0 (numBits b).

(** The first [false] of a list, counting from [i]. *)
Fixpoint first_clear (l : list bool) (i : Z) : Z :=
  match l with
  | [] => -1
  | true :: l => first_clear l (i + 1)
  | false :: _ => i
  end.

Fixpoint count_clear (l : list bool) : Z :=
  match l with
  | [] => 0
  | v :: l => (if v then 0 else 1) + count_clear l
  end.

(** ** Lemmas *)

Lemma in_range_true b i : 0 ≤ i < numBits b → in_range b i = true.
Proof. intros H. unfold in_range. rewrite Z.geb_leb. apply andb_true_iff. lia. Qed.

Lemma word_index b i :
  wf b → 0 ≤ i < numBits b → 0 ≤ Z.quot i BitsInWord < Z.of_nat (length (map b)).
Proof.
  intros [_ Hw Hl _] Hi. rewrite Hl, Hw. unfold BitsInWord.
  rewrite Z.quot_div_nonneg by lia.
  pose proof (divRoundUp_spec (numBits b) 32). pose proof (Z.div_mod i 32).
  pose proof (Z.mod_pos_bound i 32). lia.
Qed.

(** Bit [j] lies in the same word as bit [i] at the same position only when
    they are the same bit. *)
Lemma same_bit i j :
  0 ≤ i → 0 ≤ j → Z.quot i BitsInWord = Z.quot j BitsInWord →
  Z.rem i BitsInWord = Z.rem j BitsInWord → i = j.
Proof.
  unfold BitsInWord. intros ??. rewrite !Z.quot_div_nonneg, !Z.rem_mod_nonneg by lia.
  pose proof (Z.div_mod i 32). pose proof (Z.div_mod j 32). lia.
Qed.

Lemma rem_range i : 0 ≤ i → 0 ≤ Z.rem i BitsInWord < 32.
Proof.
  unfold BitsInWord. intros. rewrite Z.rem_mod_nonneg by lia. apply Z.mod_pos_bound. lia.
Qed.

Lemma mask_testbit i j : 0 ≤ i → 0 ≤ j < 32 → Z.testbit (mask i) j = (j =? Z.rem i BitsInWord).
Proof. intros Hi Hj. apply testbit_one_shl; [by apply rem_range|done]. Qed.

Lemma inv_mask_testbit i j :
  0 ≤ i → 0 ≤ j < 32 → Z.testbit (inv_mask i) j = negb (j =? Z.rem i BitsInWord).
Proof.
  intros Hi Hj. unfold inv_mask. rewrite u32_testbit by lia.
  destruct (Z.ltb_spec j 32); [|lia]. rewrite Z.lnot_spec, s32_testbit by lia.
  pose proof (mask_testbit i j Hi Hj) as Hm. unfold mask in Hm. rewrite u32_testbit in Hm by lia.
  destruct (Z.ltb_spec j 32); [|lia]. simpl in *. by rewrite Hm.
Qed.

(** One word of the map replaced. *)
Definition set_word (b : BitMap) (i w : Z) : BitMap :=
  mkBitMap (numBits b) (numWords b) (<[Z.to_nat (Z.quot i BitsInWord) := w]> (map b)).

Lemma set_word_wf b i w : wf b → is_u32 w → wf (set_word b i w).
Proof.
  intros [? ? ? ?] ?. split; simpl; [done|done|by rewrite length_insert|].
  by apply Forall_insert.
Qed.

Lemma set_word_bit b i j w :
  wf b → 0 ≤ i < numBits b → 0 ≤ j →
  bit (set_word b i w) j =
    if decide (Z.quot j BitsInWord = Z.quot i BitsInWord)
    then Z.testbit w (Z.rem j BitsInWord) else bit b j.
Proof.
  intros Hwf Hi Hj. pose proof (word_index b i Hwf Hi) as Hw. unfold bit, set_word; simpl.
  assert (0 ≤ Z.quot j BitsInWord) by (apply Z.quot_pos; unfold BitsInWord; lia).
  case_decide as E.
  - rewrite E, list_lookup_insert_eq by lia. done.
  - rewrite list_lookup_insert_ne by lia. done.
Qed.

Lemma lookup_word b i :
  wf b → 0 ≤ i < numBits b →
  ∃ w, aget (map b) (Z.quot i BitsInWord) = Ok w ∧ is_u32 w ∧
       (∀ j, Z.quot j BitsInWord = Z.quot i BitsInWord →
             bit b j = Z.testbit w (Z.rem j BitsInWord)).
Proof.
  intros Hwf Hi. destruct (aget_ok _ _ (word_index b i Hwf Hi)) as (w & Hl & Hw).
  exists w. split_and!; [done| |].
  - eapply Forall_lookup_1; [apply wf_u32, Hwf|done].
  - intros j Hj. unfold bit. by rewrite Hj, Hl.
Qed.

(** [b'] is [b] with bit [i] changed to [v]. *)
Definition updates (b b' : BitMap) (i : Z) (v : bool) : Prop :=
  wf b' ∧ numBits b' = numBits b ∧ ∀ j, 0 ≤ j → bit b' j = if decide (j = i) then v else bit b j.

Lemma Mark_ok b i :
  wf b → 0 ≤ i < numBits b → ∃ b', Mark b i = Ok b' ∧ updates b b' i true.
Proof.
  intros Hwf Hi. destruct (lookup_word b i Hwf Hi) as (w & Hw & Hu & Hb).
  unfold Mark. rewrite in_range_true by done. run_ok. rewrite Hw. run_ok.
  rewrite aset_ok by (by apply word_index). run_ok.
  exists (set_word b i (Z.lor w (mask i))). split; [done|]. split_and!; [|done|].
  - apply set_word_wf; [done|]. apply is_u32_lor; [done|apply u32_range].
  - intros j Hj. rewrite set_word_bit by done.
    pose proof (rem_range j Hj). case_decide as Eq.
    + rewrite Z.lor_spec, mask_testbit, <- (Hb j Eq) by lia.
      case_decide as Ej; [subst; by rewrite Z.eqb_refl, orb_true_r|].
      destruct (Z.eqb_spec (Z.rem j BitsInWord) (Z.rem i BitsInWord)) as [Er|];
        [|by rewrite orb_false_r].
      by destruct Ej; apply same_bit; try lia.
    + case_decide; [by subst|done].
Qed.

Lemma Clear_ok b i :
  wf b → 0 ≤ i < numBits b → ∃ b', Clear b i = Ok b' ∧ updates b b' i false.
Proof.
  intros Hwf Hi. destruct (lookup_word b i Hwf Hi) as (w & Hw & Hu & Hb).
  unfold Clear. rewrite in_range_true by done. run_ok. rewrite Hw. run_ok.
  rewrite aset_ok by (by apply word_index). run_ok.
  exists (set_word b i (Z.land w (inv_mask i))). split; [done|]. split_and!; [|done|].
  - apply set_word_wf; [done|]. apply is_u32_land; [done|apply u32_range].
  - intros j Hj. rewrite set_word_bit by done.
    pose proof (rem_range j Hj). case_decide as Eq.
    + rewrite Z.land_spec, inv_mask_testbit, <- (Hb j Eq) by lia.
      case_decide as Ej; [subst; by rewrite Z.eqb_refl, andb_false_r|].
      destruct (Z.eqb_spec (Z.rem j BitsInWord) (Z.rem i BitsInWord)) as [Er|];
        [|by rewrite andb_true_r].
      by destruct Ej; apply same_bit; try lia.
    + case_decide; [by subst|done].
Qed.

Lemma Test_ok b i : wf b → 0 ≤ i < numBits b → Test b i = Ok (bit b i).
Proof.
  intros Hwf Hi. destruct (lookup_word b i Hwf Hi) as (w & Hw & Hu & Hb).
  unfold Test. rewrite in_range_true by done. run_ok. rewrite Hw. run_ok. f_equal.
  pose proof (rem_range i). rewrite (Hb i eq_refl).
  destruct (Z.testbit w (Z.rem i BitsInWord)) eqn:E.
  - destruct (Z.eqb_spec (Z.land w (mask i)) 0) as [H0|]; [|done].
    apply (f_equal (λ z, Z.testbit z (Z.rem i BitsInWord))) in H0.
    rewrite Z.land_spec, mask_testbit, E, Z.eqb_refl, Z.bits_0 in H0 by lia. done.
  - rewrite (u32_bits_eq (Z.land w (mask i)) 0); [done| |done|].
    + apply is_u32_land; [done|apply u32_range].
    + intros j Hj. rewrite Z.land_spec, mask_testbit, Z.bits_0 by lia.
      destruct (Z.eqb_spec j (Z.rem i BitsInWord)) as [->|]; [by rewrite E|].
      apply andb_false_r.
Qed.

(** Outside the map every operation stops at its [ASSERT]. *)
Lemma out_of_range b i :
  ¬ (0 ≤ i < numBits b) →
  Mark b i = Err AssertionFailed ∧ Clear b i = Err AssertionFailed ∧
  Test b i = Err AssertionFailed.
Proof.
  intros H. unfold Mark, Clear, Test.
  assert (in_range b i = false) as ->; [|done].
  unfold in_range. rewrite Z.geb_leb. apply andb_false_iff. lia.
Qed.

(** ** Scans over the bits *)

Definition bits_from (b : BitMap) (i : Z) (n : nat) : list bool :=
  bit b <$> seqZ i (Z.of_nat n).

Lemma bits_from_S b i n : bits_from b i (S n) = bit b i :: bits_from b (i + 1) n.
Proof.
  unfold bits_from. rewrite seqZ_cons by lia. simpl. f_equal. f_equal. f_equal; lia.
Qed.

Lemma bits_from_all b : 0 ≤ numBits b → bits_from b 0 (Z.to_nat (numBits b)) = bits b.
Proof. intros. unfold bits_from, bits. f_equal. f_equal. lia. Qed.

Lemma bits_length b : length (bits b) = Z.to_nat (numBits b).
Proof. unfold bits. by rewrite length_fmap, length_seqZ. Qed.

Lemma bits_lookup b i : 0 ≤ i < numBits b → bits b !! Z.to_nat i = Some (bit b i).
Proof.
  intros Hi. unfold bits. rewrite list_lookup_fmap, lookup_seqZ_lt by lia. simpl.
  f_equal. f_equal. lia.
Qed.

Lemma bits_update b b' i v :
  updates b b' i v → 0 ≤ i < numBits b → bits b' = <[Z.to_nat i := v]> (bits b).
Proof.
  intros (_ & Hn & Hb) Hi. apply list_eq. intros k.
  destruct (decide (Z.of_nat k < numBits b)) as [Hk|Hk].
  - pose proof (bits_lookup b' (Z.of_nat k)) as H1. pose proof (bits_lookup b (Z.of_nat k)) as H2.
    rewrite !Nat2Z.id in H1, H2. rewrite H1, Hb by lia. case_decide as E.
    + replace (Z.to_nat i) with k by lia.
      rewrite list_lookup_insert_eq; [done|]. rewrite bits_length. lia.
    + rewrite list_lookup_insert_ne by lia. symmetry. apply H2. lia.
  - rewrite !lookup_ge_None_2; [done|rewrite length_insert, bits_length; lia|].
    rewrite bits_length. lia.
Qed.

Lemma count_clear_cons v l : count_clear (v :: l) = (if v then 0 else 1) + count_clear l.
Proof. done. Qed.

Lemma count_clear_nonneg l : 0 ≤ count_clear l.
Proof. induction l as [|[] l IH]; simpl; lia. Qed.

Lemma count_clear_insert (l : list bool) (i : nat) (v w : bool) :
  l !! i = Some v →
  count_clear (<[i := w]> l) = count_clear l + (if v then 1 else 0) - (if w then 1 else 0).
Proof.
  revert i. induction l as [|u l IH]; intros [|i] Hi; simplify_eq/=.
  - destruct v, w; lia.
  - rewrite (IH i Hi). lia.
Qed.

Lemma count_clear_0 (l : list bool) : count_clear l = 0 ↔ ∀ v, v ∈ l → v = true.
Proof.
  induction l as [|u l IH]; [set_solver|]. rewrite count_clear_cons.
  pose proof (count_clear_nonneg l). destruct u; [rewrite Z.add_0_l, IH; set_solver|].
  split; [lia|]. intros H1. specialize (H1 false). set_solver.
Qed.

Lemma Find_from_ok b : wf b → ∀ n i,
  0 ≤ i → i + Z.of_nat n = numBits b →
  ∃ r b', Find_from b i n = Ok (r, b') ∧ r = first_clear (bits_from b i n) i ∧
  ((r = -1 ∧ b' = b ∧ ∀ j, i ≤ j < numBits b → bit b j = true) ∨
   (i ≤ r < numBits b ∧ bit b r = false ∧ (∀ j, i ≤ j < r → bit b j = true) ∧
    updates b b' r true)).
Proof.
  intros Hwf n. induction n as [|n IH]; intros i Hi Hn.
  - exists (-1), b. split_and!; [done|done|]. left. split_and!; [done|done|]. lia.
  - cbn [Find_from]. rewrite Test_ok by (done || lia). run_ok. rewrite bits_from_S.
    destruct (bit b i) eqn:Eb; cbn [negb first_clear].
    + destruct (IH (i + 1) ltac:(lia) ltac:(lia)) as (r & b' & -> & Hr & Hcase).
      exists r, b'. split_and!; [done|done|].
      destruct Hcase as [(? & ? & Hall)|(? & ? & Hall & ?)]; [left|right].
      * split_and!; [done|done|]. intros j Hj.
        destruct (decide (j = i)) as [->|]; [done|]. apply Hall. lia.
      * split_and!; [lia|lia|done| |done]. intros j Hj.
        destruct (decide (j = i)) as [->|]; [done|]. apply Hall. lia.
    + destruct (Mark_ok b i Hwf ltac:(lia)) as (b' & -> & Hu). run_ok.
      exists i, b'. split_and!; [done|done|]. right. split_and!; [lia|lia|done|lia|done].
Qed.

Lemma Find_ok b :
  wf b →
  ∃ r b', Find b = Ok (r, b') ∧ r = first_clear (bits b) 0 ∧
  ((r = -1 ∧ b' = b ∧ ∀ j, 0 ≤ j < numBits b → bit b j = true) ∨
   (0 ≤ r < numBits b ∧ bit b r = false ∧ (∀ j, 0 ≤ j < r → bit b j = true) ∧
    updates b b' r true)).
Proof.
  intros Hwf. pose proof (wf_bits b Hwf).
  destruct (Find_from_ok b Hwf (Z.to_nat (numBits b)) 0 ltac:(lia) ltac:(lia))
    as (r & b' & E & Hr & Hc).
  rewrite bits_from_all in Hr by done. by exists r, b'.
Qed.

Lemma NumClear_from_ok b : wf b → ∀ n i c,
  0 ≤ i → i + Z.of_nat n = numBits b →
  NumClear_from b i n c = Ok (c + count_clear (bits_from b i n)).
Proof.
  intros Hwf n. induction n as [|n IH]; intros i c Hi Hn; cbn [NumClear_from].
  - simpl. f_equal. lia.
  - rewrite Test_ok by (done || lia). run_ok. rewrite IH by lia.
    rewrite bits_from_S, count_clear_cons. f_equal. destruct (bit b i); simpl; lia.
Qed.

Lemma NumClear_ok b : wf b → NumClear b = Ok (count_clear (bits b)).
Proof.
  intros Hwf. pose proof (wf_bits b Hwf). unfold NumClear.
  rewrite (NumClear_from_ok b Hwf) by lia. by rewrite bits_from_all.
Qed.

Lemma clear_from_ok n : ∀ b i,
  wf b → 0 ≤ i → i + Z.of_nat n = numBits b →
  ∃ b', clear_from b i n = Ok b' ∧ wf b' ∧ numBits b' = numBits b ∧
  ∀ j, 0 ≤ j → bit b' j = if decide (i ≤ j < numBits b) then false else bit b j.
Proof.
  induction n as [|n IH]; intros b i Hwf Hi Hn; cbn [clear_from].
  - exists b. split_and!; [done|done|done|]. intros j Hj. case_decide; [lia|done].
  - destruct (Clear_ok b i Hwf ltac:(lia)) as (b1 & -> & Hwf1 & Hn1 & Hb1). run_ok.
    destruct (IH b1 (i + 1) Hwf1 ltac:(lia) ltac:(lia)) as (b2 & -> & Hwf2 & Hn2 & Hb2).
    exists b2. split_and!; [done|done|congruence|]. intros j Hj. rewrite Hb2 by done.
    rewrite Hn1, Hb1 by done. by repeat case_decide; try lia.
Qed.

(** A map all of whose bits are clear. *)
Lemma bits_all_clear b :
  (∀ j, 0 ≤ j < numBits b → bit b j = false) →
  bits b = replicate (Z.to_nat (numBits b)) false.
Proof.
  intros H. apply list_eq_same_length with (n := Z.to_nat (numBits b));
    [by rewrite length_replicate|apply bits_length|].
  intros k x y Hk Hx Hy. apply lookup_replicate in Hy as [-> _].
  pose proof (bits_lookup b (Z.of_nat k)) as E. rewrite Nat2Z.id in E.
  rewrite E, H in Hx by lia. congruence.
Qed.

Lemma BitMap_new_ok n garbage :
  0 ≤ n → Forall is_u32 garbage → divRoundUp n BitsInWord ≤ Z.of_nat (length garbage) →
  ∃ b, BitMap_new n garbage = Ok b ∧ wf b ∧ numBits b = n ∧
       ∀ j, 0 ≤ j < n → bit b j = false.
Proof.
  intros Hn Hg Hlen. pose proof (divRoundUp_nonneg n BitsInWord Hn ltac:(unfold BitsInWord; lia)).
  set (b0 := mkBitMap n (divRoundUp n BitsInWord) (take (Z.to_nat (divRoundUp n BitsInWord)) garbage)).
  assert (wf b0) as Hwf.
  { split; simpl; [done|done| |by apply Forall_take]. rewrite length_take. lia. }
  destruct (clear_from_ok (Z.to_nat n) b0 0 Hwf ltac:(lia) ltac:(simpl; lia)) as (b & E & ? & ? & Hb).
  exists b. split_and!; [done|done|done|]. intros j Hj. rewrite Hb by lia.
  simpl. by rewrite decide_True by lia.
Qed.

(** ** Properties *)

(** The packed words implement an array of booleans.  On a well-formed map
    [Mark] and [Clear] change exactly the bit they name, [Test] reads it, the
    map stays well formed, and [NumClear] counts the clear bits; a number
    outside the map stops at the assertion and never reaches the words. *)
Theorem bitmap_refines_booleans b i :
  wf b →
  (0 ≤ i < numBits b →
   (∃ b', Mark b i = Ok b' ∧ wf b' ∧ numBits b' = numBits b ∧
          bits b' = <[Z.to_nat i := true]> (bits b)) ∧
   (∃ b', Clear b i = Ok b' ∧ wf b' ∧ numBits b' = numBits b ∧
          bits b' = <[Z.to_nat i := false]> (bits b)) ∧
   (∃ v, Test b i = Ok v ∧ bits b !! Z.to_nat i = Some v)) ∧
  (¬ (0 ≤ i < numBits b) →
   Mark b i = Err AssertionFailed ∧ Clear b i = Err AssertionFailed ∧
   Test b i = Err AssertionFailed) ∧
  NumClear b = Ok (count_clear (bits b)).
Proof.
  intros Hwf. split_and!; [intros Hi; split_and!|apply out_of_range|by apply NumClear_ok].
  - destruct (Mark_ok b i Hwf Hi) as (b' & ? & Hu). exists b'.
    pose proof (bits_update _ _ _ _ Hu Hi). by destruct Hu as (? & ? & _).
  - destruct (Clear_ok b i Hwf Hi) as (b' & ? & Hu). exists b'.
    pose proof (bits_update _ _ _ _ Hu Hi). by destruct Hu as (? & ? & _).
  - exists (bit b i). split; [by apply Test_ok|by apply bits_lookup].
Qed.

(** [Find] allocates the first clear bit.  It never fails; it returns the
    least number whose bit is clear and sets that bit only, so that [NumClear]
    drops by one; it returns -1 and changes nothing exactly when no bit is
    clear. *)
Theorem find_allocates_first_clear b :
  wf b →
  ∃ r b', Find b = Ok (r, b') ∧ wf b' ∧ r = first_clear (bits b) 0 ∧
  (r = -1 ↔ NumClear b = Ok 0) ∧
  (r = -1 → b' = b) ∧
  (r ≠ -1 → 0 ≤ r < numBits b ∧ bits b !! Z.to_nat r = Some false ∧
            bits b' = <[Z.to_nat r := true]> (bits b) ∧
            NumClear b' = Ok (count_clear (bits b) - 1)).
Proof.
  intros Hwf. destruct (Find_ok b Hwf) as (r & b' & Hf & Hr & Hc). exists r, b'.
  rewrite (NumClear_ok b Hwf). destruct Hc as [(-> & -> & Hall)|(Hb & Hbit & Hmin & Hu)].
  - split_and!; [done|done|done| |done|done]. split; [|done]. intros _. f_equal.
    apply count_clear_0. unfold bits. intros v (j & -> & Hj)%list_elem_of_fmap.
    apply elem_of_seqZ in Hj. apply Hall. lia.
  - pose proof (bits_update _ _ _ _ Hu Hb) as Hbits.
    pose proof (bits_lookup b r Hb) as Hl. rewrite Hbit in Hl.
    split_and!; [done|apply Hu|done| |lia|].
    + split; [lia|]. intros [= H0]. exfalso. rewrite count_clear_0 in H0.
      assert (false ∈ bits b) as Hin by (by eapply list_elem_of_lookup_2).
      by specialize (H0 false Hin).
    + intros _. split_and!; [lia|lia|done|done|].
      rewrite NumClear_ok by apply Hu. rewrite Hbits, (count_clear_insert _ _ false true Hl).
      f_equal. simpl. lia.
Qed.

Lemma wf_example : wf (mkBitMap 40 2 [5; 0]).
Proof. split; [simpl; lia|reflexivity|reflexivity|]. repeat constructor; simpl; lia. Qed.

Lemma bitmap_refines_booleans_witness :
  ∃ b', Mark (mkBitMap 40 2 [5; 0]) 33 = Ok b' ∧ bits b' !! 33%nat = Some true.
Proof.
  pose proof (bitmap_refines_booleans (mkBitMap 40 2 [5; 0]) 33 wf_example) as [H _].
  destruct (H ltac:(simpl; lia)) as ((b' & E & _ & _ & Hb) & _).
  exists b'. split; [exact E|]. rewrite Hb. reflexivity.
Defined.

Lemma find_allocates_first_clear_witness :
  ∃ b', Find (mkBitMap 40 2 [5; 0]) = Ok (1, b') ∧ wf b'.
Proof.
  destruct (find_allocates_first_clear (mkBitMap 40 2 [5; 0]) wf_example)
    as (r & b' & E & Hwf & Hr & _).
  exists b'. split; [|exact Hwf]. rewrite E, Hr. reflexivity.
Defined.

(** The constructor clears every bit, whatever the uninitialised words
    hold, and stays inside the words it allocated. *)
Theorem bitmap_new_all_clear n garbage :
  0 ≤ n → Forall is_u32 garbage → divRoundUp n BitsInWord ≤ Z.of_nat (length garbage) →
  ∃ b, BitMap_new n garbage = Ok b ∧ wf b ∧ numBits b = n ∧
       bits b = replicate (Z.to_nat n) false.
Proof.
  intros Hn Hg Hlen. destruct (BitMap_new_ok n garbage Hn Hg Hlen) as (b & ? & ? & ? & ?).
  exists b. split_and!; [done|done|done|]. subst n. by apply bits_all_clear.
Qed.

Lemma bitmap_new_all_clear_witness :
  ∃ b, BitMap_new 40 [4294967295; 7] = Ok b ∧ bits b = replicate 40 false.
Proof.
  destruct (bitmap_new_all_clear 40 [4294967295; 7]) as (b & E & _ & _ & Hb).
  - lia.
  - repeat constructor; lia.
  - vm_compute. discriminate.
  - exists b. split; [exact E|exact Hb].
Defined.

End BitMap.
