(* ===== verification/Machine.v ===== *)
(** * The simulated hardware: machine/machine.h, machine/machine.cc,
      machine/translate.h, machine/translate.cc

    Registers, main memory, and the translation of virtual addresses through a
    page table or a TLB.  [RaiseException] is always the last thing a routine
    of the simulator does before it returns to [Machine::Run], so a routine
    that raises an exception gives back the machine as the kernel's
    [ExceptionHandler] finds it, and the exception. *)

From stdpp Require Import base list gmap.
From S2P Require Import Prelude.

Module Machine.

(** ** Constants (machine.h, disk.h) *)

Definition SectorSize : Z := 128.
Definition PageSize : Z := SectorSize.
Definition NumPhysPages : Z := 32.
Definition MemorySize : Z := NumPhysPages * PageSize.
Definition TLBSize : Z := 4.

Definition StackReg : Z := 29.
Definition RetAddrReg : Z := 31.
Definition NumGPRegs : Z := 32.
Definition HiReg : Z := 32.
Definition LoReg : Z := 33.
Definition PCReg : Z := 34.
Definition NextPCReg : Z := 35.
Definition PrevPCReg : Z := 36.
Definition LoadReg : Z := 37.
Definition LoadValueReg : Z := 38.
Definition BadVAddrReg : Z := 39.
Definition NumTotalRegs : Z := 40.

Inductive ExceptionType :=
  | NoException
  | SyscallException
  | PageFaultException
  | ReadOnlyException
  | BusErrorException
  | AddressErrorException
  | OverflowException
  | IllegalInstrException
  | NumExceptionTypes.

#[global] Instance ExceptionType_eq_dec : EqDecision ExceptionType.
Proof. solve_decision. Defined.

(** [class TranslationEntry]. *)
Record TranslationEntry := mkEntry {
  virtualPage : Z;
  physicalPage : Z;
  valid : bool;
  readOnly : bool;
  use : bool;
  dirty : bool;
}.

(** [class Machine].  [registers] are [unsigned int]; [mainMemory] holds bytes,
    as numbers in [0, 256); [tlb] and [pageTable] are null or an array. *)
Record Machine := mkMachine {
  registers : list Z;
  mainMemory : list Z;
  tlb : option (list TranslationEntry);
  pageTable : option (list TranslationEntry);
  pageTableSize : Z;
}.

Definition set_registers (m : Machine) (r : list Z) : Machine :=
  mkMachine r (mainMemory m) (tlb m) (pageTable m) (pageTableSize m).
Definition set_mainMemory (m : Machine) (mem : list Z) : Machine :=
  mkMachine (registers m) mem (tlb m) (pageTable m) (pageTableSize m).
Definition set_tlb (m : Machine) (t : option (list TranslationEntry)) : Machine :=
  mkMachine (registers m) (mainMemory m) t (pageTable m) (pageTableSize m).
Definition set_pageTable (m : Machine) (t : option (list TranslationEntry)) : Machine :=
  mkMachine (registers m) (mainMemory m) (tlb m) t (pageTableSize m).

(** [Machine::Machine]; [USE_TLB] selects the TLB, whose entries start invalid
    and otherwise uninitialised. *)
Definition Machine_new (USE_TLB : bool) (garbage : list TranslationEntry) : Machine :=
  mkMachine (replicate (Z.to_nat NumTotalRegs) 0) (replicate (Z.to_nat MemorySize) 0)
    (if USE_TLB then
       Some ((λ e, mkEntry (virtualPage e) (physicalPage e) false (readOnly e) (use e) (dirty e))
             <$> take (Z.to_nat TLBSize) garbage)
     else None)
    None 0.

(** ** Registers *)

Definition ReadRegister (m : Machine) (num : Z) : result Z :=
  _ ← ASSERT ((num >=? 0) && (num <? NumTotalRegs));
  r ← aget (registers m) num;
  Ok (s32 r).

Definition WriteRegister (m : Machine) (num value : Z) : result Machine :=
  _ ← ASSERT ((num >=? 0) && (num <? NumTotalRegs));
  r ← aset (registers m) num (u32 value);
  Ok (set_registers m r).

(** Direct accesses to the [registers] array. *)
Definition rget (m : Machine) (i : Z) : result Z := aget (registers m) i.
Definition rset (m : Machine) (i v : Z) : result Machine :=
  r ← aset (registers m) i (u32 v); Ok (set_registers m r).

(** [Machine::DelayedLoad] (mipssim.cc). *)
Definition DelayedLoad (m : Machine) (nextReg nextValue : Z) : result Machine :=
  lr ← rget m LoadReg;
  lv ← rget m LoadValueReg;
  m ← rset m lr lv;
  m ← rset m LoadReg nextReg;
  m ← rset m LoadValueReg nextValue;
  rset m 0 0.

(** [Machine::RaiseException], up to the call of [ExceptionHandler]. *)
Definition RaiseException (m : Machine) (badVAddr : Z) : result Machine :=
  m ← rset m BadVAddrReg badVAddr;
  DelayedLoad m 0 0.

(** ** Byte order

    A word or short word of memory is read in the host's byte order and then
    converted from the simulated machine's order (little endian). *)
Section endian.
Context (HOST_IS_BIG_ENDIAN : bool).

Definition WordToHost (word : Z) : Z :=
  if HOST_IS_BIG_ENDIAN then
    let result := Z.land (Z.shiftr word 24) 0x000000ff in
    let result := Z.lor result (Z.land (Z.shiftr word 8) 0x0000ff00) in
    let result := Z.lor result (Z.land (u32 (Z.shiftl word 8)) 0x00ff0000) in
    Z.lor result (Z.land (u32 (Z.shiftl word 24)) 0xff000000)
  else word.

Definition ShortToHost (shortword : Z) : Z :=
  if HOST_IS_BIG_ENDIAN then
    let result := Z.land (Z.shiftl shortword 8) 0xff00 in
    Z.lor result (Z.land (Z.shiftr shortword 8) 0x00ff)
  else shortword.

Definition WordToMachine (word : Z) : Z := WordToHost word.
Definition ShortToMachine (shortword : Z) : Z := ShortToHost shortword.

(** [*(unsigned int * ) &mainMemory[a]] and the like: [n] bytes from [a] on, as
    the host orders them. *)
Fixpoint load_bytes (mem : list Z) (a : Z) (n : nat) : result (list Z) :=
  match n with
  | O => Ok []
  | S n => b ← aget mem a; bs ← load_bytes mem (a + 1) n; Ok (b :: bs)
  end.

Fixpoint store_bytes (mem : list Z) (a : Z) (bs : list Z) : result (list Z) :=
  match bs with
  | [] => Ok mem
  | b :: bs => mem ← aset mem a b; store_bytes mem (a + 1) bs
  end.

Fixpoint le_combine (bs : list Z) : Z :=
  match bs with [] => 0 | b :: bs => b + 256 * le_combine bs end.

Fixpoint le_split (n : nat) (z : Z) : list Z :=
  match n with O => [] | S n => z mod 256 :: le_split n (z / 256) end.

Definition host_order (bs : list Z) : list Z :=
  if HOST_IS_BIG_ENDIAN then reverse bs else bs.

Definition host_load (mem : list Z) (a : Z) (n : nat) : result Z :=
  bs ← load_bytes mem a n; Ok (le_combine (host_order bs)).

Definition host_store (mem : list Z) (a : Z) (n : nat) (v : Z) : result (list Z) :=
  store_bytes mem a (host_order (le_split n v)).

(** ** Address translation *)

(** The TLB loop: the index of the first of the first [n] entries, from [i] on,
    that is valid and maps [vpn]. *)
Fixpoint tlb_find (t : list TranslationEntry) (vpn : Z) (i : Z) (n : nat)
    : result (option Z) :=
  match n with
  | O => Ok None
  | S n =>
    e ← aget t i;
    if valid e && (u32 (virtualPage e) =? vpn) then Ok (Some i)
    else tlb_find t vpn (i + 1) n
  end.

(** The part of [Translate] after the entry has been found: the read-only and
    frame checks and the use and dirty bits.  Gives the exception, the physical
    address, and the entry as it is left. *)
Definition check_entry (entry : TranslationEntry) (offset size : Z) (writing : bool)
    : result (ExceptionType * Z * TranslationEntry) :=
  if readOnly entry && writing then Ok (ReadOnlyException, 0, entry)
  else
    let pageFrame := u32 (physicalPage entry) in
    if pageFrame >=? NumPhysPages then Ok (BusErrorException, 0, entry)
    else
      let entry := mkEntry (virtualPage entry) (physicalPage entry) (valid entry)
                     (readOnly entry) true (if writing then true else dirty entry) in
      let physAddr := s32 (pageFrame * PageSize + offset) in
      _ ← ASSERT ((physAddr >=? 0) && (physAddr + size <=? MemorySize));
      Ok (NoException, physAddr, entry).

Definition Translate (m : Machine) (virtAddr size : Z) (writing : bool)
    : result (ExceptionType * Z * Machine) :=
  if ((size =? 4) && negb (Z.land virtAddr 0x3 =? 0))
     || ((size =? 2) && negb (Z.land virtAddr 0x1 =? 0)) then
    Ok (AddressErrorException, 0, m)
  else
    _ ← ASSERT (match tlb m, pageTable m with Some _, Some _ => false | _, _ => true end);
    _ ← ASSERT (match tlb m, pageTable m with None, None => false | _, _ => true end);
    let vpn := u32 virtAddr / PageSize in
    let offset := u32 virtAddr mod PageSize in
    match tlb m with
    | None =>
      match pageTable m with
      | None => Err NullDereference
      | Some t =>
        if vpn >=? pageTableSize m then Ok (AddressErrorException, 0, m)
        else
          entry ← aget t vpn;
          if negb (valid entry) then Ok (PageFaultException, 0, m)
          else
            '(exc, physAddr, entry) ← check_entry entry offset size writing;
            t ← aset t vpn entry;
            Ok (exc, physAddr, set_pageTable m (Some t))
      end
    | Some t =>
      found ← tlb_find t vpn 0 (Z.to_nat TLBSize);
      match found with
      | None => Ok (PageFaultException, 0, m)
      | Some i =>
        entry ← aget t i;
        '(exc, physAddr, entry) ← check_entry entry offset size writing;
        t ← aset t i entry;
        Ok (exc, physAddr, set_tlb m (Some t))
      end
    end.

(** The result of an access: the value and the machine, or the exception raised
    and the machine the kernel takes over. *)
Inductive access (A : Type) :=
  | Done (a : A) (m : Machine)
  | Raised (which : ExceptionType) (m : Machine).
Arguments Done {A}.
Arguments Raised {A}.

(** [char] is signed. *)
Definition s8 (b : Z) : Z := if b <? 128 then b else b - 256.

Definition ReadMem (m : Machine) (addr size : Z) : result (access Z) :=
  '(exc, physicalAddress, m) ← Translate m addr size false;
  if decide (exc ≠ NoException) then
    m ← RaiseException m addr; Ok (Raised exc m)
  else
    if size =? 1 then
      data ← aget (mainMemory m) physicalAddress; Ok (Done (s8 data) m)
    else if size =? 2 then
      data ← host_load (mainMemory m) physicalAddress 2; Ok (Done (ShortToHost data) m)
    else if size =? 4 then
      data ← host_load (mainMemory m) physicalAddress 4; Ok (Done (s32 (WordToHost data)) m)
    else Err AssertionFailed.

Definition WriteMem (m : Machine) (addr size value : Z) : result (access unit) :=
  '(exc, physicalAddress, m) ← Translate m addr size true;
  if decide (exc ≠ NoException) then
    m ← RaiseException m addr; Ok (Raised exc m)
  else
    if size =? 1 then
      mem ← aset (mainMemory m) physicalAddress (Z.land value 0xff);
      Ok (Done tt (set_mainMemory m mem))
    else if size =? 2 then
      mem ← host_store (mainMemory m) physicalAddress 2 (ShortToMachine (Z.land value 0xffff));
      Ok (Done tt (set_mainMemory m mem))
    else if size =? 4 then
      mem ← host_store (mainMemory m) physicalAddress 4 (WordToMachine (u32 value));
      Ok (Done tt (set_mainMemory m mem))
    else Err AssertionFailed.

End endian.
Arguments Done {A}.
Arguments Raised {A}.

(** ** The invariant of the hardware state

    Forty 32-bit registers with a general register named by [LoadReg], a memory
    of bytes, and one of the two ways to translate. *)
Definition is_byte (b : Z) : Prop := 0 ≤ b < 256.

Record wf_regs (m : Machine) : Prop := mkWfRegs {
  wr_length : length (registers m) = Z.to_nat NumTotalRegs;
  wr_u32 : Forall is_u32 (registers m);
  wr_load : ∀ r, registers m !! Z.to_nat LoadReg = Some r → r < NumGPRegs;
}.

Record wf_mem (m : Machine) : Prop := mkWfMem {
  wm_length : Z.of_nat (length (mainMemory m)) = MemorySize;
  wm_byte : Forall is_byte (mainMemory m);
  wm_table : match tlb m, pageTable m with
             | Some t, None => Z.of_nat (length t) = TLBSize
             | None, Some t => pageTableSize m ≤ Z.of_nat (length t)
             | _, _ => False
             end;
}.

(** The translation in use, and the entry in it that maps a virtual page: the
    valid entry of the page table, or the first valid TLB entry for the page. *)
Definition entries (m : Machine) : list TranslationEntry :=
  match tlb m with Some t => t | None => default [] (pageTable m) end.

Definition maps_page (vpn : Z) (e : TranslationEntry) : Prop :=
  valid e = true ∧ u32 (virtualPage e) = vpn.

#[global] Instance maps_page_dec vpn e : Decision (maps_page vpn e).
Proof. apply _. Defined.

Definition find_entry (m : Machine) (vpn : Z) : option (nat * TranslationEntry) :=
  match tlb m with
  | Some t => list_find (maps_page vpn) t
  | None =>
    e ← entries m !! Z.to_nat vpn;
    if (vpn <? pageTableSize m) && valid e then Some (Z.to_nat vpn, e) else None
  end.

(** What [Translate] must answer, as a table of cases. *)
Definition misaligned (va size : Z) : bool :=
  ((size =? 4) && negb (va mod 4 =? 0)) || ((size =? 2) && negb (va mod 2 =? 0)).

Definition translate_exc (m : Machine) (va size : Z) (writing : bool) : ExceptionType :=
  if misaligned va size then AddressErrorException
  else match find_entry m (u32 va / PageSize) with
       | None =>
         if tlb m is Some _ then PageFaultException
         else if u32 va / PageSize <? pageTableSize m then PageFaultException
         else AddressErrorException
       | Some (_, e) =>
         if readOnly e && writing then ReadOnlyException
         else if NumPhysPages <=? u32 (physicalPage e) then BusErrorException
         else NoException
       end.

(** The entry after an access. *)
Definition touched (e : TranslationEntry) (writing : bool) : TranslationEntry :=
  mkEntry (virtualPage e) (physicalPage e) (valid e) (readOnly e) true
    (if writing then true else dirty e).

Definition set_entry (m : Machine) (i : nat) (e : TranslationEntry) : Machine :=
  match tlb m with
  | Some t => set_tlb m (Some (<[i := e]> t))
  | None => set_pageTable m (Some (<[i := e]> (entries m)))
  end.

Definition frame_address (e : TranslationEntry) (va : Z) : Z :=
  u32 (physicalPage e) * PageSize + u32 va mod PageSize.

(** ** Lemmas: translation *)

Lemma land_3 z : Z.land z 3 = z mod 4.
Proof. change 3 with (Z.ones 2). by rewrite Z.land_ones. Qed.

Lemma land_1 z : Z.land z 1 = z mod 2.
Proof. change 1 with (Z.ones 1). by rewrite Z.land_ones. Qed.

Lemma u32_mod z k : k = 4 ∨ k = 2 → u32 z mod k = z mod k.
Proof.
  intros Hk. unfold u32. apply Z.mod_mod_divide.
  destruct Hk as [-> | ->]; [exists (2 ^ 30)|exists (2 ^ 31)]; reflexivity.
Qed.

Lemma tlb_find_ok t vpn i n :
  0 ≤ i → (length t = Z.to_nat i + n)%nat →
  tlb_find t vpn i n =
  Ok ((λ p, i + Z.of_nat p.1) <$> list_find (maps_page vpn) (drop (Z.to_nat i) t)).
Proof.
  revert i. induction n as [|n IH]; intros i Hi Hl.
  { rewrite drop_ge by lia. done. }
  destruct (aget_ok t i) as (e & He & Hg); [lia|]. cbn [tlb_find]. rewrite Hg. run_ok.
  rewrite (drop_S _ _ _ He). cbn [list_find].
  assert (valid e && (u32 (virtualPage e) =? vpn) = bool_decide (maps_page vpn e)) as ->.
  { apply eq_true_iff_eq. rewrite bool_decide_eq_true, andb_true_iff, Z.eqb_eq. done. }
  destruct (decide (maps_page vpn e));
    [rewrite bool_decide_true by done|rewrite bool_decide_false by done]; csimpl.
  - by rewrite Z.add_0_r.
  - rewrite IH by lia. replace (Z.to_nat (i + 1)) with (S (Z.to_nat i)) by lia.
    destruct (list_find _ _) as [[j e']|]; csimpl; [|done]. do 2 f_equal. lia.
Qed.

(** An aligned access of at most four bytes does not cross a page. *)
Lemma offset_fits va size :
  size = 1 ∨ size = 2 ∨ size = 4 → misaligned va size = false →
  u32 va mod PageSize + size ≤ PageSize.
Proof.
  intros Hs Ha. pose proof (Z.mod_pos_bound (u32 va) PageSize) as Ho.
  unfold misaligned in Ha. destruct Hs as [->|[->| ->]]; simpl in Ha.
  - unfold PageSize, SectorSize in *. lia.
  - rewrite <- (u32_mod va 2) in Ha by auto. unfold PageSize, SectorSize in *.
    destruct (Z.eqb_spec (u32 va mod 2) 0); [|done]. Z.to_euclidean_division_equations; lia.
  - rewrite <- (u32_mod va 4), orb_false_r in Ha by auto. unfold PageSize, SectorSize in *.
    destruct (Z.eqb_spec (u32 va mod 4) 0); [|done]. Z.to_euclidean_division_equations; lia.
Qed.

Lemma check_entry_ok e va size writing :
  size = 1 ∨ size = 2 ∨ size = 4 → misaligned va size = false →
  check_entry e (u32 va mod PageSize) size writing =
  Ok (if readOnly e && writing then (ReadOnlyException, 0, e)
      else if NumPhysPages <=? u32 (physicalPage e) then (BusErrorException, 0, e)
      else (NoException, frame_address e va, touched e writing)).
Proof.
  intros Hs Ha. unfold check_entry. destruct (readOnly e && writing); [done|].
  rewrite Z.geb_leb. destruct (Z.leb_spec NumPhysPages (u32 (physicalPage e))) as [|Hf]; [done|].
  pose proof (u32_range (physicalPage e)) as Hr. unfold is_u32 in Hr.
  pose proof (Z.mod_pos_bound (u32 va) PageSize) as Ho.
  pose proof (offset_fits va size Hs Ha) as Hin.
  unfold frame_address. unfold MemorySize, NumPhysPages, PageSize, SectorSize in *.
  rewrite s32_id by (unfold is_s32; lia).
  destruct (Z.geb_spec (u32 (physicalPage e) * 128 + u32 va mod 128) 0); [|lia].
  destruct (Z.leb_spec (u32 (physicalPage e) * 128 + u32 va mod 128 + size) (32 * 128)); [|lia].
  done.
Qed.

Lemma frame_address_range e va size :
  size = 1 ∨ size = 2 ∨ size = 4 → misaligned va size = false →
  u32 (physicalPage e) < NumPhysPages →
  0 ≤ frame_address e va ∧ frame_address e va + size ≤ MemorySize.
Proof.
  intros Hs Ha Hf. pose proof (check_entry_ok (touched e false) va size false Hs Ha) as H.
  unfold check_entry, touched in H. simpl in H. rewrite andb_false_r in H. rewrite Z.geb_leb in H.
  destruct (Z.leb_spec NumPhysPages (u32 (physicalPage e))); [lia|].
  unfold ASSERT in H. pose proof (u32_range (physicalPage e)) as Hr. unfold is_u32 in Hr.
  pose proof (Z.mod_pos_bound (u32 va) PageSize) as Ho.
  unfold frame_address in *. unfold MemorySize, NumPhysPages, PageSize, SectorSize in *.
  rewrite s32_id in H by (unfold is_s32; lia).
  destruct (Z.geb_spec (u32 (physicalPage e) * 128 + u32 va mod 128) 0); [|lia].
  destruct (Z.leb_spec (u32 (physicalPage e) * 128 + u32 va mod 128 + size) (32 * 128)); [lia|].
  done.
Qed.

(** The translation, entry found or not, in one equation. *)
Lemma Translate_eq m va size writing :
  wf_mem m → size = 1 ∨ size = 2 ∨ size = 4 →
  Translate m va size writing =
  Ok (match translate_exc m va size writing, find_entry m (u32 va / PageSize) with
      | NoException, Some (i, e) =>
        (NoException, frame_address e va, set_entry m i (touched e writing))
      | exc, _ => (exc, 0, m)
      end).
Proof.
  intros [_ _ Ht] Hs. unfold Translate, translate_exc. rewrite land_3, land_1.
  change ((size =? 4) && negb (va mod 4 =? 0) || (size =? 2) && negb (va mod 2 =? 0))
    with (misaligned va size).
  destruct (misaligned va size) eqn:Ha; [done|].
  unfold find_entry, set_entry, entries.
  destruct m as [regs mem [t|] [pt|] psz]; cbn [tlb pageTable pageTableSize default from_option id] in *;
    try done; run_ok.
  - rewrite tlb_find_ok by (unfold TLBSize in *; lia). run_ok. rewrite drop_0.
    destruct (list_find _ t) as [[i e]|] eqn:Ef; [|done].
    apply list_find_Some in Ef as (He & _). csimpl.
    rewrite ?Z.add_0_l.
    rewrite (aget_Some _ _ e); [|lia|by rewrite Nat2Z.id]. run_ok.
    rewrite check_entry_ok by done. simpl. apply lookup_lt_Some in He as Hlt.
    unfold set_tlb. simpl. destruct (readOnly e && writing); simpl.
    { rewrite aset_ok by lia. simpl. by rewrite Nat2Z.id, list_insert_id. }
    destruct (NumPhysPages <=? _); simpl; rewrite aset_ok by lia; simpl; rewrite Nat2Z.id; [|done].
    by rewrite list_insert_id.
  - assert (0 ≤ u32 va / PageSize) as Hv.
    { apply Z.div_pos; [apply u32_range|done]. }
    rewrite Z.geb_leb. destruct (Z.leb_spec psz (u32 va / PageSize)) as [Hle|Hlt'].
    { destruct (Z.ltb_spec (u32 va / PageSize) psz); [lia|]. by destruct (pt !! Z.to_nat (u32 va / PageSize)). }
    destruct (Z.ltb_spec (u32 va / PageSize) psz); [|lia].
    destruct (aget_ok pt (u32 va / PageSize)) as (e & He & Hg); [lia|].
    rewrite Hg, He. run_ok. simpl. destruct (valid e); [|done]. simpl.
    rewrite check_entry_ok by done. simpl. unfold set_pageTable. simpl.
    destruct (readOnly e && writing); simpl.
    { rewrite aset_ok by lia. simpl. by rewrite list_insert_id. }
    destruct (NumPhysPages <=? _); simpl; rewrite aset_ok by lia; simpl; [|done].
    by rewrite list_insert_id.
Qed.

Lemma find_entry_lookup m vpn i e : find_entry m vpn = Some (i, e) → entries m !! i = Some e.
Proof.
  unfold find_entry, entries. destruct (tlb m) as [t|].
  - intros H. by apply list_find_Some in H as (? & _).
  - destruct (_ !! Z.to_nat vpn) as [e'|] eqn:E; csimpl; [|done].
    destruct (_ && _); [|done]. by intros; simplify_eq.
Qed.

Lemma find_entry_valid m vpn i e : find_entry m vpn = Some (i, e) → valid e = true.
Proof.
  unfold find_entry. destruct (tlb m) as [t|].
  - intros H. by apply list_find_Some in H as (_ & [? _] & _).
  - destruct (_ !! Z.to_nat vpn) as [e'|] eqn:E; csimpl; [|done].
    destruct (valid e') eqn:Ev; [|by rewrite andb_false_r].
    destruct (_ <? _); [|done]. by intros; simplify_eq/=.
Qed.

Lemma set_entry_lookup m i e e' : entries m !! i = Some e → entries (set_entry m i e') !! i = Some e'.
Proof.
  intros Hi. apply lookup_lt_Some in Hi. unfold set_entry, entries in *.
  destruct (tlb m) as [t|] eqn:Et; simpl; rewrite ?Et; by rewrite list_lookup_insert_eq.
Qed.

Lemma set_entry_wf m i e : wf_mem m → wf_mem (set_entry m i e).
Proof.
  intros [Hl Hb Ht]. unfold set_entry, entries.
  split; destruct m as [r mem [t|] [pt|] psz]; simpl in *; try done; by rewrite length_insert.
Qed.

Lemma set_entry_same m i e : mainMemory (set_entry m i e) = mainMemory m ∧ registers (set_entry m i e) = registers m.
Proof. unfold set_entry. by destruct (tlb m). Qed.

(** Accesses keep what an entry says: setting the use and dirty bits of the
    entry in use changes no later translation but for those bits. *)
Lemma find_entry_touched m vpn i e w :
  find_entry m vpn = Some (i, e) →
  find_entry (set_entry m i (touched e w)) vpn = Some (i, touched e w).
Proof.
  intros H. pose proof (find_entry_lookup _ _ _ _ H) as Hi. apply lookup_lt_Some in Hi as Hlt.
  unfold find_entry, set_entry, entries in *. destruct m as [r mem [t|] pt psz]; simpl in *.
  - apply list_find_Some in H as (_ & HP & Hmin). apply list_find_Some.
    split_and!; [by rewrite list_lookup_insert_eq|done|].
    intros j y Hj Hlj. rewrite list_lookup_insert_ne in Hj by lia. by apply (Hmin j y).
  - destruct (_ !! Z.to_nat vpn) as [e'|] eqn:E; csimpl in *; [|done].
    destruct (vpn <? psz) eqn:El; csimpl in *; [|done].
    destruct (valid e') eqn:Ev; [|done]. simplify_eq.
    rewrite list_lookup_insert_eq by done. csimpl. by rewrite Ev.
Qed.

(** ** Lemmas: bytes *)

Lemma load_bytes_ok mem a n :
  0 ≤ a → a + Z.of_nat n ≤ Z.of_nat (length mem) →
  load_bytes mem a n = Ok (take n (drop (Z.to_nat a) mem)).
Proof.
  revert a. induction n as [|n IH]; intros a Ha Hn; [done|].
  destruct (aget_ok mem a) as (b & Hb & Hg); [lia|]. cbn [load_bytes]. rewrite Hg. run_ok.
  rewrite IH by lia. run_ok. rewrite (drop_S _ _ _ Hb). simpl.
  by replace (Z.to_nat (a + 1)) with (S (Z.to_nat a)) by lia.
Qed.

Lemma store_bytes_ok mem a bs :
  0 ≤ a → a + Z.of_nat (length bs) ≤ Z.of_nat (length mem) →
  store_bytes mem a bs = Ok (list_inserts (Z.to_nat a) bs mem).
Proof.
  revert a mem. induction bs as [|b bs IH]; intros a mem Ha Hn; [done|]. simpl in Hn.
  cbn [store_bytes]. rewrite aset_ok by lia. run_ok.
  rewrite IH by (rewrite ?length_insert; lia). simpl.
  replace (Z.to_nat (a + 1)) with (S (Z.to_nat a)) by lia. f_equal. apply inserts_insert. lia.
Qed.

Lemma le_split_length n z : length (le_split n z) = n.
Proof. revert z. induction n; intros; simpl; [done|]. by rewrite IHn. Qed.

Lemma le_split_bytes n z : Forall is_byte (le_split n z).
Proof.
  revert z. induction n; intros; simpl; constructor; [|done]. apply Z.mod_pos_bound. lia.
Qed.

Lemma le_combine_split n z : le_combine (le_split n z) = z mod 256 ^ Z.of_nat n.
Proof.
  revert z. induction n as [|n IH]; intros z; [by rewrite Z.mod_1_r|]. cbn [le_split le_combine].
  rewrite IH. replace (Z.of_nat (S n)) with (1 + Z.of_nat n) by lia.
  rewrite Z.pow_add_r, Z.pow_1_r by lia. rewrite Z.rem_mul_r by lia. lia.
Qed.

Lemma le_combine_range bs : Forall is_byte bs → 0 ≤ le_combine bs < 256 ^ Z.of_nat (length bs).
Proof.
  unfold is_byte. induction 1 as [|b bs Hb _ IH]; cbn [le_combine length]; [done|].
  rewrite Nat2Z.inj_succ, Z.pow_succ_r by lia. lia.
Qed.

Lemma le_split_combine bs : Forall is_byte bs → le_split (length bs) (le_combine bs) = bs.
Proof.
  unfold is_byte. induction 1 as [|b bs Hb _ IH]; cbn [le_combine le_split length]; [done|].
  rewrite Z.mul_comm, Z_mod_plus_full, Z.mod_small by lia.
  rewrite Z_div_plus_full, Z.div_small, Z.add_0_l by lia. by rewrite IH.
Qed.

Lemma byte_testbit_high b i : is_byte b → 8 ≤ i → Z.testbit b i = false.
Proof.
  intros Hb Hi. unfold is_byte in Hb. rewrite <- (Z.mod_small b (2 ^ 8)) by lia.
  apply Z.mod_pow2_bits_high. lia.
Qed.

Lemma cons_byte_testbit b z i :
  is_byte b → 0 ≤ i →
  Z.testbit (b + 256 * z) i = if i <? 8 then Z.testbit b i else Z.testbit z (i - 8).
Proof.
  intros Hb Hi. assert (Z.land b (Z.shiftl z 8) = 0) as H0.
  { apply Z.bits_inj'. intros j Hj. rewrite Z.land_spec, Z.shiftl_spec, Z.bits_0 by lia.
    destruct (Z.ltb_spec j 8).
    - rewrite (Z.testbit_neg_r z) by lia. apply andb_false_r.
    - by rewrite (byte_testbit_high b) by (done || lia). }
  replace (b + 256 * z) with (b + Z.shiftl z 8) by (rewrite Z.shiftl_mul_pow2; lia).
  rewrite Z.add_nocarry_lxor, Z.lxor_lor, Z.lor_spec, Z.shiftl_spec by done.
  destruct (Z.ltb_spec i 8).
  - rewrite (Z.testbit_neg_r z) by lia. apply orb_false_r.
  - by rewrite (byte_testbit_high b) by (done || lia).
Qed.

(** ** Lemmas: byte order *)

(** Decide the comparisons that [lia] decides. *)
Ltac decide_ineqs :=
  repeat match goal with
  | |- context [?a <? ?b] =>
    first [replace (a <? b) with true by lia | replace (a <? b) with false by lia]
  | |- context [?a <=? ?b] =>
    first [replace (a <=? b) with true by lia | replace (a <=? b) with false by lia]
  end.

Lemma byte_mask_testbit k i :
  0 ≤ k → 0 ≤ i → Z.testbit (Z.shiftl 255 k) i = (k <=? i) && (i <? k + 8).
Proof.
  intros Hk Hi. rewrite Z.shiftl_spec by lia. change 255 with (Z.ones 8).
  destruct (Z.leb_spec k i); [|by rewrite Z.testbit_neg_r by lia].
  rewrite Z.testbit_ones_nonneg by lia. simpl. apply eq_true_iff_eq. rewrite !Z.ltb_lt. lia.
Qed.

Lemma le4_testbit b0 b1 b2 b3 i :
  Forall is_byte [b0; b1; b2; b3] → 0 ≤ i →
  Z.testbit (le_combine [b0; b1; b2; b3]) i =
  if i <? 8 then Z.testbit b0 i else if i <? 16 then Z.testbit b1 (i - 8)
  else if i <? 24 then Z.testbit b2 (i - 16) else if i <? 32 then Z.testbit b3 (i - 24)
  else false.
Proof.
  rewrite !Forall_cons. intros (H0 & H1 & H2 & H3 & _) Hi. cbn [le_combine].
  rewrite cons_byte_testbit by done. destruct (Z.ltb_spec i 8); [done|].
  rewrite cons_byte_testbit by (done || lia). destruct (Z.ltb_spec i 16); decide_ineqs; [done|].
  rewrite cons_byte_testbit by (done || lia). replace (i - 8 - 8) with (i - 16) by lia.
  destruct (Z.ltb_spec i 24); decide_ineqs; [done|].
  rewrite cons_byte_testbit by (done || lia). replace (i - 16 - 8) with (i - 24) by lia.
  destruct (Z.ltb_spec i 32); decide_ineqs; [done|]. apply Z.bits_0.
Qed.

(** The byte swap of a big endian host. *)
Lemma WordToHost_swap b0 b1 b2 b3 :
  Forall is_byte [b0; b1; b2; b3] →
  WordToHost true (le_combine [b3; b2; b1; b0]) = le_combine [b0; b1; b2; b3].
Proof.
  intros H. assert (Forall is_byte [b3; b2; b1; b0]) as H'.
  { rewrite !Forall_cons in *. tauto. }
  apply u32_bits_eq.
  - unfold WordToHost. repeat apply is_u32_lor; apply is_u32_land_r; unfold is_u32; lia.
  - apply (le_combine_range _ H).
  - intros i Hi. rewrite le4_testbit by (done || lia). unfold WordToHost.
    rewrite !Z.lor_spec, !Z.land_spec, !u32_testbit, !Z.shiftr_spec, !Z.shiftl_spec by lia.
    change 0x000000ff with (Z.shiftl 255 0). change 0x0000ff00 with (Z.shiftl 255 8).
    change 0x00ff0000 with (Z.shiftl 255 16). change 0xff000000 with (Z.shiftl 255 24).
    rewrite !byte_mask_testbit by lia.
    assert (i < 8 ∨ 8 ≤ i < 16 ∨ 16 ≤ i < 24 ∨ 24 ≤ i < 32) as [?|[?|[?|?]]] by lia;
      decide_ineqs; cbn [andb orb]; rewrite ?andb_false_r, ?andb_true_r, ?orb_false_r, ?orb_false_l;
      rewrite le4_testbit by (done || lia); decide_ineqs; f_equal; lia.
Qed.

Lemma ShortToHost_swap b0 b1 :
  Forall is_byte [b0; b1] →
  ShortToHost true (le_combine [b1; b0]) = le_combine [b0; b1].
Proof.
  rewrite !Forall_cons. intros (H0 & H1 & _). unfold is_byte in *.
  assert (∀ c0 c1, is_byte c0 → is_byte c1 → Forall is_byte [c0; c1; 0; 0]) as HF.
  { intros. rewrite !Forall_cons. by split_and!. }
  change (le_combine [b0; b1]) with (le_combine [b0; b1; 0; 0]).
  change (le_combine [b1; b0]) with (le_combine [b1; b0; 0; 0]).
  apply Z.bits_inj'. intros i Hi. unfold ShortToHost.
  rewrite (le4_testbit b0) by auto.
  rewrite !Z.lor_spec, !Z.land_spec, !Z.shiftr_spec, !Z.shiftl_spec by lia.
  change 0xff00 with (Z.shiftl 255 8). change 0x00ff with (Z.shiftl 255 0).
  rewrite !byte_mask_testbit by lia. rewrite !Z.bits_0.
  assert (i < 8 ∨ 8 ≤ i < 16 ∨ 16 ≤ i < 24 ∨ 24 ≤ i < 32 ∨ 32 ≤ i) as [?|[?|[?|[?|?]]]] by lia;
    decide_ineqs; cbn [andb orb]; rewrite ?andb_false_r, ?andb_true_r, ?orb_false_r, ?orb_false_l;
    try done; rewrite le4_testbit by (auto || lia); decide_ineqs; f_equal; lia.
Qed.

(** On either host, a word or short of memory is its bytes in little endian
    order. *)
Lemma word_of_bytes E bs :
  Forall is_byte bs → length bs = 4%nat → WordToHost E (le_combine (host_order E bs)) = le_combine bs.
Proof.
  intros H Hl. destruct E; [|done]. unfold host_order.
  do 5 (destruct bs as [|? bs]; try done). by apply WordToHost_swap.
Qed.

Lemma short_of_bytes E bs :
  Forall is_byte bs → length bs = 2%nat → ShortToHost E (le_combine (host_order E bs)) = le_combine bs.
Proof.
  intros H Hl. destruct E; [|done]. unfold host_order.
  do 3 (destruct bs as [|? bs]; try done). by apply ShortToHost_swap.
Qed.

Lemma host_order_bytes E bs : Forall is_byte bs → Forall is_byte (host_order E bs).
Proof. destruct E; [|done]. apply Forall_reverse. Qed.

Lemma host_order_length E bs : length (host_order E bs) = length bs.
Proof. destruct E; [apply length_reverse|done]. Qed.

Lemma host_order_invol E bs : host_order E (host_order E bs) = bs.
Proof. destruct E; [apply reverse_involutive|done]. Qed.

Lemma bytes_of_word E v :
  is_u32 v → host_order E (le_split 4 (WordToMachine E v)) = le_split 4 v.
Proof.
  intros Hv. pose proof (le_split_bytes 4 v) as Hb. pose proof (le_split_length 4 v) as Hl.
  assert (v = le_combine (host_order E (host_order E (le_split 4 v)))) as Hv'.
  { rewrite host_order_invol, le_combine_split. symmetry. by apply u32_id. }
  unfold WordToMachine. rewrite Hv' at 1.
  rewrite word_of_bytes by (rewrite ?host_order_length; auto using host_order_bytes).
  rewrite <- Hl at 1. rewrite <- (host_order_length E), le_split_combine by auto using host_order_bytes.
  by rewrite host_order_invol.
Qed.

Lemma bytes_of_short E v :
  0 ≤ v < 65536 → host_order E (le_split 2 (ShortToMachine E v)) = le_split 2 v.
Proof.
  intros Hv. pose proof (le_split_bytes 2 v) as Hb. pose proof (le_split_length 2 v) as Hl.
  assert (v = le_combine (host_order E (host_order E (le_split 2 v)))) as Hv'.
  { rewrite host_order_invol, le_combine_split. symmetry. by apply Z.mod_small. }
  unfold ShortToMachine. rewrite Hv' at 1.
  rewrite short_of_bytes by (rewrite ?host_order_length; auto using host_order_bytes).
  rewrite <- Hl at 1. rewrite <- (host_order_length E), le_split_combine by auto using host_order_bytes.
  by rewrite host_order_invol.
Qed.

(** ** Lemmas: registers *)

Definition reg (m : Machine) (i : Z) : Z := default 0 (registers m !! Z.to_nat i).
Definition put_reg (m : Machine) (i v : Z) : Machine :=
  set_registers m (<[Z.to_nat i := u32 v]> (registers m)).

Section registers.
Implicit Types (m : Machine).

Lemma rget_ok m i : wf_regs m → 0 ≤ i < NumTotalRegs → rget m i = Ok (reg m i).
Proof.
  intros [Hl _ _] Hi. unfold rget, reg, NumTotalRegs in *.
  destruct (aget_ok (registers m) i) as (x & Hx & Hg); [lia|]. by rewrite Hx, Hg.
Qed.

Lemma rset_ok m i v : wf_regs m → 0 ≤ i < NumTotalRegs → rset m i v = Ok (put_reg m i v).
Proof.
  intros [Hl _ _] Hi. unfold rset, put_reg, NumTotalRegs in *. by rewrite aset_ok by lia.
Qed.

Lemma reg_u32 m i : wf_regs m → is_u32 (reg m i).
Proof.
  intros [_ Hu _]. unfold reg. destruct (_ !! _) eqn:E; simpl; [|done].
  by apply (Forall_lookup_1 _ _ _ _ Hu E).
Qed.

Lemma reg_load m : wf_regs m → 0 ≤ reg m LoadReg < NumGPRegs.
Proof.
  intros Hw. pose proof (reg_u32 m LoadReg Hw) as [? _]. split; [done|].
  destruct Hw as [Hl _ Hr]. unfold reg in *.
  destruct (registers m !! Z.to_nat LoadReg) eqn:E; [by apply Hr|]. done.
Qed.

Lemma put_reg_wf m i v :
  wf_regs m → i ≠ LoadReg → 0 ≤ i → wf_regs (put_reg m i v).
Proof.
  intros [Hl Hu Hr] Hi Hi0. unfold put_reg. split; simpl.
  - by rewrite length_insert.
  - apply Forall_insert; [done|apply u32_range].
  - intros r. rewrite list_lookup_insert_ne by (unfold LoadReg in *; lia). apply Hr.
Qed.

Lemma put_load_wf m v : wf_regs m → 0 ≤ v < NumGPRegs → wf_regs (put_reg m LoadReg v).
Proof.
  intros [Hl Hu Hr] Hv. unfold NumGPRegs in *. unfold put_reg. split; simpl.
  - by rewrite length_insert.
  - apply Forall_insert; [done|apply u32_range].
  - intros r. unfold LoadReg, NumTotalRegs in *.
    rewrite list_lookup_insert_eq by lia. intros; simplify_eq.
    rewrite u32_id by (unfold is_u32; lia). unfold NumGPRegs. lia.
Qed.

Lemma reg_ext m m' j : registers m = registers m' → reg m j = reg m' j.
Proof. unfold reg. by intros ->. Qed.

Lemma reg_put_eq m i v : wf_regs m → 0 ≤ i < NumTotalRegs → reg (put_reg m i v) i = u32 v.
Proof.
  intros [Hl _ _] Hi. unfold reg, put_reg, NumTotalRegs in *. simpl.
  by rewrite list_lookup_insert_eq by lia.
Qed.

Lemma reg_put_ne m i j v : 0 ≤ i → 0 ≤ j → i ≠ j → reg (put_reg m i v) j = reg m j.
Proof. intros. unfold reg, put_reg. simpl. by rewrite list_lookup_insert_ne by lia. Qed.

(** The registers after a delayed load. *)
Definition loaded (m : Machine) (nextReg nextValue : Z) : Machine :=
  put_reg (put_reg (put_reg (put_reg m (reg m LoadReg) (reg m LoadValueReg))
    LoadReg nextReg) LoadValueReg nextValue) 0 0.

Lemma DelayedLoad_ok m nr nv :
  wf_regs m → 0 ≤ nr < NumGPRegs →
  DelayedLoad m nr nv = Ok (loaded m nr nv) ∧ wf_regs (loaded m nr nv) ∧
  reg (loaded m nr nv) 0 = 0.
Proof.
  intros Hw Hn. pose proof (reg_load m Hw) as Hl. unfold NumGPRegs in *.
  assert (wf_regs (put_reg m (reg m LoadReg) (reg m LoadValueReg))) as H1
    by (apply put_reg_wf; unfold LoadReg in *; lia || done).
  assert (wf_regs (put_reg (put_reg m (reg m LoadReg) (reg m LoadValueReg)) LoadReg nr)) as H2
    by (by apply put_load_wf).
  unfold DelayedLoad. rewrite !rget_ok by (done || lia). run_ok.
  rewrite rset_ok by (done || unfold NumTotalRegs; lia). run_ok.
  rewrite rset_ok by (done || unfold NumTotalRegs; lia). run_ok.
  rewrite rset_ok by (done || unfold NumTotalRegs; lia). run_ok.
  assert (wf_regs (put_reg (put_reg (put_reg m (reg m LoadReg) (reg m LoadValueReg)) LoadReg nr)
    LoadValueReg nv)) as H3 by (by apply put_reg_wf).
  rewrite rset_ok by (done || unfold NumTotalRegs; lia). unfold loaded.
  split_and!; [done|by apply put_reg_wf|by rewrite reg_put_eq].
Qed.

(** A delayed load only writes a general register and the load registers. *)
Lemma reg_loaded m nr nv j :
  wf_regs m → NumGPRegs ≤ j → j ≠ LoadReg → j ≠ LoadValueReg → reg (loaded m nr nv) j = reg m j.
Proof.
  intros Hw Hj ??. pose proof (reg_load m Hw) as Hl. unfold loaded.
  unfold NumGPRegs, LoadReg, LoadValueReg in *. by rewrite !reg_put_ne by lia.
Qed.

(** The machine as [ExceptionHandler] finds it. *)
Definition raised (m : Machine) (badVAddr : Z) : Machine :=
  loaded (put_reg m BadVAddrReg badVAddr) 0 0.

Lemma RaiseException_ok m va :
  wf_regs m → RaiseException m va = Ok (raised m va) ∧ wf_regs (raised m va) ∧
              reg (raised m va) 0 = 0.
Proof.
  intros Hw. unfold RaiseException. rewrite rset_ok by done. run_ok.
  apply DelayedLoad_ok; [by apply put_reg_wf|done].
Qed.

End registers.

(** ** Lemmas: memory accesses *)

Definition mem_value (size : Z) (bs : list Z) : Z :=
  if size =? 1 then s8 (le_combine bs)
  else if size =? 2 then le_combine bs
  else s32 (le_combine bs).

Definition phys_bytes (m : Machine) (pa size : Z) : list Z :=
  take (Z.to_nat size) (drop (Z.to_nat pa) (mainMemory m)).

Lemma phys_bytes_length m pa size :
  wf_mem m → 0 ≤ pa → 0 ≤ size → pa + size ≤ MemorySize → length (phys_bytes m pa size) = Z.to_nat size.
Proof. intros [Hl _ _] ???. unfold phys_bytes. rewrite length_take, length_drop. lia. Qed.

Lemma phys_bytes_bytes m pa size : wf_mem m → Forall is_byte (phys_bytes m pa size).
Proof. intros [_ Hb _]. by apply Forall_take, Forall_drop. Qed.

Lemma no_exception_entry m va size w :
  translate_exc m va size w = NoException →
  ∃ i e, find_entry m (u32 va / PageSize) = Some (i, e) ∧ misaligned va size = false ∧
         u32 (physicalPage e) < NumPhysPages ∧ readOnly e && w = false.
Proof.
  unfold translate_exc. destruct (misaligned va size); [done|].
  destruct (find_entry _ _) as [[i e]|]; [|destruct (tlb m); [done|by destruct (_ <? _)]].
  destruct (readOnly e && w) eqn:Er; [done|].
  destruct (Z.leb_spec NumPhysPages (u32 (physicalPage e))); [done|]. eauto 10.
Qed.

Lemma ReadMem_done E m va size i e :
  wf_mem m → size = 1 ∨ size = 2 ∨ size = 4 →
  translate_exc m va size false = NoException →
  find_entry m (u32 va / PageSize) = Some (i, e) →
  ReadMem E m va size =
  Ok (Done (mem_value size (phys_bytes m (frame_address e va) size)) (set_entry m i (touched e false))).
Proof.
  intros Hw Hs Hx Hf. unfold ReadMem. rewrite Translate_eq by done. rewrite Hx, Hf. simpl.
  destruct (no_exception_entry _ _ _ _ Hx) as (i' & e' & Hf' & Ha & Hp & _). simplify_eq.
  destruct (frame_address_range e va size Hs Ha Hp) as [H0 H1].
  pose proof Hw as [Hl _ _]. rewrite (proj1 (set_entry_same _ _ _)).
  pose proof (phys_bytes_length m (frame_address e va) size Hw H0) as Hpl.
  pose proof (phys_bytes_bytes m (frame_address e va) size Hw) as Hpb.
  unfold host_load, mem_value. destruct Hs as [->|[->| ->]]; cbn [Z.eqb Pos.eqb].
  - destruct (aget_ok (mainMemory m) (frame_address e va)) as (b & Hb & Hg); [lia|].
    rewrite Hg. run_ok. unfold phys_bytes. rewrite (drop_S _ _ _ Hb). simpl.
    by rewrite Z.add_0_r.
  - rewrite load_bytes_ok by lia. run_ok. do 2 f_equal.
    apply short_of_bytes; [done|apply Hpl; lia].
  - rewrite load_bytes_ok by lia. run_ok. do 3 f_equal.
    apply word_of_bytes; [done|apply Hpl; lia].
Qed.

(** The machine after a store. *)
Definition stored (m : Machine) (pa size v : Z) : Machine :=
  set_mainMemory m (list_inserts (Z.to_nat pa) (le_split (Z.to_nat size) v) (mainMemory m)).

Lemma WriteMem_done E m va size v i e :
  wf_mem m → size = 1 ∨ size = 2 ∨ size = 4 →
  translate_exc m va size true = NoException →
  find_entry m (u32 va / PageSize) = Some (i, e) →
  WriteMem E m va size v =
  Ok (Done tt (stored (set_entry m i (touched e true)) (frame_address e va) size v)).
Proof.
  intros Hw Hs Hx Hf. unfold WriteMem. rewrite Translate_eq by done. rewrite Hx, Hf. simpl.
  destruct (no_exception_entry _ _ _ _ Hx) as (i' & e' & Hf' & Ha & Hp & _). simplify_eq.
  destruct (frame_address_range e va size Hs Ha Hp) as [H0 H1].
  pose proof Hw as [Hl _ _]. unfold host_store, stored. rewrite (proj1 (set_entry_same _ _ _)).
  change 0xff with (Z.ones 8). change 0xffff with (Z.ones 16). rewrite !Z.land_ones by lia.
  destruct Hs as [->|[->| ->]]; cbn [Z.eqb Pos.eqb].
  - rewrite aset_ok by lia. done.
  - rewrite bytes_of_short by (apply Z.mod_pos_bound; lia).
    rewrite store_bytes_ok by (rewrite ?le_split_length; lia). run_ok.
    do 4 f_equal. simpl. f_equal; [|f_equal]; Z.to_euclidean_division_equations; lia.
  - rewrite bytes_of_word by apply u32_range.
    rewrite store_bytes_ok by (rewrite ?le_split_length; lia). run_ok.
    do 4 f_equal. simpl. unfold u32.
    f_equal; [|f_equal; [|f_equal; [|f_equal]]]; Z.to_euclidean_division_equations; lia.
Qed.

Lemma stored_wf m pa size v :
  wf_mem m → wf_mem (stored m pa size v).
Proof.
  intros [Hl Hb Ht]. split; simpl; [|by apply Forall_inserts; [apply le_split_bytes|]|done].
  by rewrite length_inserts.
Qed.

Lemma find_entry_stored m pa size v vpn : find_entry (stored m pa size v) vpn = find_entry m vpn.
Proof. done. Qed.

Lemma translate_exc_stored m pa size' v va size w :
  translate_exc (stored m pa size' v) va size w = translate_exc m va size w.
Proof. done. Qed.

(** Reading is allowed wherever writing is, also after the access. *)
Lemma translate_exc_again m va size w i e :
  translate_exc m va size w = NoException → find_entry m (u32 va / PageSize) = Some (i, e) →
  translate_exc (set_entry m i (touched e w)) va size false = NoException.
Proof.
  intros Hx Hf. destruct (no_exception_entry _ _ _ _ Hx) as (i' & e' & Hf' & Ha & Hp & _).
  simplify_eq. unfold translate_exc. rewrite Ha, (find_entry_touched _ _ _ _ _ Hf). simpl.
  rewrite andb_false_r. destruct (Z.leb_spec NumPhysPages (u32 (physicalPage e))); [lia|done].
Qed.

Lemma phys_bytes_stored m pa size v :
  wf_mem m → 0 ≤ pa → 0 ≤ size → pa + size ≤ MemorySize →
  phys_bytes (stored m pa size v) pa size = le_split (Z.to_nat size) v.
Proof.
  intros [Hl _ _] H0 Hs H1. unfold phys_bytes. simpl. apply list_eq. intros j.
  destruct (decide (j < Z.to_nat size)%nat) as [Hj|Hj].
  - rewrite lookup_take_lt, lookup_drop by lia.
    rewrite list_lookup_inserts by (rewrite ?le_split_length; lia).
    f_equal. lia.
  - rewrite !lookup_ge_None_2; [done|rewrite le_split_length; lia|rewrite length_take; lia].
Qed.

(** What a load gives back of a stored value: its low bytes, extended the way
    the access of that size extends them. *)
Definition narrowed (size v : Z) : Z :=
  if size =? 1 then s8 (v mod 256) else if size =? 2 then v mod 65536 else s32 v.

Lemma mem_value_split size v :
  size = 1 ∨ size = 2 ∨ size = 4 → mem_value size (le_split (Z.to_nat size) v) = narrowed size v.
Proof.
  intros Hs. unfold mem_value, narrowed. rewrite le_combine_split.
  destruct Hs as [->|[->| ->]]; [done|done|]. apply s32_u32.
Qed.

(** The invariant of the whole machine, outside of an instruction. *)
Definition wfm (m : Machine) : Prop := wf_regs m ∧ wf_mem m.

Lemma put_reg_wfm m i v : wfm m → i ≠ LoadReg → 0 ≤ i → wfm (put_reg m i v).
Proof. intros [? [? ? ?]] ??. split; [by apply put_reg_wf|by split]. Qed.

Lemma loaded_wfm m r v : wfm m → 0 ≤ r < NumGPRegs → wfm (loaded m r v).
Proof. intros [Hr [? ? ?]] Hn. split; [by apply DelayedLoad_ok|by split]. Qed.

Lemma raised_wfm m va : wfm m → wfm (raised m va).
Proof. intros. by apply loaded_wfm; [apply put_reg_wfm|]. Qed.

Lemma set_entry_wfm m i e : wfm m → wfm (set_entry m i e).
Proof.
  intros [[] Hm]. split; [|by apply set_entry_wf].
  split; by rewrite (proj2 (set_entry_same m i e)).
Qed.

Lemma stored_wfm m pa size v : wfm m → wfm (stored m pa size v).
Proof. intros [[] ?]. by split; [|apply stored_wf]. Qed.

(** ** Confinement

    [confined m m']: going from [m] to [m'] changed no byte of memory outside
    the frames that [m] maps writable, and nothing of the translation but use
    and dirty bits. *)
Definition same_mapping (e e' : TranslationEntry) : Prop :=
  virtualPage e' = virtualPage e ∧ physicalPage e' = physicalPage e ∧
  valid e' = valid e ∧ readOnly e' = readOnly e.

Definition writable (m : Machine) (a : nat) : Prop :=
  ∃ e, e ∈ entries m ∧ valid e = true ∧ readOnly e = false ∧
       Z.of_nat a / PageSize = u32 (physicalPage e).

Record confined (m m' : Machine) : Prop := mkConfined {
  cf_entries : Forall2 same_mapping (entries m) (entries m');
  cf_tlb : is_Some (tlb m) ↔ is_Some (tlb m');
  cf_table : is_Some (pageTable m) ↔ is_Some (pageTable m');
  cf_size : pageTableSize m' = pageTableSize m;
  cf_length : length (mainMemory m') = length (mainMemory m);
  cf_memory : ∀ a, ¬ writable m a → mainMemory m' !! a = mainMemory m !! a;
}.

#[global] Instance same_mapping_preorder : PreOrder same_mapping.
Proof. split; [done|]. intros ??? (? & ? & ? & ?) (? & ? & ? & ?). unfold same_mapping. naive_solver congruence. Qed.

Lemma confined_refl m m' :
  mainMemory m' = mainMemory m → tlb m' = tlb m → pageTable m' = pageTable m →
  pageTableSize m' = pageTableSize m → confined m m'.
Proof.
  intros Hm Ht Hp Hs. split; rewrite ?Hm, ?Ht, ?Hp; try done.
  unfold entries. by rewrite Ht, Hp.
Qed.

Lemma confined_writable m m' a : confined m m' → writable m' a → writable m a.
Proof.
  intros [Hf _ _ _ _ _] (e' & (k & Hk)%list_elem_of_lookup & Hv & Hr & Ha).
  destruct (Forall2_lookup_r _ _ _ _ _ Hf Hk) as (e & He & (_ & Hp & Hv' & Hr')).
  exists e. rewrite <- Hp, <- Hv', <- Hr'. split_and!; [by eapply list_elem_of_lookup_2|done..].
Qed.

Lemma confined_trans m1 m2 m3 : confined m1 m2 → confined m2 m3 → confined m1 m3.
Proof.
  intros H12 H23. pose proof (λ a, confined_writable m1 m2 a H12) as Hw.
  destruct H12 as [Hf Ht Hp Hs Hl Hm], H23 as [Hf' Ht' Hp' Hs' Hl' Hm'].
  split; [by etrans|by rewrite Ht|by rewrite Hp|congruence|congruence|].
  intros a Ha. rewrite Hm', Hm; [done|done|]. intros Hw2. by apply Ha, Hw.
Qed.

Lemma set_entry_confined m i e w :
  wf_mem m → entries m !! i = Some e → confined m (set_entry m i (touched e w)).
Proof.
  intros [_ _ Htab] Hi.
  assert (Forall2 same_mapping (entries m) (<[i := touched e w]> (entries m))) as Hf.
  { rewrite <- (list_insert_id (entries m) i e Hi) at 1. by apply Forall2_insert. }
  destruct m as [r mem [t|] [pt|] psz]; try done; split; try done; simpl; by rewrite !is_Some_alt.
Qed.

Lemma stored_confined m va size v i e :
  wf_mem m → size = 1 ∨ size = 2 ∨ size = 4 →
  translate_exc m va size true = NoException →
  find_entry m (u32 va / PageSize) = Some (i, e) →
  confined m (stored (set_entry m i (touched e true)) (frame_address e va) size v).
Proof.
  intros Hw Hs Hx Hf. pose proof (find_entry_lookup _ _ _ _ Hf) as Hi.
  eapply confined_trans; [by apply (set_entry_confined m i e true)|].
  destruct (no_exception_entry _ _ _ _ Hx) as (i' & e' & Hf' & Ha & Hp & Hro). simplify_eq.
  pose proof (offset_fits va size Hs Ha) as Hhi. pose proof (u32_range (physicalPage e)) as Hu.
  pose proof (Z.mod_pos_bound (u32 va) PageSize ltac:(done)) as Hlo.
  set (m1 := set_entry m i (touched e true)). split; try done; simpl; [by rewrite length_inserts|].
  intros a Hnw. apply inserts_ne. rewrite le_split_length.
  destruct (decide (Z.of_nat a / PageSize = u32 (physicalPage e))) as [Hpage|Hpage].
  - destruct Hnw. exists (touched e true). simpl. split_and!; [| | |done].
    + apply list_elem_of_lookup_2 with i. unfold m1. by apply (set_entry_lookup m i e).
    + by eapply find_entry_valid.
    + by destruct (readOnly e).
  - unfold frame_address, is_u32, PageSize, SectorSize in *.
    pose proof (Z.div_mod (Z.of_nat a) 128). pose proof (Z.mod_pos_bound (Z.of_nat a) 128). lia.
Qed.

(** An access of a size that exists either completes or traps, and keeps the
    invariant. *)
Lemma ReadMem_total E m va size :
  wfm m → size = 1 ∨ size = 2 ∨ size = 4 →
  (∃ v m', ReadMem E m va size = Ok (Done v m') ∧ wfm m' ∧
           registers m' = registers m ∧ mainMemory m' = mainMemory m ∧ confined m m') ∨
  (∃ which, which ≠ NoException ∧ ReadMem E m va size = Ok (Raised which (raised m va))).
Proof.
  intros [Hr Hm] Hs. destruct (decide (translate_exc m va size false = NoException)) as [Hx|Hx].
  - destruct (no_exception_entry _ _ _ _ Hx) as (i & e & Hf & _). left.
    rewrite (ReadMem_done _ _ _ _ i e) by done. eexists _, _. split_and!; [done|..].
    + by apply set_entry_wfm.
    + apply set_entry_same.
    + apply set_entry_same.
    + by eapply set_entry_confined, find_entry_lookup.
  - right. exists (translate_exc m va size false). split; [done|].
    unfold ReadMem. rewrite Translate_eq by done.
    destruct (RaiseException_ok m va Hr) as (HR & _).
    destruct (translate_exc m va size false); done || (simpl; by rewrite HR).
Qed.

Lemma WriteMem_total E m va size v :
  wfm m → size = 1 ∨ size = 2 ∨ size = 4 →
  (∃ m', WriteMem E m va size v = Ok (Done tt m') ∧ wfm m' ∧ registers m' = registers m ∧
         confined m m') ∨
  (∃ which, which ≠ NoException ∧ WriteMem E m va size v = Ok (Raised which (raised m va))).
Proof.
  intros [Hr Hm] Hs. destruct (decide (translate_exc m va size true = NoException)) as [Hx|Hx].
  - destruct (no_exception_entry _ _ _ _ Hx) as (i & e & Hf & _). left.
    rewrite (WriteMem_done _ _ _ _ _ i e) by done. eexists. split_and!; [done|..].
    + by apply stored_wfm, set_entry_wfm.
    + apply set_entry_same.
    + by apply stored_confined.
  - right. exists (translate_exc m va size true). split; [done|].
    unfold WriteMem. rewrite Translate_eq by done.
    destruct (RaiseException_ok m va Hr) as (HR & _).
    destruct (translate_exc m va size true); done || (simpl; by rewrite HR).
Qed.

(** ** Properties *)

(** C23: address translation is exactly the table of cases [translate_exc]:
    misaligned access, page outside the table, page not mapped, write to a
    read-only page, frame that does not exist, else success.  On success the
    address is the offset within the frame of the entry that maps the page, the
    access lies inside main memory (the assertion at the end of [Translate]
    cannot fail), and the only change is to the use and dirty bits of that
    entry; otherwise nothing changes. *)
Theorem translate_correct m va size writing :
  wf_mem m → size = 1 ∨ size = 2 ∨ size = 4 →
  ∃ pa m', Translate m va size writing = Ok (translate_exc m va size writing, pa, m') ∧
  wf_mem m' ∧
  (translate_exc m va size writing ≠ NoException → m' = m) ∧
  (translate_exc m va size writing = NoException →
   ∃ i e, find_entry m (u32 va / PageSize) = Some (i, e) ∧
          pa = u32 (physicalPage e) * PageSize + u32 va mod PageSize ∧
          0 ≤ pa ∧ pa + size ≤ MemorySize ∧ m' = set_entry m i (touched e writing)).
Proof.
  intros Hw Hs. rewrite Translate_eq by done.
  destruct (translate_exc m va size writing) eqn:Hx;
    try (eexists _, _; split_and!; [done|done|done|discriminate]).
  destruct (no_exception_entry _ _ _ _ Hx) as (i & e & Hf & Ha & Hp & _). rewrite Hf.
  destruct (frame_address_range e va size Hs Ha Hp).
  eexists _, _. split_and!; [done|by apply set_entry_wf|done|eauto 10].
Qed.

(** A machine with one mapped page: page 0 in frame 3. *)
Definition sample_machine : Machine :=
  mkMachine (replicate 40 0) (replicate (Z.to_nat MemorySize) 0) None
    (Some [mkEntry 0 3 true false false false]) 1.

Lemma sample_machine_wf : wf_mem sample_machine.
Proof. split; [reflexivity| |simpl; lia]. apply Forall_replicate. unfold is_byte. lia. Qed.

Lemma translate_correct_witness :
  ∃ m', Translate sample_machine 8 4 true = Ok (NoException, 392, m').
Proof.
  destruct (translate_correct sample_machine 8 4 true sample_machine_wf) as (pa & m' & H & _ & _ & He);
    [lia|].
  destruct (He eq_refl) as (i & e & Hf & -> & _). vm_compute in Hf. injection Hf as <- <-.
  by exists m'.
Defined.

(** Memory is a memory.  A store that translates changes exactly the bytes
    it addresses, and a load of the same size from the same address gives the
    value back, cut to that size; on a host of either byte order. *)
Theorem memory_round_trip HOST_IS_BIG_ENDIAN m va size v :
  wf_mem m → size = 1 ∨ size = 2 ∨ size = 4 →
  translate_exc m va size true = NoException →
  ∃ pa m1 m2, WriteMem HOST_IS_BIG_ENDIAN m va size v = Ok (Done tt m1) ∧
  ReadMem HOST_IS_BIG_ENDIAN m1 va size = Ok (Done (narrowed size v) m2) ∧
  wf_mem m1 ∧ registers m1 = registers m ∧
  (∀ j, (Z.of_nat j < pa ∨ pa + size ≤ Z.of_nat j) → mainMemory m1 !! j = mainMemory m !! j).
Proof.
  intros Hw Hs Hx. destruct (no_exception_entry _ _ _ _ Hx) as (i & e & Hf & Ha & Hp & _).
  destruct (frame_address_range e va size Hs Ha Hp) as [H0 H1].
  pose proof (set_entry_same m i (touched e true)) as [Hm Hr].
  pose proof (set_entry_wf m i (touched e true) Hw) as Hw'.
  pose proof (find_entry_touched _ _ _ _ true Hf) as Hft.
  exists (frame_address e va), (stored (set_entry m i (touched e true)) (frame_address e va) size v).
  eexists. split_and!.
  - by apply WriteMem_done.
  - rewrite (ReadMem_done _ _ _ _ i (touched e true)); [..|by rewrite find_entry_stored];
      [|by apply stored_wf|done|by rewrite translate_exc_stored; eapply translate_exc_again].
    change (frame_address (touched e true) va) with (frame_address e va).
    rewrite phys_bytes_stored by (done || lia). by rewrite mem_value_split.
  - by apply stored_wf.
  - done.
  - intros j Hj. simpl. rewrite Hm.
    destruct Hj; [apply list_lookup_inserts_lt; lia|].
    apply list_lookup_inserts_ge. rewrite le_split_length. lia.
Qed.

Lemma memory_round_trip_witness :
  ∃ m1 m2, WriteMem true sample_machine 8 2 (-2) = Ok (Done tt m1) ∧
           ReadMem true m1 8 2 = Ok (Done 65534 m2).
Proof.
  destruct (memory_round_trip true sample_machine 8 2 (-2) sample_machine_wf)
    as (pa & m1 & m2 & H1 & H2 & _); [lia|reflexivity|]. by exists m1, m2.
Defined.

(** The simulation does not depend on the host's byte order: loads and
    stores behave the same whether or not [HOST_IS_BIG_ENDIAN] is defined, since
    the conversions undo the host's order. *)
Theorem host_order_irrelevant m va size v :
  wf_mem m →
  ReadMem true m va size = ReadMem false m va size ∧
  WriteMem true m va size v = WriteMem false m va size v.
Proof.
  intros Hw. destruct (decide (size = 1 ∨ size = 2 ∨ size = 4)) as [Hs|Hs].
  - split.
    + destruct (decide (translate_exc m va size false = NoException)) as [Hx|Hx].
      * destruct (no_exception_entry _ _ _ _ Hx) as (i & e & Hf & _).
        by rewrite !(ReadMem_done _ m va size i e).
      * unfold ReadMem. rewrite Translate_eq by done.
        destruct (translate_exc m va size false) eqn:E; try done.
    + destruct (decide (translate_exc m va size true = NoException)) as [Hx|Hx].
      * destruct (no_exception_entry _ _ _ _ Hx) as (i & e & Hf & _).
        by rewrite !(WriteMem_done _ m va size v i e).
      * unfold WriteMem. rewrite Translate_eq by done.
        destruct (translate_exc m va size true) eqn:E; try done.
  - unfold ReadMem, WriteMem.
    destruct (Z.eqb_spec size 1), (Z.eqb_spec size 2), (Z.eqb_spec size 4); try lia. done.
Qed.

Lemma host_order_irrelevant_witness :
  ReadMem true sample_machine 8 4 = ReadMem false sample_machine 8 4.
Proof. exact (proj1 (host_order_irrelevant sample_machine 8 4 0 sample_machine_wf)). Defined.
End Machine.
