(* ===== verification/Bytes.v ===== *)
(** * Integers as bytes

    The bytes that an [int] or [unsigned] has in the memory of the host, which
    is how structures get to disk, into the packets of the network and into the
    header of a program. *)

From stdpp Require Import base list.
From S2P Require Import Prelude Machine.

Module Bytes.
Section bytes.
Context (E : bool).

Definition int_bytes (x : Z) : list Z := Machine.host_order E (Machine.le_split 4 (u32 x)).

(** The word at an offset, as [unsigned] and as [int]. *)
Definition word_at (bs : list Z) (offset : nat) : Z :=
  Machine.le_combine (Machine.host_order E (take 4 (drop offset bs))).
Definition int_at (bs : list Z) (offset : nat) : Z := s32 (word_at bs offset).

Lemma int_bytes_length x : length (int_bytes x) = 4%nat.
Proof. unfold int_bytes. by rewrite Machine.host_order_length, Machine.le_split_length. Qed.

Lemma int_bytes_bytes x : Forall Machine.is_byte (int_bytes x).
Proof. apply Machine.host_order_bytes, Machine.le_split_bytes. Qed.

Lemma word_at_int hd x tl o : o = length hd → word_at (hd ++ int_bytes x ++ tl) o = u32 x.
Proof.
  intros ->. unfold word_at. rewrite drop_app_length, take_app_length' by by rewrite int_bytes_length.
  unfold int_bytes. rewrite Machine.host_order_invol, Machine.le_combine_split. apply u32_id, u32_range.
Qed.

Lemma int_at_int hd x tl o : o = length hd → is_s32 x → int_at (hd ++ int_bytes x ++ tl) o = x.
Proof. intros Ho Hx. unfold int_at. rewrite word_at_int by done. rewrite s32_u32. by apply s32_id. Qed.

End bytes.

(** [bcopy(src, dst + o, n)]: reads [n] bytes and writes them, both within the
    arrays. *)
Definition bcopy (src dst : list Z) (o n : Z) : result (list Z) :=
  if (n <=? Z.of_nat (length src)) && (o + n <=? Z.of_nat (length dst))
  then Ok (list_inserts (Z.to_nat o) (take (Z.to_nat n) src) dst)
  else Err OutOfBounds.

Lemma inserts_split {A} (k l : list A) (o : nat) :
  (o + length k ≤ length l)%nat → list_inserts o k l = take o l ++ k ++ drop (o + length k) l.
Proof.
  intros H. rewrite <- (take_drop o l) at 1. apply list_eq. intros i.
  destruct (decide (i < o)%nat) as [Hi|Hi].
  - rewrite list_lookup_inserts_lt by done. rewrite !lookup_app_l by (rewrite length_take; lia). done.
  - rewrite (lookup_app_r (take o l)) by (rewrite length_take; lia). rewrite length_take, Nat.min_l by lia.
    destruct (decide (i < o + length k)%nat) as [Hi2|Hi2].
    + rewrite lookup_app_l by lia. rewrite list_lookup_inserts by (rewrite ?length_app, ?length_take, ?length_drop; lia). done.
    + rewrite list_lookup_inserts_ge by lia. rewrite lookup_app_r by (rewrite length_take; lia).
      rewrite lookup_app_r by lia. rewrite !lookup_drop, length_take, Nat.min_l by lia. f_equal. lia.
Qed.

Lemma bcopy_ok src dst o n :
  0 ≤ o → 0 ≤ n → n ≤ Z.of_nat (length src) → o + n ≤ Z.of_nat (length dst) →
  bcopy src dst o n = Ok (take (Z.to_nat o) dst ++ take (Z.to_nat n) src ++ drop (Z.to_nat (o + n)) dst).
Proof.
  intros Ho Hn Hs Hd. unfold bcopy. do 2 (rewrite (proj2 (Z.leb_le _ _)) by lia). simpl. f_equal.
  rewrite inserts_split by (rewrite length_take; lia). rewrite length_take, Nat.min_l by lia.
  do 3 f_equal. lia.
Qed.

Lemma bcopy_start src dst n :
  0 ≤ n → n ≤ Z.of_nat (length src) → n ≤ Z.of_nat (length dst) →
  bcopy src dst 0 n = Ok (take (Z.to_nat n) src ++ drop (Z.to_nat n) dst).
Proof. intros. by rewrite bcopy_ok by lia. Qed.

End Bytes.
