(* ===== verification/Mips.v ===== *)
(** * The instruction simulator: machine/mipssim.h, machine/mipssim.cc

    Decoding, multiplication, and [Machine::OneInstruction].  The big switch of
    [OneInstruction] is cut into seven consecutive parts, each a function of the
    opcode that answers [None] for an opcode of another part; [execute] tries
    them in the order of the source, and its last answer is the [default] of
    the switch, [ASSERT(FALSE)].

    A register is an [unsigned int], and so are the fields of [Instruction];
    [sum], [diff], [tmp], [value], [pcAfter] and the delayed load are [int]:
    the conversions [u32] and [s32] are written where C++ makes them. *)

From stdpp Require Import base list gmap strings.
From S2P Require Import Prelude Machine.

Module Mips.
Import Machine.

(** ** Opcodes and tables (mipssim.h) *)

Inductive OpCode :=
  | OP_ADD | OP_ADDI | OP_ADDIU | OP_ADDU | OP_AND | OP_ANDI | OP_BEQ
  | OP_BGEZ | OP_BGEZAL | OP_BGTZ | OP_BLEZ | OP_BLTZ | OP_BLTZAL | OP_BNE
  | OP_DIV | OP_DIVU | OP_J | OP_JAL | OP_JALR | OP_JR | OP_LB | OP_LBU
  | OP_LH | OP_LHU | OP_LUI | OP_LW | OP_LWL | OP_LWR
  | OP_MFHI | OP_MFLO | OP_MTHI | OP_MTLO | OP_MULT | OP_MULTU | OP_NOR
  | OP_OR | OP_ORI | OP_RFE | OP_SB | OP_SH | OP_SLL | OP_SLLV | OP_SLT
  | OP_SLTI | OP_SLTIU | OP_SLTU | OP_SRA | OP_SRAV | OP_SRL | OP_SRLV
  | OP_SUB | OP_SUBU | OP_SW | OP_SWL | OP_SWR | OP_XOR | OP_XORI
  | OP_SYSCALL | OP_UNIMP | OP_RES
  | SPECIAL | BCOND.

#[global] Instance OpCode_eq_dec : EqDecision OpCode.
Proof. solve_decision. Defined.

Inductive format := IFMT | JFMT | RFMT.

Definition opTable : list (OpCode * format) := [
  (SPECIAL, RFMT); (BCOND, IFMT); (OP_J, JFMT); (OP_JAL, JFMT);
  (OP_BEQ, IFMT); (OP_BNE, IFMT); (OP_BLEZ, IFMT); (OP_BGTZ, IFMT);
  (OP_ADDI, IFMT); (OP_ADDIU, IFMT); (OP_SLTI, IFMT); (OP_SLTIU, IFMT);
  (OP_ANDI, IFMT); (OP_ORI, IFMT); (OP_XORI, IFMT); (OP_LUI, IFMT);
  (OP_UNIMP, IFMT); (OP_UNIMP, IFMT); (OP_UNIMP, IFMT); (OP_UNIMP, IFMT);
  (OP_RES, IFMT); (OP_RES, IFMT); (OP_RES, IFMT); (OP_RES, IFMT);
  (OP_RES, IFMT); (OP_RES, IFMT); (OP_RES, IFMT); (OP_RES, IFMT);
  (OP_RES, IFMT); (OP_RES, IFMT); (OP_RES, IFMT); (OP_RES, IFMT);
  (OP_LB, IFMT); (OP_LH, IFMT); (OP_LWL, IFMT); (OP_LW, IFMT);
  (OP_LBU, IFMT); (OP_LHU, IFMT); (OP_LWR, IFMT); (OP_RES, IFMT);
  (OP_SB, IFMT); (OP_SH, IFMT); (OP_SWL, IFMT); (OP_SW, IFMT);
  (OP_RES, IFMT); (OP_RES, IFMT); (OP_SWR, IFMT); (OP_RES, IFMT);
  (OP_UNIMP, IFMT); (OP_UNIMP, IFMT); (OP_UNIMP, IFMT); (OP_UNIMP, IFMT);
  (OP_RES, IFMT); (OP_RES, IFMT); (OP_RES, IFMT); (OP_RES, IFMT);
  (OP_UNIMP, IFMT); (OP_UNIMP, IFMT); (OP_UNIMP, IFMT); (OP_UNIMP, IFMT);
  (OP_RES, IFMT); (OP_RES, IFMT); (OP_RES, IFMT); (OP_RES, IFMT)].

Definition specialTable : list OpCode := [
  OP_SLL; OP_RES; OP_SRL; OP_SRA; OP_SLLV; OP_RES; OP_SRLV; OP_SRAV;
  OP_JR; OP_JALR; OP_RES; OP_RES; OP_SYSCALL; OP_UNIMP; OP_RES; OP_RES;
  OP_MFHI; OP_MTHI; OP_MFLO; OP_MTLO; OP_RES; OP_RES; OP_RES; OP_RES;
  OP_MULT; OP_MULTU; OP_DIV; OP_DIVU; OP_RES; OP_RES; OP_RES; OP_RES;
  OP_ADD; OP_ADDU; OP_SUB; OP_SUBU; OP_AND; OP_OR; OP_XOR; OP_NOR;
  OP_RES; OP_RES; OP_SLT; OP_SLTU; OP_RES; OP_RES; OP_RES; OP_RES;
  OP_RES; OP_RES; OP_RES; OP_RES; OP_RES; OP_RES; OP_RES; OP_RES;
  OP_RES; OP_RES; OP_RES; OP_RES; OP_RES; OP_RES; OP_RES; OP_RES].

Definition IndexToAddr (x : Z) : Z := u32 (Z.shiftl x 2).
Definition SIGN_BIT : Z := 0x80000000.
Definition R31 : Z := 31.

(** [class Instruction] (machine.h). *)
Record Instruction := mkInstruction {
  value : Z;
  opCode : OpCode;
  rs : Z;
  rt : Z;
  rd : Z;
  extra : Z;
}.

Definition Decode (value : Z) : result Instruction :=
  let rs := Z.land (Z.shiftr value 21) 0x1f in
  let rt := Z.land (Z.shiftr value 16) 0x1f in
  let rd := Z.land (Z.shiftr value 11) 0x1f in
  '(op, fmt) ← aget opTable (Z.land (Z.shiftr value 26) 0x3f);
  let extra :=
    match fmt with
    | IFMT =>
      let extra := Z.land value 0xffff in
      if negb (Z.land extra 0x8000 =? 0) then Z.lor extra 0xffff0000 else extra
    | RFMT => Z.land (Z.shiftr value 6) 0x1f
    | JFMT => Z.land value 0x3ffffff
    end in
  op ← match op with
       | SPECIAL => aget specialTable (Z.land value 0x3f)
       | BCOND =>
         let i := Z.land value 0x1f0000 in
         Ok (if i =? 0 then OP_BLTZ
             else if i =? 0x10000 then OP_BGEZ
             else if i =? 0x100000 then OP_BLTZAL
             else if i =? 0x110000 then OP_BGEZAL
             else OP_UNIMP)
       | op => Ok op
       end;
  Ok (mkInstruction value op rs rt rd extra).

(** ** The instruction trace (debug flag 'm') *)

(** The numbers of the opcodes, which index [opStrings]. *)
Definition opnum (op : OpCode) : Z :=
  match op with
  | OP_ADD => 1
  | OP_ADDI => 2
  | OP_ADDIU => 3
  | OP_ADDU => 4
  | OP_AND => 5
  | OP_ANDI => 6
  | OP_BEQ => 7
  | OP_BGEZ => 8
  | OP_BGEZAL => 9
  | OP_BGTZ => 10
  | OP_BLEZ => 11
  | OP_BLTZ => 12
  | OP_BLTZAL => 13
  | OP_BNE => 14
  | OP_DIV => 16
  | OP_DIVU => 17
  | OP_J => 18
  | OP_JAL => 19
  | OP_JALR => 20
  | OP_JR => 21
  | OP_LB => 22
  | OP_LBU => 23
  | OP_LH => 24
  | OP_LHU => 25
  | OP_LUI => 26
  | OP_LW => 27
  | OP_LWL => 28
  | OP_LWR => 29
  | OP_MFHI => 31
  | OP_MFLO => 32
  | OP_MTHI => 34
  | OP_MTLO => 35
  | OP_MULT => 36
  | OP_MULTU => 37
  | OP_NOR => 38
  | OP_OR => 39
  | OP_ORI => 40
  | OP_RFE => 41
  | OP_SB => 42
  | OP_SH => 43
  | OP_SLL => 44
  | OP_SLLV => 45
  | OP_SLT => 46
  | OP_SLTI => 47
  | OP_SLTIU => 48
  | OP_SLTU => 49
  | OP_SRA => 50
  | OP_SRAV => 51
  | OP_SRL => 52
  | OP_SRLV => 53
  | OP_SUB => 54
  | OP_SUBU => 55
  | OP_SW => 56
  | OP_SWL => 57
  | OP_SWR => 58
  | OP_XOR => 59
  | OP_XORI => 60
  | OP_SYSCALL => 61
  | OP_UNIMP => 62
  | OP_RES => 63
  | SPECIAL => 100
  | BCOND => 101
  end.
Definition MaxOpcode : Z := 63.

Inductive RegType := NONE | RS | RT | RD | EXTRA.

Definition opStrings : list (string * (RegType * RegType * RegType)) := [
  ("Shouldn't happen", (NONE, NONE, NONE));
  ("ADD r%d,r%d,r%d", (RD, RS, RT));
  ("ADDI r%d,r%d,%d", (RT, RS, EXTRA));
  ("ADDIU r%d,r%d,%d", (RT, RS, EXTRA));
  ("ADDU r%d,r%d,r%d", (RD, RS, RT));
  ("AND r%d,r%d,r%d", (RD, RS, RT));
  ("ANDI r%d,r%d,%d", (RT, RS, EXTRA));
  ("BEQ r%d,r%d,%d", (RS, RT, EXTRA));
  ("BGEZ r%d,%d", (RS, EXTRA, NONE));
  ("BGEZAL r%d,%d", (RS, EXTRA, NONE));
  ("BGTZ r%d,%d", (RS, EXTRA, NONE));
  ("BLEZ r%d,%d", (RS, EXTRA, NONE));
  ("BLTZ r%d,%d", (RS, EXTRA, NONE));
  ("BLTZAL r%d,%d", (RS, EXTRA, NONE));
  ("BNE r%d,r%d,%d", (RS, RT, EXTRA));
  ("Shouldn't happen", (NONE, NONE, NONE));
  ("DIV r%d,r%d", (RS, RT, NONE));
  ("DIVU r%d,r%d", (RS, RT, NONE));
  ("J %d", (EXTRA, NONE, NONE));
  ("JAL %d", (EXTRA, NONE, NONE));
  ("JALR r%d,r%d", (RD, RS, NONE));
  ("JR r%d,r%d", (RD, RS, NONE));
  ("LB r%d,%d(r%d)", (RT, EXTRA, RS));
  ("LBU r%d,%d(r%d)", (RT, EXTRA, RS));
  ("LH r%d,%d(r%d)", (RT, EXTRA, RS));
  ("LHU r%d,%d(r%d)", (RT, EXTRA, RS));
  ("LUI r%d,%d", (RT, EXTRA, NONE));
  ("LW r%d,%d(r%d)", (RT, EXTRA, RS));
  ("LWL r%d,%d(r%d)", (RT, EXTRA, RS));
  ("LWR r%d,%d(r%d)", (RT, EXTRA, RS));
  ("Shouldn't happen", (NONE, NONE, NONE));
  ("MFHI r%d", (RD, NONE, NONE));
  ("MFLO r%d", (RD, NONE, NONE));
  ("Shouldn't happen", (NONE, NONE, NONE));
  ("MTHI r%d", (RS, NONE, NONE));
  ("MTLO r%d", (RS, NONE, NONE));
  ("MULT r%d,r%d", (RS, RT, NONE));
  ("MULTU r%d,r%d", (RS, RT, NONE));
  ("NOR r%d,r%d,r%d", (RD, RS, RT));
  ("OR r%d,r%d,r%d", (RD, RS, RT));
  ("ORI r%d,r%d,%d", (RT, RS, EXTRA));
  ("RFE", (NONE, NONE, NONE));
  ("SB r%d,%d(r%d)", (RT, EXTRA, RS));
  ("SH r%d,%d(r%d)", (RT, EXTRA, RS));
  ("SLL r%d,r%d,%d", (RD, RT, EXTRA));
  ("SLLV r%d,r%d,r%d", (RD, RT, RS));
  ("SLT r%d,r%d,r%d", (RD, RS, RT));
  ("SLTI r%d,r%d,%d", (RT, RS, EXTRA));
  ("SLTIU r%d,r%d,%d", (RT, RS, EXTRA));
  ("SLTU r%d,r%d,r%d", (RD, RS, RT));
  ("SRA r%d,r%d,%d", (RD, RT, EXTRA));
  ("SRAV r%d,r%d,r%d", (RD, RT, RS));
  ("SRL r%d,r%d,%d", (RD, RT, EXTRA));
  ("SRLV r%d,r%d,r%d", (RD, RT, RS));
  ("SUB r%d,r%d,r%d", (RD, RS, RT));
  ("SUBU r%d,r%d,r%d", (RD, RS, RT));
  ("SW r%d,%d(r%d)", (RT, EXTRA, RS));
  ("SWL r%d,%d(r%d)", (RT, EXTRA, RS));
  ("SWR r%d,%d(r%d)", (RT, EXTRA, RS));
  ("XOR r%d,r%d,r%d", (RD, RS, RT));
  ("XORI r%d,r%d,%d", (RT, RS, EXTRA));
  ("SYSCALL", (NONE, NONE, NONE));
  ("Unimplemented", (NONE, NONE, NONE));
  ("Reserved", (NONE, NONE, NONE))].

Definition TypeToReg (r : RegType) (instr : Instruction) : Z :=
  match r with
  | RS => s32 (rs instr)
  | RT => s32 (rt instr)
  | RD => s32 (rd instr)
  | EXTRA => s32 (extra instr)
  | NONE => -1
  end.

(** What [OneInstruction] prints for an instruction: the format and its three
    arguments. *)
Definition trace (instr : Instruction) : result (string * list Z) :=
  _ ← ASSERT (opnum (opCode instr) <=? MaxOpcode);
  '(str, (a0, a1, a2)) ← aget opStrings (opnum (opCode instr));
  Ok (str, [TypeToReg a0 instr; TypeToReg a1 instr; TypeToReg a2 instr]).

(** ** Multiplication

    [a] is an [int], so [a >>= 1] keeps its sign; [-a] of the least [int] is
    taken to wrap around. *)
Record mult_state := mkMult { mu_a : Z; bLo : Z; bHi : Z; lo : Z; hi : Z }.

Fixpoint Mult_loop (n : nat) (s : mult_state) : mult_state :=
  match n with
  | O => s
  | S n =>
    let '(mkMult a bLo bHi lo hi) := s in
    let bit := negb (Z.land a 1 =? 0) in
    let lo' := if bit then u32 (lo + bLo) else lo in
    let hi' := if bit then
                 let hi := if lo' <? bLo then u32 (hi + 1) else hi in u32 (hi + bHi)
               else hi in
    if bit && (Z.land (u32 a) 0xfffffffe =? 0) then mkMult a bLo bHi lo' hi'
    else
      let bHi := u32 (Z.shiftl bHi 1) in
      let bHi := if negb (Z.land bLo 0x80000000 =? 0) then Z.lor bHi 1 else bHi in
      Mult_loop n (mkMult (Z.shiftr a 1) (u32 (Z.shiftl bLo 1)) bHi lo' hi')
  end.

(** The pair stored through [hiPtr] and [loPtr]. *)
Definition Mult (a b : Z) (signedArith : bool) : Z * Z :=
  if (a =? 0) || (b =? 0) then (0, 0)
  else
    let negative := false in
    let '(negative, a, b) :=
      if signedArith then
        let '(negative, a) := if a <? 0 then (negb negative, s32 (- a)) else (negative, a) in
        let '(negative, b) := if b <? 0 then (negb negative, s32 (- b)) else (negative, b) in
        (negative, a, b)
      else (negative, a, b) in
    let s := Mult_loop 32 (mkMult a (u32 b) 0 0 0) in
    let '(hi, lo) := (hi s, lo s) in
    let '(hi, lo) :=
      if (negative : bool) then
        let hi := u32 (Z.lnot hi) in
        let lo := u32 (Z.lnot lo) in
        let lo := u32 (lo + 1) in
        (if lo =? 0 then u32 (hi + 1) else hi, lo)
      else (hi, lo) in
    (hi, lo).

(** ** [Machine::OneInstruction] *)

(** How the switch is left: by [break], with the delayed load and the program
    counter to install, or by [return] after an exception. *)
Inductive outcome :=
  | Break (m : Machine) (nextLoadReg nextLoadValue pcAfter : Z)
  | Return (which : ExceptionType) (m : Machine).

Definition raise (m : Machine) (which : ExceptionType) (badVAddr : Z) : result outcome :=
  m ← RaiseException m badVAddr; Ok (Return which m).

(** [if (condition) pcAfter = registers[NextPCReg] + IndexToAddr(instr->extra)] *)
Definition branch_if (condition : bool) (m : Machine) (instr : Instruction) (pcAfter : Z)
    : result outcome :=
  if condition then
    n ← rget m NextPCReg; Ok (Break m 0 0 (s32 (n + IndexToAddr (extra instr))))
  else Ok (Break m 0 0 pcAfter).

(** OP_ADD to OP_BNE. *)
Definition exec_add_bne (m : Machine) (instr : Instruction) (pcAfter : Z)
    : option (result outcome) :=
  let next m := Ok (Break m 0 0 pcAfter) in
  match opCode instr with
  | OP_ADD => Some (
      a ← rget m (rs instr); b ← rget m (rt instr);
      let sum := s32 (a + b) in
      if (Z.land (Z.lxor a b) SIGN_BIT =? 0) && negb (Z.land (Z.lxor a (u32 sum)) SIGN_BIT =? 0)
      then raise m OverflowException 0
      else m ← rset m (rd instr) sum; next m)
  | OP_ADDI => Some (
      a ← rget m (rs instr);
      let sum := s32 (a + extra instr) in
      if (Z.land (Z.lxor a (extra instr)) SIGN_BIT =? 0)
         && negb (Z.land (Z.lxor (extra instr) (u32 sum)) SIGN_BIT =? 0)
      then raise m OverflowException 0
      else m ← rset m (rt instr) sum; next m)
  | OP_ADDIU => Some (
      a ← rget m (rs instr); m ← rset m (rt instr) (a + extra instr); next m)
  | OP_ADDU => Some (
      a ← rget m (rs instr); b ← rget m (rt instr); m ← rset m (rd instr) (a + b); next m)
  | OP_AND => Some (
      a ← rget m (rs instr); b ← rget m (rt instr); m ← rset m (rd instr) (Z.land a b); next m)
  | OP_ANDI => Some (
      a ← rget m (rs instr);
      m ← rset m (rt instr) (Z.land a (Z.land (extra instr) 0xffff)); next m)
  | OP_BEQ => Some (
      a ← rget m (rs instr); b ← rget m (rt instr); branch_if (a =? b) m instr pcAfter)
  | OP_BGEZAL => Some (
      n ← rget m NextPCReg; m ← rset m R31 (n + 4);
      a ← rget m (rs instr); branch_if (Z.land a SIGN_BIT =? 0) m instr pcAfter)
  | OP_BGEZ => Some (
      a ← rget m (rs instr); branch_if (Z.land a SIGN_BIT =? 0) m instr pcAfter)
  | OP_BGTZ => Some (
      a ← rget m (rs instr); branch_if (a >? 0) m instr pcAfter)
  | OP_BLEZ => Some (
      a ← rget m (rs instr); branch_if (a <=? 0) m instr pcAfter)
  | OP_BLTZAL => Some (
      n ← rget m NextPCReg; m ← rset m R31 (n + 4);
      a ← rget m (rs instr); branch_if (negb (Z.land a SIGN_BIT =? 0)) m instr pcAfter)
  | OP_BLTZ => Some (
      a ← rget m (rs instr); branch_if (negb (Z.land a SIGN_BIT =? 0)) m instr pcAfter)
  | OP_BNE => Some (
      a ← rget m (rs instr); b ← rget m (rt instr);
      branch_if (negb (a =? b)) m instr pcAfter)
  | _ => None
  end.

(** OP_DIV to OP_JR. *)
Definition exec_div_jr (m : Machine) (instr : Instruction) (pcAfter : Z)
    : option (result outcome) :=
  let next m := Ok (Break m 0 0 pcAfter) in
  let jump pcAfter m :=
    Ok (Break m 0 0 (s32 (Z.lor (Z.land (u32 pcAfter) 0xf0000000) (IndexToAddr (extra instr))))) in
  match opCode instr with
  | OP_DIV => Some (
      b ← rget m (rt instr);
      if b =? 0 then m ← rset m LoReg 0; m ← rset m HiReg 0; next m
      else
        a ← rget m (rs instr); b ← rget m (rt instr); m ← rset m LoReg (a / b);
        a ← rget m (rs instr); b ← rget m (rt instr); m ← rset m HiReg (a mod b); next m)
  | OP_DIVU => Some (
      a ← rget m (rs instr); b ← rget m (rt instr);
      if b =? 0 then m ← rset m LoReg 0; m ← rset m HiReg 0; next m
      else
        let tmp := s32 (a / b) in m ← rset m LoReg tmp;
        let tmp := s32 (a mod b) in m ← rset m HiReg tmp; next m)
  | OP_JAL => Some (
      n ← rget m NextPCReg; m ← rset m R31 (n + 4); jump pcAfter m)
  | OP_J => Some (jump pcAfter m)
  | OP_JALR => Some (
      n ← rget m NextPCReg; m ← rset m (rd instr) (n + 4);
      a ← rget m (rs instr); Ok (Break m 0 0 (s32 a)))
  | OP_JR => Some (a ← rget m (rs instr); Ok (Break m 0 0 (s32 a)))
  | _ => None
  end.

Section execute.
Context (HOST_IS_BIG_ENDIAN : bool).
Abbreviation ReadMem := (ReadMem HOST_IS_BIG_ENDIAN).
Abbreviation WriteMem := (WriteMem HOST_IS_BIG_ENDIAN).

(** [if (!machine->ReadMem(addr, size, &value)) return;] and then the rest. *)
Definition load (m : Machine) (addr size : Z) (k : Z → Machine → result outcome)
    : result outcome :=
  r ← ReadMem m addr size;
  match r with Done value m => k value m | Raised which m => Ok (Return which m) end.

Definition store (m : Machine) (addr size value : Z) (pcAfter : Z) : result outcome :=
  r ← WriteMem m addr size value;
  match r with Done _ m => Ok (Break m 0 0 pcAfter) | Raised which m => Ok (Return which m) end.

(** OP_LB to OP_LW. *)
Definition exec_lb_lw (m : Machine) (instr : Instruction) (pcAfter : Z)
    : option (result outcome) :=
  let is_op op := bool_decide (opCode instr = op) in
  match opCode instr with
  | OP_LB | OP_LBU => Some (
      a ← rget m (rs instr);
      let tmp := s32 (a + extra instr) in
      load m tmp 1 (λ value m,
        let value :=
          if negb (Z.land value 0x80 =? 0) && is_op OP_LB
          then s32 (Z.lor (u32 value) 0xffffff00) else Z.land value 0xff in
        Ok (Break m (rt instr) value pcAfter)))
  | OP_LH | OP_LHU => Some (
      a ← rget m (rs instr);
      let tmp := s32 (a + extra instr) in
      if negb (Z.land tmp 0x1 =? 0) then raise m AddressErrorException tmp
      else
        load m tmp 2 (λ value m,
          let value :=
            if negb (Z.land value 0x8000 =? 0) && is_op OP_LH
            then s32 (Z.lor (u32 value) 0xffff0000) else Z.land value 0xffff in
          Ok (Break m (rt instr) value pcAfter)))
  | OP_LUI => Some (
      m ← rset m (rt instr) (Z.shiftl (extra instr) 16); Ok (Break m 0 0 pcAfter))
  | OP_LW => Some (
      a ← rget m (rs instr);
      let tmp := s32 (a + extra instr) in
      if negb (Z.land tmp 0x3 =? 0) then raise m AddressErrorException tmp
      else load m tmp 4 (λ value m, Ok (Break m (rt instr) value pcAfter)))
  | _ => None
  end.

(** The register as a pending load leaves it, for LWL and LWR. *)
Definition pending_value (m : Machine) (instr : Instruction) : result Z :=
  lr ← rget m LoadReg;
  if lr =? rt instr then (v ← rget m LoadValueReg; Ok (s32 v))
  else (v ← rget m (rt instr); Ok (s32 v)).

(** OP_LWL and OP_LWR. *)
Definition exec_lwl_lwr (m : Machine) (instr : Instruction) (pcAfter : Z)
    : option (result outcome) :=
  match opCode instr with
  | OP_LWL => Some (
      a ← rget m (rs instr);
      let tmp := s32 (a + extra instr) in
      _ ← ASSERT (Z.land tmp 0x3 =? 0);
      load m tmp 4 (λ value m,
        nextLoadValue ← pending_value m instr;
        let nextLoadValue :=
          match Z.land tmp 0x3 with
          | 0 => value
          | 1 => Z.lor (Z.land nextLoadValue 0xff) (s32 (Z.shiftl value 8))
          | 2 => Z.lor (Z.land nextLoadValue 0xffff) (s32 (Z.shiftl value 16))
          | 3 => Z.lor (Z.land nextLoadValue 0xffffff) (s32 (Z.shiftl value 24))
          | _ => nextLoadValue
          end in
        Ok (Break m (rt instr) nextLoadValue pcAfter)))
  | OP_LWR => Some (
      a ← rget m (rs instr);
      let tmp := s32 (a + extra instr) in
      _ ← ASSERT (Z.land tmp 0x3 =? 0);
      load m tmp 4 (λ value m,
        nextLoadValue ← pending_value m instr;
        let nextLoadValue :=
          match Z.land tmp 0x3 with
          | 0 => s32 (Z.lor (Z.land (u32 nextLoadValue) 0xffffff00)
                        (Z.land (Z.shiftr value 24) 0xff))
          | 1 => s32 (Z.lor (Z.land (u32 nextLoadValue) 0xffff0000)
                        (Z.land (Z.shiftr value 16) 0xffff))
          | 2 => s32 (Z.lor (Z.land (u32 nextLoadValue) 0xff000000)
                        (Z.land (Z.shiftr value 8) 0xffffff))
          | 3 => value
          | _ => nextLoadValue
          end in
        Ok (Break m (rt instr) nextLoadValue pcAfter)))
  | _ => None
  end.

(** OP_MFHI to OP_SLTU. *)
Definition exec_mfhi_sltu (m : Machine) (instr : Instruction) (pcAfter : Z)
    : option (result outcome) :=
  let next m := Ok (Break m 0 0 pcAfter) in
  let multiply signed :=
    a ← rget m (rs instr); b ← rget m (rt instr);
    let '(hi, lo) := Mult (s32 a) (s32 b) signed in
    m ← rset m HiReg hi; m ← rset m LoReg lo; next m in
  match opCode instr with
  | OP_MFHI => Some (v ← rget m HiReg; m ← rset m (rd instr) v; next m)
  | OP_MFLO => Some (v ← rget m LoReg; m ← rset m (rd instr) v; next m)
  | OP_MTHI => Some (v ← rget m (rs instr); m ← rset m HiReg v; next m)
  | OP_MTLO => Some (v ← rget m (rs instr); m ← rset m LoReg v; next m)
  | OP_MULT => Some (multiply true)
  | OP_MULTU => Some (multiply false)
  | OP_NOR => Some (
      a ← rget m (rs instr); b ← rget m (rt instr);
      m ← rset m (rd instr) (Z.lnot (Z.lor a b)); next m)
  | OP_OR => Some (
      a ← rget m (rs instr); b ← rget m (rs instr); m ← rset m (rd instr) (Z.lor a b); next m)
  | OP_ORI => Some (
      a ← rget m (rs instr);
      m ← rset m (rt instr) (Z.lor a (Z.land (extra instr) 0xffff)); next m)
  | OP_SB => Some (
      a ← rget m (rs instr); v ← rget m (rt instr);
      store m (s32 (a + extra instr)) 1 (s32 v) pcAfter)
  | OP_SH => Some (
      a ← rget m (rs instr); v ← rget m (rt instr);
      store m (s32 (a + extra instr)) 2 (s32 v) pcAfter)
  | OP_SLL => Some (
      b ← rget m (rt instr); m ← rset m (rd instr) (Z.shiftl b (extra instr)); next m)
  | OP_SLLV => Some (
      b ← rget m (rt instr); a ← rget m (rs instr);
      m ← rset m (rd instr) (Z.shiftl b (Z.land a 0x1f)); next m)
  | OP_SLT => Some (
      a ← rget m (rs instr); b ← rget m (rt instr);
      m ← rset m (rd instr) (if a <? b then 1 else 0); next m)
  | OP_SLTI => Some (
      a ← rget m (rs instr);
      m ← rset m (rt instr) (if a <? extra instr then 1 else 0); next m)
  | OP_SLTIU => Some (
      a ← rget m (rs instr);
      m ← rset m (rt instr) (if a <? extra instr then 1 else 0); next m)
  | OP_SLTU => Some (
      a ← rget m (rs instr); b ← rget m (rt instr);
      m ← rset m (rd instr) (if a <? b then 1 else 0); next m)
  | _ => None
  end.

(** OP_SRA to OP_SW. *)
Definition exec_sra_sw (m : Machine) (instr : Instruction) (pcAfter : Z)
    : option (result outcome) :=
  let next m := Ok (Break m 0 0 pcAfter) in
  match opCode instr with
  | OP_SRA => Some (
      b ← rget m (rt instr); m ← rset m (rd instr) (Z.shiftr b (extra instr)); next m)
  | OP_SRAV => Some (
      b ← rget m (rt instr); a ← rget m (rs instr);
      m ← rset m (rd instr) (Z.shiftr b (Z.land a 0x1f)); next m)
  | OP_SRL => Some (
      b ← rget m (rt instr);
      let tmp := s32 b in
      let tmp := Z.shiftr tmp (extra instr) in
      m ← rset m (rd instr) tmp; next m)
  | OP_SRLV => Some (
      b ← rget m (rt instr);
      let tmp := s32 b in
      a ← rget m (rs instr);
      let tmp := Z.shiftr tmp (Z.land a 0x1f) in
      m ← rset m (rd instr) tmp; next m)
  | OP_SUB => Some (
      a ← rget m (rs instr); b ← rget m (rt instr);
      let diff := s32 (a - b) in
      if negb (Z.land (Z.lxor a b) SIGN_BIT =? 0) && negb (Z.land (Z.lxor a (u32 diff)) SIGN_BIT =? 0)
      then raise m OverflowException 0
      else m ← rset m (rd instr) diff; next m)
  | OP_SUBU => Some (
      a ← rget m (rs instr); b ← rget m (rt instr); m ← rset m (rd instr) (a - b); next m)
  | OP_SW => Some (
      a ← rget m (rs instr); v ← rget m (rt instr);
      store m (s32 (a + extra instr)) 4 (s32 v) pcAfter)
  | _ => None
  end.

(** OP_SWL to OP_UNIMP. *)
Definition exec_swl_unimp (m : Machine) (instr : Instruction) (pcAfter : Z)
    : option (result outcome) :=
  let next m := Ok (Break m 0 0 pcAfter) in
  match opCode instr with
  | OP_SWL => Some (
      a ← rget m (rs instr);
      let tmp := s32 (a + extra instr) in
      _ ← ASSERT (Z.land tmp 0x3 =? 0);
      load m (Z.land tmp (Z.lnot 0x3)) 4 (λ value m,
        b ← rget m (rt instr);
        let value :=
          match Z.land tmp 0x3 with
          | 0 => s32 b
          | 1 => s32 (Z.lor (Z.land (u32 value) 0xff000000) (Z.land (Z.shiftr b 8) 0xffffff))
          | 2 => s32 (Z.lor (Z.land (u32 value) 0xffff0000) (Z.land (Z.shiftr b 16) 0xffff))
          | 3 => s32 (Z.lor (Z.land (u32 value) 0xffffff00) (Z.land (Z.shiftr b 24) 0xff))
          | _ => value
          end in
        store m (Z.land tmp (Z.lnot 0x3)) 4 value pcAfter))
  | OP_SWR => Some (
      a ← rget m (rs instr);
      let tmp := s32 (a + extra instr) in
      _ ← ASSERT (Z.land tmp 0x3 =? 0);
      load m (Z.land tmp (Z.lnot 0x3)) 4 (λ value m,
        b ← rget m (rt instr);
        let value :=
          match Z.land tmp 0x3 with
          | 0 => s32 (Z.lor (Z.land (u32 value) 0xffffff) (u32 (Z.shiftl b 24)))
          | 1 => s32 (Z.lor (Z.land (u32 value) 0xffff) (u32 (Z.shiftl b 16)))
          | 2 => s32 (Z.lor (Z.land (u32 value) 0xff) (u32 (Z.shiftl b 8)))
          | 3 => s32 b
          | _ => value
          end in
        store m (Z.land tmp (Z.lnot 0x3)) 4 value pcAfter))
  | OP_SYSCALL => Some (raise m SyscallException 0)
  | OP_XOR => Some (
      a ← rget m (rs instr); b ← rget m (rt instr); m ← rset m (rd instr) (Z.lxor a b); next m)
  | OP_XORI => Some (
      a ← rget m (rs instr);
      m ← rset m (rt instr) (Z.lxor a (Z.land (extra instr) 0xffff)); next m)
  | OP_RES | OP_UNIMP => Some (raise m IllegalInstrException 0)
  | _ => None
  end.

(** The switch: its parts in order, and [default: ASSERT(FALSE)]. *)
Definition execute (m : Machine) (instr : Instruction) (pcAfter : Z) : result outcome :=
  let parts := [exec_add_bne m instr pcAfter; exec_div_jr m instr pcAfter;
                exec_lb_lw m instr pcAfter; exec_lwl_lwr m instr pcAfter;
                exec_mfhi_sltu m instr pcAfter; exec_sra_sw m instr pcAfter;
                exec_swl_unimp m instr pcAfter] in
  match list_find is_Some parts with
  | Some (_, Some r) => r
  | _ => Err AssertionFailed
  end.

(** The end of [OneInstruction]. *)
Definition advance (m : Machine) (nextLoadReg nextLoadValue pcAfter : Z) : result Machine :=
  m ← DelayedLoad m nextLoadReg nextLoadValue;
  pc ← rget m PCReg;
  m ← rset m PrevPCReg pc;
  npc ← rget m NextPCReg;
  m ← rset m PCReg npc;
  rset m NextPCReg pcAfter.

(** One call of [OneInstruction], up to the exception it may raise. *)
Definition OneInstruction (m : Machine) : result (access unit) :=
  pc ← rget m PCReg;
  r ← ReadMem m (s32 pc) 4;
  match r with
  | Raised which m => Ok (Raised which m)
  | Done raw m =>
    instr ← Decode (u32 raw);
    npc ← rget m NextPCReg;
    let pcAfter := s32 (npc + 4) in
    o ← execute m instr pcAfter;
    match o with
    | Return which m => Ok (Raised which m)
    | Break m nextLoadReg nextLoadValue pcAfter =>
      m ← advance m nextLoadReg nextLoadValue pcAfter; Ok (Done tt m)
    end
  end.
End execute.

(** ** Lemmas: decoding *)

Lemma field_range v k n : 0 ≤ k → 0 ≤ n → 0 ≤ Z.land (Z.shiftr v k) (Z.ones n) < 2 ^ n.
Proof. intros. rewrite Z.land_ones by lia. apply Z.mod_pos_bound. lia. Qed.

(** What the switch can be given: a field is a register number, and the opcode
    is one with a case. *)
Definition wf_instr (i : Instruction) : Prop :=
  0 ≤ rs i < 32 ∧ 0 ≤ rt i < 32 ∧ 0 ≤ rd i < 32 ∧ is_u32 (extra i) ∧
  opCode i ≠ SPECIAL ∧ opCode i ≠ BCOND ∧ opCode i ≠ OP_RFE.

Lemma opTable_ok k : 0 ≤ k < 64 →
  ∃ op fmt, aget opTable k = Ok (op, fmt) ∧ op ≠ OP_RFE.
Proof.
  intros Hk. destruct (aget_ok opTable k) as ([op fmt] & Hl & Hg); [done|].
  exists op, fmt. split; [done|]. intros ->. clear Hg.
  assert (Forall (λ p, p.1 ≠ OP_RFE) opTable) as HF by (refine (bool_decide_unpack _ _); by vm_compute).
  by apply (Forall_lookup_1 _ _ _ _ HF Hl).
Qed.

Lemma specialTable_ok k : 0 ≤ k < 64 →
  ∃ op, aget specialTable k = Ok op ∧ op ≠ OP_RFE ∧ op ≠ SPECIAL ∧ op ≠ BCOND.
Proof.
  intros Hk. destruct (aget_ok specialTable k) as (op & Hl & Hg); [done|].
  exists op. split; [done|].
  assert (Forall (λ p, p ≠ OP_RFE ∧ p ≠ SPECIAL ∧ p ≠ BCOND) specialTable) as HF
    by (refine (bool_decide_unpack _ _); by vm_compute).
  by apply (Forall_lookup_1 _ _ _ _ HF Hl).
Qed.

Lemma Decode_ok v :
  is_u32 v → ∃ i, Decode v = Ok i ∧ wf_instr i ∧
    rs i = v / 2 ^ 21 mod 32 ∧ rt i = v / 2 ^ 16 mod 32 ∧ rd i = v / 2 ^ 11 mod 32.
Proof.
  intros Hv. unfold Decode.
  assert (∀ k, 0 ≤ k → 0 ≤ Z.land (Z.shiftr v k) 0x1f < 32) as Hf
    by (intros; by apply (field_range v k 5)).
  destruct (opTable_ok (Z.land (Z.shiftr v 26) 0x3f)) as (op & fmt & -> & Hr);
    [by apply (field_range v 26 6)|]. run_ok.
  set (ex := match fmt with IFMT => _ | JFMT => _ | RFMT => _ end).
  assert (is_u32 ex) as Hex.
  { subst ex. destruct fmt.
    - destruct (negb _); [apply is_u32_lor|]; try apply is_u32_land_r; unfold is_u32; lia.
    - apply is_u32_land_r. unfold is_u32; lia.
    - specialize (Hf 6). unfold is_u32. lia. }
  destruct (specialTable_ok (Z.land v 0x3f)) as (sop & Hsp & ? & ? & ?);
    [by apply (field_range v 0 6)|].
  assert (∀ k, 0 ≤ k → Z.land (Z.shiftr v k) 0x1f = v / 2 ^ k mod 32) as Hfield.
  { intros k Hk. change 0x1f with (Z.ones 5). by rewrite Z.land_ones, Z.shiftr_div_pow2 by lia. }
  assert (∀ o, o ≠ SPECIAL → o ≠ BCOND → o ≠ OP_RFE →
    wf_instr (mkInstruction v o (Z.land (Z.shiftr v 21) 0x1f) (Z.land (Z.shiftr v 16) 0x1f)
      (Z.land (Z.shiftr v 11) 0x1f) ex)) as Hwf.
  { intros. unfold wf_instr. simpl. split_and!; try apply Hf; done || lia. }
  destruct op; run_ok; rewrite ?Hsp; run_ok;
    (eexists; split; [done|split; [apply Hwf|simpl; rewrite !Hfield by lia; done]]);
    repeat case_match; done.
Qed.

(** Every instruction that [Decode] gives has an entry of its own to print. *)
Lemma trace_ok i :
  wf_instr i → ∃ str args, trace i = Ok (str, args) ∧ str ≠ "Shouldn't happen"%string.
Proof.
  intros (_ & _ & _ & _ & H1 & H2 & _). unfold trace.
  destruct (opCode i); try done; run_ok; eexists _, _; (split; [reflexivity|discriminate]).
Qed.

(** ** Lemmas: multiplication *)

Lemma only_bit_0 x : is_u32 x → x mod 2 = 1 → Z.land x 0xfffffffe = 0 → x = 1.
Proof.
  intros Hx Hodd H0. apply u32_bits_eq; [done|unfold is_u32; lia|]. intros i Hi.
  destruct (decide (i = 0)) as [->|Hne].
  - apply Z.testbit_true; [done|]. by rewrite Z.pow_0_r, Z.div_1_r.
  - rewrite Z.bits_above_log2 with (a := 1) by (simpl; lia).
    pose proof (Z.land_spec x 0xfffffffe i) as H. rewrite H0, Z.bits_0 in H.
    change 0xfffffffe with (Z.shiftl (Z.ones 31) 1) in H.
    rewrite Z.shiftl_spec, Z.testbit_ones_nonneg in H by lia.
    destruct (Z.ltb_spec (i - 1) 31); [|lia]. by rewrite andb_true_r in H.
Qed.

(** Shift-and-add: with [n] bits of [a] to go, the loop adds the product of
    those bits and the double word [bHi:bLo] to the double word [hi:lo]. *)
Lemma Mult_loop_ok n a bl bh l h :
  (n ≤ 32)%nat → is_u32 bl → is_u32 bh → is_u32 l → is_u32 h →
  (bh * 2 ^ 32 + bl) * 2 ^ Z.of_nat n < 2 ^ 64 →
  h * 2 ^ 32 + l + (a mod 2 ^ Z.of_nat n) * (bh * 2 ^ 32 + bl) < 2 ^ 64 →
  let s := Mult_loop n (mkMult a bl bh l h) in
  is_u32 (hi s) ∧ is_u32 (lo s) ∧
  hi s * 2 ^ 32 + lo s =
  h * 2 ^ 32 + l + (a mod 2 ^ Z.of_nat n) * (bh * 2 ^ 32 + bl).
Proof.
  revert a bl bh l h. induction n as [|n IH]; intros a bl bh l h Hn Hbl Hbh Hl Hh HB HP s.
  { subst s. cbn. rewrite Z.mod_1_r. split_and!; done || lia. }
  rewrite Nat2Z.inj_succ, Z.pow_succ_r in HB, HP |- * by lia.
  set (N := 2 ^ Z.of_nat n) in *. assert (0 < N) by (subst N; lia).
  assert (a mod (2 * N) = a mod 2 + 2 * (a / 2 mod N)) as Ha by (apply Z.rem_mul_r; lia).
  rewrite Ha in HP |- *. pose proof (Z.mod_pos_bound a 2). pose proof (Z.mod_pos_bound (a / 2) N).
  unfold is_u32 in *. set (B := bh * 2 ^ 32 + bl) in *.
  assert (0 ≤ B) by (subst B; lia).
  (* the addition of this round *)
  set (bit := negb (Z.land a 1 =? 0)) in *.
  assert (bit = (a mod 2 =? 1)) as Hbit.
  { subst bit. rewrite land_1. destruct (Z.eqb_spec (a mod 2) 0), (Z.eqb_spec (a mod 2) 1); lia || done. }
  set (l' := if bit then u32 (l + bl) else l).
  set (h' := if bit then let h := if l' <? bl then u32 (h + 1) else h in u32 (h + bh) else h).
  assert (is_u32 l' ∧ is_u32 h' ∧ h' * 2 ^ 32 + l' = h * 2 ^ 32 + l + (a mod 2) * B)
    as (Hl' & Hh' & Hadd).
  { subst l' h'. rewrite Hbit. destruct (Z.eqb_spec (a mod 2) 1) as [E|E].
    - split_and!; [apply u32_range..|]. rewrite E in *.
      assert (h * 2 ^ 32 + l + B < 2 ^ 64) by nia. subst B. unfold u32.
      destruct (Z.ltb_spec ((l + bl) mod 2 ^ 32) bl); Z.to_euclidean_division_equations; lia.
    - unfold is_u32. split_and!; lia. }
  assert (s = if bit && (Z.land (u32 a) 0xfffffffe =? 0) then mkMult a bl bh l' h' else
    Mult_loop n (mkMult (Z.shiftr a 1) (u32 (Z.shiftl bl 1))
      (if negb (Z.land bl 0x80000000 =? 0) then Z.lor (u32 (Z.shiftl bh 1)) 1
       else u32 (Z.shiftl bh 1)) l' h')) as Hs by done.
  clearbody s l' h' bit. destruct (bit && _) eqn:Hbrk.
  - (* the other bits of [a] are zero *)
    apply andb_true_iff in Hbrk as [-> Hz]. apply Z.eqb_eq in Hz. symmetry in Hbit.
    apply Z.eqb_eq in Hbit.
    assert (u32 a = 1) as Hu1.
    { apply only_bit_0; [apply u32_range| |done]. unfold u32. rewrite Z.mod_mod_divide; [done|].
      by exists (2 ^ 31). }
    assert (a / 2 mod N = 0) as Hrest.
    { assert (∃ q, 2 ^ 31 = q * N) as [q Hq].
      { exists (2 ^ (31 - Z.of_nat n)). subst N. rewrite <- Z.pow_add_r by lia. f_equal. lia. }
      assert (a / 2 mod 2 ^ 31 = 0) as Hd
        by (unfold u32 in Hu1; Z.to_euclidean_division_equations; lia).
      rewrite <- (Z.mod_mod_divide _ (2 ^ 31) N) by (by exists q). by rewrite Hd. }
    subst s. simpl. split_and!; [apply Hh'|apply Hh'|apply Hl'|apply Hl'|]. rewrite Hadd, Hrest. lia.
  - clear Hbrk. assert (2 * B < 2 ^ 64) by nia.
    assert (bh < 2 ^ 31) by (subst B; lia).
    set (bh' := if negb (Z.land bl 0x80000000 =? 0) then _ else _) in *.
    assert (is_u32 bh' ∧ bh' * 2 ^ 32 + u32 (Z.shiftl bl 1) = 2 * B) as [Hbh' HB'].
    { subst bh'. rewrite sign_bit_clear by done. rewrite !Z.shiftl_mul_pow2 by lia.
      change (2 ^ 1) with 2. rewrite (Z.mul_comm bh), (u32_id (2 * bh)) by (unfold is_u32; lia).
      rewrite lor_1_even. unfold is_u32, u32. destruct (Z.ltb_spec bl (2 ^ 31)); simpl;
        subst B; (split; [lia|]); Z.to_euclidean_division_equations; lia. }
    pose proof (IH (Z.shiftr a 1) (u32 (Z.shiftl bl 1)) bh' l' h' ltac:(lia) (u32_range _) Hbh' Hl' Hh')
      as IH'. rewrite HB' in IH'. rewrite Z.shiftr_div_pow2 in IH', Hs by lia.
    change (2 ^ 1) with 2 in IH', Hs. rewrite <- Hs in IH'. unfold is_u32 in IH'.
    destruct IH' as (? & ? & IH'); [lia|lia|]. split_and!; try lia.
Qed.

(** The loop as [Mult] calls it. *)
Lemma Mult_loop_32 a b :
  let s := Mult_loop 32 (mkMult a (u32 b) 0 0 0) in
  is_u32 (hi s) ∧ is_u32 (lo s) ∧ hi s * 2 ^ 32 + lo s = u32 a * u32 b.
Proof.
  pose proof (u32_range b) as Hb. pose proof (u32_range a) as Ha.
  assert (is_u32 0) as H0 by (unfold is_u32; lia). unfold is_u32 in Ha, Hb.
  apply (Mult_loop_ok 32 a (u32 b) 0 0 0); [lia|apply u32_range|done..|lia|].
  change (2 ^ Z.of_nat 32) with (2 ^ 32). unfold u32 in *. nia.
Qed.

(** Two's complement of a double word. *)
Lemma negate_double h l :
  is_u32 h → is_u32 l →
  let l' := u32 (u32 (Z.lnot l) + 1) in
  let h' := if l' =? 0 then u32 (u32 (Z.lnot h) + 1) else u32 (Z.lnot h) in
  is_u32 h' ∧ is_u32 l' ∧ h' * 2 ^ 32 + l' = (- (h * 2 ^ 32 + l)) mod 2 ^ 64.
Proof.
  intros Hh Hl l' h'. split; [subst h'; case_match; apply u32_range|].
  split; [apply u32_range|]. subst h' l'. unfold Z.lnot, Z.pred, u32, is_u32 in *.
  apply Z.mod_unique_pos with (q := if (h =? 0) && (l =? 0) then 0 else -1);
    destruct (Z.eqb_spec (((- l + -1) mod 2 ^ 32 + 1) mod 2 ^ 32) 0),
      (Z.eqb_spec h 0), (Z.eqb_spec l 0); simpl; Z.to_euclidean_division_equations; lia.
Qed.

(** [Mult] multiplies.  The double word it stores is the exact 64-bit
    product of the operands read as unsigned words, or, for signed arithmetic,
    their signed product in two's complement; no carry is lost and the early
    exit of the loop drops no bit. *)
Theorem mult_correct a b signedArith :
  is_s32 a → is_s32 b →
  let '(h, l) := Mult a b signedArith in
  is_u32 h ∧ is_u32 l ∧
  h * 2 ^ 32 + l = if signedArith then (a * b) mod 2 ^ 64 else u32 a * u32 b.
Proof.
  intros Ha Hb. unfold is_s32 in *. unfold Mult.
  assert (is_u32 0) as H0 by (unfold is_u32; lia). change 0 with (u32 0) in H0.
  destruct (Z.eqb_spec a 0) as [->|Ha0].
  { split_and!; [apply H0..|]. by destruct signedArith. }
  destruct (Z.eqb_spec b 0) as [->|Hb0].
  { split_and!; [apply H0..|]. destruct signedArith; by rewrite Z.mul_0_r. }
  simpl orb. cbv iota.
  assert (∀ z, z < 0 → - 2 ^ 31 ≤ z → u32 (s32 (- z)) = - z) as Hneg
    by (intros; rewrite u32_s32; apply u32_id; unfold is_u32; lia).
  assert (∀ z, 0 ≤ z → z < 2 ^ 31 → u32 z = z) as Hpos
    by (intros; apply u32_id; unfold is_u32; lia).
  destruct signedArith; [|apply Mult_loop_32].
  destruct (Z.ltb_spec a 0), (Z.ltb_spec b 0); cbn [negb];
    match goal with |- context [Mult_loop 32 (mkMult ?x (u32 ?y) 0 0 0)] =>
      pose proof (Mult_loop_32 x y) as (Hh & Hl & HP);
      set (st := Mult_loop 32 (mkMult x (u32 y) 0 0 0)) in *; clearbody st end;
    rewrite ?Hneg, ?Hpos in HP by lia;
    try (split_and!; [done|done|]; rewrite HP;
         (apply Z.mod_unique_pos with (q := 0); nia));
    pose proof (negate_double _ _ Hh Hl) as (? & ? & HN); rewrite HP in HN; split_and!; try done;
    rewrite HN; f_equal; lia.
Qed.

Lemma mult_correct_witness :
  let '(h, l) := Mult (-3) 5 true in
  (h, l) = (4294967295, 4294967281) ∧ h * 2 ^ 32 + l = (-3 * 5) mod 2 ^ 64.
Proof.
  pose proof (mult_correct (-3) 5 true) as H. destruct (Mult (-3) 5 true) as [h l] eqn:E.
  vm_compute in E. injection E as <- <-. split; [reflexivity|]. apply H; unfold is_s32; lia.
Defined.

(** ** The invariant through one instruction *)

(** What holds inside the switch of an instruction that began in machine [m0]:
    the program counters have not moved yet and only mapped memory was changed
    ([kept]); as long as nothing was written, registers and memory are as at
    the beginning ([clean]). *)
Definition kept (m0 m : Machine) : Prop :=
  wfm m ∧ reg m PCReg = reg m0 PCReg ∧ reg m NextPCReg = reg m0 NextPCReg ∧ confined m0 m.

Definition clean (m0 m : Machine) : Prop :=
  wfm m ∧ registers m = registers m0 ∧ mainMemory m = mainMemory m0 ∧ confined m0 m.

(** At a trap the machine shows nothing of the instruction: its registers are
    those from before with the pending load finished, its memory is untouched. *)
Definition trapped (m0 m : Machine) : Prop :=
  wfm m ∧ mainMemory m = mainMemory m0 ∧ confined m0 m ∧
  ∃ va, registers m = registers (raised m0 va).

Definition good_outcome (m0 : Machine) (o : outcome) : Prop :=
  match o with
  | Break m r _ _ => kept m0 m ∧ 0 ≤ r < NumGPRegs
  | Return which m => trapped m0 m ∧ which ≠ NoException
  end.

Definition good (m0 : Machine) (r : result outcome) : Prop :=
  ∃ o, r = Ok o ∧ good_outcome m0 o.

Section walk.
Context (m0 : Machine).
Implicit Types (m : Machine).

Lemma clean_kept m : clean m0 m → kept m0 m.
Proof. intros (? & Hr & _ & ?). unfold kept, reg. by rewrite Hr. Qed.

Lemma clean_raised m va : clean m0 m → trapped m0 (raised m va).
Proof.
  intros (? & Hr & Hm & Hc). split_and!; [by apply raised_wfm|done| |].
  { eapply confined_trans; [done|]. by apply confined_refl. }
  exists va. unfold raised, loaded, put_reg, reg. simpl. by rewrite Hr.
Qed.

Lemma good_rget m i k :
  kept m0 m → 0 ≤ i < NumTotalRegs → (∀ v, is_u32 v → v = reg m i → good m0 (k v)) →
  good m0 (v ← rget m i; k v).
Proof. intros ([Hr _] & _) Hi Hk. rewrite rget_ok by done. by apply Hk; [apply reg_u32|]. Qed.

Lemma good_rset m i v k :
  kept m0 m → 0 ≤ i < PCReg → (∀ m', kept m0 m' → good m0 (k m')) →
  good m0 (m' ← rset m i v; k m').
Proof.
  unfold PCReg. intros ([Hr Hm] & Hpc & Hnpc & Hc) Hi Hk.
  rewrite rset_ok by (done || unfold NumTotalRegs; lia). run_ok. apply Hk.
  split_and!; [apply put_reg_wfm; [done|unfold LoadReg; lia|lia]|..];
    [rewrite reg_put_ne; done || unfold PCReg, NextPCReg; lia..|].
  eapply confined_trans; [done|]. by apply confined_refl.
Qed.

Lemma good_Break m r v pc : kept m0 m → 0 ≤ r < 32 → good m0 (Ok (Break m r v pc)).
Proof. intros. eexists. split; [done|]. by split. Qed.

Lemma raise_good m which va :
  clean m0 m → which ≠ NoException → good m0 (raise m which va).
Proof.
  intros Hc Hx. pose proof Hc as ([Hr _] & _). destruct (RaiseException_ok m va Hr) as (HR & _).
  unfold raise. rewrite HR. eexists. split; [done|]. split; [by apply clean_raised|done].
Qed.

Lemma branch_good c m i pc : kept m0 m → good m0 (branch_if c m i pc).
Proof.
  intros Hw. unfold branch_if. destruct c; [|by apply good_Break].
  apply good_rget; [done|done|]. intros. by apply good_Break.
Qed.

Lemma load_good E m va size k :
  clean m0 m → size = 1 ∨ size = 2 ∨ size = 4 →
  (∀ v m', clean m0 m' → good m0 (k v m')) → good m0 (load E m va size k).
Proof.
  intros Hc Hs Hk. pose proof Hc as (Hw & Hr & Hm & Hcf). unfold load.
  destruct (ReadMem_total E m va size Hw Hs) as [(v & m' & -> & ? & Hr' & Hm' & ?)|(w & Hx & ->)]; run_ok.
  - apply Hk. split_and!; [done|congruence|congruence|by eapply confined_trans].
  - eexists. split; [done|]. split; [by apply clean_raised|done].
Qed.

Lemma store_good E m va size v pc :
  clean m0 m → size = 1 ∨ size = 2 ∨ size = 4 → good m0 (store E m va size v pc).
Proof.
  intros Hc Hs. pose proof Hc as (Hw & Hr & Hm & Hcf). unfold store.
  destruct (WriteMem_total E m va size v Hw Hs) as [(m' & -> & ? & Hr' & ?)|(w & Hx & ->)]; run_ok.
  - apply good_Break; [|done]. unfold kept, reg. rewrite Hr', Hr.
    split_and!; [done|done|done|by eapply confined_trans].
  - eexists. split; [done|]. split; [by apply clean_raised|done].
Qed.

Lemma good_if (c : bool) r1 r2 :
  (c = true → good m0 r1) → (c = false → good m0 r2) → good m0 (if c then r1 else r2).
Proof. destruct c; auto. Qed.
End walk.

(** Walk through the body of one case. *)
Ltac reg_range := unfold NumTotalRegs, NextPCReg, PCReg, R31, LoadReg, LoadValueReg, HiReg, LoReg in *; lia.
Ltac kept := first [assumption | apply clean_kept; assumption].
Ltac walk :=
  repeat first
    [ apply good_rget; [kept|reg_range|intros ? ? ?]
    | apply good_rset; [kept|reg_range|intros ? ?]
    | apply good_if; intros ?
    | apply good_Break; [kept|lia]
    | apply raise_good; [assumption|discriminate]
    | apply branch_good; kept
    | apply load_good; [assumption|lia|intros ? ? ?]
    | apply store_good; [assumption|lia] ].

(** LWL, LWR, SWL and SWR assert that the address is aligned. *)
Definition partial_word (op : OpCode) : bool :=
  match op with OP_LWL | OP_LWR | OP_SWL | OP_SWR => true | _ => false end.

Definition partial_unaligned (m : Machine) (i : Instruction) : bool :=
  partial_word (opCode i) && negb (Z.land (s32 (reg m (rs i) + extra i)) 3 =? 0).

Section invariant.
Context (E : bool) (m0 m : Machine) (i : Instruction) (pc : Z).
Context (Hw : clean m0 m) (Hi : wf_instr i).

Lemma exec_add_bne_good r : exec_add_bne m i pc = Some r → good m0 r.
Proof.
  destruct Hi as (? & ? & ? & _). unfold exec_add_bne.
  destruct (opCode i); intros; simplify_eq; walk.
Qed.

Lemma exec_div_jr_good r : exec_div_jr m i pc = Some r → good m0 r.
Proof.
  destruct Hi as (? & ? & ? & _). unfold exec_div_jr.
  destruct (opCode i); intros; simplify_eq; walk.
Qed.

Lemma exec_lb_lw_good r : exec_lb_lw E m i pc = Some r → good m0 r.
Proof.
  destruct Hi as (? & ? & ? & _). unfold exec_lb_lw.
  destruct (opCode i); intros; simplify_eq; walk.
Qed.

Lemma exec_mfhi_sltu_good r : exec_mfhi_sltu E m i pc = Some r → good m0 r.
Proof.
  destruct Hi as (? & ? & ? & _). unfold exec_mfhi_sltu.
  destruct (opCode i); intros; simplify_eq; walk; destruct (Mult _ _ _); walk.
Qed.

Lemma exec_sra_sw_good r : exec_sra_sw E m i pc = Some r → good m0 r.
Proof.
  destruct Hi as (? & ? & ? & _). unfold exec_sra_sw.
  destruct (opCode i); intros; simplify_eq; walk.
Qed.

(** The cases with an assertion: it fails, or the case is as good as the others. *)
Definition good_or_unaligned (r : result outcome) : Prop :=
  if partial_unaligned m i then r = Err AssertionFailed else good m0 r.

Lemma aligned_case k :
  partial_word (opCode i) = true → (∀ a, is_u32 a → good m0 (k a)) →
  good_or_unaligned (a ← rget m (rs i); _ ← ASSERT (Z.land (s32 (a + extra i)) 3 =? 0); k a).
Proof.
  intros Hp Hk. destruct Hi as (? & _). pose proof Hw as ([Hr _] & _).
  unfold good_or_unaligned, partial_unaligned. rewrite Hp, rget_ok by (done || reg_range). run_ok.
  destruct (_ =? 0); [|done]. by apply Hk, reg_u32.
Qed.

Lemma pending_good m' k :
  clean m0 m' → (∀ v, good m0 (k v)) → good m0 (v ← pending_value m' i; k v).
Proof.
  intros ([Hr Hm] & _) Hk. destruct Hi as (? & ? & _). unfold pending_value.
  rewrite !rget_ok by (done || reg_range). run_ok. case_match; apply Hk.
Qed.

Lemma exec_lwl_lwr_good r : exec_lwl_lwr E m i pc = Some r → good_or_unaligned r.
Proof.
  destruct Hi as (? & ? & ? & _). unfold exec_lwl_lwr.
  destruct (opCode i) eqn:Eo; intros; simplify_eq;
    (apply aligned_case; [by rewrite Eo|intros; walk]); (apply pending_good; [done|intros; walk]).
Qed.

Lemma exec_swl_unimp_good r : exec_swl_unimp E m i pc = Some r → good_or_unaligned r.
Proof.
  destruct Hi as (? & ? & ? & _). unfold exec_swl_unimp.
  destruct (opCode i) eqn:Eo; intros; simplify_eq;
    try (apply aligned_case; [by rewrite Eo|intros; walk]);
    unfold good_or_unaligned, partial_unaligned; rewrite Eo; simpl; walk.
Qed.

(** Every opcode that [Decode] gives has a case. *)
Lemma execute_good : good_or_unaligned (execute E m i pc).
Proof.
  destruct Hi as (_ & _ & _ & _ & Hs & Hb & Hr). unfold execute.
  assert (∀ r, good m0 r → partial_word (opCode i) = false → good_or_unaligned r) as Hg.
  { intros r Hr' Hp. unfold good_or_unaligned, partial_unaligned. by rewrite Hp. }
  destruct (exec_add_bne m i pc) eqn:E1; [apply Hg; [by apply exec_add_bne_good|]|].
  { revert E1. unfold exec_add_bne. by destruct (opCode i). }
  destruct (exec_div_jr m i pc) eqn:E2; [apply Hg; [by apply exec_div_jr_good|]|].
  { revert E2. unfold exec_div_jr. by destruct (opCode i). }
  destruct (exec_lb_lw E m i pc) eqn:E3; [apply Hg; [by apply exec_lb_lw_good|]|].
  { revert E3. unfold exec_lb_lw. by destruct (opCode i). }
  destruct (exec_lwl_lwr E m i pc) eqn:E4; [by apply exec_lwl_lwr_good|].
  destruct (exec_mfhi_sltu E m i pc) eqn:E5; [apply Hg; [by apply exec_mfhi_sltu_good|]|].
  { revert E5. unfold exec_mfhi_sltu. by destruct (opCode i). }
  destruct (exec_sra_sw E m i pc) eqn:E6; [apply Hg; [by apply exec_sra_sw_good|]|].
  { revert E6. unfold exec_sra_sw. by destruct (opCode i). }
  destruct (exec_swl_unimp E m i pc) eqn:E7; [by apply exec_swl_unimp_good|].
  exfalso. revert E1 E2 E3 E4 E5 E6 E7.
  unfold exec_add_bne, exec_div_jr, exec_lb_lw, exec_lwl_lwr, exec_mfhi_sltu, exec_sra_sw,
    exec_swl_unimp. by destruct (opCode i).
Qed.
End invariant.

Lemma advance_ok m r v pc :
  wfm m → 0 ≤ r < NumGPRegs →
  ∃ m', advance m r v pc = Ok m' ∧ wfm m' ∧ reg m' 0 = 0 ∧
        mainMemory m' = mainMemory m ∧
        reg m' PrevPCReg = reg m PCReg ∧ reg m' PCReg = reg m NextPCReg ∧
        reg m' NextPCReg = u32 pc ∧
        (∀ j, 0 ≤ j < PCReg → reg m' j = reg (loaded m r v) j).
Proof.
  intros [Hr Hm] Hn. destruct (DelayedLoad_ok m r v Hr Hn) as (HD & Hr1 & H0).
  pose proof (loaded_wfm m r v (conj Hr Hm) Hn) as Hw1. set (m1 := loaded m r v) in *.
  assert (wf_regs (put_reg m1 PrevPCReg (reg m PCReg))) as Hr2 by (by apply put_reg_wf).
  assert (wf_regs (put_reg (put_reg m1 PrevPCReg (reg m PCReg)) PCReg (reg m NextPCReg))) as Hr3
    by (by apply put_reg_wf).
  assert (reg m1 PCReg = reg m PCReg) as Hpc by (by apply reg_loaded).
  assert (reg m1 NextPCReg = reg m NextPCReg) as Hnpc by (by apply reg_loaded).
  assert (mainMemory m1 = mainMemory m) as Hmem by done. clearbody m1.
  assert (is_u32 (reg m PCReg) ∧ is_u32 (reg m NextPCReg)) as [Hu1 Hu2] by (split; by apply reg_u32).
  eexists. unfold advance. rewrite HD. run_ok.
  rewrite rget_ok by done. run_ok. rewrite Hpc. rewrite rset_ok by done. run_ok.
  rewrite rget_ok by done. run_ok. rewrite reg_put_ne by done. rewrite Hnpc.
  rewrite rset_ok by done. run_ok. rewrite rset_ok by done. split; [reflexivity|].
  split_and!.
  - repeat apply put_reg_wfm; done.
  - by rewrite !reg_put_ne by done.
  - done.
  - rewrite !reg_put_ne by done. rewrite reg_put_eq by done. by apply u32_id.
  - rewrite reg_put_ne by done. rewrite reg_put_eq by done. by apply u32_id.
  - by rewrite reg_put_eq.
  - intros j Hj. unfold PCReg, PrevPCReg, NextPCReg in *. by rewrite !reg_put_ne by lia.
Qed.

Lemma rset_confined m i v m' : rset m i v = Ok m' → confined m m'.
Proof. unfold rset. intros H. bind_inv. by apply confined_refl. Qed.

Lemma advance_confined m r v pc m' : advance m r v pc = Ok m' → confined m m'.
Proof.
  unfold advance, DelayedLoad. intros H. bind_inv.
  repeat match goal with H : rset _ _ _ = Ok _ |- _ => apply rset_confined in H end.
  by repeat (eapply confined_trans; [eassumption|]).
Qed.

(** An instruction touches no memory but the frames mapped writable. *)
Lemma OneInstruction_confined E m :
  wfm m →
  match OneInstruction E m with
  | Ok (Done _ m') | Ok (Raised _ m') => wfm m' ∧ confined m m'
  | Err e => e = AssertionFailed
  end.
Proof.
  intros Hw. pose proof Hw as [Hr Hm]. unfold OneInstruction. rewrite rget_ok by done. run_ok.
  destruct (ReadMem_total E m (s32 (reg m PCReg)) 4 Hw) as
    [(raw & m1 & HR & Hw1 & Hr1 & Hm1 & Hc1)|(w & Hx & ->)]; [lia| |].
  - rewrite HR. run_ok. destruct (Decode_ok (u32 raw) (u32_range _)) as (i & HD & Hi & _).
    rewrite HD. run_ok. pose proof Hw1 as [Hr1' _]. rewrite rget_ok by done. run_ok.
    pose proof (execute_good E m m1 i (s32 (reg m1 NextPCReg + 4)) ltac:(done) Hi) as He.
    unfold good_or_unaligned in He. destruct (partial_unaligned m1 i); [by rewrite He|].
    destruct He as (o & -> & Ho). run_ok. destruct o as [m' r v pc|w m']; simpl in Ho.
    + destruct Ho as ((Hw' & _ & _ & Hc) & Hrr).
      destruct (advance_ok m' r v pc Hw' Hrr) as (m2 & Ha & ? & _). rewrite Ha. run_ok.
      split; [done|]. eapply confined_trans; [done|]. by eapply advance_confined.
    + by destruct Ho as ((? & _ & ? & _) & _).
  - split; [by apply raised_wfm|]. by apply confined_refl.
Qed.

(** C24: an instruction is safe and its traps are precise.  From a well-formed
    machine, whatever the word at the program counter is, one instruction
    either completes, with register 0 zero and the program counters advanced
    through the delay slot, or traps with the program counters where they were,
    the memory untouched and only the pending load finished, so that the
    instruction can be started again; the invariant holds again in both cases.
    No array is left: the one way to stop is the alignment assertion of LWL,
    LWR, SWL and SWR. *)
Theorem one_instruction_safe HOST_IS_BIG_ENDIAN m :
  wfm m →
  match OneInstruction HOST_IS_BIG_ENDIAN m with
  | Ok (Done _ m') =>
    wfm m' ∧ reg m' 0 = 0 ∧ reg m' PrevPCReg = reg m PCReg ∧ reg m' PCReg = reg m NextPCReg
  | Ok (Raised which m') =>
    wfm m' ∧ which ≠ NoException ∧ reg m' 0 = 0 ∧ reg m' PCReg = reg m PCReg ∧
    reg m' NextPCReg = reg m NextPCReg ∧ mainMemory m' = mainMemory m ∧
    ∃ va, registers m' = registers (raised m va)
  | Err e =>
    e = AssertionFailed ∧
    ∃ raw m1 i, ReadMem HOST_IS_BIG_ENDIAN m (s32 (reg m PCReg)) 4 = Ok (Done raw m1) ∧
                Decode (u32 raw) = Ok i ∧ partial_unaligned m1 i = true
  end.
Proof.
  intros Hw. pose proof Hw as [Hr Hm].
  assert (∀ m', trapped m m' → reg m' 0 = 0 ∧ reg m' PCReg = reg m PCReg ∧
    reg m' NextPCReg = reg m NextPCReg) as Htrap.
  { intros m' (_ & _ & _ & va & Hregs). rewrite !(reg_ext m' (raised m va)) by done.
    pose proof (RaiseException_ok m va Hr) as (_ & _ & H0). split_and!; [done|..];
      unfold raised; rewrite reg_loaded by (done || by apply put_reg_wf); by apply reg_put_ne. }
  unfold OneInstruction. rewrite rget_ok by done. run_ok.
  destruct (ReadMem_total HOST_IS_BIG_ENDIAN m (s32 (reg m PCReg)) 4 Hw) as
    [(raw & m1 & HR & Hw1 & Hr1 & Hm1 & Hc1)|(w & Hx & ->)]; [lia| |].
  - rewrite HR. run_ok. destruct (Decode_ok (u32 raw) (u32_range _)) as (i & HD & Hi & _).
    rewrite HD. run_ok. pose proof Hw1 as [Hr1' _]. rewrite rget_ok by done. run_ok.
    assert (clean m m1) as Hc by done.
    pose proof (execute_good HOST_IS_BIG_ENDIAN m m1 i (s32 (reg m1 NextPCReg + 4)) Hc Hi) as He.
    unfold good_or_unaligned in He. destruct (partial_unaligned m1 i) eqn:Ep.
    { rewrite He. run_ok. split; [done|]. eauto 10. }
    destruct He as (o & -> & Ho). run_ok. destruct o as [m' r v pc|w m']; simpl in Ho.
    + destruct Ho as ((Hw' & Hpc & Hnpc & _) & Hrr).
      destruct (advance_ok m' r v pc Hw' Hrr) as (m2 & -> & ? & ? & _ & ? & ? & _). run_ok.
      split_and!; [done|done|congruence|congruence].
    + destruct Ho as (Ht & ?). destruct (Htrap _ Ht) as (? & ? & ?).
      destruct Ht as (? & ? & _ & ?). done.
  - run_ok. assert (trapped m (raised m (s32 (reg m PCReg)))) as Ht by (by apply clean_raised).
    destruct (Htrap _ Ht) as (? & ? & ?). destruct Ht as (? & ? & _ & ?). done.
Qed.

(** The machine set up by the witnesses: one page in frame 3, with the word [w]
    at address 0, program counters 0 and 4, and two general registers. *)
Definition boot (w r4 r5 : Z) : Machine :=
  let m := stored sample_machine 384 4 w in
  put_reg (put_reg (put_reg m NextPCReg 4) 4 r4) 5 r5.

Lemma boot_wfm w r4 r5 : wfm (boot w r4 r5).
Proof.
  unfold boot. repeat apply put_reg_wfm; try done. apply stored_wfm.
  split; [|apply sample_machine_wf]. split; simpl; [done|..].
  - repeat constructor; unfold is_u32; lia.
  - intros r Hr. vm_compute in Hr. injection Hr as <-. unfold NumGPRegs. lia.
Qed.

(** ADD r6,r4,r5 completes and traps. *)
Lemma one_instruction_safe_witness :
  (∃ m', OneInstruction false (boot 0x00853020 3 4) = Ok (Done tt m') ∧ reg m' 6 = 7 ∧ wfm m') ∧
  (∃ m', OneInstruction false (boot 0x00853020 0x7fffffff 1) = Ok (Raised OverflowException m') ∧
         reg m' PCReg = 0).
Proof.
  pose proof (one_instruction_safe false (boot 0x00853020 3 4) (boot_wfm _ _ _)) as H1.
  pose proof (one_instruction_safe false (boot 0x00853020 0x7fffffff 1) (boot_wfm _ _ _)) as H2.
  destruct (OneInstruction false (boot 0x00853020 3 4)) as [[[] m1|]|] eqn:E1;
    [|vm_compute in E1; discriminate..].
  destruct (OneInstruction false (boot 0x00853020 0x7fffffff 1)) as [[|w2 m2]|] eqn:E2;
    [vm_compute in E2; discriminate| |vm_compute in E2; discriminate].
  split.
  - exists m1. split_and!; [done| |apply H1]. vm_compute in E1. injection E1 as <-. reflexivity.
  - exists m2. destruct H2 as (_ & _ & _ & H2 & _). split; [|by rewrite H2].
    vm_compute in E2. by injection E2 as <- <-.
Defined.

(** ** The instruction set, as the architecture defines it *)

Inductive alu := Val (v : Z) | Overflow.

Definition checked (z : Z) : alu :=
  if bool_decide (- 2 ^ 31 ≤ z < 2 ^ 31) then Val z else Overflow.

Definition flag (b : bool) : alu := Val (if b then 1 else 0).

(** Register instructions: result in [rd], operands [rs] and [rt] read as
    unsigned words, shift amount [sh]. *)
Definition mips_rr (op : OpCode) (a b sh : Z) : option alu :=
  match op with
  | OP_ADD => Some (checked (s32 a + s32 b))
  | OP_ADDU => Some (Val (a + b))
  | OP_SUB => Some (checked (s32 a - s32 b))
  | OP_SUBU => Some (Val (a - b))
  | OP_AND => Some (Val (Z.land a b))
  | OP_OR => Some (Val (Z.lor a b))
  | OP_XOR => Some (Val (Z.lxor a b))
  | OP_NOR => Some (Val (Z.lnot (Z.lor a b)))
  | OP_SLL => Some (Val (b * 2 ^ sh))
  | OP_SLLV => Some (Val (b * 2 ^ (a mod 32)))
  | OP_SRL => Some (Val (b / 2 ^ sh))
  | OP_SRLV => Some (Val (b / 2 ^ (a mod 32)))
  | OP_SRA => Some (Val (s32 b / 2 ^ sh))
  | OP_SRAV => Some (Val (s32 b / 2 ^ (a mod 32)))
  | OP_SLT => Some (flag (s32 a <? s32 b))
  | OP_SLTU => Some (flag (a <? b))
  | _ => None
  end.

(** Immediate instructions: result in [rt]; [imm] is the sign-extended
    immediate as an unsigned word. *)
Definition mips_ri (op : OpCode) (a imm : Z) : option alu :=
  match op with
  | OP_ADDI => Some (checked (s32 a + s32 imm))
  | OP_ADDIU => Some (Val (a + imm))
  | OP_ANDI => Some (Val (Z.land a (imm mod 2 ^ 16)))
  | OP_ORI => Some (Val (Z.lor a (imm mod 2 ^ 16)))
  | OP_XORI => Some (Val (Z.lxor a (imm mod 2 ^ 16)))
  | OP_LUI => Some (Val (imm * 2 ^ 16))
  | OP_SLTI => Some (flag (s32 a <? s32 imm))
  | OP_SLTIU => Some (flag (a <? imm))
  | _ => None
  end.

(** The instructions whose case in the switch computes something else. *)
Definition deviates (op : OpCode) : bool :=
  match op with
  | OP_OR | OP_SLT | OP_SLTI | OP_SRA | OP_SRAV | OP_SRL | OP_SRLV => true
  | _ => false
  end.

Definition alu_outcome (m : Machine) (dest pc : Z) (r : alu) : outcome :=
  match r with
  | Val v => Break (put_reg m dest v) 0 0 pc
  | Overflow => Return OverflowException (raised m 0)
  end.

Lemma execute_part E m i pc r :
  exec_add_bne m i pc = Some r ∨ exec_lb_lw E m i pc = Some r ∨
  exec_mfhi_sltu E m i pc = Some r ∨ exec_sra_sw E m i pc = Some r ∨
  exec_swl_unimp E m i pc = Some r →
  execute E m i pc = r.
Proof.
  unfold execute, exec_add_bne, exec_div_jr, exec_lb_lw, exec_lwl_lwr, exec_mfhi_sltu,
    exec_sra_sw, exec_swl_unimp.
  destruct (opCode i); intros [H|[H|[H|[H|H]]]]; try discriminate H; by injection H as <-.
Qed.

Lemma execute_div_jr E m i pc r : exec_div_jr m i pc = Some r → execute E m i pc = r.
Proof.
  unfold execute, exec_add_bne, exec_div_jr. destruct (opCode i); intros H; try discriminate H; by injection H as <-.
Qed.

(** Testing the sign bit of an exclusive or compares signs. *)
Lemma same_sign u v :
  is_u32 u → is_u32 v →
  (Z.land (Z.lxor u v) SIGN_BIT =? 0) = eqb (u <? 2 ^ 31) (v <? 2 ^ 31).
Proof.
  intros Hu Hv. assert (∀ w, is_u32 w → (w <? 2 ^ 31) = negb (Z.testbit w 31)) as Ht.
  { intros w Hw. apply eq_true_iff_eq. rewrite negb_true_iff, Z.testbit_false by lia.
    rewrite Z.ltb_lt. unfold is_u32 in Hw. Z.to_euclidean_division_equations; lia. }
  unfold SIGN_BIT. rewrite sign_bit_clear by auto using is_u32_lxor.
  rewrite !Ht by auto using is_u32_lxor. rewrite Z.lxor_spec.
  by destruct (Z.testbit u 31), (Z.testbit v 31).
Qed.

(** The overflow tests of ADD and ADDI, and of SUB. *)
Lemma add_overflow a b x :
  is_u32 a → is_u32 b → x = a ∨ x = b →
  (Z.land (Z.lxor a b) SIGN_BIT =? 0) && negb (Z.land (Z.lxor x (u32 (s32 (a + b)))) SIGN_BIT =? 0)
  = negb (bool_decide (- 2 ^ 31 ≤ s32 a + s32 b < 2 ^ 31)).
Proof.
  intros Ha Hb Hx. assert (is_u32 x) by (by destruct Hx as [->| ->]).
  rewrite u32_s32, !same_sign by auto using u32_range.
  rewrite (s32_cases a), (s32_cases b) by done. unfold is_u32, u32 in *.
  assert ((a + b) mod 2 ^ 32 = if a + b <? 2 ^ 32 then a + b else a + b - 2 ^ 32) as ->.
  { destruct (Z.ltb_spec (a + b) (2 ^ 32)); Z.to_euclidean_division_equations; lia. }
  destruct (Z.ltb_spec (a + b) (2 ^ 32)); case_bool_decide as Hc;
  destruct (Z.ltb_spec a (2 ^ 31)), (Z.ltb_spec b (2 ^ 31)), (Z.ltb_spec x (2 ^ 31));
    match goal with |- context [?y <? 2 ^ 31] => destruct (Z.ltb_spec y (2 ^ 31)) | _ => idtac end;
    simpl; done || lia.
Qed.

Lemma sub_overflow a b :
  is_u32 a → is_u32 b →
  negb (Z.land (Z.lxor a b) SIGN_BIT =? 0) && negb (Z.land (Z.lxor a (u32 (s32 (a - b)))) SIGN_BIT =? 0)
  = negb (bool_decide (- 2 ^ 31 ≤ s32 a - s32 b < 2 ^ 31)).
Proof.
  intros Ha Hb. rewrite u32_s32, !same_sign by auto using u32_range.
  rewrite (s32_cases a), (s32_cases b) by done. unfold is_u32, u32 in *.
  assert ((a - b) mod 2 ^ 32 = if a <? b then a - b + 2 ^ 32 else a - b) as ->.
  { destruct (Z.ltb_spec a b); Z.to_euclidean_division_equations; lia. }
  destruct (Z.ltb_spec a b); case_bool_decide as Hc;
  destruct (Z.ltb_spec a (2 ^ 31)), (Z.ltb_spec b (2 ^ 31));
    match goal with |- context [?y <? 2 ^ 31] => destruct (Z.ltb_spec y (2 ^ 31)) | _ => idtac end;
    simpl; done || lia.
Qed.

(** A step that writes one register and goes on. *)
Lemma rset_next m d v pc :
  wfm m → 0 ≤ d < 32 →
  (m' ← rset m d v; Ok (Break m' 0 0 pc)) = Ok (Break (put_reg m d v) 0 0 pc).
Proof. intros [Hr _] Hd. by rewrite rset_ok by (done || reg_range). Qed.

Lemma put_reg_u32 m d v : put_reg m d (u32 v) = put_reg m d v.
Proof. unfold put_reg. by rewrite u32_idem. Qed.

Lemma put_reg_s32 m d v : put_reg m d (s32 v) = put_reg m d v.
Proof. unfold put_reg. by rewrite u32_s32. Qed.

Lemma u32_congr x y : x mod 2 ^ 32 = y mod 2 ^ 32 → u32 x = u32 y.
Proof. done. Qed.

Lemma s32_congr z : s32 z mod 2 ^ 32 = z mod 2 ^ 32.
Proof. exact (u32_s32 z). Qed.

Lemma put_checked m d pc (c : bool) z z' :
  wfm m → 0 ≤ d < 32 → c = negb (bool_decide (- 2 ^ 31 ≤ z < 2 ^ 31)) →
  u32 z' = u32 z →
  (if c then raise m OverflowException 0 else m' ← rset m d (s32 z'); Ok (Break m' 0 0 pc)) =
  Ok (alu_outcome m d pc (checked z)).
Proof.
  intros Hw Hd -> Hz. unfold checked. case_bool_decide; simpl.
  - rewrite rset_next by done. unfold put_reg. by rewrite u32_s32, Hz.
  - pose proof Hw as [Hr _]. unfold raise. by rewrite (proj1 (RaiseException_ok m 0 Hr)).
Qed.

Lemma alu_ok HOST_IS_BIG_ENDIAN m i pc r :
  wfm m → wf_instr i → deviates (opCode i) = false →
  (mips_rr (opCode i) (reg m (rs i)) (reg m (rt i)) (extra i) = Some r →
   execute HOST_IS_BIG_ENDIAN m i pc = Ok (alu_outcome m (rd i) pc r)) ∧
  (mips_ri (opCode i) (reg m (rs i)) (extra i) = Some r →
   execute HOST_IS_BIG_ENDIAN m i pc = Ok (alu_outcome m (rt i) pc r)).
Proof.
  intros Hw Hi Hd. pose proof Hw as [Hr _]. destruct Hi as (Hrs & Hrt & Hrd & Hex & _).
  pose proof (reg_u32 m (rs i) Hr) as Ha. pose proof (reg_u32 m (rt i) Hr) as Hb.
  assert (∀ x, is_u32 x → Z.land x 0x1f = x mod 32) as H31
    by (intros; change 0x1f with (Z.ones 5); by rewrite Z.land_ones).
  assert (∀ x, Z.land x 0xffff = x mod 2 ^ 16) as H16
    by (intros; change 0xffff with (Z.ones 16); by rewrite Z.land_ones).
  assert (∀ x y, u32 (x + y) = u32 (s32 x + s32 y)) as Hadd.
  { intros x y. apply u32_congr. by rewrite Z.add_mod, <- (s32_congr x), <- (s32_congr y),
      <- Z.add_mod by lia. }
  assert (∀ x y, u32 (x - y) = u32 (s32 x - s32 y)) as Hsub.
  { intros x y. apply u32_congr. by rewrite Zminus_mod, <- (s32_congr x), <- (s32_congr y),
      <- Zminus_mod. }
  split; intros Hm; apply execute_part;
    unfold exec_add_bne, exec_lb_lw, exec_mfhi_sltu, exec_sra_sw, exec_swl_unimp;
    destruct (opCode i); try discriminate; injection Hm as <-;
    repeat match goal with
    | |- None = Some _ ∨ _ => right
    | |- Some _ = Some _ ∨ _ => left
    end; f_equal;
    rewrite ?rget_ok by (done || reg_range); run_ok;
    try (rewrite rset_next by done; rewrite ?H31, ?H16 by done;
         rewrite ?Z.shiftl_mul_pow2 by (unfold is_u32 in *; try apply Z.mod_pos_bound; lia);
         reflexivity).
  all: apply put_checked; auto using add_overflow, sub_overflow.
Qed.

Lemma put_reg_inj m d v w :
  wfm m → 0 ≤ d < NumTotalRegs → put_reg m d v = put_reg m d w ↔ u32 v = u32 w.
Proof.
  intros [Hr _] Hd. split; intros H.
  - by rewrite <- (reg_put_eq m d v), <- (reg_put_eq m d w), H.
  - unfold put_reg. by rewrite H.
Qed.

Lemma shift_agree b sh :
  is_u32 b → 0 ≤ sh < 32 → u32 (s32 b / 2 ^ sh) = u32 (b / 2 ^ sh) ↔ b < 2 ^ 31 ∨ sh = 0.
Proof.
  intros Hb Hsh. rewrite s32_cases by done. unfold is_u32 in Hb.
  assert (0 < 2 ^ sh) by lia. assert (0 < 2 ^ (32 - sh)) by lia.
  assert (2 ^ 32 = 2 ^ (32 - sh) * 2 ^ sh) as Hq by (rewrite <- Z.pow_add_r by lia; f_equal; lia).
  assert (0 ≤ b / 2 ^ sh < 2 ^ (32 - sh)) as Hd.
  { split; [apply Z.div_pos; lia|apply Z.div_lt_upper_bound; lia]. }
  assert (2 ^ (32 - sh) ≤ 2 ^ 32) by (apply Z.pow_le_mono_r; lia).
  destruct (Z.ltb_spec b (2 ^ 31)); [by split; [left|]|].
  rewrite Hq at 1. rewrite <- Z.add_opp_r, <- Z.mul_opp_l, Z.div_add by lia.
  rewrite (u32_id (b / _)) by (unfold is_u32; lia).
  replace (b / 2 ^ sh + - 2 ^ (32 - sh)) with (b / 2 ^ sh - 2 ^ (32 - sh) + 2 ^ 32 + (-1) * 2 ^ 32) by lia.
  unfold u32. rewrite Z.mod_add, Z.mod_small by lia. split.
  - intros. right. assert (2 ^ (32 - sh) = 2 ^ 32) as Hp by lia.
    apply Z.pow_inj_r in Hp; lia.
  - intros [?| ->]; [lia|]. change (32 - 0) with 32. lia.
Qed.

Lemma slt_agree a b :
  is_u32 a → is_u32 b →
  u32 (if a <? b then 1 else 0) = u32 (if s32 a <? s32 b then 1 else 0) ↔
  (a <? 2 ^ 31) = (b <? 2 ^ 31).
Proof.
  intros Ha Hb. rewrite !s32_cases by done. unfold is_u32 in *.
  destruct (Z.ltb_spec a (2 ^ 31)), (Z.ltb_spec b (2 ^ 31));
    match goal with |- context [if ?x <? ?y then _ else _] => destruct (Z.ltb_spec x y) end;
    match goal with |- context [if ?x <? ?y then _ else _] => destruct (Z.ltb_spec x y) | _ => idtac end;
    done || lia.
Qed.

(** What the cases of [deviates] compute instead: OR ignores its second operand,
    SLT and SLTI compare unsigned, SRA and SRAV shift in zeros, SRL and SRLV
    shift in the sign. *)
Definition simulated (op : OpCode) (a b extra : Z) : option Z :=
  match op with
  | OP_OR => Some (Z.lor a a)
  | OP_SLT => Some (if a <? b then 1 else 0)
  | OP_SLTI => Some (if a <? extra then 1 else 0)
  | OP_SRA => Some (b / 2 ^ extra)
  | OP_SRAV => Some (b / 2 ^ (a mod 32))
  | OP_SRL => Some (s32 b / 2 ^ extra)
  | OP_SRLV => Some (s32 b / 2 ^ (a mod 32))
  | _ => None
  end.

(** The operands for which that is the architecture's result: the second operand
    of OR has no bit that the first one has not, those of SLT and SLTI have the
    same sign, what is shifted right is not negative or is shifted by 0. *)
Definition agrees (op : OpCode) (a b extra : Z) : Prop :=
  match op with
  | OP_OR => Z.lor a b = a
  | OP_SLT => (a <? 2 ^ 31) = (b <? 2 ^ 31)
  | OP_SLTI => (a <? 2 ^ 31) = (extra <? 2 ^ 31)
  | OP_SRA | OP_SRL => b < 2 ^ 31 ∨ extra = 0
  | OP_SRAV | OP_SRLV => b < 2 ^ 31 ∨ a mod 32 = 0
  | _ => True
  end.

(** The shift amount of SRA and SRL has five bits, as [Decode] makes it. *)
Definition five_bits (i : Instruction) : Prop := opCode i = OP_SRA ∨ opCode i = OP_SRL → extra i < 32.

Definition dest (i : Instruction) : Z := match opCode i with OP_SLTI => rt i | _ => rd i end.

Lemma deviation_runs HOST_IS_BIG_ENDIAN m i pc v :
  wfm m → wf_instr i → simulated (opCode i) (reg m (rs i)) (reg m (rt i)) (extra i) = Some v →
  execute HOST_IS_BIG_ENDIAN m i pc = Ok (Break (put_reg m (dest i) v) 0 0 pc).
Proof.
  intros Hw (Hrs & Hrt & Hrd & Hex & _) Hv. pose proof Hw as [Hr _]. unfold is_u32 in Hex.
  assert (∀ x, Z.land x 0x1f = x mod 32) as H31 by (intros; change 0x1f with (Z.ones 5); by rewrite Z.land_ones).
  apply execute_part. unfold exec_add_bne, exec_lb_lw, exec_mfhi_sltu, exec_sra_sw, exec_swl_unimp, dest.
  destruct (opCode i); try discriminate Hv; injection Hv as <-;
    repeat match goal with |- None = Some _ ∨ _ => right | |- Some _ = Some _ ∨ _ => left end; f_equal;
    rewrite ?rget_ok by (done || reg_range); run_ok;
    rewrite ?H31, ?Z.shiftr_div_pow2 by (try apply Z.mod_pos_bound; lia); by rewrite rset_next.
Qed.

Lemma deviation_agrees op a b extra v r :
  is_u32 a → is_u32 b → is_u32 extra → (op = OP_SRA ∨ op = OP_SRL → extra < 32) →
  simulated op a b extra = Some v → mips_rr op a b extra = Some r ∨ mips_ri op a extra = Some r →
  ∃ w, r = Val w ∧ (u32 v = u32 w ↔ agrees op a b extra).
Proof.
  intros Ha Hb Hx Hsh Hv Hr. pose proof (Z.mod_pos_bound a 32 ltac:(lia)).
  assert (0 ≤ extra) by (unfold is_u32 in Hx; lia).
  destruct op; try discriminate Hv; destruct Hr as [Hr|Hr]; try discriminate Hr; injection Hv as <-; injection Hr as <-;
    eexists; (split; [reflexivity|]); unfold agrees;
    try specialize (Hsh ltac:(auto)).
  - rewrite Z.lor_diag, !u32_id by auto using is_u32_lor. by split.
  - by apply slt_agree.
  - by apply slt_agree.
  - rewrite <- shift_agree by (done || lia). by split.
  - rewrite <- shift_agree by (done || lia). by split.
  - rewrite <- shift_agree by (done || lia). by split.
  - rewrite <- shift_agree by (done || lia). by split.
Qed.

Lemma alu_iff HOST_IS_BIG_ENDIAN m i pc r :
  wfm m → wf_instr i → five_bits i →
  let a := reg m (rs i) in
  let b := reg m (rt i) in
  (mips_rr (opCode i) a b (extra i) = Some r →
   execute HOST_IS_BIG_ENDIAN m i pc = Ok (alu_outcome m (rd i) pc r) ↔ agrees (opCode i) a b (extra i)) ∧
  (mips_ri (opCode i) a (extra i) = Some r →
   execute HOST_IS_BIG_ENDIAN m i pc = Ok (alu_outcome m (rt i) pc r) ↔ agrees (opCode i) a b (extra i)).
Proof.
  intros Hw Hi H5 a b. pose proof Hw as [Hr _]. pose proof Hi as (Hrs & Hrt & Hrd & Hex & _).
  destruct (simulated (opCode i) a b (extra i)) as [v|] eqn:Ev.
  - pose proof (deviation_runs HOST_IS_BIG_ENDIAN m i pc v Hw Hi Ev) as ->.
    assert (∀ d w, 0 ≤ d < 32 → d = dest i → (u32 v = u32 w ↔ agrees (opCode i) a b (extra i)) →
      Ok (Break (put_reg m (dest i) v) 0 0 pc) = Ok (alu_outcome m d pc (Val w)) ↔ agrees (opCode i) a b (extra i)) as Hput.
    { intros d w Hd -> <-. simpl. rewrite <- (put_reg_inj m (dest i)) by (done || reg_range). split; [congruence|intros H; by rewrite H]. }
    assert (is_u32 a ∧ is_u32 b) as [Ha Hb] by (split; by apply reg_u32).
    split; intros Hm; (destruct (deviation_agrees (opCode i) a b (extra i) v r Ha Hb Hex H5 Ev) as (w & -> & Hag); [by auto|]);
      apply Hput; try done; unfold dest; by destruct (opCode i).
  - assert (deviates (opCode i) = false) as Hd by (by destruct (opCode i)).
    assert (agrees (opCode i) a b (extra i)) as Hag by (by destruct (opCode i)).
    destruct (alu_ok HOST_IS_BIG_ENDIAN m i pc r Hw Hi Hd) as [H1 H2]. split; intros Hm; split; auto.
Qed.

(** C25: what the register and immediate instructions compute, and when it is what
    the architecture says.  For every one of them the case in the switch writes
    the architecture's result to the destination register, and ADD, ADDI and SUB
    trap exactly when the signed result does not fit in 32 bits, leaving the
    destination alone, if and only if the operands are those of [agrees]: always,
    except for OR (only if the second operand adds no bit), SLT and SLTI (only
    for operands of the same sign), SRA, SRAV, SRL and SRLV (only for an operand
    that is not negative, or a shift by 0). *)
Theorem alu_correct HOST_IS_BIG_ENDIAN m i pc r :
  wfm m → wf_instr i → five_bits i →
  let a := reg m (rs i) in
  let b := reg m (rt i) in
  (mips_rr (opCode i) a b (extra i) = Some r →
   execute HOST_IS_BIG_ENDIAN m i pc = Ok (alu_outcome m (rd i) pc r) ↔ agrees (opCode i) a b (extra i)) ∧
  (mips_ri (opCode i) a (extra i) = Some r →
   execute HOST_IS_BIG_ENDIAN m i pc = Ok (alu_outcome m (rt i) pc r) ↔ agrees (opCode i) a b (extra i)).
Proof. apply alu_iff. Qed.

(** ADD traps for 0x7fffffff and 1; SLT of -1 and 0 is wrong. *)
Lemma alu_correct_witness :
  (let i := mkInstruction 0x00853020 OP_ADD 4 5 6 0 in
   execute true (boot 0 0x7fffffff 1) i 8 = Ok (Return OverflowException (raised (boot 0 0x7fffffff 1) 0))) ∧
  (let i := mkInstruction 0x0085302a OP_SLT 4 5 6 0 in
   execute true (boot 0 0xffffffff 0) i 8 = Ok (alu_outcome (boot 0 0xffffffff 0) 6 8 (Val 1)) ↔
   (0xffffffff <? 2 ^ 31) = (0 <? 2 ^ 31)).
Proof.
  split; intros i.
  - refine (proj2 (proj1 (alu_correct true _ i 8 Overflow (boot_wfm _ _ _) _ _) _) I).
    + unfold wf_instr, is_u32. simpl. split_and!; done || lia.
    + by intros [?|?].
    + vm_compute. reflexivity.
  - refine (proj1 (alu_correct true _ i 8 (Val 1) (boot_wfm _ _ _) _ _) _).
    + unfold wf_instr, is_u32. simpl. split_and!; done || lia.
    + by intros [?|?].
    + vm_compute. reflexivity.
Defined.

(** The branches that compare unsigned: BGTZ is taken for every non-zero
    register, BLEZ for zero only. *)
Theorem branch_deviations HOST_IS_BIG_ENDIAN m i pc :
  wfm m → wf_instr i →
  let a := reg m (rs i) in
  match opCode i with
  | OP_BGTZ => execute HOST_IS_BIG_ENDIAN m i pc = branch_if (negb (a =? 0)) m i pc
  | OP_BLEZ => execute HOST_IS_BIG_ENDIAN m i pc = branch_if (a =? 0) m i pc
  | _ => True
  end.
Proof.
  intros Hw (Hrs & _) a. pose proof Hw as [Hr _]. assert (is_u32 a) as Ha by (by apply reg_u32).
  destruct (opCode i) eqn:Eo; try done;
    (erewrite execute_part; [|left; unfold exec_add_bne; rewrite Eo, rget_ok by (done || reg_range); reflexivity]);
    run_ok; f_equal; fold a; unfold is_u32 in Ha.
  - destruct (Z.gtb_spec a 0), (Z.eqb_spec a 0); done || lia.
  - destruct (Z.leb_spec a 0), (Z.eqb_spec a 0); done || lia.
Qed.
End Mips.
