(* ===== verification/Execute.v ===== *)
(** * The interpreter of MIPS programs: bin/execute.c, bin/system.c

    A second simulator of the processor, a C program that runs object files of
    MIPS systems on a host.  Its registers are [int]s; memory is an array of
    2^24 bytes at address 0x10000000 of the program; loads have no delay slot,
    branches have one.  A round of the loop of [runprogram] is a function of the
    state.  It goes on, exits with a status, or does what C gives no meaning to:
    an access outside the array, a shift by 32 or more, a division by zero.
    Signed arithmetic wraps around, and [>>] of a negative number copies the
    sign.  The traces that it can print are not modelled. *)

From stdpp Require Import base list gmap.
From S2P Require Import Prelude Machine Bytes Mips.

Module Execute.
Import Bytes.

(** ** int.h *)

Definition MEMSIZE : Z := Z.shiftl 1 24.
Definition memoffset : Z := 0x10000000.

(** ** instr.h *)

Definition rd (i : Z) : Z := Z.land (Z.shiftr i 11) 0x1f.
Definition rt (i : Z) : Z := Z.land (Z.shiftr i 16) 0x1f.
Definition rs (i : Z) : Z := Z.land (Z.shiftr i 21) 0x1f.
Definition shamt (i : Z) : Z := Z.land (Z.shiftr i 6) 0x1f.
Definition immed (i : Z) : Z := if negb (Z.land i 0x8000 =? 0) then Z.lor i (-0x8000) else Z.land i 0x7fff.
Definition off26 (i : Z) : Z := Z.shiftl (Z.land i (Z.shiftl 1 26 - 1)) 2.
Definition top4 (i : Z) : Z := Z.land i (Z.lnot (Z.shiftl 1 28 - 1)).
Definition off16 (i : Z) : Z := s32 (Z.shiftl (immed i) 2).

(** ** encode.h *)

Definition I_SPECIAL : Z := 0x00.
Definition I_BCOND : Z := 0x01.
Definition I_J : Z := 0x02.
Definition I_JAL : Z := 0x03.
Definition I_BEQ : Z := 0x04.
Definition I_BNE : Z := 0x05.
Definition I_BLEZ : Z := 0x06.
Definition I_BGTZ : Z := 0x07.
Definition I_ADDI : Z := 0x08.
Definition I_ADDIU : Z := 0x09.
Definition I_SLTI : Z := 0x0a.
Definition I_SLTIU : Z := 0x0b.
Definition I_ANDI : Z := 0x0c.
Definition I_ORI : Z := 0x0d.
Definition I_XORI : Z := 0x0e.
Definition I_LUI : Z := 0x0f.
Definition I_COP0 : Z := 0x10.
Definition I_COP1 : Z := 0x11.
Definition I_COP2 : Z := 0x12.
Definition I_COP3 : Z := 0x13.
Definition I_LB : Z := 0x20.
Definition I_LH : Z := 0x21.
Definition I_LWL : Z := 0x22.
Definition I_LW : Z := 0x23.
Definition I_LBU : Z := 0x24.
Definition I_LHU : Z := 0x25.
Definition I_LWR : Z := 0x26.
Definition I_SB : Z := 0x28.
Definition I_SH : Z := 0x29.
Definition I_SWL : Z := 0x2a.
Definition I_SW : Z := 0x2b.
Definition I_SWR : Z := 0x2e.
Definition I_LWC0 : Z := 0x30.
Definition I_LWC1 : Z := 0x31.
Definition I_LWC2 : Z := 0x32.
Definition I_LWC3 : Z := 0x33.
Definition I_SWC0 : Z := 0x38.
Definition I_SWC1 : Z := 0x39.
Definition I_SWC2 : Z := 0x3a.
Definition I_SWC3 : Z := 0x3b.

Definition I_SLL : Z := 0x00.
Definition I_SRL : Z := 0x02.
Definition I_SRA : Z := 0x03.
Definition I_SLLV : Z := 0x04.
Definition I_SRLV : Z := 0x06.
Definition I_SRAV : Z := 0x07.
Definition I_JR : Z := 0x08.
Definition I_JALR : Z := 0x09.
Definition I_SYSCALL : Z := 0x0c.
Definition I_BREAK : Z := 0x0d.
Definition I_MFHI : Z := 0x10.
Definition I_MTHI : Z := 0x11.
Definition I_MFLO : Z := 0x12.
Definition I_MTLO : Z := 0x13.
Definition I_MULT : Z := 0x18.
Definition I_MULTU : Z := 0x19.
Definition I_DIV : Z := 0x1a.
Definition I_DIVU : Z := 0x1b.
Definition I_ADD : Z := 0x20.
Definition I_ADDU : Z := 0x21.
Definition I_SUB : Z := 0x22.
Definition I_SUBU : Z := 0x23.
Definition I_AND : Z := 0x24.
Definition I_OR : Z := 0x25.
Definition I_XOR : Z := 0x26.
Definition I_NOR : Z := 0x27.
Definition I_SLT : Z := 0x2a.
Definition I_SLTU : Z := 0x2b.

Definition I_BLTZ : Z := 0x00.
Definition I_BGEZ : Z := 0x01.
Definition I_BLTZAL : Z := 0x10.
Definition I_BGEZAL : Z := 0x11.

Definition I_NOP : Z := 0x00.

(** ** The state *)

(** [mem] holds the bytes that are not 0 or were written; [pc] and [npc] are
    variables of [runprogram]. *)
Record state := mkState {
  Reg : list Z;
  HI : Z;
  LO : Z;
  mem : gmap Z Z;
  pc : Z;
  npc : Z;
}.

Definition set_Reg (s : state) (x : list Z) : state := mkState x (HI s) (LO s) (mem s) (pc s) (npc s).
Definition set_HILO (s : state) (hi lo : Z) : state := mkState (Reg s) hi lo (mem s) (pc s) (npc s).
Definition set_mem (s : state) (x : gmap Z Z) : state := mkState (Reg s) (HI s) (LO s) x (pc s) (npc s).
Definition set_pc (s : state) (x y : Z) : state := mkState (Reg s) (HI s) (LO s) (mem s) x y.
Definition set_npc (s : state) (x : Z) : state := set_pc s (pc s) x.

(** [Reg[n]], for a field of five bits or a constant. *)
Definition reg (s : state) (n : Z) : Z := nth (Z.to_nat n) (Reg s) 0.
Definition put (s : state) (n v : Z) : state := set_Reg s (<[Z.to_nat n := s32 v]> (Reg s)).

Inductive run (A : Type) := Goes (a : A) | Exits (status : Z) | Undefined.
Arguments Goes {A} a.
Arguments Exits {A} status.
Arguments Undefined {A}.

#[global] Instance run_bind : MBind run :=
  λ A B f m, match m with Goes a => f a | Exits n => Exits n | Undefined => Undefined end.

(** [switch (v)] with [case]s that all [break]. *)
Definition switch {A} (v : Z) (cases : list (Z * A)) (default : A) : A :=
  match find (λ c, v =? c.1) cases with Some (_, a) => a | None => default end.

(** A shift by [n]. *)
Definition shift_by {A} (n : Z) (a : run A) : run A := if (0 <=? n) && (n <? 32) then a else Undefined.

(** What a program asks of UNIX in a system call. *)
Inductive call :=
  | CRead (fd addr n : Z) | CWrite (fd addr n : Z) | COpen (name flags mode : Z) | CLseek (fd offset whence : Z)
  | CIoctl (fd request addr : Z) | CFstat (fd buf : Z) | CGetpagesize.

(** The numbers that <syscall.h> of the host gives to its system calls. *)
Record syscall_h := mkSyscalls {
  SYS_exit : Z;
  SYS_read : Z;
  SYS_write : Z;
  SYS_open : Z;
  SYS_close : Z;
  SYS_lseek : Z;
  SYS_ioctl : Z;
  SYS_fstat : Z;
  SYS_getpagesize : Z;
}.

Section interpreter.
(** The byte order of the host, its <syscall.h>, and what UNIX answers to a call
    and does to memory. *)
Context (HOST_IS_BIG_ENDIAN : bool) (sys : syscall_h).
Context (unix : call → gmap Z Z → Z * gmap Z Z).

(** ** Memory *)

(** [&(mem-memoffset)[addr]], for an access of [n] bytes. *)
Definition at_mem (addr n : Z) : run Z :=
  let k := addr - memoffset in
  if (0 <=? k) && (k + n <=? MEMSIZE) then Goes k else Undefined.

Definition byte_at (m : gmap Z Z) (k : Z) : Z := default 0 (m !! k).
Definition bytes_at (m : gmap Z Z) (k : Z) (n : nat) : list Z := (λ i, byte_at m (k + Z.of_nat i)) <$> seq 0 n.
Fixpoint set_bytes (m : gmap Z Z) (k : Z) (bs : list Z) : gmap Z Z :=
  match bs with [] => m | b :: bs => set_bytes (<[k := b]> m) (k + 1) bs end.

(** The [n] bytes at [addr] as an unsigned number. *)
Definition unsigned_at (s : state) (addr n : Z) : run Z :=
  k ← at_mem addr n;
  Goes (Machine.le_combine (Machine.host_order HOST_IS_BIG_ENDIAN (bytes_at (mem s) k (Z.to_nat n)))).
Definition store_at (s : state) (addr n v : Z) : run state :=
  k ← at_mem addr n;
  Goes (set_mem s (set_bytes (mem s) k
    (Machine.host_order HOST_IS_BIG_ENDIAN (Machine.le_split (Z.to_nat n) (v mod 2 ^ (8 * n)))))).

Definition sign_extend (bits v : Z) : Z := if v <? 2 ^ (bits - 1) then v else v - 2 ^ bits.

Definition ifetch (s : state) (addr : Z) : run Z := v ← unsigned_at s addr 4; Goes (s32 v).
Definition fetch (s : state) (addr : Z) : run Z := v ← unsigned_at s addr 4; Goes (s32 v).
Definition sfetch (s : state) (addr : Z) : run Z := v ← unsigned_at s addr 2; Goes (sign_extend 16 v).
Definition usfetch (s : state) (addr : Z) : run Z := unsigned_at s addr 2.
Definition cfetch (s : state) (addr : Z) : run Z := v ← unsigned_at s addr 1; Goes (sign_extend 8 v).
Definition ucfetch (s : state) (addr : Z) : run Z := unsigned_at s addr 1.
Definition store (s : state) (addr i : Z) : run state := store_at s addr 4 i.
Definition sstore (s : state) (addr i : Z) : run state := store_at s addr 2 i.
Definition cstore (s : state) (addr i : Z) : run state := store_at s addr 1 i.

(** ** system.c *)

Definition u_to_int_fd (fd : Z) : Z := fd.

Definition system_trap (s : state) : run state :=
  let syscallno := reg s 2 in
  let o0 := reg s 4 in
  let o1 := reg s 5 in
  let o2 := reg s 6 in
  let ask c := let '(answer, m) := unix c (mem s) in Goes (put (set_mem s m) 1 answer) in
  switch syscallno [
    (SYS_exit sys, Exits 0);
    (SYS_read sys, ask (CRead (u_to_int_fd o0) o1 o2));
    (SYS_write sys, ask (CWrite (u_to_int_fd o0) o1 o2));
    (SYS_open sys, ask (COpen o0 o1 o2));
    (SYS_close sys, Goes (put s 1 0));
    (17, Goes (put s 1 ((Z.quot o0 8192 + 1) * 8192)));
    (SYS_lseek sys, ask (CLseek (u_to_int_fd o0) o1 o2));
    (SYS_ioctl sys,
      let size := Z.land (Z.shiftr o1 16) 0x7f in
      let ioctl_group := sign_extend 8 (Z.land (Z.shiftr o1 8) 0x00ff) in
      let o1 := if (ioctl_group =? 116) && (size =? 8)
                then Z.lor (Z.land o1 (Z.lnot (Z.shiftl 0x7f 16))) (Z.shiftl 6 16) else o1 in
      s ← ask (CIoctl (u_to_int_fd o0) o1 o2);
      Goes (put s 1 0));
    (SYS_fstat sys, ask (CFstat o1 o2));
    (SYS_getpagesize sys, ask CGetpagesize)
  ] (Exits 2).

Definition system_break (s : state) : run state := system_trap s.

(** ** [runprogram] *)

(** [u()]: unimplemented. *)
Definition u : run state := Exits 2.

(** The first halfword products of MULT and MULTU. *)
Definition high_word (t1 t2 : Z) : Z :=
  let t1l := Z.land t1 0xffff in
  let t1h := Z.land (Z.shiftr t1 16) 0xffff in
  let t2l := Z.land t2 0xffff in
  let t2h := Z.land (Z.shiftr t2 16) 0xffff in
  s32 (s32 (t1h * t2h) + Z.shiftr (s32 (t1h * t2l)) 16 + Z.shiftr (s32 (t2h * t1l)) 16).

Definition MULT (s : state) (t1 t2 : Z) : state :=
  let neg := false in
  let '(t1, neg) := if t1 <? 0 then (s32 (- t1), negb neg) else (t1, neg) in
  let '(t2, neg) := if t2 <? 0 then (s32 (- t2), negb neg) else (t2, neg) in
  let lo := s32 (t1 * t2) in
  let hi := high_word t1 t2 in
  if neg then
    let lo := Z.lnot lo in
    let hi := Z.lnot hi in
    let lo := s32 (lo + 1) in
    set_HILO s (if lo =? 0 then s32 (hi + 1) else hi) lo
  else set_HILO s hi lo.

(** The cases of I_SPECIAL. *)
Definition special (s : state) (xpc instr : Z) : run state :=
  let r := reg s in
  let rs := rs instr in
  let rt := rt instr in
  let rd := rd instr in
  let shamt := shamt instr in
  switch (Z.land instr 0x3f) [
    (I_SLL, Goes (put s rd (Z.shiftl (r rt) shamt)));
    (I_SRL, Goes (put s rd (Z.shiftr (u32 (r rt)) shamt)));
    (I_SRA, Goes (put s rd (Z.shiftr (r rt) shamt)));
    (I_SLLV, shift_by (r rs) (Goes (put s rd (Z.shiftl (r rt) (r rs)))));
    (I_SRLV, shift_by (r rs) (Goes (put s rd (Z.shiftr (u32 (r rt)) (r rs)))));
    (I_SRAV, shift_by (r rs) (Goes (put s rd (Z.shiftr (r rt) (r rs)))));
    (I_JR, Goes (set_npc s (r rs)));
    (I_JALR, Goes (put (set_npc s (r rs)) rd (xpc + 8)));
    (I_SYSCALL, system_trap s);
    (I_BREAK, system_break s);
    (I_MFHI, Goes (put s rd (HI s)));
    (I_MTHI, Goes (set_HILO s (r rs) (LO s)));
    (I_MFLO, Goes (put s rd (LO s)));
    (I_MTLO, Goes (set_HILO s (HI s) (r rs)));
    (I_MULT, Goes (MULT s (r rs) (r rt)));
    (I_MULTU, Goes (set_HILO s (high_word (r rs) (r rt)) (s32 (r rs * r rt))));
    (I_DIV, if (r rt =? 0) || ((r rs =? - 2 ^ 31) && (r rt =? -1)) then Undefined
            else Goes (set_HILO s (Z.rem (r rs) (r rt)) (Z.quot (r rs) (r rt))));
    (I_DIVU, if r rt =? 0 then Undefined
             else Goes (set_HILO s (s32 (u32 (r rs) mod u32 (r rt))) (s32 (u32 (r rs) / u32 (r rt)))));
    (I_ADD, Goes (put s rd (r rs + r rt)));
    (I_ADDU, Goes (put s rd (r rs + r rt)));
    (I_SUB, Goes (put s rd (r rs - r rt)));
    (I_SUBU, Goes (put s rd (r rs - r rt)));
    (I_AND, Goes (put s rd (Z.land (r rs) (r rt))));
    (I_OR, Goes (put s rd (Z.lor (r rs) (r rt))));
    (I_XOR, Goes (put s rd (Z.lxor (r rs) (r rt))));
    (I_NOR, Goes (put s rd (Z.lnot (Z.lor (r rs) (r rt)))));
    (I_SLT, Goes (put s rd (if r rs <? r rt then 1 else 0)));
    (I_SLTU, Goes (put s rd (if u32 (r rs) <? u32 (r rt) then 1 else 0)))
  ] u.

(** [if (taken) npc = xpc + 4 + (immed(instr)<<2)]. *)
Definition branch (s : state) (xpc instr : Z) (taken : bool) : run state :=
  Goes (if taken then set_npc s (s32 (xpc + 4 + s32 (Z.shiftl (immed instr) 2))) else s).

(** The cases of I_BCOND. *)
Definition bcond (s : state) (xpc instr : Z) : run state :=
  let link := put s 31 (xpc + 8) in
  switch (rt instr) [
    (I_BLTZ, branch s xpc instr (reg s (rs instr) <? 0));
    (I_BGEZ, branch s xpc instr (0 <=? reg s (rs instr)));
    (I_BLTZAL, branch link xpc instr (reg link (rs instr) <? 0));
    (I_BGEZAL, branch link xpc instr (0 <=? reg link (rs instr)))
  ] u.

(** [(xpc & 0xf0000000) | ((instr & 0x03ffffff) << 2)], converted to [int]. *)
Definition target (xpc instr : Z) : Z :=
  s32 (Z.lor (Z.land (u32 xpc) 0xf0000000) (Z.shiftl (Z.land instr 0x03ffffff) 2)).

(** The two loads of part of a word. *)
Definition LWL (s : state) (rt i : Z) : run state :=
  let s := put s rt (Z.land (reg s rt) (Z.shiftr (-1) (8 * Z.land (- i) 0x03))) in
  w ← fetch s (s32 (Z.land (u32 i) 0xfffffffc));
  Goes (put s rt (Z.lor (reg s rt) (s32 (Z.shiftl w (8 * Z.land i 0x03))))).
Definition LWR (s : state) (rt i : Z) : run state :=
  let s := put s rt (Z.land (reg s rt) (Z.shiftl (-1) (8 * Z.land i 0x03))) in
  let s := if Z.land i 0x03 =? 0 then put s rt 0 else s in
  w ← fetch s (s32 (Z.land (u32 i) 0xfffffffc));
  Goes (put s rt (Z.lor (reg s rt) (Z.shiftr w (8 * Z.land (- i) 0x03)))).

(** The outer switch. *)
Definition execute (s : state) (xpc instr : Z) : run state :=
  let r := reg s in
  let rs := rs instr in
  let rt := rt instr in
  let imm := immed instr in
  let addr := s32 (r rs + imm) in
  let load f := v ← f s addr; Goes (put s rt v) in
  switch (Z.land (Z.shiftr instr 26) 0x3f) ([
    (I_SPECIAL, special s xpc instr);
    (I_BCOND, bcond s xpc instr);
    (I_J, Goes (set_npc s (target xpc instr)));
    (I_JAL, Goes (set_npc (put s 31 (xpc + 8)) (target xpc instr)));
    (I_BEQ, branch s xpc instr (r rs =? r rt));
    (I_BNE, branch s xpc instr (negb (r rs =? r rt)));
    (I_BLEZ, branch s xpc instr (r rs <=? 0));
    (I_BGTZ, branch s xpc instr (r rs >? 0));
    (I_ADDI, Goes (put s rt (r rs + imm)));
    (I_ADDIU, Goes (put s rt (r rs + imm)));
    (I_SLTI, Goes (put s rt (if r rs <? imm then 1 else 0)));
    (I_SLTIU, Goes (put s rt (if u32 (r rs) <? u32 imm then 1 else 0)));
    (I_ANDI, Goes (put s rt (Z.land (r rs) imm)));
    (I_ORI, Goes (put s rt (Z.lor (r rs) imm)));
    (I_XORI, Goes (put s rt (Z.lxor (r rs) imm)));
    (I_LUI, Goes (put s rt (Z.shiftl instr 16)));
    (I_LB, load cfetch);
    (I_LH, load sfetch);
    (I_LWL, LWL s rt addr);
    (I_LW, load fetch);
    (I_LBU, load ucfetch);
    (I_LHU, load usfetch);
    (I_LWR, LWR s rt addr);
    (I_SB, cstore s addr (r rt));
    (I_SH, sstore s addr (r rt));
    (I_SWL, u);
    (I_SW, store s addr (r rt));
    (I_SWR, u)
  ] ++ ((λ c, (c, Exits 2)) <$> [I_LWC0; I_LWC1; I_LWC2; I_LWC3; I_SWC0; I_SWC1; I_SWC2; I_SWC3; I_COP0; I_COP1; I_COP2; I_COP3])) u.

(** One round of the loop. *)
Definition step (s : state) : run state :=
  let xpc := pc s in
  let s := set_pc s (npc s) (s32 (npc s + 4)) in
  instr ← ifetch s xpc;
  let s := put s 0 0 in
  if negb (instr =? 0) then execute s xpc instr else Goes s.

(** [strcpy((mem-memoffset)+ai, arg)], with the zero at the end. *)
Definition strcpy (s : state) (ai : Z) (arg : list Z) : run state :=
  k ← at_mem ai (Z.of_nat (length arg) + 1);
  Goes (set_mem s (set_bytes (mem s) k (arg ++ [0]))).

Fixpoint arguments (s : state) (aci ai : Z) (argv : list (list Z)) : run state :=
  match argv with
  | [] => Goes s
  | arg :: argv =>
    s ← strcpy s ai arg;
    s ← store s aci ai;
    arguments s (s32 (aci + 4)) (s32 (ai + Z.of_nat (length arg) + 1)) argv
  end.

Definition initial_sp : Z := MEMSIZE - 1024 + memoffset.

(** The statements of [runprogram] before the loop. *)
Definition start (s : state) (startpc : Z) (argv : list (list Z)) : run state :=
  let s := set_pc s startpc (s32 (startpc + 4)) in
  let i := initial_sp in
  let s := put s 29 i in
  s ← store s i (Z.of_nat (length argv));
  let aci := i + 4 in
  let ai := aci + 32 in
  arguments s aci ai argv.

(** [n] rounds. *)
Fixpoint steps (n : nat) (s : state) : run state :=
  match n with O => Goes s | S n => s ← step s; steps n s end.
End interpreter.

(** ** [ilog2] *)

Definition ilog2_round (mask k : Z) (il : Z * Z) : Z * Z :=
  let '(i, l) := il in
  let j := s32 (Z.land (u32 i) mask) in
  if negb (j =? 0) then (j, l + k) else (i, l).

Definition ilog2 (i : Z) : Z :=
  if i =? 0 then 0
  else
    let il := ilog2_round 0xffff0000 16 (i, 1) in
    let il := ilog2_round 0xff00ff00 8 il in
    let il := ilog2_round 0xf0f0f0f0 4 il in
    let il := ilog2_round 0xcccccccc 2 il in
    let il := ilog2_round 0xaaaaaaaa 1 il in
    il.2.

(** ** Types *)

(** A C object of the interpreter holds values of its type. *)
Definition mem_ok (m : gmap Z Z) : Prop := map_Forall (λ k b, 0 ≤ k < MEMSIZE ∧ Machine.is_byte b) m.

Record typed (s : state) : Prop := mkTyped {
  t_length : length (Reg s) = 32%nat;
  t_regs : Forall is_s32 (Reg s);
  t_hi : is_s32 (HI s);
  t_lo : is_s32 (LO s);
  t_mem : mem_ok (mem s);
  t_pc : is_s32 (pc s);
  t_npc : is_s32 (npc s);
}.

Lemma reg_s32 s n : typed s → is_s32 (reg s n).
Proof.
  intros [_ Hr _ _ _ _ _]. unfold reg. destruct (nth_in_or_default (Z.to_nat n) (Reg s) 0) as [Hin| ->]; [|unfold is_s32; lia].
  eapply Forall_forall; [exact Hr|]. by apply list_elem_of_In.
Qed.

Lemma typed_put s n v : typed s → typed (put s n v).
Proof.
  intros [H1 H2 H3 H4 H5 H6 H7]. split; simpl; try done; [by rewrite length_insert|]. apply Forall_insert; [done|apply s32_range].
Qed.

Lemma at_mem_spec addr n :
  at_mem addr n = if (0 <=? addr - memoffset) && (addr - memoffset + n <=? MEMSIZE) then Goes (addr - memoffset) else Undefined.
Proof. done. Qed.
End Execute.
