(* ===== verification/Interpreters.v ===== *)
(** * The two simulators of the processor compared

    bin/execute.c against the instruction set of the MIPS and against
    machine/mipssim.cc: decoding, arithmetic, multiplication, branches, and the
    arguments that a program finds on its stack. *)

From stdpp Require Import base list gmap.
From S2P Require Import Prelude Machine Bytes Mips Execute.

Module Interpreters.
Import Bytes Execute.

(** ** Decoding *)

(** A field does not depend on whether the word is read as signed. *)
Lemma field_u32 w k n : 0 ≤ k → 0 ≤ n → k + n ≤ 32 →
  Z.land (Z.shiftr (u32 w) k) (Z.ones n) = Z.land (Z.shiftr w k) (Z.ones n).
Proof.
  intros Hk Hn H. apply Z.bits_inj'. intros i Hi. rewrite !Z.land_spec, !Z.shiftr_spec, u32_testbit by lia.
  rewrite Z.testbit_ones_nonneg by lia. destruct (Z.ltb_spec i n), (Z.ltb_spec (i + k) 32); simpl; try lia; by rewrite ?andb_false_r.
Qed.

Lemma low_u32 w n : 0 ≤ n ≤ 32 → Z.land (u32 w) (Z.ones n) = Z.land w (Z.ones n).
Proof. intros Hn. pose proof (field_u32 w 0 n) as H. rewrite !Z.shiftr_0_r in H. apply H; lia. Qed.

(** The number that follows from the opcode: the first six bits, and the last
    six of a special instruction or the field rt of a conditional branch. *)
Definition index_of (op : Mips.OpCode) (l : list Mips.OpCode) : option Z :=
  (λ x, Z.of_nat x.1) <$> list_find (λ o, o = op) l.
Definition code_of (op : Mips.OpCode) : option (Z * Z) :=
  match op with
  | Mips.OP_RES | Mips.OP_UNIMP | Mips.SPECIAL | Mips.BCOND => None
  | Mips.OP_BLTZ => Some (1, 0) | Mips.OP_BGEZ => Some (1, 1) | Mips.OP_BLTZAL => Some (1, 16) | Mips.OP_BGEZAL => Some (1, 17)
  | op => match index_of op Mips.specialTable with
          | Some f => Some (0, f)
          | None => (λ k, (k, 0)) <$> index_of op Mips.opTable.*1
          end
  end.

(** Is [k] the number of [op], or is [op] none of the instructions? *)
Definition code_is (k f : Z) (op : Mips.OpCode) : bool :=
  match code_of op with None => true | Some c => bool_decide (c = (k, f)) end.

Lemma opTable_codes k op fmt :
  aget Mips.opTable k = Ok (op, fmt) → op ≠ Mips.SPECIAL → op ≠ Mips.BCOND → code_is k 0 op = true.
Proof.
  intros Hg H1 H2. assert (0 ≤ k < 64) as Hk by (by destruct (aget_Ok_inv _ _ _ Hg)).
  assert (∀ n : nat, (n < 64)%nat → match Mips.opTable !! n with
            | Some (o, _) => bool_decide (o = Mips.SPECIAL) || bool_decide (o = Mips.BCOND) || code_is (Z.of_nat n) 0 o
            | None => false end = true) as HT.
  { intros n Hn. do 64 (destruct n as [|n]; [vm_compute; reflexivity|]). lia. }
  specialize (HT (Z.to_nat k) ltac:(lia)). destruct (aget_Ok_inv _ _ _ Hg) as [_ Hl]. rewrite Hl, Z2Nat.id in HT by lia.
  rewrite !bool_decide_eq_false_2 in HT by done. done.
Qed.

Lemma specialTable_codes f op : aget Mips.specialTable f = Ok op → code_is 0 f op = true.
Proof.
  intros Hg. destruct (aget_Ok_inv _ _ _ Hg) as [Hk Hl].
  assert (∀ n : nat, (n < 64)%nat → match Mips.specialTable !! n with Some o => code_is 0 (Z.of_nat n) o | None => false end = true) as HT.
  { intros n Hn. do 64 (destruct n as [|n]; [vm_compute; reflexivity|]). lia. }
  assert (0 ≤ f < 64) by done. specialize (HT (Z.to_nat f) ltac:(lia)). by rewrite Hl, Z2Nat.id in HT by lia.
Qed.

(** The immediate operand of both decoders. *)
Lemma immed_u32 w :
  u32 (immed w) = (let e := Z.land (u32 w) 0xffff in if negb (Z.land e 0x8000 =? 0) then Z.lor e 0xffff0000 else e).
Proof.
  cbv zeta. change 0xffff with (Z.ones 16). rewrite low_u32 by lia. unfold immed.
  assert (Z.land (Z.land w (Z.ones 16)) 0x8000 = Z.land w 0x8000) as -> by (by rewrite <- Z.land_assoc).
  destruct (Z.eqb_spec (Z.land w 0x8000) 0) as [H0|H0]; cbn [negb]; (apply u32_bits_eq;
    [apply u32_range|first [apply is_u32_lor; [apply is_u32_land_r|]|apply is_u32_land_r]; by vm_compute|]);
    intros i Hi; rewrite u32_testbit by lia; (destruct (Z.ltb_spec i 32); [|lia]); cbn [andb].
  - rewrite !Z.land_spec. change 0x7fff with (Z.ones 15). rewrite !Z.testbit_ones_nonneg by lia.
    destruct (decide (i = 15)) as [->|Hi15].
    + assert (Z.testbit w 15 = false) as ->; [|done]. apply (f_equal (λ z, Z.testbit z 15)) in H0.
      rewrite Z.land_spec, Z.bits_0 in H0. change (Z.testbit 0x8000 15) with true in H0. by rewrite andb_true_r in H0.
    + f_equal. destruct (Z.ltb_spec i 15), (Z.ltb_spec i 16); lia || done.
  - rewrite !Z.lor_spec, Z.land_spec, Z.testbit_ones_nonneg by lia.
    assert (Z.testbit w 15 = true) as H15.
    { destruct (Z.testbit w 15) eqn:E; [done|]. exfalso. apply H0. apply Z.bits_inj'. intros j Hj. rewrite Z.land_spec, Z.bits_0.
      change 0x8000 with (2 ^ 15). rewrite Z.pow2_bits_eqb by lia. destruct (Z.eqb_spec 15 j) as [<-|]; by rewrite ?E, ?andb_false_r. }
    assert (Z.testbit (-0x8000) i = negb (i <? 15)) as ->.
    { change (-0x8000) with (Z.lnot (Z.ones 15)). rewrite Z.lnot_spec, Z.testbit_ones_nonneg by lia. done. }
    assert (Z.testbit 0xffff0000 i = negb (i <? 16)) as ->.
    { change 0xffff0000 with (Z.shiftl (Z.ones 16) 16). rewrite Z.shiftl_spec by lia. destruct (Z.ltb_spec i 16).
      - by rewrite Z.testbit_neg_r by lia.
      - rewrite Z.testbit_ones_nonneg by lia. destruct (Z.ltb_spec (i - 16) 16); [done|lia]. }
    destruct (Z.ltb_spec i 15), (Z.ltb_spec i 16); simpl; rewrite ?andb_true_r, ?orb_false_r, ?orb_true_r; try lia; try done.
    by replace i with 15 by lia; rewrite H15.
Qed.

Lemma immed_range w : -2 ^ 15 ≤ immed w < 2 ^ 15.
Proof.
  unfold immed. destruct (negb _) eqn:E.
  - assert (Z.lor w (-0x8000) < 0) as Hneg by (apply Z.lor_neg; right; lia).
    assert (0 ≤ Z.lnot (Z.lor w (-0x8000)) < 2 ^ 15) as H; [|unfold Z.lnot in H; lia].
    replace (Z.lnot (Z.lor w (-0x8000))) with (Z.lnot w mod 2 ^ 15); [apply Z.mod_pos_bound; lia|].
    rewrite <- Z.land_ones by lia. apply Z.bits_inj'. intros i Hi. rewrite Z.land_spec, !Z.lnot_spec, Z.lor_spec by lia.
    change (-0x8000) with (Z.lnot (Z.ones 15)). rewrite Z.lnot_spec by lia. by rewrite negb_orb, negb_involutive.
  - change 0x7fff with (Z.ones 15). rewrite Z.land_ones by lia. pose proof (Z.mod_pos_bound w (2 ^ 15)). lia.
Qed.

Lemma immed_s32 w : is_s32 (immed w).
Proof. pose proof (immed_range w). unfold is_s32. lia. Qed.

(** The low half of a word. *)
Lemma immed_mod w : immed w mod 2 ^ 16 = w mod 2 ^ 16.
Proof.
  rewrite <- !Z.land_ones by lia. rewrite <- (low_u32 (immed w)), immed_u32 by lia. cbv zeta.
  change 0xffff with (Z.ones 16). rewrite low_u32 by lia. destruct (negb _).
  - rewrite Z.land_lor_distr_l. change (Z.land 0xffff0000 (Z.ones 16)) with 0. by rewrite Z.lor_0_r, <- Z.land_assoc, Z.land_diag.
  - by rewrite <- Z.land_assoc, Z.land_diag.
Qed.

(** What [Decode] of mipssim.cc makes of a word, in terms of the macros of
    instr.h. *)
Record decoded (w : Z) (i : Mips.Instruction) : Prop := mkDecoded {
  d_rs : Mips.rs i = rs w;
  d_rt : Mips.rt i = rt w;
  d_rd : Mips.rd i = rd w;
  d_code k f : code_of (Mips.opCode i) = Some (k, f) →
    Z.land (Z.shiftr w 26) 0x3f = k ∧
    (k = 0 → Z.land w 0x3f = f ∧ Mips.extra i = shamt w) ∧
    (k = 1 → rt w = f) ∧
    (k = 2 ∨ k = 3 → Mips.extra i = Z.land w 0x03ffffff) ∧
    (k = 1 ∨ 3 < k → Mips.extra i = u32 (immed w));
}.

Lemma code_is_Some k f op k' f' : code_is k f op = true → code_of op = Some (k', f') → k = k' ∧ f = f'.
Proof. unfold code_is. intros H E. rewrite E in H. apply bool_decide_eq_true in H. by simplify_eq. Qed.

Lemma bcond_code w f :
  (f = 0 ∨ f = 1 ∨ f = 16 ∨ f = 17) → Z.land (u32 w) 0x1f0000 = f * 2 ^ 16 → rt w = f.
Proof.
  intros Hf H. unfold rt. change 0x1f with (Z.ones 5). rewrite <- (field_u32 w 16 5) by lia.
  apply (f_equal (λ z, Z.shiftr z 16)) in H. rewrite Z.shiftr_land in H. change (Z.shiftr 0x1f0000 16) with (Z.ones 5) in H.
  rewrite H. destruct Hf as [->|[->|[->| ->]]]; done.
Qed.

Lemma opTable_format k op fmt : aget Mips.opTable k = Ok (op, fmt) →
  match k with 0 => fmt = Mips.RFMT ∧ op = Mips.SPECIAL | 1 => fmt = Mips.IFMT ∧ op = Mips.BCOND
  | 2 | 3 => fmt = Mips.JFMT | _ => fmt = Mips.IFMT end ∧ (op = Mips.SPECIAL → k = 0) ∧ (op = Mips.BCOND → k = 1).
Proof.
  intros Hg. destruct (aget_Ok_inv _ _ _ Hg) as [Hk Hl]. clear Hg.
  assert (∃ n : nat, k = Z.of_nat n ∧ (n < 64)%nat) as (n & -> & Hn) by (exists (Z.to_nat k); change (length Mips.opTable) with 64%nat in Hk; lia).
  rewrite Nat2Z.id in Hl. clear Hk. do 64 (destruct n as [|n]; [vm_compute in Hl; simplify_eq; split_and!; done|]). lia.
Qed.

Lemma decode_ok w i : Mips.Decode (u32 w) = Ok i → decoded w i.
Proof.
  unfold Mips.Decode. intros H.
  assert (∀ k, 0 ≤ k ≤ 27 → Z.land (Z.shiftr (u32 w) k) 0x1f = Z.land (Z.shiftr w k) 0x1f) as H5 by (intros; apply (field_u32 w k 5); lia).
  rewrite !H5 in H by lia. change 0x3f with (Z.ones 6) in H. rewrite (field_u32 w 26 6) in H by lia. rewrite low_u32 in H by lia.
  change 0x3ffffff with (Z.ones 26) in H. rewrite low_u32 in H by lia. change (Z.ones 26) with 0x3ffffff in H. change (Z.ones 6) with 0x3f in H.
  destruct (aget Mips.opTable _) as [[op fmt]|] eqn:Eo; [|done]. cbn [mbind result_bind] in H.
  destruct (opTable_format _ _ _ Eo) as (Hf & Hs & Hb). set (k := Z.land (Z.shiftr w 26) 0x3f) in *.
  pose proof (opTable_codes _ _ _ Eo) as Hcode.
  match type of H with context [if negb (Z.land ?a _ =? 0) then _ else _] =>
    change (if negb (Z.land a 0x8000 =? 0) then Z.lor a 0xffff0000 else a)
      with (let e := Z.land (u32 w) 0xffff in if negb (Z.land e 0x8000 =? 0) then Z.lor e 0xffff0000 else e) in H end.
  rewrite <- immed_u32 in H.
  destruct (decide (op = Mips.SPECIAL)) as [->|Hns].
  { pose proof (Hs eq_refl) as Hk0. rewrite Hk0 in Hf. destruct Hf as [-> _]. destruct (aget Mips.specialTable _) as [o|] eqn:Es; [|done].
    cbn [mbind result_bind] in H. simplify_eq. split; try done. intros k' f' E. cbn [Mips.opCode Mips.extra] in *.
    destruct (code_is_Some _ _ _ _ _ (specialTable_codes _ _ Es) E) as [<- <-]. split_and!; try done; lia. }
  destruct (decide (op = Mips.BCOND)) as [->|Hnb].
  { pose proof (Hb eq_refl) as Hk0. rewrite Hk0 in Hf. destruct Hf as [-> _]. cbn [mbind result_bind] in H. simplify_eq. split; try done.
    cbn [Mips.opCode Mips.extra] in *. intros k' f'.
    destruct (Z.eqb_spec (Z.land (u32 w) 0x1f0000) 0) as [E|_]; [|destruct (Z.eqb_spec (Z.land (u32 w) 0x1f0000) 0x10000) as [E|_];
      [|destruct (Z.eqb_spec (Z.land (u32 w) 0x1f0000) 0x100000) as [E|_]; [|destruct (Z.eqb_spec (Z.land (u32 w) 0x1f0000) 0x110000) as [E|_]; [|done]]]];
      intros Hc; vm_compute in Hc; simplify_eq; (split_and!; try done; try lia; intros _; apply bcond_code; [lia|exact E]). }
  specialize (Hcode Hns Hnb).
  assert (Ok (Mips.mkInstruction (u32 w) op (rs w) (rt w) (rd w)
    match fmt with Mips.IFMT => u32 (immed w) | Mips.JFMT => Z.land w 0x3ffffff | Mips.RFMT => Z.land (Z.shiftr w 6) 0x1f end) = Ok i) as Hi
    by (clear Hcode Hf Hs Hb Eo; destruct op; first [exact H|congruence]).
  clear H. injection Hi as <-. split; [reflexivity..|]. cbn [Mips.opCode Mips.extra]. intros k' f' E.
  destruct (code_is_Some _ _ _ _ _ Hcode E) as [<- <-].
  assert (k ≠ 0) by (intros ->; by destruct Hf). assert (k ≠ 1) by (intros ->; by destruct Hf).
  split; [reflexivity|]. clearbody k. clear Eo Hcode E. split; [intros; lia|]. split; [intros; lia|]. split.
  - intros [->| ->]; rewrite Hf; reflexivity.
  - intros [->|H3]; [lia|]. destruct k as [|p|p]; [lia| |lia]. destruct p as [[p|p|]|[p|p|]|]; try lia; rewrite Hf; reflexivity.
Qed.

(** ** Arithmetic *)

Lemma put_congr s n a b : u32 a = u32 b → put s n a = put s n b.
Proof. intros H. unfold put. by rewrite <- (s32_u32 a), <- (s32_u32 b), H. Qed.

Lemma u32_add a b : u32 (u32 a + u32 b) = u32 (a + b).
Proof. unfold u32. by rewrite <- Zplus_mod. Qed.
Lemma u32_sub a b : u32 (u32 a - u32 b) = u32 (a - b).
Proof. unfold u32. by rewrite <- Zminus_mod. Qed.
Lemma u32_mul a b : u32 (u32 a * b) = u32 (a * b).
Proof. unfold u32. by rewrite Zmult_mod_idemp_l. Qed.
Lemma u32_lnot a : u32 (Z.lnot (u32 a)) = u32 (Z.lnot a).
Proof. apply Z.bits_inj'. intros i Hi. rewrite !u32_testbit, !Z.lnot_spec, u32_testbit by lia. by destruct (i <? 32). Qed.

(** execute.c has no overflow traps. *)
Definition no_trap (op : Mips.OpCode) : Mips.OpCode :=
  match op with Mips.OP_ADD => Mips.OP_ADDU | Mips.OP_SUB => Mips.OP_SUBU | Mips.OP_ADDI => Mips.OP_ADDIU | op => op end.

(** Where C has no meaning, or an immediate is extended with its sign instead of
    zeros: [a] is the first operand and [imm] the immediate one, as words. *)
Definition conforms (op : Mips.OpCode) (a imm : Z) : bool :=
  match op with
  | Mips.OP_SLLV | Mips.OP_SRLV | Mips.OP_SRAV => a <? 32
  | Mips.OP_ANDI | Mips.OP_ORI | Mips.OP_XORI => imm <? 2 ^ 31
  | _ => true
  end.

Section instructions.
Context (E : bool) (sys : syscall_h) (unix : call → gmap Z Z → Z * gmap Z Z).
Context (s : state) (xpc w : Z) (i : Mips.Instruction) (Hs : typed s) (Hd : decoded w i).

(** Into the switches. *)
Lemma run_special r f :
  code_of (Mips.opCode i) = Some (0, f) →
  (Z.land w 0x3f = f → Mips.extra i = shamt w → special sys unix s xpc w = r) → execute E sys unix s xpc w = r.
Proof.
  intros Hc H. destruct (d_code _ _ Hd _ _ Hc) as (H0 & H1 & _). destruct (H1 eq_refl) as [Hf He].
  rewrite <- (H Hf He). unfold execute. cbv zeta. rewrite H0. reflexivity.
Qed.

Lemma run_normal r k f :
  code_of (Mips.opCode i) = Some (k, f) → 3 < k →
  (Z.land (Z.shiftr w 26) 0x3f = k → Mips.extra i = u32 (immed w) → execute E sys unix s xpc w = r) → execute E sys unix s xpc w = r.
Proof. intros Hc Hk H. destruct (d_code _ _ Hd _ _ Hc) as (H0 & _ & _ & _ & H1). auto. Qed.

Lemma shamt_range : 0 ≤ shamt w < 32.
Proof. unfold shamt. change 0x1f with (Z.ones 5). rewrite Z.land_ones by lia. apply Z.mod_pos_bound. lia. Qed.

Lemma small_shift n : u32 (reg s n) < 32 → 0 ≤ reg s n < 32 ∧ u32 (reg s n) = reg s n.
Proof.
  intros H. pose proof (reg_s32 s n Hs) as Hr. pose proof (u32_range (reg s n)) as Hu.
  assert (0 ≤ reg s n) as H0.
  { rewrite <- (s32_id _ Hr), <- s32_u32, s32_cases by done. unfold is_u32 in *. destruct (Z.ltb_spec (u32 (reg s n)) (2 ^ 31)); lia. }
  assert (u32 (reg s n) = reg s n) by (apply u32_id; unfold is_u32, is_s32 in *; lia). split; lia.
Qed.

Lemma rr_ok v :
  Mips.mips_rr (no_trap (Mips.opCode i)) (u32 (reg s (rs w))) (u32 (reg s (rt w))) (Mips.extra i) = Some (Mips.Val v) →
  conforms (Mips.opCode i) (u32 (reg s (rs w))) (Mips.extra i) = true →
  execute E sys unix s xpc w = Goes (put s (rd w) v).
Proof.
  intros Hv Hc. pose proof shamt_range as Hsh.
  assert (∀ n, s32 (u32 (reg s n)) = reg s n) as Hr by (intros; rewrite s32_u32; by apply s32_id, reg_s32).
  destruct (Mips.opCode i) eqn:Eo; try discriminate Hv; cbn [no_trap Mips.mips_rr Mips.flag] in Hv; injection Hv as <-;
    (eapply run_special; [rewrite Eo; vm_compute; reflexivity|]; intros Hf He; unfold special; cbv zeta; rewrite Hf).
  (* ADD ADDU AND NOR OR SLL SLLV SLT SLTU SRA SRAV SRL SRLV SUB SUBU XOR *)
  all: cbn [conforms] in Hc; try apply Z.ltb_lt in Hc; rewrite ?He, ?Hr; cbv [switch find fst snd]; simpl (_ =? _); cbv iota.
  all: try (destruct (small_shift _ Hc) as [Hn Hu]; rewrite ?Hu; unfold shift_by;
            destruct (Z.leb_spec 0 (reg s (rs w))), (Z.ltb_spec (reg s (rs w)) 32); try lia; simpl andb; cbv iota;
            rewrite ?(Z.mod_small (reg s (rs w)) 32) by lia).
  all: f_equal; apply put_congr.
  all: rewrite ?Z.shiftl_mul_pow2, ?Z.shiftr_div_pow2 by lia; rewrite ?u32_add, ?u32_sub, ?u32_mul, ?u32_lnot, ?u32_land, ?u32_lor, ?u32_lxor, ?u32_idem; try reflexivity.
  by rewrite <- u32_lor, u32_lnot.
Qed.

Lemma small_immed : u32 (immed w) < 2 ^ 31 → u32 (immed w) mod 2 ^ 16 = immed w.
Proof.
  intros H. pose proof (immed_range w) as Hr. pose proof (u32_range (immed w)) as Hu.
  assert (0 ≤ immed w) as H0.
  { rewrite <- (s32_id _ (immed_s32 w)), <- s32_u32, s32_cases by done. unfold is_u32 in *.
    destruct (Z.ltb_spec (u32 (immed w)) (2 ^ 31)); lia. }
  rewrite u32_id by (unfold is_u32; lia). apply Z.mod_small. lia.
Qed.

Lemma ri_ok v :
  Mips.mips_ri (no_trap (Mips.opCode i)) (u32 (reg s (rs w))) (Mips.extra i) = Some (Mips.Val v) →
  conforms (Mips.opCode i) (u32 (reg s (rs w))) (Mips.extra i) = true →
  execute E sys unix s xpc w = Goes (put s (rt w) v).
Proof.
  intros Hv Hc.
  assert (∀ n, s32 (u32 (reg s n)) = reg s n) as Hr by (intros; rewrite s32_u32; by apply s32_id, reg_s32).
  destruct (Mips.opCode i) eqn:Eo; try discriminate Hv; cbn [no_trap Mips.mips_ri Mips.flag] in Hv; injection Hv as <-;
    (eapply run_normal; [rewrite Eo; vm_compute; reflexivity|lia|]; intros Hf He; unfold execute; cbv zeta; rewrite Hf).
  (* ADDI ADDIU ANDI LUI ORI SLTI SLTIU XORI *)
  all: cbn [conforms] in Hc; rewrite ?He in Hc; try apply Z.ltb_lt in Hc; rewrite ?He, ?Hr; cbv [switch find fst snd app]; simpl (_ =? _); cbv iota.
  all: f_equal; apply put_congr; rewrite ?small_immed by done;
    rewrite ?Z.shiftl_mul_pow2 by lia; rewrite ?u32_add, ?u32_land, ?u32_lor, ?u32_lxor, ?u32_idem; try reflexivity.
  - rewrite u32_mul. unfold u32. change (2 ^ 32) with (2 ^ 16 * 2 ^ 16). rewrite !Z.mul_mod_distr_r by lia. by rewrite immed_mod.
  - by rewrite s32_u32, (s32_id _ (immed_s32 w)).
Qed.
End instructions.

(** ** Multiplication *)

(** What [high_word] leaves out: the carry out of the low halves of the three
    products that it does not look at. *)
Definition carry (x y : Z) : Z :=
  (((x / 2 ^ 16) * (y mod 2 ^ 16)) mod 2 ^ 16 + ((y / 2 ^ 16) * (x mod 2 ^ 16)) mod 2 ^ 16 +
   ((x mod 2 ^ 16) * (y mod 2 ^ 16)) / 2 ^ 16) / 2 ^ 16.

Lemma halves z : 0 ≤ z ≤ 2 ^ 31 →
  Z.land (s32 z) 0xffff = z mod 2 ^ 16 ∧ Z.land (Z.shiftr (s32 z) 16) 0xffff = z / 2 ^ 16.
Proof.
  intros Hz. change 0xffff with (Z.ones 16). rewrite <- (low_u32 (s32 z)), <- (field_u32 (s32 z) 16 16), u32_s32 by lia.
  rewrite u32_id by (unfold is_u32; lia). rewrite !Z.land_ones, Z.shiftr_div_pow2 by lia. split; [done|]. apply Z.mod_small.
  split; [apply Z.div_pos; lia|]. apply Z.div_lt_upper_bound; lia.
Qed.

Lemma high_word_ok x y : 0 ≤ x ≤ 2 ^ 31 → 0 ≤ y ≤ 2 ^ 31 →
  high_word (s32 x) (s32 y) = x * y / 2 ^ 32 - carry x y ∧ 0 ≤ carry x y ≤ 2 ∧ 0 ≤ high_word (s32 x) (s32 y).
Proof.
  intros Hx Hy. unfold high_word. destruct (halves x Hx) as [-> ->], (halves y Hy) as [-> ->]. cbv zeta. unfold carry.
  pose proof (Z.div_mod x (2 ^ 16) ltac:(lia)) as Ex. pose proof (Z.div_mod y (2 ^ 16) ltac:(lia)) as Ey.
  pose proof (Z.mod_pos_bound x (2 ^ 16) ltac:(lia)) as Bx. pose proof (Z.mod_pos_bound y (2 ^ 16) ltac:(lia)) as By.
  assert (0 ≤ x / 2 ^ 16 ≤ 2 ^ 15) as Hxh by (split; [apply Z.div_pos; lia|]; apply Z.div_le_upper_bound; lia).
  assert (0 ≤ y / 2 ^ 16 ≤ 2 ^ 15) as Hyh by (split; [apply Z.div_pos; lia|]; apply Z.div_le_upper_bound; lia).
  revert Ex Ey Bx By Hxh Hyh. generalize (x / 2 ^ 16) (x mod 2 ^ 16) (y / 2 ^ 16) (y mod 2 ^ 16). intros xh xl yh yl Ex Ey Bx By Hxh Hyh.
  rewrite !Z.shiftr_div_pow2 by lia.
  assert (0 ≤ xh * yh ≤ 2 ^ 30) by nia. assert (0 ≤ xh * yl < 2 ^ 31) by nia. assert (0 ≤ yh * xl < 2 ^ 31) by nia. assert (0 ≤ xl * yl < 2 ^ 32) by nia.
  rewrite !(s32_id (_ * _)) by (unfold is_s32; lia).
  pose proof (Z.div_mod (xh * yl) (2 ^ 16) ltac:(lia)) as E1. pose proof (Z.div_mod (yh * xl) (2 ^ 16) ltac:(lia)) as E2.
  pose proof (Z.div_mod (xl * yl) (2 ^ 16) ltac:(lia)) as E3.
  pose proof (Z.mod_pos_bound (xh * yl) (2 ^ 16) ltac:(lia)). pose proof (Z.mod_pos_bound (yh * xl) (2 ^ 16) ltac:(lia)).
  pose proof (Z.mod_pos_bound (xl * yl) (2 ^ 16) ltac:(lia)).
  set (c := (_ + _ + _) / 2 ^ 16).
  assert (x * y = xh * yh * 2 ^ 32 + (xh * yl + yh * xl) * 2 ^ 16 + xl * yl) as Exy by (rewrite Ex, Ey; ring).
  set (m1 := (xh * yl) mod 2 ^ 16) in *. set (q1 := xh * yl / 2 ^ 16) in *. set (m2 := (yh * xl) mod 2 ^ 16) in *. set (q2 := yh * xl / 2 ^ 16) in *.
  set (q3 := xl * yl / 2 ^ 16) in *. set (m3 := (xl * yl) mod 2 ^ 16) in *.
  assert (0 ≤ q1 < 2 ^ 15) by lia. assert (0 ≤ q2 < 2 ^ 15) by lia. assert (0 ≤ q3 < 2 ^ 16) by lia.
  assert (0 ≤ c ≤ 2) as Hc by (unfold c; split; [apply Z.div_pos; lia|]; apply Z.lt_succ_r, Z.div_lt_upper_bound; lia).
  rewrite s32_id by (unfold is_s32; lia). split_and!; try lia.
  assert (x * y / 2 ^ 32 = xh * yh + q1 + q2 + c) as ->; [|lia].
  symmetry. pose proof (Z.div_mod (m1 + m2 + q3) (2 ^ 16) ltac:(lia)) as Ec. fold c in Ec.
  pose proof (Z.mod_pos_bound (m1 + m2 + q3) (2 ^ 16) ltac:(lia)). set (mc := (m1 + m2 + q3) mod 2 ^ 16) in *.
  apply Z.div_unique with (r := mc * 2 ^ 16 + m3); [left; lia|]. lia.
Qed.

(** [HI] and [LO] as one number. *)
Definition product (s : state) : Z := u32 (HI s) * 2 ^ 32 + u32 (LO s).

(** The magnitudes that [MULT] works with. *)
Lemma magnitude a : is_s32 a → (if a <? 0 then s32 (- a) else a) = s32 (Z.abs a) ∧ 0 ≤ Z.abs a ≤ 2 ^ 31.
Proof.
  intros Ha. split; [|unfold is_s32 in Ha; lia]. destruct (Z.ltb_spec a 0).
  - by replace (Z.abs a) with (- a) by lia.
  - replace (Z.abs a) with a by lia. by rewrite s32_id.
Qed.

Lemma MULT_eq s a b : is_s32 a → is_s32 b →
  MULT s a b =
    (let hi := high_word (s32 (Z.abs a)) (s32 (Z.abs b)) in
     let lo := s32 (Z.abs a * Z.abs b) in
     if xorb (a <? 0) (b <? 0) then
       let lo := s32 (Z.lnot lo + 1) in set_HILO s (if lo =? 0 then s32 (Z.lnot hi + 1) else Z.lnot hi) lo
     else set_HILO s hi lo).
Proof.
  intros Ha Hb. destruct (magnitude a Ha) as [Ea _], (magnitude b Hb) as [Eb _].
  assert (s32 (s32 (Z.abs a) * s32 (Z.abs b)) = s32 (Z.abs a * Z.abs b)) as El.
  { rewrite <- (s32_u32 (s32 _ * _)), <- (s32_u32 (Z.abs a * _)). f_equal.
    by rewrite <- u32_mul, u32_s32, u32_mul, Z.mul_comm, <- u32_mul, u32_s32, u32_mul, Z.mul_comm. }
  unfold MULT. cbv zeta. destruct (a <? 0), (b <? 0); cbn [negb xorb]; rewrite <- El, <- Ea, <- Eb; reflexivity.
Qed.

Lemma mult_product s a b : is_s32 a → is_s32 b →
  product (MULT s a b) = (a * b - (if xorb (a <? 0) (b <? 0) then -1 else 1) * carry (Z.abs a) (Z.abs b) * 2 ^ 32) mod 2 ^ 64.
Proof.
  intros Ha Hb. destruct (magnitude a Ha) as [_ Ra], (magnitude b Hb) as [_ Rb].
  destruct (high_word_ok _ _ Ra Rb) as (Eh & Hc & Hp). rewrite MULT_eq by done. cbv zeta.
  set (h := high_word _ _) in *. set (p := Z.abs a * Z.abs b) in *. set (c := carry _ _) in *.
  assert (0 ≤ p ≤ 2 ^ 62) as Hpp by (unfold p; nia).
  assert (0 ≤ h < 2 ^ 31) as Hh by (pose proof (Z.div_le_upper_bound p (2 ^ 32) (2 ^ 30) ltac:(lia) ltac:(lia)); lia).
  assert (h * 2 ^ 32 + u32 (s32 p) = p - c * 2 ^ 32) as Hhl by (rewrite u32_s32; unfold u32; pose proof (Z.div_mod p (2 ^ 32) ltac:(lia)); lia).
  unfold product. destruct (xorb (a <? 0) (b <? 0)) eqn:Ex; cbn [HI LO set_HILO].
  - pose proof (Mips.negate_double h (u32 (s32 p)) ltac:(unfold is_u32; lia) (u32_range _)) as (_ & _ & HN). cbv zeta in HN.
    rewrite Hhl in HN. assert (∀ x, u32 (u32 (Z.lnot x) + 1) = u32 (Z.lnot x + 1)) as Hl
      by (intros x; unfold u32; by rewrite Zplus_mod_idemp_l).
    assert (u32 (Z.lnot (u32 (s32 p)) + 1) = u32 (s32 (Z.lnot (s32 p) + 1))) as Hlo.
    { rewrite <- Hl, u32_lnot, Hl, u32_s32. done. }
    rewrite !Hl, Hlo in HN.
    replace (a * b - -1 * c * 2 ^ 32) with (- (p - c * 2 ^ 32)) by
      (unfold p; destruct (Z.ltb_spec a 0), (Z.ltb_spec b 0); try discriminate Ex; lia).
    rewrite <- HN. f_equal. f_equal.
    assert ((u32 (s32 (Z.lnot (s32 p) + 1)) =? 0) = (s32 (Z.lnot (s32 p) + 1) =? 0)) as ->.
    { destruct (Z.eqb_spec (s32 (Z.lnot (s32 p) + 1)) 0) as [->|Hne]; [done|]. apply Z.eqb_neq. intros Hz. apply Hne.
      rewrite <- (s32_id (s32 _) (s32_range _)), <- s32_u32, Hz. done. }
    by destruct (s32 (Z.lnot (s32 p) + 1) =? 0); rewrite ?u32_s32.
  - rewrite (u32_id h), Hhl by (unfold is_u32; lia).
    replace (a * b - 1 * c * 2 ^ 32) with (p - c * 2 ^ 32) by
      (unfold p; destruct (Z.ltb_spec a 0), (Z.ltb_spec b 0); try discriminate Ex; lia).
    symmetry. apply Z.mod_small. pose proof (u32_range (s32 p)). unfold is_u32 in *. lia.
Qed.

(** ** The two simulators side by side *)

(** The registers agree, and so does the address of the next instruction. *)
Record related (s : state) (m : Machine.Machine) : Prop := mkRelated {
  r_regs n : 0 ≤ n < 32 → Machine.reg m n = u32 (reg s n);
  r_hi : Machine.reg m Machine.HiReg = u32 (HI s);
  r_lo : Machine.reg m Machine.LoReg = u32 (LO s);
  r_next : Machine.reg m Machine.NextPCReg = u32 (pc s);
}.

Definition same_region (x y : Z) : bool := Z.land (u32 x) 0xf0000000 =? Z.land (u32 y) 0xf0000000.

(** The instructions that are compared, and the operands for which they are: an
    addition that does not overflow, a logical operation with an immediate
    operand that is not negative; for OR, a second operand that adds no bit; for
    SLT and SLTI, operands of the same sign; a shift by less than 32, to the right
    of a number that is not negative; BLEZ and BGTZ on a number that is not
    negative; a branch or a jump that does not stand behind another one; a
    multiplication without the carry that is lost, and of numbers that are not
    negative if it is MULTU; a division by other than zero, of numbers that are
    not negative if it is DIV.  Loads and stores are not compared: mipssim.cc
    translates the address and delays the load, execute.c does neither. *)
Definition shared (op : Mips.OpCode) (s : state) (xpc w : Z) : bool :=
  let a := reg s (rs w) in
  let b := reg s (rt w) in
  let straight := pc s =? s32 (xpc + 4) in
  let fits z := bool_decide (is_s32 z) in
  match op with
  | Mips.OP_ADDU | Mips.OP_ADDIU | Mips.OP_SUBU | Mips.OP_AND | Mips.OP_XOR | Mips.OP_NOR | Mips.OP_SLL
  | Mips.OP_SLTU | Mips.OP_SLTIU | Mips.OP_LUI | Mips.OP_MFHI | Mips.OP_MFLO | Mips.OP_MTHI | Mips.OP_MTLO | Mips.OP_JR => true
  | Mips.OP_ADD => fits (a + b)
  | Mips.OP_SUB => fits (a - b)
  | Mips.OP_ADDI => fits (a + immed w)
  | Mips.OP_ANDI | Mips.OP_ORI | Mips.OP_XORI => 0 <=? immed w
  | Mips.OP_OR => Z.lor a b =? a
  | Mips.OP_SLT => eqb (a <? 0) (b <? 0)
  | Mips.OP_SLTI => eqb (a <? 0) (immed w <? 0)
  | Mips.OP_SRL | Mips.OP_SRA => 0 <=? b
  | Mips.OP_SLLV => (0 <=? a) && (a <? 32)
  | Mips.OP_SRLV | Mips.OP_SRAV => (0 <=? a) && (a <? 32) && (0 <=? b)
  | Mips.OP_BEQ | Mips.OP_BNE | Mips.OP_BLTZ | Mips.OP_BGEZ | Mips.OP_BLTZAL | Mips.OP_BGEZAL => straight
  | Mips.OP_BLEZ | Mips.OP_BGTZ => straight && (0 <=? a)
  | Mips.OP_J => same_region xpc (npc s)
  | Mips.OP_JAL => straight && same_region xpc (npc s)
  | Mips.OP_JALR => straight && negb (rd w =? rs w)
  | Mips.OP_MULT => carry (Z.abs a) (Z.abs b) =? 0
  | Mips.OP_MULTU => (0 <=? a) && (0 <=? b) && (carry a b =? 0)
  | Mips.OP_DIVU => negb (b =? 0)
  | Mips.OP_DIV => (0 <=? a) && (0 <? b)
  | _ => false
  end.

Lemma reg_put_same s n v : length (Reg s) = 32%nat → 0 ≤ n < 32 → reg (put s n v) n = s32 v.
Proof.
  intros Hs Hn. unfold reg, put. simpl. rewrite nth_lookup, list_lookup_insert_eq; [done|]. rewrite Hs. lia.
Qed.
Lemma reg_put_other s n k v : 0 ≤ n → 0 ≤ k → n ≠ k → reg (put s n v) k = reg s k.
Proof. intros. unfold reg, put. simpl. by rewrite !nth_lookup, list_lookup_insert_ne by lia. Qed.

Section side_by_side.
Context (E E' : bool) (sys : syscall_h) (unix : call → gmap Z Z → Z * gmap Z Z).
Context (s : state) (m : Machine.Machine) (Hs : typed s) (Hm : Machine.wfm m) (Hrel : related s m).

Lemma related_put n v v' : 0 ≤ n < 32 → u32 v = u32 v' → related (put s n v) (Machine.put_reg m n v').
Proof.
  intros Hn Hv. pose proof (proj1 Hm) as Hr.
  split; [|rewrite Machine.reg_put_ne by (unfold Machine.HiReg, Machine.LoReg, Machine.NextPCReg; lia); apply Hrel..].
  intros k Hk. destruct (decide (n = k)) as [<-|Hne].
  - rewrite Machine.reg_put_eq, reg_put_same by (done || apply Hs || unfold Machine.NumTotalRegs; lia). by rewrite u32_s32.
  - rewrite Machine.reg_put_ne, reg_put_other by lia. by apply Hrel.
Qed.

Lemma related_npc x : related (set_npc s x) m.
Proof. destruct Hrel. by split. Qed.

Lemma rs_range w : 0 ≤ rs w < 32.
Proof. by apply (Mips.field_range w 21 5). Qed.
Lemma rt_range w : 0 ≤ rt w < 32.
Proof. by apply (Mips.field_range w 16 5). Qed.
Lemma rd_range w : 0 ≤ rd w < 32.
Proof. by apply (Mips.field_range w 11 5). Qed.

Context (xpc w : Z) (i : Mips.Instruction) (Hd : decoded w i) (Hi : Mips.wf_instr i).

(** Both go on, to states that are related. *)
Definition agree : Prop :=
  ∃ s' m', execute E sys unix s xpc w = Goes s' ∧ Mips.execute E' m i (npc s) = Ok (Mips.Break m' 0 0 (npc s')) ∧ related s' m'.

Lemma checked_fits z : is_s32 z → Mips.checked z = Mips.Val z.
Proof. intros H. unfold Mips.checked. by rewrite bool_decide_eq_true_2. Qed.

Lemma u32_s32_add a b : u32 (s32 a + s32 b) = u32 (a + b).
Proof. by rewrite <- u32_add, !u32_s32, u32_add. Qed.
Lemma u32_s32_sub a b : u32 (s32 a - s32 b) = u32 (a - b).
Proof. by rewrite <- u32_sub, !u32_s32, u32_sub. Qed.

Lemma five_bits_ok : Mips.five_bits i.
Proof.
  intros Eo. pose proof (shamt_range w).
  destruct Eo as [Eo|Eo]; destruct (d_code _ _ Hd 0 _ ltac:(rewrite Eo; vm_compute; reflexivity)) as (_ & Hx & _);
    rewrite (proj2 (Hx eq_refl)); lia.
Qed.

Lemma rr_agree v v' :
  Mips.mips_rr (Mips.opCode i) (u32 (reg s (rs w))) (u32 (reg s (rt w))) (Mips.extra i) = Some (Mips.Val v) →
  Mips.mips_rr (no_trap (Mips.opCode i)) (u32 (reg s (rs w))) (u32 (reg s (rt w))) (Mips.extra i) = Some (Mips.Val v') →
  u32 v = u32 v' → Mips.agrees (Mips.opCode i) (u32 (reg s (rs w))) (u32 (reg s (rt w))) (Mips.extra i) →
  conforms (Mips.opCode i) (u32 (reg s (rs w))) (Mips.extra i) = true → agree.
Proof.
  intros Hv Hv' Heq Hag Hc. exists (put s (rd w) v'), (Machine.put_reg m (rd w) v).
  pose proof (rr_ok E sys unix s xpc w i Hs Hd v' Hv' Hc) as HX. split; [exact HX|].
  rewrite <- (r_regs _ _ Hrel) in Hv, Hag by apply rs_range. rewrite <- (r_regs _ _ Hrel (rt w)) in Hv, Hag by apply rt_range.
  rewrite <- (d_rs _ _ Hd) in Hv, Hag. rewrite <- (d_rt _ _ Hd) in Hv, Hag.
  destruct (Mips.alu_iff E' m i (npc s) (Mips.Val v) Hm Hi five_bits_ok) as [HM _].
  rewrite (proj2 (HM Hv) Hag), (d_rd _ _ Hd). split; [reflexivity|]. by apply related_put; [apply rd_range|].
Qed.

Lemma ri_agree v v' :
  Mips.mips_ri (Mips.opCode i) (u32 (reg s (rs w))) (Mips.extra i) = Some (Mips.Val v) →
  Mips.mips_ri (no_trap (Mips.opCode i)) (u32 (reg s (rs w))) (Mips.extra i) = Some (Mips.Val v') →
  u32 v = u32 v' → Mips.agrees (Mips.opCode i) (u32 (reg s (rs w))) (u32 (reg s (rt w))) (Mips.extra i) →
  conforms (Mips.opCode i) (u32 (reg s (rs w))) (Mips.extra i) = true → agree.
Proof.
  intros Hv Hv' Heq Hag Hc. exists (put s (rt w) v'), (Machine.put_reg m (rt w) v).
  pose proof (ri_ok E sys unix s xpc w i Hs Hd v' Hv' Hc) as HX. split; [exact HX|].
  rewrite <- (r_regs _ _ Hrel) in Hv, Hag by apply rs_range. rewrite <- (r_regs _ _ Hrel (rt w)) in Hag by apply rt_range.
  rewrite <- (d_rs _ _ Hd) in Hv, Hag. rewrite <- (d_rt _ _ Hd) in Hag.
  destruct (Mips.alu_iff E' m i (npc s) (Mips.Val v) Hm Hi five_bits_ok) as [_ HM].
  rewrite (proj2 (HM Hv) Hag), (d_rt _ _ Hd). split; [reflexivity|]. by apply related_put; [apply rt_range|].
Qed.

Lemma alu_agree :
  match Mips.opCode i with
  | Mips.OP_ADD | Mips.OP_ADDU | Mips.OP_SUB | Mips.OP_SUBU | Mips.OP_AND | Mips.OP_XOR | Mips.OP_NOR | Mips.OP_SLL | Mips.OP_SLLV
  | Mips.OP_SLTU | Mips.OP_ADDI | Mips.OP_ADDIU | Mips.OP_SLTIU | Mips.OP_LUI | Mips.OP_ANDI | Mips.OP_ORI | Mips.OP_XORI => True
  | _ => False
  end → shared (Mips.opCode i) s xpc w = true → agree.
Proof.
  assert (∀ n, s32 (u32 (reg s n)) = reg s n) as Hr by (intros; rewrite s32_u32; by apply s32_id, reg_s32).
  intros Hop Hsh. unfold shared in Hsh.
  destruct (Mips.opCode i) eqn:Eo; try contradiction Hop; clear Hop;
    first [ eapply rr_agree; rewrite ?Eo; cbn [no_trap Mips.mips_rr Mips.flag Mips.deviates conforms];
            [first [rewrite checked_fits by (rewrite !Hr; exact (bool_decide_eq_true_1 _ Hsh)); reflexivity|reflexivity]|reflexivity| |reflexivity|]
          | assert (Mips.extra i = u32 (immed w)) as He
              by (pose proof (d_code _ _ Hd _ _ ltac:(rewrite Eo; vm_compute; reflexivity)) as (_ & _ & _ & _ & Hx); apply Hx; lia);
            eapply ri_agree; rewrite ?Eo; cbn [no_trap Mips.mips_ri Mips.flag Mips.deviates conforms];
            [first [rewrite checked_fits by (rewrite Hr, He, s32_u32, (s32_id _ (immed_s32 w)); exact (bool_decide_eq_true_1 _ Hsh)); reflexivity
                   |reflexivity]|reflexivity| |reflexivity|] ].
  all: rewrite ?u32_s32_add, ?u32_s32_sub, ?He; try reflexivity.
  - apply Z.leb_le in Hsh. pose proof (immed_range w). rewrite u32_id by (unfold is_u32; lia). by apply Z.ltb_lt; lia.
  - apply Z.leb_le in Hsh. pose proof (immed_range w). rewrite u32_id by (unfold is_u32; lia). by apply Z.ltb_lt; lia.
  - apply andb_true_iff in Hsh as [H1 H2]. apply Z.leb_le in H1. apply Z.ltb_lt in H2. rewrite u32_id by (unfold is_u32; lia). by apply Z.ltb_lt.
  - apply Z.leb_le in Hsh. pose proof (immed_range w). rewrite u32_id by (unfold is_u32; lia). by apply Z.ltb_lt; lia.
Qed.

Lemma u32_small x : is_s32 x → (u32 x <? 2 ^ 31) = negb (x <? 0) ∧ (0 ≤ x → u32 x < 2 ^ 31).
Proof.
  intros Hx. assert (u32 x = if x <? 0 then x + 2 ^ 32 else x) as ->.
  { unfold u32, is_s32 in *. destruct (Z.ltb_spec x 0); Z.to_euclidean_division_equations; lia. }
  unfold is_s32 in Hx. destruct (Z.ltb_spec x 0); split; lia.
Qed.

(** The instructions that mipssim.cc carries out as the architecture says for
    some operands only. *)
Lemma partial_agree :
  Mips.deviates (Mips.opCode i) = true → shared (Mips.opCode i) s xpc w = true → agree.
Proof.
  intros Hop Hsh. pose proof (reg_s32 s (rs w) Hs) as Ha. pose proof (reg_s32 s (rt w) Hs) as Hb.
  destruct (u32_small _ Ha) as [Sa Pa], (u32_small _ Hb) as [Sb Pb], (u32_small _ (immed_s32 w)) as [Si _].
  assert (0 ≤ reg s (rs w) < 32 → (u32 (reg s (rs w)) <? 32) = true) as Hshift.
  { intros Hn. rewrite u32_id by (unfold is_u32; lia). apply Z.ltb_lt; lia. }
  destruct (Mips.opCode i) eqn:Eo; try discriminate Hop; cbn [shared] in Hsh;
    rewrite ?andb_true_iff, ?Z.leb_le, ?Z.ltb_lt in Hsh;
    try (eapply rr_agree; rewrite ?Eo; [reflexivity|reflexivity|reflexivity|cbn [Mips.agrees]|cbn [conforms]];
         first [reflexivity | left; tauto | apply Hshift; tauto | idtac]).
  - apply Z.eqb_eq in Hsh. by rewrite <- u32_lor, Hsh.
  - rewrite Sa, Sb. by apply eqb_prop in Hsh as ->.
  - assert (Mips.extra i = u32 (immed w)) as He
      by (pose proof (d_code _ _ Hd _ _ ltac:(rewrite Eo; vm_compute; reflexivity)) as (_ & _ & _ & _ & Hx); apply Hx; lia).
    eapply ri_agree; rewrite ?Eo, ?He; [reflexivity|reflexivity|reflexivity| |reflexivity]. cbn [Mips.agrees].
    rewrite Sa, Si. by apply eqb_prop in Hsh as ->.
Qed.

(** The target of a branch, and both branches. *)
Lemma target_agree : pc s = s32 (xpc + 4) →
  s32 (u32 (pc s) + Mips.IndexToAddr (u32 (immed w))) = s32 (xpc + 4 + s32 (Z.shiftl (immed w) 2)).
Proof.
  intros Hp. rewrite Hp, u32_s32. unfold Mips.IndexToAddr. rewrite !Z.shiftl_mul_pow2, u32_mul by lia.
  rewrite <- (s32_u32 (_ + u32 _)), <- (s32_u32 (_ + s32 _)), u32_add. f_equal.
  by rewrite <- (u32_add (xpc + 4) (s32 _)), u32_s32, u32_add.
Qed.

End side_by_side.

Lemma sign_agree_of s m : typed s → related s m → ∀ n, 0 ≤ n < 32 → (Z.land (Machine.reg m n) Mips.SIGN_BIT =? 0) = (0 <=? reg s n).
Proof.
  intros Hs Hrel n Hn. rewrite (r_regs _ _ Hrel n Hn). unfold Mips.SIGN_BIT. rewrite sign_bit_clear by apply u32_range.
  pose proof (reg_s32 s n Hs) as Hr. pose proof (u32_range (reg s n)) as Hu. unfold is_u32 in Hu.
  rewrite <- (s32_id _ Hr) at 2. rewrite <- s32_u32, s32_cases by done.
  destruct (Z.ltb_spec (u32 (reg s n)) (2 ^ 31)); destruct (Z.leb_spec 0 (u32 (reg s n))); destruct (Z.leb_spec 0 (u32 (reg s n) - 2 ^ 32)); lia || done.
Qed.

Section branches.
Context (E E' : bool) (sys : syscall_h) (unix : call → gmap Z Z → Z * gmap Z Z) (xpc w : Z) (i : Mips.Instruction).
Context (Hd : decoded w i) (Hi : Mips.wf_instr i).

Lemma branch_agree s m c :
  Machine.wfm m → related s m → pc s = s32 (xpc + 4) → Mips.extra i = u32 (immed w) →
  ∃ s', branch s xpc w c = Goes s' ∧ Mips.branch_if c m i (npc s) = Ok (Mips.Break m 0 0 (npc s')) ∧ related s' m.
Proof.
  intros Hm Hrel Hp He. unfold branch, Mips.branch_if. destruct c; [|by eauto].
  eexists. split; [reflexivity|]. rewrite Machine.rget_ok by (apply Hm || (unfold Machine.NextPCReg, Machine.NumTotalRegs; lia)). cbn [mbind result_bind].
  split; [|by apply related_npc]. rewrite (r_next _ _ Hrel), He. cbn [npc set_npc set_pc]. by rewrite (target_agree s xpc w Hp).
Qed.

Context (s : state) (m : Machine.Machine) (Hs : typed s) (Hm : Machine.wfm m) (Hrel : related s m).

(** [Reg[31] = xpc + 8]. *)
Lemma link_agree n : 0 ≤ n < 32 → pc s = s32 (xpc + 4) →
  related (put s n (xpc + 8)) (Machine.put_reg m n (Machine.reg m Machine.NextPCReg + 4)) ∧
  Machine.wfm (Machine.put_reg m n (Machine.reg m Machine.NextPCReg + 4)).
Proof.
  intros Hn Hp. split; [apply related_put; try done|apply Machine.put_reg_wfm; [done|unfold Machine.LoadReg; lia|lia]].
  rewrite (r_next _ _ Hrel), Hp, u32_s32. unfold u32. rewrite Zplus_mod_idemp_l. f_equal. lia.
Qed.

Lemma sign_agree n : 0 ≤ n < 32 → (Z.land (Machine.reg m n) Mips.SIGN_BIT =? 0) = (0 <=? reg s n).
Proof. by apply sign_agree_of. Qed.

Lemma eq_agree n k : 0 ≤ n < 32 → 0 ≤ k < 32 → (Machine.reg m n =? Machine.reg m k) = (reg s n =? reg s k).
Proof.
  intros Hn Hk. rewrite !(r_regs _ _ Hrel) by done. pose proof (reg_s32 s n Hs) as H1. pose proof (reg_s32 s k Hs) as H2.
  destruct (Z.eqb_spec (reg s n) (reg s k)) as [->|Hne]; [apply Z.eqb_refl|]. apply Z.eqb_neq. intros Heq. apply Hne.
  by rewrite <- (s32_id _ H1), <- (s32_id _ H2), <- (s32_u32 (reg s n)), Heq, s32_u32.
Qed.

Let both := agree E E' sys unix s m xpc w i.

Lemma bcond_in f : code_of (Mips.opCode i) = Some (1, f) →
  execute E sys unix s xpc w = bcond s xpc w ∧ rt w = f ∧ Mips.extra i = u32 (immed w).
Proof.
  intros Hc. destruct (d_code _ _ Hd _ _ Hc) as (H0 & _ & Hrt & _ & He). split; [|by auto].
  unfold execute. cbv zeta. by rewrite H0.
Qed.

(** One of the four branches on a sign, linking or not. *)
Lemma bcond_agree f c c' s1 m1 :
  code_of (Mips.opCode i) = Some (1, f) → bcond s xpc w = branch s1 xpc w c → Mips.execute E' m i (npc s) = Mips.branch_if c' m1 i (npc s1) →
  c = c' → npc s1 = npc s → pc s1 = s32 (xpc + 4) → related s1 m1 → Machine.wfm m1 → both.
Proof.
  intros Hc Hb Hx -> Hn Hp Hr1 Hw1. destruct (bcond_in f Hc) as (Hex & _ & He).
  destruct (branch_agree s1 m1 c' Hw1 Hr1 Hp He) as (s' & B1 & B2 & B3). exists s', m1. by rewrite Hex, Hb, Hx.
Qed.

Lemma bcond_switch f r : rt w = f → switch f [
    (I_BLTZ, branch s xpc w (reg s (rs w) <? 0)); (I_BGEZ, branch s xpc w (0 <=? reg s (rs w)));
    (I_BLTZAL, branch (put s 31 (xpc + 8)) xpc w (reg (put s 31 (xpc + 8)) (rs w) <? 0));
    (I_BGEZAL, branch (put s 31 (xpc + 8)) xpc w (0 <=? reg (put s 31 (xpc + 8)) (rs w)))] u = r → bcond s xpc w = r.
Proof. intros <- <-. done. Qed.

Lemma sign_branches_agree :
  match Mips.opCode i with Mips.OP_BLTZ | Mips.OP_BGEZ | Mips.OP_BLTZAL | Mips.OP_BGEZAL => True | _ => False end →
  pc s = s32 (xpc + 4) → both.
Proof.
  intros Hop Hp. pose proof (proj1 Hm) as Hr. pose proof (rs_range w) as Hrs. pose proof (d_rs _ _ Hd) as Ers.
  destruct (link_agree 31 ltac:(lia) Hp) as [HL1 HL2].
  assert (∀ z, negb (0 <=? z) = (z <? 0)) as Hneg by (intros z; destruct (Z.leb_spec 0 z), (Z.ltb_spec z 0); lia || done).
  set (s1 := put s 31 (xpc + 8)) in *. set (m1 := Machine.put_reg m 31 (Machine.reg m Machine.NextPCReg + 4)) in *.
  assert (typed s1) as Hs1 by (by apply typed_put).
  assert (∀ c, Mips.opCode i = Mips.OP_BLTZAL ∧ c = negb (Z.land (Machine.reg m1 (rs w)) Mips.SIGN_BIT =? 0) ∨
               Mips.opCode i = Mips.OP_BGEZAL ∧ c = (Z.land (Machine.reg m1 (rs w)) Mips.SIGN_BIT =? 0) →
               Mips.execute E' m i (npc s) = Mips.branch_if c m1 i (npc s)) as Hlink.
  { intros c Hc. apply Mips.execute_part. left. unfold Mips.exec_add_bne.
    destruct Hc as [[-> ->]|[-> ->]]; rewrite Ers, Machine.rget_ok by (done || Mips.reg_range); cbn [mbind result_bind];
      rewrite Machine.rset_ok by (done || Mips.reg_range); cbn [mbind result_bind]; unfold Mips.R31; fold m1;
      rewrite Machine.rget_ok by (apply HL2 || Mips.reg_range); reflexivity. }
  assert (∀ c, Mips.opCode i = Mips.OP_BLTZ ∧ c = negb (Z.land (Machine.reg m (rs w)) Mips.SIGN_BIT =? 0) ∨
               Mips.opCode i = Mips.OP_BGEZ ∧ c = (Z.land (Machine.reg m (rs w)) Mips.SIGN_BIT =? 0) →
               Mips.execute E' m i (npc s) = Mips.branch_if c m i (npc s)) as Hplain.
  { intros c Hc. apply Mips.execute_part. left. unfold Mips.exec_add_bne.
    destruct Hc as [[-> ->]|[-> ->]]; rewrite Ers, Machine.rget_ok by (done || Mips.reg_range); reflexivity. }
  pose proof (sign_agree_of s1 m1 Hs1 HL1) as Hsign1.
  destruct (Mips.opCode i) eqn:Eo; try contradiction Hop.
  - apply (bcond_agree 1 (0 <=? reg s (rs w)) (Z.land (Machine.reg m (rs w)) Mips.SIGN_BIT =? 0) s m); try done; try (by rewrite Eo);
      [eapply bcond_switch; [by apply bcond_in; rewrite Eo|reflexivity]|apply Hplain; tauto|symmetry; by apply sign_agree].
  - apply (bcond_agree 17 (0 <=? reg s1 (rs w)) (Z.land (Machine.reg m1 (rs w)) Mips.SIGN_BIT =? 0) s1 m1); try done; try (by rewrite Eo);
      [eapply bcond_switch; [by apply bcond_in; rewrite Eo|reflexivity]|apply Hlink; tauto|symmetry; by apply Hsign1].
  - apply (bcond_agree 0 (reg s (rs w) <? 0) (negb (Z.land (Machine.reg m (rs w)) Mips.SIGN_BIT =? 0)) s m); try done; try (by rewrite Eo);
      [eapply bcond_switch; [by apply bcond_in; rewrite Eo|reflexivity]|apply Hplain; tauto|rewrite sign_agree by done; symmetry; apply Hneg].
  - apply (bcond_agree 16 (reg s1 (rs w) <? 0) (negb (Z.land (Machine.reg m1 (rs w)) Mips.SIGN_BIT =? 0)) s1 m1); try done; try (by rewrite Eo);
      [eapply bcond_switch; [by apply bcond_in; rewrite Eo|reflexivity]|apply Hlink; tauto|rewrite Hsign1 by done; symmetry; apply Hneg].
Qed.

Lemma beq_agree : Mips.opCode i = Mips.OP_BEQ → pc s = s32 (xpc + 4) → both.
Proof.
  intros Eo Hp. pose proof (proj1 Hm) as Hr. pose proof (rs_range w) as Hrs. pose proof (rt_range w) as Hrt.
  destruct (d_code _ _ Hd 4 0) as (H0 & _ & _ & _ & He); [rewrite Eo; vm_compute; reflexivity|].
  destruct (branch_agree s m (reg s (rs w) =? reg s (rt w)) Hm Hrel Hp (He ltac:(lia))) as (s' & B1 & B2 & B3). exists s', m. split; [|split; [|done]].
  - rewrite <- B1. unfold execute. cbv zeta. rewrite H0. reflexivity.
  - rewrite <- B2. apply Mips.execute_part. left. unfold Mips.exec_add_bne.
    rewrite Eo, (d_rs _ _ Hd), (d_rt _ _ Hd), !Machine.rget_ok by (done || Mips.reg_range). cbn [mbind result_bind]. by rewrite eq_agree.
Qed.

Lemma bne_agree : Mips.opCode i = Mips.OP_BNE → pc s = s32 (xpc + 4) → both.
Proof.
  intros Eo Hp. pose proof (proj1 Hm) as Hr. pose proof (rs_range w) as Hrs. pose proof (rt_range w) as Hrt.
  destruct (d_code _ _ Hd 5 0) as (H0 & _ & _ & _ & He); [rewrite Eo; vm_compute; reflexivity|].
  destruct (branch_agree s m (negb (reg s (rs w) =? reg s (rt w))) Hm Hrel Hp (He ltac:(lia))) as (s' & B1 & B2 & B3).
  exists s', m. split; [|split; [|done]].
  - rewrite <- B1. unfold execute. cbv zeta. rewrite H0. reflexivity.
  - rewrite <- B2. apply Mips.execute_part. left. unfold Mips.exec_add_bne.
    rewrite Eo, (d_rs _ _ Hd), (d_rt _ _ Hd), !Machine.rget_ok by (done || Mips.reg_range). cbn [mbind result_bind]. by rewrite eq_agree.
Qed.

(** [JR] and [JALR]. *)
Lemma register_jumps_agree :
  Mips.opCode i = Mips.OP_JR ∨ (Mips.opCode i = Mips.OP_JALR ∧ pc s = s32 (xpc + 4) ∧ rd w ≠ rs w) → both.
Proof.
  intros Hop. pose proof (proj1 Hm) as Hr. pose proof (rs_range w). pose proof (rd_range w).
  assert (∀ n, s32 (u32 (reg s n)) = reg s n) as Hsr by (intros; rewrite s32_u32; by apply s32_id, reg_s32).
  destruct Hop as [Eo|(Eo & Hp & Hne)].
  - exists (set_npc s (reg s (rs w))), m. split; [|split; [|by apply related_npc]].
    + apply (run_special E sys unix s xpc w i Hd _ 8); [rewrite Eo; vm_compute; reflexivity|].
      intros Hf _. unfold special. cbv zeta. rewrite Hf. reflexivity.
    + apply Mips.execute_div_jr. unfold Mips.exec_div_jr. rewrite Eo, (d_rs _ _ Hd), Machine.rget_ok by (done || Mips.reg_range).
      cbn [mbind result_bind]. by rewrite (r_regs _ _ Hrel), Hsr.
  - destruct (link_agree (rd w) ltac:(done) Hp) as [HL1 HL2].
    exists (put (set_npc s (reg s (rs w))) (rd w) (xpc + 8)), (Machine.put_reg m (rd w) (Machine.reg m Machine.NextPCReg + 4)).
    split; [|split].
    + apply (run_special E sys unix s xpc w i Hd _ 9); [rewrite Eo; vm_compute; reflexivity|].
      intros Hf _. unfold special. cbv zeta. rewrite Hf. reflexivity.
    + apply Mips.execute_div_jr. unfold Mips.exec_div_jr. rewrite Eo, (d_rs _ _ Hd), (d_rd _ _ Hd), Machine.rget_ok by (done || Mips.reg_range).
      cbn [mbind result_bind]. rewrite Machine.rset_ok by (done || Mips.reg_range). cbn [mbind result_bind].
      rewrite Machine.rget_ok by (apply HL2 || Mips.reg_range). cbn [mbind result_bind].
      by rewrite Machine.reg_put_ne, (r_regs _ _ Hrel (rs w)), Hsr by lia.
    + exact (related_npc (put s (rd w) (xpc + 8)) _ HL1 (reg s (rs w))).
Qed.

Lemma jump_target : same_region xpc (npc s) = true → Mips.extra i = Z.land w 0x03ffffff →
  s32 (Z.lor (Z.land (u32 (npc s)) 0xf0000000) (Mips.IndexToAddr (Mips.extra i))) = target xpc w.
Proof.
  intros Hg He. apply Z.eqb_eq in Hg. unfold target, Mips.IndexToAddr. rewrite Hg, He. f_equal. f_equal. apply u32_id.
  change 0x03ffffff with (Z.ones 26). rewrite Z.land_ones, Z.shiftl_mul_pow2 by lia. pose proof (Z.mod_pos_bound w (2 ^ 26)). unfold is_u32. lia.
Qed.

(** [J] and [JAL]. *)
Lemma jumps_agree :
  same_region xpc (npc s) = true → Mips.opCode i = Mips.OP_J ∨ (Mips.opCode i = Mips.OP_JAL ∧ pc s = s32 (xpc + 4)) → both.
Proof.
  intros Hg Hop. pose proof (proj1 Hm) as Hr.
  destruct Hop as [Eo|[Eo Hp]].
  - destruct (d_code _ _ Hd 2 0) as (H0 & _ & _ & He & _); [rewrite Eo; vm_compute; reflexivity|].
    exists (set_npc s (target xpc w)), m. split; [unfold execute; cbv zeta; rewrite H0; reflexivity|]. split; [|by apply related_npc].
    apply Mips.execute_div_jr. unfold Mips.exec_div_jr. rewrite Eo. by rewrite jump_target by (done || (apply He; lia)).
  - destruct (d_code _ _ Hd 3 0) as (H0 & _ & _ & He & _); [rewrite Eo; vm_compute; reflexivity|].
    destruct (link_agree 31 ltac:(lia) Hp) as [HL1 HL2].
    exists (set_npc (put s 31 (xpc + 8)) (target xpc w)), (Machine.put_reg m 31 (Machine.reg m Machine.NextPCReg + 4)).
    split; [unfold execute; cbv zeta; rewrite H0; reflexivity|]. split; [|by apply related_npc].
    apply Mips.execute_div_jr. unfold Mips.exec_div_jr. rewrite Eo, Machine.rget_ok by (done || Mips.reg_range). cbn [mbind result_bind].
    rewrite Machine.rset_ok by (done || Mips.reg_range). cbn [mbind result_bind]. by rewrite jump_target by (done || (apply He; lia)).
Qed.

(** The registers HI and LO. *)
Lemma related_hilo hi lo v v' :
  u32 hi = u32 v → u32 lo = u32 v' →
  related (set_HILO s hi lo) (Machine.put_reg (Machine.put_reg m Machine.LoReg v') Machine.HiReg v) ∧
  related (set_HILO s hi lo) (Machine.put_reg (Machine.put_reg m Machine.HiReg v) Machine.LoReg v').
Proof.
  intros Hh Hl. pose proof (proj1 Hm) as Hr. destruct Hrel as [R1 R2 R3 R4].
  assert (Machine.wf_regs (Machine.put_reg m Machine.LoReg v')) by (apply Machine.put_reg_wf; done).
  assert (Machine.wf_regs (Machine.put_reg m Machine.HiReg v)) by (apply Machine.put_reg_wf; done).
  split; split; intros; simpl; repeat first
    [ rewrite Machine.reg_put_eq by (done || Mips.reg_range) | rewrite Machine.reg_put_ne by Mips.reg_range ]; auto.
Qed.

Lemma keep_hi : Machine.put_reg m Machine.HiReg (HI s) = m.
Proof.
  pose proof (proj1 Hm) as [Hl Hu _]. pose proof (r_hi _ _ Hrel) as Hh. unfold Machine.put_reg, Machine.reg in *.
  destruct (lookup_lt_is_Some_2 (Machine.registers m) (Z.to_nat Machine.HiReg)) as [x Hx]; [rewrite Hl; vm_compute; lia|].
  rewrite Hx in Hh. simpl in Hh. rewrite <- Hh, list_insert_id by done. by destruct m.
Qed.

Lemma keep_lo : Machine.put_reg m Machine.LoReg (LO s) = m.
Proof.
  pose proof (proj1 Hm) as [Hl Hu _]. pose proof (r_lo _ _ Hrel) as Hh. unfold Machine.put_reg, Machine.reg in *.
  destruct (lookup_lt_is_Some_2 (Machine.registers m) (Z.to_nat Machine.LoReg)) as [x Hx]; [rewrite Hl; vm_compute; lia|].
  rewrite Hx in Hh. simpl in Hh. rewrite <- Hh, list_insert_id by done. by destruct m.
Qed.

Lemma hilo_agree :
  match Mips.opCode i with Mips.OP_MFHI | Mips.OP_MFLO | Mips.OP_MTHI | Mips.OP_MTLO => True | _ => False end → both.
Proof.
  intros Hop. pose proof (proj1 Hm) as Hr. pose proof (rs_range w) as Hrs. pose proof (rd_range w) as Hrd.
  assert (u32 (reg s (rs w)) = u32 (Machine.reg m (rs w))) as Ha by (by rewrite (r_regs _ _ Hrel), u32_idem).
  assert (∀ f s', code_of (Mips.opCode i) = Some (0, f) → (Z.land w 0x3f = f → special sys unix s xpc w = Goes s') →
            execute E sys unix s xpc w = Goes s') as Hin by (intros; eapply run_special; eauto).
  unfold both, agree. destruct (Mips.opCode i) eqn:Eo; try contradiction Hop.
  - exists (put s (rd w) (HI s)), (Machine.put_reg m (rd w) (Machine.reg m Machine.HiReg)). split; [|split].
    + apply (Hin 16); [vm_compute; reflexivity|]. intros Hf. unfold special. cbv zeta. rewrite Hf. reflexivity.
    + apply Mips.execute_part. do 2 right. left. unfold Mips.exec_mfhi_sltu.
      rewrite Eo, (d_rd _ _ Hd), Machine.rget_ok by (done || Mips.reg_range). cbn [mbind result_bind]. by rewrite Mips.rset_next.
    + apply related_put; try done. by rewrite (r_hi _ _ Hrel), u32_idem.
  - exists (put s (rd w) (LO s)), (Machine.put_reg m (rd w) (Machine.reg m Machine.LoReg)). split; [|split].
    + apply (Hin 18); [vm_compute; reflexivity|]. intros Hf. unfold special. cbv zeta. rewrite Hf. reflexivity.
    + apply Mips.execute_part. do 2 right. left. unfold Mips.exec_mfhi_sltu.
      rewrite Eo, (d_rd _ _ Hd), Machine.rget_ok by (done || Mips.reg_range). cbn [mbind result_bind]. by rewrite Mips.rset_next.
    + apply related_put; try done. by rewrite (r_lo _ _ Hrel), u32_idem.
  - exists (set_HILO s (reg s (rs w)) (LO s)), (Machine.put_reg m Machine.HiReg (Machine.reg m (rs w))). split; [|split].
    + apply (Hin 17); [vm_compute; reflexivity|]. intros Hf. unfold special. cbv zeta. rewrite Hf. reflexivity.
    + apply Mips.execute_part. do 2 right. left. unfold Mips.exec_mfhi_sltu.
      rewrite Eo, (d_rs _ _ Hd), Machine.rget_ok by (done || Mips.reg_range). cbn [mbind result_bind]. by rewrite Machine.rset_ok.
    + rewrite <- keep_lo at 1. by apply related_hilo.
  - exists (set_HILO s (HI s) (reg s (rs w))), (Machine.put_reg m Machine.LoReg (Machine.reg m (rs w))). split; [|split].
    + apply (Hin 19); [vm_compute; reflexivity|]. intros Hf. unfold special. cbv zeta. rewrite Hf. reflexivity.
    + apply Mips.execute_part. do 2 right. left. unfold Mips.exec_mfhi_sltu.
      rewrite Eo, (d_rs _ _ Hd), Machine.rget_ok by (done || Mips.reg_range). cbn [mbind result_bind]. by rewrite Machine.rset_ok.
    + rewrite <- keep_hi at 1. by apply related_hilo.
Qed.

(** Divisions of words, and of integers that are not negative. *)
Lemma divisions_agree :
  (Mips.opCode i = Mips.OP_DIVU ∧ reg s (rt w) ≠ 0) ∨ (Mips.opCode i = Mips.OP_DIV ∧ 0 ≤ reg s (rs w) ∧ 0 < reg s (rt w)) → both.
Proof.
  intros Hop. pose proof (proj1 Hm) as Hr. pose proof (rs_range w) as Hrs. pose proof (rt_range w) as Hrt.
  pose proof (reg_s32 s (rs w) Hs) as Ha. pose proof (reg_s32 s (rt w) Hs) as Hb.
  set (a := u32 (reg s (rs w))). set (b := u32 (reg s (rt w))).
  assert (Machine.reg m (rs w) = a) as Ea by (by apply r_regs). assert (Machine.reg m (rt w) = b) as Eb by (by apply r_regs).
  assert (Machine.wf_regs (Machine.put_reg m Machine.LoReg (a / b))) as Hw1 by (apply Machine.put_reg_wf; done).
  destruct Hop as [[Eo Hnz]|(Eo & H1 & H2)].
  - assert (b ≠ 0) as Hb0.
    { intros Hz. apply Hnz. rewrite <- (s32_id _ Hb), <- s32_u32. fold b. by rewrite Hz. }
    eexists (set_HILO s (s32 (a mod b)) (s32 (a / b))), _. split; [|split].
    + apply (run_special E sys unix s xpc w i Hd _ 27); [rewrite Eo; vm_compute; reflexivity|].
      intros Hf _. unfold special. cbv zeta. rewrite Hf. apply Z.eqb_neq in Hnz. cbv [switch find fst snd]. simpl (_ =? _). by rewrite Hnz.
    + apply Mips.execute_div_jr. unfold Mips.exec_div_jr. rewrite Eo, (d_rs _ _ Hd), (d_rt _ _ Hd), !Machine.rget_ok by (done || Mips.reg_range).
      cbn [mbind result_bind]. rewrite Ea, Eb. apply Z.eqb_neq in Hb0. rewrite Hb0.
      rewrite Machine.rset_ok by (done || Mips.reg_range). cbn [mbind result_bind].
      rewrite Machine.rset_ok by (apply Machine.put_reg_wf || Mips.reg_range; done). reflexivity.
    + by apply related_hilo.
  - assert (a = reg s (rs w) ∧ b = reg s (rt w)) as [Za Zb] by (split; apply u32_id; unfold is_s32, is_u32 in *; lia).
    eexists (set_HILO s (a mod b) (a / b)), _. split; [|split].
    + apply (run_special E sys unix s xpc w i Hd _ 26); [rewrite Eo; vm_compute; reflexivity|].
      intros Hf _. unfold special. cbv zeta. rewrite Hf, Za, Zb. cbv [switch find fst snd]. simpl (_ =? _).
      destruct (Z.eqb_spec (reg s (rt w)) 0); [lia|]. destruct (Z.eqb_spec (reg s (rs w)) (- 2 ^ 31)); [lia|]. simpl orb.
      by rewrite Z.rem_mod_nonneg, Z.quot_div_nonneg by lia.
    + apply Mips.execute_div_jr. unfold Mips.exec_div_jr. rewrite Eo, (d_rs _ _ Hd), (d_rt _ _ Hd), !Machine.rget_ok by (done || Mips.reg_range).
      cbn [mbind result_bind]. rewrite Ea, Eb. destruct (Z.eqb_spec b 0); [lia|].
      rewrite Machine.rset_ok by (done || Mips.reg_range). cbn [mbind result_bind].
      rewrite !Machine.rget_ok by (done || Mips.reg_range). cbn [mbind result_bind].
      rewrite !Machine.reg_put_ne, Ea, Eb by Mips.reg_range. rewrite Machine.rset_ok by (done || Mips.reg_range). reflexivity.
    + by apply related_hilo.
Qed.

(** [BLEZ] and [BGTZ] on a number that is not negative. *)
Lemma zero_branches_agree :
  Mips.opCode i = Mips.OP_BLEZ ∨ Mips.opCode i = Mips.OP_BGTZ → pc s = s32 (xpc + 4) → 0 ≤ reg s (rs w) → both.
Proof.
  intros Hop Hp H0. pose proof (rs_range w) as Hrs. pose proof (reg_s32 s (rs w) Hs) as Ha.
  assert (Machine.reg m (rs w) = reg s (rs w)) as Ea
    by (rewrite (r_regs _ _ Hrel) by done; apply u32_id; unfold is_s32, is_u32 in *; lia).
  pose proof (Mips.branch_deviations E' m i (npc s) Hm Hi) as HB. cbv zeta in HB. rewrite (d_rs _ _ Hd), Ea in HB.
  destruct Hop as [Eo|Eo]; rewrite Eo in HB.
  - destruct (d_code _ _ Hd 6 0) as (Hk & _ & _ & _ & He); [rewrite Eo; vm_compute; reflexivity|].
    destruct (branch_agree s m (reg s (rs w) =? 0) Hm Hrel Hp (He ltac:(lia))) as (s' & B1 & B2 & B3).
    exists s', m. split; [|by rewrite HB]. rewrite <- B1. unfold execute. cbv zeta. rewrite Hk.
    change (branch s xpc w (reg s (rs w) <=? 0) = branch s xpc w (reg s (rs w) =? 0)). f_equal.
    destruct (Z.leb_spec (reg s (rs w)) 0), (Z.eqb_spec (reg s (rs w)) 0); done || lia.
  - destruct (d_code _ _ Hd 7 0) as (Hk & _ & _ & _ & He); [rewrite Eo; vm_compute; reflexivity|].
    destruct (branch_agree s m (negb (reg s (rs w) =? 0)) Hm Hrel Hp (He ltac:(lia))) as (s' & B1 & B2 & B3).
    exists s', m. split; [|by rewrite HB]. rewrite <- B1. unfold execute. cbv zeta. rewrite Hk.
    change (branch s xpc w (reg s (rs w) >? 0) = branch s xpc w (negb (reg s (rs w) =? 0))). f_equal.
    destruct (Z.gtb_spec (reg s (rs w)) 0), (Z.eqb_spec (reg s (rs w)) 0); done || lia.
Qed.

(** Two pairs of words that are the same number. *)
Lemma same_product h l h' l' :
  is_u32 h → is_u32 l → h * 2 ^ 32 + l = u32 h' * 2 ^ 32 + u32 l' → u32 h' = u32 h ∧ u32 l' = u32 l.
Proof.
  intros Hh Hl He. pose proof (u32_range h'). pose proof (u32_range l').
  rewrite (u32_id h), (u32_id l) by done. unfold is_u32 in *. lia.
Qed.

(** Multiplications whose carry is 0. *)
Lemma multiplications_agree (signed : bool) s' :
  Mips.opCode i = (if signed then Mips.OP_MULT else Mips.OP_MULTU) →
  execute E sys unix s xpc w = Goes s' → s' = set_HILO s (HI s') (LO s') →
  product s' = (if signed then (reg s (rs w) * reg s (rt w)) mod 2 ^ 64 else u32 (reg s (rs w)) * u32 (reg s (rt w))) → both.
Proof.
  intros Eo Hx Hs' Hp. pose proof (proj1 Hm) as Hr. pose proof (rs_range w) as Hrs. pose proof (rt_range w) as Hrt.
  pose proof (reg_s32 s (rs w) Hs) as Ha. pose proof (reg_s32 s (rt w) Hs) as Hb.
  pose proof (Mips.mult_correct (reg s (rs w)) (reg s (rt w)) signed Ha Hb) as HM.
  destruct (Mips.Mult (reg s (rs w)) (reg s (rt w)) signed) as [h l] eqn:EM. destruct HM as (Hh & Hl & HM).
  destruct (same_product h l (HI s') (LO s') Hh Hl) as [Eh El]; [rewrite HM, <- Hp; done|].
  exists s', (Machine.put_reg (Machine.put_reg m Machine.HiReg h) Machine.LoReg l). split; [exact Hx|]. split.
  - apply Mips.execute_part. do 2 right. left. unfold Mips.exec_mfhi_sltu.
    assert (Machine.wf_regs (Machine.put_reg m Machine.HiReg h)) by (apply Machine.put_reg_wf; done).
    rewrite Eo. replace (npc s') with (npc s) by (by rewrite Hs').
    destruct signed; rewrite (d_rs _ _ Hd), (d_rt _ _ Hd), !Machine.rget_ok by (done || Mips.reg_range); cbn [mbind result_bind];
      rewrite !(r_regs _ _ Hrel), !s32_u32, !s32_id, EM by done;
      rewrite Machine.rset_ok by (done || Mips.reg_range); cbn [mbind result_bind];
      rewrite Machine.rset_ok by (done || Mips.reg_range); reflexivity.
  - rewrite Hs'. by apply related_hilo.
Qed.

Lemma mult_agree : Mips.opCode i = Mips.OP_MULT → carry (Z.abs (reg s (rs w))) (Z.abs (reg s (rt w))) = 0 → both.
Proof.
  intros Eo Hc. pose proof (reg_s32 s (rs w) Hs) as Ha. pose proof (reg_s32 s (rt w) Hs) as Hb.
  apply (multiplications_agree true (MULT s (reg s (rs w)) (reg s (rt w)))); [done| | |].
  - apply (run_special E sys unix s xpc w i Hd _ 24); [rewrite Eo; vm_compute; reflexivity|].
    intros Hf _. unfold special. cbv zeta. rewrite Hf. reflexivity.
  - rewrite MULT_eq by done. cbv zeta. by destruct (xorb _ _).
  - rewrite mult_product, Hc by done. f_equal. lia.
Qed.

Lemma multu_agree :
  Mips.opCode i = Mips.OP_MULTU → 0 ≤ reg s (rs w) → 0 ≤ reg s (rt w) → carry (reg s (rs w)) (reg s (rt w)) = 0 → both.
Proof.
  intros Eo H1 H2 Hc. pose proof (reg_s32 s (rs w) Hs) as Ha. pose proof (reg_s32 s (rt w) Hs) as Hb.
  apply (multiplications_agree false (set_HILO s (high_word (reg s (rs w)) (reg s (rt w))) (s32 (reg s (rs w) * reg s (rt w)))));
    [done| |done|].
  - apply (run_special E sys unix s xpc w i Hd _ 25); [rewrite Eo; vm_compute; reflexivity|].
    intros Hf _. unfold special. cbv zeta. rewrite Hf. reflexivity.
  - unfold is_s32 in Ha, Hb. destruct (high_word_ok (reg s (rs w)) (reg s (rt w))) as (Eh & _ & Hp); [lia|lia|].
    rewrite !(s32_id (reg _ _)) in Eh, Hp by (unfold is_s32; lia). rewrite Hc in Eh. unfold product. cbn [HI LO set_HILO]. rewrite u32_s32.
    rewrite !(u32_id (reg _ _)) by (unfold is_u32; lia). set (p := reg s (rs w) * reg s (rt w)) in *.
    assert (0 ≤ p < 2 ^ 62) by (unfold p; nia). pose proof (Z.div_mod p (2 ^ 32) ltac:(lia)).
    assert (p / 2 ^ 32 < 2 ^ 32) by (apply Z.div_lt_upper_bound; lia).
    rewrite (u32_id (high_word _ _)) by (unfold is_u32; lia). unfold u32. lia.
Qed.

Lemma shared_agree : shared (Mips.opCode i) s xpc w = true → both.
Proof.
  intros H. destruct (Mips.opCode i) eqn:Eo; try discriminate H;
    try (apply alu_agree; rewrite ?Eo; done); try (apply partial_agree; rewrite ?Eo; done); try (apply hilo_agree; by rewrite Eo);
    cbn [shared] in H; rewrite ?andb_true_iff, ?negb_true_iff, ?Z.eqb_eq, ?Z.eqb_neq, ?Z.leb_le, ?Z.ltb_lt in H;
    first [ by apply beq_agree | by apply bne_agree | by apply mult_agree | apply multu_agree; tauto
          | apply sign_branches_agree; rewrite ?Eo; done | apply zero_branches_agree; tauto
          | apply divisions_agree; tauto | apply jumps_agree; tauto | apply register_jumps_agree; tauto ].
Qed.
End branches.
(** ** [ilog2] *)

(** A round of [ilog2] on a number whose bits are in one block of [2 * k]. *)
Lemma land_block mask k b n :
  0 < k → 0 ≤ b → 0 ≤ n < 2 ^ (2 * k) → Z.shiftr mask b mod 2 ^ (2 * k) = Z.shiftl (Z.ones k) k →
  Z.land (n * 2 ^ b) mask = n / 2 ^ k * 2 ^ (b + k).
Proof.
  intros Hk Hb Hn Hm. rewrite <- !Z.shiftl_mul_pow2, <- Z.shiftr_div_pow2 by lia. apply Z.bits_inj'. intros j Hj.
  rewrite Z.land_spec, !Z.shiftl_spec by lia. destruct (decide (j < b)) as [Hjb|Hjb].
  { rewrite (Z.testbit_neg_r n), (Z.testbit_neg_r (Z.shiftr n k)) by lia. done. }
  destruct (decide (b + 2 * k ≤ j)) as [Hj2|Hj2].
  { rewrite Z.shiftr_spec by lia. replace (j - (b + k) + k) with (j - b) by lia.
    assert (Z.testbit n (j - b) = false) as ->; [|done].
    rewrite <- (Z.mod_small n (2 ^ (2 * k))) by lia. apply Z.mod_pow2_bits_high. lia. }
  assert (Z.testbit mask j = negb (j <? b + k)) as ->.
  { apply (f_equal (λ z, Z.testbit z (j - b))) in Hm. rewrite Z.mod_pow2_bits_low, Z.shiftr_spec in Hm by lia.
    replace (j - b + b) with j in Hm by lia. rewrite Hm, Z.shiftl_spec by lia. destruct (Z.ltb_spec j (b + k)).
    - by rewrite Z.testbit_neg_r by lia.
    - rewrite Z.testbit_ones_nonneg by lia. simpl. apply Z.ltb_lt. lia. }
  destruct (Z.ltb_spec j (b + k)); simpl.
  - by rewrite (Z.testbit_neg_r (Z.shiftr n k)), andb_false_r by lia.
  - rewrite Z.shiftr_spec, andb_true_r by lia. f_equal. lia.
Qed.

(** What is known before a round: the number is [n * 2 ^ b] with [n] of at most
    [k] bits, and [l] counts the block. *)
Definition in_block (k i0 : Z) (il : Z * Z) : Prop :=
  ∃ n b, u32 il.1 = n * 2 ^ b ∧ 0 < n < 2 ^ k ∧ 0 ≤ b ∧ b + k ≤ 32 ∧ (k | b) ∧ il.2 = b + 1 ∧ Z.log2 (u32 i0) = b + Z.log2 n.

Lemma round_ok mask k i0 il :
  0 < k → (∀ b, 0 ≤ b → b + 2 * k ≤ 32 → (2 * k | b) → Z.shiftr mask b mod 2 ^ (2 * k) = Z.shiftl (Z.ones k) k) →
  in_block (2 * k) i0 il → in_block k i0 (ilog2_round mask k il).
Proof.
  intros Hk Hmask (n & b & Hi & Hn & Hb & Hbk & Hdiv & Hl & Hlog). destruct il as [i l]. cbn [fst snd] in *. unfold ilog2_round.
  assert (Z.land (u32 i) mask = n / 2 ^ k * 2 ^ (b + k)) as Hland by (rewrite Hi; apply land_block; [done|done|lia|by apply Hmask]).
  assert (0 ≤ n / 2 ^ k < 2 ^ k) as Hq.
  { split; [apply Z.div_pos; lia|]. apply Z.div_lt_upper_bound; [lia|]. rewrite <- Z.pow_add_r by lia. replace (k + k) with (2 * k) by lia. lia. }
  assert (0 ≤ n / 2 ^ k * 2 ^ (b + k) < 2 ^ 32) as Hw.
  { split; [apply Z.mul_nonneg_nonneg; lia|]. apply Z.lt_le_trans with (2 ^ k * 2 ^ (b + k)); [apply Z.mul_lt_mono_pos_r; lia|].
    rewrite <- Z.pow_add_r by lia. apply Z.pow_le_mono_r; lia. }
  rewrite Hland. assert (u32 (s32 (n / 2 ^ k * 2 ^ (b + k))) = n / 2 ^ k * 2 ^ (b + k)) as Hu by (rewrite u32_s32; by apply u32_id).
  destruct (Z.eqb_spec (s32 (n / 2 ^ k * 2 ^ (b + k))) 0) as [Hz|Hz]; cbn [negb].
  - rewrite Hz in Hu. assert (n / 2 ^ k = 0) as Hn0 by (change (u32 0) with 0 in Hu; nia).
    exists n, b. simpl. split_and!; try done; try lia; [|destruct Hdiv as [q ->]; exists (2 * q); lia].
    apply Z.div_small_iff in Hn0; lia.
  - exists (n / 2 ^ k), (b + k). simpl. split_and!; try done; try lia.
    + assert (n / 2 ^ k ≠ 0); [|lia]. intros H0. apply Hz. by rewrite H0.
    + destruct Hdiv as [q ->]. exists (2 * q + 1). lia.
    + rewrite Hlog. rewrite <- Z.shiftr_div_pow2, Z.log2_shiftr by lia.
      assert (k ≤ Z.log2 n); [|lia]. apply Z.log2_le_pow2; [lia|]. destruct (Z.le_gt_cases (2 ^ k) n) as [|Hlt]; [done|].
      exfalso. apply Hz. by rewrite Z.div_small by lia.
Qed.

Lemma mask_blocks mask k :
  0 < k → forallb (λ q, Z.shiftr mask (2 * k * Z.of_nat q) mod 2 ^ (2 * k) =? Z.shiftl (Z.ones k) k) (seq 0 (Z.to_nat (32 / (2 * k)))) = true →
  ∀ b, 0 ≤ b → b + 2 * k ≤ 32 → (2 * k | b) → Z.shiftr mask b mod 2 ^ (2 * k) = Z.shiftl (Z.ones k) k.
Proof.
  intros Hk HF b Hb Hle [q ->]. rewrite forallb_forall in HF. apply Z.eqb_eq. replace (q * (2 * k)) with (2 * k * Z.of_nat (Z.to_nat q)) by nia.
  apply HF, in_seq. split; [lia|]. assert (q + 1 ≤ 32 / (2 * k)); [apply Z.div_le_lower_bound; nia|]. nia.
Qed.

Lemma ilog2_ok i : is_s32 i → i ≠ 0 → ilog2 i = Z.log2 (u32 i) + 1.
Proof.
  intros Hi H0. unfold ilog2. destruct (Z.eqb_spec i 0) as [|_]; [done|].
  assert (u32 i ≠ 0) as Hu by (intros Hz; apply H0; rewrite <- (s32_id i Hi), <- s32_u32, Hz; done).
  assert (in_block (2 * 16) i (i, 1)) as B0.
  { exists (u32 i), 0. pose proof (u32_range i). unfold is_u32 in *. simpl fst. simpl snd. split_and!; try lia. by exists 0. }
  assert (∀ mask k il, 0 < k → forallb (λ q, Z.shiftr mask (2 * k * Z.of_nat q) mod 2 ^ (2 * k) =? Z.shiftl (Z.ones k) k)
            (seq 0 (Z.to_nat (32 / (2 * k)))) = true → in_block (2 * k) i il → in_block k i (ilog2_round mask k il)) as Hround
    by (intros; apply round_ok; [done|by apply mask_blocks|done]).
  apply (Hround 0xffff0000 16) in B0; [|lia|by vm_compute]. apply (Hround 0xff00ff00 8) in B0; [|lia|by vm_compute].
  apply (Hround 0xf0f0f0f0 4) in B0; [|lia|by vm_compute]. apply (Hround 0xcccccccc 2) in B0; [|lia|by vm_compute].
  apply (Hround 0xaaaaaaaa 1) in B0; [|lia|by vm_compute].
  destruct B0 as (n & b & _ & Hn & _ & _ & _ & Hl & Hlog). replace n with 1 in Hlog by lia. cbv zeta. rewrite Hl, Hlog. change (Z.log2 1) with 0. lia.
Qed.

(** ** The arguments of a program *)

Lemma byte_set_bytes bs : ∀ m k j,
  byte_at (set_bytes m k bs) j = if (k <=? j) && (j <? k + Z.of_nat (length bs)) then nth (Z.to_nat (j - k)) bs 0 else byte_at m j.
Proof.
  induction bs as [|b bs IH]; intros m k j; cbn [set_bytes length].
  - destruct (Z.leb_spec k j), (Z.ltb_spec j (k + Z.of_nat 0)); simpl; done || lia.
  - rewrite IH. destruct (decide (j = k)) as [->|Hne].
    + destruct (Z.leb_spec (k + 1) k), (Z.leb_spec k k), (Z.ltb_spec k (k + Z.of_nat (S (length bs)))); simpl; try lia.
      rewrite Z.sub_diag. unfold byte_at. by rewrite lookup_insert_eq.
    + replace (k + Z.of_nat (S (length bs))) with (k + 1 + Z.of_nat (length bs)) by lia.
      destruct (Z.leb_spec (k + 1) j), (Z.leb_spec k j); try lia; simpl.
      * case_match; [|unfold byte_at; by rewrite lookup_insert_ne by lia].
        replace (Z.to_nat (j - k)) with (S (Z.to_nat (j - (k + 1)))) by lia. done.
      * unfold byte_at. by rewrite lookup_insert_ne by lia.
Qed.

Lemma bytes_set_same m k bs : bytes_at (set_bytes m k bs) k (length bs) = bs.
Proof.
  apply list_eq. intros j. unfold bytes_at. rewrite list_lookup_fmap. destruct (decide (j < length bs)%nat) as [Hj|Hj].
  - rewrite lookup_seq_lt by done. simpl. rewrite byte_set_bytes.
    destruct (Z.leb_spec k (k + Z.of_nat j)), (Z.ltb_spec (k + Z.of_nat j) (k + Z.of_nat (length bs))); try lia. simpl.
    replace (Z.to_nat (k + Z.of_nat j - k)) with j by lia. destruct (lookup_lt_is_Some_2 bs j Hj) as [x Hx].
    rewrite Hx. f_equal. by apply nth_lookup_Some.
  - rewrite lookup_seq_ge by lia. symmetry. apply lookup_ge_None. lia.
Qed.

(** Memory is the same outside of [lo, hi). *)
Definition same_outside (lo hi : Z) (m m' : gmap Z Z) : Prop := ∀ j, ¬ (lo ≤ j < hi) → byte_at m' j = byte_at m j.

Lemma bytes_outside lo hi m m' k n :
  same_outside lo hi m m' → k + Z.of_nat n ≤ lo ∨ hi ≤ k → bytes_at m' k n = bytes_at m k n.
Proof.
  intros H Hk. unfold bytes_at. apply list_fmap_ext. intros j x [-> Hx]%lookup_seq. apply H. lia.
Qed.

(** Where the arguments go: the addresses of the strings, from [ai] on. *)
Fixpoint addresses (ai : Z) (argv : list (list Z)) : list Z :=
  match argv with [] => [] | arg :: argv => ai :: addresses (ai + Z.of_nat (length arg) + 1) argv end.

Definition total (argv : list (list Z)) : Z := foldr (λ arg z, Z.of_nat (length arg) + 1 + z) 0 argv.

Lemma total_app_nonneg argv : 0 ≤ total argv.
Proof. induction argv; simpl; lia. Qed.

Section arguments.
Context (E : bool).

(** The word at an address of the program. *)
Definition word_in (m : gmap Z Z) (addr : Z) : Z := int_at E (bytes_at m (addr - memoffset) 4) 0.

Definition argument_at (m : gmap Z Z) (aci a : Z) (arg : list Z) : Prop :=
  word_in m aci = a ∧ bytes_at m (a - memoffset) (S (length arg)) = arg ++ [0].

Fixpoint arguments_at (m : gmap Z Z) (aci ai : Z) (argv : list (list Z)) : Prop :=
  match argv with
  | [] => True
  | arg :: argv => argument_at m aci ai arg ∧ arguments_at m (aci + 4) (ai + Z.of_nat (length arg) + 1) argv
  end.

Lemma store_ok s addr v : memoffset ≤ addr → addr + 4 ≤ memoffset + MEMSIZE →
  store E s addr v = Goes (set_mem s (set_bytes (mem s) (addr - memoffset) (int_bytes E v))).
Proof.
  intros H1 H2. unfold store, store_at, at_mem. destruct (Z.leb_spec 0 (addr - memoffset)), (Z.leb_spec (addr - memoffset + 4) MEMSIZE); try lia. done.
Qed.

Lemma strcpy_ok s ai arg : memoffset ≤ ai → ai + Z.of_nat (length arg) + 1 ≤ memoffset + MEMSIZE →
  strcpy s ai arg = Goes (set_mem s (set_bytes (mem s) (ai - memoffset) (arg ++ [0]))).
Proof.
  intros H1 H2. unfold strcpy, at_mem.
  destruct (Z.leb_spec 0 (ai - memoffset)), (Z.leb_spec (ai - memoffset + (Z.of_nat (length arg) + 1)) MEMSIZE); try lia. done.
Qed.

Lemma word_set m addr v : is_s32 v → word_in (set_bytes m (addr - memoffset) (int_bytes E v)) addr = v.
Proof.
  intros Hv. unfold word_in. rewrite <- (int_bytes_length E v), bytes_set_same. pose proof (int_at_int E [] v [] 0%nat eq_refl Hv) as H.
  by rewrite app_nil_l, app_nil_r in H.
Qed.

(** Nothing but the pointers from [aci] on and the strings from [ai] on is
    written. *)
Definition frame (m m' : gmap Z Z) (aci ai : Z) (argv : list (list Z)) : Prop :=
  ∀ j, ¬ (aci ≤ j + memoffset < aci + 4 * Z.of_nat (length argv)) → ¬ (ai ≤ j + memoffset < ai + total argv) → byte_at m' j = byte_at m j.

Lemma bytes_same m m' k n : (∀ j, k ≤ j < k + Z.of_nat n → byte_at m' j = byte_at m j) → bytes_at m' k n = bytes_at m k n.
Proof. intros H. unfold bytes_at. apply list_fmap_ext. intros j x [-> Hx]%lookup_seq. apply H. lia. Qed.

Lemma arguments_ok argv : ∀ s aci ai,
  memoffset ≤ aci → aci + 4 * Z.of_nat (length argv) ≤ ai → ai + total argv ≤ memoffset + MEMSIZE →
  ∃ s', arguments E s aci ai argv = Goes s' ∧ arguments_at (mem s') aci ai argv ∧ frame (mem s) (mem s') aci ai argv ∧
        Reg s' = Reg s ∧ pc s' = pc s ∧ npc s' = npc s.
Proof.
  induction argv as [|arg argv IH]; intros s aci ai H1 H2 H3.
  { exists s. split_and!; try done. }
  cbn [length total foldr] in *. fold (total argv) in *. pose proof (total_app_nonneg argv) as Ht.
  assert (memoffset + MEMSIZE < 2 ^ 31) as HM by (by vm_compute). assert (0 < memoffset) as HM0 by (by vm_compute).
  cbn [arguments]. rewrite strcpy_ok by lia. cbn [mbind run_bind]. rewrite store_ok by lia. cbn [mbind run_bind].
  rewrite !s32_id by (unfold is_s32; lia). set (s1 := set_mem _ _).
  destruct (IH s1 (aci + 4) (ai + Z.of_nat (length arg) + 1)) as (s' & Es & Ha & Hf & R1 & R2 & R3); [lia..|].
  exists s'. split; [exact Es|]. split; [|split_and!; try done].
  - split; [|exact Ha]. split.
    + rewrite <- (word_set (set_bytes (mem s) (ai - memoffset) (arg ++ [0])) aci ai) by (unfold is_s32; lia).
      unfold word_in. f_equal. apply bytes_same. intros j Hj. apply Hf; lia.
    + transitivity (bytes_at (set_bytes (mem s) (ai - memoffset) (arg ++ [0])) (ai - memoffset) (length (arg ++ [0]))).
      2: apply bytes_set_same.
      replace (length (arg ++ [0])) with (S (length arg)) by (rewrite length_app; simpl; lia).
      apply bytes_same. intros j Hj. rewrite Hf by lia. simpl. rewrite byte_set_bytes, int_bytes_length.
      destruct (Z.leb_spec (aci - memoffset) j), (Z.ltb_spec j (aci - memoffset + Z.of_nat 4)); simpl; done || lia.
  - intros j Hj1 Hj2. change (total (arg :: argv)) with (Z.of_nat (length arg) + 1 + total argv) in Hj2. cbn [length] in Hj1.
    rewrite Hf by lia. simpl. rewrite !byte_set_bytes, int_bytes_length, length_app.
    repeat match goal with |- context [(?a <=? ?b) && (?c <? ?d)] => destruct (Z.leb_spec a b), (Z.ltb_spec c d); simpl; try lia end; simpl length in *; try lia; done.
Qed.

(** [runprogram] before its loop: argc on top of the stack, and behind it the
    pointers to the strings. *)
Lemma start_ok s startpc argv :
  typed s → (length argv ≤ 8)%nat → 36 + total argv ≤ 1024 →
  ∃ s', start E s startpc argv = Goes s' ∧ pc s' = startpc ∧ npc s' = s32 (startpc + 4) ∧ reg s' 29 = initial_sp ∧
        word_in (mem s') initial_sp = Z.of_nat (length argv) ∧ arguments_at (mem s') (initial_sp + 4) (initial_sp + 36) argv.
Proof.
  intros Hs Hl Ht. assert (memoffset + MEMSIZE < 2 ^ 31) as HM by (by vm_compute). assert (0 < memoffset) as HM0 by (by vm_compute).
  assert (1024 ≤ MEMSIZE) as HM1 by (by vm_compute). pose proof (total_app_nonneg argv) as Ht0.
  unfold start. cbv zeta. set (s1 := put _ 29 initial_sp). rewrite store_ok by (unfold initial_sp; lia). cbn [mbind run_bind].
  set (s2 := set_mem _ _). replace (initial_sp + 4 + 32) with (initial_sp + 36) by lia.
  destruct (arguments_ok argv s2 (initial_sp + 4) (initial_sp + 36)) as (s' & Es & Ha & Hf & R1 & R2 & R3); [unfold initial_sp; lia..|].
  exists s'. split; [exact Es|]. split_and!; try done.
  - unfold reg. rewrite R1. change (nth (Z.to_nat 29) (Reg s2) 0) with (reg s1 29). unfold s1.
    rewrite reg_put_same; [apply s32_id; unfold is_s32, initial_sp; lia|apply Hs|lia].
  - rewrite <- (word_set (mem s1) initial_sp (Z.of_nat (length argv))) by (unfold is_s32; lia).
    unfold word_in. f_equal. apply bytes_same. intros j Hj. apply Hf; lia.
Qed.
End arguments.

(** ** Properties *)


(** The arithmetic of bin/execute.c is that of the architecture, also for the
    instructions that mipssim.cc gets wrong: every register and immediate
    instruction writes the architecture's result to its destination, except
    that nothing traps on overflow, that an immediate operand of ANDI, ORI and
    XORI must not be negative and a variable shift must be by less than 32. *)
Theorem interpreter_alu E sys unix s xpc w i v :
  typed s → Mips.Decode (u32 w) = Ok i → conforms (Mips.opCode i) (u32 (reg s (rs w))) (Mips.extra i) = true →
  (Mips.mips_rr (no_trap (Mips.opCode i)) (u32 (reg s (rs w))) (u32 (reg s (rt w))) (Mips.extra i) = Some (Mips.Val v) →
   execute E sys unix s xpc w = Goes (put s (rd w) v)) ∧
  (Mips.mips_ri (no_trap (Mips.opCode i)) (u32 (reg s (rs w))) (Mips.extra i) = Some (Mips.Val v) →
   execute E sys unix s xpc w = Goes (put s (rt w) v)).
Proof.
  intros Hs Hdec Hc. apply decode_ok in Hdec.
  split; intros Hv; [by eapply rr_ok|by eapply ri_ok].
Qed.

(** C40: the multiplication of bin/execute.c forgets a carry: HI and LO together are
    the product of two signed numbers minus (plus, if the signs differ) the
    carry of the middle and low halves, which is 0, 1 or 2, times 2^32; they are
    the product exactly when the carry is 0. *)
Theorem mult_loses_carry s a b :
  is_s32 a → is_s32 b →
  let c := carry (Z.abs a) (Z.abs b) in
  product (MULT s a b) = (a * b - (if xorb (a <? 0) (b <? 0) then -1 else 1) * c * 2 ^ 32) mod 2 ^ 64 ∧
  0 ≤ c ≤ 2 ∧ (product (MULT s a b) = (a * b) mod 2 ^ 64 ↔ c = 0).
Proof.
  intros Ha Hb c. rewrite mult_product by done. fold c.
  assert (0 ≤ c ≤ 2) as Hc by (apply high_word_ok; by apply magnitude). split; [done|]. split; [done|]. split.
  - intros Heq. destruct (xorb _ _); Z.to_euclidean_division_equations; lia.
  - intros ->. f_equal. lia.
Qed.

(** A program finds its arguments: with at most eight, that fit in the 1024 bytes
    above the stack pointer, [runprogram] starts at [startpc] with the number of
    arguments at the stack pointer, and behind it a pointer to each, to a copy of
    the string with its zero. *)
Theorem program_finds_arguments E s startpc argv :
  typed s → (length argv ≤ 8)%nat → 36 + total argv ≤ 1024 →
  ∃ s', start E s startpc argv = Goes s' ∧ pc s' = startpc ∧ npc s' = s32 (startpc + 4) ∧ reg s' 29 = initial_sp ∧
        word_in E (mem s') initial_sp = Z.of_nat (length argv) ∧ arguments_at E (mem s') (initial_sp + 4) (initial_sp + 36) argv.
Proof. apply start_ok. Qed.

(** [ilog2] returns the number of bits of its argument read as unsigned, 0 for
    0. *)
Theorem ilog2_counts_bits i :
  is_s32 i → ilog2 i = if i =? 0 then 0 else Z.log2 (u32 i) + 1.
Proof. intros Hi. destruct (Z.eqb_spec i 0) as [->|H0]; [done|]. by apply ilog2_ok. Qed.

(** *** Examples *)

Definition blank : state := mkState (replicate 32 0) 0 0 ∅ memoffset (memoffset + 4).

Lemma blank_typed : typed blank.
Proof.
  split; try done; try (unfold is_s32, memoffset; simpl; lia).
  - apply Forall_replicate. unfold is_s32. lia.
Qed.

Definition no_unix (c : call) (m : gmap Z Z) : Z * gmap Z Z := (-1, m).
Definition sun : syscall_h := mkSyscalls 1 3 4 5 6 19 54 62 64.

(** ADDU r6, r4, r5 in both. *)
Definition with_4_5 (a b : Z) : state := mkState (<[4%nat := a]> (<[5%nat := b]> (replicate 32 0))) 0 0 ∅ 4 8.
Lemma with_4_5_typed a b : is_s32 a → is_s32 b → typed (with_4_5 a b).
Proof.
  intros Ha Hb. split; try done; try (unfold is_s32; simpl; lia).
  do 2 (apply Forall_insert; [|done]). apply Forall_replicate. unfold is_s32. lia.
Qed.

Lemma with_4_5_related a b : related (with_4_5 a b) (Mips.boot 0 a b).
Proof.
  split; try reflexivity. intros n Hn. assert (∃ k : nat, n = Z.of_nat k ∧ (k < 32)%nat) as (k & -> & Hk) by (exists (Z.to_nat n); lia).
  unfold reg, Machine.reg. rewrite Nat2Z.id. do 32 (destruct k as [|k]; [reflexivity|]). lia.
Qed.

Definition word_of (op rs rt rd sh f : Z) : Z := s32 (op * 2 ^ 26 + rs * 2 ^ 21 + rt * 2 ^ 16 + rd * 2 ^ 11 + sh * 2 ^ 6 + f).


(** SLT of -2 and 7, which mipssim.cc answers with 0. *)
Lemma interpreter_alu_witness :
  execute true sun no_unix (with_4_5 (-2) 7) 0 (word_of 0 4 5 6 0 0x2a) = Goes (put (with_4_5 (-2) 7) 6 1).
Proof.
  apply (proj1 (interpreter_alu true sun no_unix (with_4_5 (-2) 7) 0 (word_of 0 4 5 6 0 0x2a)
    (Mips.mkInstruction 0x0085302a Mips.OP_SLT 4 5 6 0) 1
    ltac:(apply with_4_5_typed; unfold is_s32; lia) ltac:(vm_compute; reflexivity) eq_refl)).
  vm_compute. reflexivity.
Defined.

(** 0x1ffff times itself is 0x3fffc0001; the interpreter answers 0x1fffc0001. *)
Lemma mult_loses_carry_witness : product (MULT blank 0x1ffff 0x1ffff) = 0x1fffc0001 ∧ carry 0x1ffff 0x1ffff = 2.
Proof.
  destruct (mult_loses_carry blank 0x1ffff 0x1ffff) as [H _]; [unfold is_s32; lia|unfold is_s32; lia|].
  split; [rewrite H; vm_compute; reflexivity|vm_compute; reflexivity].
Defined.

Lemma program_finds_arguments_witness :
  ∃ s', start false blank memoffset [[97; 98]; [99]] = Goes s' ∧ word_in false (mem s') initial_sp = 2 ∧
    argument_at false (mem s') (initial_sp + 8) (initial_sp + 39) [99].
Proof.
  destruct (program_finds_arguments false blank memoffset [[97; 98]; [99]] blank_typed) as (s' & A & _ & _ & _ & B & _ & C & _); [simpl; lia|simpl; lia|].
  exists s'. split; [exact A|]. split; [exact B|]. exact C.
Defined.

Lemma ilog2_counts_bits_witness : ilog2 8 = 4 ∧ ilog2 (-1) = 32.
Proof.
  split; [rewrite (ilog2_counts_bits 8)|rewrite (ilog2_counts_bits (-1))]; (vm_compute; reflexivity) || (unfold is_s32; lia).
Defined.

(** With nine arguments the last pointer is stored over the first string. *)
Example nine_arguments :
  match start false blank memoffset (replicate 9 [97; 98; 99]) with
  | Goes s => word_in false (mem s) (initial_sp + 36) = initial_sp + 68
  | _ => False
  end.
Proof. vm_compute. reflexivity. Qed.
End Interpreters.
