(* ===== verification/Disasm.v ===== *)
(** * The disassembler: bin/d.c, bin/opstrings.c, bin/disasm.c

    [dump_ascii] prints an instruction, [disasm] a listing of the program in
    memory.  What is printed is the string returned.  An assembler that reads the
    text back, with its own table of the mnemonics of the architecture and its own
    reading of register names, shows which instructions the text determines: all
    except those whose operands the code does not print (blez, bgtz, the
    coprocessors) or prints from the wrong field (jalr, mflo, mthi), and words in
    which a field that does not belong to the instruction is not 0. *)

From stdpp Require Import base list gmap strings.
From Stdlib Require Import Ascii.
From S2P Require Import Prelude Machine Bytes Mips Execute Interpreters.

Module Disasm.
Import Execute.
Local Open Scope string_scope.
Local Open Scope Z_scope.

(** ** printf *)

Definition hex_digit (d : Z) : ascii :=
  nth (Z.to_nat d) ["0"; "1"; "2"; "3"; "4"; "5"; "6"; "7"; "8"; "9"; "a"; "b"; "c"; "d"; "e"; "f"]%char "0"%char.

(** The last [n] hexadecimal digits. *)
Fixpoint digits (n : nat) (v : Z) : string :=
  match n with O => "" | S n => digits n (v / 16) +:+ String (hex_digit (v mod 16)) "" end.

(** Without zeros in front, but with at least one digit. *)
Fixpoint strip (s : string) : string :=
  match s with
  | String "0" r => match r with EmptyString => s | _ => strip r end
  | _ => s
  end.

(** %08x and %x, of an [int]. *)
Definition x8 (v : Z) : string := digits 8 (u32 v).
Definition x (v : Z) : string := strip (x8 v).

Definition tab : ascii := "009"%char.
Definition newline : ascii := "010"%char.

(** ** opstrings.c *)

Definition normalops : list string :=
  ["special"; "bcond"; "j"; "jal"; "beq"; "bne"; "blez"; "bgtz"; "addi"; "addiu"; "slti"; "sltiu"; "andi"; "ori"; "xori"; "lui";
   "cop0"; "cop1"; "cop2"; "cop3"; "024"; "025"; "026"; "027"; "030"; "031"; "032"; "033"; "034"; "035"; "036"; "037";
   "lb"; "lh"; "lwl"; "lw"; "lbu"; "lhu"; "lwr"; "047"; "sb"; "sh"; "swl"; "sw"; "054"; "055"; "swr"; "057";
   "lwc0"; "lwc1"; "lwc2"; "lwc3"; "064"; "065"; "066"; "067"; "swc0"; "swc1"; "swc2"; "swc3"; "074"; "075"; "076"; "077"].

Definition specialops : list string :=
  ["sll"; "001"; "srl"; "sra"; "sllv"; "005"; "srlv"; "srav"; "jr"; "jalr"; "012"; "013"; "syscall"; "break"; "016"; "017";
   "mfhi"; "mthi"; "mflo"; "mtlo"; "024"; "025"; "026"; "027"; "mult"; "multu"; "div"; "divu"; "034"; "035"; "036"; "037";
   "add"; "addu"; "sub"; "subu"; "and"; "or"; "xor"; "nor"; "050"; "051"; "slt"; "sltu"; "054"; "055"; "056"; "057";
   "060"; "061"; "062"; "063"; "064"; "065"; "066"; "067"; "070"; "071"; "072"; "073"; "074"; "075"; "076"; "077"].

(** ** d.c *)

Definition regstrings : list string :=
  ["0"; "r1"; "r2"; "r3"; "r4"; "r5"; "r6"; "r7"; "r8"; "r9"; "r10"; "r11"; "r12"; "r13"; "r14"; "r15"; "r16"; "r17"; "r18"; "r19";
   "r20"; "r21"; "r22"; "r23"; "r24"; "r25"; "r26"; "r27"; "gp"; "sp"; "r30"; "r31"].

(** [table[i]], for a field that is in range. *)
Definition at_ (table : list string) (i : Z) : string := nth (Z.to_nat i) table "".
Definition R (i : Z) : string := at_ regstrings i.

(** [case]s with the same statements. *)
Definition one_of (v : Z) (labels : list Z) : bool := existsb (Z.eqb v) labels.

(** The names printed for I_BCOND. *)
Definition bcond_name (rt : Z) : string :=
  switch rt [(I_BLTZ, "bltz"); (I_BGEZ, "bgez"); (I_BLTZAL, "bltzal"); (I_BGEZAL, "bgezal")] "BCOND".

Definition special_operands (opcode instruction : Z) : string :=
  let rd := R (rd instruction) in
  let rt := R (rt instruction) in
  let rs := R (rs instruction) in
  if one_of opcode [I_SLL; I_SRL; I_SRA] then rd +:+ "," +:+ rt +:+ ",0x" +:+ x (shamt instruction)
  else if one_of opcode [I_SLLV; I_SRLV; I_SRAV] then rd +:+ "," +:+ rt +:+ "," +:+ rs
  else if one_of opcode [I_JR; I_JALR; I_MFLO; I_MTLO] then rs
  else if one_of opcode [I_SYSCALL; I_BREAK] then ""
  else if one_of opcode [I_MFHI; I_MTHI] then rd
  else if one_of opcode [I_MULT; I_MULTU; I_DIV; I_DIVU] then rs +:+ "," +:+ rt
  else if one_of opcode [I_ADD; I_ADDU; I_SUB; I_SUBU; I_AND; I_OR; I_XOR; I_NOR; I_SLT; I_SLTU] then rd +:+ "," +:+ rs +:+ "," +:+ rt
  else "".

Definition normal_operands (opcode instruction pc : Z) : string :=
  let rt := R (rt instruction) in
  let rs := R (rs instruction) in
  if one_of opcode [I_J; I_JAL] then x8 (Z.lor (top4 pc) (off26 instruction))
  else if one_of opcode [I_BEQ; I_BNE] then rt +:+ "," +:+ rs +:+ "," +:+ x8 (s32 (off16 instruction + pc + 4))
  else if one_of opcode [I_ADDI; I_ADDIU; I_SLTI; I_SLTIU; I_ANDI; I_ORI; I_XORI] then rt +:+ "," +:+ rs +:+ ",0x" +:+ x (immed instruction)
  else if one_of opcode [I_LUI] then rt +:+ ",0x" +:+ x (immed instruction)
  else if one_of opcode [I_COP0; I_COP1; I_COP2; I_COP3] then ""
  else if one_of opcode [I_LB; I_LH; I_LWL; I_LW; I_LBU; I_LHU; I_LWR; I_SB; I_SH; I_SWL; I_SW; I_SWR;
                         I_LWC0; I_LWC1; I_LWC2; I_LWC3; I_SWC0; I_SWC1; I_SWC2; I_SWC3]
       then rt +:+ ",0x" +:+ x (immed instruction) +:+ "(" +:+ rs +:+ ")"
  else "".

Definition dump_ascii (longdis : bool) (instruction pc : Z) : string :=
  (if longdis then x8 pc +:+ ": " +:+ x8 instruction +:+ "  " else "") +:+ String tab
  (let opcode := Z.shiftr (u32 instruction) 26 in
   if instruction =? I_NOP then "nop"
   else if opcode =? I_SPECIAL then
     let opcode := Z.land instruction 0x3f in
     at_ specialops opcode +:+ String tab (special_operands opcode instruction)
   else if opcode =? I_BCOND then
     bcond_name (rt instruction) +:+ String tab (R (rs instruction) +:+ "," +:+ x8 (s32 (off16 instruction + pc + 4)))
   else at_ normalops opcode +:+ String tab (normal_operands opcode instruction pc)).

(** ** disasm.c *)

Section listing.
Context (HOST_IS_BIG_ENDIAN : bool).

(** [longdis] is 1 and nothing sets it. *)
Definition dis1 (s : state) (pc : Z) : run string :=
  instr ← fetch HOST_IS_BIG_ENDIAN s pc;
  Goes (dump_ascii true instr pc +:+ String newline "").

(** [for (i=0; i<texthead.s_size; i += 4)]: [fuel] bounds the rounds. *)
Fixpoint disasm_loop (fuel : nat) (s : state) (s_size i pc : Z) : run string :=
  match fuel with
  | O => Undefined
  | S fuel =>
    if i <? s_size then l ← dis1 s pc; r ← disasm_loop fuel s s_size (i + 4) (pc + 4); Goes (l +:+ r) else Goes ""
  end.

Definition disasm (s : state) (s_size : Z) : run string := disasm_loop (S (Z.to_nat s_size)) s s_size 0 memoffset.
End listing.

(** ** An assembler

    Nothing of it comes from the tables or constants of the program. *)

Fixpoint split_at (p : ascii → bool) (s : string) : list string :=
  match s with
  | EmptyString => [""]
  | String c s => if p c then "" :: split_at p s
                  else match split_at p s with f :: fs => String c f :: fs | [] => [String c ""] end
  end.

Definition sep (c : ascii) : bool := bool_decide (c ∈ [tab; ","; "("; ")"]%char).
Definition is_newline (c : ascii) : bool := bool_decide (c = newline).
Definition fields (s : string) : list string := split_at sep s.

(** A register: r and its number, or one of three names. *)
Definition decimal_value (c : ascii) : option Z :=
  (λ y, Z.of_nat y.1) <$> list_find (λ y, y = c) ["0"; "1"; "2"; "3"; "4"; "5"; "6"; "7"; "8"; "9"]%char.
Definition parse_reg (t : string) : option Z :=
  if bool_decide (t = "0") then Some 0
  else if bool_decide (t = "gp") then Some 28
  else if bool_decide (t = "sp") then Some 29
  else match t with
       | String "r" (String c EmptyString) => decimal_value c
       | String "r" (String c (String d EmptyString)) => c ← decimal_value c; d ← decimal_value d; Some (10 * c + d)
       | _ => None
       end.

Definition hex_value (c : ascii) : option Z :=
  (λ y, Z.of_nat y.1) <$> list_find (λ y, y = c) ["0"; "1"; "2"; "3"; "4"; "5"; "6"; "7"; "8"; "9"; "a"; "b"; "c"; "d"; "e"; "f"]%char.
Fixpoint unhex_from (acc : Z) (t : string) : option Z :=
  match t with EmptyString => Some acc | String c t => d ← hex_value c; unhex_from (acc * 16 + d) t end.
Definition unhex (t : string) : option Z := match t with EmptyString => None | _ => unhex_from 0 t end.
Definition un0x (t : string) : option Z := match t with String "0" (String "x" t) => unhex t | _ => None end.

(** How the operands of an instruction are written. *)
Inductive style :=
  | Shift | ShiftV | OnlyRs | OnlyRd | Nothing | RsRt | RdRsRt | Sign | Jump | Compare | Immediate | Upper | Memory.

(** Where the number of an instruction stands: in the last six bits, in the field
    rt, or in the first six bits. *)
Inductive code := CSpecial (f : Z) | CBcond (k : Z) | CNormal (op : Z).
#[global] Instance code_eq_dec : EqDecision code.
Proof. solve_decision. Defined.

(** The mnemonics of the architecture. *)
Definition mnemonics : list (string * code * style) :=
  [("sll", CSpecial 0x00, Shift); ("srl", CSpecial 0x02, Shift); ("sra", CSpecial 0x03, Shift);
   ("sllv", CSpecial 0x04, ShiftV); ("srlv", CSpecial 0x06, ShiftV); ("srav", CSpecial 0x07, ShiftV);
   ("jr", CSpecial 0x08, OnlyRs); ("mtlo", CSpecial 0x13, OnlyRs);
   ("mfhi", CSpecial 0x10, OnlyRd);
   ("syscall", CSpecial 0x0c, Nothing); ("break", CSpecial 0x0d, Nothing);
   ("mult", CSpecial 0x18, RsRt); ("multu", CSpecial 0x19, RsRt); ("div", CSpecial 0x1a, RsRt); ("divu", CSpecial 0x1b, RsRt);
   ("add", CSpecial 0x20, RdRsRt); ("addu", CSpecial 0x21, RdRsRt); ("sub", CSpecial 0x22, RdRsRt); ("subu", CSpecial 0x23, RdRsRt); ("and", CSpecial 0x24, RdRsRt);
   ("or", CSpecial 0x25, RdRsRt); ("xor", CSpecial 0x26, RdRsRt); ("nor", CSpecial 0x27, RdRsRt); ("slt", CSpecial 0x2a, RdRsRt); ("sltu", CSpecial 0x2b, RdRsRt);
   ("bltz", CBcond 0, Sign); ("bgez", CBcond 1, Sign); ("bltzal", CBcond 16, Sign); ("bgezal", CBcond 17, Sign);
   ("j", CNormal 0x02, Jump); ("jal", CNormal 0x03, Jump);
   ("beq", CNormal 0x04, Compare); ("bne", CNormal 0x05, Compare);
   ("addi", CNormal 0x08, Immediate); ("addiu", CNormal 0x09, Immediate); ("slti", CNormal 0x0a, Immediate); ("sltiu", CNormal 0x0b, Immediate);
   ("andi", CNormal 0x0c, Immediate); ("ori", CNormal 0x0d, Immediate); ("xori", CNormal 0x0e, Immediate);
   ("lui", CNormal 0x0f, Upper);
   ("lb", CNormal 0x20, Memory); ("lh", CNormal 0x21, Memory); ("lwl", CNormal 0x22, Memory); ("lw", CNormal 0x23, Memory); ("lbu", CNormal 0x24, Memory);
   ("lhu", CNormal 0x25, Memory); ("lwr", CNormal 0x26, Memory); ("sb", CNormal 0x28, Memory); ("sh", CNormal 0x29, Memory); ("swl", CNormal 0x2a, Memory);
   ("sw", CNormal 0x2b, Memory); ("swr", CNormal 0x2e, Memory); ("lwc0", CNormal 0x30, Memory); ("lwc1", CNormal 0x31, Memory); ("lwc2", CNormal 0x32, Memory);
   ("lwc3", CNormal 0x33, Memory); ("swc0", CNormal 0x38, Memory); ("swc1", CNormal 0x39, Memory); ("swc2", CNormal 0x3a, Memory); ("swc3", CNormal 0x3b, Memory)].

Definition code_named (name : string) : option code := (λ e, e.1.2) <$> find (λ e, bool_decide (e.1.1 = name)) mnemonics.
Definition style_of (c : code) : option style := snd <$> find (λ e, bool_decide (e.1.2 = c)) mnemonics.
Definition special_style (f : Z) : option style := style_of (CSpecial f).
Definition normal_style (op : Z) : option style := style_of (CNormal op).

Definition rword (rs rt rd sh f : Z) : Z := s32 (rs * 2 ^ 21 + rt * 2 ^ 16 + rd * 2 ^ 11 + sh * 2 ^ 6 + f).
Definition iword (op rs rt low : Z) : Z := s32 (op * 2 ^ 26 + rs * 2 ^ 21 + rt * 2 ^ 16 + low mod 2 ^ 16).

Definition assemble_special (f : Z) (ops : list string) : option Z :=
  match special_style f, ops with
  | Some Shift, [d; t; n] => d ← parse_reg d; t ← parse_reg t; n ← un0x n; Some (rword 0 t d n f)
  | Some ShiftV, [d; t; s] => d ← parse_reg d; t ← parse_reg t; s ← parse_reg s; Some (rword s t d 0 f)
  | Some OnlyRs, [s] => s ← parse_reg s; Some (rword s 0 0 0 f)
  | Some OnlyRd, [d] => d ← parse_reg d; Some (rword 0 0 d 0 f)
  | Some Nothing, [_] => Some (rword 0 0 0 0 f)
  | Some RsRt, [s; t] => s ← parse_reg s; t ← parse_reg t; Some (rword s t 0 0 f)
  | Some RdRsRt, [d; s; t] => d ← parse_reg d; s ← parse_reg s; t ← parse_reg t; Some (rword s t d 0 f)
  | _, _ => None
  end.

(** The offset of a branch at [pc] to [t]. *)
Definition offset_to (pc t : Z) : Z := (t - pc - 4) mod 2 ^ 32 / 4.

Definition assemble_normal (op pc : Z) (ops : list string) : option Z :=
  match normal_style op, ops with
  | Some Jump, [a] => a ← unhex a; Some (s32 (op * 2 ^ 26 + a / 4 mod 2 ^ 26))
  | Some Compare, [t; s; a] => t ← parse_reg t; s ← parse_reg s; a ← unhex a; Some (iword op s t (offset_to pc a))
  | Some Immediate, [t; s; n] => t ← parse_reg t; s ← parse_reg s; n ← un0x n; Some (iword op s t n)
  | Some Upper, [t; n] => t ← parse_reg t; n ← un0x n; Some (iword op 0 t n)
  | Some Memory, [t; n; s; _] => t ← parse_reg t; n ← un0x n; s ← parse_reg s; Some (iword op s t n)
  | _, _ => None
  end.

Definition assemble_bcond (k pc : Z) (ops : list string) : option Z :=
  match style_of (CBcond k), ops with
  | Some Sign, [s; a] => s ← parse_reg s; a ← unhex a; Some (iword 1 s k (offset_to pc a))
  | _, _ => None
  end.

(** A line, the first field of which is not looked at. *)
Definition assemble (pc : Z) (text : string) : option Z :=
  match fields text with
  | [_; name] => if bool_decide (name = "nop") then Some 0 else None
  | _ :: name :: ops =>
    match code_named name with
    | Some (CSpecial f) => assemble_special f ops
    | Some (CBcond k) => assemble_bcond k pc ops
    | Some (CNormal op) => assemble_normal op pc ops
    | None => None
    end
  | _ => None
  end.

(** The instructions that the text determines: unused fields are 0. *)
Definition canonical (w : Z) : bool :=
  let op := Z.shiftr (u32 w) 26 in
  let f := Z.land w 0x3f in
  let zero i := i =? 0 in
  zero w ||
  if op =? 0 then
    match special_style f with
    | Some Shift => zero (rs w)
    | Some ShiftV | Some RdRsRt => zero (shamt w)
    | Some OnlyRs => zero (rt w) && zero (rd w) && zero (shamt w)
    | Some OnlyRd => zero (rs w) && zero (rt w) && zero (shamt w)
    | Some Nothing => zero (rs w) && zero (rt w) && zero (rd w) && zero (shamt w)
    | Some RsRt => zero (rd w) && zero (shamt w)
    | _ => false
    end
  else if op =? 1 then one_of (rt w) [0; 1; 16; 17]
  else match normal_style op with Some Upper => zero (rs w) | Some _ => true | None => false end.

Example disassembles :
  dump_ascii false (s32 0x8fbf0014) 0 = String tab ("lw" +:+ String tab "r31,0x14(sp)") ∧
  assemble 0 (dump_ascii true (s32 0x8fbf0014) 0) = Some (s32 0x8fbf0014) ∧
  assemble 0x100 (dump_ascii false (s32 0x1445fffe) 0x100) = Some (s32 0x1445fffe) ∧
  assemble 0x10000100 (dump_ascii true 0x0c000234 0x10000100) = Some 0x0c000234.
Proof. vm_compute. done. Qed.
(** ** Lemmas *)

(** *** Splitting *)

Fixpoint free (p : ascii → bool) (s : string) : bool :=
  match s with EmptyString => true | String c s => negb (p c) && free p s end.

Lemma free_app p a b : free p (a +:+ b) = free p a && free p b.
Proof. induction a as [|c a IH]; simpl; [done|]. by rewrite IH, andb_assoc. Qed.

Lemma split_at_free p a : free p a = true → split_at p a = [a].
Proof.
  induction a as [|c a IH]; simpl; [done|]. intros [Hc Ha]%andb_true_iff. apply negb_true_iff in Hc. by rewrite Hc, IH.
Qed.

Lemma split_at_first p a c s : free p a = true → p c = true → split_at p (a +:+ String c s) = a :: split_at p s.
Proof.
  intros Ha Hc. induction a as [|d a IH]; simpl in *; [by rewrite Hc|]. apply andb_true_iff in Ha as [Hd Ha].
  apply negb_true_iff in Hd. by rewrite Hd, IH.
Qed.

Lemma append_assoc (a b c : string) : (a +:+ b) +:+ c = a +:+ (b +:+ c).
Proof. induction a as [|d a IH]; [done|]. change (String d ((a +:+ b) +:+ c) = String d (a +:+ (b +:+ c))). by rewrite IH. Qed.

(** *** Numbers and registers *)

(** [0 ≤ v < 16], or any other bound, by trial. *)
Lemma below (n : nat) (P : Z → bool) v : forallb (λ k, P (Z.of_nat k)) (seq 0 n) = true → 0 ≤ v < Z.of_nat n → P v = true.
Proof.
  intros HP Hv. rewrite forallb_forall in HP. specialize (HP (Z.to_nat v)). rewrite Z2Nat.id in HP by lia. apply HP, in_seq. lia.
Qed.

Lemma hex_value_digit d : 0 ≤ d < 16 → hex_value (hex_digit d) = Some d.
Proof.
  intros Hd. apply (bool_decide_eq_true_1 (hex_value (hex_digit d) = Some d)).
  exact (below 16 (λ d, bool_decide (hex_value (hex_digit d) = Some d)) d eq_refl Hd).
Qed.

(** The characters of numbers and names. *)
Definition plain_char (c : ascii) : bool := negb (sep c) && negb (is_newline c).

Lemma plain_free s : free (λ c, negb (plain_char c)) s = true → free sep s = true ∧ free is_newline s = true.
Proof.
  induction s as [|c s IH]; [done|]. cbn [free]. unfold plain_char at 1. rewrite negb_involutive.
  intros [[H1 H2]%andb_true_iff H3]%andb_true_iff. rewrite H1, H2. by apply IH.
Qed.

Lemma digit_plain d : 0 ≤ d < 16 → plain_char (hex_digit d) = true.
Proof. exact (below 16 (λ d, plain_char (hex_digit d)) d eq_refl). Qed.

Lemma digits_plain n : ∀ v, free (λ c, negb (plain_char c)) (digits n v) = true.
Proof.
  induction n as [|n IH]; intros v; [done|]. cbn [digits]. rewrite free_app, IH. cbn [free].
  rewrite digit_plain by (apply Z.mod_pos_bound; lia). done.
Qed.

Lemma strip_plain p s : free p s = true → free p (strip s) = true.
Proof.
  induction s as [|c s IH]; [done|]. intros H. simpl in *. apply andb_true_iff in H as [Hc Hs].
  repeat case_match; simpl; rewrite ?Hc, ?Hs; try done; by apply IH.
Qed.

Lemma unhex_from_app a b : ∀ acc, unhex_from acc (a +:+ b) = (v ← unhex_from acc a; unhex_from v b).
Proof. induction a as [|c a IH]; intros acc; [done|]. simpl. destruct (hex_value c); simpl; [apply IH|done]. Qed.

Lemma unhex_digits n : ∀ v, 0 ≤ v → unhex_from 0 (digits n v) = Some (v mod 16 ^ Z.of_nat n).
Proof.
  induction n as [|n IH]; intros v Hv; [by rewrite Z.mod_1_r|]. cbn [digits]. rewrite unhex_from_app, IH by (apply Z.div_pos; lia).
  simpl. rewrite hex_value_digit by (apply Z.mod_pos_bound; lia). simpl. f_equal.
  replace (16 ^ Z.of_nat (S n)) with (16 * 16 ^ Z.of_nat n) by (rewrite <- Z.pow_succ_r by lia; f_equal; lia).
  rewrite (Z.rem_mul_r v 16) by lia. lia.
Qed.

Lemma unhex_strip s : unhex_from 0 (strip s) = unhex_from 0 s.
Proof.
  induction s as [|c s IH]; [done|]. destruct (ascii_dec c "0") as [->|Hc].
  - destruct s as [|d s]; [done|]. change (strip (String "0" (String d s))) with (strip (String d s)). rewrite IH. done.
  - assert (strip (String c s) = String c s) as ->; [|done].
    destruct c as [[] [] [] [] [] [] [] []]; simpl; try done; by exfalso; apply Hc.
Qed.

Lemma digits_nonempty n v : digits (S n) v ≠ "".
Proof. cbn [digits]. by destruct (digits n (v / 16)). Qed.

Lemma strip_nonempty s : s ≠ "" → strip s ≠ "".
Proof.
  induction s as [|c s IH]; [done|]. intros _. destruct (ascii_dec c "0") as [->|Hc].
  - destruct s as [|d s]; [done|]. change (strip (String "0" (String d s))) with (strip (String d s)). by apply IH.
  - destruct c as [[] [] [] [] [] [] [] []]; simpl; try done; by exfalso; apply Hc.
Qed.

Lemma unhex_x8 v : unhex (x8 v) = Some (u32 v).
Proof.
  unfold unhex. pose proof (digits_nonempty 7 (u32 v)) as Hne. fold (x8 v) in Hne. destruct (x8 v) eqn:E; [done|]. rewrite <- E.
  unfold x8. pose proof (u32_range v) as [H0 H1]. rewrite unhex_digits by lia. f_equal. change (16 ^ Z.of_nat 8) with (2 ^ 32). by rewrite Z.mod_small.
Qed.

Lemma un0x_x v : un0x ("0x" +:+ x v) = Some (u32 v).
Proof.
  change (unhex (x v) = Some (u32 v)). unfold unhex, x. pose proof (strip_nonempty (x8 v) (digits_nonempty 7 (u32 v))) as Hne.
  destruct (strip (x8 v)) eqn:E; [done|]. rewrite <- E, unhex_strip. pose proof (unhex_x8 v) as H. unfold unhex in H.
  pose proof (digits_nonempty 7 (u32 v)) as Hn. fold (x8 v) in Hn. by destruct (x8 v).
Qed.

Definition clean (s : string) : Prop := free (λ c, negb (plain_char c)) s = true.

Lemma x8_clean v : clean (x8 v).
Proof. apply digits_plain. Qed.
Lemma x_clean v : clean (x v).
Proof. apply strip_plain, digits_plain. Qed.

Lemma parse_R r : 0 ≤ r < 32 → parse_reg (R r) = Some r.
Proof.
  intros Hr. apply (bool_decide_eq_true_1 (parse_reg (R r) = Some r)).
  exact (below 32 (λ r, bool_decide (parse_reg (R r) = Some r)) r eq_refl Hr).
Qed.
Lemma R_clean r : 0 ≤ r < 32 → clean (R r).
Proof. exact (below 32 (λ r, free (λ c, negb (plain_char c)) (R r)) r eq_refl). Qed.

Lemma normalops_clean k : 0 ≤ k < 64 → clean (at_ normalops k).
Proof. exact (below 64 (λ k, free (λ c, negb (plain_char c)) (at_ normalops k)) k eq_refl). Qed.
Lemma specialops_clean k : 0 ≤ k < 64 → clean (at_ specialops k).
Proof. exact (below 64 (λ k, free (λ c, negb (plain_char c)) (at_ specialops k)) k eq_refl). Qed.
(** *** Names *)

Lemma special_named f : 0 ≤ f < 64 → special_style f ≠ None → code_named (at_ specialops f) = Some (CSpecial f).
Proof.
  intros Hf Hs. pose proof (below 64 (λ f, bool_decide (special_style f = None ∨ code_named (at_ specialops f) = Some (CSpecial f))) f
    eq_refl Hf) as H.
  apply bool_decide_eq_true in H. by destruct H.
Qed.

Lemma normal_named op : 0 ≤ op < 64 → normal_style op ≠ None → code_named (at_ normalops op) = Some (CNormal op).
Proof.
  intros Hf Hs. pose proof (below 64 (λ op, bool_decide (normal_style op = None ∨ code_named (at_ normalops op) = Some (CNormal op))) op
    eq_refl Hf) as H.
  apply bool_decide_eq_true in H. by destruct H.
Qed.

Lemma bcond_named k :
  one_of k [0; 1; 16; 17] = true →
  code_named (bcond_name k) = Some (CBcond k) ∧ clean (bcond_name k) ∧ style_of (CBcond k) = Some Sign.
Proof.
  unfold one_of, existsb. rewrite !orb_true_iff, !Z.eqb_eq. intros [->|[->|[->|[->|H]]]]; [vm_compute; done..|done].
Qed.

(** *** The fields of a line *)

Lemma clean_app a b : clean a → clean b → clean (a +:+ b).
Proof. unfold clean. intros Ha Hb. by rewrite free_app, Ha, Hb. Qed.
Lemma clean_0x v : clean ("0x" +:+ x v).
Proof. apply clean_app; [done|apply x_clean]. Qed.

Lemma fields_one a : clean a → fields a = [a].
Proof. intros Ha. by apply split_at_free, plain_free. Qed.
Lemma fields_tab a s : clean a → fields (a +:+ String tab s) = a :: fields s.
Proof. intros Ha. apply split_at_first; [by apply plain_free|done]. Qed.
Lemma fields_comma a s : clean a → fields (a +:+ "," +:+ s) = a :: fields s.
Proof. intros Ha. apply (split_at_first sep a "," s); [by apply plain_free|done]. Qed.
Lemma fields_open a s : clean a → fields (a +:+ "(" +:+ s) = a :: fields s.
Proof. intros Ha. apply (split_at_first sep a "(" s); [by apply plain_free|done]. Qed.
Lemma fields_close a : clean a → fields (a +:+ ")") = [a; ""].
Proof. intros Ha. apply (split_at_first sep a ")" ""); [by apply plain_free|done]. Qed.
Lemma fields_prefix (longdis : bool) w pc s :
  fields ((if longdis then x8 pc +:+ ": " +:+ x8 w +:+ "  " else "") +:+ String tab s) =
    (if longdis then x8 pc +:+ ": " +:+ x8 w +:+ "  " else "") :: fields s.
Proof.
  apply fields_tab. destruct longdis; [|vm_compute; reflexivity].
  apply clean_app; [apply x8_clean|]. apply clean_app; [vm_compute; reflexivity|]. apply clean_app; [apply x8_clean|vm_compute; reflexivity].
Qed.

(** *** Words *)

Lemma field6 w : 0 ≤ Z.land w 0x3f < 64.
Proof. change 0x3f with (Z.ones 6). rewrite Z.land_ones by lia. apply Z.mod_pos_bound. lia. Qed.
Lemma opcode_range w : 0 ≤ Z.shiftr (u32 w) 26 < 64.
Proof.
  rewrite Z.shiftr_div_pow2 by lia. pose proof (u32_range w) as [H0 H1].
  split; [apply Z.div_pos; lia|]. apply Z.div_lt_upper_bound; lia.
Qed.


(** A word from its fields. *)
Lemma peel w a b : 0 ≤ a → 0 ≤ b → w / 2 ^ a = 2 ^ b * (w / 2 ^ (a + b)) + (w / 2 ^ a) mod 2 ^ b.
Proof. intros Ha Hb. rewrite Z.pow_add_r, <- Z.div_div by lia. apply Z.div_mod. lia. Qed.

Lemma s32_shift w k : s32 (w + k * 2 ^ 32) = s32 w.
Proof. unfold s32. rewrite <- Z.add_assoc, (Z.add_comm (k * _)), Z.add_assoc. by rewrite Z_mod_plus_full. Qed.

Lemma opcode_field w : Z.shiftr (u32 w) 26 = (w / 2 ^ 26) mod 2 ^ 6.
Proof.
  unfold u32. rewrite Z.shiftr_div_pow2, <- !Z.land_ones, <- !Z.shiftr_div_pow2 by lia. apply Z.bits_inj'. intros i Hi.
  rewrite Z.shiftr_spec, !Z.land_spec, Z.shiftr_spec, !Z.testbit_ones_nonneg by lia. f_equal.
  destruct (Z.ltb_spec (i + 26) 32), (Z.ltb_spec i 6); lia || done.
Qed.

Lemma jword_fields w : is_s32 w → s32 (Z.shiftr (u32 w) 26 * 2 ^ 26 + w mod 2 ^ 26) = w.
Proof.
  intros Hw. rewrite opcode_field. pose proof (peel w 0 26) as H1. pose proof (peel w 26 6) as H2.
  change (2 ^ 0) with 1 in H1. rewrite Z.div_1_r in H1. specialize (H1 ltac:(lia) ltac:(lia)). specialize (H2 ltac:(lia) ltac:(lia)).
  change (0 + 26) with 26 in H1. change (26 + 6) with 32 in H2.
  rewrite <- (s32_id w Hw) at 3. rewrite <- (s32_shift _ (w / 2 ^ 32)). f_equal. lia.
Qed.

Lemma iword_fields w : is_s32 w → iword (Z.shiftr (u32 w) 26) (rs w) (rt w) w = w.
Proof.
  intros Hw. rewrite <- (jword_fields w Hw) at 5. unfold iword, rs, rt. f_equal. change 0x1f with (Z.ones 5).
  rewrite !Z.land_ones, !Z.shiftr_div_pow2 by lia.
  pose proof (peel w 16 5 ltac:(lia) ltac:(lia)). pose proof (peel w 21 5 ltac:(lia) ltac:(lia)). change (16 + 5) with 21 in *. change (21 + 5) with 26 in *.
  rewrite !Z.mod_eq by lia. rewrite (Z.mod_eq (w / 2 ^ 16)), (Z.mod_eq (w / 2 ^ 21)) in * by lia. lia.
Qed.

Lemma rword_fields w : is_s32 w → Z.shiftr (u32 w) 26 = 0 → rword (rs w) (rt w) (rd w) (shamt w) (Z.land w 0x3f) = w.
Proof.
  intros Hw H0. rewrite <- (iword_fields w Hw) at 6. rewrite H0. unfold iword, rword. f_equal.
  unfold rd, shamt. change 0x1f with (Z.ones 5). change 0x3f with (Z.ones 6).
  rewrite !Z.land_ones, !Z.shiftr_div_pow2 by lia.
  pose proof (peel w 6 5 ltac:(lia) ltac:(lia)). pose proof (peel w 11 5 ltac:(lia) ltac:(lia)). change (6 + 5) with 11 in *. change (11 + 5) with 16 in *.
  rewrite (Z.mod_eq w (2 ^ 16)), (Z.mod_eq w (2 ^ 6)) by lia. lia.
Qed.

Lemma iword_low op s t a b : a mod 2 ^ 16 = b mod 2 ^ 16 → iword op s t a = iword op s t b.
Proof. unfold iword. by intros ->. Qed.

Lemma mod_mod_pow v a b : 0 ≤ b ≤ a → (v mod 2 ^ a) mod 2 ^ b = v mod 2 ^ b.
Proof.
  intros H. apply Z.mod_mod_divide. exists (2 ^ (a - b)). rewrite <- Z.pow_add_r by lia. f_equal. lia.
Qed.

Lemma immed_low w : u32 (immed w) mod 2 ^ 16 = w mod 2 ^ 16.
Proof. rewrite <- (Interpreters.immed_mod w). by apply mod_mod_pow. Qed.

Lemma branch_low w pc : offset_to pc (u32 (s32 (off16 w + pc + 4))) mod 2 ^ 16 = w mod 2 ^ 16.
Proof.
  rewrite <- (Interpreters.immed_mod w). unfold offset_to.
  assert ((u32 (s32 (off16 w + pc + 4)) - pc - 4) mod 2 ^ 32 = (immed w * 4) mod 2 ^ 32) as ->.
  { rewrite u32_s32. unfold u32, off16. rewrite <- Z.sub_add_distr, Zminus_mod_idemp_l.
    replace (s32 (Z.shiftl (immed w) 2) + pc + 4 - (pc + 4)) with (s32 (Z.shiftl (immed w) 2)) by lia.
    fold (u32 (s32 (Z.shiftl (immed w) 2))). by rewrite u32_s32, Z.shiftl_mul_pow2. }
  change (2 ^ 32) with (2 ^ 30 * 4). rewrite Zmult_mod_distr_r, Z.div_mul by lia. by apply mod_mod_pow.
Qed.

Lemma jump_low w pc : u32 (Z.lor (top4 pc) (off26 w)) / 4 mod 2 ^ 26 = w mod 2 ^ 26.
Proof.
  change 4 with (2 ^ 2). rewrite <- Z.shiftr_div_pow2, <- !Z.land_ones by lia. apply Z.bits_inj'. intros i Hi.
  rewrite !Z.land_spec, Z.shiftr_spec, u32_testbit, Z.testbit_ones_nonneg by lia.
  destruct (Z.ltb_spec i 26); [|by rewrite !andb_false_r]. destruct (Z.ltb_spec (i + 2) 32); [|lia]. rewrite andb_true_l, !andb_true_r.
  unfold top4, off26. rewrite Z.lor_spec, Z.land_spec, Z.shiftl_spec, Z.land_spec, Z.lnot_spec by lia.
  change (Z.shiftl 1 28 - 1) with (Z.ones 28). change (Z.shiftl 1 26 - 1) with (Z.ones 26).
  replace (i + 2 - 2) with i by lia. rewrite !Z.testbit_ones_nonneg by lia.
  destruct (Z.ltb_spec (i + 2) 28), (Z.ltb_spec i 26); try lia. by rewrite andb_false_r, andb_true_r.
Qed.

(** *** Reading back *)

(** What is printed for each way to write the operands. *)
Definition special_text (st : style) (w : Z) : string :=
  match st with
  | Shift => R (rd w) +:+ "," +:+ R (rt w) +:+ "," +:+ ("0x" +:+ x (shamt w))
  | ShiftV => R (rd w) +:+ "," +:+ R (rt w) +:+ "," +:+ R (rs w)
  | OnlyRs => R (rs w)
  | OnlyRd => R (rd w)
  | RsRt => R (rs w) +:+ "," +:+ R (rt w)
  | RdRsRt => R (rd w) +:+ "," +:+ R (rs w) +:+ "," +:+ R (rt w)
  | _ => ""
  end.

Definition normal_text (st : style) (w pc : Z) : string :=
  match st with
  | Jump => x8 (Z.lor (top4 pc) (off26 w))
  | Compare => R (rt w) +:+ "," +:+ R (rs w) +:+ "," +:+ x8 (s32 (off16 w + pc + 4))
  | Immediate => R (rt w) +:+ "," +:+ R (rs w) +:+ "," +:+ ("0x" +:+ x (immed w))
  | Upper => R (rt w) +:+ "," +:+ ("0x" +:+ x (immed w))
  | Memory => R (rt w) +:+ "," +:+ ("0x" +:+ x (immed w)) +:+ "(" +:+ R (rs w) +:+ ")"
  | _ => ""
  end.

Lemma special_printed f w st : 0 ≤ f < 64 → special_style f = Some st → special_operands f w = special_text st w.
Proof.
  intros Hf. replace f with (Z.of_nat (Z.to_nat f)) by lia. assert (Z.to_nat f < 64)%nat as Hn by lia. revert Hn. generalize (Z.to_nat f). intros n Hn.
  do 64 (destruct n as [|n]; [intros [= <-]; reflexivity|]). lia.
Qed.

Lemma normal_printed op w pc st : 0 ≤ op < 64 → normal_style op = Some st → normal_operands op w pc = normal_text st w pc.
Proof.
  intros Hf. replace op with (Z.of_nat (Z.to_nat op)) by lia. assert (Z.to_nat op < 64)%nat as Hn by lia. revert Hn. generalize (Z.to_nat op). intros n Hn.
  do 64 (destruct n as [|n]; [intros [= <-]; reflexivity|]). lia.
Qed.

Ltac range_ := match goal with
  | |- 0 ≤ rs ?w < _ => exact (Interpreters.rs_range w)
  | |- 0 ≤ rt ?w < _ => exact (Interpreters.rt_range w)
  | |- 0 ≤ rd ?w < _ => exact (Interpreters.rd_range w)
  end.
Ltac clean_ := match goal with
  | |- clean (R ?r) => apply (R_clean r); range_
  | |- clean (x8 ?v) => exact (x8_clean v)
  | |- clean ("0x" +:+ x ?v) => exact (clean_0x v)
  end.
Ltac fields_ := repeat match goal with
  | |- context [fields (?a +:+ "," +:+ ?s)] => rewrite (fields_comma a s) by clean_
  | |- context [fields (?a +:+ "(" +:+ ?s)] => rewrite (fields_open a s) by clean_
  | |- context [fields (?a +:+ ")")] => rewrite (fields_close a) by clean_
  | |- context [fields (R ?r)] => rewrite (fields_one (R r)) by clean_
  | |- context [fields (x8 ?v)] => rewrite (fields_one (x8 v)) by clean_
  | |- context [fields ("0x" +:+ x ?v)] => rewrite (fields_one ("0x" +:+ x v)) by clean_
  | |- context [fields ""] => change (fields "") with [""]
  end.
Ltac read_ := repeat match goal with
  | |- context [parse_reg (R ?r)] => rewrite (parse_R r) by range_
  | |- context [un0x ("0x" +:+ x ?v)] => rewrite (un0x_x v)
  | |- context [unhex (x8 ?v)] => rewrite (unhex_x8 v)
  | _ => progress cbn [mbind option_bind]
  end.
Ltac zeros := repeat match goal with
  | H : _ && _ = true |- _ => apply andb_true_iff in H as [? ?]
  | H : (_ =? 0) = true |- _ => apply Z.eqb_eq in H end.

#[local] Opaque x8 x R.

Lemma shamt_u32 w : u32 (shamt w) = shamt w.
Proof. apply u32_id. pose proof (Interpreters.shamt_range w). unfold is_u32. lia. Qed.

Lemma special_back w st :
  is_s32 w → Z.shiftr (u32 w) 26 = 0 → w ≠ 0 → canonical w = true → special_style (Z.land w 0x3f) = Some st →
  assemble_special (Z.land w 0x3f) (fields (special_text st w)) = Some w.
Proof.
  intros Hw H0 Hne Hc Hst. unfold canonical in Hc. rewrite H0, Hst in Hc. destruct (Z.eqb_spec w 0) as [|_]; [done|]. cbn [orb] in Hc.
  change (0 =? 0) with true in Hc. cbv iota in Hc. pose proof (rword_fields w Hw H0) as Hr.
  unfold assemble_special. rewrite Hst. clear Hst.
  destruct st; try discriminate Hc; zeros; cbn [special_text]; fields_; read_; rewrite ?shamt_u32;
    (apply (f_equal Some); etransitivity; [|exact Hr]; f_equal; first [symmetry; assumption|reflexivity]).
Qed.

Lemma normal_styles op st :
  0 ≤ op < 64 → normal_style op = Some st → st = Jump ∨ st = Compare ∨ st = Immediate ∨ st = Upper ∨ st = Memory.
Proof.
  intros Hop. replace op with (Z.of_nat (Z.to_nat op)) by lia. assert (Z.to_nat op < 64)%nat as Hn by lia. revert Hn. generalize (Z.to_nat op).
  intros n Hn. do 64 (destruct n as [|n]; [intros [= <-]; tauto|]). lia.
Qed.

Lemma normal_back w pc st :
  is_s32 w → normal_style (Z.shiftr (u32 w) 26) = Some st → (st = Upper → rs w = 0) →
  assemble_normal (Z.shiftr (u32 w) 26) pc (fields (normal_text st w pc)) = Some w.
Proof.
  intros Hw Hst Hu. unfold assemble_normal. rewrite Hst.
  assert (∀ n, n mod 2 ^ 16 = w mod 2 ^ 16 → iword (Z.shiftr (u32 w) 26) (rs w) (rt w) n = w) as Hi
    by (intros n Hn; rewrite (iword_low _ _ _ n w Hn); by apply iword_fields).
  assert (st = Jump ∨ st = Compare ∨ st = Immediate ∨ st = Upper ∨ st = Memory) as Hall
    by (apply (normal_styles _ st (opcode_range w) Hst)).
  clear Hst. destruct Hall as [->|[->|[->|[->| ->]]]]; cbn [normal_text]; fields_; read_; apply (f_equal Some).
  - rewrite jump_low. exact (jword_fields w Hw).
  - apply Hi, branch_low.
  - apply Hi, immed_low.
  - rewrite <- (Hu eq_refl). apply Hi, immed_low.
  - apply Hi, immed_low.
Qed.

Lemma canonical_cases w :
  canonical w = true → w ≠ 0 →
  let op := Z.shiftr (u32 w) 26 in
  (op = 0 ∧ ∃ st, special_style (Z.land w 0x3f) = Some st) ∨
  (op = 1 ∧ one_of (rt w) [0; 1; 16; 17] = true) ∨
  (op ≠ 0 ∧ op ≠ 1 ∧ ∃ st, normal_style op = Some st ∧ (st = Upper → rs w = 0)).
Proof.
  intros Hc Hne. cbv zeta. unfold canonical in Hc. cbv zeta in Hc. destruct (Z.eqb_spec w 0) as [|_]; [done|]. cbn [orb] in Hc.
  revert Hc. generalize (Z.shiftr (u32 w) 26). intros op Hc. destruct (Z.eqb_spec op 0) as [E0|H0]; [subst op|].
  - left. split; [done|]. destruct (special_style _) as [st|]; [by exists st|done].
  - right. destruct (Z.eqb_spec op 1) as [E1|H1]; [subst op; left; by split|]. right. split; [done|]. split; [done|].
    destruct (normal_style op) as [st|]; [|done]. exists st. split; [done|]. intros ->. by apply Z.eqb_eq in Hc.
Qed.

(** The text of an instruction that is not a no-op. *)
Definition body (w pc : Z) : string * string :=
  let op := Z.shiftr (u32 w) 26 in
  if op =? I_SPECIAL then (at_ specialops (Z.land w 0x3f), special_operands (Z.land w 0x3f) w)
  else if op =? I_BCOND then (bcond_name (rt w), R (rs w) +:+ "," +:+ x8 (s32 (off16 w + pc + 4)))
  else (at_ normalops op, normal_operands op w pc).

Lemma dump_ascii_body l w pc : w ≠ 0 →
  dump_ascii l w pc = (if l then x8 pc +:+ ": " +:+ x8 w +:+ "  " else "") +:+ String tab ((body w pc).1 +:+ String tab (body w pc).2).
Proof.
  intros Hne. unfold dump_ascii, body, I_NOP. cbv zeta. destruct (Z.eqb_spec w 0) as [|_]; [done|].
  destruct (_ =? I_SPECIAL); [reflexivity|]. destruct (_ =? I_BCOND); reflexivity.
Qed.

Lemma assemble_fields pc text a name t ops :
  fields text = a :: name :: t :: ops →
  assemble pc text = match code_named name with
                     | Some (CSpecial f) => assemble_special f (t :: ops)
                     | Some (CBcond k) => assemble_bcond k pc (t :: ops)
                     | Some (CNormal op) => assemble_normal op pc (t :: ops)
                     | None => None
                     end.
Proof. unfold assemble. by intros ->. Qed.

Lemma fields_cons s : ∃ t ops, fields s = t :: ops.
Proof. unfold fields. destruct s as [|c s]; simpl; [eauto|]. destruct (sep c); [eauto|]. destruct (split_at sep s); eauto. Qed.

Lemma assemble_body l w pc : w ≠ 0 → clean (body w pc).1 →
  assemble pc (dump_ascii l w pc) =
    match code_named (body w pc).1 with
    | Some (CSpecial f) => assemble_special f (fields (body w pc).2)
    | Some (CBcond k) => assemble_bcond k pc (fields (body w pc).2)
    | Some (CNormal op) => assemble_normal op pc (fields (body w pc).2)
    | None => None
    end.
Proof.
  intros Hne Hc. rewrite (dump_ascii_body l w pc Hne). destruct (fields_cons (body w pc).2) as (t & ops & Hf).
  rewrite (assemble_fields pc _ (if l then x8 pc +:+ ": " +:+ x8 w +:+ "  " else "") (body w pc).1 t ops); [by rewrite Hf|].
  rewrite fields_prefix, fields_tab by done. by rewrite Hf.
Qed.

Lemma assemble_back l w pc : is_s32 w → canonical w = true → assemble pc (dump_ascii l w pc) = Some w.
Proof.
  intros Hw Hc. destruct (decide (w = 0)) as [->|Hne].
  { unfold assemble, dump_ascii. rewrite fields_prefix. reflexivity. }
  pose proof (canonical_cases w Hc Hne) as Hcase. cbv zeta in Hcase.
  destruct Hcase as [[H0 [st Hst]]|[[H1 Hk]|(H0 & H1 & st & Hst & Hu)]].
  - pose proof (field6 w) as Hf. assert (body w pc = (at_ specialops (Z.land w 0x3f), special_operands (Z.land w 0x3f) w)) as Hb
      by (unfold body; by rewrite H0).
    rewrite assemble_body; rewrite ?Hb; cbn [fst snd]; [|done|by apply specialops_clean].
    rewrite special_named by (done || by rewrite Hst). rewrite (special_printed _ w st Hf Hst). by apply special_back.
  - assert (body w pc = (bcond_name (rt w), R (rs w) +:+ "," +:+ x8 (s32 (off16 w + pc + 4)))) as Hb by (unfold body; by rewrite H1).
    destruct (bcond_named _ Hk) as (N1 & N2 & N3). rewrite assemble_body; rewrite ?Hb; cbn [fst snd]; [|done..].
    rewrite N1. unfold assemble_bcond. rewrite N3. fields_. read_. apply (f_equal Some).
    rewrite (iword_low _ _ _ _ w (branch_low w pc)).
    transitivity (iword (Z.shiftr (u32 w) 26) (rs w) (rt w) w); [by rewrite H1|by apply iword_fields].
  - pose proof (opcode_range w) as Hf.
    assert (body w pc = (at_ normalops (Z.shiftr (u32 w) 26), normal_operands (Z.shiftr (u32 w) 26) w pc)) as Hb.
    { unfold body. apply Z.eqb_neq in H0, H1. unfold I_SPECIAL, I_BCOND. by rewrite H0, H1. }
    pose proof (normal_named _ Hf ltac:(by rewrite Hst)) as N1.
    rewrite assemble_body; rewrite ?Hb; cbn [fst snd]; [|done|by apply normalops_clean].
    rewrite N1, (normal_printed _ w pc st Hf Hst). by apply normal_back.
Qed.
(** *** The listing *)

Definition one_line (s : string) : Prop := free is_newline s = true.

Lemma clean_line s : clean s → one_line s.
Proof. intros Hs. by apply plain_free. Qed.
Lemma line_app a b : one_line a → one_line b → one_line (a +:+ b).
Proof. unfold one_line. intros Ha Hb. by rewrite free_app, Ha, Hb. Qed.
Lemma line_tab s : one_line s → one_line (String tab s).
Proof. done. Qed.

Ltac line_ := repeat match goal with
  | |- one_line (R ?r) => apply clean_line; clean_
  | |- one_line (x8 ?v) => exact (clean_line _ (x8_clean v))
  | |- one_line (x ?v) => exact (clean_line _ (x_clean v))
  | |- one_line (_ +:+ _) => apply line_app
  | |- one_line (String tab _) => apply line_tab
  | |- one_line (if ?b then _ else _) => destruct b
  | |- one_line _ => reflexivity
  end.

Lemma dump_one_line l w pc : one_line (dump_ascii l w pc).
Proof.
  pose proof (field6 w). pose proof (opcode_range w). unfold dump_ascii. cbv zeta. apply line_app; [line_|]. apply line_tab.
  destruct (w =? I_NOP); [reflexivity|]. destruct (_ =? I_SPECIAL).
  { apply line_app; [by apply clean_line, specialops_clean|]. apply line_tab. unfold special_operands. cbv zeta. line_. }
  destruct (_ =? I_BCOND).
  - apply line_app; [|line_]. unfold bcond_name, switch. cbn [find fst snd]. repeat case_match; simplify_eq; reflexivity.
  - apply line_app; [by apply clean_line, normalops_clean|]. apply line_tab. unfold normal_operands. cbv zeta. line_.
Qed.

Section listing_ok.
Context (E : bool).

(** The words of the program, as [fetch] reads them. *)
Definition words_at (s : state) (pc : Z) (ws : list Z) : Prop :=
  ∀ k w, ws !! k = Some w → fetch E s (pc + 4 * Z.of_nat k) = Goes w.

(** The listing, from the words. *)
Fixpoint lines_of (pc : Z) (ws : list Z) : list string :=
  match ws with [] => [] | w :: ws => dump_ascii true w pc :: lines_of (pc + 4) ws end.

Lemma disasm_loop_ok s ws : ∀ fuel i pc,
  words_at s pc ws → (length ws < fuel)%nat →
  ∃ text, disasm_loop E fuel s (i + 4 * Z.of_nat (length ws)) i pc = Goes text ∧ split_at is_newline text = (lines_of pc ws ++ [""])%list.
Proof.
  induction ws as [|w ws IH]; intros [|fuel] i pc Hws Hf; cbn [length] in *; try lia; cbn [disasm_loop].
  { destruct (Z.ltb_spec i (i + 4 * Z.of_nat 0)); [lia|]. by exists "". }
  destruct (Z.ltb_spec i (i + 4 * Z.of_nat (S (length ws)))); [|lia].
  destruct (IH fuel (i + 4) (pc + 4)) as (text & Ht & Hl); [|lia|].
  { intros k v Hk. replace (pc + 4 + 4 * Z.of_nat k) with (pc + 4 * Z.of_nat (S k)) by lia. by apply Hws. }
  replace (i + 4 * Z.of_nat (S (length ws))) with (i + 4 + 4 * Z.of_nat (length ws)) by lia.
  pose proof (Hws 0%nat w eq_refl) as Hfetch. replace (pc + 4 * Z.of_nat 0) with pc in Hfetch by lia.
  exists (dump_ascii true w pc +:+ String newline text). unfold dis1. rewrite Hfetch. cbn [mbind run_bind]. rewrite Ht. split.
  - cbn [mbind run_bind]. by rewrite append_assoc.
  - rewrite split_at_first; [by rewrite Hl|apply dump_one_line|done].
Qed.

Lemma lines_assemble ws : ∀ pc,
  Forall is_s32 ws → Forall (λ w, canonical w = true) ws →
  imap (λ k l, assemble (pc + 4 * Z.of_nat k) l) (lines_of pc ws) = Some <$> ws.
Proof.
  induction ws as [|w ws IH]; intros pc Hs Hc; [done|]. apply Forall_cons in Hs as [Hw Hs], Hc as [Hc Hcs]. cbn [lines_of imap].
  simpl. f_equal.
  - replace (pc + 4 * Z.of_nat 0) with pc by lia. by apply assemble_back.
  - etransitivity; [|exact (IH (pc + 4) Hs Hcs)]. apply imap_ext. intros k l _. simpl. f_equal. lia.
Qed.
End listing_ok.
(** ** Theorems *)

(** The text determines the instruction: whether or not the address and the word
    are printed in front, the assembler reads from the line of a canonical
    instruction the word that was disassembled; the target of a branch or jump is
    printed as an address, from which the offset is found again. *)
Theorem disassembly_determines_instruction longdis w pc :
  is_s32 w → canonical w = true → assemble pc (dump_ascii longdis w pc) = Some w.
Proof. apply assemble_back. Qed.

Lemma disassembly_determines_instruction_witness :
  assemble 0x10000100 (dump_ascii false (s32 0x1445fffe) 0x10000100) = Some (s32 0x1445fffe).
Proof. apply (disassembly_determines_instruction false (s32 0x1445fffe) 0x10000100); [apply s32_range|vm_compute; reflexivity]. Defined.

(** C27: the listing of a program whose text section lies at the beginning of memory
    and consists of canonical instructions ends, has a line for each word, and
    assembling the lines, each at its address, with the mnemonics of the
    architecture, gives the words back.  Canonical are the words of [mnemonics] in
    which the fields that the instruction does not use are 0: all but blez, bgtz,
    jalr, mflo, mthi and the coprocessor instructions. *)
Theorem listing_reassembles E s ws :
  words_at E s memoffset ws → Forall is_s32 ws → Forall (λ w, canonical w = true) ws →
  ∃ text lines, disasm E s (4 * Z.of_nat (length ws)) = Goes text ∧ split_at is_newline text = (lines ++ [""])%list ∧
    imap (λ k l, assemble (memoffset + 4 * Z.of_nat k) l) lines = Some <$> ws.
Proof.
  intros Hws Hs Hc. destruct (disasm_loop_ok E s ws (S (Z.to_nat (4 * Z.of_nat (length ws)))) 0 memoffset Hws ltac:(lia)) as (text & Ht & Hl).
  exists text, (lines_of memoffset ws). split; [exact Ht|]. split; [exact Hl|]. by apply lines_assemble.
Qed.

(** [addiu sp,sp,-8; jr r31; nop] in the memory of a little endian host. *)
Definition three_words : list Z := [s32 0x27bdfff8; 0x03e00008; 0].
Definition with_three_words : state :=
  mkState (replicate 32 0) 0 0 (set_bytes ∅ 0 [0xf8; 0xff; 0xbd; 0x27; 0x08; 0; 0xe0; 0x03]) memoffset (memoffset + 4).

Lemma listing_reassembles_witness :
  ∃ text lines, disasm false with_three_words 12 = Goes text ∧ split_at is_newline text = (lines ++ [""])%list ∧
    imap (λ k l, assemble (memoffset + 4 * Z.of_nat k) l) lines = Some <$> three_words.
Proof.
  apply (listing_reassembles false with_three_words three_words).
  - intros [|[|[|k]]] w Hk; vm_compute in Hk; try (injection Hk as <-); [vm_compute; reflexivity..|discriminate Hk].
  - repeat constructor; apply s32_range || (unfold is_s32; lia).
  - repeat constructor.
Defined.

(** Different instructions with the same text: the operands of blez are not
    printed, and mflo prints the field of another register than the one it
    writes. *)
Example operands_lost :
  dump_ascii false 0x18800003 0 = dump_ascii false 0x18a00007 0 ∧
  dump_ascii false 0x00001012 0 = dump_ascii false 0x00002012 0.
Proof. vm_compute. done. Qed.
End Disasm.
