(* ===== verification/Threads.v ===== *)
(** * Threads, the scheduler and synchronization: threads/thread.cc,
      threads/scheduler.cc, threads/synch.cc

    One processor runs all threads; control moves from one thread to another
    only in [SWITCH], called by [Scheduler::Run].  A thread that is not on the
    processor is stopped inside [Yield], inside the loop of [P] or [Acquire],
    inside [Wait], in [Finish], or before its first instruction: its [frame]
    says where, and what interrupt level it will restore.  Every operation is a
    function of the system state that runs until the operation returns or until
    the next [SWITCH]; [resume] goes on with the thread switched to.

    The locks and condition variables are those compiled with CHANGED and
    THREADS.  The user registers and address spaces that [Run] saves and
    restores when USER_PROGRAM is defined are not part of this state. *)

From stdpp Require Import base list gmap.
From S2P Require Import Prelude Lists.

Module Threads.
Import ListModel.

Inductive IntStatus := IntOff | IntOn.
#[global] Instance IntStatus_eq_dec : EqDecision IntStatus.
Proof. solve_decision. Defined.

Inductive ThreadStatus := JUST_CREATED | RUNNING | READY | BLOCKED.
#[global] Instance ThreadStatus_eq_dec : EqDecision ThreadStatus.
Proof. solve_decision. Defined.

(** Where a thread that is not running goes on.  [oldLevel] is the interrupt
    level it restores; for an [Acquire] at the end of [Wait] it is the one
    [Wait] saved, since the levels in between are all [IntOff]. *)
Inductive frame :=
  | AtStart
  | AtYield (oldLevel : IntStatus)
  | AtP (semaphore : Z) (oldLevel : IntStatus)
  | AtAcquire (lock : Z) (oldLevel : IntStatus)
  | AtWait (condition lock : Z) (oldLevel : IntStatus)
  | AtFinish.
#[global] Instance frame_eq_dec : EqDecision frame.
Proof. solve_decision. Defined.

(** [class Thread]: [stack] is the word at the fence of the stack, [None] for
    the main thread, which has no stack of its own. *)
Record Thread := mkThread {
  status : ThreadStatus;
  stack : option Z;
  at_frame : option frame;
}.

Definition STACK_FENCEPOST : Z := 0xdeadbeef.

Record Semaphore := mkSemaphore { value : Z; s_queue : qlist }.
Record Lock := mkLock { free : bool; l_queue : qlist; holder : Z }.
Record Condition := mkCondition { c_queue : qlist }.

(** The globals of threads/system.cc that concern threads, and the objects
    allocated so far, by address; address 0 is [NULL]. *)
Record sys := mkSys {
  threads : gmap Z Thread;
  readyList : qlist;
  currentThread : Z;
  threadToBeDestroyed : Z;
  level : IntStatus;
  idle : bool;
  semaphores : gmap Z Semaphore;
  locks : gmap Z Lock;
  conditions : gmap Z Condition;
}.

Definition NULL : Z := 0.

(** What an operation completes, for the theorems: thread and object. *)
Inductive event :=
  | EvNew (s v : Z)
  | EvP (t s : Z)
  | EvV (s : Z)
  | EvAcquired (t l : Z)
  | EvReleased (t l : Z).

Definition set_threads (s : sys) (x : gmap Z Thread) : sys :=
  mkSys x (readyList s) (currentThread s) (threadToBeDestroyed s) (level s) (idle s)
    (semaphores s) (locks s) (conditions s).
Definition set_readyList (s : sys) (x : qlist) : sys :=
  mkSys (threads s) x (currentThread s) (threadToBeDestroyed s) (level s) (idle s)
    (semaphores s) (locks s) (conditions s).
Definition set_currentThread (s : sys) (x : Z) : sys :=
  mkSys (threads s) (readyList s) x (threadToBeDestroyed s) (level s) (idle s)
    (semaphores s) (locks s) (conditions s).
Definition set_threadToBeDestroyed (s : sys) (x : Z) : sys :=
  mkSys (threads s) (readyList s) (currentThread s) x (level s) (idle s)
    (semaphores s) (locks s) (conditions s).
Definition set_level (s : sys) (x : IntStatus) : sys :=
  mkSys (threads s) (readyList s) (currentThread s) (threadToBeDestroyed s) x (idle s)
    (semaphores s) (locks s) (conditions s).
Definition set_idle (s : sys) (x : bool) : sys :=
  mkSys (threads s) (readyList s) (currentThread s) (threadToBeDestroyed s) (level s) x
    (semaphores s) (locks s) (conditions s).
Definition set_semaphores (s : sys) (x : gmap Z Semaphore) : sys :=
  mkSys (threads s) (readyList s) (currentThread s) (threadToBeDestroyed s) (level s) (idle s)
    x (locks s) (conditions s).
Definition set_locks (s : sys) (x : gmap Z Lock) : sys :=
  mkSys (threads s) (readyList s) (currentThread s) (threadToBeDestroyed s) (level s) (idle s)
    (semaphores s) x (conditions s).
Definition set_conditions (s : sys) (x : gmap Z Condition) : sys :=
  mkSys (threads s) (readyList s) (currentThread s) (threadToBeDestroyed s) (level s) (idle s)
    (semaphores s) (locks s) x.

(** An object reached through its address. *)
Definition find {A} (m : gmap Z A) (p : Z) : result A :=
  match m !! p with
  | Some x => Ok x
  | None => if p =? NULL then Err NullDereference else Err UseAfterFree
  end.

Definition put_thread (s : sys) (t : Z) (T : Thread) : sys :=
  set_threads s (<[t := T]> (threads s)).
Definition put_semaphore (s : sys) (p : Z) (x : Semaphore) : sys :=
  set_semaphores s (<[p := x]> (semaphores s)).
Definition put_lock (s : sys) (p : Z) (x : Lock) : sys :=
  set_locks s (<[p := x]> (locks s)).
Definition put_condition (s : sys) (p : Z) (x : Condition) : sys :=
  set_conditions s (<[p := x]> (conditions s)).

(** ** Threads and the scheduler *)

Definition setStatus (s : sys) (t : Z) (st : ThreadStatus) : result sys :=
  T ← find (threads s) t;
  Ok (put_thread s t (mkThread st (stack T) (at_frame T))).

Definition set_frame (s : sys) (t : Z) (f : option frame) : result sys :=
  T ← find (threads s) t;
  Ok (put_thread s t (mkThread (status T) (stack T) f)).

(** [Thread::Thread]; [this] is the address [new] gave. *)
Definition Thread_new (s : sys) (this : Z) : sys :=
  put_thread s this (mkThread JUST_CREATED None None).

(** [Thread::~Thread]. *)
Definition Thread_delete (s : sys) (this : Z) : result sys :=
  _ ← ASSERT (negb (this =? currentThread s));
  _ ← find (threads s) this;
  Ok (set_threads s (delete this (threads s))).

Definition CheckOverflow (T : Thread) : result unit :=
  match stack T with
  | None => Ok tt
  | Some w => ASSERT (w =? STACK_FENCEPOST)
  end.

Definition ReadyToRun (s : sys) (thread : Z) : result sys :=
  s ← setStatus s thread READY;
  q ← Append (readyList s) thread;
  Ok (set_readyList s q).

Definition FindNextToRun (s : sys) : Z * sys :=
  let '(t, q) := Remove (readyList s) in (t, set_readyList s q).

(** What [Scheduler::Run] does after [SWITCH]. *)
Definition destroy_carcass (s : sys) : result sys :=
  if threadToBeDestroyed s =? NULL then Ok s
  else
    s ← Thread_delete s (threadToBeDestroyed s);
    Ok (set_threadToBeDestroyed s NULL).

(** [Scheduler::Run] up to and including what follows [SWITCH] in the new
    thread.  The old thread stops at frame [f].  A thread that has not run
    before begins in [ThreadRoot], not in [Run], and destroys nothing. *)
Definition Run (s : sys) (f : frame) (nextThread : Z) : result sys :=
  let oldThread := currentThread s in
  T ← find (threads s) oldThread;
  _ ← CheckOverflow T;
  s ← set_frame s oldThread (Some f);
  s ← setStatus (set_currentThread s nextThread) nextThread RUNNING;
  T ← find (threads s) nextThread;
  if bool_decide (at_frame T = Some AtStart) then Ok s else destroy_carcass s.

(** [Scheduler::Remove]. *)
Definition Scheduler_Remove (s : sys) (thread : Z) : sys :=
  let '(_, q) := RemoveElement (readyList s) thread in
  set_threadToBeDestroyed (set_readyList s q) thread.

Definition StackAllocate (s : sys) (this : Z) : result sys :=
  T ← find (threads s) this;
  Ok (put_thread s this (mkThread (status T) (Some STACK_FENCEPOST) (Some AtStart))).

Definition Fork (s : sys) (this : Z) : result sys :=
  s ← StackAllocate s this;
  let oldLevel := level s in
  s ← ReadyToRun (set_level s IntOff) this;
  Ok (set_level s oldLevel).

(** The loop of [Sleep], which has saved frame [f]: switch to the next ready
    thread, or wait in [Interrupt::Idle] for an interrupt. *)
Definition dispatch (s : sys) (f : frame) : result sys :=
  let '(nextThread, s) := FindNextToRun s in
  if nextThread =? NULL then
    s ← set_frame s (currentThread s) (Some f); Ok (set_idle s true)
  else Run (set_idle s false) f nextThread.

Definition Sleep (s : sys) (f : frame) : result sys :=
  _ ← ASSERT (bool_decide (level s = IntOff));
  s ← setStatus s (currentThread s) BLOCKED;
  dispatch s f.

Definition Finish (s : sys) : result sys :=
  let s := set_level s IntOff in
  Sleep (set_threadToBeDestroyed s (currentThread s)) AtFinish.

Definition Yield (s : sys) : result sys :=
  let oldLevel := level s in
  let '(nextThread, s) := FindNextToRun (set_level s IntOff) in
  if nextThread =? NULL then Ok (set_level s oldLevel)
  else
    s ← ReadyToRun s (currentThread s);
    Run s (AtYield oldLevel) nextThread.

(** ** Semaphores *)

Definition Semaphore_new (s : sys) (this initialValue : Z) : sys :=
  put_semaphore s this (mkSemaphore initialValue empty).

(** The loop of [P] and what follows it, interrupts being off. *)
Definition P_loop (s : sys) (this : Z) (oldLevel : IntStatus) : result (sys * list event) :=
  x ← find (semaphores s) this;
  if value x =? 0 then
    q ← Append (s_queue x) (currentThread s);
    s ← Sleep (put_semaphore s this (mkSemaphore (value x) q)) (AtP this oldLevel);
    Ok (s, [])
  else
    let s := put_semaphore s this (mkSemaphore (value x - 1) (s_queue x)) in
    Ok (set_level s oldLevel, [EvP (currentThread s) this]).

Definition P (s : sys) (this : Z) : result (sys * list event) :=
  let oldLevel := level s in
  P_loop (set_level s IntOff) this oldLevel.

Definition V (s : sys) (this : Z) : result (sys * list event) :=
  let oldLevel := level s in
  let s := set_level s IntOff in
  x ← find (semaphores s) this;
  let '(thread, q) := Remove (s_queue x) in
  let s := put_semaphore s this (mkSemaphore (value x) q) in
  s ← (if thread =? NULL then Ok s else ReadyToRun s thread);
  x ← find (semaphores s) this;
  let s := put_semaphore s this (mkSemaphore (value x + 1) (s_queue x)) in
  Ok (set_level s oldLevel, [EvV this]).

(** ** Locks

    The constructor leaves [holder] uninitialised: [garbage]. *)
Definition Lock_new (s : sys) (this garbage : Z) : sys :=
  put_lock s this (mkLock true empty garbage).

Definition Acquire_loop (s : sys) (this : Z) (oldLevel : IntStatus) : result (sys * list event) :=
  x ← find (locks s) this;
  if negb (free x) then
    q ← Append (l_queue x) (currentThread s);
    s ← Sleep (put_lock s this (mkLock (free x) q (holder x))) (AtAcquire this oldLevel);
    Ok (s, [])
  else
    let s := put_lock s this (mkLock false (l_queue x) (currentThread s)) in
    Ok (set_level s oldLevel, [EvAcquired (currentThread s) this]).

Definition Acquire (s : sys) (this : Z) : result (sys * list event) :=
  let oldLevel := level s in
  Acquire_loop (set_level s IntOff) this oldLevel.

Definition Release (s : sys) (this : Z) : result (sys * list event) :=
  let oldLevel := level s in
  let s := set_level s IntOff in
  x ← find (locks s) this;
  let '(thread, q) := Remove (l_queue x) in
  let s := put_lock s this (mkLock (free x) q (holder x)) in
  if currentThread s =? holder x then
    s ← (if thread =? NULL then Ok s else ReadyToRun s thread);
    x ← find (locks s) this;
    let s := put_lock s this (mkLock true (l_queue x) (holder x)) in
    Ok (set_level s oldLevel, [EvReleased (currentThread s) this])
  else Ok (set_level s oldLevel, []).

(** ** Condition variables *)

Definition Condition_new (s : sys) (this : Z) : sys :=
  put_condition s this (mkCondition empty).

Definition Wait (s : sys) (this conditionLock : Z) : result (sys * list event) :=
  let oldLevel := level s in
  '(s, ev) ← Release (set_level s IntOff) conditionLock;
  x ← find (conditions s) this;
  q ← Append (c_queue x) (currentThread s);
  s ← Sleep (put_condition s this (mkCondition q)) (AtWait this conditionLock oldLevel);
  Ok (s, ev).

Definition Signal (s : sys) (this : Z) : result sys :=
  let oldLevel := level s in
  let s := set_level s IntOff in
  x ← find (conditions s) this;
  let '(thread, q) := Remove (c_queue x) in
  let s := put_condition s this (mkCondition q) in
  s ← (if thread =? NULL then Ok s else ReadyToRun s thread);
  Ok (set_level s oldLevel).

(** The do-while of [Broadcast]: each round takes one element off the queue,
    so the number of elements and one more round are enough. *)
Fixpoint Broadcast_loop (fuel : nat) (s : sys) (this : Z) : result sys :=
  match fuel with
  | O => Err OutOfFuel
  | S fuel =>
    x ← find (conditions s) this;
    let '(thread, q) := Remove (c_queue x) in
    let s := put_condition s this (mkCondition q) in
    if thread =? NULL then Ok s
    else s ← ReadyToRun s thread; Broadcast_loop fuel s this
  end.

Definition Broadcast (s : sys) (this : Z) : result sys :=
  let oldLevel := level s in
  let s := set_level s IntOff in
  x ← find (conditions s) this;
  s ← Broadcast_loop (S (length (items (c_queue x)))) s this;
  Ok (set_level s oldLevel).

(** ** The thread switched to goes on *)

Definition resume (s : sys) (f : frame) : result (sys * list event) :=
  s ← set_frame s (currentThread s) None;
  match f with
  | AtStart => Ok (set_level s IntOn, [])
  | AtYield oldLevel => Ok (set_level s oldLevel, [])
  | AtP this oldLevel => P_loop s this oldLevel
  | AtAcquire this oldLevel => Acquire_loop s this oldLevel
  | AtWait _ conditionLock oldLevel => Acquire_loop s conditionLock oldLevel
  | AtFinish => Err AssertionFailed
  end.

(** ** The system as a state machine

    A running thread calls any operation at any time; a device interrupt, when
    interrupts are on, and an interrupt that ends [Interrupt::Idle] run a
    handler that calls [V].  [Resume] is what the thread switched to does
    first; until then nothing else happens, interrupts being off. *)
Inductive label :=
  | Resume
  | OpP (s : Z) | OpV (s : Z)
  | OpAcquire (l : Z) | OpRelease (l : Z)
  | OpWait (c l : Z) | OpSignal (c : Z) | OpBroadcast (c : Z)
  | OpYield | OpFork (t : Z) | OpFinish
  | OpNewSemaphore (s v : Z) | OpNewLock (l garbage : Z) | OpNewCondition (c : Z)
  | Interrupt (s : Z)
  | IdleInterrupt (s : Z).

Definition current (s : sys) : option Thread := threads s !! currentThread s.

Definition enabled (l : label) (s : sys) : Prop :=
  match l with
  | Resume => idle s = false ∧ ∃ T, current s = Some T ∧ is_Some (at_frame T)
  | IdleInterrupt _ => idle s = true
  | Interrupt _ =>
    idle s = false ∧ level s = IntOn ∧ ∃ T, current s = Some T ∧ at_frame T = None
  | _ => idle s = false ∧ ∃ T, current s = Some T ∧ at_frame T = None
  end.

Definition no_event (r : result sys) : result (sys * list event) := s ← r; Ok (s, []).

Definition exec (l : label) (s : sys) : result (sys * list event) :=
  match l with
  | Resume =>
    T ← find (threads s) (currentThread s);
    match at_frame T with Some f => resume s f | None => Err AssertionFailed end
  | OpP x => P s x
  | OpV x | Interrupt x => V s x
  | OpAcquire x => Acquire s x
  | OpRelease x => Release s x
  | OpWait c x => Wait s c x
  | OpSignal c => no_event (Signal s c)
  | OpBroadcast c => no_event (Broadcast s c)
  | OpYield => no_event (Yield s)
  | OpFork t => no_event (Fork (Thread_new s t) t)
  | OpFinish => no_event (Finish s)
  | OpNewSemaphore x v => Ok (Semaphore_new s x v, [EvNew x v])
  | OpNewLock x g => Ok (Lock_new s x g, [])
  | OpNewCondition x => Ok (Condition_new s x, [])
  | IdleInterrupt x =>
    '(s, ev) ← V s x;
    T ← find (threads s) (currentThread s);
    match at_frame T with
    | Some f => s ← dispatch s f; Ok (s, ev)
    | None => Err AssertionFailed
    end
  end.

(** What a caller has to respect: the objects it names exist, a new object has
    an address of its own, a semaphore starts at 0 or more, and only the holder
    of a lock releases it or waits with it. *)
Definition holds (s : sys) (l : Z) : Prop :=
  ∃ x, locks s !! l = Some x ∧ free x = false ∧ holder x = currentThread s.

Definition allowed (l : label) (s : sys) : Prop :=
  match l with
  | Resume | OpYield | OpFinish => True
  | OpP x | OpV x | Interrupt x | IdleInterrupt x => is_Some (semaphores s !! x)
  | OpAcquire x => is_Some (locks s !! x)
  | OpRelease x => holds s x
  | OpWait c x => is_Some (conditions s !! c) ∧ holds s x
  | OpSignal c | OpBroadcast c => is_Some (conditions s !! c)
  | OpFork t => threads s !! t = None ∧ t ≠ NULL
  | OpNewSemaphore x v => semaphores s !! x = None ∧ 0 ≤ v
  | OpNewLock x _ => locks s !! x = None
  | OpNewCondition x => conditions s !! x = None
  end.

(** [Initialize] (system.cc), as far as threads are concerned: the main thread
    has address [main], and interrupts are on. *)
Definition initial (main : Z) : sys :=
  mkSys {[main := mkThread RUNNING None None]} empty main NULL IntOn false ∅ ∅ ∅.

Inductive reachable (main : Z) : sys → list event → Prop :=
  | reach_init : reachable main (initial main) []
  | reach_step s tr l s' ev :
      reachable main s tr → enabled l s → allowed l s → exec l s = Ok (s', ev) →
      reachable main s' (tr ++ ev).

(** ** The invariant *)

Definition ids (q : qlist) : list Z := (items q).*1.

(** The queue a thread has to be in, by its status and where it stopped, and
    the queue of that place. *)
Inductive place := InReady | InSemaphore (x : Z) | InLock (x : Z) | InCondition (x : Z) | Nowhere.
#[global] Instance place_eq_dec : EqDecision place.
Proof. solve_decision. Defined.

Definition place_of (T : Thread) : place :=
  match status T, at_frame T with
  | READY, _ => InReady
  | BLOCKED, Some (AtP x _) => InSemaphore x
  | BLOCKED, Some (AtAcquire x _) => InLock x
  | BLOCKED, Some (AtWait x _ _) => InCondition x
  | _, _ => Nowhere
  end.

Definition queue (s : sys) (p : place) : option qlist :=
  match p with
  | InReady => Some (readyList s)
  | InSemaphore x => s_queue <$> semaphores s !! x
  | InLock x => l_queue <$> locks s !! x
  | InCondition x => c_queue <$> conditions s !! x
  | Nowhere => None
  end.

(** Woken in the loop of [P], and not yet run; woken, and about to try a lock. *)
Definition awake (T : Thread) : bool :=
  match status T with READY | RUNNING => true | _ => false end.

Definition woken_P (x : Z) (T : Thread) : bool :=
  awake T && match at_frame T with Some (AtP y _) => x =? y | _ => false end.

Definition woken_Acquire (x : Z) (T : Thread) : bool :=
  awake T && match at_frame T with
             | Some (AtAcquire y _) | Some (AtWait _ y _) => x =? y
             | _ => false
             end.

Definition woken (s : sys) (x : Z) : Z :=
  Z.of_nat (size (filter (λ p, woken_P x p.2 = true) (threads s))).

(** The objects a frame will use exist. *)
Definition frame_ok (s : sys) (f : frame) : Prop :=
  match f with
  | AtP x _ => is_Some (semaphores s !! x)
  | AtAcquire l _ => is_Some (locks s !! l)
  | AtWait c l _ => is_Some (conditions s !! c) ∧ is_Some (locks s !! l)
  | _ => True
  end.

Definition thread_ok (s : sys) (t : Z) (T : Thread) : Prop :=
  t ≠ NULL ∧
  (∀ w, stack T = Some w → w = STACK_FENCEPOST) ∧
  (∀ f, at_frame T = Some f → frame_ok s f) ∧
  match status T with
  | JUST_CREATED => False
  | RUNNING => t = currentThread s ∧ idle s = false
  | READY => is_Some (at_frame T)
  | BLOCKED => match at_frame T with
               | Some (AtP _ _ | AtAcquire _ _ | AtWait _ _ _ | AtFinish) => True
               | _ => False
               end
  end.

(** A queue holds exactly the threads that belong there, each once. *)
Definition queues_ok (s : sys) : Prop :=
  ∀ p q, queue s p = Some q →
    dangling q = false ∧ NoDup (ids q) ∧
    ∀ t, t ∈ ids q ↔ ∃ T, threads s !! t = Some T ∧ place_of T = p.

Record Base (s : sys) : Prop := mkBase {
  (* every thread is in order, and the one on the processor exists *)
  inv_threads : ∀ t T, threads s !! t = Some T → thread_ok s t T;
  inv_current : ∃ T, current s = Some T ∧
    (if idle s then status T ≠ RUNNING ∧ is_Some (at_frame T) else status T = RUNNING) ∧
    (is_Some (at_frame T) → level s = IntOff);
  (* the thread to be destroyed is one that has finished *)
  inv_finish : ∀ t T, threads s !! t = Some T → at_frame T = Some AtFinish → status T = BLOCKED;
  inv_destroy : threadToBeDestroyed s = NULL ∨
    ∃ T, threads s !! threadToBeDestroyed s = Some T ∧ at_frame T = Some AtFinish;
  inv_queues : queues_ok s;
}.

(** No value is below zero, and no wakeup is lost: while threads wait, the
    value does not exceed the number of threads woken to take it, and a free
    lock has a thread woken to take it. *)
Record Inv (s : sys) : Prop := mkInv {
  inv_base : Base s;
  inv_semaphores : ∀ x S, semaphores s !! x = Some S →
    0 ≤ value S ∧ (items (s_queue S) ≠ [] → value S ≤ woken s x);
  inv_locks : ∀ x L, locks s !! x = Some L →
    items (l_queue L) ≠ [] → free L = true →
    ∃ t T, threads s !! t = Some T ∧ woken_Acquire x T = true;
}.
Coercion inv_base : Inv >-> Base.

(** ** Lemmas *)

Lemma find_Some {A} (m : gmap Z A) p x : m !! p = Some x → find m p = Ok x.
Proof. unfold find. by intros ->. Qed.

Lemma Append_ok q t : dangling q = false → Append q t = Ok (mkQ (items q ++ [(t, 0)]) false).
Proof. intros Hd. unfold Append, link_at_end, IsEmpty. rewrite Hd. by destruct (items q). Qed.

Lemma ids_app l1 t : ids (mkQ (l1 ++ [(t, 0)]) false) = l1.*1 ++ [t].
Proof. unfold ids. simpl. by rewrite fmap_app. Qed.

Lemma Remove_nil q : items q = [] → Remove q = (NULL, q).
Proof. intros H. unfold Remove, SortedRemove. by rewrite H. Qed.

Lemma Remove_cons q t k rest :
  dangling q = false → items q = (t, k) :: rest → Remove q = (t, mkQ rest false).
Proof.
  intros Hd H. unfold Remove, SortedRemove, drop_first. rewrite H, Hd. by destruct rest.
Qed.

Lemma woken_put s t T T' x :
  threads s !! t = Some T →
  woken (put_thread s t T') x =
  woken s x - (if woken_P x T then 1 else 0) + (if woken_P x T' then 1 else 0).
Proof.
  intros HT. unfold woken, put_thread. simpl.
  assert (∀ m : gmap Z Thread, m !! t = None →
    ∀ U, size (filter (λ p, woken_P x p.2 = true) (<[t := U]> m)) =
    (size (filter (λ p, woken_P x p.2 = true) m) + if woken_P x U then 1 else 0)%nat) as Hins.
  { intros m Hm U. destruct (woken_P x U) eqn:E.
    - rewrite map_filter_insert_True by done.
      rewrite map_size_insert_None by (apply map_lookup_filter_None; auto). lia.
    - rewrite map_filter_insert_False by (simpl; congruence). rewrite delete_id by done. lia. }
  rewrite <- (insert_delete_id _ _ _ HT) at 2.
  rewrite <- insert_delete_eq.
  rewrite !Hins by apply lookup_delete_eq. destruct (woken_P x T), (woken_P x T'); lia.
Qed.

Lemma woken_new s t T x :
  threads s !! t = None → woken_P x T = false → woken (put_thread s t T) x = woken s x.
Proof.
  intros HT E. unfold woken, put_thread. simpl.
  rewrite map_filter_insert_False by (simpl; congruence). by rewrite delete_id.
Qed.

Lemma woken_delete s t T x :
  threads s !! t = Some T → woken_P x T = false →
  woken (set_threads s (delete t (threads s))) x = woken s x.
Proof.
  intros HT E. unfold woken. simpl.
  rewrite map_filter_delete. rewrite delete_id; [done|].
  apply map_lookup_filter_None. right. intros y Hy. simplify_eq. simpl. congruence.
Qed.

Lemma woken_ext s s' x : threads s' = threads s → woken s' x = woken s x.
Proof. unfold woken. by intros ->. Qed.

Lemma woken_nonneg s x : 0 ≤ woken s x.
Proof. unfold woken. lia. Qed.

(** *** Queues under a change of one thread *)

(** A thread leaves the head of its queue for the end of another. *)
Lemma queues_move s s' t T T' :
  queues_ok s → threads s !! t = Some T → threads s' = <[t := T']> (threads s) →
  place_of T ≠ place_of T' →
  (∀ p, p ≠ place_of T → p ≠ place_of T' → queue s' p = queue s p) →
  (∀ q', queue s' (place_of T) = Some q' →
     ∃ q k, queue s (place_of T) = Some q ∧ items q = (t, k) :: items q' ∧ dangling q' = false) →
  (∀ q', queue s' (place_of T') = Some q' →
     ∃ q, queue s (place_of T') = Some q ∧ items q' = items q ++ [(t, 0)] ∧ dangling q' = false) →
  queues_ok s'.
Proof.
  intros Hq HT Hs' Hne Hsame Hout Hin p q' Hp. rewrite Hs'.
  destruct (decide (p = place_of T)) as [->|Hp1].
  - destruct (Hout q' Hp) as (q & k & Hq0 & Hits & Hd). destruct (Hq _ _ Hq0) as (_ & Hnd & Hmem).
    unfold ids in *. rewrite Hits in Hnd, Hmem. simpl in *. apply NoDup_cons in Hnd as [Hnt Hnd].
    split_and!; [done|done|]. intros u. destruct (decide (u = t)) as [->|Hu].
    + rewrite lookup_insert_eq. naive_solver.
    + rewrite lookup_insert_ne by done. rewrite <- Hmem, elem_of_cons. naive_solver.
  - destruct (decide (p = place_of T')) as [->|Hp2].
    + destruct (Hin q' Hp) as (q & Hq0 & Hits & Hd). destruct (Hq _ _ Hq0) as (_ & Hnd & Hmem).
      assert (t ∉ ids q) as Hnt by (rewrite Hmem; naive_solver).
      unfold ids in *. rewrite Hits, fmap_app. simpl. split_and!; [done|..].
      * apply NoDup_app. split_and!; [done|set_solver|apply NoDup_singleton].
      * intros u. rewrite elem_of_app, list_elem_of_singleton, Hmem.
        destruct (decide (u = t)) as [->|Hu];
          [rewrite lookup_insert_eq|rewrite lookup_insert_ne by done]; naive_solver.
    + rewrite Hsame in Hp by done. destruct (Hq _ _ Hp) as (Hd & Hnd & Hmem).
      split_and!; [done|done|]. intros u. rewrite Hmem. destruct (decide (u = t)) as [->|Hu];
        [rewrite lookup_insert_eq|rewrite lookup_insert_ne by done]; naive_solver.
Qed.

(** A thread changes, but not the queue it belongs to. *)
Lemma queues_stay s s' t T T' :
  queues_ok s → threads s !! t = Some T → threads s' = <[t := T']> (threads s) →
  place_of T = place_of T' → (∀ p, queue s' p = queue s p) → queues_ok s'.
Proof.
  intros Hq HT Hs' Hp Hsame p q'. rewrite Hsame, Hs'. intros Hq'.
  destruct (Hq _ _ Hq') as (Hd & Hnd & Hmem). split_and!; [done|done|]. intros u. rewrite Hmem.
  destruct (decide (u = t)) as [->|Hu];
    [rewrite lookup_insert_eq|rewrite lookup_insert_ne by done]; naive_solver.
Qed.

(** A thread in no queue goes away. *)
Lemma queues_delete s s' t T :
  queues_ok s → threads s !! t = Some T → threads s' = delete t (threads s) →
  place_of T = Nowhere → (∀ p, queue s' p = queue s p) → queues_ok s'.
Proof.
  intros Hq HT Hs' Hp Hsame p q'. rewrite Hsame, Hs'. intros Hq'.
  destruct (Hq _ _ Hq') as (Hd & Hnd & Hmem). split_and!; [done|done|]. intros u. rewrite Hmem.
  destruct (decide (u = t)) as [->|Hu];
    [rewrite lookup_delete_eq|rewrite lookup_delete_ne by done]; [|naive_solver].
  split; [|naive_solver]. intros (T0 & ? & <-). simplify_eq. by rewrite Hp in Hq'.
Qed.

(** A new thread is made ready. *)
Lemma queues_new s s' t T' :
  queues_ok s → threads s !! t = None → threads s' = <[t := T']> (threads s) →
  place_of T' = InReady → (∀ p, p ≠ InReady → queue s' p = queue s p) →
  items (readyList s') = items (readyList s) ++ [(t, 0)] → dangling (readyList s') = false →
  queues_ok s'.
Proof.
  intros Hq HT Hs' Hpl Hsame Hits Hd p q' Hp. rewrite Hs'.
  destruct (decide (p = InReady)) as [->|Hne].
  - simpl in Hp. injection Hp as <-. destruct (Hq InReady (readyList s) eq_refl) as (_ & Hnd & Hmem).
    assert (t ∉ ids (readyList s)) as Hnt by (rewrite Hmem; naive_solver).
    unfold ids in *. rewrite Hits, fmap_app. simpl. split_and!; [done|..].
    + apply NoDup_app. split_and!; [done|set_solver|apply NoDup_singleton].
    + intros u. rewrite elem_of_app, list_elem_of_singleton, Hmem.
      destruct (decide (u = t)) as [->|Hu];
        [rewrite lookup_insert_eq|rewrite lookup_insert_ne by done]; naive_solver.
  - rewrite Hsame in Hp by done. destruct (Hq _ _ Hp) as (Hd' & Hnd & Hmem).
    split_and!; [done|done|]. intros u. rewrite Hmem. destruct (decide (u = t)) as [->|Hu];
      [rewrite lookup_insert_eq|rewrite lookup_insert_ne by done]; naive_solver.
Qed.

(** *** Leaving the processor *)

(** The current thread stopped at frame [f], nobody running yet. *)
Definition stopped (s : sys) (st : ThreadStatus) (T : Thread) (f : frame) : sys :=
  set_idle (put_thread s (currentThread s) (mkThread st (stack T) (Some f))) true.

(** Switch to the head of the ready list, if there is one. *)
Definition switched (s : sys) (t : Z) (T : Thread) (rest : list (Z * Z)) : sys :=
  let s := set_readyList s (mkQ rest false) in
  let s := set_idle (put_thread (set_currentThread s t) t (mkThread RUNNING (stack T) (at_frame T))) false in
  if bool_decide (at_frame T = Some AtStart) || (threadToBeDestroyed s =? NULL) then s
  else set_threadToBeDestroyed (set_threads s (delete (threadToBeDestroyed s) (threads s))) NULL.

Definition pick (s : sys) : sys :=
  match items (readyList s) with
  | [] => s
  | (t, _) :: rest =>
    match threads s !! t with Some T => switched s t T rest | None => s end
  end.

Lemma put_thread_twice s t T T' : put_thread (put_thread s t T) t T' = put_thread s t T'.
Proof. unfold put_thread, set_threads. simpl. by rewrite insert_insert_eq. Qed.

Lemma put_thread_id s t T : threads s !! t = Some T → put_thread s t T = s.
Proof. intros. unfold put_thread, set_threads. rewrite insert_id by done. by destruct s. Qed.

Lemma thread_ok_ext s s' t T :
  status T ≠ RUNNING → (∀ f, frame_ok s f → frame_ok s' f) → thread_ok s t T → thread_ok s' t T.
Proof.
  intros Hr Hf (H0 & Hw & Hfr & Hst). split_and!; [done|done|naive_solver|]. by destruct (status T).
Qed.

Lemma idle_not_running s t T :
  Inv s → idle s = true → threads s !! t = Some T → status T ≠ RUNNING.
Proof.
  intros HI Hid HT Hr. destruct (inv_threads s HI t T HT) as (_ & _ & _ & H).
  rewrite Hr in H. destruct H. congruence.
Qed.

(** [thread_ok] after one thread changed, when nobody else was running. *)
Lemma threads_ok_put s s' t T' :
  (∀ u U, threads s !! u = Some U → u ≠ t → thread_ok s u U ∧ status U ≠ RUNNING) →
  (∀ f, frame_ok s f → frame_ok s' f) →
  threads s' = <[t := T']> (threads s) → thread_ok s' t T' →
  ∀ u U, threads s' !! u = Some U → thread_ok s' u U.
Proof.
  intros Hoth Hf Hs' HT' u U. rewrite Hs'. destruct (decide (u = t)) as [->|Hne].
  - rewrite lookup_insert_eq. by intros [= <-].
  - rewrite lookup_insert_ne by done. intros HU. destruct (Hoth u U HU Hne).
    by apply thread_ok_ext with s.
Qed.

Lemma ready_head s t k rest :
  Inv s → items (readyList s) = (t, k) :: rest →
  ∃ T, threads s !! t = Some T ∧ status T = READY ∧ is_Some (at_frame T).
Proof.
  intros HI Hits. destruct (inv_queues s HI InReady _ eq_refl) as (_ & _ & Hmem).
  destruct (proj1 (Hmem t)) as (T & HT & Hpl); [unfold ids; rewrite Hits; set_solver|].
  exists T. destruct (inv_threads s HI t T HT) as (_ & _ & _ & Hst).
  unfold place_of in Hpl. destruct (status T); [..|by destruct (at_frame T) as [[]|]]; done.
Qed.

Lemma woken_P_status x st st' stk stk' f :
  awake (mkThread st stk f) = awake (mkThread st' stk' f) →
  woken_P x (mkThread st stk f) = woken_P x (mkThread st' stk' f).
Proof. unfold woken_P. by intros ->. Qed.

(** The part of the invariant about lock wakeups follows the threads that stay
    awake at their frame. *)
Definition lock_wake (s : sys) (x : Z) : Prop :=
  ∃ t T, threads s !! t = Some T ∧ woken_Acquire x T = true.

Lemma lock_wake_put s s' t T T' x :
  threads s !! t = Some T → threads s' = <[t := T']> (threads s) →
  (woken_Acquire x T = true → woken_Acquire x T' = true) → lock_wake s x → lock_wake s' x.
Proof.
  intros HT Hs' Hw (u & U & HU & HUw). unfold lock_wake. rewrite Hs'.
  destruct (decide (u = t)) as [->|Hne].
  - exists t, T'. rewrite lookup_insert_eq. simplify_eq. auto.
  - exists u, U. by rewrite lookup_insert_ne.
Qed.

Lemma lock_wake_delete s s' t T x :
  threads s !! t = Some T → threads s' = delete t (threads s) →
  woken_Acquire x T = false → lock_wake s x → lock_wake s' x.
Proof.
  intros HT Hs' Hw (u & U & HU & HUw). exists u, U. split; [|done]. rewrite Hs'.
  rewrite lookup_delete_ne; [done|]. intros ->. simplify_eq. congruence.
Qed.

(** Dispatching the head of the ready list, before the carcass is deleted. *)
Lemma dispatched_parts s t k rest T :
  Inv s → idle s = true → items (readyList s) = (t, k) :: rest → threads s !! t = Some T →
  let s' := set_idle (put_thread (set_currentThread (set_readyList s (mkQ rest false)) t) t
              (mkThread RUNNING (stack T) (at_frame T))) false in
  (∀ u U, threads s' !! u = Some U → thread_ok s' u U) ∧ queues_ok s' ∧
  (∀ x, woken s' x = woken s x) ∧ (∀ x, lock_wake s x → lock_wake s' x) ∧
  at_frame T ≠ Some AtFinish.
Proof.
  intros HI Hid Hits HT s'. destruct (ready_head s t k rest HI Hits) as (T0 & HT0 & Hst & Hfr).
  simplify_eq. destruct (inv_threads s HI t T HT) as (Hn0 & Hstk & Hfok & _).
  split_and!.
  - apply threads_ok_put with s t (mkThread RUNNING (stack T) (at_frame T)); [|done|done|].
    + intros u U HU _. split; [by apply (inv_threads s HI)|by apply (idle_not_running s u)].
    + split_and!; done.
  - apply queues_move with s t T (mkThread RUNNING (stack T) (at_frame T));
      [apply (inv_queues s HI)|done|done|..]; unfold place_of; simpl; rewrite ?Hst.
    + done.
    + intros p Hp _. by destruct p.
    + intros q' [= <-]. eauto 10.
    + done.
  - intros x. change (woken s' x) with (woken (put_thread s t (mkThread RUNNING (stack T) (at_frame T))) x).
    rewrite (woken_put s t T) by done. unfold woken_P, awake. rewrite Hst. simpl. lia.
  - intros x. apply lock_wake_put with t T (mkThread RUNNING (stack T) (at_frame T)); [done|done|].
    unfold woken_Acquire, awake. by rewrite Hst.
  - intros Hf. pose proof (inv_finish s HI t T HT Hf). congruence.
Qed.

Lemma pick_Inv s : Inv s → idle s = true → Inv (pick s).
Proof.
  intros HI Hid. unfold pick. destruct (items (readyList s)) as [|[t k] rest] eqn:Hits; [done|].
  destruct (ready_head s t k rest HI Hits) as (T & HT & Hst & Hfr). rewrite HT.
  destruct (dispatched_parts s t k rest T HI Hid Hits HT) as (Hthr & Hqs & Hwk & Hlw & Hnf).
  unfold switched. set (s' := set_idle _ false) in *. cbn zeta.
  assert (threads s' = <[t := mkThread RUNNING (stack T) (at_frame T)]> (threads s)) as Hs' by done.
  destruct (inv_current s HI) as (Tc & Hcur & Hc1 & Hc2). rewrite Hid in Hc1. destruct Hc1 as [_ Hc1].
  assert (level s' = IntOff) as Hlev by (by apply Hc2).
  change (threadToBeDestroyed s') with (threadToBeDestroyed s).
  destruct (bool_decide (at_frame T = Some AtStart) || (threadToBeDestroyed s =? NULL)) eqn:Hno.
  - split; [split|..]; try done.
    + exists (mkThread RUNNING (stack T) (at_frame T)). unfold current. rewrite Hs'. simpl.
      by rewrite lookup_insert_eq.
    + intros u U. rewrite Hs'. destruct (decide (u = t)) as [->|Hne].
      * rewrite lookup_insert_eq. intros [= <-] Hf. by destruct Hnf.
      * rewrite lookup_insert_ne by done. apply (inv_finish s HI).
    + destruct (inv_destroy s HI) as [?|(Tf & Hcf & Hff)]; [by left|right]. exists Tf.
      split; [|done]. rewrite Hs'. simpl. rewrite lookup_insert_ne; [done|]. intros ->. simplify_eq.
    + intros x S HS. destruct (inv_semaphores s HI x S HS) as [? Hv]. split; [done|].
      intros Hne. rewrite Hwk. by apply Hv.
    + intros x L HL Hne Hfree. by apply Hlw, (inv_locks s HI x L).
  - apply orb_false_iff in Hno as [_ Hd%Z.eqb_neq].
    destruct (inv_destroy s HI) as [?|(Tf & Hcf & Hff)]; [done|].
    pose proof (inv_finish s HI _ _ Hcf Hff) as Hbl. set (d := threadToBeDestroyed s) in *.
    assert (d ≠ t) as Hdt by (intros ->; simplify_eq; congruence).
    assert (threads s' !! d = Some Tf) as Hd' by (by rewrite Hs', lookup_insert_ne).
    set (s2 := set_threadToBeDestroyed _ NULL).
    assert (threads s2 = delete d (threads s')) as Hs2 by done.
    split; [split|..].
    + intros u U HU. rewrite Hs2 in HU. apply lookup_delete_Some in HU as [? HU].
      apply (Hthr u U HU).
    + exists (mkThread RUNNING (stack T) (at_frame T)). unfold current. rewrite Hs2, Hs'. simpl.
      by rewrite lookup_delete_ne, lookup_insert_eq.
    + intros u U HU Hf. rewrite Hs2 in HU. apply lookup_delete_Some in HU as [Hud HU].
      rewrite Hs' in HU. destruct (decide (u = t)) as [->|Hne].
      * rewrite lookup_insert_eq in HU. injection HU as <-. by destruct Hnf.
      * rewrite lookup_insert_ne in HU by done. by apply (inv_finish s HI u U).
    + by left.
    + apply queues_delete with s' d Tf; [done|done|done|unfold place_of; by rewrite Hbl, Hff|].
      by intros [].
    + intros x S HS. destruct (inv_semaphores s HI x S HS) as [? Hv]. split; [done|].
      intros Hne. rewrite <- Hwk in Hv. change (woken s2 x) with (woken (set_threads s' (delete d (threads s'))) x).
      rewrite (woken_delete s' d Tf); [by apply Hv|done|].
      unfold woken_P, awake. by rewrite Hbl.
    + intros x L HL Hne Hfree. apply lock_wake_delete with s' d Tf; [done|done| |].
      * unfold woken_Acquire, awake. by rewrite Hbl.
      * by apply Hlw, (inv_locks s HI x L).
Qed.

Lemma set_readyList_id s : set_readyList s (readyList s) = s.
Proof. by destruct s. Qed.

Lemma dispatch_pick s f T :
  current s = Some T →
  let s1 := stopped s (status T) T f in
  Inv s1 → dispatch s f = Ok (pick s1).
Proof.
  intros HT s1 HI. unfold current in HT.
  assert (threads s1 !! currentThread s = Some (mkThread (status T) (stack T) (Some f))) as HT1
    by apply lookup_insert_eq.
  destruct (inv_threads s1 HI _ _ HT1) as (_ & Hstk & _). simpl in Hstk.
  destruct (inv_queues s1 HI InReady _ eq_refl) as (Hdang & _).
  unfold dispatch, FindNextToRun, pick. change (readyList s1) with (readyList s) in *.
  destruct (items (readyList s)) as [|[t k] rest] eqn:Hits.
  - rewrite Remove_nil by done. simpl. rewrite set_readyList_id. unfold set_frame.
    by rewrite (find_Some _ _ T) by done.
  - destruct (ready_head s1 t k rest HI Hits) as (Tt & HTt & Hst & Hfr). rewrite HTt.
    rewrite (Remove_cons _ t k rest) by done.
    destruct (inv_threads s1 HI _ _ HTt) as (Hn0 & _).
    destruct (Z.eqb_spec t NULL) as [|_]; [done|]. unfold Run, CheckOverflow.
    change (threads (set_idle (set_readyList s (mkQ rest false)) false)) with (threads s).
    change (currentThread (set_idle (set_readyList s (mkQ rest false)) false)) with (currentThread s).
    rewrite (find_Some _ _ T) by done. run_ok.
    assert (match stack T with None => Ok tt | Some w => ASSERT (w =? STACK_FENCEPOST) end = Ok tt) as ->.
    { destruct (stack T) as [w|]; [|done]. by rewrite (Hstk w), Z.eqb_refl. }
    run_ok. unfold set_frame, setStatus. simpl. rewrite (find_Some _ _ T) by done. simpl.
    rewrite (find_Some _ _ Tt) by done. simpl. unfold switched. simpl.
    rewrite (find_Some _ t (mkThread RUNNING (stack Tt) (at_frame Tt))) by apply lookup_insert_eq. simpl.
    destruct (bool_decide (at_frame Tt = Some AtStart)); [done|]. unfold destroy_carcass. simpl.
    destruct (Z.eqb_spec (threadToBeDestroyed s) NULL) as [Hd|Hd]; [done|].
    destruct (inv_destroy s1 HI) as [?|(Tf & Hcf & Hff)]; [done|].
    pose proof (inv_finish s1 HI _ _ Hcf Hff) as Hbl.
    assert (threadToBeDestroyed s ≠ t) as Hdt.
    { intros Heq. rewrite <- Heq in HTt. simpl in Hcf, HTt. congruence. }
    unfold Thread_delete. simpl. destruct (Z.eqb_spec (threadToBeDestroyed s) t); [done|]. run_ok.
    rewrite (find_Some _ _ Tf); [done|]. by rewrite lookup_insert_ne.
Qed.

Lemma Sleep_pick s f T :
  current s = Some T → level s = IntOff → Inv (stopped s BLOCKED T f) →
  Sleep s f = Ok (pick (stopped s BLOCKED T f)).
Proof.
  intros HT Hl HI. unfold Sleep. rewrite bool_decide_true by done. run_ok.
  unfold setStatus. rewrite (find_Some _ _ T) by done. run_ok.
  assert (stopped (put_thread s (currentThread s) (mkThread BLOCKED (stack T) (at_frame T)))
    BLOCKED (mkThread BLOCKED (stack T) (at_frame T)) f = stopped s BLOCKED T f) as Heq.
  { unfold stopped. by rewrite put_thread_twice. }
  rewrite (dispatch_pick _ f (mkThread BLOCKED (stack T) (at_frame T))).
  - cbn [status]. by rewrite Heq.
  - apply lookup_insert_eq.
  - cbn [status]. by rewrite Heq.
Qed.

(** *** Transitions of one thread *)

Lemma running_current s T :
  Base s → idle s = false → current s = Some T → status T = RUNNING.
Proof.
  intros HB Hid HT. destruct (inv_current s HB) as (T0 & HT0 & Hc & _). rewrite Hid in Hc. congruence.
Qed.

(** The carcass is not the running thread. *)
Lemma carcass_other s T :
  Base s → idle s = false → current s = Some T →
  threadToBeDestroyed s = NULL ∨
  ∃ Tf, threads s !! threadToBeDestroyed s = Some Tf ∧ at_frame Tf = Some AtFinish ∧
        threadToBeDestroyed s ≠ currentThread s.
Proof.
  intros HB Hid HT. pose proof (running_current s T HB Hid HT) as Hrun.
  destruct (inv_destroy s HB) as [?|(Tf & HTf & Hf)]; [by left|right]. exists Tf. split_and!; [done|done|].
  intros Heq. unfold current in HT. rewrite Heq in HTf. pose proof (inv_finish s HB _ _ HTf Hf). congruence.
Qed.

Lemma others_not_running s u U :
  Base s → threads s !! u = Some U → u ≠ currentThread s → thread_ok s u U ∧ status U ≠ RUNNING.
Proof.
  intros HB HU Hne. pose proof (inv_threads s HB u U HU) as Hok. split; [done|]. intros Hr.
  destruct Hok as (_ & _ & _ & H). rewrite Hr in H. by destruct H.
Qed.

(** The running thread stops. *)
Lemma stop_base s s1 T st f :
  Base s → idle s = false → current s = Some T →
  threads s1 = <[currentThread s := mkThread st (stack T) (Some f)]> (threads s) →
  currentThread s1 = currentThread s → idle s1 = true → level s1 = IntOff →
  (∀ g, frame_ok s g → frame_ok s1 g) → frame_ok s1 f →
  match st, f with
  | READY, AtYield _ => True
  | BLOCKED, AtP _ _ | BLOCKED, AtAcquire _ _ | BLOCKED, AtWait _ _ _ | BLOCKED, AtFinish => True
  | _, _ => False
  end →
  threadToBeDestroyed s1 = (if bool_decide (f = AtFinish) then currentThread s else threadToBeDestroyed s) →
  queues_ok s1 → Base s1.
Proof.
  intros HB Hid HT Hth Hcur Hidl Hlev Hfr Hf Hst Htbd Hq.
  destruct (inv_threads s HB _ _ HT) as (Hn0 & Hstk & _).
  assert (threads s1 !! currentThread s = Some (mkThread st (stack T) (Some f))) as HT1
    by (rewrite Hth; apply lookup_insert_eq).
  assert (st ≠ RUNNING) as Hnr by (by destruct st).
  split; [..|done].
  - apply threads_ok_put with s (currentThread s) (mkThread st (stack T) (Some f));
      [intros; by apply others_not_running|done|done|].
    split_and!; [done|done|by intros ? [= <-]|]. simpl. destruct st, f; done.
  - exists (mkThread st (stack T) (Some f)). unfold current. rewrite Hcur, Hidl. done.
  - intros u U HU Huf. rewrite Hth in HU. destruct (decide (u = currentThread s)) as [->|Hne].
    + rewrite lookup_insert_eq in HU. injection HU as <-. simpl in Huf. injection Huf as ->.
      rewrite bool_decide_true in Htbd by done. by destruct st.
    + rewrite lookup_insert_ne in HU by done. by apply (inv_finish s HB u U).
  - rewrite Htbd. case_bool_decide as Hff.
    + right. eexists. split; [exact HT1|]. by rewrite Hff.
    + destruct (carcass_other s T HB Hid HT) as [?|(Tf & HTf & ? & ?)]; [by left|right].
      exists Tf. by rewrite Hth, lookup_insert_ne.
Qed.

(** The running thread goes on, at no frame. *)
Lemma run_base s s1 T :
  Base s → idle s = false → current s = Some T →
  threads s1 = <[currentThread s := mkThread RUNNING (stack T) None]> (threads s) →
  currentThread s1 = currentThread s → idle s1 = false →
  threadToBeDestroyed s1 = threadToBeDestroyed s → (∀ g, frame_ok s g → frame_ok s1 g) →
  queues_ok s1 → Base s1.
Proof.
  intros HB Hid HT Hth Hcur Hidl Htbd Hfr Hq.
  destruct (inv_threads s HB _ _ HT) as (Hn0 & Hstk & _).
  split; [..|done].
  - apply threads_ok_put with s (currentThread s) (mkThread RUNNING (stack T) None);
      [intros; by apply others_not_running|done|done|]. by split_and!.
  - exists (mkThread RUNNING (stack T) None). unfold current. rewrite Hcur, Hidl, Hth.
    split; [apply lookup_insert_eq|]. by split; [|intros [? [=]]].
  - intros u U HU Huf. rewrite Hth in HU. destruct (decide (u = currentThread s)) as [->|Hne].
    + rewrite lookup_insert_eq in HU. by injection HU as <-.
    + rewrite lookup_insert_ne in HU by done. by apply (inv_finish s HB u U).
  - rewrite Htbd. destruct (carcass_other s T HB Hid HT) as [?|(Tf & HTf & ? & ?)]; [by left|right].
    exists Tf. by rewrite Hth, lookup_insert_ne.
Qed.

(** A blocked thread is made ready. *)
Lemma wake_base s s1 t T :
  Base s → threads s !! t = Some T → status T = BLOCKED → at_frame T ≠ Some AtFinish →
  threads s1 = <[t := mkThread READY (stack T) (at_frame T)]> (threads s) →
  currentThread s1 = currentThread s → idle s1 = idle s → level s1 = level s →
  threadToBeDestroyed s1 = threadToBeDestroyed s → (∀ g, frame_ok s g → frame_ok s1 g) →
  queues_ok s1 → Base s1.
Proof.
  intros HB HT Hst Hnf Hth Hcur Hidl Hlev Htbd Hfr Hq.
  destruct (inv_threads s HB _ _ HT) as (Hn0 & Hstk & Hfok & Hbl). rewrite Hst in Hbl.
  destruct (inv_current s HB) as (Tc & HTc & Hc & Hl).
  assert (currentThread s = t → Tc = T) as Hct by (unfold current in HTc; intros <-; congruence).
  split; [..|done].
  - intros u U. rewrite Hth. destruct (decide (u = t)) as [->|Hne].
    + rewrite lookup_insert_eq. intros [= <-]. split_and!; [done|done|by naive_solver|].
      simpl. by destruct (at_frame T).
    + rewrite lookup_insert_ne by done. intros HU.
      destruct (inv_threads s HB u U HU) as (? & ? & ? & Hs). split_and!; [done|done|naive_solver|].
      rewrite Hcur, Hidl. done.
  - unfold current. rewrite Hcur, Hidl, Hlev, Hth. destruct (decide (currentThread s = t)) as [Heq|Hne].
    + rewrite Heq, lookup_insert_eq. eexists. split; [done|]. rewrite (Hct Heq) in Hc, Hl.
      split; [|done]. destruct (idle s); [by destruct Hc|congruence].
    + rewrite lookup_insert_ne by done. by exists Tc.
  - intros u U HU Huf. rewrite Hth in HU. destruct (decide (u = t)) as [->|Hne].
    + rewrite lookup_insert_eq in HU. by injection HU as <-.
    + rewrite lookup_insert_ne in HU by done. by apply (inv_finish s HB u U).
  - rewrite Htbd. destruct (inv_destroy s HB) as [|(Tf & HTf & Hff)]; [by left|right].
    exists Tf. rewrite Hth. split; [|done]. rewrite lookup_insert_ne; [done|]. intros ->. simplify_eq.
Qed.

(** *** Operations of the running thread *)

(** The two parts about wakeups, with room for the thread that has just left
    the loop of [P] or [Acquire]. *)
Definition sem_ok (s : sys) (slack : Z → Z) : Prop :=
  ∀ x S, semaphores s !! x = Some S →
    0 ≤ value S ∧ (items (s_queue S) ≠ [] → value S ≤ woken s x + slack x).
Definition lock_ok (s : sys) (excused : Z → Prop) : Prop :=
  ∀ x L, locks s !! x = Some L →
    items (l_queue L) ≠ [] → free L = true → excused x ∨ lock_wake s x.

Definition at_P (x y : Z) : Z := if x =? y then 1 else 0.

Lemma Inv_parts s : Inv s ↔ Base s ∧ sem_ok s (λ _, 0) ∧ lock_ok s (λ _, False).
Proof.
  split.
  - intros [HB HS HL]. split_and!; [done|..].
    + intros x S HS0. rewrite Z.add_0_r. by apply HS.
    + intros x L HL0 Hne Hf. right. by apply (HL x L).
  - intros (HB & HS & HL). split; [done|..].
    + intros x S HS0. specialize (HS x S HS0). by rewrite Z.add_0_r in HS.
    + intros x L HL0 Hne Hf. by destruct (HL x L HL0 Hne Hf).
Qed.

Lemma sem_ok_slack s x : sem_ok s (λ _, 0) → sem_ok s (at_P x).
Proof.
  intros H y S HS. destruct (H y S HS) as [? Hv]. split; [done|]. intros Hne. specialize (Hv Hne).
  unfold at_P. destruct (x =? y); lia.
Qed.

Lemma place_running T : status T = RUNNING → place_of T = Nowhere.
Proof. intros H. unfold place_of. by rewrite H. Qed.

Lemma frame_ok_sub s s' g :
  (∀ x, is_Some (semaphores s !! x) → is_Some (semaphores s' !! x)) →
  (∀ x, is_Some (locks s !! x) → is_Some (locks s' !! x)) →
  (∀ x, is_Some (conditions s !! x) → is_Some (conditions s' !! x)) →
  frame_ok s g → frame_ok s' g.
Proof. intros. destruct g; simpl in *; naive_solver. Qed.

Ltac frames :=
  intros; eapply frame_ok_sub; [| | |eassumption]; intros ?; simpl;
  rewrite ?lookup_insert_is_Some'; auto.

(** Changing a thread that is not, and will not be, woken in a loop. *)
Lemma sem_ok_put s s' t T T' slack :
  sem_ok s slack → threads s !! t = Some T → threads s' = <[t := T']> (threads s) →
  (∀ x, woken_P x T = true → woken_P x T' = true) → semaphores s' = semaphores s → sem_ok s' slack.
Proof.
  intros H HT Hth Hw Hs x S HS. rewrite Hs in HS. destruct (H x S HS) as [? Hv]. split; [done|].
  intros Hne. specialize (Hv Hne).
  rewrite (woken_ext (put_thread s t T')) by done. rewrite (woken_put s t T) by done.
  specialize (Hw x). destruct (woken_P x T), (woken_P x T'); naive_solver lia.
Qed.

Lemma lock_ok_put s s' t T T' exc :
  lock_ok s exc → threads s !! t = Some T → threads s' = <[t := T']> (threads s) →
  (∀ x, woken_Acquire x T = true → woken_Acquire x T' = true) → locks s' = locks s →
  lock_ok s' exc.
Proof.
  intros H HT Hth Hw Hs x L HL Hne Hf. rewrite Hs in HL. destruct (H x L HL Hne Hf); [by left|right].
  apply lock_wake_put with s t T T'; auto.
Qed.

Section running.
Context (s : sys) (T : Thread).
Context (HB : Base s) (Hid : idle s = false) (HT : current s = Some T) (Hfr : at_frame T = None).

Lemma running_status : status T = RUNNING.
Proof. apply (running_current s T HB Hid HT). Qed.

Lemma not_woken_P x : woken_P x T = false.
Proof. unfold woken_P. rewrite Hfr. apply andb_false_r. Qed.

Lemma not_woken_Acquire x : woken_Acquire x T = false.
Proof. unfold woken_Acquire. rewrite Hfr. apply andb_false_r. Qed.

(** Falling asleep in a queue [p]. *)
Lemma Sleep_Inv s0 f p q :
  level s = IntOff → sem_ok s0 (λ _, 0) → lock_ok s0 (λ _, False) →
  threads s0 = threads s → currentThread s0 = currentThread s → idle s0 = false → level s0 = IntOff →
  threadToBeDestroyed s0 = threadToBeDestroyed s →
  (∀ g, frame_ok s g → frame_ok s0 g) → frame_ok s0 f →
  match f with AtP x _ => p = InSemaphore x | AtAcquire x _ => p = InLock x
             | AtWait x _ _ => p = InCondition x | _ => False end →
  queue s p = Some q → queue s0 p = Some (mkQ (items q ++ [(currentThread s, 0)]) false) →
  (∀ p', p' ≠ p → queue s0 p' = queue s p') →
  ∃ s', Sleep s0 f = Ok s' ∧ Inv s'.
Proof using HB Hid HT Hfr.
  intros Hl HS HL Hth Hcur Hid0 Hl0 Htbd Hsub Hf Hp Hq Hq0 Hsame.
  pose proof running_status as Hrun. assert (current s0 = Some T) as HT0
    by (unfold current; by rewrite Hth, Hcur).
  assert (place_of (mkThread BLOCKED (stack T) (Some f)) = p) as Hpl by (by destruct f; subst).
  assert (Inv (stopped s0 BLOCKED T f)) as HI; [|eexists; split; [by apply Sleep_pick|by apply pick_Inv]].
  apply Inv_parts. split_and!.
  - apply stop_base with s T BLOCKED f; [done|done|done| |done|done|done|done|done| | |].
    + simpl. by rewrite Hth, Hcur.
    + by destruct f.
    + rewrite bool_decide_false by (intros ->; done). done.
    + apply queues_move with s (currentThread s) T (mkThread BLOCKED (stack T) (Some f));
        [apply (inv_queues s HB)|done|simpl; by rewrite Hth, Hcur|..];
        rewrite ?(place_running T Hrun), ?Hpl.
      * by destruct f; subst.
      * intros p' _ Hne. rewrite <- Hsame by done. by destruct p'.
      * done.
      * intros q'. change (queue (stopped s0 BLOCKED T f) p) with (queue s0 p). rewrite Hq0.
        intros [= <-]. eauto.
  - apply sem_ok_put with s0 (currentThread s0) T (mkThread BLOCKED (stack T) (Some f)); try done.
    intros x. by rewrite not_woken_P.
  - apply lock_ok_put with s0 (currentThread s0) T (mkThread BLOCKED (stack T) (Some f)); try done.
    intros x. by rewrite not_woken_Acquire.
Qed.

Lemma running_eta : <[currentThread s := mkThread RUNNING (stack T) None]> (threads s) = threads s.
Proof using HB Hid HT Hfr.
  apply insert_id. rewrite <- running_status, <- Hfr. unfold current in HT. rewrite HT. by destruct T.
Qed.

(** Going on with the same threads and the same queues. *)
Lemma go_on_base s1 :
  threads s1 = threads s → currentThread s1 = currentThread s → idle s1 = false →
  threadToBeDestroyed s1 = threadToBeDestroyed s → (∀ g, frame_ok s g → frame_ok s1 g) →
  (∀ p, queue s1 p = queue s p) → Base s1.
Proof using HB Hid HT Hfr.
  intros Hth Hcur Hidl Htbd Hsub Hq. apply run_base with s T; try done.
  - by rewrite Hth, running_eta.
  - intros p q Hp. rewrite Hq in Hp. rewrite Hth. by apply (inv_queues s HB).
Qed.

Lemma P_loop_Inv x o :
  level s = IntOff → is_Some (semaphores s !! x) → sem_ok s (at_P x) → lock_ok s (λ _, False) →
  ∃ s' ev, P_loop s x o = Ok (s', ev) ∧ Inv s'.
Proof using HB Hid HT Hfr.
  intros Hl [S HS] Hsem Hlock. unfold P_loop. rewrite (find_Some _ _ _ HS). run_ok.
  destruct (Hsem x S HS) as [Hv0 Hvw]. destruct (Z.eqb_spec (value S) 0) as [Hz|Hz].
  - destruct (inv_queues s HB (InSemaphore x) (s_queue S)) as (Hd & _); [simpl; by rewrite HS|].
    rewrite Append_ok by done. run_ok.
    set (q := mkQ (items (s_queue S) ++ [(currentThread s, 0)]) false).
    destruct (Sleep_Inv (put_semaphore s x (mkSemaphore (value S) q)) (AtP x o)
      (InSemaphore x) (s_queue S)) as (s' & -> & HI); try done.
    + intros y S' HS'. simpl in HS'. destruct (decide (x = y)) as [<-|Hne].
      * rewrite lookup_insert_eq in HS'. injection HS' as <-. simpl. rewrite Hz.
        split; [done|]. intros _. pose proof (woken_nonneg s x). rewrite (woken_ext s) by done. lia.
      * rewrite lookup_insert_ne in HS' by done. destruct (Hsem y S' HS') as [? Hv]. split; [done|].
        intros Hi. specialize (Hv Hi). unfold at_P in Hv. destruct (Z.eqb_spec x y); [done|].
        by rewrite (woken_ext s) by done.
    + frames.
    + simpl. by rewrite lookup_insert_eq.
    + simpl. by rewrite HS.
    + simpl. by rewrite lookup_insert_eq.
    + intros [] Hne; simpl; try done. rewrite lookup_insert_ne; [done|congruence].
    + run_ok. eauto.
  - eexists _, _. split; [done|]. apply Inv_parts. split_and!.
    + apply go_on_base; try done; [frames|].
      intros []; simpl; try done. destruct (decide (x = x0)) as [<-|Hne];
        [by rewrite lookup_insert_eq, HS|by rewrite lookup_insert_ne].
    + intros y S' HS'. simpl in HS'. rewrite (woken_ext s) by done.
      destruct (decide (x = y)) as [<-|Hne].
      * rewrite lookup_insert_eq in HS'. injection HS' as <-. simpl. split; [lia|]. intros Hi.
        specialize (Hvw Hi). unfold at_P in Hvw. rewrite Z.eqb_refl in Hvw. lia.
      * rewrite lookup_insert_ne in HS' by done. destruct (Hsem y S' HS') as [? Hv]. split; [done|].
        intros Hi. specialize (Hv Hi). unfold at_P in Hv. destruct (Z.eqb_spec x y); [done|lia].
    + exact Hlock.
Qed.

Lemma Acquire_loop_Inv x o :
  level s = IntOff → is_Some (locks s !! x) → sem_ok s (λ _, 0) → lock_ok s (λ y, y = x) →
  ∃ s' ev, Acquire_loop s x o = Ok (s', ev) ∧ Inv s'.
Proof using HB Hid HT Hfr.
  intros Hl [L HL] Hsem Hlock. unfold Acquire_loop. rewrite (find_Some _ _ _ HL). run_ok.
  assert (∀ L', free L' = false → lock_ok (put_lock s x L') (λ _, False)) as Hlock'.
  { intros L' Hf y L0 HL0 Hne Hfree. simpl in HL0. destruct (decide (x = y)) as [<-|Hxy].
    - rewrite lookup_insert_eq in HL0. congruence.
    - rewrite lookup_insert_ne in HL0 by done. right.
      destruct (Hlock y L0 HL0 Hne Hfree); [congruence|done]. }
  destruct (free L) eqn:Hfree; simpl.
  - eexists _, _. split; [done|]. apply Inv_parts. split_and!.
    + apply go_on_base; try done; [frames|].
      intros []; simpl; try done. destruct (decide (x = x0)) as [<-|Hne];
        [by rewrite lookup_insert_eq, HL|by rewrite lookup_insert_ne].
    + exact Hsem.
    + by apply (Hlock' (mkLock false (l_queue L) (currentThread s))).
  - destruct (inv_queues s HB (InLock x) (l_queue L)) as (Hd & _); [simpl; by rewrite HL|].
    rewrite Append_ok by done. run_ok.
    destruct (Sleep_Inv (put_lock s x (mkLock false
      (mkQ (items (l_queue L) ++ [(currentThread s, 0)]) false) (holder L))) (AtAcquire x o)
      (InLock x) (l_queue L)) as (s' & -> & HI); try done.
    + by apply Hlock'.
    + frames.
    + simpl. by rewrite lookup_insert_eq.
    + simpl. by rewrite HL.
    + simpl. by rewrite lookup_insert_eq.
    + intros [] Hne; simpl; try done. rewrite lookup_insert_ne; [done|congruence].
    + run_ok. eauto.
Qed.
End running.

(** *** Waking a thread *)

Definition readied (s : sys) (t : Z) (T : Thread) : sys :=
  set_readyList (put_thread s t (mkThread READY (stack T) (at_frame T)))
    (mkQ (items (readyList s) ++ [(t, 0)]) false).

(** The first thread of a waiting queue [p] is taken off it and made ready; [s']
    is the state when the operation is over. *)
Lemma wake_head s s0 p q t k rest :
  Base s → p ≠ InReady → queue s p = Some q → items q = (t, k) :: rest →
  threads s0 = threads s →
  queue s0 p = Some (mkQ rest false) → (∀ p', p' ≠ p → queue s0 p' = queue s p') →
  ∃ T, threads s !! t = Some T ∧ status T = BLOCKED ∧ place_of T = p ∧ t ≠ NULL ∧
       ReadyToRun s0 t = Ok (readied s0 t T) ∧
       ∀ s', threads s' = threads (readied s0 t T) → currentThread s' = currentThread s →
             idle s' = idle s → level s' = level s →
             threadToBeDestroyed s' = threadToBeDestroyed s →
             (∀ g, frame_ok s g → frame_ok s' g) →
             (∀ p', queue s' p' = queue (readied s0 t T) p') → Base s'.
Proof.
  intros HB Hp Hq Hits Hth Hq0 Hsame.
  destruct (inv_queues s HB p q Hq) as (Hd & _ & Hmem).
  destruct (proj1 (Hmem t)) as (T & HT & Hpl); [unfold ids; rewrite Hits; set_solver|].
  assert (status T = BLOCKED ∧ at_frame T ≠ Some AtFinish) as [Hst Hnf].
  { unfold place_of in Hpl. destruct (status T); try (subst p; done).
    split; [done|]. intros E. rewrite E in Hpl. by subst p. }
  destruct (inv_threads s HB t T HT) as (Hn0 & _).
  assert (readyList s0 = readyList s) as Hr.
  { assert (queue s0 InReady = queue s InReady) as E by (apply Hsame; congruence).
    by injection E. }
  destruct (inv_queues s HB InReady _ eq_refl) as (Hdr & _).
  exists T. split_and!; [done|done|done|done|..].
  - unfold ReadyToRun, setStatus. rewrite Hth, (find_Some _ _ _ HT). run_ok. simpl.
    rewrite Hr, Append_ok by done. by rewrite <- Hr.
  - intros s' Hth' Hcur Hidl Hlev Htbd Hsub Hqs'. simpl in Hth'. rewrite Hth in Hth'.
    apply wake_base with s t T; try done.
    apply queues_move with s t T (mkThread READY (stack T) (at_frame T));
      [apply (inv_queues s HB)|done|done|..]; rewrite ?Hpl.
    + done.
    + intros p' Hne HneR. rewrite Hqs', <- Hsame by done. by destruct p'.
    + intros q'. rewrite Hqs'. replace (queue (readied s0 t T) p) with (queue s0 p) by (by destruct p).
      rewrite Hq0. intros [= <-]. eauto.
    + intros q'. rewrite Hqs'. intros [= <-]. exists (readyList s).
      split_and!; [done|simpl; by rewrite Hr|done].
Qed.

Lemma woken_P_readied x T :
  status T = BLOCKED → place_of T = InSemaphore x →
  woken_P x T = false ∧ woken_P x (mkThread READY (stack T) (at_frame T)) = true.
Proof.
  intros Hst Hpl. unfold place_of in Hpl. rewrite Hst in Hpl. unfold woken_P, awake. rewrite Hst.
  split; [done|]. simpl. destruct (at_frame T) as [[]|]; try done. simplify_eq. apply Z.eqb_refl.
Qed.

Lemma woken_Acquire_readied x T :
  status T = BLOCKED → place_of T = InLock x →
  woken_Acquire x (mkThread READY (stack T) (at_frame T)) = true.
Proof.
  intros Hst Hpl. unfold place_of in Hpl. rewrite Hst in Hpl. unfold woken_Acquire, awake.
  simpl. destruct (at_frame T) as [[]|]; try done. simplify_eq. apply Z.eqb_refl.
Qed.

(** Waking never takes a thread out of the woken ones. *)
Lemma woken_more s s' t T x :
  threads s !! t = Some T → status T = BLOCKED →
  threads s' = <[t := mkThread READY (stack T) (at_frame T)]> (threads s) →
  woken s x ≤ woken s' x ∧
  (place_of T = InSemaphore x → woken s' x = woken s x + 1) ∧
  (∀ y, lock_wake s y → lock_wake s' y) ∧
  (place_of T = InLock x → lock_wake s' x).
Proof.
  intros HT Hst Hth.
  rewrite (woken_ext (put_thread s t (mkThread READY (stack T) (at_frame T))) s') by done.
  rewrite (woken_put s t T) by done.
  assert (woken_P x T = false) as Hw by (unfold woken_P, awake; by rewrite Hst).
  rewrite Hw. cbv iota. split_and!.
  - destruct (woken_P x (mkThread READY (stack T) (at_frame T))); lia.
  - intros Hpl. destruct (woken_P_readied x T Hst Hpl) as [_ ->]. lia.
  - intros y. apply lock_wake_put with t T (mkThread READY (stack T) (at_frame T)); [done|done|].
    unfold woken_Acquire, awake. by rewrite Hst.
  - intros Hpl. exists t. eexists. rewrite Hth, lookup_insert_eq. split; [done|].
    by apply woken_Acquire_readied.
Qed.

(** Nothing that [Base] speaks about changes. *)
Lemma base_ext s s' :
  Base s → threads s' = threads s → currentThread s' = currentThread s → idle s' = idle s →
  level s' = level s → threadToBeDestroyed s' = threadToBeDestroyed s →
  (∀ g, frame_ok s g → frame_ok s' g) → (∀ p, queue s' p = queue s p) → Base s'.
Proof.
  intros HB Hth Hcur Hid Hl Htbd Hsub Hq. split.
  - rewrite Hth. intros t T HT. destruct (inv_threads s HB t T HT) as (? & ? & ? & ?).
    split_and!; [done|done|naive_solver|by rewrite Hcur, Hid].
  - unfold current. rewrite Hth, Hcur, Hid, Hl. apply (inv_current s HB).
  - rewrite Hth. apply (inv_finish s HB).
  - rewrite Hth, Htbd. apply (inv_destroy s HB).
  - intros p q. rewrite Hq, Hth. apply (inv_queues s HB).
Qed.

(** What an operation that does not give up the processor leaves alone. *)
Definition stays (s s' : sys) : Prop :=
  currentThread s' = currentThread s ∧ idle s' = idle s ∧ level s' = level s ∧
  (∀ T, current s = Some T → ∃ T', current s' = Some T' ∧ at_frame T' = at_frame T).

Lemma stays_same s s' :
  threads s' = threads s → currentThread s' = currentThread s → idle s' = idle s →
  level s' = level s → stays s s'.
Proof. intros Hth Hc Hi Hl. split_and!; try done. unfold current. rewrite Hth, Hc. eauto. Qed.

Lemma stays_put s s' t T T' :
  threads s !! t = Some T → threads s' = <[t := T']> (threads s) → at_frame T' = at_frame T →
  currentThread s' = currentThread s → idle s' = idle s → level s' = level s → stays s s'.
Proof.
  intros HT Hth Hf Hc Hi Hl. split_and!; try done. unfold current. rewrite Hth, Hc. intros Tc HTc.
  destruct (decide (currentThread s = t)) as [Heq|Hne].
  - rewrite Heq in *. rewrite lookup_insert_eq. exists T'. split; [done|congruence].
  - rewrite lookup_insert_ne by done. eauto.
Qed.

Lemma V_Inv s x :
  Inv s → is_Some (semaphores s !! x) →
  ∃ s', V s x = Ok (s', [EvV x]) ∧ Inv s' ∧ stays s s'.
Proof.
  intros HI [S HS]. unfold V. simpl. rewrite (find_Some _ _ _ HS). run_ok.
  pose proof (inv_base s HI) as HB.
  assert (queue s (InSemaphore x) = Some (s_queue S)) as Hqx by (simpl; by rewrite HS).
  destruct (inv_queues s HB _ _ Hqx) as (Hd & _).
  destruct (inv_semaphores s HI x S HS) as [Hv0 Hvw].
  destruct (items (s_queue S)) as [|[t k] rest] eqn:Hits.
  - rewrite Remove_nil by done. simpl. rewrite find_Some with (x := mkSemaphore (value S) (s_queue S))
      by apply lookup_insert_eq. simpl.
    eexists. split; [done|]. split; [|by apply stays_same]. split.
    + apply base_ext with s; try done; [frames|]. intros []; simpl; try done.
      destruct (decide (x = x0)) as [<-|Hne];
        [by rewrite lookup_insert_eq, HS|by rewrite !lookup_insert_ne].
    + intros y S'. simpl. rewrite insert_insert_eq. destruct (decide (x = y)) as [<-|Hne].
      * rewrite lookup_insert_eq. intros [= <-]. simpl. split; [lia|]. by rewrite Hits.
      * rewrite lookup_insert_ne by done. apply (inv_semaphores s HI).
    + apply (inv_locks s HI).
  - rewrite (Remove_cons _ t k rest) by done.
    destruct (wake_head s (put_semaphore (set_level s IntOff) x (mkSemaphore (value S) (mkQ rest false)))
      (InSemaphore x) (s_queue S) t k rest) as (T & HT & Hst & Hpl & Hn0 & HR & HB'); try done.
    { simpl. by rewrite lookup_insert_eq. }
    { intros [] Hne; simpl; try done. rewrite lookup_insert_ne; [done|congruence]. }
    destruct (Z.eqb_spec t NULL); [done|]. rewrite HR. run_ok.
    rewrite find_Some with (x := mkSemaphore (value S) (mkQ rest false)) by apply lookup_insert_eq. run_ok.
    set (s' := set_level _ (level s)). exists s'.
    assert (threads s' = <[t := mkThread READY (stack T) (at_frame T)]> (threads s)) as Hth' by done.
    assert (∀ z, woken s z ≤ woken s' z ∧ (place_of T = InSemaphore z → woken s' z = woken s z + 1) ∧
      (∀ y, lock_wake s y → lock_wake s' y) ∧ (place_of T = InLock z → lock_wake s' z)) as Hmore
      by (intros z; by apply (woken_more s s' t T z)).
    split; [done|]. split; [|by apply stays_put with t T (mkThread READY (stack T) (at_frame T))].
    split.
    + apply HB'; try done; [frames|]. intros []; simpl; try done.
      destruct (decide (x = x0)) as [<-|Hne];
        [by rewrite !lookup_insert_eq|by rewrite !lookup_insert_ne].
    + intros y S'. simpl. rewrite insert_insert_eq. destruct (Hmore y) as (Hm1 & Hm2 & _).
      destruct (decide (x = y)) as [<-|Hne].
      * rewrite lookup_insert_eq. intros [= <-]. simpl. split; [lia|]. intros _.
        rewrite Hm2 by done. assert (value S ≤ woken s x) by (by apply Hvw). lia.
      * rewrite lookup_insert_ne by done. intros HS'. destruct (inv_semaphores s HI y S' HS').
        split; [done|]. intros Hi. transitivity (woken s y); auto.
    + intros y L HL Hne Hf. destruct (Hmore y) as (_ & _ & Hm3 & _).
      apply Hm3. by apply (inv_locks s HI y L).
Qed.

Lemma level_Inv s l :
  Inv s → (∀ T, current s = Some T → is_Some (at_frame T) → l = IntOff) → Inv (set_level s l).
Proof.
  intros [[H1 H2 H3 H4 H5] HS HL] Hlev. split; [split|..]; try done.
  destruct H2 as (T & HT & Hc & _). exists T. split_and!; [done|done|]. by apply Hlev.
Qed.

Lemma stays_trans s1 s2 s3 : stays s1 s2 → stays s2 s3 → stays s1 s3.
Proof.
  intros (Hc & Hi & Hl & Hf) (Hc' & Hi' & Hl' & Hf'). split_and!; try congruence.
  intros T HT. destruct (Hf T HT) as (T1 & HT1 & E1). destruct (Hf' T1 HT1) as (T2 & HT2 & E2).
  exists T2. split; [done|congruence].
Qed.

(** Work done with interrupts off, and the old level restored. *)
Lemma atomic_Inv s s' :
  Inv s → Inv s' → stays (set_level s IntOff) s' →
  Inv (set_level s' (level s)) ∧ stays s (set_level s' (level s)).
Proof.
  intros HI HI' (Hc & Hi & _ & Hf). split; [|by split_and!].
  apply level_Inv; [done|]. intros T' HT' Hfr.
  destruct (inv_current s HI) as (T & HT & _ & Hl). destruct (Hf T HT) as (T1 & HT1 & E).
  assert (T1 = T') by congruence. subst T1. apply Hl. by rewrite <- E.
Qed.

Lemma off_Inv s : Inv s → Inv (set_level s IntOff).
Proof. intros HI. by apply level_Inv. Qed.

Lemma Release_Inv s x :
  Inv s → holds s x →
  ∃ s', Release s x = Ok (s', [EvReleased (currentThread s) x]) ∧ Inv s' ∧ stays s s' ∧
        conditions s' = conditions s ∧ is_Some (locks s' !! x).
Proof.
  intros HI (L & HL & Hfree & Hhold). unfold Release. simpl. rewrite (find_Some _ _ _ HL). run_ok.
  pose proof (inv_base s HI) as HB. rewrite Hhold, Z.eqb_refl.
  assert (queue s (InLock x) = Some (l_queue L)) as Hqx by (simpl; by rewrite HL).
  destruct (inv_queues s HB _ _ Hqx) as (Hd & _).
  destruct (items (l_queue L)) as [|[t k] rest] eqn:Hits.
  - rewrite Remove_nil by done. simpl.
    rewrite find_Some with (x := mkLock (free L) (l_queue L) (currentThread s)) by apply lookup_insert_eq.
    simpl. eexists. split; [done|].
    split; [|split_and!; [by apply stays_same|done|simpl; by rewrite lookup_insert_eq]]. split.
    + apply base_ext with s; try done; [frames|]. intros []; simpl; try done.
      destruct (decide (x = x0)) as [<-|Hne];
        [by rewrite lookup_insert_eq, HL|by rewrite !lookup_insert_ne].
    + apply (inv_semaphores s HI).
    + intros y L'. simpl. rewrite insert_insert_eq. destruct (decide (x = y)) as [<-|Hne].
      * rewrite lookup_insert_eq. intros [= <-]. simpl. by rewrite Hits.
      * rewrite lookup_insert_ne by done. apply (inv_locks s HI).
  - rewrite (Remove_cons _ t k rest) by done. cbn [currentThread put_lock set_locks set_level].
    destruct (wake_head s (put_lock (set_level s IntOff) x (mkLock (free L) (mkQ rest false) (currentThread s)))
      (InLock x) (l_queue L) t k rest) as (T & HT & Hst & Hpl & Hn0 & HR & HB'); try done.
    { simpl. by rewrite lookup_insert_eq. }
    { intros [] Hne; simpl; try done. rewrite lookup_insert_ne; [done|congruence]. }
    destruct (Z.eqb_spec t NULL); [done|]. rewrite HR. run_ok.
    rewrite find_Some with (x := mkLock (free L) (mkQ rest false) (currentThread s)) by apply lookup_insert_eq.
    run_ok. set (s' := set_level _ (level s)). exists s'.
    assert (threads s' = <[t := mkThread READY (stack T) (at_frame T)]> (threads s)) as Hth' by done.
    assert (∀ z, woken s z ≤ woken s' z ∧ (place_of T = InSemaphore z → woken s' z = woken s z + 1) ∧
      (∀ y, lock_wake s y → lock_wake s' y) ∧ (place_of T = InLock z → lock_wake s' z)) as Hmore
      by (intros z; by apply (woken_more s s' t T z)).
    split; [done|].
    split; [|split_and!; [by apply stays_put with t T (mkThread READY (stack T) (at_frame T))|done|
                          simpl; by rewrite lookup_insert_eq]].
    split.
    + apply HB'; try done; [frames|]. intros []; simpl; try done.
      destruct (decide (x = x0)) as [<-|Hne];
        [by rewrite !lookup_insert_eq|by rewrite !lookup_insert_ne].
    + intros y S' HS'. destruct (Hmore y) as (Hm1 & _). destruct (inv_semaphores s HI y S' HS').
      split; [done|]. intros Hi. transitivity (woken s y); auto.
    + intros y L'. simpl. rewrite insert_insert_eq. destruct (Hmore y) as (_ & _ & Hm3 & Hm4).
      destruct (decide (x = y)) as [<-|Hne].
      * rewrite lookup_insert_eq. intros _ _ _. by apply Hm4.
      * rewrite lookup_insert_ne by done. intros HL' Hne' Hf. by apply Hm3, (inv_locks s HI y L').
Qed.

(** One thread taken off a condition's queue and made ready. *)
Lemma signal_one s c C t k rest :
  Inv s → conditions s !! c = Some C → items (c_queue C) = (t, k) :: rest →
  ∃ s', Remove (c_queue C) = (t, mkQ rest false) ∧ t ≠ NULL ∧
        ReadyToRun (put_condition s c (mkCondition (mkQ rest false))) t = Ok s' ∧
        Inv s' ∧ stays s s' ∧ conditions s' !! c = Some (mkCondition (mkQ rest false)).
Proof.
  intros HI HC Hits. pose proof (inv_base s HI) as HB.
  assert (queue s (InCondition c) = Some (c_queue C)) as Hqx by (simpl; by rewrite HC).
  destruct (inv_queues s HB _ _ Hqx) as (Hd & _).
  destruct (wake_head s (put_condition s c (mkCondition (mkQ rest false)))
    (InCondition c) (c_queue C) t k rest) as (T & HT & Hst & Hpl & Hn0 & HR & HB'); try done.
  { simpl. by rewrite lookup_insert_eq. }
  { intros [] Hne; simpl; try done. rewrite lookup_insert_ne; [done|congruence]. }
  eexists. split; [by apply Remove_cons with k|]. split; [done|]. split; [exact HR|].
  set (s' := readied _ t T) in *.
  assert (threads s' = <[t := mkThread READY (stack T) (at_frame T)]> (threads s)) as Hth' by done.
  assert (∀ z, woken s z ≤ woken s' z ∧ (place_of T = InSemaphore z → woken s' z = woken s z + 1) ∧
    (∀ y, lock_wake s y → lock_wake s' y) ∧ (place_of T = InLock z → lock_wake s' z)) as Hmore
    by (intros z; by apply (woken_more s s' t T z)).
  split_and!; [split|by apply stays_put with t T (mkThread READY (stack T) (at_frame T))|apply lookup_insert_eq].
  - apply HB'; try done. frames.
  - intros y S' HS'. destruct (Hmore y) as (Hm1 & _). destruct (inv_semaphores s HI y S' HS').
    split; [done|]. intros Hi. transitivity (woken s y); auto.
  - intros y L' HL' Hne' Hf. destruct (Hmore y) as (_ & _ & Hm3 & _). by apply Hm3, (inv_locks s HI y L').
Qed.

Lemma put_condition_Inv s c C C' :
  Inv s → conditions s !! c = Some C → c_queue C' = c_queue C → Inv (put_condition s c C').
Proof.
  intros HI HC Hq. split; [|apply (inv_semaphores s HI)|apply (inv_locks s HI)].
  apply base_ext with s; try done; [apply (inv_base s HI)|frames|]. intros []; simpl; try done.
  destruct (decide (c = x)) as [<-|Hne]; [|by rewrite lookup_insert_ne].
  rewrite lookup_insert_eq, HC. simpl. by rewrite Hq.
Qed.

Lemma Signal_Inv s c :
  Inv s → is_Some (conditions s !! c) → ∃ s', Signal s c = Ok s' ∧ Inv s' ∧ stays s s'.
Proof.
  intros HI [C HC]. unfold Signal. simpl. rewrite (find_Some _ _ _ HC). run_ok.
  destruct (items (c_queue C)) as [|[t k] rest] eqn:Hits.
  - rewrite Remove_nil by done. simpl. eexists. split; [done|]. apply (atomic_Inv s); [done|..].
    + apply put_condition_Inv with C; [by apply off_Inv|done|done].
    + by apply stays_same.
  - destruct (signal_one (set_level s IntOff) c C t k rest) as (s' & -> & Hn0 & HR & HI' & Hst & _);
      [by apply off_Inv|done|done|].
    destruct (Z.eqb_spec t NULL); [done|]. rewrite HR. run_ok. eexists. split; [done|].
    by apply (atomic_Inv s).
Qed.

Lemma Broadcast_loop_Inv fuel s c C :
  Inv s → conditions s !! c = Some C → (length (items (c_queue C)) < fuel)%nat →
  ∃ s', Broadcast_loop fuel s c = Ok s' ∧ Inv s' ∧ stays s s' ∧
        ∃ C', conditions s' !! c = Some C' ∧ items (c_queue C') = [].
Proof.
  revert s C. induction fuel as [|fuel IH]; intros s C HI HC Hlen; [lia|]. simpl.
  rewrite (find_Some _ _ _ HC). run_ok.
  destruct (items (c_queue C)) as [|[t k] rest] eqn:Hits.
  - rewrite Remove_nil by done. simpl. eexists. split; [done|].
    split; [by apply put_condition_Inv with C|]. split; [by apply stays_same|].
    eexists. split; [apply lookup_insert_eq|done].
  - destruct (signal_one s c C t k rest HI HC Hits) as (s1 & -> & Hn0 & HR & HI' & Hst & HC').
    destruct (Z.eqb_spec t NULL); [done|]. rewrite HR. run_ok.
    destruct (IH s1 _ HI' HC') as (s' & ? & ? & ? & ?); [simpl in *; lia|].
    exists s'. split_and!; [done|done|by apply stays_trans with s1|done].
Qed.

Lemma Broadcast_Inv s c :
  Inv s → is_Some (conditions s !! c) → ∃ s', Broadcast s c = Ok s' ∧ Inv s' ∧ stays s s'.
Proof.
  intros HI [C HC]. unfold Broadcast. cbv zeta.
  change (conditions (set_level s IntOff)) with (conditions s). rewrite (find_Some _ _ _ HC). run_ok.
  destruct (Broadcast_loop_Inv (S (length (items (c_queue C)))) (set_level s IntOff) c C)
    as (s' & -> & HI' & Hst & _); [by apply off_Inv|done|lia|].
  run_ok. eexists. split; [done|]. by apply (atomic_Inv s).
Qed.

Section running_ops.
Context (s : sys) (T : Thread).
Context (HI : Inv s) (Hid : idle s = false) (HT : current s = Some T) (Hfr : at_frame T = None).

Lemma Wait_Inv c l :
  is_Some (conditions s !! c) → holds s l → ∃ s' ev, Wait s c l = Ok (s', ev) ∧ Inv s'.
Proof using HI Hid HT Hfr.
  intros [C HC] Hh. unfold Wait. cbv zeta.
  destruct (Release_Inv (set_level s IntOff) l) as (s1 & -> & HI1 & (Hc1 & Hi1 & Hl1 & Hf1) & Hcd & Hlk);
    [by apply off_Inv|done|].
  destruct (Hf1 T HT) as (T1 & HT1 & Hfr1). rewrite Hfr in Hfr1.
  pose proof (inv_base s1 HI1) as HB1. assert (idle s1 = false) as Hid1 by (by rewrite Hi1).
  assert (conditions s1 !! c = Some C) as HC1 by (by rewrite Hcd).
  run_ok. rewrite (find_Some _ _ _ HC1). run_ok.
  destruct (inv_queues s1 HB1 (InCondition c) (c_queue C)) as (Hd & _); [simpl; by rewrite HC1|].
  rewrite Append_ok by done. run_ok.
  pose proof (proj1 (Inv_parts s1) HI1) as (_ & HS1 & HL1).
  destruct (Sleep_Inv s1 T1 HB1 Hid1 HT1 Hfr1 (put_condition s1 c (mkCondition
    (mkQ (items (c_queue C) ++ [(currentThread s1, 0)]) false))) (AtWait c l (level s))
    (InCondition c) (c_queue C)) as (s' & -> & HI'); try done.
  - frames.
  - simpl. by rewrite lookup_insert_eq.
  - simpl. by rewrite HC1.
  - simpl. by rewrite lookup_insert_eq.
  - intros [] Hne; simpl; try done. rewrite lookup_insert_ne; [done|congruence].
  - run_ok. eauto.
Qed.

Lemma Finish_Inv : ∃ s', Finish s = Ok s' ∧ Inv s'.
Proof using HI Hid HT Hfr.
  pose proof (inv_base s HI) as HB. pose proof (running_status s T HB Hid HT) as Hrun.
  pose proof (proj1 (Inv_parts s) HI) as (_ & HS & HL).
  set (s0 := set_threadToBeDestroyed (set_level s IntOff) (currentThread s)).
  assert (Inv (stopped s0 BLOCKED T AtFinish)) as HI1.
  { apply Inv_parts. split_and!.
    - apply stop_base with s T BLOCKED AtFinish; try done.
      apply queues_stay with s (currentThread s) T (mkThread BLOCKED (stack T) (Some AtFinish));
        [apply (inv_queues s HB)|done|done|by rewrite place_running|]. by intros [].
    - apply sem_ok_put with s (currentThread s) T (mkThread BLOCKED (stack T) (Some AtFinish)); try done.
      intros x. by rewrite (not_woken_P T Hfr).
    - apply lock_ok_put with s (currentThread s) T (mkThread BLOCKED (stack T) (Some AtFinish)); try done.
      intros x. by rewrite (not_woken_Acquire T Hfr). }
  change (Finish s) with (Sleep s0 AtFinish). rewrite (Sleep_pick s0 AtFinish T) by done.
  eexists. split; [done|]. by apply pick_Inv.
Qed.

Lemma Yield_Inv : ∃ s', Yield s = Ok s' ∧ Inv s'.
Proof using HI Hid HT Hfr.
  pose proof (inv_base s HI) as HB. pose proof (running_status s T HB Hid HT) as Hrun.
  pose proof (proj1 (Inv_parts s) HI) as (_ & HS & HL).
  destruct (inv_queues s HB InReady _ eq_refl) as (Hdr & _).
  unfold Yield, FindNextToRun. cbv zeta. cbn [readyList set_level].
  destruct (items (readyList s)) as [|[n k] rest] eqn:Hits.
  { rewrite Remove_nil by done. simpl. eexists. split; [done|]. by destruct s. }
  destruct (ready_head s n k rest HI Hits) as (Tn & HTn & _ & _).
  destruct (inv_threads s HB n Tn HTn) as (Hn0 & _).
  rewrite (Remove_cons _ n k rest) by done. destruct (Z.eqb_spec n NULL); [done|].
  set (f := AtYield (level s)). set (T3 := mkThread READY (stack T) (at_frame T)).
  set (s3 := set_readyList (put_thread (set_level s IntOff) (currentThread s) T3)
               (mkQ (items (readyList s) ++ [(currentThread s, 0)]) false)).
  assert (current s3 = Some T3) as HT3 by apply lookup_insert_eq.
  assert (threads (stopped s3 READY T3 f) =
    <[currentThread s := mkThread READY (stack T) (Some f)]> (threads s)) as Hth
    by (simpl; apply insert_insert_eq).
  assert (Inv (stopped s3 READY T3 f)) as HI3.
  { apply Inv_parts. split_and!.
    - apply stop_base with s T READY f; try done.
      apply queues_move with s (currentThread s) T (mkThread READY (stack T) (Some f));
        [apply (inv_queues s HB)|done|done|..]; rewrite ?(place_running T Hrun).
      + done.
      + by intros [].
      + done.
      + intros q' [= <-]. eauto.
    - apply sem_ok_put with s (currentThread s) T (mkThread READY (stack T) (Some f)); try done.
      intros x. by rewrite (not_woken_P T Hfr).
    - apply lock_ok_put with s (currentThread s) T (mkThread READY (stack T) (Some f)); try done.
      intros x. by rewrite (not_woken_Acquire T Hfr). }
  exists (pick (stopped s3 READY T3 f)). split; [|by apply pick_Inv].
  transitivity (dispatch s3 f); [|exact (dispatch_pick s3 f T3 HT3 HI3)].
  unfold dispatch, FindNextToRun. cbn [readyList s3 set_readyList].
  rewrite Hits. cbn [app].
  rewrite (Remove_cons _ n k (rest ++ [(currentThread s, 0)])) by done.
  destruct (Z.eqb_spec n NULL); [done|].
  unfold ReadyToRun, setStatus. cbn [currentThread set_readyList set_level threads].
  rewrite (find_Some _ _ _ HT). run_ok. cbn [readyList put_thread set_threads set_readyList].
  rewrite Append_ok by done. run_ok. f_equal. unfold set_idle, s3, T3. simpl. rewrite <- Hid. reflexivity.
Qed.
End running_ops.

Lemma Fork_Inv s t :
  Inv s → threads s !! t = None → t ≠ NULL → ∃ s', Fork (Thread_new s t) t = Ok s' ∧ Inv s'.
Proof.
  intros HI Ht Hn0. pose proof (inv_base s HI) as HB.
  destruct (inv_queues s HB InReady _ eq_refl) as (Hdr & _).
  unfold Fork, Thread_new, StackAllocate.
  rewrite (find_Some _ _ (mkThread JUST_CREATED None None)) by apply lookup_insert_eq. run_ok.
  rewrite put_thread_twice. cbn [status].
  set (s0 := put_thread s t _). unfold ReadyToRun, setStatus.
  rewrite (find_Some _ _ (mkThread JUST_CREATED (Some STACK_FENCEPOST) (Some AtStart)))
    by apply lookup_insert_eq. run_ok. rewrite Append_ok by done. run_ok.
  set (T' := mkThread READY (Some STACK_FENCEPOST) (Some AtStart)).
  eexists. split; [done|]. set (s' := set_level _ _).
  assert (threads s' = <[t := T']> (threads s)) as Hth by (simpl; apply insert_insert_eq).
  destruct (inv_current s HB) as (Tc & HTc & Hc & Hl).
  assert (currentThread s ≠ t) as Hct by (intros Heq; unfold current in HTc; congruence).
  assert (current s' = Some Tc) as HTc'.
  { unfold current. rewrite Hth. by rewrite lookup_insert_ne. }
  split; [split|..].
  - intros u U. rewrite Hth. destruct (decide (u = t)) as [->|Hne].
    + rewrite lookup_insert_eq. intros [= <-]. split_and!; [done| |by intros ? [= <-]|by eexists].
      by intros w [= <-].
    + rewrite lookup_insert_ne by done. intros HU. apply (inv_threads s HB u U HU).
  - exists Tc. by split_and!.
  - intros u U. rewrite Hth. destruct (decide (u = t)) as [->|Hne].
    + rewrite lookup_insert_eq. by intros [= <-].
    + rewrite lookup_insert_ne by done. apply (inv_finish s HB).
  - destruct (inv_destroy s HB) as [|(Tf & HTf & ?)]; [by left|right].
    exists Tf. rewrite Hth. split; [|done]. change (threadToBeDestroyed s') with (threadToBeDestroyed s).
    rewrite lookup_insert_ne; [done|]. intros Heq. congruence.
  - apply queues_new with s t T'; [apply (inv_queues s HB)|done|done|done| |done|done].
    by intros [] ?.
  - intros x S HS. destruct (inv_semaphores s HI x S HS) as [? Hv]. split; [done|]. intros Hi.
    rewrite (woken_ext (put_thread s t T') s') by done. rewrite woken_new by done. auto.
  - intros x L HL Hne Hf. destruct (inv_locks s HI x L HL Hne Hf) as (u & U & HU & HUw).
    exists u, U. split; [|done]. rewrite Hth, lookup_insert_ne; [done|]. congruence.
Qed.

Lemma resume_Inv s T f :
  Inv s → idle s = false → current s = Some T → at_frame T = Some f →
  ∃ s' ev, resume s f = Ok (s', ev) ∧ Inv s'.
Proof.
  intros HI Hid HT Hf. pose proof (inv_base s HI) as HB.
  pose proof (running_current s T HB Hid HT) as Hrun.
  pose proof (proj1 (Inv_parts s) HI) as (_ & HS & HL).
  assert (level s = IntOff) as Hlev.
  { destruct (inv_current s HB) as (T0 & HT0 & _ & Hl). simplify_eq. apply Hl. by eexists. }
  destruct (inv_threads s HB _ _ HT) as (_ & _ & Hfok & _). specialize (Hfok f Hf).
  unfold resume, set_frame. rewrite (find_Some _ _ _ HT). run_ok. rewrite Hrun.
  set (T0 := mkThread RUNNING (stack T) None). set (s0 := put_thread s (currentThread s) T0).
  assert (∀ l, Base (set_level s0 l)) as HB0.
  { intros l. apply run_base with s T; try done.
    apply queues_stay with s (currentThread s) T T0; [apply (inv_queues s HB)|done|done| |].
    - by rewrite !place_running.
    - by intros []. }
  pose proof (HB0 IntOff) as HB1. rewrite <- Hlev in HB1.
  replace (set_level s0 (level s)) with s0 in HB1 by (by destruct s).
  assert (current s0 = Some T0) as HT0 by apply lookup_insert_eq.
  assert (∀ slack, (∀ x, woken_P x T = true → 1 ≤ slack x) → (∀ x, 0 ≤ slack x) → sem_ok s0 slack) as HS0.
  { intros slack Hsl Hnn x S HSx. destruct (HS x S HSx) as [? Hv]. split; [done|]. intros Hi.
    specialize (Hv Hi). subst s0. rewrite (woken_put s _ T) by done.
    specialize (Hsl x). specialize (Hnn x). change (woken_P x T0) with false. destruct (woken_P x T); lia. }
  assert (∀ exc : Z → Prop, (∀ x, woken_Acquire x T = true → exc x) → lock_ok s0 exc) as HL0.
  { intros exc Hexc x L HLx Hne Hfree. destruct (HL x L HLx Hne Hfree) as [[]|(u & U & HU & HUw)].
    destruct (decide (u = currentThread s)) as [->|Hu].
    - left. apply Hexc. unfold current in HT. congruence.
    - right. exists u, U. split; [|done]. simpl. by rewrite lookup_insert_ne. }
  unfold woken_P, woken_Acquire, awake in HS0, HL0. rewrite Hrun, Hf in HS0, HL0. simpl in HS0, HL0.
  destruct f as [|o|x o|x o|c x o|].
  - eexists _, _. split; [done|]. apply Inv_parts. split_and!; [apply HB0|by apply HS0|by apply HL0].
  - eexists _, _. split; [done|]. apply Inv_parts. split_and!; [apply HB0|by apply HS0|by apply HL0].
  - apply (P_loop_Inv s0 T0); try done; [|by apply HL0].
    apply HS0; intros y; unfold at_P; rewrite (Z.eqb_sym x); destruct (y =? x); done || lia.
  - apply (Acquire_loop_Inv s0 T0); try done; [by apply HS0|].
    apply HL0. intros y Hy. by apply Z.eqb_eq in Hy.
  - destruct Hfok as [_ Hl]. apply (Acquire_loop_Inv s0 T0); try done; [by apply HS0|].
    apply HL0. intros y Hy. by apply Z.eqb_eq in Hy.
  - pose proof (inv_finish s HB _ _ HT Hf). congruence.
Qed.

(** A new semaphore, lock or condition, with an empty queue. *)
Lemma new_object_base s s' p :
  Base s → queue s p = None → queue s' p = Some empty → (∀ p', p' ≠ p → queue s' p' = queue s p') →
  threads s' = threads s → currentThread s' = currentThread s → idle s' = idle s →
  level s' = level s → threadToBeDestroyed s' = threadToBeDestroyed s →
  (∀ g, frame_ok s g → frame_ok s' g) → Base s'.
Proof.
  intros HB Hp Hp' Hsame Hth Hcur Hid Hl Htbd Hsub. split.
  - rewrite Hth. intros t T HT. destruct (inv_threads s HB t T HT) as (? & ? & ? & ?).
    split_and!; [done|done|naive_solver|by rewrite Hcur, Hid].
  - unfold current. rewrite Hth, Hcur, Hid, Hl. apply (inv_current s HB).
  - rewrite Hth. apply (inv_finish s HB).
  - rewrite Hth, Htbd. apply (inv_destroy s HB).
  - intros p0 q Hq. rewrite Hth. destruct (decide (p0 = p)) as [->|Hne];
      [|rewrite Hsame in Hq by done; by apply (inv_queues s HB)].
    rewrite Hp' in Hq. injection Hq as <-. split_and!; [done|apply NoDup_nil_2|]. intros t.
    split; [intros H; by apply elem_of_nil in H|]. intros (T & HT & Hpl). exfalso.
    destruct (inv_threads s HB t T HT) as (_ & _ & Hfok & _). unfold place_of in Hpl.
    destruct (status T); try (subst p; done).
    destruct (at_frame T) as [[]|]; subst p; simpl in Hp, Hp'; try done;
      specialize (Hfok _ eq_refl); simpl in Hfok;
      apply fmap_None in Hp; rewrite ?Hp in Hfok; destruct Hfok; by eapply is_Some_None.
Qed.

(** The operations preserve the invariant, and never stop: no assertion fails,
    no freed object or null pointer is used. *)
Lemma exec_Inv l s :
  Inv s → enabled l s → allowed l s → ∃ s' ev, exec l s = Ok (s', ev) ∧ Inv s'.
Proof.
  intros HI Hen Hal. pose proof (inv_base s HI) as HB.
  pose proof (inv_base _ (off_Inv s HI)) as HB0.
  pose proof (proj1 (Inv_parts _) (off_Inv s HI)) as (_ & HS & HL).
  assert (∀ r, (∃ s', r = Ok s' ∧ Inv s') → ∃ s' ev, no_event r = Ok (s', ev) ∧ Inv s') as Hno
    by (intros r (s' & -> & ?); eexists _, _; by split).
  assert (∀ x, is_Some (semaphores s !! x) → ∃ s' ev, V s x = Ok (s', ev) ∧ Inv s') as HV
    by (intros x Hx; destruct (V_Inv s x HI Hx) as (s' & ? & ? & _); eauto).
  destruct l as [|x|x|x|x|c x|c|c| |t| |x v|x g|x|x|x]; simpl in Hen, Hal; simpl exec;
    try destruct Hen as (Hid & T & HT & Hfr).
  - destruct Hfr as (f & Hf). rewrite (find_Some _ _ _ HT). run_ok. rewrite Hf.
    by apply resume_Inv with T.
  - apply (P_loop_Inv (set_level s IntOff) T); try done. by apply sem_ok_slack.
  - by apply HV.
  - apply (Acquire_loop_Inv (set_level s IntOff) T); try done.
    intros y L HLy Hne Hf. right. by destruct (HL y L HLy Hne Hf).
  - destruct (Release_Inv s x HI Hal) as (s' & ? & ? & _). eauto.
  - destruct Hal. by apply (Wait_Inv s T).
  - destruct (Signal_Inv s c HI Hal) as (s' & ? & ? & _). apply Hno. eauto.
  - destruct (Broadcast_Inv s c HI Hal) as (s' & ? & ? & _). apply Hno. eauto.
  - apply Hno. by apply (Yield_Inv s T).
  - destruct Hal. apply Hno. by apply Fork_Inv.
  - apply Hno. by apply (Finish_Inv s T).
  - destruct Hal as [Hx Hv]. eexists _, _. split; [done|]. split.
    + apply new_object_base with s (InSemaphore x); try done; [simpl; by rewrite Hx|simpl; by rewrite lookup_insert_eq| |frames].
      intros [] Hne; simpl; try done. rewrite lookup_insert_ne; [done|congruence].
    + intros y S. simpl. destruct (decide (x = y)) as [<-|Hne].
      * rewrite lookup_insert_eq. intros [= <-]. by split.
      * rewrite lookup_insert_ne by done. apply (inv_semaphores s HI).
    + apply (inv_locks s HI).
  - eexists _, _. split; [done|]. split.
    + apply new_object_base with s (InLock x); try done; [simpl; by rewrite Hal|simpl; by rewrite lookup_insert_eq| |frames].
      intros [] Hne; simpl; try done. rewrite lookup_insert_ne; [done|congruence].
    + apply (inv_semaphores s HI).
    + intros y L. simpl. destruct (decide (x = y)) as [<-|Hne].
      * rewrite lookup_insert_eq. by intros [= <-].
      * rewrite lookup_insert_ne by done. apply (inv_locks s HI).
  - eexists _, _. split; [done|]. split; [|apply (inv_semaphores s HI)|apply (inv_locks s HI)].
    apply new_object_base with s (InCondition x); try done; [simpl; by rewrite Hal|simpl; by rewrite lookup_insert_eq| |frames].
    intros [] Hne; simpl; try done. rewrite lookup_insert_ne; [done|congruence].
  - by apply HV.
  - destruct (V_Inv s x HI Hal) as (s1 & -> & HI1 & (Hc1 & Hi1 & _)). run_ok.
    destruct (inv_current s1 HI1) as (T1 & HT1 & Hst1 & _). rewrite Hi1, Hen in Hst1.
    destruct Hst1 as [_ [f Hf]]. rewrite (find_Some _ _ _ HT1). run_ok. rewrite Hf.
    assert (stopped s1 (status T1) T1 f = s1) as Heq.
    { unfold stopped. rewrite <- Hf. rewrite put_thread_id by (unfold current in HT1; rewrite HT1; by destruct T1).
      unfold set_idle. rewrite <- Hen, <- Hi1. by destruct s1. }
    rewrite (dispatch_pick s1 f T1 HT1) by (by rewrite Heq). rewrite Heq. run_ok.
    eexists _, _. split; [done|]. apply pick_Inv; [done|congruence].
Qed.

Lemma reachable_Inv main s tr : main ≠ NULL → reachable main s tr → Inv s.
Proof.
  intros Hm. induction 1 as [|s tr l s' ev _ IH Hen Hal Hex].
  - split; [split|..]; simpl; try done.
    + intros t T. rewrite lookup_singleton_Some. intros [<- <-]. by split_and!.
    + exists (mkThread RUNNING None None). unfold current. simpl. rewrite lookup_singleton_eq.
      split_and!; [done|done|by intros []].
    + intros t T. rewrite lookup_singleton_Some. by intros [<- <-].
    + by left.
    + intros p q. destruct p; simpl; rewrite ?lookup_empty; try done. intros [= <-].
      split_and!; [done|apply NoDup_nil_2|]. intros t. split; [intros H; by apply elem_of_nil in H|].
      intros (T & HT & Hpl). apply lookup_singleton_Some in HT as [_ <-]. done.
  - destruct (exec_Inv l s IH Hen Hal) as (s1 & ev1 & H1 & H2). congruence.
Qed.

(** ** What the trace says about semaphores and locks *)

(** The value a semaphore must have after a trace. *)
Definition credit1 (x : Z) (e : event) : Z :=
  match e with
  | EvNew y v => if x =? y then v else 0
  | EvP _ y => if x =? y then -1 else 0
  | EvV y => if x =? y then 1 else 0
  | _ => 0
  end.
Definition credit (x : Z) (tr : list event) : Z := foldr (λ e n, credit1 x e + n) 0 tr.

(** Who holds a lock after a trace, and that nobody gets a lock that is held. *)
Definition owner1 (x : Z) (o : option Z) (e : event) : option Z :=
  match e with
  | EvAcquired t y => if x =? y then Some t else o
  | EvReleased _ y => if x =? y then None else o
  | _ => o
  end.
Definition owner (x : Z) (tr : list event) : option Z := foldl (owner1 x) None tr.

Fixpoint exclusive_from (x : Z) (o : option Z) (tr : list event) : Prop :=
  match tr with
  | [] => True
  | e :: tr =>
    match e with EvAcquired _ y => x = y → o = None | _ => True end ∧
    exclusive_from x (owner1 x o e) tr
  end.
Definition exclusive (x : Z) (tr : list event) : Prop := exclusive_from x None tr.

(** The same two things read off the state. *)
Definition val (s : sys) (x : Z) : Z := default 0 (value <$> semaphores s !! x).
Definition own (s : sys) (x : Z) : option Z :=
  L ← locks s !! x; if free L then None else Some (holder L).

Definition same_objects (s s' : sys) : Prop :=
  semaphores s' = semaphores s ∧ locks s' = locks s.

(** The events account for the change, and respect exclusion. *)
Definition accounted (s s' : sys) (ev : list event) : Prop :=
  (∀ x, val s' x = val s x + credit x ev) ∧
  (∀ x, own s' x = foldl (owner1 x) (own s x) ev) ∧
  (∀ x, exclusive_from x (own s x) ev).

Lemma ReadyToRun_objects s t s' : ReadyToRun s t = Ok s' → same_objects s s'.
Proof. unfold ReadyToRun, setStatus. intros H. by bind_inv. Qed.

Lemma Run_objects s f t s' : Run s f t = Ok s' → same_objects s s'.
Proof.
  unfold Run, destroy_carcass, set_frame, setStatus, Thread_delete. intros Hr. bind_inv.
  repeat case_match; by bind_inv.
Qed.

Lemma dispatch_objects s f s' : dispatch s f = Ok s' → same_objects s s'.
Proof.
  unfold dispatch, FindNextToRun, set_frame. destruct (Remove (readyList s)) as [t q].
  case_match; intros Hr; bind_inv; [done|]. by apply Run_objects in Hr.
Qed.

Lemma Sleep_objects s f s' : Sleep s f = Ok s' → same_objects s s'.
Proof.
  unfold Sleep, setStatus. intros Hr. bind_inv. by apply dispatch_objects in Hr.
Qed.

Lemma accounted_same s s' : same_objects s s' → accounted s s' [].
Proof.
  intros [HS HL]. unfold accounted, val, own. rewrite HS, HL. simpl. split_and!; [|done|done].
  intros x. lia.
Qed.

Lemma accounted_trans s1 s2 s3 ev1 ev2 :
  accounted s1 s2 ev1 → accounted s2 s3 ev2 → accounted s1 s3 (ev1 ++ ev2).
Proof.
  intros (Hv & Ho & He) (Hv' & Ho' & He').
  assert (∀ x l1 l2, credit x (l1 ++ l2) = credit x l1 + credit x l2) as Hc.
  { intros x l1 l2. induction l1; simpl; [done|]. lia. }
  assert (∀ x l1 o l2, exclusive_from x o (l1 ++ l2) ↔
    exclusive_from x o l1 ∧ exclusive_from x (foldl (owner1 x) o l1) l2) as Hx.
  { intros x l1. induction l1 as [|e l1 IH]; intros o l2; simpl; [tauto|]. rewrite IH. tauto. }
  split_and!; intros x.
  - rewrite Hv', Hv, Hc. lia.
  - by rewrite Ho', Ho, foldl_app.
  - rewrite Hx, <- Ho. auto.
Qed.

Lemma P_loop_accounted s x o s' ev : P_loop s x o = Ok (s', ev) → accounted s s' ev.
Proof.
  unfold P_loop, find. destruct (semaphores s !! x) as [S|] eqn:HS; [|by destruct (x =? NULL)]. run_ok.
  destruct (Z.eqb_spec (value S) 0) as [Hz|Hz]; intros Hr; bind_inv.
  - apply Sleep_objects in E0 as [HS' HL']. unfold accounted, val, own. rewrite HS', HL'. simpl.
    split_and!; [|done|done]. intros y. destruct (decide (x = y)) as [<-|Hne];
      [rewrite lookup_insert_eq, HS|rewrite lookup_insert_ne by done]; simpl; lia.
  - unfold accounted, val, own. simpl. split_and!; [|done|done].
    intros y. destruct (decide (x = y)) as [<-|Hne].
    + rewrite lookup_insert_eq, HS, Z.eqb_refl. simpl. lia.
    + rewrite lookup_insert_ne by done. destruct (Z.eqb_spec y x); [congruence|lia].
Qed.

Lemma V_accounted s x s' ev : V s x = Ok (s', ev) → accounted s s' ev.
Proof.
  unfold V. simpl. destruct (find (semaphores s) x) as [S|] eqn:HS; [|done]. run_ok.
  destruct (Remove (s_queue S)) as [t q]. intros Hr. bind_inv.
  assert (same_objects (put_semaphore (set_level s IntOff) x (mkSemaphore (value S) q)) a) as [HSa HLa].
  { revert E. case_match; [by intros [= <-]|]. apply ReadyToRun_objects. }
  unfold find in HS, E0. rewrite HSa in E0. simpl in E0. rewrite lookup_insert_eq in E0.
  injection E0 as <-. destruct (semaphores s !! x) as [S'|] eqn:HS'; [|by destruct (x =? NULL)].
  injection HS as ->. unfold accounted, val, own. simpl. rewrite HSa, HLa. simpl.
  split_and!; [|done|done]. intros y. destruct (decide (x = y)) as [<-|Hne].
  - rewrite lookup_insert_eq, HS', Z.eqb_refl. simpl. lia.
  - rewrite !lookup_insert_ne by done. destruct (Z.eqb_spec y x); [congruence|lia].
Qed.

Lemma Acquire_loop_accounted s x o s' ev : Acquire_loop s x o = Ok (s', ev) → accounted s s' ev.
Proof.
  unfold Acquire_loop, find. destruct (locks s !! x) as [L|] eqn:HL; [|by destruct (x =? NULL)]. run_ok.
  destruct (free L) eqn:Hf; simpl; intros Hr; bind_inv.
  - unfold accounted, val, own. simpl. split_and!; [intros; lia|..]; intros y;
      destruct (decide (x = y)) as [<-|Hne].
    + rewrite lookup_insert_eq, Z.eqb_refl. done.
    + rewrite lookup_insert_ne by done. destruct (Z.eqb_spec y x); [congruence|done].
    + rewrite HL. simpl. by rewrite Hf.
    + split; [|done]. intros ->. congruence.
  - apply Sleep_objects in E0 as [HS' HL']. unfold accounted, val, own. rewrite HS', HL'. simpl.
    split_and!; [intros; lia| |done]. intros y. destruct (decide (x = y)) as [<-|Hne];
      [rewrite lookup_insert_eq, HL; simpl; by rewrite Hf|by rewrite lookup_insert_ne].
Qed.

Lemma Release_accounted s x s' ev : Release s x = Ok (s', ev) → accounted s s' ev.
Proof.
  unfold Release. simpl. destruct (find (locks s) x) as [L|] eqn:HL; [|done]. run_ok.
  destruct (Remove (l_queue L)) as [t q].
  assert (locks s !! x = Some L) as HL'.
  { revert HL. unfold find. destruct (locks s !! x); [congruence|by destruct (x =? NULL)]. }
  destruct (Z.eqb_spec (currentThread s) (holder L)) as [Hh|Hh]; intros Hr; bind_inv.
  - assert (same_objects (put_lock (set_level s IntOff) x (mkLock (free L) q (holder L))) a) as [HSa HLa].
    { revert E. case_match; [by intros [= <-]|]. apply ReadyToRun_objects. }
    unfold find in E0. rewrite HLa in E0. simpl in E0. rewrite lookup_insert_eq in E0. injection E0 as <-.
    unfold accounted, val, own. simpl. rewrite HSa, HLa. simpl. split_and!; [intros; lia| |done].
    intros y. destruct (decide (x = y)) as [<-|Hne].
    + rewrite lookup_insert_eq, Z.eqb_refl. done.
    + rewrite !lookup_insert_ne by done. destruct (Z.eqb_spec y x); [congruence|done].
  - unfold accounted, val, own. simpl. split_and!; [intros; lia| |done].
    intros y. destruct (decide (x = y)) as [<-|Hne];
      [by rewrite lookup_insert_eq, HL'|by rewrite lookup_insert_ne].
Qed.

(** New objects are new; nothing else is asked of the callers. *)
Definition fresh (l : label) (s : sys) : Prop :=
  match l with
  | OpNewSemaphore x _ => semaphores s !! x = None
  | OpNewLock x _ => locks s !! x = None
  | _ => True
  end.

Lemma Broadcast_loop_objects fuel s c s' : Broadcast_loop fuel s c = Ok s' → same_objects s s'.
Proof.
  revert s. induction fuel as [|fuel IH]; intros s; [done|]. simpl. intros Hr. bind_inv.
  destruct (Remove (c_queue a)) as [t q]. revert Hr. case_match; [by intros [= <-]|].
  intros Hr. bind_inv. apply ReadyToRun_objects in E0 as [H1 H2]. apply IH in Hr as [H3 H4].
  split; [by rewrite H3, H1|by rewrite H4, H2].
Qed.

Lemma exec_accounted l s s' ev : fresh l s → exec l s = Ok (s', ev) → accounted s s' ev.
Proof.
  assert (∀ r, no_event r = Ok (s', ev) → (∀ s1, r = Ok s1 → same_objects s s1) → accounted s s' ev) as Hno.
  { intros r Hr Hs. unfold no_event in Hr. bind_inv. by apply accounted_same, Hs. }
  intros Hfr. destruct l as [|x|x|x|x|c x|c|c| |t| |x v|x g|x|x|x]; simpl in *.
  - intros Hr. bind_inv. revert Hr. case_match; [|done]. unfold resume, set_frame. intros Hr. bind_inv.
    destruct f; bind_inv; try by apply accounted_same.
    + by apply P_loop_accounted in Hr.
    + by apply Acquire_loop_accounted in Hr.
    + by apply Acquire_loop_accounted in Hr.
  - apply P_loop_accounted.
  - apply V_accounted.
  - apply Acquire_loop_accounted.
  - apply Release_accounted.
  - unfold Wait. intros Hr. bind_inv. destruct a as [s1 ev1]. bind_inv.
    apply Release_accounted in E. rewrite <- (app_nil_r ev). apply accounted_trans with s1; [done|].
    apply Sleep_objects in E2. by apply accounted_same.
  - intros Hr. apply (Hno _ Hr). intros s1. unfold Signal. intros Hr1. bind_inv.
    destruct (Remove (c_queue a)) as [t q]. bind_inv. revert E0.
    case_match; [by intros [= <-]|]. intros E1. by apply ReadyToRun_objects in E1.
  - intros Hr. apply (Hno _ Hr). intros s1. unfold Broadcast. intros Hr1. bind_inv.
    by apply Broadcast_loop_objects in E0.
  - intros Hr. apply (Hno _ Hr). intros s1. unfold Yield, FindNextToRun. cbv zeta.
    destruct (Remove (readyList _)) as [t q]. case_match; [by intros [= <-]|]. intros Hr1. bind_inv.
    apply ReadyToRun_objects in E as [H1 H2]. apply Run_objects in Hr1 as [H3 H4].
    split; [by rewrite H3, H1|by rewrite H4, H2].
  - intros Hr. apply (Hno _ Hr). intros s1. unfold Fork, StackAllocate. intros Hr1. bind_inv.
    by apply ReadyToRun_objects in E0.
  - intros Hr. apply (Hno _ Hr). intros s1. apply Sleep_objects.
  - intros [= <- <-]. unfold accounted, val, own. simpl. split_and!; [|done|done]. intros y.
    destruct (decide (x = y)) as [<-|Hne].
    + rewrite lookup_insert_eq, Hfr, Z.eqb_refl. simpl. lia.
    + rewrite lookup_insert_ne by done. destruct (Z.eqb_spec y x); [congruence|lia].
  - intros [= <- <-]. unfold accounted, val, own. simpl. split_and!; [intros; lia| |done]. intros y.
    destruct (decide (x = y)) as [<-|Hne]; [by rewrite lookup_insert_eq, Hfr|by rewrite lookup_insert_ne].
  - intros [= <- <-]. by apply accounted_same.
  - apply V_accounted.
  - intros Hr. bind_inv. destruct a as [s1 ev1]. bind_inv. revert Hr. case_match; [|done].
    intros Hr. bind_inv. apply V_accounted in E. rewrite <- (app_nil_r ev). apply accounted_trans with s1; [done|].
    apply dispatch_objects in E1. by apply accounted_same.
Qed.

(** Runs of arbitrary callers, who may release locks they do not hold. *)
Inductive any_run (main : Z) : sys → list event → Prop :=
  | any_init : any_run main (initial main) []
  | any_step s tr l s' ev :
      any_run main s tr → enabled l s → fresh l s → exec l s = Ok (s', ev) →
      any_run main s' (tr ++ ev).

Lemma reachable_any main s tr : reachable main s tr → any_run main s tr.
Proof.
  induction 1 as [|s tr l s' ev _ IH Hen Hal Hex]; [constructor|].
  apply any_step with s l; try done. by destruct l; try apply Hal.
Qed.

Lemma any_run_accounted main s tr : any_run main s tr → accounted (initial main) s tr.
Proof.
  induction 1 as [|s tr l s' ev _ IH Hen Hfr Hex]; [by apply accounted_same|].
  apply accounted_trans with s; [done|]. by apply exec_accounted with l.
Qed.

(** *** Executable runs, for examples *)

Definition cur_frame (s : sys) : option (option frame) := at_frame <$> current s.

Definition enabledb (l : label) (s : sys) : bool :=
  match l with
  | Resume => negb (idle s) && match cur_frame s with Some (Some _) => true | _ => false end
  | IdleInterrupt _ => idle s
  | Interrupt _ => negb (idle s) && bool_decide (level s = IntOn) && bool_decide (cur_frame s = Some None)
  | _ => negb (idle s) && bool_decide (cur_frame s = Some None)
  end.

Definition holdsb (s : sys) (l : Z) : bool :=
  match locks s !! l with Some x => negb (free x) && (holder x =? currentThread s) | None => false end.

Definition allowedb (l : label) (s : sys) : bool :=
  match l with
  | Resume | OpYield | OpFinish => true
  | OpP x | OpV x | Interrupt x | IdleInterrupt x => bool_decide (is_Some (semaphores s !! x))
  | OpAcquire x => bool_decide (is_Some (locks s !! x))
  | OpRelease x => holdsb s x
  | OpWait c x => bool_decide (is_Some (conditions s !! c)) && holdsb s x
  | OpSignal c | OpBroadcast c => bool_decide (is_Some (conditions s !! c))
  | OpFork t => bool_decide (¬ is_Some (threads s !! t)) && negb (t =? NULL)
  | OpNewSemaphore x v => bool_decide (¬ is_Some (semaphores s !! x)) && (0 <=? v)
  | OpNewLock x _ => bool_decide (¬ is_Some (locks s !! x))
  | OpNewCondition x => bool_decide (¬ is_Some (conditions s !! x))
  end.

Fixpoint play (ls : list label) (s : sys) : option (sys * list event) :=
  match ls with
  | [] => Some (s, [])
  | l :: ls =>
    if enabledb l s && allowedb l s then
      match exec l s with
      | Ok (s, ev) => '(s, ev') ← play ls s; Some (s, ev ++ ev')
      | Err _ => None
      end
    else None
  end.

Lemma cur_frame_None s : cur_frame s = Some None → ∃ T, current s = Some T ∧ at_frame T = None.
Proof. unfold cur_frame. destruct (current s) as [T|]; [|done]. intros [=]. eauto. Qed.

Lemma enabledb_ok l s : enabledb l s = true → enabled l s.
Proof.
  destruct l; simpl; rewrite ?andb_true_iff, ?negb_true_iff, ?bool_decide_eq_true; intros H;
    destruct_and?; split_and?; auto using cur_frame_None.
  unfold cur_frame in *. destruct (current s) as [T|]; simpl in *; [|done].
  exists T. split; [done|]. by destruct (at_frame T).
Qed.

Lemma allowedb_ok l s : allowedb l s = true → allowed l s.
Proof.
  assert (∀ x, holdsb s x = true → holds s x) as Hh.
  { intros x. unfold holdsb, holds. destruct (locks s !! x) as [L|]; [|done].
    rewrite andb_true_iff, negb_true_iff, Z.eqb_eq. intros [??]. eauto. }
  destruct l; simpl; rewrite ?andb_true_iff, ?negb_true_iff, ?bool_decide_eq_true, ?Z.leb_le,
    ?Z.eqb_neq, <- ?eq_None_not_Some; intros H; destruct_and?; split_and?; auto.
Qed.

Lemma play_reachable main ls s tr s' ev :
  reachable main s tr → play ls s = Some (s', ev) → reachable main s' (tr ++ ev).
Proof.
  revert s tr ev. induction ls as [|l ls IH]; intros s tr ev Hr; simpl.
  - intros [= <- <-]. by rewrite app_nil_r.
  - destruct (enabledb l s) eqn:He; [|done]. destruct (allowedb l s) eqn:Ha; [|done]. simpl.
    destruct (exec l s) as [[s1 ev1]|] eqn:Hx; [|done].
    destruct (play ls s1) as [[s2 ev2]|] eqn:Hp; [|done]. simpl. intros [= <- <-].
    rewrite app_assoc. apply IH with s1; [|done].
    apply reach_step with s l; auto using enabledb_ok, allowedb_ok.
Qed.

(** Two threads and a semaphore that main waits for: main (1) blocks in P, the
    other (2) runs, signals, and yields back. *)
Definition handshake : list label :=
  [OpNewSemaphore 7 0; OpFork 2; OpP 7; Resume; OpV 7; OpYield; Resume].

(** Main holds lock 8, thread 2 waits for it, and thread 3 runs. *)
Definition contended : list label :=
  [OpNewLock 8 99; OpFork 2; OpFork 3; OpAcquire 8; OpYield; Resume; OpAcquire 8; Resume].

Definition played (ls : list label) : sys * list event :=
  default (initial 1, []) (play ls (initial 1)).

Lemma played_reachable ls :
  (if play ls (initial 1) is Some _ then true else false) = true →
  reachable 1 (played ls).1 (played ls).2.
Proof.
  destruct (play ls (initial 1)) as [[s ev]|] eqn:H; [|done]. intros _. unfold played. rewrite H. simpl.
  apply (play_reachable 1 ls (initial 1) [] s ev); [constructor|done].
Qed.

(** ** Properties *)

(** C8: the thread system never stops.  Whatever threads do, as long as they
    use objects that exist and release and wait only with locks they hold, no
    assertion fails ([Sleep] is called with interrupts off, no thread deletes
    itself, no stack fence is overwritten), no loop runs out of rounds, and no
    deleted thread or null pointer is used, in any interleaving. *)
Theorem kernel_never_stops main s tr l :
  main ≠ NULL → reachable main s tr → enabled l s → allowed l s →
  ∃ s' ev, exec l s = Ok (s', ev) ∧ reachable main s' (tr ++ ev).
Proof.
  intros Hm Hr Hen Hal. destruct (exec_Inv l s) as (s' & ev & Hx & _); [by apply (reachable_Inv main s tr)|done|done|].
  exists s', ev. split; [done|]. by apply reach_step with s l.
Qed.

Lemma kernel_never_stops_witness :
  ∃ s' ev, exec (OpP 7) (played handshake).1 = Ok (s', ev) ∧
           reachable 1 s' ((played handshake).2 ++ ev).
Proof.
  apply (kernel_never_stops 1 _ _ (OpP 7)); 
    [done| |apply enabledb_ok; vm_compute; reflexivity|apply allowedb_ok; vm_compute; reflexivity].
  apply played_reachable. vm_compute. reflexivity.
Defined.

(** C9: every thread is in exactly one place.  A thread is on the processor,
    or is ready and on the ready list, or waits in [P], [Acquire] or [Wait] and
    is in the queue of that very object, once, or has finished; no queue holds
    a deleted thread. *)
Theorem thread_accounting main s tr :
  main ≠ NULL → reachable main s tr →
  (∀ t T, threads s !! t = Some T →
     (status T = RUNNING ↔ t = currentThread s ∧ idle s = false) ∧
     (status T = READY ↔ t ∈ ids (readyList s)) ∧
     (status T = BLOCKED →
        (∃ x o S, at_frame T = Some (AtP x o) ∧ semaphores s !! x = Some S ∧ t ∈ ids (s_queue S)) ∨
        (∃ x o L, at_frame T = Some (AtAcquire x o) ∧ locks s !! x = Some L ∧ t ∈ ids (l_queue L)) ∨
        (∃ x l o C, at_frame T = Some (AtWait x l o) ∧ conditions s !! x = Some C ∧ t ∈ ids (c_queue C)) ∨
        at_frame T = Some AtFinish)) ∧
  (∀ p q, queue s p = Some q →
     NoDup (ids q) ∧ ∀ t, t ∈ ids q → ∃ T, threads s !! t = Some T ∧ place_of T = p).
Proof.
  intros Hm Hr. pose proof (reachable_Inv main s tr Hm Hr) as HI. pose proof (inv_base s HI) as HB.
  assert (∀ p q t T, queue s p = Some q → threads s !! t = Some T → place_of T = p → t ∈ ids q) as Hq.
  { intros p q t T Hp HT Hpl. apply (inv_queues s HB p q Hp). eauto. }
  split.
  - intros t T HT. destruct (inv_threads s HB t T HT) as (Hn0 & _ & Hf & Hst). split_and!.
    + split; [intros E; by rewrite E in Hst|]. intros [-> Hid].
      by apply (running_current s T HB Hid HT).
    + split.
      * intros E. apply (Hq InReady _ t T); [done|done|]. unfold place_of. by rewrite E.
      * intros Hin. apply (inv_queues s HB InReady _ eq_refl) in Hin as (T0 & HT0 & Hpl). simplify_eq.
        unfold place_of in Hpl. destruct (status T); try done. by destruct (at_frame T) as [[]|].
    + intros E. rewrite E in Hst. destruct (at_frame T) as [f|] eqn:Ef; [|done].
      specialize (Hf f eq_refl). destruct f as [| |x o|x o|x l o|]; try done; simpl in Hf.
      * destruct Hf as [S HS]. left. exists x, o, S. split_and!; [done|done|].
        apply (Hq (InSemaphore x) _ t T); [simpl; by rewrite HS|done|]. unfold place_of. by rewrite E, Ef.
      * destruct Hf as [L HL]. right; left. exists x, o, L. split_and!; [done|done|].
        apply (Hq (InLock x) _ t T); [simpl; by rewrite HL|done|]. unfold place_of. by rewrite E, Ef.
      * destruct Hf as [[C HC] _]. right; right; left. exists x, l, o, C. split_and!; [done|done|].
        apply (Hq (InCondition x) _ t T); [simpl; by rewrite HC|done|]. unfold place_of. by rewrite E, Ef.
      * by right; right; right.
  - intros p q Hp. destruct (inv_queues s HB p q Hp) as (_ & Hnd & Hmem). split; [done|].
    intros t. apply Hmem.
Qed.

Lemma thread_accounting_witness :
  ∃ T, threads (played contended).1 !! 2 = Some T ∧ status T = BLOCKED ∧
    (status T = READY ↔ 2 ∈ ids (readyList (played contended).1)).
Proof.
  destruct (threads (played contended).1 !! 2) as [T|] eqn:HT; [|vm_compute in HT; discriminate].
  exists T. split; [done|]. split; [vm_compute in HT; by injection HT as <-|].
  refine (proj1 (proj2 (proj1 (thread_accounting 1 (played contended).1
    (played contended).2 _ _) 2 T HT))); [done|].
  apply played_reachable. vm_compute. reflexivity.
Defined.

(** Semaphores count.  The value of a semaphore is its initial value, plus
    the [V]s, minus the [P]s that have returned, and is never negative: so at
    any moment no more [P]s have returned than the initial value and the [V]s
    allow. *)
Theorem semaphore_counts main s tr x S :
  main ≠ NULL → reachable main s tr → semaphores s !! x = Some S →
  value S = credit x tr ∧ 0 ≤ value S.
Proof.
  intros Hm Hr HS. pose proof (reachable_Inv main s tr Hm Hr) as HI. split.
  - destruct (any_run_accounted main s tr (reachable_any main s tr Hr)) as (Hv & _).
    specialize (Hv x). unfold val in Hv. rewrite HS in Hv. simpl in Hv. exact Hv.
  - by apply (inv_semaphores s HI x).
Qed.

Lemma semaphore_counts_witness :
  ∃ S, semaphores (played handshake).1 !! 7 = Some S ∧
       value S = credit 7 (played handshake).2 ∧ value S = 0.
Proof.
  destruct (semaphores (played handshake).1 !! 7) as [S|] eqn:HS; [|vm_compute in HS; discriminate].
  exists S. split; [done|]. split.
  - refine (proj1 (semaphore_counts 1 _ _ 7 S _ _ HS)); [done|].
    apply played_reachable. vm_compute. reflexivity.
  - vm_compute in HS. by injection HS as <-.
Defined.

(** C10: no wakeup is lost.  While threads wait for a semaphore, at least as
    many threads as its value are awake in [P] to take it, and while threads
    wait for a lock that is free, one is awake to take it.  So when nothing can
    run, every semaphore with a waiter is 0 and every lock with a waiter is
    held. *)
Theorem no_lost_wakeup main s tr :
  main ≠ NULL → reachable main s tr →
  (∀ x S, semaphores s !! x = Some S → items (s_queue S) ≠ [] → value S ≤ woken s x) ∧
  (∀ x L, locks s !! x = Some L → items (l_queue L) ≠ [] → free L = true → lock_wake s x) ∧
  (idle s = true → items (readyList s) = [] →
   (∀ x S, semaphores s !! x = Some S → items (s_queue S) ≠ [] → value S = 0) ∧
   (∀ x L, locks s !! x = Some L → items (l_queue L) ≠ [] → free L = false)).
Proof.
  intros Hm Hr. pose proof (reachable_Inv main s tr Hm Hr) as HI.
  assert (∀ t T, idle s = true → items (readyList s) = [] → threads s !! t = Some T → awake T = false)
    as Hasleep.
  { intros t T Hid Hits HT. destruct (inv_threads s HI t T HT) as (_ & _ & _ & Hst). unfold awake.
    destruct (status T) eqn:E; try done; [destruct Hst; congruence|].
    destruct (inv_queues s HI InReady _ eq_refl) as (_ & _ & Hmem).
    assert (t ∈ ids (readyList s)) as Hin by (apply Hmem; exists T; unfold place_of; by rewrite E).
    unfold ids in Hin. rewrite Hits in Hin. by apply elem_of_nil in Hin. }
  split_and!.
  - intros x S HS. by apply (inv_semaphores s HI).
  - intros x L HL. by apply (inv_locks s HI x L).
  - intros Hid Hits. split.
    + intros x S HS Hne. destruct (inv_semaphores s HI x S HS) as [? Hv]. specialize (Hv Hne).
      assert (woken s x = 0); [|lia]. unfold woken. rewrite (proj2 (map_empty_filter _ _)); [done|].
      intros t T HT. simpl. unfold woken_P. rewrite (Hasleep t T) by done. done.
    + intros x L HL Hne. destruct (free L) eqn:Hf; [|done].
      destruct (inv_locks s HI x L HL Hne Hf) as (t & T & HT & Hw). unfold woken_Acquire in Hw.
      by rewrite (Hasleep t T) in Hw.
Qed.

(** Everybody waits: main in P, with nobody to run. *)
Definition stuck : list label := [OpNewSemaphore 7 0; OpP 7].

Lemma no_lost_wakeup_witness :
  idle (played stuck).1 = true ∧
  ∀ x S, semaphores (played stuck).1 !! x = Some S → items (s_queue S) ≠ [] → value S = 0.
Proof.
  split; [vm_compute; reflexivity|].
  refine (proj1 (proj2 (proj2 (no_lost_wakeup 1 (played stuck).1 (played stuck).2 _ _)) _ _)).
  - done.
  - apply played_reachable. vm_compute. reflexivity.
  - vm_compute. reflexivity.
  - vm_compute. reflexivity.
Defined.

(** C11: locks exclude.  In every run, also of callers who release locks they
    do not hold, no [Acquire] of a lock returns while another thread has
    acquired and not released it, and the lock's [free] and [holder] say who
    holds it. *)
Theorem lock_mutual_exclusion main s tr x :
  any_run main s tr → exclusive x tr ∧ owner x tr = own s x.
Proof.
  intros Hr. destruct (any_run_accounted main s tr Hr) as (_ & Ho & He). split.
  - specialize (He x). by unfold own in He; simpl in He; rewrite lookup_empty in He.
  - specialize (Ho x). rewrite Ho. unfold own. simpl. by rewrite lookup_empty.
Qed.

Lemma lock_mutual_exclusion_witness :
  exclusive 8 (played contended).2 ∧ owner 8 (played contended).2 = Some 1.
Proof.
  assert (any_run 1 (played contended).1 (played contended).2) as Hr
    by (apply reachable_any, played_reachable; vm_compute; reflexivity).
  destruct (lock_mutual_exclusion 1 _ _ 8 Hr) as [He Ho]. split; [exact He|].
  rewrite Ho. vm_compute. reflexivity.
Defined.

(** A release by a thread that does not hold the lock loses a waiter.
    [Release] takes the first waiter off the queue before it looks at the
    holder; for any other caller it then does nothing with it: the thread stays
    blocked and is in no queue at all, so nothing can ever wake it. *)
Theorem release_by_other_loses_waiter main s tr x L t k rest :
  main ≠ NULL → reachable main s tr → locks s !! x = Some L →
  items (l_queue L) = (t, k) :: rest → holder L ≠ currentThread s →
  ∃ s' T, Release s x = Ok (s', []) ∧
    threads s' !! t = Some T ∧ status T = BLOCKED ∧
    ∀ p q, queue s' p = Some q → t ∉ ids q.
Proof.
  intros Hm Hr HL Hits Hh. pose proof (reachable_Inv main s tr Hm Hr) as HI.
  assert (queue s (InLock x) = Some (l_queue L)) as Hq by (simpl; by rewrite HL).
  destruct (inv_queues s HI _ _ Hq) as (Hd & Hnd & Hmem).
  destruct (proj1 (Hmem t)) as (T & HT & Hpl); [unfold ids; rewrite Hits; set_solver|].
  unfold Release. simpl. rewrite (find_Some _ _ _ HL). run_ok.
  rewrite (Remove_cons _ t k rest) by done. simpl.
  destruct (Z.eqb_spec (currentThread s) (holder L)); [congruence|].
  eexists _, T. split; [done|]. split; [done|]. split.
  { unfold place_of in Hpl. destruct (status T); try done. }
  intros p q Hp Hin. destruct (decide (p = InLock x)) as [->|Hne].
  - simpl in Hp. rewrite lookup_insert_eq in Hp. simpl in Hp. injection Hp as <-.
    unfold ids in Hin, Hnd. rewrite Hits in Hnd. simpl in *. by apply NoDup_cons in Hnd as [? _].
  - assert (queue s p = Some q) as Hp'.
    { rewrite <- Hp. destruct p; try done. simpl. rewrite lookup_insert_ne; [done|congruence]. }
    apply (inv_queues s HI p q Hp') in Hin as (T' & HT' & Hpl'). congruence.
Qed.

Lemma release_by_other_loses_waiter_witness :
  currentThread (played contended).1 = 3 ∧
  ∃ s' T, Release (played contended).1 8 = Ok (s', []) ∧
    threads s' !! 2 = Some T ∧ status T = BLOCKED ∧ ∀ p q, queue s' p = Some q → 2 ∉ ids q.
Proof.
  split; [vm_compute; reflexivity|].
  destruct (locks (played contended).1 !! 8) as [L|] eqn:HL; [|vm_compute in HL; discriminate].
  refine (release_by_other_loses_waiter 1 (played contended).1 (played contended).2 8 L 2 0 [] _ _ HL _ _).
  - done.
  - apply played_reachable. vm_compute. reflexivity.
  - vm_compute in HL. by injection HL as <-.
  - vm_compute in HL. injection HL as <-. vm_compute. discriminate.
Defined.
End Threads.
