(* ===== verification/Managers.v ===== *)
(** * Memory, process numbers and processes: userprog/memorymanager.cc,
      userprog/processmanager.cc, userprog/pcb.cc

    The three classes keep their data under a lock of their own.  A lock is
    used through the interface [LockOps]; the build of the userprog directory
    does not define THREADS, so that there its locks are the empty functions
    at the end of threads/synch.cc, and [Threads] gives the other instance.
    The memory manager is the implementation of the interface
    [PageAllocator], against which the address spaces are verified. *)

From stdpp Require Import base list gmap.
From S2P Require Import Prelude Lists BitMap Threads.

(** ** The lock a manager takes *)
Module Locks.

(** [Lock::Acquire] and [Lock::Release] on the state [L] of a lock. *)
Class LockOps (L : Type) := {
  Acquire : L → result L;
  Release : L → result L;
}.

(** What a critical section needs: a lock that is free can be taken and given
    back, and is free again. *)
Class LockLaws (L : Type) `{LockOps L} := {
  is_free : L → Prop;
  critical_section l :
    is_free l → ∃ l1 l2, Acquire l = Ok l1 ∧ Release l1 = Ok l2 ∧ is_free l2;
}.

(** The locks compiled without THREADS. *)
Definition dummy_Acquire (l : unit) : result unit := Ok l.
Definition dummy_Release (l : unit) : result unit := Ok l.

#[global] Instance dummy_lock : LockOps unit :=
  {| Acquire := dummy_Acquire; Release := dummy_Release |}.
#[global] Program Instance dummy_lock_laws : LockLaws unit := {| is_free _ := True |}.
Next Obligation. intros []. by exists tt, tt. Qed.

(** The locks compiled with THREADS, with the state of the thread system: the
    lock at address [x], while no thread waits for it. *)
Definition thread_lock (x : Z) : LockOps Threads.sys := {|
  Acquire s := '(s, _) ← Threads.Acquire s x; Ok s;
  Release s := '(s, _) ← Threads.Release s x; Ok s;
|}.

Definition thread_free (x : Z) (s : Threads.sys) : Prop :=
  ∃ g, Threads.locks s !! x = Some (Threads.mkLock true ListModel.empty g).

Lemma thread_critical_section x s :
  thread_free x s →
  ∃ s1 s2, Acquire (LockOps := thread_lock x) s = Ok s1 ∧
           Release (LockOps := thread_lock x) s1 = Ok s2 ∧ thread_free x s2.
Proof.
  intros [g Hx]. destruct s as [th rl cur tbd lev id sem lk con]; simpl in Hx.
  eexists _, _. split_and!.
  - cbn. unfold Threads.Acquire, Threads.Acquire_loop, Threads.find; cbn. rewrite Hx. by cbn.
  - cbn. unfold Threads.Release, Threads.find; cbn. rewrite lookup_insert_eq. cbn.
    rewrite Z.eqb_refl. cbn. rewrite lookup_insert_eq. by cbn.
  - unfold thread_free. cbn. rewrite lookup_insert_eq. by eexists.
Qed.

Definition thread_lock_laws (x : Z) : LockLaws Threads.sys (H := thread_lock x) :=
  {| is_free := thread_free x; critical_section := thread_critical_section x |}.

End Locks.
Import Locks.

(** ** A bit map as the set of the numbers in use *)
Module InUse.

Definition used (b : BitMap.BitMap) : gset Z :=
  list_to_set (filter (λ i, BitMap.bit b i = true) (seqZ 0 (BitMap.numBits b))).

Lemma elem_of_used b i : i ∈ used b ↔ 0 ≤ i < BitMap.numBits b ∧ BitMap.bit b i = true.
Proof.
  unfold used. rewrite elem_of_list_to_set, list_elem_of_filter, elem_of_seqZ. naive_solver lia.
Qed.

Lemma used_mark b b' i :
  0 ≤ i < BitMap.numBits b → BitMap.updates b b' i true → used b' = {[i]} ∪ used b.
Proof.
  intros Hi (_ & Hn & Hb). apply set_eq. intros j.
  rewrite elem_of_union, elem_of_singleton, !elem_of_used, Hn.
  destruct (decide (0 ≤ j)) as [Hj|]; [rewrite Hb by done|naive_solver lia].
  case_decide; naive_solver.
Qed.

Lemma used_clear b b' i :
  BitMap.updates b b' i false → used b' = used b ∖ {[i]}.
Proof.
  intros (_ & Hn & Hb). apply set_eq. intros j.
  rewrite elem_of_difference, elem_of_singleton, !elem_of_used, Hn.
  destruct (decide (0 ≤ j)) as [Hj|]; [rewrite Hb by done|naive_solver lia].
  case_decide; naive_solver.
Qed.

Lemma count_clear_filter b l :
  BitMap.count_clear (BitMap.bit b <$> l) =
  Z.of_nat (length l) - Z.of_nat (length (filter (λ i, BitMap.bit b i = true) l)).
Proof.
  induction l as [|i l IH]; [done|]. rewrite fmap_cons, BitMap.count_clear_cons, IH.
  rewrite filter_cons. case_decide as E; [rewrite E|]; simpl; [lia|].
  destruct (BitMap.bit b i); [done|lia].
Qed.

(** The clear bits are the numbers that are not in use. *)
Lemma count_clear_used b :
  0 ≤ BitMap.numBits b →
  BitMap.count_clear (BitMap.bits b) = BitMap.numBits b - Z.of_nat (size (used b)).
Proof.
  intros Hn. unfold BitMap.bits. rewrite count_clear_filter, length_seqZ.
  unfold used. rewrite size_list_to_set by (apply NoDup_filter, NoDup_seqZ). lia.
Qed.

Lemma Find_used b :
  BitMap.wf b →
  ∃ r b', BitMap.Find b = Ok (r, b') ∧ BitMap.wf b' ∧ BitMap.numBits b' = BitMap.numBits b ∧
  ((r = -1 ∧ used b' = used b ∧ Z.of_nat (size (used b)) = BitMap.numBits b) ∨
   (0 ≤ r < BitMap.numBits b ∧ (r ∉ used b) ∧ used b' = {[r]} ∪ used b)).
Proof.
  intros Hwf. destruct (BitMap.Find_ok b Hwf) as (r & b' & Hf & _ & Hc). exists r, b'.
  pose proof (BitMap.wf_bits b Hwf) as Hn.
  destruct Hc as [(-> & -> & Hall)|(Hr & Hbit & _ & Hu)].
  - split_and!; [done|done|done|]. left. split_and!; [done|done|].
    pose proof (count_clear_used b Hn) as Hc.
    enough (BitMap.count_clear (BitMap.bits b) = 0) by lia.
    apply BitMap.count_clear_0. unfold BitMap.bits. intros v (j & -> & Hj)%list_elem_of_fmap.
    apply elem_of_seqZ in Hj. apply Hall. lia.
  - split_and!; [done|apply Hu|apply Hu|]. right. split; [done|]. split.
    + rewrite elem_of_used. intros [_ ?]. congruence.
    + by apply used_mark.
Qed.

Lemma Clear_used b i :
  BitMap.wf b → 0 ≤ i < BitMap.numBits b →
  ∃ b', BitMap.Clear b i = Ok b' ∧ BitMap.wf b' ∧ BitMap.numBits b' = BitMap.numBits b ∧
        used b' = used b ∖ {[i]}.
Proof.
  intros Hwf Hi. destruct (BitMap.Clear_ok b i Hwf Hi) as (b' & E & Hu). exists b'.
  split_and!; [done|apply Hu|apply Hu|]. by apply used_clear.
Qed.

Lemma Test_used b i :
  BitMap.wf b → 0 ≤ i < BitMap.numBits b →
  BitMap.Test b i = Ok (bool_decide (i ∈ used b)).
Proof.
  intros Hwf Hi. rewrite BitMap.Test_ok by done. f_equal. case_bool_decide as Hu;
    rewrite elem_of_used in Hu; [naive_solver|]. destruct (BitMap.bit b i); naive_solver.
Qed.

Lemma NumClear_used b :
  BitMap.wf b → BitMap.NumClear b = Ok (BitMap.numBits b - Z.of_nat (size (used b))).
Proof.
  intros Hwf. rewrite BitMap.NumClear_ok by done. f_equal. apply count_clear_used.
  by apply BitMap.wf_bits.
Qed.

Lemma BitMap_new_used n garbage :
  0 ≤ n → Forall is_u32 garbage → divRoundUp n BitMap.BitsInWord ≤ Z.of_nat (length garbage) →
  ∃ b, BitMap.BitMap_new n garbage = Ok b ∧ BitMap.wf b ∧ BitMap.numBits b = n ∧ used b = ∅.
Proof.
  intros Hn Hg Hl. destruct (BitMap.BitMap_new_ok n garbage Hn Hg Hl) as (b & ? & ? & Hb & Hbit).
  exists b. split_and!; [done|done|done|]. apply set_eq. intros i. rewrite elem_of_used, Hb.
  split; [|set_solver]. intros [Hi Hs]. rewrite Hbit in Hs by lia. done.
Qed.

(** There is room for the numbers in use. *)
Lemma used_size b : 0 ≤ BitMap.numBits b → Z.of_nat (size (used b)) ≤ BitMap.numBits b.
Proof.
  intros Hn. pose proof (count_clear_used b Hn). pose proof (BitMap.count_clear_nonneg (BitMap.bits b)).
  lia.
Qed.

End InUse.
Import InUse.

(** ** What the memory manager promises *)
Module Pages.

(** [MemoryManager::getPage], [clearPage] and [getFree] on the state [A] of
    the memory manager. *)
Class PageAllocator (A : Type) := {
  getPage : A → result (Z * A);
  clearPage : A → Z → result A;
  getFree : A → result (Z * A);
}.

(** [pages] frames in all, of which [frames] are in use: [getPage] hands out
    one that is not, or -1 when there is none, [clearPage] takes one back, and
    [getFree] counts the others. *)
Class PageAllocatorLaws (A : Type) `{PageAllocator A} := {
  ready : A → Prop;
  pages : A → Z;
  frames : A → gset Z;
  frames_range a p : ready a → p ∈ frames a → 0 ≤ p < pages a;
  pages_range a : ready a → 0 ≤ pages a < 2 ^ 31;
  getPage_law a :
    ready a →
    ∃ r a', getPage a = Ok (r, a') ∧ ready a' ∧ pages a' = pages a ∧
    ((r = -1 ∧ frames a' = frames a ∧ Z.of_nat (size (frames a)) = pages a) ∨
     (0 ≤ r < pages a ∧ (r ∉ frames a) ∧ frames a' = {[r]} ∪ frames a));
  clearPage_law a p :
    ready a → 0 ≤ p < pages a →
    ∃ a', clearPage a p = Ok a' ∧ ready a' ∧ pages a' = pages a ∧ frames a' = frames a ∖ {[p]};
  clearPage_outside a p :
    ready a → ¬ (0 ≤ p < pages a) → clearPage a p = Err AssertionFailed;
  getFree_law a :
    ready a →
    ∃ a', getFree a = Ok (pages a - Z.of_nat (size (frames a)), a') ∧
          ready a' ∧ pages a' = pages a ∧ frames a' = frames a;
}.

(** A client's calls, one after the other, and the answers: the run stops at
    the first call that stops. *)
Inductive call := CallGetPage | CallClearPage (p : Z) | CallGetFree.

Inductive answer := Got (p : Z) | Cleared | Free (n : Z) | Stopped (e : error).

Fixpoint serve {A} `{PageAllocator A} (calls : list call) (a : A) : list answer :=
  match calls with
  | [] => []
  | CallGetPage :: calls =>
    match getPage a with Ok (p, a) => Got p :: serve calls a | Err e => [Stopped e] end
  | CallClearPage p :: calls =>
    match clearPage a p with Ok a => Cleared :: serve calls a | Err e => [Stopped e] end
  | CallGetFree :: calls =>
    match getFree a with Ok (n, a) => Free n :: serve calls a | Err e => [Stopped e] end
  end.

(** The answers the set of the pages held allows, out of [n] pages. *)
Inductive allows (n : Z) : gset Z → list call → list answer → Prop :=
  | allows_nil held : allows n held [] []
  | allows_get held p calls answers :
      0 ≤ p < n → p ∉ held → allows n ({[p]} ∪ held) calls answers →
      allows n held (CallGetPage :: calls) (Got p :: answers)
  | allows_none held calls answers :
      (∀ p, 0 ≤ p < n → p ∈ held) → allows n held calls answers →
      allows n held (CallGetPage :: calls) (Got (-1) :: answers)
  | allows_clear held p calls answers :
      0 ≤ p < n → allows n (held ∖ {[p]}) calls answers →
      allows n held (CallClearPage p :: calls) (Cleared :: answers)
  | allows_outside held p calls :
      ¬ (0 ≤ p < n) → allows n held (CallClearPage p :: calls) [Stopped AssertionFailed]
  | allows_free held calls answers :
      allows n held calls answers →
      allows n held (CallGetFree :: calls) (Free (n - Z.of_nat (size held)) :: answers).

(** As many numbers of a range as the range has are all of them. *)
Lemma full_range (n : Z) (X : gset Z) :
  (∀ p, p ∈ X → 0 ≤ p < n) → Z.of_nat (size X) = n → ∀ p, 0 ≤ p < n → p ∈ X.
Proof.
  intros Hin Hsize. set (R := list_to_set (seqZ 0 n) : gset Z).
  assert (X ⊆ R) as Hsub.
  { intros p Hp. apply elem_of_list_to_set, elem_of_seqZ. specialize (Hin p Hp). lia. }
  assert (size R = Z.to_nat n) as HR.
  { unfold R. rewrite size_list_to_set by apply NoDup_seqZ. apply length_seqZ. }
  intros p Hp. rewrite (set_subseteq_size_eq X R) by (done || lia).
  apply elem_of_list_to_set, elem_of_seqZ. lia.
Qed.

Lemma serve_allowed {A} `{PageAllocatorLaws A} calls : ∀ a : A,
  ready a → allows (pages a) (frames a) calls (serve calls a).
Proof.
  induction calls as [|[|p|] calls IH]; intros a Ha; simpl; [constructor|..].
  - destruct (getPage_law a Ha) as (r & a' & -> & Ha' & Hn & [(-> & Hf & Hs)|(Hr & Hnin & Hf)]).
    + apply allows_none; [|rewrite <- Hn, <- Hf; by apply IH].
      apply full_range; [|done]. intros p Hp. by apply frames_range.
    + apply allows_get; [done|done|]. rewrite <- Hn, <- Hf. by apply IH.
  - destruct (decide (0 ≤ p < pages a)) as [Hp|Hp].
    + destruct (clearPage_law a p Ha Hp) as (a' & -> & Ha' & Hn & Hf).
      apply allows_clear; [done|]. rewrite <- Hn, <- Hf. by apply IH.
    + rewrite clearPage_outside by done. by apply allows_outside.
  - destruct (getFree_law a Ha) as (a' & -> & Ha' & Hn & Hf).
    apply allows_free. rewrite <- Hn, <- Hf. by apply IH.
Qed.

End Pages.
Import Pages.

(** ** userprog/memorymanager.cc *)
Module MemoryManager.
Section manager.
Context {L : Type} `{LockOps L}.

Record MemoryManager := mkMM {
  virtMem : BitMap.BitMap;
  lock : L;
}.

Definition MemoryManager_new (numTotalPages : Z) (garbage : list Z) (new_lock : L)
    : result MemoryManager :=
  b ← BitMap.BitMap_new numTotalPages garbage;
  Ok (mkMM b new_lock).

Definition getPage (mm : MemoryManager) : result (Z * MemoryManager) :=
  l ← Acquire (lock mm);
  '(pageNum, b) ← BitMap.Find (virtMem mm);
  l ← Release l;
  Ok (pageNum, mkMM b l).

Definition clearPage (mm : MemoryManager) (pageId : Z) : result MemoryManager :=
  l ← Acquire (lock mm);
  b ← BitMap.Clear (virtMem mm) pageId;
  l ← Release l;
  Ok (mkMM b l).

Definition getFree (mm : MemoryManager) : result (Z * MemoryManager) :=
  l ← Acquire (lock mm);
  numFree ← BitMap.NumClear (virtMem mm);
  l ← Release l;
  Ok (u32 numFree, mkMM (virtMem mm) l).

#[global] Instance pages : PageAllocator MemoryManager :=
  {| Pages.getPage := getPage; Pages.clearPage := clearPage; Pages.getFree := getFree |}.

Context `{!LockLaws L}.

Record wf (mm : MemoryManager) : Prop := mkWf {
  wf_map : BitMap.wf (virtMem mm);
  wf_count : BitMap.numBits (virtMem mm) < 2 ^ 31;
  wf_lock : is_free (lock mm);
}.

#[global, program] Instance pages_laws : PageAllocatorLaws MemoryManager := {|
  ready := wf;
  Pages.pages mm := BitMap.numBits (virtMem mm);
  frames mm := used (virtMem mm);
|}.
Next Obligation. intros mm p _. rewrite elem_of_used. tauto. Qed.
Next Obligation. intros mm [Hb ? _]. pose proof (BitMap.wf_bits _ Hb). lia. Qed.
Next Obligation.
  intros mm [Hb Hn Hl]. destruct (critical_section _ Hl) as (l1 & l2 & E1 & E2 & Hf).
  destruct (Find_used _ Hb) as (r & b' & E & Hb' & Hn' & Hc).
  exists r, (mkMM b' l2). unfold Pages.getPage, pages, getPage.
  rewrite E1. run_ok. rewrite E. run_ok. rewrite E2. run_ok. split_and!; [done| |done|done].
  split; simpl; [done|by rewrite Hn'|done].
Qed.
Next Obligation.
  intros mm p [Hb Hn Hl] Hp. destruct (critical_section _ Hl) as (l1 & l2 & E1 & E2 & Hf).
  destruct (Clear_used _ _ Hb Hp) as (b' & E & Hb' & Hn' & Hu).
  exists (mkMM b' l2). unfold Pages.clearPage, pages, clearPage.
  rewrite E1. run_ok. rewrite E. run_ok. rewrite E2. run_ok. split_and!; [done| |done|done].
  split; simpl; [done|by rewrite Hn'|done].
Qed.
Next Obligation.
  intros mm p [Hb Hn Hl] Hp. destruct (critical_section _ Hl) as (l1 & l2 & E1 & E2 & Hf).
  unfold Pages.clearPage, pages, clearPage. rewrite E1. run_ok.
  by destruct (BitMap.out_of_range _ _ Hp) as (_ & -> & _).
Qed.
Next Obligation.
  intros mm [Hb Hn Hl]. destruct (critical_section _ Hl) as (l1 & l2 & E1 & E2 & Hf).
  exists (mkMM (virtMem mm) l2). unfold Pages.getFree, pages, getFree.
  rewrite E1. run_ok. rewrite NumClear_used by done. run_ok. rewrite E2. run_ok.
  pose proof (BitMap.wf_bits _ Hb) as H0. pose proof (used_size _ H0).
  rewrite u32_id by (unfold is_u32; lia). by split_and!.
Qed.

Lemma MemoryManager_new_ok n garbage l :
  0 ≤ n < 2 ^ 31 → Forall is_u32 garbage →
  divRoundUp n BitMap.BitsInWord ≤ Z.of_nat (length garbage) → is_free l →
  ∃ mm, MemoryManager_new n garbage l = Ok mm ∧ wf mm ∧ Pages.pages mm = n ∧ frames mm = ∅.
Proof.
  intros Hn Hg Hl Hf. destruct (BitMap_new_used n garbage) as (b & E & Hb & Hbn & Hu); try lia; try done.
  exists (mkMM b l). unfold MemoryManager_new. rewrite E. run_ok. split_and!; [done| |done|done].
  split; simpl; [done|lia|done].
Qed.

(** From its construction on, the memory manager hands out pages as the set
    of the pages held allows, whatever calls its clients make in whatever
    order and whatever the uninitialised bit map held: [getPage] answers with
    a page nobody holds, or -1 only when all are held; [getFree] is the number
    of the others; [clearPage] stops only at a page number outside memory. *)
Theorem memory_manager_refines_set n garbage l calls :
  0 ≤ n < 2 ^ 31 → Forall is_u32 garbage →
  divRoundUp n BitMap.BitsInWord ≤ Z.of_nat (length garbage) → is_free l →
  ∃ mm, MemoryManager_new n garbage l = Ok mm ∧ allows n ∅ calls (serve calls mm).
Proof.
  intros Hn Hg Hl Hf. destruct (MemoryManager_new_ok n garbage l Hn Hg Hl Hf)
    as (mm & E & Hwf & Hp & Hfr).
  exists mm. split; [done|]. rewrite <- Hp, <- Hfr. by apply serve_allowed.
Qed.

End manager.
Arguments MemoryManager : clear implicits.

(** The manager of threads/system.cc, with 32 pages. *)
Lemma memory_manager_refines_set_witness :
  ∃ mm, MemoryManager_new 32 [4294967295] tt = Ok mm ∧
  serve [CallGetPage; CallGetPage; CallClearPage 0; CallGetPage; CallGetFree; CallClearPage 32] mm =
    [Got 0; Got 1; Cleared; Got 0; Free 30; Stopped AssertionFailed] ∧
  allows 32 ∅ [CallGetPage; CallGetPage; CallClearPage 0; CallGetPage; CallGetFree; CallClearPage 32]
    [Got 0; Got 1; Cleared; Got 0; Free 30; Stopped AssertionFailed].
Proof.
  destruct (memory_manager_refines_set 32 [4294967295] tt
    [CallGetPage; CallGetPage; CallClearPage 0; CallGetPage; CallGetFree; CallClearPage 32])
    as (mm & E & Hs); [lia|repeat constructor; lia|vm_compute; discriminate|exact I|].
  exists mm. split; [exact E|]. vm_compute in E. injection E as <-.
  split; [vm_compute; reflexivity|exact Hs].
Defined.

End MemoryManager.

(** ** userprog/pcb.cc *)
Module PCB.
Section pcb.
Context {L : Type} `{LockOps L}.

(** [class PCB].  Threads and PCBs are named by their addresses.  [MAX_FILES]
    is never used. *)
Record PCB := mkPCB {
  processThread : Z;
  processID : Z;
  parent_process : Z;
  children : ListModel.qlist;
  lock : L;
  childExitValue : Z;
}.

(** The constructor sets the thread, the list and the lock only: the number,
    the parent and the exit value are what [garbage] held. *)
Definition PCB_new (input : Z) (new_lock : L) (garbage : PCB) : PCB :=
  mkPCB input (processID garbage) (parent_process garbage) ListModel.empty new_lock
    (childExitValue garbage).

Definition getID (p : PCB) : Z := processID p.
Definition getCode (p : PCB) : Z := childExitValue p.
Definition getThread (p : PCB) : Z := processThread p.
Definition getParent (p : PCB) : Z := parent_process p.
Definition getChildren (p : PCB) : ListModel.qlist := children p.

Definition set (p : PCB) (pid parent : Z) : PCB :=
  mkPCB (processThread p) pid parent (children p) (lock p) (childExitValue p).

Definition setExit (p : PCB) (code : Z) : PCB :=
  mkPCB (processThread p) (processID p) (parent_process p) (children p) (lock p) code.

Definition set_children (p : PCB) (q : ListModel.qlist) (l : L) : PCB :=
  mkPCB (processThread p) (processID p) (parent_process p) q l (childExitValue p).

Definition addChild (p : PCB) (childId : Z) : result (bool * PCB) :=
  l ← Acquire (lock p);
  q ← ListModel.Append (children p) childId;
  l ← Release l;
  Ok (true, set_children p q l).

Definition removeChild (p : PCB) (childId : Z) : result (bool * PCB) :=
  l ← Acquire (lock p);
  let '(child, q) := ListModel.RemoveElement (children p) childId in
  l ← Release l;
  Ok (negb (child =? Threads.NULL), set_children p q l).

Definition isChild (p : PCB) (childId : Z) : bool := ListModel.Search (children p) childId.

Context `{!LockLaws L}.

(** The children, in the order they were added; [last] points to the last of
    them. *)
Definition kids (p : PCB) : list Z := (ListModel.items (children p)).*1.

Record wf (p : PCB) : Prop := mkWf {
  wf_lock : is_free (lock p);
  wf_kids : NoDup (kids p);
  wf_null : Threads.NULL ∉ kids p;
  wf_last : ListModel.dangling (children p) = false;
}.

Lemma isChild_kids p c : isChild p c = bool_decide (c ∈ kids p).
Proof.
  unfold isChild, ListModel.Search, kids. apply eq_true_iff_eq.
  rewrite existsb_exists, bool_decide_eq_true, list_elem_of_fmap.
  split; intros (e & ? & ?); exists e.
  - split; [lia|by apply list_elem_of_In].
  - split; [by apply list_elem_of_In|lia].
Qed.

Lemma addChild_ok p c :
  wf p → c ≠ Threads.NULL → c ∉ kids p →
  ∃ p', addChild p c = Ok (true, p') ∧ wf p' ∧ kids p' = kids p ++ [c].
Proof.
  intros [Hl Hk Hn Hd] Hc Hnew. destruct (critical_section _ Hl) as (l1 & l2 & E1 & E2 & Hf).
  set (q := ListModel.mkQ (ListModel.items (children p) ++ [(c, 0)]) false).
  assert (ListModel.Append (children p) c = Ok q) as Ea.
  { unfold ListModel.Append, ListModel.IsEmpty, ListModel.link_at_end. rewrite Hd.
    unfold q. by destruct (ListModel.items (children p)). }
  exists (set_children p q l2). unfold addChild. rewrite E1. run_ok. rewrite Ea. run_ok.
  rewrite E2. run_ok. assert (kids (set_children p q l2) = kids p ++ [c]) as Hkids
    by (unfold kids; simpl; by rewrite fmap_app).
  split_and!; [done| |done]. split; [done| | |done].
  - rewrite Hkids. apply NoDup_app. split_and!; [done|set_solver|apply NoDup_singleton].
  - rewrite Hkids. set_solver.
Qed.

Lemma filter_absent (l : list Z) c : c ∉ l → filter (λ d, d ≠ c) l = l.
Proof.
  induction l as [|d l IH]; [done|]. intros Hd. rewrite filter_cons_True by set_solver.
  f_equal. apply IH. set_solver.
Qed.

(** The list without its one occurrence of [c]. *)
Lemma filter_one (pre post : list Z) c :
  NoDup (pre ++ c :: post) → filter (λ d, d ≠ c) (pre ++ c :: post) = pre ++ post.
Proof.
  intros (Hpre & Hdisj & Hpost)%NoDup_app. apply NoDup_cons in Hpost as [Hc _].
  rewrite filter_app, filter_cons_False, !filter_absent by set_solver. done.
Qed.

Lemma RemoveElement_kids (q : ListModel.qlist) c :
  NoDup (ListModel.items q).*1 → ListModel.dangling q = false → c ≠ Threads.NULL →
  let '(x, q') := ListModel.RemoveElement q c in
  negb (x =? Threads.NULL) = bool_decide (c ∈ (ListModel.items q).*1) ∧
  (ListModel.items q').*1 = filter (λ d, d ≠ c) (ListModel.items q).*1 ∧
  ListModel.dangling q' =
    bool_decide (last (ListModel.items q).*1 = Some c ∧ (2 ≤ length (ListModel.items q).*1)%nat) ∧
  (ListModel.dangling q' = true → ListModel.items q' ≠ []).
Proof.
  intros Hnd Hd Hc. unfold ListModel.RemoveElement.
  destruct (ListModel.split_at c (ListModel.items q)) as [[[pre k] post]|] eqn:Es.
  - apply ListModel.split_at_Some in Es as [Ei Hpre]. rewrite Ei in *.
    rewrite fmap_app, fmap_cons in *. simpl in *.
    assert (c ∈ pre.*1 ++ c :: post.*1) as Hin by set_solver.
    assert (negb (c =? Threads.NULL) = bool_decide (c ∈ pre.*1 ++ c :: post.*1)) as Hb.
    { rewrite bool_decide_true by done. by destruct (Z.eqb_spec c Threads.NULL). }
    rewrite (filter_one _ _ _ Hnd). destruct pre as [|e pre]; csimpl.
    + split_and!; [done|done| |].
      * symmetry. apply NoDup_cons in Hnd as [Hc2 _]. destruct post as [|[y ky] post]; csimpl.
        -- apply bool_decide_eq_false. naive_solver lia.
        -- rewrite Hd. apply bool_decide_eq_false. intros [Hl _].
           apply Hc2. apply last_Some_elem_of. by rewrite <- Hl.
      * destruct post; simpl; [done|]. by rewrite Hd.
    + split_and!; [done|by rewrite fmap_app| |by destruct post].
      symmetry. destruct post as [|[y ky] post]; csimpl.
      * apply bool_decide_eq_true. split; [|rewrite length_app; simpl; lia].
        rewrite app_comm_cons. by rewrite last_snoc.
      * rewrite Hd. apply bool_decide_eq_false. intros [Hl _].
        apply NoDup_app in Hnd as (_ & _ & [Hc2 _]%NoDup_cons). apply Hc2.
        apply last_Some_elem_of. rewrite <- Hl. rewrite app_comm_cons, last_app_cons. done.
  - apply ListModel.split_at_None in Es. split_and!.
    + by rewrite bool_decide_false.
    + by rewrite filter_absent.
    + rewrite Hd. symmetry. apply bool_decide_eq_false. intros [Hl _]. by apply Es, last_Some_elem_of.
    + congruence.
Qed.

(** The list of children is kept as long as [last] is.  A child that is
    added becomes the last one; removing answers whether it was a child and
    takes out that child only; but after removing the child that was added
    last, while there are others, the next [addChild] writes to freed memory. *)
Theorem children_tracked p c :
  wf p → c ≠ Threads.NULL →
  isChild p c = bool_decide (c ∈ kids p) ∧
  (c ∉ kids p → ∃ p', addChild p c = Ok (true, p') ∧ wf p' ∧ kids p' = kids p ++ [c]) ∧
  ∃ p', removeChild p c = Ok (isChild p c, p') ∧ kids p' = filter (λ d, d ≠ c) (kids p) ∧
    if decide (last (kids p) = Some c ∧ (2 ≤ length (kids p))%nat)
    then ∀ d, addChild p' d = Err UseAfterFree
    else wf p'.
Proof.
  intros Hwf Hc. split_and!; [apply isChild_kids|intros; by apply addChild_ok|].
  destruct Hwf as [Hl Hk Hn Hd]. destruct (critical_section _ Hl) as (l1 & l2 & E1 & E2 & Hf).
  pose proof (RemoveElement_kids (children p) c Hk Hd Hc) as HR.
  unfold removeChild. rewrite E1. run_ok.
  destruct (ListModel.RemoveElement (children p) c) as [x q].
  destruct HR as (Hx & Hi & Hdq & Hne). rewrite E2. run_ok.
  exists (set_children p q l2). split_and!; [by rewrite isChild_kids, Hx|done|].
  destruct (critical_section _ Hf) as (l3 & l4 & E3 & _ & _).
  destruct (decide (last (kids p) = Some c ∧ (2 ≤ length (kids p))%nat)) as [Hlast|Hlast];
    unfold kids in Hlast.
  - rewrite bool_decide_true in Hdq by done. intros d. unfold addChild. simpl. rewrite E3. run_ok.
    unfold ListModel.Append, ListModel.IsEmpty, ListModel.link_at_end. rewrite Hdq.
    specialize (Hne Hdq). by destruct (ListModel.items q).
  - rewrite bool_decide_false in Hdq by done.
    split; [done| | |done]; unfold kids; simpl; rewrite Hi; [by apply NoDup_filter|].
    intros [_ ?]%list_elem_of_filter. by apply Hn.
Qed.

End pcb.
Arguments PCB : clear implicits.

Lemma children_tracked_witness :
  ∃ p', removeChild (mkPCB 1 0 0 (ListModel.mkQ [(5, 0); (6, 0)] false) tt 0) 6 = Ok (true, p') ∧
        kids p' = [5] ∧ addChild p' 7 = Err UseAfterFree.
Proof.
  destruct (children_tracked (mkPCB 1 0 0 (ListModel.mkQ [(5, 0); (6, 0)] false) tt 0) 6)
    as (_ & _ & p' & E & Hk & Hif).
  - split; [exact I| | |reflexivity]; vm_compute;
      [repeat constructor; set_solver|set_solver].
  - discriminate.
  - exists p'. split; [exact E|]. split; [rewrite Hk; reflexivity|].
    rewrite decide_True in Hif by (split; [reflexivity|simpl; lia]). apply Hif.
Defined.

End PCB.

(** ** userprog/processmanager.cc *)
Module ProcessManager.
Section manager.
Context {L : Type} `{LockOps L}.

Record ProcessManager := mkPM {
  map : BitMap.BitMap;
  lock : L;
  pcbTable : list Z;
}.

(** [new PCB*[size]] leaves the entries uninitialised: [stale]. *)
Definition ProcessManager_new (size : Z) (garbage : list Z) (new_lock : L) (stale : list Z)
    : result ProcessManager :=
  b ← BitMap.BitMap_new size garbage;
  Ok (mkPM b new_lock (take (Z.to_nat size) stale)).

Definition getPID (pm : ProcessManager) : result (Z * ProcessManager) :=
  l ← Acquire (lock pm);
  '(PID, b) ← BitMap.Find (map pm);
  l ← Release l;
  Ok (PID, mkPM b l (pcbTable pm)).

Definition clearPID (pm : ProcessManager) (pid : Z) : result ProcessManager :=
  l ← Acquire (lock pm);
  b ← BitMap.Clear (map pm) pid;
  t ← aset (pcbTable pm) pid Threads.NULL;
  l ← Release l;
  Ok (mkPM b l t).

Definition getFree (pm : ProcessManager) : result (Z * ProcessManager) :=
  l ← Acquire (lock pm);
  numFree ← BitMap.NumClear (map pm);
  l ← Release l;
  Ok (numFree, mkPM (map pm) l (pcbTable pm)).

(** [pcb] is an address; [pcbs] are the PCBs by address. *)
Definition addPCB (pcbs : gmap Z (PCB.PCB L)) (pm : ProcessManager) (pcb : Z)
    : result ProcessManager :=
  l ← Acquire (lock pm);
  p ← Threads.find pcbs pcb;
  t ← aset (pcbTable pm) (PCB.getID p) pcb;
  l ← Release l;
  Ok (mkPM (map pm) l t).

Definition removePCB (pm : ProcessManager) (pid : Z) : result ProcessManager :=
  l ← Acquire (lock pm);
  t ← aset (pcbTable pm) pid Threads.NULL;
  l ← Release l;
  Ok (mkPM (map pm) l t).

Definition getProcess (pm : ProcessManager) (pid : Z) : result (Z * ProcessManager) :=
  l ← Acquire (lock pm);
  t ← BitMap.Test (map pm) pid;
  pcb ← (if (t : bool) then aget (pcbTable pm) pid else Ok Threads.NULL);
  l ← Release l;
  Ok (pcb, mkPM (map pm) l (pcbTable pm)).

Context `{!LockLaws L}.

Record wf (pm : ProcessManager) : Prop := mkWf {
  wf_map : BitMap.wf (map pm);
  wf_lock : is_free (lock pm);
  wf_table : Z.of_nat (length (pcbTable pm)) = BitMap.numBits (map pm);
}.

(** The manager as a finite map from the process numbers in use to what the
    table holds for them. *)
Definition pids (pm : ProcessManager) : gset Z := used (map pm).
Definition entry (pm : ProcessManager) (pid : Z) : Z :=
  default Threads.NULL (pcbTable pm !! Z.to_nat pid).
Definition table (pm : ProcessManager) : gmap Z Z := set_to_map (λ i, (i, entry pm i)) (pids pm).

Lemma table_lookup pm i :
  table pm !! i = if decide (i ∈ pids pm) then Some (entry pm i) else None.
Proof.
  unfold table. case_decide as Hi.
  - apply lookup_set_to_map; [done|]. by exists i.
  - apply eq_None_not_Some. intros [x Hx]. apply lookup_set_to_map in Hx as (j & ? & [= -> _]); done.
Qed.

Lemma pids_range pm i : i ∈ pids pm → 0 ≤ i < BitMap.numBits (map pm).
Proof. unfold pids. rewrite elem_of_used. tauto. Qed.

Lemma entry_insert pm b l i j x :
  0 ≤ i → 0 ≤ j < Z.of_nat (length (pcbTable pm)) →
  entry (mkPM b l (<[Z.to_nat j := x]> (pcbTable pm))) i = if decide (i = j) then x else entry pm i.
Proof.
  intros Hi Hj. unfold entry; simpl. case_decide.
  - subst. rewrite list_lookup_insert_eq by lia. done.
  - by rewrite list_lookup_insert_ne by lia.
Qed.

(** Run the critical section of a method of a well-formed manager. *)
Ltac enter Hl :=
  let l1 := fresh "l1" in let l2 := fresh "l2" in
  destruct (critical_section _ Hl) as (l1 & l2 & E1 & E2 & Hfree); rewrite E1; run_ok.

Lemma getPID_ok pm :
  wf pm →
  ∃ r pm', getPID pm = Ok (r, pm') ∧ wf pm' ∧
  ((r = -1 ∧ table pm' = table pm ∧ ∀ i, 0 ≤ i < BitMap.numBits (map pm) → is_Some (table pm !! i)) ∨
   (0 ≤ r < BitMap.numBits (map pm) ∧ table pm !! r = None ∧
    table pm' = <[r := entry pm r]> (table pm))).
Proof.
  intros [Hb Hl Ht]. unfold getPID. enter Hl.
  destruct (Find_used _ Hb) as (r & b' & -> & Hb' & Hn & Hc). run_ok. rewrite E2. run_ok.
  exists r, (mkPM b' l2 (pcbTable pm)). split_and!; [done|split; simpl; [done|done|congruence]|].
  destruct Hc as [(-> & Hu & Hs)|(Hr & Hnin & Hu)]; [left|right].
  - split_and!; [done| |].
    + apply map_eq. intros i. rewrite !table_lookup. unfold pids; simpl. by rewrite Hu.
    + intros i Hi. rewrite table_lookup, decide_True; [done|]. unfold pids.
      eapply full_range; [|done|done]. intros p Hp. by apply elem_of_used in Hp as [? _].
  - split_and!; [lia|lia| |].
    + by rewrite table_lookup, decide_False.
    + apply map_eq. intros i. destruct (decide (i = r)) as [->|Hne].
      * rewrite lookup_insert_eq, table_lookup. unfold pids; simpl. rewrite Hu.
        by rewrite decide_True by set_solver.
      * rewrite lookup_insert_ne, !table_lookup by done. unfold pids; simpl. rewrite Hu.
        by repeat case_decide; set_solver.
Qed.

Lemma clearPID_ok pm pid :
  wf pm → 0 ≤ pid < BitMap.numBits (map pm) →
  ∃ pm', clearPID pm pid = Ok pm' ∧ wf pm' ∧ table pm' = delete pid (table pm) ∧
         entry pm' pid = Threads.NULL.
Proof.
  intros [Hb Hl Ht] Hp. unfold clearPID. enter Hl.
  destruct (Clear_used _ _ Hb Hp) as (b' & -> & Hb' & Hn & Hu). run_ok.
  rewrite aset_ok by lia. run_ok. rewrite E2. run_ok.
  eexists. split; [done|]. split_and!.
  - split; simpl; [done|done|by rewrite length_insert, Hn].
  - apply map_eq. intros i. rewrite table_lookup. unfold pids; simpl. rewrite Hu.
    destruct (decide (i = pid)) as [->|Hne].
    + rewrite lookup_delete_eq, decide_False by set_solver. done.
    + rewrite lookup_delete_ne, table_lookup by done. unfold pids.
      destruct (decide (i ∈ used (map pm))) as [Hi|].
      * apply pids_range in Hi as ?. rewrite decide_True by set_solver.
        rewrite entry_insert by lia. by rewrite decide_False.
      * by rewrite decide_False by set_solver.
  - rewrite entry_insert by lia. by rewrite decide_True.
Qed.

Lemma table_insert pm l pid x :
  0 ≤ pid < Z.of_nat (length (pcbTable pm)) →
  table (mkPM (map pm) l (<[Z.to_nat pid := x]> (pcbTable pm))) =
    if decide (pid ∈ pids pm) then <[pid := x]> (table pm) else table pm.
Proof.
  intros Hp. apply map_eq. intros i. rewrite table_lookup. unfold pids at 1; simpl.
  fold (pids pm). destruct (decide (i ∈ pids pm)) as [Hi|Hi].
  - pose proof (pids_range _ _ Hi). rewrite entry_insert by lia.
    destruct (decide (i = pid)) as [->|Hne].
    + rewrite decide_True by done. by rewrite lookup_insert_eq.
    + destruct (decide (pid ∈ pids pm)); rewrite ?lookup_insert_ne, table_lookup by done;
        by rewrite decide_True.
  - destruct (decide (pid ∈ pids pm)); rewrite ?lookup_insert_ne, table_lookup by set_solver;
      by rewrite decide_False.
Qed.

Lemma addPCB_ok pcbs pm x p :
  wf pm → pcbs !! x = Some p → 0 ≤ PCB.getID p < BitMap.numBits (map pm) →
  ∃ pm', addPCB pcbs pm x = Ok pm' ∧ wf pm' ∧
         table pm' = if decide (PCB.getID p ∈ pids pm) then <[PCB.getID p := x]> (table pm)
                     else table pm.
Proof.
  intros [Hb Hl Ht] Hx Hp. unfold addPCB, Threads.find. enter Hl. rewrite Hx. run_ok.
  rewrite aset_ok by lia. run_ok. rewrite E2. run_ok. eexists. split_and!; [done| |].
  - split; simpl; [done|done|by rewrite length_insert].
  - apply table_insert. lia.
Qed.

Lemma removePCB_ok pm pid :
  wf pm → 0 ≤ pid < BitMap.numBits (map pm) →
  ∃ pm', removePCB pm pid = Ok pm' ∧ wf pm' ∧
         table pm' = if decide (pid ∈ pids pm) then <[pid := Threads.NULL]> (table pm)
                     else table pm.
Proof.
  intros [Hb Hl Ht] Hp. unfold removePCB. enter Hl.
  rewrite aset_ok by lia. run_ok. rewrite E2. run_ok. eexists. split_and!; [done| |].
  - split; simpl; [done|done|by rewrite length_insert].
  - apply table_insert. lia.
Qed.

Lemma getProcess_ok pm pid :
  wf pm → 0 ≤ pid < BitMap.numBits (map pm) →
  ∃ pm', getProcess pm pid = Ok (default Threads.NULL (table pm !! pid), pm') ∧ wf pm' ∧
         table pm' = table pm.
Proof.
  intros [Hb Hl Ht] Hp. unfold getProcess. enter Hl. rewrite Test_used by done. run_ok.
  rewrite table_lookup. destruct (aget_ok (pcbTable pm) pid ltac:(lia)) as (x & Hx & ->).
  exists (mkPM (map pm) l2 (pcbTable pm)). split_and!; [|by split|done]. unfold pids, entry.
  case_bool_decide; [rewrite decide_True by done|rewrite decide_False by done];
    run_ok; rewrite E2; run_ok; [by rewrite Hx|done].
Qed.

Lemma table_size pm : size (table pm) = size (pids pm).
Proof.
  rewrite <- size_dom. f_equal. apply set_eq. intros i. rewrite elem_of_dom, table_lookup.
  case_decide; [by split|]. rewrite is_Some_alt. naive_solver.
Qed.

(** The process manager is the finite map from the numbers in use to their
    PCBs.  [getPID] adds a number that is not in the map, or answers -1 when
    all are; [addPCB] stores a PCB under its own number; [removePCB] stores
    NULL; [clearPID] deletes the number; [getProcess] looks it up and answers
    NULL for one that is not in use; [getFree] counts the unused ones.  A
    number outside the table is stopped by the assertions of the bit map,
    except in [addPCB] and [removePCB], which write outside the array. *)
Theorem process_table_refines_map pcbs pm pid x p :
  wf pm → pcbs !! x = Some p → PCB.getID p = pid →
  (∃ r pm', getPID pm = Ok (r, pm') ∧ wf pm' ∧
     ((r = -1 ∧ table pm' = table pm ∧
       ∀ i, 0 ≤ i < BitMap.numBits (map pm) → is_Some (table pm !! i)) ∨
      (0 ≤ r < BitMap.numBits (map pm) ∧ table pm !! r = None ∧
       table pm' = <[r := entry pm r]> (table pm)))) ∧
  (∃ pm', getFree pm = Ok (BitMap.numBits (map pm) - Z.of_nat (size (table pm)), pm') ∧
     wf pm' ∧ table pm' = table pm) ∧
  (0 ≤ pid < BitMap.numBits (map pm) →
   (∃ pm', addPCB pcbs pm x = Ok pm' ∧ wf pm' ∧
      table pm' = if decide (pid ∈ pids pm) then <[pid := x]> (table pm) else table pm) ∧
   (∃ pm', removePCB pm pid = Ok pm' ∧ wf pm' ∧
      table pm' = if decide (pid ∈ pids pm) then <[pid := Threads.NULL]> (table pm) else table pm) ∧
   (∃ pm', clearPID pm pid = Ok pm' ∧ wf pm' ∧ table pm' = delete pid (table pm)) ∧
   (∃ pm', getProcess pm pid = Ok (default Threads.NULL (table pm !! pid), pm') ∧ wf pm' ∧
      table pm' = table pm)) ∧
  (¬ (0 ≤ pid < BitMap.numBits (map pm)) →
   addPCB pcbs pm x = Err OutOfBounds ∧ removePCB pm pid = Err OutOfBounds ∧
   clearPID pm pid = Err AssertionFailed ∧ getProcess pm pid = Err AssertionFailed).
Proof.
  intros Hwf Hx Hid. split_and!; [by apply getPID_ok| |intros Hp|intros Hp].
  - destruct Hwf as [Hb Hl Ht]. unfold getFree. enter Hl. rewrite NumClear_used by done. run_ok.
    rewrite E2. run_ok. rewrite table_size. eexists. by split_and!.
  - subst pid. split_and!; [by apply addPCB_ok|by apply removePCB_ok| |by apply getProcess_ok].
    destruct (clearPID_ok pm _ Hwf Hp) as (pm' & ? & ? & ? & _). by exists pm'.
  - destruct Hwf as [Hb Hl Ht]. unfold addPCB, removePCB, clearPID, getProcess, Threads.find.
    enter Hl. destruct (BitMap.out_of_range _ _ Hp) as (_ & -> & ->). rewrite Hx. run_ok.
    rewrite Hid. by rewrite !aset_out by lia.
Qed.

End manager.
Arguments ProcessManager : clear implicits.

(** A manager with numbers 0 and 2 of three in use, and a PCB with number 2. *)
Definition sample_manager : ProcessManager unit := mkPM (BitMap.mkBitMap 3 1 [5]) tt [100; 0; 102].
Definition sample_pcbs : gmap Z (PCB.PCB unit) :=
  {[ 104 := PCB.mkPCB 1 2 0 ListModel.empty tt 0 ]}.

Lemma process_table_refines_map_witness :
  ∃ pm', addPCB sample_pcbs sample_manager 104 = Ok pm' ∧ table pm' !! 2 = Some 104.
Proof.
  destruct (process_table_refines_map sample_pcbs sample_manager 2 104
              (PCB.mkPCB 1 2 0 ListModel.empty tt 0)) as (_ & _ & H & _).
  - split; [|exact I|reflexivity]. split; [simpl; lia|reflexivity|reflexivity|].
    repeat constructor; simpl; lia.
  - reflexivity.
  - reflexivity.
  - destruct H as ((pm' & E & _ & Ht) & _); [simpl; lia|]. exists pm'. split; [exact E|].
    rewrite Ht. vm_compute. reflexivity.
Defined.

End ProcessManager.
