(* ===== verification/Frames.v ===== *)
(** * Main memory seen through frames

    A page frame is a stretch of [PageSize] bytes of main memory, and the
    memory of a user program is the concatenation of the frames its page table
    names.  The lemmas say what a write within a frame does to the programs
    that own the frame and to those that do not. *)

From stdpp Require Import base list gmap.
From S2P Require Import Prelude Machine.

Module Frames.

Definition psize : nat := Z.to_nat Machine.PageSize.

(** The address of frame [p], and its bytes. *)
Definition frame_at (p : Z) : nat := Z.to_nat (p * Machine.PageSize).
Definition frame_bytes (mem : list Z) (p : Z) : list Z := take psize (drop (frame_at p) mem).

(** The memory of a program with frames [ps]. *)
Definition view (mem : list Z) (ps : list Z) : list Z := ps ≫= frame_bytes mem.

(** Memory is [MemorySize] bytes. *)
Definition full (mem : list Z) : Prop :=
  Z.of_nat (length mem) = Machine.MemorySize ∧ Forall Machine.is_byte mem.

Definition is_frame (p : Z) : Prop := 0 ≤ p < Machine.NumPhysPages.

(** Unfold the sizes in the goal and in the hypotheses. *)
Ltac frames :=
  repeat match goal with
  | H : ?P |- _ =>
    match type of P with
    | Prop => progress unfold full, is_frame, frame_at, psize, Machine.MemorySize,
                Machine.NumPhysPages, Machine.PageSize, Machine.SectorSize in H
    end
  end;
  unfold full, is_frame, frame_at, psize, Machine.MemorySize, Machine.NumPhysPages,
    Machine.PageSize, Machine.SectorSize.

Lemma frame_bytes_lookup mem p k :
  (k < psize)%nat → frame_bytes mem p !! k = mem !! (frame_at p + k)%nat.
Proof. intros Hk. unfold frame_bytes. by rewrite lookup_take_lt, lookup_drop by done. Qed.

Lemma frame_bytes_length mem p : full mem → is_frame p → length (frame_bytes mem p) = psize.
Proof. intros [Hl _] Hp. unfold frame_bytes. rewrite length_take, length_drop. frames. lia. Qed.

Lemma frame_bytes_ext mem mem' p :
  (∀ k, (k < psize)%nat → mem' !! (frame_at p + k)%nat = mem !! (frame_at p + k)%nat) →
  frame_bytes mem' p = frame_bytes mem p.
Proof.
  intros Hk. apply list_eq. intros k. destruct (decide (k < psize)%nat) as [Hlt|].
  - rewrite !frame_bytes_lookup by done. by apply Hk.
  - unfold frame_bytes. by rewrite !lookup_take_ge by lia.
Qed.

(** The write of [bs] at offset [o] of frame [p]. *)
Definition poke (mem : list Z) (p : Z) (o : nat) (bs : list Z) : list Z :=
  list_inserts (frame_at p + o) bs mem.

Lemma poke_full mem p o bs : full mem → Forall Machine.is_byte bs → full (poke mem p o bs).
Proof.
  intros [Hl Hb] Hbs. split; [unfold poke; by rewrite length_inserts|].
  by apply Forall_inserts.
Qed.

Lemma poke_other mem p q o bs :
  is_frame p → is_frame q → q ≠ p → (o + length bs ≤ psize)%nat →
  frame_bytes (poke mem p o bs) q = frame_bytes mem q.
Proof.
  intros Hp Hq Hne Ho. apply frame_bytes_ext. intros k Hk. apply inserts_ne. frames. lia.
Qed.

Lemma poke_same mem p o bs :
  full mem → is_frame p → (o + length bs ≤ psize)%nat →
  frame_bytes (poke mem p o bs) p = list_inserts o bs (frame_bytes mem p).
Proof.
  intros Hf Hp Ho. pose proof Hf as [Hl _]. pose proof (frame_bytes_length mem p Hf Hp) as Hlen.
  apply list_eq. intros k. destruct (decide (k < psize)%nat) as [Hlt|].
  - rewrite frame_bytes_lookup by done. unfold poke.
    destruct (decide (o ≤ k < o + length bs)%nat) as [Hin|Hout].
    + rewrite !list_lookup_inserts; [f_equal; lia|lia|by rewrite Hlen|lia|]. frames. lia.
    + rewrite !inserts_ne by lia. by rewrite frame_bytes_lookup.
  - rewrite !lookup_ge_None_2; [done|rewrite length_inserts; lia|].
    unfold frame_bytes. rewrite length_take. lia.
Qed.

(** Writing a whole frame. *)
Lemma poke_whole mem p bs :
  full mem → is_frame p → length bs = psize → frame_bytes (poke mem p 0 bs) p = bs.
Proof.
  intros Hf Hp Hl. rewrite poke_same by (done || lia).
  apply inserts_all. by rewrite frame_bytes_length.
Qed.

Lemma view_length mem ps :
  full mem → Forall is_frame ps → length (view mem ps) = (length ps * psize)%nat.
Proof.
  intros Hf Hps. unfold view. induction Hps as [|p ps Hp _ IH]; csimpl; [done|].
  by rewrite length_app, IH, frame_bytes_length.
Qed.

Lemma view_lookup mem ps k p o :
  full mem → Forall is_frame ps → ps !! k = Some p → (o < psize)%nat →
  view mem ps !! (k * psize + o)%nat = mem !! (frame_at p + o)%nat.
Proof.
  intros Hf Hps. revert k. unfold view. induction Hps as [|q ps Hq Hps IH]; intros k Hk Ho; [done|].
  pose proof (frame_bytes_length mem q Hf Hq) as Hl. rewrite bind_cons.
  destruct k as [|k]; cbn [lookup list_lookup] in Hk; simplify_eq.
  - rewrite lookup_app_l by lia. by apply frame_bytes_lookup.
  - rewrite lookup_app_r by lia.
    replace (S k * psize + o - length (frame_bytes mem q))%nat with (k * psize + o)%nat by lia.
    by apply IH.
Qed.

Lemma view_join mem ps : view mem ps = mjoin (frame_bytes mem <$> ps).
Proof. unfold view. induction ps as [|p ps IH]; csimpl; [done|]. by rewrite IH. Qed.

Lemma view_ext mem mem' ps :
  (∀ p, p ∈ ps → frame_bytes mem' p = frame_bytes mem p) → view mem' ps = view mem ps.
Proof.
  intros H. unfold view. induction ps as [|p ps IH]; csimpl; [done|].
  rewrite H by set_solver. f_equal. apply IH. set_solver.
Qed.

(** A write within the [k]th frame of a program is the write at the virtual
    address. *)
Lemma view_poke mem ps k p o bs :
  full mem → Forall is_frame ps → NoDup ps → ps !! k = Some p → (o + length bs ≤ psize)%nat →
  view (poke mem p o bs) ps = list_inserts (k * psize + o) bs (view mem ps).
Proof.
  intros Hf Hps. revert k. unfold view. induction Hps as [|q ps Hq Hps IH]; intros k Hnd Hk Ho; [done|].
  apply NoDup_cons in Hnd as [Hq' Hnd]. rewrite !bind_cons.
  destruct k as [|k]; cbn [lookup list_lookup] in Hk; simplify_eq.
  - rewrite poke_same by done.
    assert (ps ≫= frame_bytes (poke mem p o bs) = ps ≫= frame_bytes mem) as ->.
    { apply view_ext. intros q Hin. apply poke_other; [done| |set_solver|done].
      by eapply Forall_forall in Hps. }
    rewrite inserts_in_l; [done|]. by rewrite frame_bytes_length.
  - assert (p ∈ ps) by (by eapply list_elem_of_lookup_2).
    assert (is_frame p) by (by eapply Forall_forall in Hps).
    rewrite poke_other by (done || set_solver). rewrite (IH k) by done.
    pose proof (frame_bytes_length mem q Hf Hq) as Hl.
    replace (S k * psize + o)%nat with (length (frame_bytes mem q) + (k * psize + o))%nat by lia.
    by rewrite list_inserts_app_r.
Qed.

Lemma view_poke_other mem ps p o bs :
  Forall is_frame ps → is_frame p → p ∉ ps → (o + length bs ≤ psize)%nat →
  view (poke mem p o bs) ps = view mem ps.
Proof.
  intros Hps Hp Hnin Ho. apply view_ext. intros q Hq.
  eapply Forall_forall in Hps; [|done]. apply poke_other; [done|done|set_solver|done].
Qed.

(** There are no more than [NumPhysPages] frames. *)
Lemma frames_at_most ps :
  NoDup ps → Forall is_frame ps → Z.of_nat (length ps) ≤ Machine.NumPhysPages.
Proof.
  intros Hnd Hps. assert (ps ⊆+ seqZ 0 Machine.NumPhysPages) as Hsub.
  { apply NoDup_submseteq; [done|]. intros p Hp. eapply Forall_forall in Hps; [|done].
    apply elem_of_seqZ. frames. lia. }
  apply submseteq_length in Hsub. rewrite length_seqZ in Hsub. frames. lia.
Qed.

Lemma join_zeros n : mjoin (replicate n (replicate psize 0)) = replicate (n * psize) 0.
Proof.
  generalize psize as m. intros m. induction n as [|n IH]; [done|].
  cbn [replicate]. rewrite list_join_bind in *. rewrite bind_cons, IH.
  unfold id. by rewrite <- replicate_add.
Qed.

(** Two pieces of a file one after the other. *)
Lemma inserts_seq {B} (l b : list B) (i n m : nat) :
  (n + m ≤ length b)%nat →
  list_inserts (i + n) (take m (drop n b)) (list_inserts i (take n b) l) =
  list_inserts i (take (n + m) b) l.
Proof.
  intros Hl. rewrite <- take_take_drop. rewrite list_inserts_app_l.
  rewrite length_take. by replace (n `min` length b + i)%nat with (i + n)%nat by lia.
Qed.

(** Bytes, by computation. *)
Lemma bytes_check l : forallb (λ b, (0 <=? b) && (b <? 256)) l = true → Forall Machine.is_byte l.
Proof.
  intros Hl. apply Forall_forall. intros b Hb. rewrite forallb_forall in Hl.
  specialize (Hl b (proj1 (list_elem_of_In _ _) Hb)). unfold Machine.is_byte. lia.
Qed.

End Frames.
