(* ===== verification/AddrSpace.v ===== *)
(** * Address spaces: userprog/addrspace.cc, bin/noff.h

    The loading, copying, replacing and releasing of the memory of a user
    program, and the step of a user program on the simulated hardware.  The
    page tables are arrays that address spaces and the machine point to, so
    they are kept in a store, [tables], and both refer to them by address: the
    use and dirty bits the hardware sets are seen by the address space, and a
    page table that was deleted can no longer be used by either.

    The address spaces are verified against the interface [PageAllocator] of
    the memory manager, for any implementation of it that obeys the laws. *)

From stdpp Require Import base list gmap.
From S2P Require Import Prelude Lists BitMap Machine Mips Threads Managers Frames.
Import Pages Frames.

Module AddrSpace.

(** ** bin/noff.h *)

Definition NOFFMAGIC : Z := 0xbadfad.

Record Segment := mkSegment {
  virtualAddr : Z;
  inFileAddr : Z;
  size : Z;
}.

Record NoffHeader := mkHeader {
  noffMagic : Z;
  code : Segment;
  initData : Segment;
  uninitData : Segment;
}.

Definition sizeof_NoffHeader : Z := 40.

Definition UserStackSize : Z := 1024.

(** [class AddrSpace]; [pageTable] and [pcb] are addresses. *)
Record AddrSpace := mkSpace {
  pageTable : Z;
  numPages : Z;
  pcb : Z;
}.

#[global] Instance AddrSpace_eq_dec : EqDecision AddrSpace.
Proof. solve_decision. Defined.

Section space.
Context {A : Type} `{PageAllocator A}.
(** The byte order of the host; what memory that is not initialised holds: the
    bytes of a buffer, a page table entry, the [pcb] of a new address space;
    and the files of the UNIX file system that [fileSystem->Open] finds. *)
Context (HOST_IS_BIG_ENDIAN : bool) (uninit : nat → Z) (stale_entry : Machine.TranslationEntry)
  (stale_pcb : Z) (Open : list Z → option (list Z)).

(** The globals [memoryManager] and [machine], and the page tables by address.
    The field [pageTable] of [machine] is [pageTablePtr]. *)
Record world := mkWorld {
  memoryManager : A;
  machine : Machine.Machine;
  pageTablePtr : Z;
  tables : gmap Z (list Machine.TranslationEntry);
  next : Z;
}.

Definition set_memoryManager (w : world) (a : A) : world :=
  mkWorld a (machine w) (pageTablePtr w) (tables w) (next w).
Definition set_machine (w : world) (m : Machine.Machine) : world :=
  mkWorld (memoryManager w) m (pageTablePtr w) (tables w) (next w).
Definition set_pageTablePtr (w : world) (p : Z) : world :=
  mkWorld (memoryManager w) (machine w) p (tables w) (next w).
Definition set_tables (w : world) (t : gmap Z (list Machine.TranslationEntry)) : world :=
  mkWorld (memoryManager w) (machine w) (pageTablePtr w) t (next w).

Definition memory (w : world) : list Z := Machine.mainMemory (machine w).

(** A buffer of [n] bytes that is not initialised. *)
Definition buffer (n : Z) : list Z := uninit <$> seq 0 (Z.to_nat n).

(** [bcopy(bs, machine->mainMemory + to, length bs)]. *)
Definition store_memory (w : world) (to : Z) (bs : list Z) : result world :=
  mem ← Machine.store_bytes (memory w) to bs;
  Ok (set_machine w (Machine.set_mainMemory (machine w) mem)).

(** [OpenFile::ReadAt] of the stub file system (filesys/openfile.h): as many of
    the bytes as the file has. *)
Definition ReadAt (file into : list Z) (numBytes position : Z) : result (list Z) :=
  _ ← ASSERT (position >=? 0);
  Ok (list_inserts 0 (take (Z.to_nat numBytes) (drop (Z.to_nat position) file)) into).

(** ** The header *)

Definition int_at (buf : list Z) (offset : nat) : Z :=
  s32 (Machine.le_combine (Machine.host_order HOST_IS_BIG_ENDIAN (take 4 (drop offset buf)))).

Definition segment_at (buf : list Z) (offset : nat) : Segment :=
  mkSegment (int_at buf offset) (int_at buf (offset + 4)) (int_at buf (offset + 8)).

Definition header_of (buf : list Z) : NoffHeader :=
  mkHeader (int_at buf 0) (segment_at buf 4) (segment_at buf 16) (segment_at buf 28).

Definition swap (x : Z) : Z := s32 (Machine.WordToHost HOST_IS_BIG_ENDIAN (u32 x)).

Definition SwapHeader (noffH : NoffHeader) : NoffHeader :=
  let swap_segment seg :=
    mkSegment (swap (virtualAddr seg)) (swap (inFileAddr seg)) (swap (size seg)) in
  mkHeader (swap (noffMagic noffH)) (swap_segment (code noffH)) (swap_segment (initData noffH))
    (swap_segment (uninitData noffH)).

(** The beginning of the constructor and of [Replace]. *)
Definition read_header (executable : list Z) : result NoffHeader :=
  buf ← ReadAt executable (buffer sizeof_NoffHeader) sizeof_NoffHeader 0;
  let noffH := header_of buf in
  let noffH :=
    if negb (noffMagic noffH =? NOFFMAGIC) &&
       (Machine.WordToHost HOST_IS_BIG_ENDIAN (u32 (noffMagic noffH)) =? NOFFMAGIC)
    then SwapHeader noffH else noffH in
  _ ← ASSERT (noffMagic noffH =? NOFFMAGIC);
  Ok noffH.

(** [size], an [unsigned int]; a sum of [int]s that overflows wraps around. *)
Definition image_size (noffH : NoffHeader) : Z :=
  u32 (size (code noffH) + size (initData noffH) + size (uninitData noffH) + UserStackSize).

(** ** The page table *)

(** [new TranslationEntry[n]]. *)
Definition new_table (w : world) (n : Z) : Z * world :=
  (next w, mkWorld (memoryManager w) (machine w) (pageTablePtr w)
             (<[next w := replicate (Z.to_nat n) stale_entry]> (tables w)) (next w + 1)).

Definition delete_table (w : world) (p : Z) : result world :=
  _ ← Threads.find (tables w) p; Ok (set_tables w (delete p (tables w))).

Definition get_entry (w : world) (p i : Z) : result Machine.TranslationEntry :=
  t ← Threads.find (tables w) p; aget t i.

Definition set_entry (w : world) (p i : Z) (e : Machine.TranslationEntry) : result world :=
  t ← Threads.find (tables w) p;
  t ← aset t i e;
  Ok (set_tables w (<[p := t]> (tables w))).

(** The loop of [InitializePageTable], with [n] pages to go. *)
Fixpoint InitializePageTable_loop (n : nat) (w : world) (table i : Z) : result world :=
  match n with
  | O => Ok w
  | S n =>
    '(page, mm) ← getPage (memoryManager w);
    let w := set_memoryManager w mm in
    w ← set_entry w table i (Machine.mkEntry i (u32 page) true false false false);
    w ← store_memory w (u32 (u32 page * Machine.PageSize))
          (replicate (Z.to_nat Machine.PageSize) 0);
    InitializePageTable_loop n w table (i + 1)
  end.

Definition InitializePageTable (w : world) (this : AddrSpace) : result world :=
  InitializePageTable_loop (Z.to_nat (numPages this)) w (pageTable this) 0.

Fixpoint ReleasePhysicalMemory_loop (n : nat) (w : world) (table i : Z) : result world :=
  match n with
  | O => Ok w
  | S n =>
    e ← get_entry w table i;
    mm ← clearPage (memoryManager w) (s32 (Machine.physicalPage e));
    ReleasePhysicalMemory_loop n (set_memoryManager w mm) table (i + 1)
  end.

Definition ReleasePhysicalMemory (w : world) (this : AddrSpace) : result world :=
  ReleasePhysicalMemory_loop (Z.to_nat (numPages this)) w (pageTable this) 0.

(** [AddrSpace::~AddrSpace]. *)
Definition AddrSpace_delete (w : world) (this : AddrSpace) : result world :=
  delete_table w (pageTable this).

(** [AddrSpace::Translate]: the physical address, or -1. *)
Definition Translate (w : world) (this : AddrSpace) (virtualAddress : Z) : result (Z * world) :=
  if virtualAddress <? 0 then Ok (-1, w)
  else
    let pageNumber := Z.quot virtualAddress Machine.PageSize in
    let memoryOffset := Z.rem virtualAddress Machine.PageSize in
    if u32 pageNumber >=? numPages this then Ok (-1, w)
    else
      e ← get_entry w (pageTable this) pageNumber;
      if negb (Machine.valid e) then Ok (-1, w)
      else
        let frameNumber := s32 (Machine.physicalPage e) in
        let physicalAddress := s32 (frameNumber * Machine.PageSize + memoryOffset) in
        w ← set_entry w (pageTable this) pageNumber
              (Machine.mkEntry (Machine.virtualPage e) (Machine.physicalPage e) (Machine.valid e)
                 (Machine.readOnly e) true (Machine.dirty e));
        Ok (physicalAddress, w).

(** ** Loading *)

(** The loop of [ReadFile].  Every round takes at least one byte, so that the
    number of bytes bounds the number of rounds. *)
Fixpoint ReadFile_loop (fuel : nat) (w : world) (this : AddrSpace) (buf : list Z)
    (virtAddr numBytesRead numBytesLeft : Z) : result (Z * world) :=
  if numBytesLeft >? 0 then
    match fuel with
    | O => Err OutOfFuel
    | S fuel =>
      let readSize :=
        if numBytesLeft <? Machine.PageSize then numBytesLeft
        else Machine.PageSize - Z.rem virtAddr Machine.PageSize in
      '(physAddr, w) ← Translate w this virtAddr;
      _ ← ASSERT (physAddr >=? 0);
      bs ← Machine.load_bytes buf numBytesRead (Z.to_nat readSize);
      w ← store_memory w physAddr bs;
      ReadFile_loop fuel w this buf (virtAddr + readSize) (numBytesRead + readSize)
        (numBytesLeft - readSize)
    end
  else Ok (numBytesRead, w).

Definition ReadFile (w : world) (this : AddrSpace) (virtAddr : Z) (file : list Z)
    (size fileAddr : Z) : result (Z * world) :=
  buf ← ReadAt file (buffer size) size fileAddr;
  ReadFile_loop (Z.to_nat size) w this buf virtAddr 0 size.

Definition load_segment (w : world) (this : AddrSpace) (file : list Z) (seg : Segment)
    : result world :=
  if size seg >? 0 then
    '(_, w) ← ReadFile w this (virtualAddr seg) file (size seg) (inFileAddr seg);
    Ok w
  else Ok w.

(** [AddrSpace::AddrSpace(unsigned int)]. *)
Definition AddrSpace_sized (w : world) (num : Z) : AddrSpace * world :=
  let '(table, w) := new_table w num in
  (mkSpace table num stale_pcb, w).

(** [AddrSpace::AddrSpace(OpenFile * )]. *)
Definition AddrSpace_new (w : world) (executable : list Z) : result (AddrSpace * world) :=
  noffH ← read_header executable;
  let numPages := divRoundUp (image_size noffH) Machine.PageSize in
  '(free, mm) ← getFree (memoryManager w);
  _ ← ASSERT (numPages <=? free);
  let '(table, w) := new_table (set_memoryManager w mm) numPages in
  let this := mkSpace table numPages stale_pcb in
  w ← InitializePageTable w this;
  w ← load_segment w this executable (code noffH);
  w ← load_segment w this executable (initData noffH);
  Ok (this, w).

(** The loop of [copy], with [n] pages to go. *)
Fixpoint copy_loop (n : nat) (w : world) (from to i : Z) : result world :=
  match n with
  | O => Ok w
  | S n =>
    e ← get_entry w from i;
    '(page, mm) ← getPage (memoryManager w);
    let w := set_memoryManager w mm in
    w ← set_entry w to i
          (Machine.mkEntry (Machine.virtualPage e) (u32 page) (Machine.valid e)
             (Machine.readOnly e) (Machine.use e) (Machine.dirty e));
    bs ← Machine.load_bytes (memory w) (u32 (Machine.physicalPage e * Machine.PageSize))
           (Z.to_nat Machine.PageSize);
    w ← store_memory w (u32 (u32 page * Machine.PageSize)) bs;
    copy_loop n w from to (i + 1)
  end.

(** [AddrSpace::copy]; [None] is NULL. *)
Definition copy (w : world) (this : AddrSpace) : result (option AddrSpace * world) :=
  '(free, mm) ← getFree (memoryManager w);
  let w := set_memoryManager w mm in
  if numPages this >? free then Ok (None, w)
  else
    let '(newAddrSpace, w) := AddrSpace_sized w (numPages this) in
    w ← copy_loop (Z.to_nat (numPages this)) w (pageTable this) (pageTable newAddrSpace) 0;
    Ok (Some newAddrSpace, w).

(** ** Registers and the machine's page table *)

Fixpoint clear_registers (n : nat) (m : Machine.Machine) (i : Z) : result Machine.Machine :=
  match n with
  | O => Ok m
  | S n => m ← Machine.WriteRegister m i 0; clear_registers n m (i + 1)
  end.

Definition InitRegisters (w : world) (this : AddrSpace) : result world :=
  m ← clear_registers (Z.to_nat Machine.NumTotalRegs) (machine w) 0;
  m ← Machine.WriteRegister m Machine.PCReg 0;
  m ← Machine.WriteRegister m Machine.NextPCReg 4;
  m ← Machine.WriteRegister m Machine.StackReg (u32 (numPages this * Machine.PageSize - 16));
  Ok (set_machine w m).

Definition RestoreState (w : world) (this : AddrSpace) : world :=
  let m := machine w in
  set_pageTablePtr
    (set_machine w (Machine.mkMachine (Machine.registers m) (Machine.mainMemory m)
                      (Machine.tlb m) (Machine.pageTable m) (numPages this)))
    (pageTable this).

Definition SaveState (w : world) (this : AddrSpace) : world := w.

Definition getPages (this : AddrSpace) : Z := numPages this.

(** ** Replacing the program *)

(** The loop of [ReadFileName]. *)
Fixpoint ReadFileName_loop (fuel : nat) (w : world) (this : AddrSpace) (virtualAddress : Z)
    (fileName : list Z) (character position size : Z) : result (Z * list Z * world) :=
  if negb (character =? 0) && (position <? size) then
    match fuel with
    | O => Err OutOfFuel
    | S fuel =>
      '(physicalAddress, w) ← Translate w this virtualAddress;
      if physicalAddress <? 0 then Ok (-1, fileName, w)
      else
        character ← aget (memory w) physicalAddress;
        fileName ← aset fileName position character;
        ReadFileName_loop fuel w this (s32 (virtualAddress + 1)) fileName character (position + 1) size
    end
  else Ok (position, fileName, w).

Definition ReadFileName (w : world) (this : AddrSpace) (virtualAddress : Z)
    (fileName : list Z) (size : Z) : result (Z * list Z * world) :=
  ReadFileName_loop (Z.to_nat size) w this virtualAddress fileName 48 0 size.

(** The C string in a buffer; one that does not end in the buffer is read past
    its end. *)
Fixpoint c_string (buf : list Z) : result (list Z) :=
  match buf with
  | [] => Err OutOfBounds
  | b :: buf => if b =? 0 then Ok [] else (s ← c_string buf; Ok (b :: s))
  end.

(** [AddrSpace::Replace]: the result, and [*this] as it is left. *)
Definition Replace (w : world) (this : AddrSpace) (virtualAddress : Z)
    : result (bool * AddrSpace * world) :=
  let bufferSize := 128 in
  '(_, fileName, w) ← ReadFileName w this virtualAddress (buffer bufferSize) bufferSize;
  name ← c_string fileName;
  match Open name with
  | None => Ok (false, this, w)
  | Some executable =>
    noffH ← read_header executable;
    let newNumPages := s32 (divRoundUp (image_size noffH) Machine.PageSize) in
    '(free, mm) ← getFree (memoryManager w);
    let w := set_memoryManager w mm in
    if u32 (newNumPages - numPages this) >? free then Ok (false, this, w)
    else
      w ← ReleasePhysicalMemory w this;
      w ← delete_table w (pageTable this);
      let '(table, w) := new_table w (u32 newNumPages) in
      let this := mkSpace table (u32 newNumPages) (pcb this) in
      w ← InitializePageTable w this;
      w ← load_segment w this executable (code noffH);
      w ← load_segment w this executable (initData noffH);
      w ← InitRegisters w this;
      Ok (true, this, RestoreState w this)
  end.

(** ** The hardware *)

(** The machine with the page table it points to. *)
Definition hardware (w : world) : result Machine.Machine :=
  if pageTablePtr w =? Threads.NULL then Ok (Machine.set_pageTable (machine w) None)
  else
    t ← Threads.find (tables w) (pageTablePtr w);
    Ok (Machine.set_pageTable (machine w) (Some t)).

(** The world after the hardware went from [hardware w] to [m]. *)
Definition after_hardware (w : world) (m : Machine.Machine) : world :=
  let w' := set_machine w (Machine.set_pageTable m None) in
  match Machine.pageTable m with
  | None => w'
  | Some t => set_tables w' (<[pageTablePtr w := t]> (tables w))
  end.

(** One instruction of the user program whose state is in the machine, and the
    exception it raises, if any. *)
Definition user_step (w : world) : result (option Machine.ExceptionType * world) :=
  m ← hardware w;
  r ← Mips.OneInstruction HOST_IS_BIG_ENDIAN m;
  match r with
  | Machine.Done _ m => Ok (None, after_hardware w m)
  | Machine.Raised which m => Ok (Some which, after_hardware w m)
  end.

End space.
Arguments world : clear implicits.

End AddrSpace.
