(* ===== verification/Spaces.v ===== *)
(** * Address spaces: no frame has two owners

    The proofs about userprog/addrspace.cc (file AddrSpace): what the address
    spaces of a system own, that every operation keeps it so, what the memory
    of a program is after each of them, and that a running program cannot
    change the memory of another. *)

From stdpp Require Import base list gmap.
From S2P Require Import Prelude Lists BitMap Machine Mips Threads Managers Frames AddrSpace.
Import Pages Frames AddrSpace.

Module Spaces.

Section laws.
Context {A : Type} `{PageAllocatorLaws A}.
Implicit Types (w : world A) (s : AddrSpace) (t : list Machine.TranslationEntry).

(** ** The invariant *)

Record wf_world (w : world A) : Prop := mkWfWorld {
  ww_ready : ready (memoryManager w);
  ww_pages : pages (memoryManager w) = Machine.NumPhysPages;
  ww_memory : full (memory w);
  ww_registers : Machine.wf_regs (machine w);
  ww_tlb : Machine.tlb (machine w) = None;
  ww_next : 0 < next w;
  ww_tables : ∀ p t, tables w !! p = Some t → 0 < p < next w;
}.

(** The frames of an address space, and its memory. *)
Definition table_of (w : world A) (s : AddrSpace) : list Machine.TranslationEntry :=
  default [] (tables w !! pageTable s).

Definition owned (w : world A) (s : AddrSpace) : list Z := Machine.physicalPage <$> table_of w s.

Definition contents (w : world A) (s : AddrSpace) : list Z := view (memory w) (owned w s).

(** An entry of the page table of a program: mapped, writable, to a frame that
    exists. *)
Definition entry_ok (e : Machine.TranslationEntry) : Prop :=
  Machine.valid e = true ∧ Machine.readOnly e = false ∧ is_frame (Machine.physicalPage e).

Record space_ok (w : world A) (s : AddrSpace) : Prop := mkSpaceOk {
  so_table : is_Some (tables w !! pageTable s);
  so_length : Z.of_nat (length (table_of w s)) = numPages s;
  so_entries : Forall entry_ok (table_of w s);
}.

(** The address spaces [ss] of the system: every frame in use belongs to
    exactly one page of one of them, and every frame they use is marked as in
    use. *)
Record Inv (w : world A) (ss : list AddrSpace) : Prop := mkInv {
  inv_world : wf_world w;
  inv_spaces : Forall (space_ok w) ss;
  inv_tables : NoDup (pageTable <$> ss);
  inv_frames : NoDup (ss ≫= owned w);
  inv_used : frames (memoryManager w) = list_to_set (ss ≫= owned w);
}.

(** ** Lemmas *)

Lemma find_table w p t : tables w !! p = Some t → Threads.find (tables w) p = Ok t.
Proof. intros Hp. unfold Threads.find. by rewrite Hp. Qed.

Lemma get_entry_ok w p t i e :
  tables w !! p = Some t → t !! i = Some e → get_entry w p (Z.of_nat i) = Ok e.
Proof.
  intros Hp Hi. unfold get_entry. rewrite (find_table _ _ _ Hp). run_ok.
  apply aget_Some; [lia|]. by rewrite Nat2Z.id.
Qed.

Definition put_entry (w : world A) (p : Z) (t : list Machine.TranslationEntry) (i : nat)
    (e : Machine.TranslationEntry) : world A :=
  set_tables w (<[p := <[i := e]> t]> (tables w)).

Lemma set_entry_ok w p t i e :
  tables w !! p = Some t → (i < length t)%nat →
  set_entry w p (Z.of_nat i) e = Ok (put_entry w p t i e).
Proof.
  intros Hp Hi. unfold set_entry. rewrite (find_table _ _ _ Hp). run_ok.
  rewrite aset_ok by lia. run_ok. by rewrite Nat2Z.id.
Qed.

Definition poked (w : world A) (p : Z) (o : nat) (bs : list Z) : world A :=
  set_machine w (Machine.set_mainMemory (machine w) (poke (memory w) p o bs)).

Lemma store_memory_ok w p o bs :
  full (memory w) → is_frame p → (o + length bs ≤ psize)%nat →
  store_memory w (p * Machine.PageSize + Z.of_nat o) bs = Ok (poked w p o bs).
Proof.
  intros [Hl _] Hp Ho. unfold store_memory. rewrite Machine.store_bytes_ok by (frames; lia). run_ok.
  unfold poked, poke. do 4 f_equal. frames. lia.
Qed.

(** A write that runs over the end of frame [p] goes on in frame [p + 1]. *)
Lemma store_across w p o bs :
  full (memory w) → is_frame p → is_frame (p + 1) → (o < psize)%nat → (length bs < psize)%nat →
  store_memory w (p * Machine.PageSize + Z.of_nat o) bs =
  Ok (poked (poked w p o (take (psize - o) bs)) (p + 1) 0 (drop (psize - o) bs)).
Proof.
  intros [Hl _] Hp Hp2 Ho Hbs. unfold store_memory. rewrite Machine.store_bytes_ok by (frames; lia).
  run_ok. unfold poked, set_machine. simpl. do 3 f_equal. unfold memory at 2, poke. simpl.
  rewrite <- (take_drop (psize - o) bs) at 1. rewrite list_inserts_app_l, length_take.
  destruct (decide (psize - o ≤ length bs)%nat) as [Hle|Hle].
  - f_equal; [frames; lia|]. f_equal. frames. lia.
  - rewrite (drop_ge bs) by lia. simpl. f_equal. frames. lia.
Qed.

(** Addresses of frames do not wrap around. *)
Lemma frame_u32 p : is_frame p → u32 p = p ∧ u32 (p * Machine.PageSize) = p * Machine.PageSize.
Proof. intros Hp. split; apply u32_id; unfold is_u32; frames; lia. Qed.

Lemma frame_s32 p o :
  is_frame p → 0 ≤ o < Machine.PageSize →
  s32 p = p ∧ s32 (p * Machine.PageSize + o) = p * Machine.PageSize + o.
Proof. intros Hp Ho. split; apply s32_id; unfold is_s32; frames; lia. Qed.

(** ** Taking frames

    [allocated w w' ptr i ents cs ps]: on the way from [w] to [w'] the frames
    [ps], none of which was in use, were taken; the entries of the table at
    [ptr] from number [i] on were set to [ents] applied to the frames, and the
    frames were filled with [cs]. *)

Record allocated (w w' : world A) (ptr : Z) (i : nat)
    (ents : list (Z → Machine.TranslationEntry)) (cs : list (list Z)) (ps : list Z) : Prop := mkAlloc {
  al_world : wf_world w';
  al_length : length ps = length ents;
  al_nodup : NoDup ps;
  al_fresh : ∀ p, p ∈ ps → is_frame p ∧ p ∉ frames (memoryManager w);
  al_frames : frames (memoryManager w') = list_to_set ps ∪ frames (memoryManager w);
  al_tables : ∃ t, tables w !! ptr = Some t ∧
    tables w' = <[ptr := list_inserts i (zip_with (λ f p, f p) ents ps) t]> (tables w);
  al_other : ∀ q, is_frame q → q ∉ ps → frame_bytes (memory w') q = frame_bytes (memory w) q;
  al_contents : frame_bytes (memory w') <$> ps = cs;
  al_machine : machine w' = Machine.set_mainMemory (machine w) (memory w');
  al_next : next w' = next w;
  al_ptr : pageTablePtr w' = pageTablePtr w;
}.

Lemma allocated_nil w ptr i t :
  wf_world w → tables w !! ptr = Some t → allocated w w ptr i [] [] [].
Proof.
  intros Hw Ht. split; simpl; try done; [constructor|set_solver|set_solver| |].
  - exists t. split; [done|]. by rewrite insert_id.
  - by destruct w as [? [] ? ? ?].
Qed.

Definition took (w : world A) (mm : A) (ptr : Z) t (i : nat) (e : Machine.TranslationEntry)
    (p : Z) (c : list Z) : world A :=
  poked (put_entry (set_memoryManager w mm) ptr t i e) p 0 c.

(** One frame more can be taken while not all are in use. *)
Lemma take_frame w :
  wf_world w → Z.of_nat (base.size (frames (memoryManager w))) < Machine.NumPhysPages →
  ∃ p mm, getPage (memoryManager w) = Ok (p, mm) ∧ ready mm ∧ pages mm = Machine.NumPhysPages ∧
    is_frame p ∧ (p ∉ frames (memoryManager w)) ∧ frames mm = {[p]} ∪ frames (memoryManager w).
Proof.
  intros Hw Hs. destruct (getPage_law (memoryManager w) (ww_ready _ Hw))
    as (p & mm & E & Hr & Hp & [(_ & _ & Hfull)|(Hpr & Hnin & Hf)]).
  - rewrite (ww_pages _ Hw) in Hfull. lia.
  - exists p, mm. rewrite (ww_pages _ Hw) in *. by split_and!.
Qed.

Lemma took_wf w mm ptr t i e p c :
  wf_world w → tables w !! ptr = Some t → ready mm → pages mm = Machine.NumPhysPages →
  Forall Machine.is_byte c → wf_world (took w mm ptr t i e p c).
Proof.
  intros [? ? ? [? ? ?] ? ? Htab] Ht Hr Hp Hc. split; simpl; try done; [by apply poke_full|].
  intros q u. destruct (decide (q = ptr)) as [->|].
  - intros _. by eapply Htab.
  - rewrite lookup_insert_ne by done. apply Htab.
Qed.

Lemma allocated_cons w w' mm ptr t i ent ents c cs p ps :
  wf_world w → tables w !! ptr = Some t →
  is_frame p → p ∉ frames (memoryManager w) → frames mm = {[p]} ∪ frames (memoryManager w) →
  length c = psize →
  allocated (took w mm ptr t i (ent p) p c) w' ptr (S i) ents cs ps →
  allocated w w' ptr i (ent :: ents) (c :: cs) (p :: ps).
Proof.
  intros Hw Ht Hp Hnin Hf Hlc [Hw' Hl Hnd Hfr Hfs (t' & Ht' & Htabs) Ho Hc Hm Hn Hpt].
  simpl in Hfr, Hfs. rewrite Hf in Hfr, Hfs.
  assert (p ∉ ps) as Hpps by (intros Hin; destruct (Hfr p Hin); set_solver).
  assert (memory (took w mm ptr t i (ent p) p c) = poke (memory w) p 0 c) as Hmem by done.
  split.
  - done.
  - simpl. by rewrite Hl.
  - by constructor.
  - intros q [->|Hq]%elem_of_cons; [done|]. destruct (Hfr q Hq). set_solver.
  - rewrite Hfs. set_solver.
  - exists t. split; [done|]. rewrite Htabs. simpl in Ht' |- *.
    rewrite lookup_insert_eq in Ht'. simplify_eq. rewrite insert_insert_eq.
    f_equal. symmetry. apply list_insert_inserts_lt. lia.
  - intros q Hq Hqn. rewrite Ho by set_solver. rewrite Hmem.
    apply poke_other; [done|done|set_solver|lia].
  - csimpl. f_equal; [|done]. rewrite Ho, Hmem by done. apply poke_whole; [apply Hw|done|done].
  - by rewrite Hm.
  - by rewrite Hn.
  - by rewrite Hpt.
Qed.

Definition fresh_entry (i p : Z) : Machine.TranslationEntry :=
  Machine.mkEntry i p true false false false.

Definition zeros : list Z := replicate psize 0.

Lemma zeros_bytes : Forall Machine.is_byte zeros.
Proof. apply Forall_replicate. unfold Machine.is_byte. lia. Qed.

Lemma store_frame w p bs :
  full (memory w) → is_frame p → length bs = psize →
  store_memory w (u32 (u32 p * Machine.PageSize)) bs = Ok (poked w p 0 bs).
Proof.
  intros Hf Hp Hl. destruct (frame_u32 p Hp) as [-> ->].
  rewrite <- (store_memory_ok w p 0 bs) by (done || lia). f_equal. lia.
Qed.

Lemma InitializePageTable_loop_ok n w ptr t i :
  wf_world w → tables w !! ptr = Some t → (i + n ≤ length t)%nat →
  Z.of_nat (base.size (frames (memoryManager w))) + Z.of_nat n ≤ Machine.NumPhysPages →
  ∃ w' ps, InitializePageTable_loop n w ptr (Z.of_nat i) = Ok w' ∧
    allocated w w' ptr i (fresh_entry <$> seqZ (Z.of_nat i) (Z.of_nat n)) (replicate n zeros) ps.
Proof.
  revert w t i. induction n as [|n IH]; intros w t i Hw Ht Hi Hs.
  { exists w, []. split; [done|]. by eapply allocated_nil. }
  destruct (take_frame w Hw) as (p & mm & E & Hr & Hpg & Hp & Hnin & Hf); [lia|].
  pose proof (took_wf w mm ptr t i (fresh_entry (Z.of_nat i) p) p zeros Hw Ht Hr Hpg zeros_bytes) as Hw1.
  set (w1 := took w mm ptr t i (fresh_entry (Z.of_nat i) p) p zeros) in *.
  destruct (IH w1 (<[i := fresh_entry (Z.of_nat i) p]> t) (S i)) as (w' & ps & E' & Hal).
  { done. } { simpl. by rewrite lookup_insert_eq. } { rewrite length_insert. lia. }
  { simpl. rewrite Hf, size_union, size_singleton by set_solver. lia. }
  exists w', (p :: ps). split.
  - cbn [InitializePageTable_loop]. rewrite E. run_ok.
    rewrite (set_entry_ok _ _ t) by (done || lia). run_ok.
    rewrite store_frame; [|apply Hw|done|by rewrite length_replicate]. run_ok.
    replace (Z.of_nat i + 1) with (Z.of_nat (S i)) by lia.
    destruct (frame_u32 p Hp) as [-> _]. exact E'.
  - rewrite seqZ_cons, fmap_cons by lia. replace (Z.succ (Z.of_nat i)) with (Z.of_nat (S i)) by lia.
    replace (Z.pred (Z.of_nat (S n))) with (Z.of_nat n) by lia.
    by eapply allocated_cons.
Qed.

(** The entry of a copy. *)
Definition copy_entry (e : Machine.TranslationEntry) (p : Z) : Machine.TranslationEntry :=
  Machine.mkEntry (Machine.virtualPage e) p (Machine.valid e) (Machine.readOnly e)
    (Machine.use e) (Machine.dirty e).

Lemma load_frame w p :
  full (memory w) → is_frame p →
  Machine.load_bytes (memory w) (u32 (p * Machine.PageSize)) (Z.to_nat Machine.PageSize) =
  Ok (frame_bytes (memory w) p).
Proof.
  intros [Hl _] Hp. destruct (frame_u32 p Hp) as [_ ->].
  apply Machine.load_bytes_ok; frames; lia.
Qed.

Lemma copy_loop_ok n w from to tf t i :
  wf_world w → from ≠ to → tables w !! from = Some tf → tables w !! to = Some t →
  (i + n = length tf)%nat → length t = length tf →
  Forall (λ e, is_frame (Machine.physicalPage e) ∧
               Machine.physicalPage e ∈ frames (memoryManager w)) tf →
  Z.of_nat (base.size (frames (memoryManager w))) + Z.of_nat n ≤ Machine.NumPhysPages →
  ∃ w' ps, copy_loop n w from to (Z.of_nat i) = Ok w' ∧
    allocated w w' to i (copy_entry <$> drop i tf)
      ((λ e, frame_bytes (memory w) (Machine.physicalPage e)) <$> drop i tf) ps.
Proof.
  revert w t i. induction n as [|n IH]; intros w t i Hw Hne Hfrom Hto Hi Hl Hfr Hs.
  { exists w, []. split; [done|]. rewrite drop_ge by lia. by eapply allocated_nil. }
  destruct (lookup_lt_is_Some_2 tf i) as [e He]; [lia|].
  destruct (proj1 (Forall_lookup _ _) Hfr i e He) as [Hfe Hue].
  destruct (take_frame w Hw) as (p & mm & E & Hr & Hpg & Hp & Hnin & Hf); [lia|].
  set (c := frame_bytes (memory w) (Machine.physicalPage e)).
  assert (length c = psize) as Hlc by (apply frame_bytes_length; [apply Hw|done]).
  assert (Forall Machine.is_byte c) as Hbc by (apply Forall_take, Forall_drop, Hw).
  pose proof (took_wf w mm to t i (copy_entry e p) p c Hw Hto Hr Hpg Hbc) as Hw1.
  set (w1 := took w mm to t i (copy_entry e p) p c) in *.
  destruct (IH w1 (<[i := copy_entry e p]> t) (S i)) as (w' & ps & E' & Hal).
  { done. } { done. } { simpl. by rewrite lookup_insert_ne. } { simpl. by rewrite lookup_insert_eq. }
  { lia. } { by rewrite length_insert. }
  { simpl. rewrite Hf. eapply Forall_impl; [done|]. set_solver. }
  { simpl. rewrite Hf, size_union, size_singleton by set_solver. lia. }
  exists w', (p :: ps). split.
  - cbn [copy_loop]. rewrite (get_entry_ok _ _ _ _ _ Hfrom He). run_ok. rewrite E. run_ok.
    rewrite (set_entry_ok _ _ t) by (done || lia). run_ok.
    rewrite load_frame by (done || apply Hw). run_ok.
    rewrite store_frame; [|apply Hw|done|done]. run_ok.
    replace (Z.of_nat i + 1) with (Z.of_nat (S i)) by lia.
    destruct (frame_u32 p Hp) as [-> _]. exact E'.
  - rewrite (drop_S _ _ _ He), !fmap_cons. eapply allocated_cons; try done.
    assert ((λ e, frame_bytes (memory w) (Machine.physicalPage e)) <$> drop (S i) tf =
            (λ e, frame_bytes (memory w1) (Machine.physicalPage e)) <$> drop (S i) tf) as ->; [|exact Hal].
    apply list_fmap_ext. intros k e' Hk. symmetry. rewrite lookup_drop in Hk.
    destruct (proj1 (Forall_lookup _ _) Hfr _ _ Hk). apply poke_other; [done|done|set_solver|lia].
Qed.

(** ** Address spaces that come and go *)

(** The entries that [ents] makes. *)
Definition makes_entries (ents : list (Z → Machine.TranslationEntry)) : Prop :=
  Forall (λ f, ∀ p, is_frame p → entry_ok (f p) ∧ Machine.physicalPage (f p) = p) ents.

Lemma makes_entries_zip ents ps :
  makes_entries ents → length ps = length ents → Forall is_frame ps →
  Forall entry_ok (zip_with (λ f p, f p) ents ps) ∧
  Machine.physicalPage <$> zip_with (λ f p, f p) ents ps = ps.
Proof.
  intros He. revert ps. induction He as [|f ents Hf _ IH]; intros [|p ps] Hl Hps; try done.
  apply Forall_cons in Hps as [Hp Hps]. destruct (IH ps) as [IH1 IH2]; [by injection Hl|done|].
  destruct (Hf p Hp). split; csimpl; [by constructor|by f_equal].
Qed.

(** What other address spaces see of a change that touches neither their page
    tables nor their frames. *)
Definition untouched (w w' : world A) (ss : list AddrSpace) : Prop :=
  ∀ s, s ∈ ss → owned w' s = owned w s ∧ contents w' s = contents w s.

Lemma space_ok_ext w w' s :
  tables w' !! pageTable s = tables w !! pageTable s → space_ok w s → space_ok w' s.
Proof. intros Ht [? ? ?]. split; unfold table_of in *; by rewrite Ht. Qed.

Lemma owned_ext w w' s :
  tables w' !! pageTable s = tables w !! pageTable s → owned w' s = owned w s.
Proof. intros Ht. unfold owned, table_of. by rewrite Ht. Qed.

Lemma owned_frames w s : space_ok w s → Forall is_frame (owned w s).
Proof.
  intros [_ _ He]. apply Forall_fmap. eapply Forall_impl; [exact He|]. by intros e (_ & _ & ?).
Qed.

Lemma owned_used w ss s p : Inv w ss → s ∈ ss → p ∈ owned w s → p ∈ frames (memoryManager w).
Proof.
  intros HI Hs Hp. rewrite (inv_used _ _ HI). apply elem_of_list_to_set, list_elem_of_bind. eauto.
Qed.

Lemma bind_ext_in {B C} (f g : B → list C) (l : list B) :
  (∀ x, x ∈ l → f x = g x) → l ≫= f = l ≫= g.
Proof.
  intros Hfg. induction l as [|x l IH]; csimpl; [done|]. rewrite Hfg by set_solver.
  f_equal. apply IH. set_solver.
Qed.

(** ** Writing into an address space *)

Lemma bind_split {B} (f : AddrSpace → list B) ss s :
  s ∈ ss → ∃ l1 l2, ss = l1 ++ s :: l2 ∧ ss ≫= f = (l1 ≫= f) ++ f s ++ (l2 ≫= f).
Proof.
  intros (l1 & l2 & ->)%list_elem_of_split. exists l1, l2. split; [done|].
  by rewrite bind_app, bind_cons.
Qed.

Lemma owned_nodup w ss s : Inv w ss → s ∈ ss → NoDup (owned w s).
Proof.
  intros HI Hs. pose proof (inv_frames _ _ HI) as Hnd.
  destruct (bind_split (owned w) ss s Hs) as (l1 & l2 & _ & E). rewrite E in Hnd.
  apply NoDup_app in Hnd as (_ & _ & Hnd). by apply NoDup_app in Hnd as (? & _ & _).
Qed.

(** No frame belongs to two address spaces. *)
Lemma owned_disjoint w ss s s' p :
  Inv w ss → s ∈ ss → s' ∈ ss → s ≠ s' → p ∈ owned w s → p ∉ owned w s'.
Proof.
  intros HI Hs Hs' Hne Hp Hp'. pose proof (inv_frames _ _ HI) as Hnd.
  destruct (bind_split (owned w) ss s Hs) as (l1 & l2 & -> & E). rewrite E in Hnd.
  apply NoDup_app in Hnd as (_ & Hd1 & (_ & Hd2 & _)%NoDup_app).
  apply elem_of_app in Hs' as [Hin|[->|Hin]%elem_of_cons]; [|done|].
  - apply (Hd1 p); [apply list_elem_of_bind; eauto|]. set_solver.
  - apply (Hd2 p); [done|]. apply list_elem_of_bind; eauto.
Qed.

Lemma tables_distinct w ss s s' :
  Inv w ss → s ∈ ss → s' ∈ ss → s ≠ s' → pageTable s' ≠ pageTable s.
Proof.
  intros HI (i & Hi)%list_elem_of_lookup (j & Hj)%list_elem_of_lookup Hne Heq.
  assert (i = j) as ->; [|congruence].
  apply (NoDup_lookup (pageTable <$> ss) i j (pageTable s)); [apply HI|..];
    rewrite list_lookup_fmap; [by rewrite Hi|]. rewrite Hj. simpl. by rewrite Heq.
Qed.

(** [writes w w' ss s va bs]: from [w] to [w'] the bytes [bs] were written at
    [va] of [s], and nothing else of what the address spaces see changed. *)
Record writes (w w' : world A) (ss : list AddrSpace) (s : AddrSpace) (va : nat) (bs : list Z) : Prop :=
mkWrites {
  wr_inv : Inv w' ss;
  wr_owned : ∀ s', s' ∈ ss → owned w' s' = owned w s';
  wr_contents : contents w' s = list_inserts va bs (contents w s);
  wr_other : ∀ s', s' ∈ ss → s' ≠ s → contents w' s' = contents w s';
  wr_manager : memoryManager w' = memoryManager w;
  wr_machine : machine w' = Machine.set_mainMemory (machine w) (memory w');
  wr_ptr : pageTablePtr w' = pageTablePtr w;
  wr_next : next w' = next w;
}.

Lemma writes_nil w ss s va : Inv w ss → writes w w ss s va [].
Proof. split; try done. by destruct w as [? [] ? ? ?]. Qed.

Lemma writes_trans w1 w2 w3 ss s va bs va' bs' bs'' :
  s ∈ ss → writes w1 w2 ss s va bs → writes w2 w3 ss s va' bs' →
  list_inserts va' bs' (list_inserts va bs (contents w1 s)) = list_inserts va bs'' (contents w1 s) →
  writes w1 w3 ss s va bs''.
Proof.
  intros Hs [? Ho1 Hc1 Hr1 ? Hm1 ? ?] [? Ho2 Hc2 Hr2 ? Hm2 ? ?] Heq.
  split; [done|..]; try congruence.
  - intros s' Hs'. by rewrite Ho2, Ho1.
  - intros s' ??. by rewrite Hr2, Hr1.
  - by rewrite Hm2, Hm1.
Qed.

(** A write into a page that the address space owns. *)
Lemma poked_writes w ss s k p o bs :
  Inv w ss → s ∈ ss → owned w s !! k = Some p → (o + length bs ≤ psize)%nat →
  Forall Machine.is_byte bs →
  writes w (poked w p o bs) ss s (k * psize + o) bs.
Proof.
  intros HI Hs Hk Ho Hb. pose proof (inv_world _ _ HI) as Hw.
  assert (∀ s', s' ∈ ss → space_ok w s') as Hok by (apply Forall_forall, HI).
  assert (p ∈ owned w s) as Hp by (by eapply list_elem_of_lookup_2).
  assert (is_frame p) as Hf by (eapply Forall_forall; [by apply owned_frames, Hok|done]).
  split; try done.
  - destruct HI as [[? ? ? [? ? ?] ? ? ?] ? ? ? ?]. split; [split; try done; by apply poke_full| |done..].
    apply Forall_forall. intros s' Hs'. by apply (space_ok_ext w), Hok.
  - apply (view_poke (memory w) (owned w s)); [apply Hw|by apply owned_frames, Hok|by eapply owned_nodup|done|done].
  - intros s' Hs' Hne. apply (view_poke_other (memory w) (owned w s')); [by apply owned_frames, Hok|done| |done].
    by apply (owned_disjoint w ss s s'); auto.
Qed.

(** Marking an entry as used. *)
Definition mark (w : world A) (s : AddrSpace) (k : nat) (e : Machine.TranslationEntry) : world A :=
  put_entry w (pageTable s) (table_of w s) k (Machine.touched e false).

Lemma table_of_put w s s' t' :
  table_of (set_tables w (<[pageTable s := t']> (tables w))) s' =
  if decide (pageTable s' = pageTable s) then t' else table_of w s'.
Proof.
  unfold table_of; simpl. case_decide as E; [by rewrite E, lookup_insert_eq|].
  by rewrite lookup_insert_ne.
Qed.

(** A table replaced by one that maps the same pages the same way. *)
Lemma remap w ss s t' :
  Inv w ss → s ∈ ss → Forall2 Machine.same_mapping (table_of w s) t' →
  Inv (set_tables w (<[pageTable s := t']> (tables w))) ss ∧
  ∀ s', owned (set_tables w (<[pageTable s := t']> (tables w))) s' = owned w s'.
Proof.
  intros HI Hs Hsim. set (w' := set_tables w _).
  assert (∀ s', owned w' s' = owned w s') as Hown.
  { intros s'. unfold owned, w'. rewrite table_of_put. case_decide as E; [|done].
    unfold table_of at 1. rewrite E. fold (table_of w s). symmetry.
    clear -Hsim. induction Hsim as [|e e' t t' (_ & Hp & _) _ IH]; csimpl; [done|]. by rewrite Hp, IH. }
  split; [|done].
  assert (∀ s', s' ∈ ss → space_ok w' s') as Hok.
  { intros s' Hs'. pose proof (proj1 (Forall_forall _ _) (inv_spaces _ _ HI) s' Hs') as [Hsome Hlen He].
    split; unfold w'; rewrite ?table_of_put; simpl.
    - destruct (decide (pageTable s' = pageTable s)) as [E|];
        [by rewrite E, lookup_insert_eq|by rewrite lookup_insert_ne].
    - case_decide as E; [|done]. rewrite <- (Forall2_length _ _ _ Hsim).
      unfold table_of in Hlen |- *. by rewrite <- E.
    - case_decide as E; [|done]. unfold table_of in He, Hsim. rewrite E in He.
      clear -Hsim He. induction Hsim as [|e e' t t' (_ & Hp & Hv & Hr) _ IH]; [done|].
      apply Forall_cons in He as [(? & ? & ?) ?]. constructor; [|by apply IH].
      unfold entry_ok. by rewrite Hp, Hv, Hr. }
  pose proof (bind_ext_in (owned w') (owned w) ss (λ s' _, Hown s')) as Hb.
  pose proof HI as [[? ? ? ? ? ? Htab] ? ? ? ?]. split.
  - split; simpl; try done. intros q u. destruct (decide (q = pageTable s)) as [->|].
    + intros _. pose proof (proj1 (Forall_forall _ _) (inv_spaces _ _ HI) s Hs) as [[u' Hu'] _ _].
      by eapply Htab.
    + rewrite lookup_insert_ne by done. apply Htab.
  - by apply Forall_forall.
  - done.
  - by rewrite Hb.
  - by rewrite Hb.
Qed.

Lemma mark_writes w ss s k e :
  Inv w ss → s ∈ ss → table_of w s !! k = Some e → ∀ va, writes w (mark w s k e) ss s va [].
Proof.
  intros HI Hs Hk va. destruct (remap w ss s (<[k := Machine.touched e false]> (table_of w s)))
    as [HI' Hown]; [done|done| |].
  { rewrite <- (list_insert_id _ _ _ Hk) at 1. by apply Forall2_insert. }
  split; [done|intros; apply Hown| | |done| |done..].
  - unfold contents, mark. by rewrite Hown.
  - intros s' ??. unfold contents, mark. by rewrite Hown.
  - by destruct w as [? [] ? ? ?].
Qed.

(** ** Translation and loading *)

(** The page and the offset of a virtual address. *)
Definition page_of (va : Z) : nat := Z.to_nat (va / Machine.PageSize).

Definition offset_of (va : Z) : nat := Z.to_nat (va mod Machine.PageSize).

Lemma page_offset va :
  0 ≤ va → va = Z.of_nat (page_of va) * Machine.PageSize + Z.of_nat (offset_of va) ∧
           (offset_of va < psize)%nat ∧ Z.to_nat va = (page_of va * psize + offset_of va)%nat.
Proof.
  intros Hva. unfold page_of, offset_of. frames. pose proof (Z.div_mod va 128).
  pose proof (Z.mod_pos_bound va 128). pose proof (Z.div_pos va 128). lia.
Qed.

Lemma Translate_ok w s va :
  space_ok w s → is_s32 va → 0 ≤ va < numPages s * Machine.PageSize →
  ∃ e, table_of w s !! page_of va = Some e ∧ entry_ok e ∧
    Translate w s va =
      Ok (Machine.physicalPage e * Machine.PageSize + Z.of_nat (offset_of va),
          mark w s (page_of va) e).
Proof.
  intros [[t Ht] Hl He] Hs32 Hva. destruct (page_offset va ltac:(lia)) as (Hsplit & Hoff & _).
  unfold table_of in *. rewrite Ht in *. simpl in *.
  assert (page_of va < length t)%nat as Hk by (frames; lia).
  destruct (lookup_lt_is_Some_2 t _ Hk) as [e Hte]. exists e.
  pose proof (proj1 (Forall_lookup _ _) He _ _ Hte) as Hok. destruct Hok as (Hv & Hr & Hf).
  split_and!; [done|by split_and!|]. unfold Translate. destruct (Z.ltb_spec va 0); [lia|].
  assert (Z.quot va Machine.PageSize = Z.of_nat (page_of va) ∧
          Z.rem va Machine.PageSize = Z.of_nat (offset_of va)) as [-> ->].
  { unfold page_of, offset_of. rewrite Z.quot_div_nonneg, Z.rem_mod_nonneg by (frames; lia).
    pose proof (Z.div_pos va Machine.PageSize). pose proof (Z.mod_pos_bound va Machine.PageSize).
    frames. lia. }
  rewrite u32_id by (unfold is_u32, is_s32 in *; frames; lia). rewrite Z.geb_leb.
  destruct (Z.leb_spec (numPages s) (Z.of_nat (page_of va))); [lia|].
  rewrite (get_entry_ok _ _ _ _ _ Ht Hte). run_ok. rewrite Hv. cbn [negb].
  rewrite (set_entry_ok _ _ t) by done. run_ok. do 2 f_equal.
  - destruct (frame_s32 _ (Z.of_nat (offset_of va)) Hf) as [-> ->]; [frames; lia|done].
  - unfold mark, Machine.touched, table_of. by rewrite Ht, Hv.
Qed.

Lemma Translate_outside w s va :
  0 ≤ numPages s → is_s32 va → ¬ (0 ≤ va < numPages s * Machine.PageSize) →
  Translate w s va = Ok (-1, w).
Proof.
  intros Hn Hs32 Hva. unfold Translate. destruct (Z.ltb_spec va 0); [done|].
  rewrite Z.quot_div_nonneg by (frames; lia).
  assert (numPages s ≤ va / Machine.PageSize) by (frames; apply Z.div_le_lower_bound; lia).
  assert (va / Machine.PageSize ≤ va) by (frames; apply Z.div_le_upper_bound; lia).
  rewrite u32_id by (unfold is_u32, is_s32 in *; lia). rewrite Z.geb_leb.
  destruct (Z.leb_spec (numPages s) (va / Machine.PageSize)); [done|lia].
Qed.

(** A segment of fewer bytes than a page is copied in one piece, so it must lie
    in one page; a longer one may begin anywhere. *)
Definition one_piece (va n : Z) : Prop :=
  n < Machine.PageSize → va mod Machine.PageSize + n ≤ Machine.PageSize.

Lemma ReadFile_loop_ok fuel w ss s buf va off left :
  Inv w ss → s ∈ ss → Forall Machine.is_byte buf →
  0 ≤ va → 0 ≤ left → va + left ≤ numPages s * Machine.PageSize → va + left < 2 ^ 31 →
  0 ≤ off → off + left ≤ Z.of_nat (length buf) →
  one_piece va left → left ≤ Z.of_nat fuel →
  ∃ w', ReadFile_loop fuel w s buf va off left = Ok (off + left, w') ∧
    writes w w' ss s (Z.to_nat va) (take (Z.to_nat left) (drop (Z.to_nat off) buf)).
Proof.
  intros HI Hs Hb. revert w va off left HI.
  induction fuel as [|fuel IH]; intros w va off left HI Hva Hleft Hend H32 Hdone Hbuf Hone Hfuel;
    cbn [ReadFile_loop]; rewrite Z.gtb_ltb; destruct (Z.ltb_spec 0 left).
  1: lia.
  1,3: exists w; replace left with 0 by lia; rewrite Z.add_0_r; split; [done|];
       by apply writes_nil.
  assert (space_ok w s) as Hok by (by apply (proj1 (Forall_forall _ _) (inv_spaces _ _ HI))).
  destruct (page_offset va Hva) as (Hsplit & Hoff & Hnat).
  destruct (Translate_ok w s va Hok) as (e & Hte & He & ->); [unfold is_s32; lia|lia|]. run_ok.
  set (n := if left <? Machine.PageSize then left else Machine.PageSize - Z.rem va Machine.PageSize).
  assert (0 < n ≤ left ∧ Z.of_nat (offset_of va) + n ≤ Machine.PageSize ∧
          one_piece (va + n) (left - n)) as (Hn & Hfit & Hone').
  { unfold n, one_piece in *. rewrite Z.rem_mod_nonneg by (frames; lia).
    pose proof (Z.mod_pos_bound va Machine.PageSize). unfold offset_of.
    pose proof (Z.mod_pos_bound (va + left) Machine.PageSize).
    destruct (Z.ltb_spec left Machine.PageSize); [split_and!; frames; lia|].
    split_and!; [frames; lia..|]. intros Hlt.
    replace (va + _) with ((va / Machine.PageSize + 1) * Machine.PageSize)
      by (pose proof (Z.div_mod va Machine.PageSize); frames; lia).
    rewrite Z.mod_mul by (frames; lia). frames. lia. }
  destruct He as (Hv & Hr & Hf).
  rewrite Z.geb_leb. destruct (Z.leb_spec 0 (Machine.physicalPage e * Machine.PageSize +
    Z.of_nat (offset_of va))); [|frames; lia]. run_ok.
  rewrite Machine.load_bytes_ok by lia. run_ok.
  set (bs := take (Z.to_nat n) (drop (Z.to_nat off) buf)).
  assert (length bs = Z.to_nat n) as Hlbs by (unfold bs; rewrite length_take, length_drop; lia).
  assert (Forall Machine.is_byte bs) as Hbbs by (by apply Forall_take, Forall_drop).
  pose proof (mark_writes w ss s _ _ HI Hs Hte (Z.to_nat va)) as Hm.
  rewrite store_memory_ok; [|apply HI|done|frames; lia]. run_ok.
  set (w1 := mark w s (page_of va) e) in *.
  assert (owned w1 s !! page_of va = Some (Machine.physicalPage e)) as Hown.
  { rewrite (wr_owned _ _ _ _ _ _ Hm s Hs). unfold owned. by rewrite list_lookup_fmap, Hte. }
  pose proof (poked_writes w1 ss s _ _ (offset_of va) bs (wr_inv _ _ _ _ _ _ Hm) Hs Hown
                ltac:(frames; lia) Hbbs) as Hp.
  rewrite <- Hnat in Hp.
  assert (writes w (poked w1 (Machine.physicalPage e) (offset_of va) bs) ss s (Z.to_nat va) bs) as Hp'
    by (by eapply writes_trans).
  destruct (IH _ (va + n) (off + n) (left - n) (wr_inv _ _ _ _ _ _ Hp'))
    as (w' & E & Hw'); [lia..|done|lia|].
  exists w'. split; [rewrite E; do 2 f_equal; lia|].
  eapply writes_trans; [done|exact Hp'|exact Hw'|].
  replace (Z.to_nat (va + n)) with (Z.to_nat va + Z.to_nat n)%nat by lia.
  replace (Z.to_nat (off + n)) with (Z.to_nat off + Z.to_nat n)%nat by lia.
  replace (Z.to_nat left) with (Z.to_nat n + Z.to_nat (left - n))%nat by lia.
  rewrite <- drop_drop. unfold bs. apply inserts_seq. rewrite length_drop. lia.
Qed.

(** What must hold of a segment for it to be loaded into [n] pages. *)
Definition segment_loads (n : Z) (file : list Z) (seg : Segment) : Prop :=
  0 < size seg →
  0 ≤ virtualAddr seg ∧ virtualAddr seg + size seg ≤ n * Machine.PageSize ∧
  one_piece (virtualAddr seg) (size seg) ∧
  0 ≤ inFileAddr seg ∧ inFileAddr seg + size seg ≤ Z.of_nat (length file).

(** The bytes of a segment, and memory with the segment in place. *)
Definition segment_bytes (file : list Z) (seg : Segment) : list Z :=
  take (Z.to_nat (size seg)) (drop (Z.to_nat (inFileAddr seg)) file).

Definition overlay (file : list Z) (seg : Segment) (mem : list Z) : list Z :=
  list_inserts (Z.to_nat (virtualAddr seg)) (segment_bytes file seg) mem.

(** The memory of a program that has just been loaded: the two segments of the
    file over zeros. *)
Definition image (file : list Z) (h : NoffHeader) (n : Z) : list Z :=
  overlay file (initData h) (overlay file (code h) (replicate (Z.to_nat (n * Machine.PageSize)) 0)).

Lemma numPages_range w ss s : Inv w ss → s ∈ ss → 0 ≤ numPages s ≤ Machine.NumPhysPages.
Proof.
  intros HI Hs. pose proof (proj1 (Forall_forall _ _) (inv_spaces _ _ HI) s Hs) as Hok.
  pose proof (frames_at_most _ (owned_nodup _ _ _ HI Hs) (owned_frames _ _ Hok)) as Hle.
  destruct Hok as [_ Hl _]. unfold owned in Hle. rewrite length_fmap in Hle. lia.
Qed.

Lemma image_pages_nonneg h : 0 ≤ divRoundUp (image_size h) Machine.PageSize.
Proof. apply divRoundUp_nonneg; [apply u32_range|done]. Qed.

Lemma fresh_entries_make i n : makes_entries (fresh_entry <$> seqZ i n).
Proof. apply Forall_fmap, Forall_true. intros k p Hp. by split. Qed.

(** ** Copying and releasing *)

(** The order in which the address spaces are listed does not matter. *)
#[global] Instance bind_owned_proper w : Proper ((≡ₚ) ==> (≡ₚ)) (λ ss, ss ≫= owned w).
Proof. intros ss ss' Hss. by rewrite Hss. Qed.

#[global] Instance Inv_proper w : Proper ((≡ₚ) ==> iff) (Inv w).
Proof.
  assert (∀ ss ss', ss ≡ₚ ss' → Inv w ss → Inv w ss') as Hone.
  { intros ss ss' Hss [? ? ? ? Hu]. split; [done|by rewrite <- Hss|by rewrite <- Hss|..].
    - by rewrite <- (bind_owned_proper w _ _ Hss).
    - rewrite Hu. apply list_to_set_perm_L, (bind_owned_proper w _ _ Hss). }
  intros ss ss' Hss. split; by apply Hone.
Qed.

(** A memory manager that has the same frames in use. *)
Lemma inv_manager w ss mm :
  Inv w ss → ready mm → pages mm = Machine.NumPhysPages → frames mm = frames (memoryManager w) →
  Inv (set_memoryManager w mm) ss.
Proof.
  intros [[] Hok ? ? Hu] ? ? Hf. split; [done| |done|done|exact (eq_trans Hf Hu)].
  eapply Forall_impl; [exact Hok|]. intros s. by apply space_ok_ext.
Qed.

Lemma copy_entries_make t : Forall entry_ok t → makes_entries (copy_entry <$> t).
Proof.
  intros He. apply Forall_fmap. eapply Forall_impl; [exact He|]. intros e (? & ? & _) p Hp. by split.
Qed.

Lemma ReleasePhysicalMemory_loop_ok n w ptr t i :
  wf_world w → tables w !! ptr = Some t → (i + n = length t)%nat → Forall entry_ok t →
  ∃ mm, ReleasePhysicalMemory_loop n w ptr (Z.of_nat i) = Ok (set_memoryManager w mm) ∧
    ready mm ∧ pages mm = Machine.NumPhysPages ∧
    frames mm = frames (memoryManager w) ∖ list_to_set (Machine.physicalPage <$> drop i t).
Proof.
  revert w i. induction n as [|n IH]; intros w i Hw Ht Hi He.
  { exists (memoryManager w). rewrite drop_ge by lia. split_and!; [by destruct w|apply Hw|apply Hw|set_solver]. }
  destruct (lookup_lt_is_Some_2 t i) as [e Hte]; [lia|].
  pose proof (proj1 (Forall_lookup _ _) He _ _ Hte) as (_ & _ & Hf).
  destruct (clearPage_law (memoryManager w) (Machine.physicalPage e) (ww_ready _ Hw))
    as (mm & E & Hr & Hp & Hfr); [rewrite (ww_pages _ Hw); apply Hf|].
  rewrite (ww_pages _ Hw) in Hp.
  destruct (IH (set_memoryManager w mm) (S i)) as (mm' & E' & Hr' & Hp' & Hf').
  { by destruct Hw. } { done. } { lia. } { done. }
  exists mm'. split_and!; [|done|done|].
  - cbn [ReleasePhysicalMemory_loop]. rewrite (get_entry_ok _ _ _ _ _ Ht Hte). run_ok.
    destruct (frame_s32 _ 0 Hf) as [-> _]; [frames; lia|]. rewrite E. run_ok.
    replace (Z.of_nat i + 1) with (Z.of_nat (S i)) by lia. exact E'.
  - rewrite Hf'. simpl. rewrite Hfr, (drop_S _ _ _ Hte). csimpl. set_solver.
Qed.

(** Releasing the frames of an address space and deleting its page table. *)
Lemma release_ok w s ss :
  Inv w (s :: ss) →
  ∃ w1 w2, ReleasePhysicalMemory w s = Ok w1 ∧ delete_table w1 (pageTable s) = Ok w2 ∧
    Inv w2 ss ∧ untouched w w2 ss ∧ machine w2 = machine w ∧ next w2 = next w ∧
    pageTablePtr w2 = pageTablePtr w ∧
    frames (memoryManager w2) = frames (memoryManager w) ∖ list_to_set (owned w s).
Proof.
  intros HI. pose proof (inv_world _ _ HI) as Hw.
  pose proof (Forall_inv (inv_spaces _ _ HI)) as [[t Ht] Hl He].
  unfold table_of in Hl, He. rewrite Ht in Hl, He. simpl in Hl, He.
  destruct (ReleasePhysicalMemory_loop_ok (Z.to_nat (numPages s)) w (pageTable s) t 0)
    as (mm & E & Hr & Hp & Hf); [done|done|lia|done|]. rewrite drop_0 in Hf.
  assert (owned w s = Machine.physicalPage <$> t) as Hown by (unfold owned, table_of; by rewrite Ht).
  rewrite <- Hown in Hf.
  pose proof (inv_tables _ _ HI) as Hnd. csimpl in Hnd. apply NoDup_cons in Hnd as [Hnin Hnd].
  pose proof (inv_frames _ _ HI) as Hfr. rewrite bind_cons in Hfr.
  apply NoDup_app in Hfr as (_ & Hdisj & Hfr).
  set (w2 := set_tables (set_memoryManager w mm) (delete (pageTable s) (tables w))).
  assert (∀ s', s' ∈ ss → tables w2 !! pageTable s' = tables w !! pageTable s') as Hsame.
  { intros s' Hin. apply lookup_delete_ne. intros Heq. apply Hnin. rewrite Heq.
    by apply list_elem_of_fmap_2. }
  pose proof (bind_ext_in (owned w2) (owned w) ss (λ s' Hin, owned_ext w w2 s' (Hsame s' Hin))) as Hb.
  exists (set_memoryManager w mm), w2. split_and!; [done| | | |done|done|done|done].
  - unfold delete_table. by rewrite (find_table _ _ t).
  - split.
    + destruct Hw as [? ? ? ? ? ? Htab]. split; try done. intros q u Hq.
      simpl in Hq. apply lookup_delete_Some in Hq as [_ Hq]. by eapply Htab.
    + apply Forall_forall. intros s' Hin. apply (space_ok_ext w); [by apply Hsame|].
      apply (proj1 (Forall_forall _ _) (inv_spaces _ _ HI)). set_solver.
    + done.
    + by rewrite Hb.
    + rewrite Hb. simpl. rewrite Hf, (inv_used _ _ HI), bind_cons, list_to_set_app_L.
      apply set_eq. intros p. rewrite elem_of_difference, elem_of_union, !elem_of_list_to_set.
      specialize (Hdisj p). tauto.
  - intros s' Hin. pose proof (owned_ext w w2 s' (Hsame s' Hin)) as Ho. split; [done|].
    unfold contents. by rewrite Ho.
Qed.

(** ** User programs *)

Lemma inv_machine w ss m :
  Inv w ss → Machine.wf_regs m → full (Machine.mainMemory m) → Machine.tlb m = None →
  Inv (set_machine w m) ss.
Proof.
  intros [[] Hok ? ? ?] ? ? ?. split; [done| |done..].
  eapply Forall_impl; [exact Hok|]. intros s. by apply space_ok_ext.
Qed.

(** The address space whose table the machine uses. *)
Definition running (w : world A) (s : AddrSpace) : Prop :=
  pageTablePtr w = pageTable s ∧ Machine.pageTableSize (machine w) = numPages s.

Lemma hardware_ok w ss s :
  Inv w ss → s ∈ ss → running w s →
  hardware w = Ok (Machine.set_pageTable (machine w) (Some (table_of w s))) ∧
  Machine.wfm (Machine.set_pageTable (machine w) (Some (table_of w s))).
Proof.
  intros HI Hs [Hptr Hsize]. pose proof (inv_world _ _ HI) as Hw.
  pose proof (proj1 (Forall_forall _ _) (inv_spaces _ _ HI) s Hs) as [[t Ht] Hl _].
  unfold table_of in *. rewrite Ht in *. simpl in *. split.
  - unfold hardware. rewrite Hptr. pose proof (ww_tables _ Hw _ _ Ht).
    destruct (Z.eqb_spec (pageTable s) Threads.NULL) as [E|]; [unfold Threads.NULL in E; lia|].
    by rewrite (find_table _ _ _ Ht).
  - split; [by destruct Hw as [? ? ? [] ? ? ?]|]. split; simpl; [apply Hw|apply Hw|].
    rewrite (ww_tlb _ Hw). lia.
Qed.

Lemma RestoreState_ok w ss s : Inv w ss → Inv (RestoreState w s) ss ∧ running (RestoreState w s) s.
Proof.
  intros [[? ? ? [? ? ?] ? ? ?] Hok ? ? ?]. split; [|done]. split; [done| |done..].
  eapply Forall_impl; [exact Hok|]. intros u. by apply space_ok_ext.
Qed.

Lemma RestoreState_contents w s s' : contents (RestoreState w s) s' = contents w s'.
Proof. done. Qed.

(** The frames of others are not writable for a program. *)
Lemma not_writable w ss s s' q k :
  Inv w ss → s ∈ ss → s' ∈ ss → s ≠ s' → q ∈ owned w s' → (k < psize)%nat →
  ¬ Machine.writable (Machine.set_pageTable (machine w) (Some (table_of w s))) (frame_at q + k).
Proof.
  intros HI Hs Hs' Hne Hq Hk (e & He & _ & _ & Ha).
  unfold Machine.entries in He. simpl in He. rewrite (ww_tlb _ (inv_world _ _ HI)) in He. simpl in He.
  assert (is_frame q) as Hfq.
  { eapply Forall_forall; [|exact Hq]. apply owned_frames.
    by apply (proj1 (Forall_forall _ _) (inv_spaces _ _ HI)). }
  assert (entry_ok e) as (_ & _ & Hfe).
  { eapply Forall_forall; [|exact He]. by apply (proj1 (Forall_forall _ _) (inv_spaces _ _ HI)). }
  rewrite (proj1 (frame_u32 _ Hfe)) in Ha.
  assert (q = Machine.physicalPage e) as ->.
  { rewrite <- Ha. apply Z.div_unique with (r := Z.of_nat k); frames; lia. }
  eapply owned_disjoint; [exact HI|exact Hs|exact Hs'|done| |exact Hq].
  by apply (list_elem_of_fmap_2 Machine.physicalPage).
Qed.

Lemma after_hardware_ok w s ss m :
  Inv w (s :: ss) → running w s →
  let m0 := Machine.set_pageTable (machine w) (Some (table_of w s)) in
  Machine.wfm m → Machine.confined m0 m →
  Inv (after_hardware w m) (s :: ss) ∧ running (after_hardware w m) s ∧
  untouched w (after_hardware w m) ss.
Proof.
  intros HI [Hptr Hsize] m0 [Hr Hm] Hcf. pose proof (inv_world _ _ HI) as Hw.
  assert (s ∈ s :: ss) as Hs by set_solver.
  assert (Machine.tlb m = None) as Htlb.
  { apply eq_None_not_Some. intros Hsome%(proj2 (Machine.cf_tlb _ _ Hcf)).
    simpl in Hsome. rewrite (ww_tlb _ Hw) in Hsome. by destruct Hsome. }
  destruct (proj1 (Machine.cf_table _ _ Hcf)) as [t' Ht']; [by eexists|].
  pose proof (Machine.cf_entries _ _ Hcf) as Hsim. unfold Machine.entries in Hsim.
  rewrite Htlb, Ht' in Hsim. simpl in Hsim. rewrite (ww_tlb _ Hw) in Hsim. simpl in Hsim.
  set (w1 := set_machine w (Machine.set_pageTable m None)).
  assert (Inv w1 (s :: ss)) as HI1.
  { apply inv_machine; [done|by destruct Hr|by destruct Hm|done]. }
  destruct (remap w1 (s :: ss) s t' HI1 Hs Hsim) as [HI2 Hown].
  assert (after_hardware w m = set_tables w1 (<[pageTable s := t']> (tables w1))) as ->.
  { unfold after_hardware. rewrite Ht', Hptr. done. }
  split_and!; [done|split; [done|]; simpl; by rewrite (Machine.cf_size _ _ Hcf)|].
  intros s' Hs'. split; [apply Hown|]. unfold contents. rewrite Hown. apply view_ext. intros q Hq.
  assert (s ≠ s') as Hne.
  { pose proof (inv_tables _ _ HI) as Hnd. csimpl in Hnd. apply NoDup_cons in Hnd as [Hnin _].
    intros ->. apply Hnin. by apply list_elem_of_fmap_2. }
  apply frame_bytes_ext. intros k Hk. apply (Machine.cf_memory _ _ Hcf).
  eapply not_writable; [done|exact Hs| |done|done|done]. set_solver.
Qed.

(** ** Strings in user memory *)

(** The string [name] with its terminator is at [va] of [mem]. *)
Definition string_at (mem : list Z) (va : nat) (name : list Z) : Prop :=
  Forall (λ b, b ≠ 0) name ∧ ∀ i b, (name ++ [0]) !! i = Some b → mem !! (va + i)%nat = Some b.

Lemma string_at_cons mem va b name :
  string_at mem va (b :: name) → mem !! va = Some b ∧ b ≠ 0 ∧ string_at mem (S va) name.
Proof.
  intros [Hnz Hs]. apply Forall_cons in Hnz as [Hb Hnz]. split_and!.
  - rewrite <- (Nat.add_0_r va). by apply (Hs 0%nat).
  - done.
  - split; [done|]. intros i c Hi. replace (S va + i)%nat with (va + S i)%nat by lia. by apply (Hs (S i)).
Qed.

(** The end of the memory of a program. *)
Lemma contents_length w ss s :
  Inv w ss → s ∈ ss → Z.of_nat (length (contents w s)) = numPages s * Machine.PageSize.
Proof.
  intros HI Hs. pose proof (proj1 (Forall_forall _ _) (inv_spaces _ _ HI) s Hs) as Hok.
  unfold contents. rewrite view_length by (apply HI || by apply owned_frames).
  destruct Hok as [_ Hl _]. unfold owned. rewrite length_fmap. frames. lia.
Qed.

(** The byte a program has at a virtual address is the one the translated
    address has. *)
Lemma read_byte w ss s va b :
  Inv w ss → s ∈ ss → 0 ≤ va → contents w s !! Z.to_nat va = Some b →
  ∃ pa w', Translate w s va = Ok (pa, w') ∧ 0 ≤ pa ∧ aget (memory w') pa = Ok b ∧
           writes w w' ss s 0 [] ∧ s32 (va + 1) = va + 1.
Proof.
  intros HI Hs Hva Hb. pose proof (contents_length w ss s HI Hs) as Hlen.
  pose proof (lookup_lt_Some _ _ _ Hb) as Hlt. pose proof (numPages_range _ _ _ HI Hs) as Hn.
  pose proof (proj1 (Forall_forall _ _) (inv_spaces _ _ HI) s Hs) as Hok.
  destruct (Translate_ok w s va Hok) as (e & Hte & (Hv & Hr & Hf) & E);
    [unfold is_s32; frames; lia|lia|].
  destruct (page_offset va Hva) as (_ & Hoff & Hnat).
  assert (owned w s !! page_of va = Some (Machine.physicalPage e)) as Hk
    by (unfold owned; by rewrite list_lookup_fmap, Hte).
  unfold contents in Hb. rewrite Hnat in Hb. erewrite view_lookup in Hb;
    [|apply HI|by apply owned_frames|exact Hk|done].
  eexists _, _. split_and!; [exact E|frames; lia| |by apply mark_writes|].
  - apply aget_Some; [frames; lia|]. rewrite <- Hb. simpl. f_equal. frames. lia.
  - apply s32_id. unfold is_s32. frames. lia.
Qed.

Lemma ReadFileName_loop_ok name : ∀ fuel w ss s va buf c pos,
  Inv w ss → s ∈ ss → c ≠ 0 → 0 ≤ va → 0 ≤ pos → string_at (contents w s) (Z.to_nat va) name →
  pos + Z.of_nat (length name) < Z.of_nat (length buf) → (length name < fuel)%nat →
  ∃ w', ReadFileName_loop fuel w s va buf c pos (Z.of_nat (length buf)) =
          Ok (pos + Z.of_nat (length name) + 1, list_inserts (Z.to_nat pos) (name ++ [0]) buf, w') ∧
        writes w w' ss s 0 [].
Proof.
  induction name as [|b name IH]; intros fuel w ss s va buf c pos HI Hs Hc Hva Hpos Hstr Hfit Hfuel;
    (destruct fuel as [|fuel]; [simpl in Hfuel; lia|]); simpl in Hfit, Hfuel;
    cbn [ReadFileName_loop]; (destruct (Z.eqb_spec c 0) as [|_]; [done|]);
    (destruct (Z.ltb_spec pos (Z.of_nat (length buf))); [|lia]); cbn [negb andb].
  - destruct Hstr as [_ Hstr]. pose proof (Hstr 0%nat 0 eq_refl) as Hz. rewrite Nat.add_0_r in Hz.
    destruct (read_byte w ss s va 0 HI Hs Hva Hz) as (pa & w' & -> & Hpa & Hg & Hw & _). run_ok.
    destruct (Z.ltb_spec pa 0); [lia|]. rewrite Hg. run_ok. rewrite aset_ok by lia. run_ok.
    exists w'. split; [|done]. simpl. rewrite Z.add_0_r. by destruct fuel.
  - apply string_at_cons in Hstr as (Hb & Hnz & Hstr).
    destruct (read_byte w ss s va b HI Hs Hva Hb) as (pa & w1 & -> & Hpa & Hg & Hw & ->). run_ok.
    destruct (Z.ltb_spec pa 0); [lia|]. rewrite Hg. run_ok. rewrite aset_ok by lia. run_ok.
    destruct (IH fuel w1 ss s (va + 1) (<[Z.to_nat pos := b]> buf) b (pos + 1))
      as (w' & E & Hw'); try done; try lia.
    { apply Hw. }
    { rewrite (wr_contents _ _ _ _ _ _ Hw). by replace (Z.to_nat (va + 1)) with (S (Z.to_nat va)) by lia. }
    { rewrite length_insert. lia. }
    rewrite length_insert in E. exists w'. rewrite E. split; [|by eapply writes_trans].
    do 3 f_equal; [cbn [length]; lia|]. replace (Z.to_nat (pos + 1)) with (S (Z.to_nat pos)) by lia.
    simpl. symmetry. apply list_insert_inserts_lt. lia.
Qed.

Lemma c_string_ok name rest : Forall (λ b, b ≠ 0) name → c_string (name ++ 0 :: rest) = Ok name.
Proof.
  induction 1 as [|b name Hb _ IH]; [done|]. simpl. rewrite IH.
  destruct (Z.eqb_spec b 0); [done|]. by run_ok.
Qed.

(** ** Starting a program *)

Lemma WriteRegister_ok m i v :
  length (Machine.registers m) = Z.to_nat Machine.NumTotalRegs → 0 ≤ i < Machine.NumTotalRegs →
  Machine.WriteRegister m i v =
  Ok (Machine.set_registers m (<[Z.to_nat i := u32 v]> (Machine.registers m))).
Proof.
  intros Hl Hi. unfold Machine.WriteRegister.
  destruct (Z.geb_spec i 0); [|lia]. destruct (Z.ltb_spec i Machine.NumTotalRegs); [|lia]. run_ok.
  rewrite aset_ok by (rewrite Hl; lia). by run_ok.
Qed.

Lemma clear_registers_ok n m i :
  (i + n)%nat = Z.to_nat Machine.NumTotalRegs →
  length (Machine.registers m) = Z.to_nat Machine.NumTotalRegs →
  clear_registers n m (Z.of_nat i) =
  Ok (Machine.set_registers m (take i (Machine.registers m) ++ replicate n 0)).
Proof.
  revert m i. induction n as [|n IH]; intros m i Hi Hl; cbn [clear_registers].
  - rewrite take_ge, app_nil_r by lia. by destruct m.
  - rewrite WriteRegister_ok by (done || lia). run_ok.
    replace (Z.of_nat i + 1) with (Z.of_nat (S i)) by lia. rewrite Nat2Z.id, IH.
    + unfold Machine.set_registers; simpl. do 2 f_equal. change (u32 0) with 0.
      rewrite (take_S_r _ _ 0), take_insert_ge by (rewrite ?list_lookup_insert_eq; done || lia).
      by rewrite <- (assoc_L (++)).
    + lia.
    + simpl. by rewrite length_insert.
Qed.

(** The registers of a program that starts. *)
Definition start_registers (n : Z) : list Z :=
  <[Z.to_nat Machine.StackReg := u32 (n * Machine.PageSize - 16)]>
    (<[Z.to_nat Machine.NextPCReg := 4]> (<[Z.to_nat Machine.PCReg := 0]>
      (replicate (Z.to_nat Machine.NumTotalRegs) 0))).

Lemma InitRegisters_ok w s :
  Machine.wf_regs (machine w) →
  InitRegisters w s = Ok (set_machine w (Machine.set_registers (machine w) (start_registers (numPages s)))).
Proof.
  intros [Hl _ _]. unfold InitRegisters.
  rewrite (clear_registers_ok _ (machine w) 0) by done. run_ok.
  rewrite take_0. do 3 (rewrite WriteRegister_ok; [run_ok|done|done]).
  by rewrite u32_idem.
Qed.

Lemma start_registers_wf m n :
  Machine.wf_regs (Machine.set_registers m (start_registers n)).
Proof.
  split; cbn [Machine.registers Machine.set_registers].
  - done.
  - unfold start_registers. repeat apply Forall_insert; [|unfold is_u32; lia..|apply u32_range].
    apply Forall_replicate. unfold is_u32. lia.
  - unfold start_registers. rewrite !list_lookup_insert_ne by (vm_compute; lia).
    intros r Hr. apply lookup_replicate in Hr as [-> _]. done.
Qed.

Lemma frames_size w ss : Inv w ss → base.size (frames (memoryManager w)) = length (ss ≫= owned w).
Proof. intros HI. rewrite (inv_used _ _ HI). apply size_list_to_set, HI. Qed.

Lemma owned_length w ss s : Inv w ss → s ∈ ss → Z.of_nat (length (owned w s)) = numPages s.
Proof.
  intros HI Hs. unfold owned. rewrite length_fmap.
  by apply (proj1 (Forall_forall _ _) (inv_spaces _ _ HI)).
Qed.

Lemma frames_size_cons w w' s ss :
  Inv w (s :: ss) → Inv w' ss → untouched w w' ss →
  Z.of_nat (base.size (frames (memoryManager w'))) =
  Z.of_nat (base.size (frames (memoryManager w))) - numPages s.
Proof.
  intros HI HI' Hun. rewrite (frames_size _ _ HI), (frames_size _ _ HI'), bind_cons, length_app.
  rewrite (bind_ext_in (owned w') (owned w)) by (intros s' Hin; by apply Hun).
  pose proof (owned_length w (s :: ss) s HI ltac:(set_solver)). lia.
Qed.

Lemma image_pages_int h :
  let n := divRoundUp (image_size h) Machine.PageSize in s32 n = n ∧ u32 n = n.
Proof.
  pose proof (divRoundUp_spec (image_size h) Machine.PageSize). pose proof (u32_range
    (size (code h) + size (initData h) + size (uninitData h) + UserStackSize)) as Hu.
  pose proof (image_pages_nonneg h). unfold image_size, is_u32 in *. simpl.
  split; [apply s32_id|apply u32_id]; unfold is_s32, is_u32; frames; lia.
Qed.

End laws.

(** ** New page tables *)
Section tables.
Context {A : Type} `{PageAllocatorLaws A} (stale_entry : Machine.TranslationEntry).
Implicit Types (w : world A) (s : AddrSpace).

(** The world of [AddrSpace(num)]: a manager that was asked for its free pages,
    and a new table. *)
Definition with_table (w : world A) (mm : A) (num : Z) : world A :=
  (new_table stale_entry (set_memoryManager w mm) num).2.

Lemma with_table_wf w mm num :
  wf_world w → ready mm → pages mm = Machine.NumPhysPages → wf_world (with_table w mm num).
Proof.
  intros [? ? ? ? ? ? Htab] Hr Hp. split; simpl; try done; [lia|].
  intros q u. destruct (decide (q = next w)) as [->|]; [lia|].
  rewrite lookup_insert_ne by done. intros Hq. apply Htab in Hq. lia.
Qed.

Lemma new_space w ss mm num w' ents cs ps pcb0 :
  Inv w ss → frames mm = frames (memoryManager w) → 0 ≤ num → length ents = Z.to_nat num →
  makes_entries ents → allocated (with_table w mm num) w' (next w) 0 ents cs ps →
  let s := mkSpace (next w) num pcb0 in
  Inv w' (s :: ss) ∧ owned w' s = ps ∧ contents w' s = mjoin cs ∧ untouched w w' ss.
Proof.
  intros HI Hmm Hnum Hle Hme [Hw' Hl Hnd Hfr Hfs (t & Ht & Htabs) Ho Hc Hm Hn Hpt] s.
  simpl in Hfr, Hfs, Ht. rewrite lookup_insert_eq in Ht. simplify_eq. rewrite Hmm in Hfr, Hfs.
  rewrite inserts_all in Htabs by (rewrite length_zip_with, length_replicate; lia).
  simpl in Htabs. rewrite insert_insert_eq in Htabs.
  assert (Forall is_frame ps) as Hps by (apply Forall_forall; intros p Hp; by apply Hfr).
  destruct (makes_entries_zip ents ps Hme Hl Hps) as [Hok Hphys].
  assert (owned w' s = ps) as Hown.
  { unfold owned, table_of. rewrite Htabs. simpl. by rewrite lookup_insert_eq. }
  assert (∀ s', s' ∈ ss → tables w' !! pageTable s' = tables w !! pageTable s') as Hsame.
  { intros s' Hin. rewrite Htabs. apply lookup_insert_ne. intros Heq.
    destruct (proj1 (Forall_forall _ _) (inv_spaces _ _ HI) s' Hin) as [[u Hu] _ _].
    apply (ww_tables _ (inv_world _ _ HI)) in Hu. lia. }
  assert (untouched w w' ss) as Hun.
  { intros s' Hin. pose proof (owned_ext w w' s' (Hsame s' Hin)) as Ho'. split; [done|].
    unfold contents. rewrite Ho'. apply view_ext. intros q Hq. apply Ho.
    - eapply Forall_forall; [|exact Hq]. apply owned_frames.
      by apply (proj1 (Forall_forall _ _) (inv_spaces _ _ HI)).
    - intros Hin'. apply Hfr in Hin' as [_ Hnu]. by eapply Hnu, owned_used. }
  assert (ss ≫= owned w' = ss ≫= owned w) as Hbind
    by (apply bind_ext_in; intros s' Hin; by apply Hun).
  split_and!; [|done| |done].
  - split.
    + done.
    + constructor.
      * split; unfold table_of; rewrite Htabs; simpl; rewrite lookup_insert_eq; simpl; [done| |done].
        rewrite length_zip_with. lia.
      * apply Forall_forall. intros s' Hin. apply (space_ok_ext w); [by apply Hsame|].
        by apply (proj1 (Forall_forall _ _) (inv_spaces _ _ HI)).
    + csimpl. constructor; [|apply HI]. intros (s' & Heq & Hin)%list_elem_of_fmap.
      destruct (proj1 (Forall_forall _ _) (inv_spaces _ _ HI) s' Hin) as [[u Hu] _ _].
      apply (ww_tables _ (inv_world _ _ HI)) in Hu. lia.
    + rewrite bind_cons, Hown, Hbind. apply NoDup_app. split_and!; [done| |apply HI].
      intros p Hp Hin. apply Hfr in Hp as [_ Hnu]. apply Hnu. rewrite (inv_used _ _ HI).
      by apply elem_of_list_to_set.
    + rewrite bind_cons, Hown, Hbind, Hfs, (inv_used _ _ HI), list_to_set_app_L. done.
  - unfold contents. rewrite Hown. apply view_join.
Qed.

(** A new table of [num] pages, filled by [InitializePageTable]. *)
Lemma initialized_space w ss mm num pcb0 :
  Inv w ss → ready mm → pages mm = Machine.NumPhysPages → frames mm = frames (memoryManager w) →
  0 ≤ num → Z.of_nat (base.size (frames (memoryManager w))) + num ≤ Machine.NumPhysPages →
  let s := mkSpace (next w) num pcb0 in
  ∃ w', InitializePageTable (with_table w mm num) s = Ok w' ∧
    Inv w' (s :: ss) ∧ contents w' s = replicate (Z.to_nat (num * Machine.PageSize)) 0 ∧
    untouched w w' ss ∧ next w' = next w + 1 ∧
    machine w' = Machine.set_mainMemory (machine w) (memory w').
Proof.
  intros HI Hr Hp Hf Hnum Hroom s.
  pose proof (with_table_wf w mm num (inv_world _ _ HI) Hr Hp) as Hw0.
  destruct (InitializePageTable_loop_ok (Z.to_nat num) (with_table w mm num) (next w)
    (replicate (Z.to_nat num) stale_entry) 0) as (w' & ps & E & Hal).
  { done. } { simpl. apply lookup_insert_eq. } { by rewrite length_replicate. }
  { simpl. rewrite Hf. lia. }
  destruct (λ Hl He, new_space w ss mm num w' _ _ ps pcb0 HI Hf Hnum Hl He Hal) as (HI' & _ & Hc & Hun).
  { by rewrite length_fmap, length_seqZ, Z2Nat.id. } { apply fresh_entries_make. }
  exists w'. split_and!; [done|done| |done|by rewrite (al_next _ _ _ _ _ _ _ Hal)|
    apply (al_machine _ _ _ _ _ _ _ Hal)].
  fold s in Hc. rewrite Hc. unfold zeros. rewrite join_zeros. f_equal. frames. lia.
Qed.

End tables.

Section copying.
Context {A : Type} `{PageAllocatorLaws A} (stale_entry : Machine.TranslationEntry) (stale_pcb : Z).
Implicit Types (w : world A) (s : AddrSpace).

Lemma copy_ok w ss s :
  Inv w ss → s ∈ ss →
  numPages s ≤ Machine.NumPhysPages - Z.of_nat (base.size (frames (memoryManager w))) →
  ∃ s' w', copy stale_entry stale_pcb w s = Ok (Some s', w') ∧ numPages s' = numPages s ∧ Inv w' (s' :: ss) ∧
           contents w' s' = contents w s ∧ untouched w w' ss ∧
           machine w' = Machine.set_mainMemory (machine w) (memory w') ∧ pageTablePtr w' = pageTablePtr w.
Proof.
  intros HI Hs Hroom. pose proof (inv_world _ _ HI) as Hw.
  destruct (getFree_law (memoryManager w) (ww_ready _ Hw)) as (mm & E & Hr & Hp & Hf).
  rewrite (ww_pages _ Hw) in *. pose proof (numPages_range _ _ _ HI Hs) as Hn.
  pose proof (proj1 (Forall_forall _ _) (inv_spaces _ _ HI) s Hs) as [[t Ht] Hl He].
  unfold table_of in Hl, He. rewrite Ht in Hl, He. simpl in Hl, He.
  pose proof (ww_tables _ Hw _ _ Ht) as Hptr.
  destruct (copy_loop_ok (Z.to_nat (numPages s)) (with_table stale_entry w mm (numPages s)) (pageTable s)
    (next w) t (replicate (Z.to_nat (numPages s)) stale_entry) 0) as (w' & ps & E' & Hal).
  { by apply with_table_wf. } { lia. } { simpl. by rewrite lookup_insert_ne by lia. }
  { simpl. apply lookup_insert_eq. } { lia. } { rewrite length_replicate. lia. }
  { apply Forall_forall. intros e Hin. simpl. rewrite Hf. split.
    - by eapply Forall_forall in He as (_ & _ & ?).
    - eapply owned_used; [done|done|]. unfold owned, table_of. rewrite Ht. simpl.
      by apply (list_elem_of_fmap_2 Machine.physicalPage). }
  { simpl. rewrite Hf. lia. }
  rewrite drop_0 in Hal.
  destruct (λ Hl He, new_space stale_entry w ss mm (numPages s) w' _ _ ps stale_pcb HI Hf (proj1 Hn) Hl He Hal)
    as (HI' & _ & Hc & Hun); [rewrite length_fmap; lia|by apply copy_entries_make|].
  exists (mkSpace (next w) (numPages s) stale_pcb), w'.
  split_and!; [|done|done| |done|exact (al_machine _ _ _ _ _ _ _ Hal)|exact (al_ptr _ _ _ _ _ _ _ Hal)].
  - unfold copy. rewrite E. run_ok. rewrite Z.gtb_ltb.
    destruct (Z.ltb_spec (Machine.NumPhysPages - Z.of_nat (base.size (frames (memoryManager w)))) (numPages s)); [lia|].
    cbn [AddrSpace_sized new_table pageTable].
    change (Z.of_nat 0) with 0 in E'. unfold with_table, new_table in E'. simpl in E' |- *.
    by rewrite E'.
  - rewrite Hc. unfold contents. rewrite view_join. unfold owned, table_of. rewrite Ht. simpl.
    by rewrite <- list_fmap_compose.
Qed.

Lemma copy_no_room w ss s :
  Inv w ss → s ∈ ss →
  Machine.NumPhysPages - Z.of_nat (base.size (frames (memoryManager w))) < numPages s →
  ∃ w', copy stale_entry stale_pcb w s = Ok (None, w') ∧ Inv w' ss ∧ untouched w w' ss ∧
        machine w' = machine w ∧ pageTablePtr w' = pageTablePtr w.
Proof.
  intros HI Hs Hroom. pose proof (inv_world _ _ HI) as Hw.
  destruct (getFree_law (memoryManager w) (ww_ready _ Hw)) as (mm & E & Hr & Hp & Hf).
  rewrite (ww_pages _ Hw) in *. exists (set_memoryManager w mm). split_and!.
  - unfold copy. rewrite E. run_ok. rewrite Z.gtb_ltb. by destruct (Z.ltb_spec
      (Machine.NumPhysPages - Z.of_nat (base.size (frames (memoryManager w)))) (numPages s)); [|lia].
  - by apply inv_manager.
  - done.
  - done.
  - done.
Qed.

End copying.

(** ** Files *)
Section files.
Context {A : Type} `{PageAllocatorLaws A} (uninit : nat → Z).
Implicit Types (w : world A) (s : AddrSpace).

Lemma ReadAt_whole file n pos :
  0 ≤ n → 0 ≤ pos → pos + n ≤ Z.of_nat (length file) →
  ReadAt file (buffer uninit n) n pos = Ok (take (Z.to_nat n) (drop (Z.to_nat pos) file)).
Proof.
  intros Hn Hpos Hlen. unfold ReadAt. rewrite Z.geb_leb. destruct (Z.leb_spec 0 pos); [|lia]. run_ok.
  rewrite inserts_all; [done|]. unfold buffer.
  rewrite length_fmap, length_seq, length_take, length_drop. lia.
Qed.

Lemma load_segment_ok w ss s file seg :
  Inv w ss → s ∈ ss → Forall Machine.is_byte file → segment_loads (numPages s) file seg →
  ∃ w', load_segment uninit w s file seg = Ok w' ∧
    writes w w' ss s (Z.to_nat (virtualAddr seg)) (segment_bytes file seg).
Proof.
  intros HI Hs Hb Hseg. unfold load_segment. rewrite Z.gtb_ltb. destruct (Z.ltb_spec 0 (size seg)).
  - destruct Hseg as (Hva & Hend & Hone & Hfa & Hfile); [done|].
    pose proof (numPages_range _ _ _ HI Hs) as Hn.
    unfold ReadFile. rewrite ReadAt_whole by lia. run_ok.
    destruct (ReadFile_loop_ok (Z.to_nat (size seg)) w ss s (segment_bytes file seg)
      (virtualAddr seg) 0 (size seg)) as (w' & E & Hw); try done; try (frames; lia).
    + by apply Forall_take, Forall_drop.
    + unfold segment_bytes. rewrite length_take, length_drop. lia.
    + exists w'. fold (segment_bytes file seg). rewrite E. run_ok. split; [done|].
      rewrite drop_0, take_ge in Hw; [done|]. unfold segment_bytes. rewrite length_take. lia.
  - exists w. split; [done|]. unfold segment_bytes.
    replace (Z.to_nat (size seg)) with 0%nat by lia. by apply writes_nil.
Qed.

(** Both segments, one after the other. *)
Lemma load_segments_ok w ss s file h :
  Inv w ss → s ∈ ss → Forall Machine.is_byte file →
  segment_loads (numPages s) file (code h) → segment_loads (numPages s) file (initData h) →
  contents w s = replicate (Z.to_nat (numPages s * Machine.PageSize)) 0 →
  ∃ w1 w2, load_segment uninit w s file (code h) = Ok w1 ∧ load_segment uninit w1 s file (initData h) = Ok w2 ∧
    Inv w2 ss ∧ contents w2 s = image file h (numPages s) ∧
    (∀ s', s' ∈ ss → owned w2 s' = owned w s') ∧
    (∀ s', s' ∈ ss → s' ≠ s → contents w2 s' = contents w s').
Proof.
  intros HI Hs Hb Hc Hd Hz.
  destruct (load_segment_ok w ss s file (code h)) as (w1 & E1 & [? O1 C1 R1 ? ? ? ?]); try done.
  destruct (load_segment_ok w1 ss s file (initData h)) as (w2 & E2 & [? O2 C2 R2 ? ? ? ?]); try done.
  exists w1, w2. split_and!; try done.
  - rewrite C2, C1, Hz. done.
  - intros s' Hs'. by rewrite O2, O1.
  - intros s' Hs' Hne. by rewrite R2, R1.
Qed.

(** [Replace] finds the name that the program put into its memory. *)
Lemma ReadFileName_ok w ss s va name :
  Inv w ss → s ∈ ss → 0 ≤ va → string_at (contents w s) (Z.to_nat va) name →
  Z.of_nat (length name) < 128 →
  ∃ w' fileName, ReadFileName w s va (buffer uninit 128) 128 =
      Ok (Z.of_nat (length name) + 1, fileName, w') ∧
    c_string fileName = Ok name ∧ writes w w' ss s 0 [].
Proof.
  intros HI Hs Hva Hstr Hlen.
  assert (Z.of_nat (length (buffer uninit 128)) = 128) as Hb
    by (unfold buffer; rewrite length_fmap, length_seq; done).
  destruct (ReadFileName_loop_ok name 128 w ss s va (buffer uninit 128) 48 0) as (w' & E & Hw); try done; try lia.
  rewrite Hb in E. exists w', (list_inserts 0 (name ++ [0]) (buffer uninit 128)). split_and!; [exact E| |done].
  rewrite inserts_prefix by (rewrite length_app; simpl; lia).
  rewrite <- (assoc_L (++)). apply c_string_ok, Hstr.
Qed.

End files.

Section programs.
Context {A : Type} `{PageAllocatorLaws A} (HOST_IS_BIG_ENDIAN : bool) (uninit : nat → Z)
  (stale_entry : Machine.TranslationEntry) (stale_pcb : Z).
Implicit Types (w : world A) (s : AddrSpace).

Lemma AddrSpace_new_ok w ss file h n :
  Inv w ss → read_header HOST_IS_BIG_ENDIAN uninit file = Ok h → n = divRoundUp (image_size h) Machine.PageSize →
  Forall Machine.is_byte file →
  segment_loads n file (code h) → segment_loads n file (initData h) →
  n ≤ Machine.NumPhysPages - Z.of_nat (base.size (frames (memoryManager w))) →
  ∃ s w', AddrSpace_new HOST_IS_BIG_ENDIAN uninit stale_entry stale_pcb w file = Ok (s, w') ∧ numPages s = n ∧ Inv w' (s :: ss) ∧
          contents w' s = image file h n ∧ untouched w w' ss.
Proof.
  intros HI Hh Hn Hb Hc Hd Hroom. pose proof (inv_world _ _ HI) as Hw.
  destruct (getFree_law (memoryManager w) (ww_ready _ Hw)) as (mm & E & Hr & Hp & Hf).
  rewrite (ww_pages _ Hw) in *. assert (0 ≤ n) as Hn0 by (subst n; apply image_pages_nonneg).
  destruct (initialized_space stale_entry w ss mm n stale_pcb HI Hr Hp Hf Hn0 ltac:(lia))
    as (w1 & E1 & HI1 & Hc1 & Hun1 & _). set (s := mkSpace (next w) n stale_pcb) in *.
  destruct (load_segments_ok uninit w1 (s :: ss) s file h HI1 ltac:(set_solver) Hb Hc Hd Hc1)
    as (w2 & w3 & E2 & E3 & HI3 & Hc3 & Ho3 & Hrest).
  exists s, w3. unfold AddrSpace_new. rewrite Hh. run_ok. rewrite E. run_ok. rewrite <- Hn.
  destruct (Z.leb_spec n (Machine.NumPhysPages - Z.of_nat (base.size (frames (memoryManager w))))); [|lia].
  run_ok. unfold with_table in E1. destruct (new_table stale_entry (set_memoryManager w mm) n) as [ptr w0] eqn:En.
  assert (ptr = next w) as -> by (unfold new_table in En; by simplify_eq). simpl in E1.
  fold s. rewrite E1. run_ok. rewrite E2. run_ok. rewrite E3. run_ok. split_and!; try done.
  assert (s ∉ ss) as Hnew.
  { pose proof (inv_tables _ _ HI3) as Hnd. csimpl in Hnd. apply NoDup_cons in Hnd as [Hnd _].
    intros Hin. apply Hnd. by apply (list_elem_of_fmap_2 pageTable ss s). }
  intros s' Hs'. destruct (Hun1 s' Hs') as [Ho' Hc']. rewrite Ho3, Hrest by set_solver. done.
Qed.

End programs.

Section exec.
Context {A : Type} `{PageAllocatorLaws A} (HOST_IS_BIG_ENDIAN : bool) (uninit : nat → Z)
  (stale_entry : Machine.TranslationEntry) (Open : list Z → option (list Z)).
Implicit Types (w : world A) (s : AddrSpace).

(** The part of [Replace] up to the comparison with the free pages. *)
Lemma Replace_start w s ss va name file h :
  Inv w (s :: ss) → 0 ≤ va → string_at (contents w s) (Z.to_nat va) name →
  Z.of_nat (length name) < 128 → Open name = Some file → read_header HOST_IS_BIG_ENDIAN uninit file = Ok h →
  let n := divRoundUp (image_size h) Machine.PageSize in
  let free := Machine.NumPhysPages - Z.of_nat (base.size (frames (memoryManager w))) in
  ∃ w1, Inv w1 (s :: ss) ∧ untouched w w1 (s :: ss) ∧
    Machine.registers (machine w1) = Machine.registers (machine w) ∧
    Machine.pageTableSize (machine w1) = Machine.pageTableSize (machine w) ∧
    pageTablePtr w1 = pageTablePtr w ∧
    frames (memoryManager w1) = frames (memoryManager w) ∧
    Replace HOST_IS_BIG_ENDIAN uninit stale_entry Open w s va =
      if u32 (n - numPages s) >? free then Ok (false, s, w1)
      else
        w ← ReleasePhysicalMemory w1 s;
        w ← delete_table w (pageTable s);
        let '(table, w) := new_table stale_entry w n in
        let this := mkSpace table n (pcb s) in
        w ← InitializePageTable w this;
        w ← load_segment uninit w this file (code h);
        w ← load_segment uninit w this file (initData h);
        w ← InitRegisters w this;
        Ok (true, this, RestoreState w this).
Proof.
  intros HI Hva Hstr Hlen Hopen Hh n free. assert (s ∈ s :: ss) as Hs by set_solver.
  destruct (ReadFileName_ok uninit w _ s va name HI Hs Hva Hstr Hlen)
    as (w0 & fileName & E0 & Ec & [HI0 Ho0 Hc0 Hr0 Hmm0 Hm0 Hp0 _]).
  pose proof (inv_world _ _ HI0) as Hw0.
  destruct (getFree_law (memoryManager w0) (ww_ready _ Hw0)) as (mm & E & Hr & Hp & Hf).
  rewrite (ww_pages _ Hw0) in *.
  exists (set_memoryManager w0 mm). split_and!.
  - by apply inv_manager.
  - intros s' Hs'. split; [by apply Ho0|].
    destruct (decide (s' = s)) as [->|Hne]; [exact Hc0|by apply Hr0].
  - simpl. by rewrite Hm0.
  - simpl. by rewrite Hm0.
  - done.
  - simpl. by rewrite Hf, Hmm0.
  - unfold Replace. rewrite E0. run_ok. rewrite Ec. run_ok. rewrite Hopen, Hh. run_ok.
    rewrite E. run_ok. destruct (image_pages_int h) as [H1 H2]. fold n in H1, H2. fold n.
    rewrite H1, H2. unfold free. by rewrite <- Hmm0.
Qed.

End exec.

(** ** Properties *)
Section properties.
Context {A : Type} `{PageAllocatorLaws A}.
Implicit Types (w : world A) (s : AddrSpace).

(** [Replace] of a program that fits. *)
Lemma Replace_ok HOST_IS_BIG_ENDIAN uninit stale_entry Open w s ss va name file h n :
  Inv w (s :: ss) → 0 ≤ va → string_at (contents w s) (Z.to_nat va) name →
  Z.of_nat (length name) < 128 → Open name = Some file → read_header HOST_IS_BIG_ENDIAN uninit file = Ok h →
  n = divRoundUp (image_size h) Machine.PageSize → Forall Machine.is_byte file →
  segment_loads n file (code h) → segment_loads n file (initData h) →
  0 ≤ n - numPages s ≤ Machine.NumPhysPages - Z.of_nat (base.size (frames (memoryManager w))) →
  ∃ s' w', Replace HOST_IS_BIG_ENDIAN uninit stale_entry Open w s va = Ok (true, s', w') ∧ numPages s' = n ∧ pcb s' = pcb s ∧
    Inv w' (s' :: ss) ∧ contents w' s' = image file h n ∧ untouched w w' ss ∧
    running w' s' ∧ Machine.registers (machine w') = start_registers n.
Proof.
  intros HI Hva Hstr Hlen Hopen Hh Hn Hb Hc Hd Hroom.
  destruct (Replace_start HOST_IS_BIG_ENDIAN uninit stale_entry Open w s ss va name file h HI Hva Hstr Hlen Hopen Hh)
    as (w1 & HI1 & Hun1 & _ & _ & _ & Hf1 & ->). rewrite <- Hn.
  rewrite u32_id by (unfold is_u32; frames; lia). rewrite Z.gtb_ltb.
  destruct (Z.ltb_spec (Machine.NumPhysPages - Z.of_nat (base.size (frames (memoryManager w))))
    (n - numPages s)); [lia|].
  destruct (release_ok w1 s ss HI1) as (w2 & w3 & E2 & E3 & HI3 & Hun3 & _).
  pose proof (frames_size_cons w1 w3 s ss HI1 HI3 Hun3) as Hsz. rewrite Hf1 in Hsz.
  rewrite E2. run_ok. rewrite E3. run_ok. pose proof (inv_world _ _ HI3) as Hw3.
  assert (0 ≤ n) as Hn0 by (subst n; apply image_pages_nonneg).
  destruct (initialized_space stale_entry w3 ss (memoryManager w3) n (pcb s) HI3 (ww_ready _ Hw3)
    (ww_pages _ Hw3) eq_refl Hn0 ltac:(lia)) as (w4 & E4 & HI4 & Hc4 & Hun4 & _).
  unfold with_table in E4. replace (set_memoryManager w3 (memoryManager w3)) with w3 in E4 by (by destruct w3).
  unfold new_table in *. cbn [snd] in E4. set (s' := mkSpace (next w3) n (pcb s)) in *.
  rewrite E4. run_ok.
  destruct (load_segments_ok uninit w4 (s' :: ss) s' file h HI4 ltac:(set_solver) Hb Hc Hd Hc4)
    as (w5 & w6 & E5 & E6 & HI6 & Hc6 & Ho6 & Hrest).
  rewrite E5. run_ok. rewrite E6. run_ok.
  rewrite InitRegisters_ok by apply (inv_world _ _ HI6). run_ok.
  eexists _, _. split; [reflexivity|].
  assert (untouched w w6 ss) as Hun6.
  { intros t Ht. destruct (Hun4 t Ht) as [Ho Hct], (Hun3 t Ht) as [Ho' Hct'],
      (Hun1 t ltac:(set_solver)) as [Ho'' Hct'']. rewrite Ho6 by set_solver.
    rewrite Hrest; [split; congruence|set_solver|]. intros ->.
    pose proof (inv_tables _ _ HI6) as Hnd. csimpl in Hnd. apply NoDup_cons in Hnd as [Hnin _].
    apply Hnin. by apply (list_elem_of_fmap_2 pageTable ss s'). }
  split_and!; try done.
  apply RestoreState_ok, inv_machine; [done|apply start_registers_wf|apply HI6|apply (inv_world _ _ HI6)].
Qed.

(** C18: user programs are isolated.  Whatever instruction the running program
    executes, and whether it completes or traps, every other address space
    keeps its frames and the contents of its memory, the invariant that no
    frame has two owners holds again, and the machine still translates with
    the page table of the running program. *)
Theorem user_step_isolated HOST_IS_BIG_ENDIAN w s ss :
  Inv w (s :: ss) → running w s →
  match user_step HOST_IS_BIG_ENDIAN w with
  | Ok (_, w') => Inv w' (s :: ss) ∧ running w' s ∧ untouched w w' ss
  | Err e => e = AssertionFailed
  end.
Proof.
  intros HI Hrun. assert (s ∈ s :: ss) as Hs by set_solver.
  destruct (hardware_ok w _ s HI Hs Hrun) as [Hh Hwfm].
  unfold user_step. rewrite Hh. run_ok.
  pose proof (Mips.OneInstruction_confined HOST_IS_BIG_ENDIAN _ Hwfm) as Hone.
  destruct (Mips.OneInstruction _ _) as [[? m|which m]|e]; [..|done]; run_ok;
    destruct Hone; by apply after_hardware_ok.
Qed.

(** C21: the kernel and the hardware translate alike.  For every address of the
    running program, [AddrSpace::Translate] gives the physical address that
    [Machine::Translate] gives for a byte at it, and -1 where the hardware
    raises an address error. *)
Theorem kernel_hardware_agree w ss s va writing :
  Inv w ss → s ∈ ss → running w s → is_s32 va →
  ∃ m pa w', hardware w = Ok m ∧ Translate w s va = Ok (pa, w') ∧
    if decide (0 ≤ va < numPages s * Machine.PageSize)
    then 0 ≤ pa ∧ ∃ m', Machine.Translate m va 1 writing = Ok (Machine.NoException, pa, m')
    else pa = -1 ∧ Machine.Translate m va 1 writing = Ok (Machine.AddressErrorException, 0, m).
Proof.
  intros HI Hs Hrun Hva. destruct (hardware_ok w ss s HI Hs Hrun) as [Hh [_ Hwfm]].
  pose proof (proj1 (Forall_forall _ _) (inv_spaces _ _ HI) s Hs) as Hok.
  pose proof (numPages_range _ _ _ HI Hs) as Hn. destruct Hrun as [_ Hsize].
  pose proof (ww_tlb _ (inv_world _ _ HI)) as Htlb.
  case_decide as Hin.
  - destruct (Translate_ok w s va Hok Hva Hin) as (e & Hte & (Hv & Hr & Hf) & E).
    eexists _, _, _. split_and!; [exact Hh|exact E|frames; lia|].
    rewrite Machine.Translate_eq by (done || lia). rewrite (u32_id va) by (unfold is_u32, is_s32 in *; lia).
    unfold Machine.translate_exc, Machine.find_entry, Machine.entries. simpl. rewrite Htlb. simpl.
    rewrite u32_id by (unfold is_u32, is_s32 in *; lia). fold (page_of va). rewrite Hte. csimpl.
    rewrite Hsize, Hv. destruct (Z.ltb_spec (va / Machine.PageSize) (numPages s)) as [_|Hge].
    + simpl. rewrite Hr. simpl. rewrite (proj1 (frame_u32 _ Hf)).
      destruct (Z.leb_spec Machine.NumPhysPages (Machine.physicalPage e)); [frames; lia|].
      eexists. do 3 f_equal. unfold Machine.frame_address.
      rewrite (proj1 (frame_u32 _ Hf)), u32_id by (unfold is_u32, is_s32 in *; lia).
      f_equal. unfold offset_of. pose proof (Z.mod_pos_bound va Machine.PageSize). frames. lia.
    + exfalso. pose proof (Z.div_lt_upper_bound va Machine.PageSize (numPages s)). frames. lia.
  - eexists _, _, _. split_and!; [exact Hh|by apply Translate_outside; [lia|..]|done|].
    rewrite Machine.Translate_eq by (done || lia).
    assert (numPages s ≤ u32 va / Machine.PageSize) as Hge.
    { apply Z.div_le_lower_bound; [frames; lia|]. unfold u32, is_s32 in *.
      destruct (decide (0 ≤ va)); [rewrite Z.mod_small by lia; lia|].
      rewrite <- (Z.mod_add va 1), Z.mod_small by lia. frames. lia. }
    unfold Machine.translate_exc, Machine.find_entry. simpl. rewrite Htlb, Hsize. simpl.
    destruct (Z.ltb_spec (u32 va / Machine.PageSize) (numPages s)); [lia|].
    by destruct (Machine.entries _ !! _).
Qed.

(** C19: loading a program.  The file must hold a header and both segments, the
    segments must lie in the pages of the program, and one that is shorter than a
    page must not cross the end of a page ([segment_loads]; such a segment is
    written into the frame of another page: [short_segment_overruns]).  Then, if
    the pages the program needs are free, the constructor takes frames that
    nobody owns and the new address space reads as the file says: code and data
    in place and zeros everywhere else, whatever was in the frames before; no
    other address space changes.  If the pages are not free, the assertion stops
    the kernel. *)
Theorem addrspace_loads_program HOST_IS_BIG_ENDIAN uninit stale_entry stale_pcb w ss file h n :
  Inv w ss → read_header HOST_IS_BIG_ENDIAN uninit file = Ok h → n = divRoundUp (image_size h) Machine.PageSize →
  Forall Machine.is_byte file →
  segment_loads n file (code h) → segment_loads n file (initData h) →
  if decide (n ≤ Machine.NumPhysPages - Z.of_nat (base.size (frames (memoryManager w)))) then
    ∃ s w', AddrSpace_new HOST_IS_BIG_ENDIAN uninit stale_entry stale_pcb w file = Ok (s, w') ∧
            numPages s = n ∧ Inv w' (s :: ss) ∧ contents w' s = image file h n ∧ untouched w w' ss
  else AddrSpace_new HOST_IS_BIG_ENDIAN uninit stale_entry stale_pcb w file = Err AssertionFailed.
Proof.
  intros HI Hh Hn Hb Hc Hd. case_decide as Hroom; [by apply AddrSpace_new_ok|].
  pose proof (inv_world _ _ HI) as Hw.
  destruct (getFree_law (memoryManager w) (ww_ready _ Hw)) as (mm & E & Hr & Hp & Hf).
  rewrite (ww_pages _ Hw) in *. unfold AddrSpace_new. rewrite Hh. run_ok. rewrite E. run_ok.
  rewrite <- Hn. by destruct (Z.leb_spec n
    (Machine.NumPhysPages - Z.of_nat (base.size (frames (memoryManager w))))); [lia|].
Qed.

(** Copying, as Fork does.  The copy has the same memory in frames of its
    own, and the original and all others keep theirs; if there are not enough
    free pages the answer is NULL and nothing changes. *)
Theorem copy_duplicates stale_entry stale_pcb w ss s :
  Inv w ss → s ∈ ss →
  if decide (numPages s ≤ Machine.NumPhysPages - Z.of_nat (base.size (frames (memoryManager w)))) then
    ∃ s' w', copy stale_entry stale_pcb w s = Ok (Some s', w') ∧ numPages s' = numPages s ∧ Inv w' (s' :: ss) ∧
             contents w' s' = contents w s ∧ untouched w w' ss
  else ∃ w', copy stale_entry stale_pcb w s = Ok (None, w') ∧ Inv w' ss ∧ untouched w w' ss.
Proof.
  intros HI Hs. case_decide as Hroom.
  - destruct (copy_ok stale_entry stale_pcb w ss s HI Hs Hroom) as (s' & w' & ? & ? & ? & ? & ? & _).
    exists s', w'. by split_and!.
  - destruct (copy_no_room stale_entry stale_pcb w ss s HI Hs ltac:(lia)) as (w' & ? & ? & ? & _).
    exists w'. by split_and!.
Qed.

(** Releasing, as Exit and Kill do.  [ReleasePhysicalMemory] and the
    destructor give back exactly the frames of the address space, which are
    free again, and leave all others as they were: nothing leaks. *)
Theorem release_frees_exactly w s ss :
  Inv w (s :: ss) →
  ∃ w1 w2, ReleasePhysicalMemory w s = Ok w1 ∧ AddrSpace_delete w1 s = Ok w2 ∧
    Inv w2 ss ∧ untouched w w2 ss ∧
    frames (memoryManager w2) = frames (memoryManager w) ∖ list_to_set (owned w s) ∧
    Z.of_nat (base.size (frames (memoryManager w2))) =
      Z.of_nat (base.size (frames (memoryManager w))) - numPages s.
Proof.
  intros HI. destruct (release_ok w s ss HI) as (w1 & w2 & E1 & E2 & HI2 & Hun & _ & _ & _ & Hf).
  exists w1, w2. split_and!; try done. by eapply frames_size_cons.
Qed.

(** C20: replacing the program, as Exec does.  The name at [va] in user memory has
    fewer than 128 bytes and names a file whose segments load ([segment_loads]:
    they lie in the file and in the pages of the program, and one that is shorter
    than a page does not cross the end of a page); the new program needs at least
    as many pages as the old one and the difference is free.  Then [Replace]
    reads the name from user memory, gives the old frames back, loads the new
    program, and leaves the machine about to run it from address 0 with its
    stack pointer 16 below the end of its memory; other address spaces keep
    what they have. *)
Theorem exec_replaces_program HOST_IS_BIG_ENDIAN uninit stale_entry Open w s ss va name file h n :
  Inv w (s :: ss) → 0 ≤ va → string_at (contents w s) (Z.to_nat va) name →
  Z.of_nat (length name) < 128 → Open name = Some file → read_header HOST_IS_BIG_ENDIAN uninit file = Ok h →
  n = divRoundUp (image_size h) Machine.PageSize → Forall Machine.is_byte file →
  segment_loads n file (code h) → segment_loads n file (initData h) →
  0 ≤ n - numPages s ≤ Machine.NumPhysPages - Z.of_nat (base.size (frames (memoryManager w))) →
  ∃ s' w', Replace HOST_IS_BIG_ENDIAN uninit stale_entry Open w s va = Ok (true, s', w') ∧ numPages s' = n ∧ pcb s' = pcb s ∧
    Inv w' (s' :: ss) ∧ contents w' s' = image file h n ∧ untouched w w' ss ∧
    running w' s' ∧ Machine.registers (machine w') = start_registers n.
Proof. intros. by eapply Replace_ok. Qed.

(** A smaller program cannot be executed.  The number of pages still needed
    is computed in unsigned arithmetic: when the new program needs fewer pages
    than the old one it wraps around to a number larger than the memory, and
    [Replace] answers FALSE although the pages suffice. *)
Theorem exec_of_smaller_fails HOST_IS_BIG_ENDIAN uninit stale_entry Open w s ss va name file h n :
  Inv w (s :: ss) → running w s → 0 ≤ va → string_at (contents w s) (Z.to_nat va) name →
  Z.of_nat (length name) < 128 → Open name = Some file → read_header HOST_IS_BIG_ENDIAN uninit file = Ok h →
  n = divRoundUp (image_size h) Machine.PageSize → n < numPages s →
  ∃ w', Replace HOST_IS_BIG_ENDIAN uninit stale_entry Open w s va = Ok (false, s, w') ∧ Inv w' (s :: ss) ∧ running w' s ∧
        untouched w w' (s :: ss) ∧
        Machine.registers (machine w') = Machine.registers (machine w).
Proof.
  intros HI [Hp Hs] Hva Hstr Hlen Hopen Hh Hn Hlt.
  destruct (Replace_start HOST_IS_BIG_ENDIAN uninit stale_entry Open w s ss va name file h HI Hva Hstr Hlen Hopen Hh)
    as (w1 & HI1 & Hun1 & Hr1 & Hs1 & Hp1 & Hf1 & ->). rewrite <- Hn.
  pose proof (numPages_range _ _ s HI ltac:(set_solver)) as Hrange.
  pose proof (image_pages_nonneg h) as Hn0. rewrite <- Hn in Hn0. exists w1.
  assert (u32 (n - numPages s) = n - numPages s + 2 ^ 32) as ->.
  { unfold u32. rewrite <- (Z.mod_add _ 1), Z.mod_small by (frames; lia). lia. }
  rewrite Z.gtb_ltb. destruct (Z.ltb_spec
    (Machine.NumPhysPages - Z.of_nat (base.size (frames (memoryManager w))))
    (n - numPages s + 2 ^ 32)); [|frames; lia].
  split_and!; [done|done|split; congruence|done|done].
Qed.

(** A short segment is copied across the end of its page.  A segment of
    fewer bytes than a page that does not lie in one page is copied in one
    piece to consecutive physical addresses: the bytes behind the end of the
    page go to the next frame, and if that frame belongs to another address
    space, into its memory. *)
Theorem short_segment_overruns uninit w ss s s2 k e va n file fileAddr :
  Inv w ss → s ∈ ss → s2 ∈ ss → s ≠ s2 → Forall Machine.is_byte file →
  0 ≤ va < numPages s * Machine.PageSize → 0 < n < Machine.PageSize →
  Machine.PageSize < va mod Machine.PageSize + n →
  0 ≤ fileAddr → fileAddr + n ≤ Z.of_nat (length file) →
  table_of w s !! page_of va = Some e → owned w s2 !! k = Some (Machine.physicalPage e + 1) →
  ∃ w', ReadFile uninit w s va file n fileAddr = Ok (n, w') ∧
    contents w' s2 =
      list_inserts (k * psize)
        (drop (psize - offset_of va) (take (Z.to_nat n) (drop (Z.to_nat fileAddr) file)))
        (contents w s2).
Proof.
  intros HI Hs Hs2 Hne Hb Hva Hn Hcross Hfa Hfile Hte Hk.
  pose proof (proj1 (Forall_forall _ _) (inv_spaces _ _ HI) s Hs) as Hok.
  pose proof (proj1 (Forall_forall _ _) (inv_spaces _ _ HI) s2 Hs2) as Hok2.
  pose proof (numPages_range _ _ _ HI Hs) as Hnp.
  destruct (Translate_ok w s va Hok) as (e' & Hte' & (Hv & Hr & Hf) & E); [unfold is_s32; frames; lia|done|].
  simplify_eq. destruct (page_offset va ltac:(lia)) as (_ & Hoff & _).
  assert (is_frame (Machine.physicalPage e + 1)) as Hf2.
  { eapply Forall_forall; [exact (owned_frames w s2 Hok2)|]. by eapply list_elem_of_lookup_2. }
  assert (Z.of_nat (offset_of va) = va mod Machine.PageSize) as Ho.
  { unfold offset_of. pose proof (Z.mod_pos_bound va Machine.PageSize). frames. lia. }
  set (bs := take (Z.to_nat n) (drop (Z.to_nat fileAddr) file)).
  assert (length bs = Z.to_nat n) as Hlbs by (unfold bs; rewrite length_take, length_drop; lia).
  assert (Forall Machine.is_byte bs) as Hbbs by (by apply Forall_take, Forall_drop).
  set (p := Machine.physicalPage e) in *. set (cut := (psize - offset_of va)%nat).
  pose proof (mark_writes w ss s _ _ HI Hs Hte 0) as [HI1 Ho1 _ Hr1 _ _ _ _].
  set (w1 := mark w s (page_of va) e) in *.
  assert (owned w1 s !! page_of va = Some p) as Hk1.
  { rewrite Ho1 by done. unfold owned. by rewrite list_lookup_fmap, Hte. }
  pose proof (poked_writes w1 ss s _ p (offset_of va) (take cut bs) HI1 Hs Hk1
    ltac:(rewrite length_take; unfold cut; lia) ltac:(by apply Forall_take)) as [HI2 Ho2 _ Hr2 _ _ _ _].
  set (w2 := poked w1 p (offset_of va) (take cut bs)) in *.
  assert (owned w2 s2 !! k = Some (p + 1)) as Hk2 by (by rewrite Ho2, Ho1).
  pose proof (poked_writes w2 ss s2 _ (p + 1) 0 (drop cut bs) HI2 Hs2 Hk2
    ltac:(rewrite length_drop; unfold cut; frames; lia) ltac:(by apply Forall_drop)) as [_ _ Hc3 _ _ _ _ _].
  exists (poked w2 (p + 1) 0 (drop cut bs)). split.
  - unfold ReadFile. rewrite ReadAt_whole by lia. run_ok. fold bs.
    destruct (Z.to_nat n) as [|fuel] eqn:Efuel; [lia|]. cbn [ReadFile_loop]. rewrite Z.gtb_ltb.
    destruct (Z.ltb_spec 0 n); [|lia]. destruct (Z.ltb_spec n Machine.PageSize); [|lia].
    rewrite E. run_ok. rewrite Z.geb_leb. destruct (Z.leb_spec 0 (p * Machine.PageSize +
      Z.of_nat (offset_of va))); [|frames; lia]. run_ok.
    rewrite Machine.load_bytes_ok by lia. run_ok. rewrite drop_0, take_ge by lia.
    rewrite (store_across w1 p (offset_of va) bs) by (done || apply HI1 || frames; lia). run_ok.
    replace (n - n) with 0 by lia. by destruct fuel.
  - rewrite Nat.add_0_r in Hc3. rewrite Hc3, Hr2, Hr1 by auto. done.
Qed.

End properties.

(** Swapping a field that a big-endian host read gives the field. *)
Lemma swapped_field buf k :
  Forall Machine.is_byte buf → (k + 4 ≤ length buf)%nat →
  Machine.WordToHost true (u32 (int_at true buf k)) = Machine.le_combine (take 4 (drop k buf)).
Proof.
  intros Hbuf Hk. assert (length (take 4 (drop k buf)) = 4%nat) as Hl
    by (rewrite length_take, length_drop; lia).
  assert (Forall Machine.is_byte (take 4 (drop k buf))) as Hb by (by apply Forall_take, Forall_drop).
  unfold int_at. rewrite u32_s32, u32_id; [by apply Machine.word_of_bytes|].
  apply (Machine.host_order_bytes true), Machine.le_combine_range in Hb.
  by rewrite Machine.host_order_length, Hl in Hb.
Qed.

(** The header reads the same on every host.  An object file whose header a
    little-endian host accepts is accepted by a big-endian host, with the same
    header: [SwapHeader] puts the bytes of every field back in order. *)
Theorem header_host_independent uninit file h :
  Forall Machine.is_byte file → sizeof_NoffHeader ≤ Z.of_nat (length file) →
  read_header false uninit file = Ok h → read_header true uninit file = Ok h.
Proof.
  intros Hb Hl. unfold read_header. rewrite ReadAt_whole by (unfold sizeof_NoffHeader in *; lia). run_ok.
  set (buf := take (Z.to_nat sizeof_NoffHeader) (drop (Z.to_nat 0) file)).
  assert (Forall Machine.is_byte buf) as Hbuf by (by apply Forall_take, Forall_drop).
  assert (length buf = 40%nat) as Hlen.
  { unfold buf. rewrite length_take, length_drop. unfold sizeof_NoffHeader in *. lia. }
  assert (∀ k, (k + 4 ≤ 40)%nat → Machine.WordToHost true (u32 (int_at true buf k)) =
               Machine.le_combine (take 4 (drop k buf))) as Hword
    by (intros; apply swapped_field; [done|lia]).
  assert (∀ k, (k + 4 ≤ 40)%nat → swap true (int_at true buf k) = int_at false buf k) as Hswap.
  { intros k Hk. unfold swap. by rewrite Hword. }
  assert (SwapHeader true (header_of true buf) = header_of false buf) as Hheader.
  { unfold SwapHeader, header_of, segment_at. simpl. by rewrite !Hswap by lia. }
  assert (Machine.WordToHost false (u32 (noffMagic (header_of false buf))) =
          u32 (noffMagic (header_of false buf))) as -> by done.
  destruct (Z.eqb_spec (noffMagic (header_of false buf)) NOFFMAGIC) as [Hm|Hm].
  - cbn [negb andb]. rewrite Hm. run_ok. intros [= <-].
    assert (Machine.WordToHost true (u32 (noffMagic (header_of true buf))) = NOFFMAGIC) as Hmt.
    { change (noffMagic (header_of true buf)) with (int_at true buf 0). rewrite Hword by lia.
      change (noffMagic (header_of false buf)) with (int_at false buf 0) in Hm. unfold int_at in Hm.
      rewrite <- (u32_id (Machine.le_combine _)), <- u32_s32.
      - cbn [Machine.host_order] in Hm. rewrite Hm. done.
      - pose proof (Machine.le_combine_range (take 4 (drop 0 buf))
          ltac:(by apply Forall_take, Forall_drop)) as Hr.
        rewrite length_take, length_drop, Hlen in Hr. exact Hr. }
    rewrite Hmt, Z.eqb_refl, andb_true_r.
    destruct (Z.eqb_spec (noffMagic (header_of true buf)) NOFFMAGIC) as [He|He]; cbn [negb].
    + exfalso. rewrite He in Hmt. vm_compute in Hmt. discriminate.
    + rewrite Hheader, Hm. by run_ok.
  - cbn [negb andb]. destruct (Z.eqb_spec (u32 (noffMagic (header_of false buf))) NOFFMAGIC) as [Hu|].
    + exfalso. apply Hm. change (noffMagic (header_of false buf)) with (int_at false buf 0) in *.
      unfold int_at in *. rewrite u32_s32 in Hu.
      rewrite <- s32_u32, Hu. done.
    + destruct (Z.eqb_spec (noffMagic (header_of false buf)) NOFFMAGIC); [done|]. by run_ok.
Qed.

(** ** Examples

    Two programs in NOFF format: ten pages, whose data is the string "b", and
    nine pages. *)

Definition header_bytes (codeSize dataSize bssSize : Z) : list Z :=
  [NOFFMAGIC; 0; 40; codeSize; codeSize; 40 + codeSize; dataSize; codeSize + dataSize; 0; bssSize]
    ≫= Machine.le_split 4.

Definition program_a : list Z :=
  header_bytes 8 4 200 ++ Machine.le_split 4 0xac000008 ++ Machine.le_split 4 0 ++ [98; 0; 0; 0].
Definition program_b : list Z :=
  header_bytes 8 4 4 ++ Machine.le_split 4 0x24020001 ++ Machine.le_split 4 0 ++ [97; 0; 0; 0].

Definition sample_open (name : list Z) : option (list Z) :=
  if decide (name = [98]) then Some program_b
  else if decide (name = [97]) then Some program_a else None.

Definition header_a : NoffHeader :=
  mkHeader NOFFMAGIC (mkSegment 0 40 8) (mkSegment 8 48 4) (mkSegment 12 0 200).
Definition header_b : NoffHeader :=
  mkHeader NOFFMAGIC (mkSegment 0 40 8) (mkSegment 8 48 4) (mkSegment 12 0 4).

Lemma read_header_a u : read_header false u program_a = Ok header_a.
Proof. vm_compute. reflexivity. Qed.
Lemma read_header_b u : read_header false u program_b = Ok header_b.
Proof. vm_compute. reflexivity. Qed.

Lemma header_host_independent_witness :
  read_header true (λ _, 0) program_a = Ok header_a.
Proof.
  apply (header_host_independent (λ _, 0) program_a header_a).
  - apply bytes_check. reflexivity.
  - vm_compute. discriminate.
  - apply read_header_a.
Defined.

(** The kernel at the start, with the memory manager of threads/system.cc. *)
Definition kernel : Type := world (MemoryManager.MemoryManager unit).

Definition boot : kernel :=
  mkWorld (MemoryManager.mkMM (BitMap.mkBitMap 32 1 [0]) tt)
    (Machine.mkMachine (replicate 40 0) (replicate 4096 7) None None 0) 0 ∅ 1.

Definition junk (_ : nat) : Z := 99.
Definition junk_entry : Machine.TranslationEntry := Machine.mkEntry 77 77 false true true true.

Lemma boot_inv : Inv boot [].
Proof.
  split; [|constructor|constructor|constructor|vm_compute; reflexivity]. split; try done.
  - split; [|simpl; lia|done]. split; [simpl; lia|done|done|]. repeat constructor; simpl; lia.
  - split; [vm_compute; reflexivity|]. apply Forall_replicate. unfold Machine.is_byte. lia.
  - split; [vm_compute; reflexivity| |].
    + apply Forall_replicate. unfold is_u32. lia.
    + intros r Hr. apply lookup_replicate in Hr as [-> _]. done.
Qed.

Lemma program_a_loads :
  Forall Machine.is_byte program_a ∧ segment_loads 10 program_a (code header_a) ∧
  segment_loads 10 program_a (initData header_a).
Proof.
  split_and!; [by apply bytes_check| |]; intros _; vm_compute; split_and!; congruence.
Qed.

(** The constructor on [program_a], and the two values it returns. *)
Definition load_a (w : kernel) : AddrSpace * kernel :=
  match AddrSpace_new false junk junk_entry 0 w program_a with
  | Ok sw => sw
  | Err _ => (mkSpace 0 0 0, w)
  end.

Lemma load_a_ok w ss :
  Inv w ss → Z.of_nat (base.size (frames (memoryManager w))) ≤ 22 →
  Inv (load_a w).2 ((load_a w).1 :: ss) ∧ numPages (load_a w).1 = 10 ∧
  contents (load_a w).2 (load_a w).1 = image program_a header_a 10.
Proof.
  intros HI Hroom. destruct program_a_loads as (Hb & Hc & Hd).
  destruct (AddrSpace_new_ok false junk junk_entry 0 w ss program_a header_a 10)
    as (s & w' & E & Hn & HI' & Hcont & _);
    [done|apply read_header_a|reflexivity|done|done|done|frames; lia|].
  unfold load_a. by rewrite E.
Qed.

#[local] Opaque load_a.

Definition first : AddrSpace := (load_a boot).1.
Definition kernel1 : kernel := (load_a boot).2.
Definition second : AddrSpace := (load_a kernel1).1.
Definition kernel2 : kernel := (load_a kernel1).2.

Lemma kernel1_inv : Inv kernel1 [first] ∧ numPages first = 10 ∧
  contents kernel1 first = image program_a header_a 10.
Proof. exact (load_a_ok boot [] boot_inv ltac:(vm_compute; congruence)). Qed.

Lemma kernel1_frames : Z.of_nat (base.size (frames (memoryManager kernel1))) = 10.
Proof.
  destruct kernel1_inv as (HI & Hn & _). rewrite (frames_size _ _ HI).
  pose proof (owned_length _ _ _ HI (list_elem_of_here first [])) as Hl.
  cbn [mbind list_bind]. rewrite app_nil_r. congruence.
Qed.

Lemma kernel2_inv : Inv kernel2 [second; first] ∧ numPages second = 10 ∧
  contents kernel2 second = image program_a header_a 10.
Proof.
  apply (load_a_ok kernel1 [first] (proj1 kernel1_inv)). rewrite kernel1_frames. lia.
Qed.

(** The second program is about to run. *)
Definition kernel3 : kernel := RestoreState kernel2 second.

Lemma kernel3_inv : Inv kernel3 [second; first] ∧ running kernel3 second.
Proof. exact (RestoreState_ok kernel2 [second; first] second (proj1 kernel2_inv)). Qed.

Lemma user_step_isolated_witness :
  match user_step false kernel3 with
  | Ok (_, w') => contents w' first = contents kernel3 first
  | Err e => e = AssertionFailed
  end.
Proof.
  pose proof (user_step_isolated false kernel3 second [first] (proj1 kernel3_inv) (proj2 kernel3_inv)) as H.
  destruct (user_step false kernel3) as [[x w']|e]; [|exact H].
  destruct H as (_ & _ & Hun). exact (proj2 (Hun first (list_elem_of_here first []))).
Defined.

Lemma kernel_hardware_agree_witness :
  ∃ m pa w', hardware kernel3 = Ok m ∧ Translate kernel3 second 1279 = Ok (pa, w') ∧ 0 ≤ pa ∧
    ∃ m', Machine.Translate m 1279 1 true = Ok (Machine.NoException, pa, m').
Proof.
  destruct (kernel_hardware_agree kernel3 [second; first] second 1279 true (proj1 kernel3_inv)
    (list_elem_of_here second [first]) (proj2 kernel3_inv)) as (m & pa & w' & Hm & Hp & Hif).
  - unfold is_s32. lia.
  - exists m, pa, w'. rewrite decide_True in Hif; [exact (conj Hm (conj Hp Hif))|].
    rewrite (proj1 (proj2 kernel2_inv)). unfold Machine.PageSize, Machine.SectorSize. lia.
Defined.

Lemma addrspace_loads_program_witness :
  ∃ s w', AddrSpace_new false junk junk_entry 0 boot program_a = Ok (s, w') ∧
          contents w' s = image program_a header_a 10.
Proof.
  pose proof (addrspace_loads_program false junk junk_entry 0 boot [] program_a header_a 10
    boot_inv (read_header_a junk) eq_refl (proj1 program_a_loads) (proj1 (proj2 program_a_loads))
    (proj2 (proj2 program_a_loads))) as H.
  rewrite decide_True in H by (vm_compute; congruence).
  destruct H as (s & w' & E & _ & _ & Hc & _). exists s, w'. exact (conj E Hc).
Defined.

Lemma copy_duplicates_witness :
  ∃ s' w', copy junk_entry 0 kernel1 first = Ok (Some s', w') ∧ Inv w' [s'; first] ∧
           contents w' s' = contents kernel1 first.
Proof.
  pose proof (copy_duplicates junk_entry 0 kernel1 [first] first (proj1 kernel1_inv)
    (list_elem_of_here first [])) as H.
  rewrite decide_True in H.
  - destruct H as (s' & w' & E & _ & HI & Hc & _). exists s', w'. exact (conj E (conj HI Hc)).
  - rewrite kernel1_frames, (proj1 (proj2 kernel1_inv)). unfold Machine.NumPhysPages. lia.
Defined.

Lemma release_frees_exactly_witness :
  ∃ w1 w2, ReleasePhysicalMemory kernel1 first = Ok w1 ∧ AddrSpace_delete w1 first = Ok w2 ∧
           Inv w2 [] ∧ base.size (frames (memoryManager w2)) = 0%nat.
Proof.
  destruct (release_frees_exactly kernel1 first [] (proj1 kernel1_inv))
    as (w1 & w2 & E1 & E2 & HI & _ & _ & Hs). exists w1, w2.
  rewrite kernel1_frames, (proj1 (proj2 kernel1_inv)) in Hs.
  split; [exact E1|]. split; [exact E2|]. split; [exact HI|lia].
Defined.

(** The data of [program_a] is the string "b" at address 8. *)
Lemma image_string : string_at (image program_a header_a 10) (Z.to_nat 8) [98].
Proof.
  split; [by repeat constructor|]. intros [|[|i]] b Hb; simplify_eq/=; vm_compute; reflexivity.
Qed.

Lemma first_string : string_at (contents kernel1 first) (Z.to_nat 8) [98].
Proof. rewrite (proj2 (proj2 kernel1_inv)). exact image_string. Qed.

Lemma exec_replaces_program_witness :
  ∃ s' w', Replace false junk junk_entry (λ _, Some program_a) kernel1 first 8 = Ok (true, s', w') ∧
    Inv w' [s'] ∧ contents w' s' = image program_a header_a 10 ∧ running w' s'.
Proof.
  destruct (exec_replaces_program false junk junk_entry (λ _, Some program_a) kernel1 first [] 8
    [98] program_a header_a 10 (proj1 kernel1_inv)) as (s' & w' & E & _ & _ & HI & Hc & _ & Hr & _).
  - lia.
  - exact first_string.
  - simpl. lia.
  - reflexivity.
  - apply read_header_a.
  - reflexivity.
  - apply program_a_loads.
  - apply program_a_loads.
  - apply program_a_loads.
  - rewrite kernel1_frames, (proj1 (proj2 kernel1_inv)). unfold Machine.NumPhysPages. lia.
  - exists s', w'. exact (conj E (conj HI (conj Hc Hr))).
Defined.

Lemma exec_of_smaller_fails_witness :
  ∃ w', Replace false junk junk_entry (λ _, Some program_b) (RestoreState kernel1 first) first 8 =
    Ok (false, first, w') ∧ contents w' first = contents (RestoreState kernel1 first) first.
Proof.
  destruct (exec_of_smaller_fails false junk junk_entry (λ _, Some program_b)
    (RestoreState kernel1 first) first [] 8 [98] program_b header_b 9
    (proj1 (RestoreState_ok kernel1 [first] first (proj1 kernel1_inv)))
    (proj2 (RestoreState_ok kernel1 [first] first (proj1 kernel1_inv))))
    as (w' & E & _ & _ & Hun & _).
  - lia.
  - rewrite RestoreState_contents. exact first_string.
  - simpl. lia.
  - reflexivity.
  - apply read_header_b.
  - reflexivity.
  - rewrite (proj1 (proj2 kernel1_inv)). lia.
  - exists w'. split; [exact E|]. exact (proj2 (Hun first (list_elem_of_here first []))).
Defined.

(** Two programs of one page each, in frames 5 and 6. *)
Definition one : AddrSpace := mkSpace 1 1 0.
Definition two : AddrSpace := mkSpace 2 1 0.
Definition neighbours : kernel :=
  mkWorld (MemoryManager.mkMM (BitMap.mkBitMap 32 1 [96]) tt)
    (Machine.mkMachine (replicate 40 0) (replicate 4096 7) None None 0) 0
    {[ 1 := [fresh_entry 0 5]; 2 := [fresh_entry 0 6] ]} 3.

Lemma neighbours_inv : Inv neighbours [one; two].
Proof.
  pose proof (inv_world _ _ boot_inv) as [_ _ Hm Hr Ht _ _].
  split; [| | | |vm_compute; reflexivity].
  - split; try done.
    + split; [|simpl; lia|done]. split; [simpl; lia|done|done|]. repeat constructor; simpl; lia.
    + intros p t Hp. simpl in Hp. apply lookup_insert_Some in Hp as [[<- _]|[_ Hp]]; [simpl; lia|].
      apply lookup_singleton_Some in Hp as [<- _]. simpl. lia.
  - repeat constructor; simpl; try done; by eexists.
  - apply (bool_decide_unpack _). vm_compute. exact I.
  - apply (bool_decide_unpack _). vm_compute. exact I.
Qed.

Lemma short_segment_overruns_witness :
  ∃ w', ReadFile junk neighbours one 124 [1; 2; 3; 4; 5; 6; 7; 8] 8 0 = Ok (8, w') ∧
        contents w' two = [5; 6; 7; 8] ++ replicate 124 7.
Proof.
  destruct (short_segment_overruns junk neighbours [one; two] one two 0 (fresh_entry 0 5) 124 8
    [1; 2; 3; 4; 5; 6; 7; 8] 0 neighbours_inv) as (w' & E & Hc).
  - apply list_elem_of_here.
  - apply list_elem_of_further, list_elem_of_here.
  - discriminate.
  - apply bytes_check. reflexivity.
  - vm_compute. split; congruence.
  - vm_compute. split; congruence.
  - vm_compute. reflexivity.
  - lia.
  - simpl. lia.
  - vm_compute. reflexivity.
  - vm_compute. reflexivity.
  - exists w'. split; [exact E|]. rewrite Hc. vm_compute. reflexivity.
Defined.

End Spaces.
