(* ===== verification/Coff.v ===== *)
(** * From COFF to NOFF: bin/coff.h, bin/coff2noff.c

    The tool that turns the output of the linker into the format that the kernel
    loads.  It runs on the host, where a [long] has 32 bits (the Makefile compiles
    it with -m32).  A UNIX file is the list of its bytes; the tool has a position
    in the input and one in the output, and stops with a message and exit status
    1 when something is wrong. *)

From stdpp Require Import base list gmap.
From S2P Require Import Prelude Lists BitMap Machine Bytes Mips Threads Managers Frames AddrSpace Spaces.
Import Pages.

Module Coff.
Import Bytes AddrSpace.

(** ** coff.h *)

Definition MIPSELMAGIC : Z := 0x0162.
Definition OMAGIC : Z := 263. (* 0407 *)

(** [struct filehdr], [struct aouthdr] and [struct scnhdr]: the fields that are
    used, with their offsets below. *)
Record filehdr := mkFilehdr {
  f_magic : Z;
  f_nscns : Z;
}.
Record scnhdr := mkScnhdr {
  s_name : list Z;
  s_paddr : Z;
  s_size : Z;
  s_scnptr : Z;
}.

Definition sizeof_filehdr : Z := 20.
Definition sizeof_aouthdr : Z := 56.
Definition sizeof_scnhdr : Z := 40.

(** ** Messages and exits *)

Inductive says :=
  | Usage | CannotOpen | FileTooShort | UnableToWrite | NotMipsel | NotOmagic
  | DataAndRdata | BssAndSbss | UnknownSegment (name : list Z).

(** A part of the program goes on with a value, or exits with status 1. *)
Inductive run (A : Type) := Goes (a : A) | Exits (m : says).
Arguments Goes {A} a.
Arguments Exits {A} m.

#[global] Instance run_ret : MRet run := λ A a, Goes a.
#[global] Instance run_bind : MBind run := λ A B f m, match m with Goes a => f a | Exits e => Exits e end.

(** ** UNIX files *)

(** An open file: its bytes and the position.  The output may not be open, since
    the result of the second [open] is not looked at; then every write fails. *)
Record unix := mkUnix {
  bytes : list Z;
  pos : Z;
  is_open : bool;
}.

(** [lseek(fd, offset, 0)]: a negative offset is an error that is not looked
    at. *)
Definition lseek (f : unix) (offset : Z) : unix :=
  if offset <? 0 then f else mkUnix (bytes f) offset (is_open f).

(** [Read]: the program exits unless [read] returns the number it was asked for.
    [read] returns -1 for a number that is negative. *)
Definition Read (f : unix) (nBytes : Z) : run (list Z * unix) :=
  let buf := take (Z.to_nat nBytes) (drop (Z.to_nat (pos f)) (bytes f)) in
  let retVal := if nBytes <? 0 then -1 else Z.of_nat (length buf) in
  if retVal =? nBytes then Goes (buf, mkUnix (bytes f) (pos f + Z.of_nat (length buf)) (is_open f))
  else Exits FileTooShort.

Section coff2noff.
(** The byte order of the host; does the host complete a write at this position;
    what the fields of [noffH] hold that are not initialised. *)
Context (HOST_IS_BIG_ENDIAN : bool) (writes : Z → bool) (garbage : NoffHeader).

(** [Write], likewise; a gap in front of the position reads as zeros. *)
Definition Write (f : unix) (buf : list Z) (nBytes : Z) : run unix :=
  let o := Z.to_nat (pos f) in
  let file := bytes f in
  if (nBytes <? 0) || negb (is_open f && writes (pos f)) then
    if -1 =? nBytes then Goes f else Exits UnableToWrite
  else
    Goes (mkUnix (take o (file ++ replicate (o - length file) 0) ++ buf ++ drop (o + length buf) file)
                 (pos f + Z.of_nat (length buf)) (is_open f)).

(** ** Reading the headers *)

Definition WordToHost (w : Z) : Z := Machine.WordToHost HOST_IS_BIG_ENDIAN w.
Definition ShortToHost (w : Z) : Z := Machine.ShortToHost HOST_IS_BIG_ENDIAN w.

(** An [unsigned short] in a structure that was read. *)
Definition short_at (bs : list Z) (offset : nat) : Z :=
  Machine.le_combine (Machine.host_order HOST_IS_BIG_ENDIAN (take 2 (drop offset bs))).

Definition filehdr_of (bs : list Z) : filehdr :=
  mkFilehdr (ShortToHost (short_at bs 0)) (ShortToHost (short_at bs 2)).

(** [systemh.magic] is a [short]. *)
Definition magic_of (bs : list Z) : Z :=
  let m := ShortToHost (short_at bs 0) in if m <? 2 ^ 15 then m else m - 2 ^ 16.

(** The three fields that are converted to the order of the host. *)
Definition scnhdr_of (bs : list Z) : scnhdr :=
  let word o := s32 (WordToHost (word_at HOST_IS_BIG_ENDIAN bs o)) in
  mkScnhdr (take 8 bs) (word 8%nat) (word 16%nat) (word 20%nat).

Definition scnhdrs_of (bs : list Z) (n : Z) : list scnhdr :=
  (λ i, scnhdr_of (take (Z.to_nat sizeof_scnhdr) (drop (i * Z.to_nat sizeof_scnhdr) bs))) <$> seq 0 (Z.to_nat n).

(** [!strcmp(s_name, literal)], for a literal of fewer than eight characters. *)
Definition is_named (literal name : list Z) : bool :=
  bool_decide (take (S (length literal)) name = literal ++ [0]).

Definition dot_text : list Z := [46; 116; 101; 120; 116].
Definition dot_data : list Z := [46; 100; 97; 116; 97].
Definition dot_rdata : list Z := [46; 114; 100; 97; 116; 97].
Definition dot_bss : list Z := [46; 98; 115; 115].
Definition dot_sbss : list Z := [46; 115; 98; 115; 115].

(** ** Copying the segments *)

(** [noffH], [inNoffFile] and the two files. *)
Record state := mkState {
  noffH : NoffHeader;
  inNoffFile : Z;
  fdIn : unix;
  fdOut : unix;
}.

Definition set_code (h : NoffHeader) (s : Segment) : NoffHeader := mkHeader (noffMagic h) s (initData h) (uninitData h).
Definition set_initData (h : NoffHeader) (s : Segment) : NoffHeader := mkHeader (noffMagic h) (code h) s (uninitData h).
Definition set_uninitData (h : NoffHeader) (s : Segment) : NoffHeader := mkHeader (noffMagic h) (code h) (initData h) s.

(** The six statements that both copying branches have. *)
Definition copy_section (s : state) (h : NoffHeader) (sec : scnhdr) : run state :=
  '(buffer, fin) ← Read (lseek (fdIn s) (s_scnptr sec)) (s_size sec);
  fout ← Write (fdOut s) buffer (s_size sec);
  Goes (mkState h (s32 (inNoffFile s + s_size sec)) fin fout).

Definition new_segment (s : state) (sec : scnhdr) : Segment := mkSegment (s_paddr sec) (inNoffFile s) (s_size sec).

(** One round of the loop. *)
Definition section_step (s : state) (sec : scnhdr) : run state :=
  let h := noffH s in
  if s_size sec =? 0 then Goes s
  else if is_named dot_text (s_name sec) then copy_section s (set_code h (new_segment s sec)) sec
  else if is_named dot_data (s_name sec) || is_named dot_rdata (s_name sec) then
    if negb (size (initData h) =? 0) then Exits DataAndRdata
    else copy_section s (set_initData h (new_segment s sec)) sec
  else if is_named dot_bss (s_name sec) || is_named dot_sbss (s_name sec) then
    let u := uninitData h in
    if negb (size u =? 0) then
      if s_paddr sec =? s32 (virtualAddr u + size u) then Exits BssAndSbss
      else Goes (mkState (set_uninitData h (mkSegment (virtualAddr u) (inFileAddr u) (s32 (size u + s_size sec))))
                   (inNoffFile s) (fdIn s) (fdOut s))
    else Goes (mkState (set_uninitData h (mkSegment (s_paddr sec) (inFileAddr u) (s_size sec))) (inNoffFile s) (fdIn s) (fdOut s))
  else Exits (UnknownSegment (s_name sec)).

Fixpoint sections_loop (s : state) (l : list scnhdr) : run state :=
  match l with [] => Goes s | sec :: l => s ← section_step s sec; sections_loop s l end.

(** [(char * )&noffH]. *)
Definition segment_bytes (s : Segment) : list Z :=
  int_bytes HOST_IS_BIG_ENDIAN (virtualAddr s) ++ int_bytes HOST_IS_BIG_ENDIAN (inFileAddr s) ++ int_bytes HOST_IS_BIG_ENDIAN (size s).
Definition header_bytes (h : NoffHeader) : list Z :=
  int_bytes HOST_IS_BIG_ENDIAN (noffMagic h) ++ segment_bytes (code h) ++ segment_bytes (initData h) ++ segment_bytes (uninitData h).

(** [noffH] before the loop: three sizes and the magic number are set. *)
Definition empty_segment (s : Segment) : Segment := mkSegment (virtualAddr s) (inFileAddr s) 0.
Definition initial_header : NoffHeader :=
  mkHeader NOFFMAGIC (empty_segment (code garbage)) (empty_segment (initData garbage)) (empty_segment (uninitData garbage)).

(** The section headers of the input, or why it is refused. *)
Definition read_headers (fin : unix) : run (list scnhdr * unix) :=
  '(bs, fin) ← Read fin sizeof_filehdr;
  let fileh := filehdr_of bs in
  if negb (f_magic fileh =? MIPSELMAGIC) then Exits NotMipsel
  else
    '(bs, fin) ← Read fin sizeof_aouthdr;
    if negb (magic_of bs =? OMAGIC) then Exits NotOmagic
    else
      let numsections := f_nscns fileh in
      '(bs, fin) ← Read fin (numsections * sizeof_scnhdr);
      Goes (scnhdrs_of bs numsections, fin).

(** [main(argc, argv)]: [input] is the file [argv[1]] if it can be opened,
    [opens] whether [argv[2]] can be; the result is the file that is written.
    Without a second file name, [open] of a null pointer fails. *)
Definition main (argc : Z) (input : option (list Z)) (opens : bool) : run (list Z) :=
  if argc <? 2 then Exits Usage
  else match input with
  | None => Exits CannotOpen
  | Some file =>
    let fout := mkUnix [] 0 (opens && negb (argc =? 2)) in
    '(sections, fin) ← read_headers (mkUnix file 0 true);
    let fout := lseek fout sizeof_NoffHeader in
    s ← sections_loop (mkState initial_header sizeof_NoffHeader fin fout) sections;
    fout ← Write (lseek (fdOut s) 0) (header_bytes (noffH s)) sizeof_NoffHeader;
    Goes (bytes fout)
  end.

(** ** The segments of a program *)

Inductive kind := Text | Data | Bss.
#[global] Instance kind_eq_dec : EqDecision kind.
Proof. solve_decision. Defined.

Definition kind_of (sec : scnhdr) : option kind :=
  if is_named dot_text (s_name sec) then Some Text
  else if is_named dot_data (s_name sec) || is_named dot_rdata (s_name sec) then Some Data
  else if is_named dot_bss (s_name sec) || is_named dot_sbss (s_name sec) then Some Bss
  else None.

Definition segment (k : kind) (h : NoffHeader) : Segment :=
  match k with Text => code h | Data => initData h | Bss => uninitData h end.

(** The sections of a kind that are not empty. *)
Definition of_kind (k : kind) (l : list scnhdr) : list scnhdr :=
  filter (λ sec, s_size sec ≠ 0 ∧ kind_of sec = Some k) l.

(** The bytes of a section in the COFF file. *)
Definition section_bytes (file : list Z) (sec : scnhdr) : list Z :=
  take (Z.to_nat (s_size sec)) (drop (Z.to_nat (s_scnptr sec)) file).

(** What the comment at the top of the file asks for: known sections that lie in
    the file, at most one of each kind, and offsets that fit in an [int]. *)
Record acceptable (file : list Z) (l : list scnhdr) : Prop := mkAcceptable {
  a_known sec : sec ∈ l → s_size sec ≠ 0 →
    is_Some (kind_of sec) ∧ 0 < s_size sec < 2 ^ 31 ∧ is_s32 (s_paddr sec) ∧
    (kind_of sec ≠ Some Bss → 0 ≤ s_scnptr sec ∧ s_scnptr sec + s_size sec ≤ Z.of_nat (length file));
  a_once k : (length (of_kind k l) ≤ 1)%nat;
  a_small : sizeof_NoffHeader + foldr (λ sec z, Z.max 0 (s_size sec) + z) 0 l < 2 ^ 31;
}.

(** The segment [seg] of the output is the section [sec]. *)
Record holds (file out : list Z) (k : kind) (seg : Segment) (sec : scnhdr) : Prop := mkHolds {
  h_addr : virtualAddr seg = s_paddr sec;
  h_size : size seg = s_size sec;
  h_place : k ≠ Bss → sizeof_NoffHeader ≤ inFileAddr seg ∧ inFileAddr seg + size seg ≤ Z.of_nat (length out) ∧
    take (Z.to_nat (size seg)) (drop (Z.to_nat (inFileAddr seg)) out) = section_bytes file sec;
}.

(** The state of the loop after the sections [l]: the output is [body] behind
    room for the header. *)
Record loop_ok (file : list Z) (l : list scnhdr) (s : state) (body : list Z) : Prop := mkLoopOk {
  l_in : bytes (fdIn s) = file;
  l_out : bytes (fdOut s) = (if body is [] then [] else replicate (Z.to_nat sizeof_NoffHeader) 0 ++ body);
  l_pos : pos (fdOut s) = sizeof_NoffHeader + Z.of_nat (length body);
  l_open : is_open (fdOut s) = true;
  l_next : inNoffFile s = sizeof_NoffHeader + Z.of_nat (length body);
  l_size : Z.of_nat (length body) ≤ foldr (λ sec z, Z.max 0 (s_size sec) + z) 0 l;
  l_bytes : body ⊆ file;
  l_magic : noffMagic (noffH s) = NOFFMAGIC;
  l_segment k : match of_kind k l with
    | [] => size (segment k (noffH s)) = 0
    | sec :: _ => holds file (replicate (Z.to_nat sizeof_NoffHeader) 0 ++ body) k (segment k (noffH s)) sec
    end;
}.

(** All writes succeed. *)
Context (Hwrites : ∀ p, writes p = true).

Lemma holds_app file out more k seg sec : holds file out k seg sec → holds file (out ++ more) k seg sec.
Proof.
  intros [H1 H2 H3]. split; [done|done|]. intros Hk. destruct (H3 Hk) as (A & B & C). rewrite length_app. split_and!; [done|lia|].
  unfold sizeof_NoffHeader in A. rewrite <- C. destruct (decide (0 ≤ size seg)).
  - rewrite drop_app_le by lia. rewrite take_app_le; [done|]. rewrite length_drop. lia.
  - by replace (Z.to_nat (size seg)) with 0%nat by lia.
Qed.

Lemma Read_ok f n :
  0 ≤ n → 0 ≤ pos f → pos f + n ≤ Z.of_nat (length (bytes f)) →
  Read f n = Goes (take (Z.to_nat n) (drop (Z.to_nat (pos f)) (bytes f)), mkUnix (bytes f) (pos f + n) (is_open f)).
Proof.
  intros Hn Hp Hl. unfold Read. rewrite length_take, length_drop. destruct (Z.ltb_spec n 0); [lia|].
  replace (Z.of_nat (Z.to_nat n `min` (length (bytes f) - Z.to_nat (pos f)))) with n by lia. by rewrite Z.eqb_refl.
Qed.

Lemma Write_ok f buf n :
  is_open f = true → n = Z.of_nat (length buf) →
  Write f buf n =
    Goes (mkUnix (take (Z.to_nat (pos f)) (bytes f ++ replicate (Z.to_nat (pos f) - length (bytes f)) 0) ++ buf ++
                  drop (Z.to_nat (pos f) + length buf) (bytes f)) (pos f + n) true).
Proof.
  intros Ho ->. unfold Write. rewrite Ho, Hwrites. destruct (Z.ltb_spec (Z.of_nat (length buf)) 0); [lia|]. done.
Qed.

Lemma total_nonneg l : 0 ≤ foldr (λ sec z, Z.max 0 (s_size sec) + z) 0 l.
Proof. induction l; simpl; lia. Qed.

Lemma total_snoc l sec :
  foldr (λ sec z, Z.max 0 (s_size sec) + z) 0 (l ++ [sec]) = foldr (λ sec z, Z.max 0 (s_size sec) + z) 0 l + Z.max 0 (s_size sec).
Proof. induction l as [|x l IH]; simpl; [lia|]. rewrite IH. lia. Qed.

Lemma write_behind (body sb : list Z) (n : Z) :
  n = sizeof_NoffHeader + Z.of_nat (length body) →
  let b := if body is [] then [] else replicate (Z.to_nat sizeof_NoffHeader) 0 ++ body in
  take (Z.to_nat n) (b ++ replicate (Z.to_nat n - length b) 0) ++ sb ++ drop (Z.to_nat n + length sb) b =
    replicate (Z.to_nat sizeof_NoffHeader) 0 ++ body ++ sb.
Proof.
  intros -> b. assert (take (Z.to_nat (sizeof_NoffHeader + Z.of_nat (length body)))
      (b ++ replicate (Z.to_nat (sizeof_NoffHeader + Z.of_nat (length body)) - length b) 0) = replicate (Z.to_nat sizeof_NoffHeader) 0 ++ body) as ->.
  { unfold b. destruct body as [|x body]; [done|]. rewrite length_app, length_replicate.
    replace (_ - _)%nat with 0%nat by (unfold sizeof_NoffHeader; simpl; lia). rewrite app_nil_r. apply take_ge.
    rewrite length_app, length_replicate. unfold sizeof_NoffHeader. lia. }
  rewrite <- (assoc_L (++)). f_equal. f_equal. rewrite (drop_ge b), app_nil_r; [done|]. unfold b. destruct body; [simpl; lia|].
  rewrite length_app, length_replicate. unfold sizeof_NoffHeader. lia.
Qed.

Lemma section_bytes_sub file sec : section_bytes file sec ⊆ file.
Proof. unfold section_bytes. etrans; [apply subseteq_take|apply subseteq_drop]. Qed.

(** The data of a section goes behind the body. *)
Lemma copy_section_ok file l s body h sec :
  loop_ok file l s body → 0 < s_size sec → 0 ≤ s_scnptr sec → s_scnptr sec + s_size sec ≤ Z.of_nat (length file) →
  sizeof_NoffHeader + foldr (λ sec z, Z.max 0 (s_size sec) + z) 0 (l ++ [sec]) < 2 ^ 31 →
  ∃ s', copy_section s h sec = Goes s' ∧ noffH s' = h ∧ bytes (fdIn s') = file ∧
    let body' := body ++ section_bytes file sec in
    bytes (fdOut s') = replicate (Z.to_nat sizeof_NoffHeader) 0 ++ body' ∧ pos (fdOut s') = sizeof_NoffHeader + Z.of_nat (length body') ∧
    is_open (fdOut s') = true ∧ inNoffFile s' = sizeof_NoffHeader + Z.of_nat (length body') ∧
    Z.of_nat (length body') ≤ foldr (λ sec z, Z.max 0 (s_size sec) + z) 0 (l ++ [sec]).
Proof.
  intros [L1 L2 L3 L4 L5 L6 _ _ _] Hs Hp Hl Hsmall. unfold copy_section, lseek. destruct (Z.ltb_spec (s_scnptr sec) 0); [lia|].
  rewrite Read_ok by (simpl; rewrite ?L1; lia). cbn [mbind run_bind bytes pos is_open]. rewrite L1. fold (section_bytes file sec).
  assert (Z.of_nat (length (section_bytes file sec)) = s_size sec) as Hlen
    by (unfold section_bytes; rewrite length_take, length_drop; lia).
  rewrite Write_ok by done. cbn [mbind run_bind]. eexists. split; [done|]. rewrite total_snoc in *. unfold sizeof_NoffHeader in *.
  cbn [noffH fdIn fdOut bytes pos is_open inNoffFile]. cbv zeta. rewrite length_app. split_and!; try done; try lia.
  - rewrite L2, L3. by apply write_behind.
  - rewrite s32_id; [lia|]. unfold is_s32. lia.
Qed.

Lemma of_kind_snoc k l sec :
  of_kind k (l ++ [sec]) = of_kind k l ++ (if decide (s_size sec ≠ 0 ∧ kind_of sec = Some k) then [sec] else []).
Proof. unfold of_kind. by rewrite filter_app, filter_cons, filter_nil. Qed.

Lemma set_segment_other k k' h seg :
  k ≠ k' → segment k' (match k with Text => set_code h seg | Data => set_initData h seg | Bss => set_uninitData h seg end) = segment k' h.
Proof. by destruct k, k'. Qed.

Lemma set_segment_same k h seg :
  segment k (match k with Text => set_code h seg | Data => set_initData h seg | Bss => set_uninitData h seg end) = seg ∧
  noffMagic (match k with Text => set_code h seg | Data => set_initData h seg | Bss => set_uninitData h seg end) = noffMagic h.
Proof. by destruct k. Qed.

(** The three branches. *)
Lemma step_by_kind file l s body sec k :
  loop_ok file l s body → kind_of sec = Some k → 0 < s_size sec < 2 ^ 31 → s_size sec ≠ 0 → size (segment k (noffH s)) = 0 →
  (kind_of sec ≠ Some Bss → 0 ≤ s_scnptr sec ∧ s_scnptr sec + s_size sec ≤ Z.of_nat (length file)) →
  sizeof_NoffHeader + foldr (λ sec z, Z.max 0 (s_size sec) + z) 0 (l ++ [sec]) < 2 ^ 31 →
  ∃ seg s' body', section_step s sec = Goes s' ∧ bytes (fdIn s') = file ∧
            bytes (fdOut s') = (if body' is [] then [] else replicate (Z.to_nat sizeof_NoffHeader) 0 ++ body') ∧
            pos (fdOut s') = sizeof_NoffHeader + Z.of_nat (length body') ∧ is_open (fdOut s') = true ∧
            inNoffFile s' = sizeof_NoffHeader + Z.of_nat (length body') ∧
            Z.of_nat (length body') ≤ foldr (λ sec z, Z.max 0 (s_size sec) + z) 0 (l ++ [sec]) ∧
            noffH s' = (match k with Text => set_code (noffH s) seg | Data => set_initData (noffH s) seg | Bss => set_uninitData (noffH s) seg end) ∧
            (∃ more, body' = body ++ more ∧ more ⊆ file) ∧
            holds file (replicate (Z.to_nat sizeof_NoffHeader) 0 ++ body') k seg sec.
Proof.
  intros HL Hk Hsz H0 Hempty Hcopied Hsmall. pose proof HL as [L1 L2 L3 L4 L5 L6 LB L7 L8]. unfold section_step.
  destruct (Z.eqb_spec (s_size sec) 0) as [|_]; [done|].
  assert (k ≠ Bss → ∀ h, ∃ s' body', copy_section s h sec = Goes s' ∧ bytes (fdIn s') = file ∧
            bytes (fdOut s') = (if body' is [] then [] else replicate (Z.to_nat sizeof_NoffHeader) 0 ++ body') ∧
            pos (fdOut s') = sizeof_NoffHeader + Z.of_nat (length body') ∧ is_open (fdOut s') = true ∧
            inNoffFile s' = sizeof_NoffHeader + Z.of_nat (length body') ∧
            Z.of_nat (length body') ≤ foldr (λ sec z, Z.max 0 (s_size sec) + z) 0 (l ++ [sec]) ∧ noffH s' = h ∧
            (∃ more, body' = body ++ more ∧ more ⊆ file) ∧
            holds file (replicate (Z.to_nat sizeof_NoffHeader) 0 ++ body') k (new_segment s sec) sec) as Hcopy.
  { intros Hne h. destruct Hcopied as [C1 C2]; [congruence|].
    assert (Z.of_nat (length (section_bytes file sec)) = s_size sec) as Hlen by (unfold section_bytes; rewrite length_take, length_drop; lia).
    destruct (copy_section_ok file l s body h sec HL ltac:(lia) C1 C2 Hsmall) as (s' & E & Eh & Ei & Eo & Ep & Eopen & En & Es).
    exists s', (body ++ section_bytes file sec). split_and!; try done; [|by eexists; split; [done|apply section_bytes_sub]|].
    - rewrite Eo. destruct (body ++ section_bytes file sec) eqn:Eb; [|done]. apply app_nil in Eb as [_ Eb]. rewrite Eb in Hlen. simpl in Hlen. lia.
    - unfold new_segment. split; cbn [virtualAddr size inFileAddr]; [done|done|]. intros _. rewrite L5, !length_app, length_replicate. unfold sizeof_NoffHeader in *.
      split_and!; [lia|lia|]. rewrite drop_app_ge by (rewrite length_replicate; lia). rewrite length_replicate.
      replace (Z.to_nat (40 + Z.of_nat (length body)) - Z.to_nat 40)%nat with (length body) by lia. rewrite drop_app_length. apply take_ge. lia. }
  unfold kind_of in Hk. destruct (is_named dot_text (s_name sec)); [simplify_eq|].
  { destruct (Hcopy ltac:(done) (set_code (noffH s) (new_segment s sec))) as (s' & body' & E & R). exists (new_segment s sec), s', body'. done. }
  destruct (is_named dot_data (s_name sec) || is_named dot_rdata (s_name sec)); [simplify_eq|].
  { simpl in Hempty. rewrite Hempty. cbn [Z.eqb negb].
    destruct (Hcopy ltac:(done) (set_initData (noffH s) (new_segment s sec))) as (s' & body' & E & R). exists (new_segment s sec), s', body'. done. }
  destruct (is_named dot_bss (s_name sec) || is_named dot_sbss (s_name sec)); [simplify_eq|done].
  simpl in Hempty. rewrite Hempty. cbn [Z.eqb negb]. do 2 eexists. exists body. split; [done|]. simpl. rewrite total_snoc.
  split_and!; try done; [lia|exists []; rewrite app_nil_r; split; [done|apply list_subseteq_nil]].
Qed.

(** One round, for the section that follows [l]. *)
Lemma section_step_ok file l sec rest s body :
  acceptable file (l ++ sec :: rest) → loop_ok file l s body →
  ∃ s' body', section_step s sec = Goes s' ∧ loop_ok file (l ++ [sec]) s' body'.
Proof.
  intros Ha HL. pose proof HL as [L1 L2 L3 L4 L5 L6 LB L7 L8].
  assert (sizeof_NoffHeader + foldr (λ sec z, Z.max 0 (s_size sec) + z) 0 (l ++ [sec]) < 2 ^ 31) as Hsmall.
  { pose proof (a_small _ _ Ha) as Hs. rewrite foldr_app in Hs. simpl in Hs. rewrite total_snoc.
    revert Hs. generalize (total_nonneg rest). generalize (foldr (λ sec z, Z.max 0 (s_size sec) + z) 0 rest). intros z Hz Hs.
    assert (∀ l x, foldr (λ sec z, Z.max 0 (s_size sec) + z) x l = foldr (λ sec z, Z.max 0 (s_size sec) + z) 0 l + x) as Hf.
    { clear. induction l as [|y l IH]; intros x; simpl; [done|]. rewrite (IH x), (IH 0). lia. }
    rewrite Hf in Hs. lia. }
  destruct (decide (s_size sec = 0)) as [H0|H0].
  { exists s, body. unfold section_step. rewrite H0, Z.eqb_refl. split; [done|]. split; try done.
    - rewrite total_snoc. lia.
    - intros k. rewrite of_kind_snoc, decide_False by (by intros [? _]). rewrite app_nil_r. apply L8. }
  destruct (a_known _ _ Ha sec) as ([k Hk] & Hsz & Hpa & Hcopied); [apply elem_of_app; right; left|done|].
  assert (of_kind k l = []) as Hnone.
  { pose proof (a_once _ _ Ha k) as H1. unfold of_kind in *. rewrite filter_app, filter_cons, decide_True, length_app in H1 by done.
    simpl in H1. destruct (filter _ l); [done|simpl in H1; lia]. }
  pose proof (L8 k) as Hempty. rewrite Hnone in Hempty.
  assert (∃ seg s' body', section_step s sec = Goes s' ∧ bytes (fdIn s') = file ∧
            bytes (fdOut s') = (if body' is [] then [] else replicate (Z.to_nat sizeof_NoffHeader) 0 ++ body') ∧
            pos (fdOut s') = sizeof_NoffHeader + Z.of_nat (length body') ∧ is_open (fdOut s') = true ∧
            inNoffFile s' = sizeof_NoffHeader + Z.of_nat (length body') ∧
            Z.of_nat (length body') ≤ foldr (λ sec z, Z.max 0 (s_size sec) + z) 0 (l ++ [sec]) ∧
            noffH s' = (match k with Text => set_code (noffH s) seg | Data => set_initData (noffH s) seg | Bss => set_uninitData (noffH s) seg end) ∧
            (∃ more, body' = body ++ more ∧ more ⊆ file) ∧
            holds file (replicate (Z.to_nat sizeof_NoffHeader) 0 ++ body') k seg sec) as
    (seg & s' & body' & Hstep & G1 & G2 & G3 & G4 & G5 & G6 & G7 & (more & G8 & GB) & G9).
  { by eapply step_by_kind. }
  exists s', body'. split; [done|]. destruct (set_segment_same k (noffH s) seg) as [Q1 Q2]. split; try done.
  - rewrite G8. intros x [Hx|Hx]%elem_of_app; [by apply LB|by apply GB].
  - by rewrite G7, Q2.
  - intros k'. rewrite of_kind_snoc, G7. destruct (decide (k = k')) as [<-|Hne].
    + rewrite Hnone, decide_True by done. simpl. by rewrite Q1.
    + rewrite decide_False by (intros [_ ?]; congruence). rewrite app_nil_r, set_segment_other by done.
      specialize (L8 k'). destruct (of_kind k' l); [done|]. rewrite G8, (assoc_L (++)). by apply holds_app.
Qed.

Lemma sections_loop_ok file rest : ∀ l s body,
  acceptable file (l ++ rest) → loop_ok file l s body →
  ∃ s' body', sections_loop s rest = Goes s' ∧ loop_ok file (l ++ rest) s' body'.
Proof.
  induction rest as [|sec rest IH]; intros l s body Ha HL.
  - exists s, body. by rewrite app_nil_r.
  - destruct (section_step_ok file l sec rest s body Ha HL) as (s1 & body1 & E & HL1). simpl. rewrite E. cbn [mbind run_bind].
    replace (l ++ sec :: rest) with ((l ++ [sec]) ++ rest) in * by by rewrite <- (assoc_L (++)). by eapply IH.
Qed.

(** *** The header that the kernel reads *)

Definition norm_segment (s : Segment) : Segment := mkSegment (s32 (virtualAddr s)) (s32 (inFileAddr s)) (s32 (size s)).

Lemma segment_bytes_length s : length (segment_bytes s) = 12%nat.
Proof. unfold segment_bytes. by rewrite !length_app, !int_bytes_length. Qed.
Lemma noff_bytes_length h : length (header_bytes h) = 40%nat.
Proof. unfold header_bytes. by rewrite !length_app, int_bytes_length, !segment_bytes_length. Qed.

Lemma header_bytes_bytes h : Forall Machine.is_byte (header_bytes h).
Proof. unfold header_bytes, segment_bytes. rewrite !Forall_app. split_and!; apply int_bytes_bytes. Qed.

Lemma int_at_bytes hd x tl o : o = length hd → AddrSpace.int_at HOST_IS_BIG_ENDIAN (hd ++ int_bytes HOST_IS_BIG_ENDIAN x ++ tl) o = s32 x.
Proof. intros Ho. rewrite <- (s32_u32 x). rewrite <- (word_at_int HOST_IS_BIG_ENDIAN hd x tl o Ho). done. Qed.

Lemma segment_at_bytes hd s tl o :
  o = length hd → segment_at HOST_IS_BIG_ENDIAN (hd ++ segment_bytes s ++ tl) o = norm_segment s.
Proof.
  intros ->. unfold segment_at, segment_bytes, norm_segment. rewrite <- !(assoc_L (++)). f_equal.
  - by apply int_at_bytes.
  - rewrite (assoc_L (++) hd). apply int_at_bytes. by rewrite length_app, int_bytes_length.
  - rewrite (assoc_L (++) hd), (assoc_L (++) (hd ++ _)). apply int_at_bytes. by rewrite !length_app, !int_bytes_length, <- Nat.add_assoc.
Qed.

Lemma header_of_bytes h tl :
  header_of HOST_IS_BIG_ENDIAN (header_bytes h ++ tl) =
    mkHeader (s32 (noffMagic h)) (norm_segment (code h)) (norm_segment (initData h)) (norm_segment (uninitData h)).
Proof.
  unfold header_of, header_bytes. rewrite <- !(assoc_L (++)). f_equal.
  - by apply (int_at_bytes []).
  - apply segment_at_bytes. by rewrite int_bytes_length.
  - rewrite (assoc_L (++)). apply segment_at_bytes. by rewrite length_app, int_bytes_length, segment_bytes_length.
  - rewrite (assoc_L (++)), (assoc_L (++) (_ ++ _)). apply segment_at_bytes. by rewrite !length_app, int_bytes_length, !segment_bytes_length.
Qed.

Lemma read_header_bytes uninit h body :
  noffMagic h = NOFFMAGIC →
  read_header HOST_IS_BIG_ENDIAN uninit (header_bytes h ++ body) =
    Ok (mkHeader NOFFMAGIC (norm_segment (code h)) (norm_segment (initData h)) (norm_segment (uninitData h))).
Proof.
  intros Hm. unfold read_header, ReadAt. change (ASSERT (0 >=? 0)) with (@Ok unit tt). run_ok.
  assert (list_inserts 0 (take (Z.to_nat sizeof_NoffHeader) (drop (Z.to_nat 0) (header_bytes h ++ body))) (buffer uninit sizeof_NoffHeader)
          = header_bytes h ++ []) as ->.
  { change (drop (Z.to_nat 0) (header_bytes h ++ body)) with (header_bytes h ++ body).
    rewrite take_app_length' by (by rewrite noff_bytes_length). rewrite app_nil_r. apply inserts_all.
    rewrite noff_bytes_length. unfold buffer. by rewrite length_fmap, length_seq. }
  rewrite header_of_bytes, Hm. reflexivity.
Qed.

Lemma Read_bytes f n buf f' : Read f n = Goes (buf, f') → bytes f' = bytes f.
Proof. unfold Read. case_match; intros; by simplify_eq. Qed.

Lemma read_headers_bytes f secs fin : read_headers f = Goes (secs, fin) → bytes fin = bytes f.
Proof.
  unfold read_headers. intros H.
  destruct (Read f sizeof_filehdr) as [[b1 f1]|] eqn:E1; [|done]. cbn [mbind run_bind] in H. case_match; [done|].
  destruct (Read f1 sizeof_aouthdr) as [[b2 f2]|] eqn:E2; [|done]. cbn [mbind run_bind] in H. case_match; [done|].
  destruct (Read f2 _) as [[b3 f3]|] eqn:E3 in H; [|done]. cbn [mbind run_bind] in H. simplify_eq.
  by rewrite (Read_bytes _ _ _ _ E3), (Read_bytes _ _ _ _ E2), (Read_bytes _ _ _ _ E1).
Qed.

(** The header goes in front of the body, whether or not there is a body. *)
Lemma write_noff_header (body hb : list Z) :
  length hb = Z.to_nat sizeof_NoffHeader →
  let b := if body is [] then [] else replicate (Z.to_nat sizeof_NoffHeader) 0 ++ body in
  take (Z.to_nat 0) (b ++ replicate (Z.to_nat 0 - length b) 0) ++ hb ++ drop (Z.to_nat 0 + length hb) b = hb ++ body.
Proof.
  intros Hl b. rewrite Hl. subst b. change (Z.to_nat 0) with 0%nat. rewrite take_0, app_nil_l. f_equal.
  destruct body; [done|]. apply drop_app_length'. by rewrite length_replicate.
Qed.

(** The place of a segment behind the header does not depend on the header. *)
Lemma holds_header file hb body k seg sec :
  length hb = Z.to_nat sizeof_NoffHeader →
  holds file (replicate (Z.to_nat sizeof_NoffHeader) 0 ++ body) k seg sec → holds file (hb ++ body) k seg sec.
Proof.
  intros Hl [H1 H2 H3]. split; [done|done|]. intros Hk. destruct (H3 Hk) as (A & B & C).
  rewrite length_app, length_replicate in B. rewrite length_app, Hl. split_and!; [done|done|]. rewrite <- C. unfold sizeof_NoffHeader in *.
  rewrite !drop_app_ge by (rewrite ?Hl, ?length_replicate; lia). by rewrite Hl, length_replicate.
Qed.

Lemma segment_norm k m c i u : segment k (mkHeader m (norm_segment c) (norm_segment i) (norm_segment u)) = norm_segment (segment k (mkHeader m c i u)).
Proof. by destruct k. Qed.

Lemma holds_norm file out k seg sec :
  Z.of_nat (length out) < 2 ^ 31 → is_s32 (s_paddr sec) → 0 < s_size sec < 2 ^ 31 →
  holds file out k seg sec → holds file out k (norm_segment seg) sec.
Proof.
  intros Hl Hp Hs [H1 H2 H3]. unfold norm_segment. split; cbn [virtualAddr size inFileAddr].
  - by rewrite H1, s32_id.
  - rewrite H2, s32_id; [done|]. unfold is_s32. lia.
  - intros Hk. destruct (H3 Hk) as (A & B & C). rewrite !s32_id; [done|..]; unfold is_s32, sizeof_NoffHeader in *; lia.
Qed.

(** What the conversion promises: [h] is the header that the kernel finds in [out]. *)
Definition converted (file : list Z) (secs : list scnhdr) (out : list Z) (h : NoffHeader) : Prop :=
  noffMagic h = NOFFMAGIC ∧ Z.of_nat (length out) < 2 ^ 31 ∧
  ∀ k, match of_kind k secs with
       | [] => size (segment k h) = 0
       | sec :: _ => holds file out k (segment k h) sec
       end.

Lemma of_kind_elem k l sec rest : of_kind k l = sec :: rest → sec ∈ l ∧ s_size sec ≠ 0 ∧ kind_of sec = Some k.
Proof.
  intros H. assert (sec ∈ of_kind k l) as Hin by (rewrite H; left). unfold of_kind in Hin. apply list_elem_of_filter in Hin. tauto.
Qed.

Lemma main_converts argc file secs fin uninit :
  3 ≤ argc → read_headers (mkUnix file 0 true) = Goes (secs, fin) → acceptable file secs →
  ∃ out h, main argc (Some file) true = Goes out ∧ read_header HOST_IS_BIG_ENDIAN uninit out = Ok h ∧ converted file secs out h ∧
    (Forall Machine.is_byte file → Forall Machine.is_byte out).
Proof.
  intros Hargc Hh Ha. unfold main. destruct (Z.ltb_spec argc 2); [lia|]. destruct (Z.eqb_spec argc 2); [lia|].
  rewrite Hh. cbn [mbind run_bind andb negb]. pose proof (read_headers_bytes _ _ _ Hh) as Hb. cbn [bytes] in Hb.
  destruct (sections_loop_ok file secs [] (mkState initial_header sizeof_NoffHeader fin (lseek (mkUnix [] 0 true) sizeof_NoffHeader)) [])
    as (s & body & E & [L1 L2 L3 L4 L5 L6 LB L7 L8]); [done| |].
  { split; try done; [apply list_subseteq_nil|by intros []]. }
  rewrite E. cbn [mbind run_bind]. rewrite Write_ok by (by rewrite ?noff_bytes_length). cbn [mbind run_bind bytes pos lseek Z.ltb].
  change (pos (lseek _ 0)) with 0. change (bytes (lseek (fdOut s) 0)) with (bytes (fdOut s)). rewrite L2.
  rewrite write_noff_header by (by rewrite noff_bytes_length). eexists _, _. split; [done|].
  rewrite read_header_bytes by done. split; [done|]. split; [|intros Hf; apply Forall_app; split; [apply header_bytes_bytes|];
    apply Forall_forall; intros x Hx; by eapply Forall_forall, LB]. split; [done|].
  assert (Z.of_nat (length (header_bytes (noffH s) ++ body)) < 2 ^ 31) as Hlen.
  { rewrite length_app, noff_bytes_length. pose proof (a_small _ _ Ha). unfold sizeof_NoffHeader in *. simpl app in L6. lia. }
  split; [done|]. intros k. rewrite segment_norm. specialize (L8 k). rewrite app_nil_l in L8.
  replace (segment k (mkHeader NOFFMAGIC _ _ _)) with (segment k (noffH s)) by (by destruct k).
  destruct (of_kind k secs) as [|sec rest] eqn:Ek; [cbn [norm_segment size]; by rewrite L8|].
  destruct (of_kind_elem _ _ _ _ Ek) as (Hin & H0 & Hk). destruct (a_known _ _ Ha sec Hin H0) as (_ & Hs & Hp & _).
  apply holds_norm; [done|done|done|]. by apply holds_header; [rewrite noff_bytes_length|].
Qed.

(** A section of zeros. *)
Lemma bss_step s a :
  kind_of a = Some Bss → s_size a ≠ 0 →
  let u := uninitData (noffH s) in
  section_step s a =
    if negb (size u =? 0) && (s_paddr a =? s32 (virtualAddr u + size u)) then Exits BssAndSbss
    else Goes (mkState (set_uninitData (noffH s) (if size u =? 0 then mkSegment (s_paddr a) (inFileAddr u) (s_size a)
                 else mkSegment (virtualAddr u) (inFileAddr u) (s32 (size u + s_size a)))) (inNoffFile s) (fdIn s) (fdOut s)).
Proof.
  intros Ka Ha u. unfold kind_of in Ka. unfold section_step. cbv zeta. fold u.
  destruct (Z.eqb_spec (s_size a) 0); [done|]. destruct (is_named dot_text (s_name a)); [done|].
  destruct (is_named dot_data (s_name a) || is_named dot_rdata (s_name a)); [done|].
  destruct (is_named dot_bss (s_name a) || is_named dot_sbss (s_name a)); [|done].
  by destruct (size u =? 0), (s_paddr a =? s32 (virtualAddr u + size u)).
Qed.

(** Of two sections of zeros, the second is compared with the end of the first. *)
Lemma two_bss s a b :
  kind_of a = Some Bss → kind_of b = Some Bss → 0 < s_size a < 2 ^ 31 → s_size b ≠ 0 → size (uninitData (noffH s)) = 0 →
  sections_loop s [a; b] =
    if s_paddr b =? s32 (s_paddr a + s_size a) then Exits BssAndSbss
    else Goes (mkState (set_uninitData (noffH s)
                 (mkSegment (s_paddr a) (inFileAddr (uninitData (noffH s))) (s32 (s_size a + s_size b)))) (inNoffFile s) (fdIn s) (fdOut s)).
Proof.
  intros Ka Kb Ha Hb Hs. cbn [sections_loop]. rewrite bss_step by (done || lia). rewrite Hs. cbn [Z.eqb negb andb mbind run_bind].
  rewrite bss_step by done. cbn [noffH set_uninitData uninitData size virtualAddr inFileAddr inNoffFile fdIn fdOut].
  destruct (Z.eqb_spec (s_size a) 0); [lia|]. cbn [negb andb]. by destruct (s_paddr b =? s32 (s_paddr a + s_size a)).
Qed.

End coff2noff.

(** ** Properties *)

(** The size of the section of a kind, and its bytes laid over memory. *)
Definition size_of_kind (k : kind) (secs : list scnhdr) : Z :=
  match of_kind k secs with [] => 0 | sec :: _ => s_size sec end.
Definition lay (file : list Z) (k : kind) (secs : list scnhdr) (mem : list Z) : list Z :=
  match of_kind k secs with
  | [] => mem
  | sec :: _ => list_inserts (Z.to_nat (s_paddr sec)) (section_bytes file sec) mem
  end.

(** The pages that the kernel gives to the program. *)
Definition program_pages (secs : list scnhdr) : Z :=
  divRoundUp (u32 (size_of_kind Text secs + size_of_kind Data secs + size_of_kind Bss secs + UserStackSize)) Machine.PageSize.

(** A section that is loaded has an address within the program. *)
Definition fits (secs : list scnhdr) : Prop :=
  ∀ k sec, k ≠ Bss → sec ∈ of_kind k secs →
    0 ≤ s_paddr sec ∧ s_paddr sec + s_size sec ≤ program_pages secs * Machine.PageSize ∧ Spaces.one_piece (s_paddr sec) (s_size sec).

Lemma converted_size file secs out h k : converted file secs out h → size (segment k h) = size_of_kind k secs.
Proof.
  intros (_ & _ & H). specialize (H k). unfold size_of_kind. destruct (of_kind k secs); [done|]. apply H.
Qed.

Lemma converted_loads file secs out h k :
  converted file secs out h → fits secs → k ≠ Bss → Spaces.segment_loads (program_pages secs) out (segment k h).
Proof.
  intros (_ & _ & H) Hf Hk Hpos. specialize (H k). destruct (of_kind k secs) as [|sec l] eqn:E; [lia|].
  destruct H as [-> -> H3]. destruct (H3 Hk) as (A & B & _). destruct (Hf k sec Hk) as (F1 & F2 & F3); [rewrite E; left|].
  unfold sizeof_NoffHeader in A. split_and!; try done; lia.
Qed.

Lemma converted_lay file secs out h k mem :
  converted file secs out h → k ≠ Bss → Spaces.overlay out (segment k h) mem = lay file k secs mem.
Proof.
  intros (_ & _ & H) Hk. specialize (H k). unfold Spaces.overlay, Spaces.segment_bytes, lay. destruct (of_kind k secs) as [|sec l].
  - by rewrite H.
  - destruct H as [-> -> H3]. destruct (H3 Hk) as (_ & _ & C). rewrite <- C. f_equal.
Qed.

(** A COFF file that the comment of coff2noff.c allows is converted, and the
    NOFF file has a header that the kernel accepts and in which each segment is
    the section of its kind: same address, same size, and the bytes of the
    section at the place in the file that the header names; a kind without a
    section has size 0. *)
Theorem coff2noff_converts E writes garbage argc file secs fin uninit :
  (∀ p, writes p = true) → 3 ≤ argc → read_headers E (mkUnix file 0 true) = Goes (secs, fin) → acceptable file secs →
  ∃ out h, main E writes garbage argc (Some file) true = Goes out ∧ read_header E uninit out = Ok h ∧ converted file secs out h.
Proof.
  intros Hw Ha Hr Hacc. destruct (main_converts E writes garbage Hw argc file secs fin uninit Ha Hr Hacc) as (out & h & A & B & C & _). eauto.
Qed.

(** C22: from the linker to memory.  A COFF file whose sections have names that
    coff2noff knows and lie in the file, at most one of each kind and less than
    2^31 bytes in all ([acceptable]), whose .text and .data lie in the pages of
    the program and do not cross the end of a page if they are shorter than one
    ([fits]), with as many frames free as the program needs: coff2noff, called
    with both file names and writes that do not fail, writes a program that
    [AddrSpace::AddrSpace] loads, and the memory of the new process holds the
    .text and .data sections of the COFF file at their addresses, and zeros
    elsewhere (so in .bss and the stack); no other address space changes. *)
Theorem coff_program_in_memory {A} `{PageAllocatorLaws A} E writes garbage argc file secs fin uninit stale_entry stale_pcb (w : world A) ss :
  (∀ p, writes p = true) → 3 ≤ argc → read_headers E (mkUnix file 0 true) = Goes (secs, fin) → acceptable file secs →
  Forall Machine.is_byte file → fits secs → Spaces.Inv w ss →
  program_pages secs ≤ Machine.NumPhysPages - Z.of_nat (base.size (frames (memoryManager w))) →
  ∃ out s w', main E writes garbage argc (Some file) true = Goes out ∧
    AddrSpace_new E uninit stale_entry stale_pcb w out = Ok (s, w') ∧ numPages s = program_pages secs ∧ Spaces.Inv w' (s :: ss) ∧
    Spaces.contents w' s = lay file Data secs (lay file Text secs (replicate (Z.to_nat (program_pages secs * Machine.PageSize)) 0)) ∧
    Spaces.untouched w w' ss.
Proof.
  intros Hw Ha Hr Hacc Hb Hfit HI Hroom.
  destruct (main_converts E writes garbage Hw argc file secs fin uninit Ha Hr Hacc) as (out & h & Hm & Hh & Hc & Hout).
  assert (program_pages secs = divRoundUp (image_size h) Machine.PageSize) as Hn.
  { unfold program_pages, image_size. by rewrite <- !(converted_size file secs out h) by done. }
  destruct (Spaces.AddrSpace_new_ok E uninit stale_entry stale_pcb w ss out h (program_pages secs) HI Hh Hn (Hout Hb))
    as (s & w' & En & Hnp & HI' & Hcont & Hun); [by apply (converted_loads file _ _ _ Text)|by apply (converted_loads file _ _ _ Data)|done|].
  exists out, s, w'. split_and!; try done. rewrite Hcont. unfold Spaces.image.
  change (initData h) with (segment Data h). change (code h) with (segment Text h).
  by rewrite !(converted_lay file secs out h) by done.
Qed.

(** The test of coff2noff.c that .bss and .sbss are contiguous is the wrong way
    round: two sections that are contiguous are refused, and two that are not are
    merged into one segment that has the start of the first. *)
Theorem bss_check_inverted writes s a b :
  kind_of a = Some Bss → kind_of b = Some Bss → 0 < s_size a < 2 ^ 31 → s_size b ≠ 0 → is_s32 (s_paddr a + s_size a) →
  size (uninitData (noffH s)) = 0 →
  (s_paddr b = s_paddr a + s_size a → sections_loop writes s [a; b] = Exits BssAndSbss) ∧
  (s_paddr b ≠ s_paddr a + s_size a → ∃ s', sections_loop writes s [a; b] = Goes s' ∧
     virtualAddr (uninitData (noffH s')) = s_paddr a ∧ size (uninitData (noffH s')) = s32 (s_size a + s_size b)).
Proof.
  intros Ka Kb Ha Hb Hi Hs. rewrite two_bss by done. rewrite s32_id by done.
  split; intros Hp; [by rewrite Hp, Z.eqb_refl|]. destruct (Z.eqb_spec (s_paddr b) (s_paddr a + s_size a)); [done|]. eauto.
Qed.

(** *** Examples *)

(** A COFF file with a .text section of eight bytes at address 0, a .data section
    of four at 128 and a .bss section. *)
Definition section_header (name : list Z) (paddr size scnptr : Z) : list Z :=
  name ++ replicate (8 - length name) 0 ++ int_bytes false paddr ++ int_bytes false paddr ++
  int_bytes false size ++ int_bytes false scnptr ++ replicate 16 0.
Definition coff_file : list Z :=
  [0x62; 0x01; 3; 0] ++ replicate 16 0 ++ [0x07; 0x01] ++ replicate 54 0 ++
  section_header dot_text 0 8 196 ++ section_header dot_data 128 4 204 ++ section_header dot_bss 132 200 0 ++
  [1; 2; 3; 4; 5; 6; 7; 8; 21; 22; 23; 24].

Definition coff_sections : list scnhdr :=
  [mkScnhdr (dot_text ++ [0; 0; 0]) 0 8 196; mkScnhdr (dot_data ++ [0; 0; 0]) 128 4 204; mkScnhdr (dot_bss ++ [0; 0; 0; 0]) 132 200 0].

Definition no_header : NoffHeader := mkHeader 5 (mkSegment 5 5 5) (mkSegment 6 6 6) (mkSegment 7 7 7).

Lemma coff_file_headers : read_headers false (mkUnix coff_file 0 true) = Goes (coff_sections, mkUnix coff_file 196 true).
Proof. vm_compute. reflexivity. Qed.

Lemma coff_file_acceptable : acceptable coff_file coff_sections.
Proof.
  split.
  - intros sec Hin H0. unfold coff_sections in Hin. rewrite !elem_of_cons in Hin. destruct Hin as [->|[->|[->|Hin]]]; [..|by apply not_elem_of_nil in Hin];
      (split; [vm_compute; eauto|]); (split; [simpl; lia|]); (split; [vm_compute; split; congruence|]); intros Hb; vm_compute in Hb |- *; try done.
  - by intros [].
  - vm_compute. reflexivity.
Qed.

Lemma coff2noff_converts_witness :
  ∃ out h, main false (λ _, true) no_header 3 (Some coff_file) true = Goes out ∧ read_header false Spaces.junk out = Ok h ∧
    converted coff_file coff_sections out h.
Proof.
  exact (coff2noff_converts false (λ _, true) no_header 3 coff_file coff_sections _ Spaces.junk (λ _, eq_refl) ltac:(lia)
           coff_file_headers coff_file_acceptable).
Defined.

Lemma coff_file_fits : fits coff_sections.
Proof.
  intros [] sec Hk Hin; [..|done]; apply list_elem_of_singleton in Hin as ->; vm_compute; split_and!; congruence.
Qed.

Lemma coff_program_in_memory_witness :
  ∃ out s w', main false (λ _, true) no_header 3 (Some coff_file) true = Goes out ∧
    AddrSpace_new false Spaces.junk Spaces.junk_entry 0 Spaces.boot out = Ok (s, w') ∧ numPages s = 10 ∧
    take 4 (drop 126 (Spaces.contents w' s)) = [0; 0; 21; 22].
Proof.
  destruct (coff_program_in_memory false (λ _, true) no_header 3 coff_file coff_sections _ Spaces.junk Spaces.junk_entry 0 Spaces.boot []
    (λ _, eq_refl) ltac:(lia) coff_file_headers coff_file_acceptable) as (out & s & w' & A & B & C & _ & D & _).
  - by apply Frames.bytes_check.
  - apply coff_file_fits.
  - apply Spaces.boot_inv.
  - vm_compute. congruence.
  - exists out, s, w'. split; [exact A|]. split; [exact B|]. split; [exact C|]. rewrite D. vm_compute. reflexivity.
Defined.

(** .bss and .sbss next to each other, as the linker places them. *)
Lemma bss_check_inverted_witness :
  sections_loop (λ _, true) (mkState (initial_header no_header) 40 (mkUnix [] 0 true) (mkUnix [] 40 true))
    [mkScnhdr (dot_bss ++ [0; 0; 0; 0]) 132 200 0; mkScnhdr (dot_sbss ++ [0; 0; 0]) 332 12 0] = Exits BssAndSbss.
Proof.
  apply (bss_check_inverted (λ _, true) (mkState (initial_header no_header) 40 (mkUnix [] 0 true) (mkUnix [] 40 true))
    (mkScnhdr (dot_bss ++ [0; 0; 0; 0]) 132 200 0) (mkScnhdr (dot_sbss ++ [0; 0; 0]) 332 12 0)).
  all: try reflexivity; simpl; unfold is_s32; lia.
Defined.

End Coff.
