(* ===== verification/Interrupt.v ===== *)
(** * Interrupts, simulated time and the timer: machine/interrupt.h,
      machine/interrupt.cc, machine/stats.h, machine/stats.cc,
      machine/timer.h, machine/timer.cc

    Devices schedule interrupts at future times; time advances when interrupts
    are enabled, with every user instruction, and when nothing can run.  An
    interrupt handler is called through a pointer: [call] is what the code at
    that address does to the devices, and which of the two operations that a
    handler may use on the interrupt simulation it calls, in which order. *)

From stdpp Require Import base list gmap sorting.
From S2P Require Import Prelude Lists Machine Threads.

Module Interrupt.
Import ListModel.

(** ** stats.h *)

Definition UserTick : Z := 1.
Definition SystemTick : Z := 10.
Definition TimerTicks : Z := 100.

(** The counters of the devices, which only the devices change. *)
Record Counters := mkCounters {
  numDiskReads : Z; numDiskWrites : Z;
  numConsoleCharsRead : Z; numConsoleCharsWritten : Z;
  numPageFaults : Z; numPacketsSent : Z; numPacketsRecvd : Z;
}.

(** [class Statistics]. *)
Record Statistics := mkStats {
  totalTicks : Z;
  idleTicks : Z;
  systemTicks : Z;
  userTicks : Z;
  counters : Counters;
}.

Definition Statistics_new : Statistics := mkStats 0 0 0 0 (mkCounters 0 0 0 0 0 0 0).

(** ** interrupt.h *)

Inductive MachineStatus := IdleMode | SystemMode | UserMode.
#[global] Instance MachineStatus_eq_dec : EqDecision MachineStatus.
Proof. solve_decision. Defined.

Inductive IntType :=
  | TimerInt | DiskInt | ConsoleWriteInt | ConsoleReadInt | NetworkSendInt | NetworkRecvInt.
#[global] Instance IntType_eq_dec : EqDecision IntType.
Proof. solve_decision. Defined.

(** [class PendingInterrupt]; [handler] is the address of the function. *)
Record PendingInterrupt := mkPending {
  handler : Z;
  arg : Z;
  when : Z;
  type : IntType;
}.

(** [class Interrupt]. *)
Record Interrupt := mkInterrupt {
  level : Threads.IntStatus;
  pending : qlist;
  inHandler : bool;
  yieldOnReturn : bool;
  status : MachineStatus;
}.

Definition Interrupt_new : Interrupt :=
  mkInterrupt Threads.IntOff empty false false SystemMode.

(** What a handler asks of the interrupt simulation. *)
Inductive action :=
  | ActSchedule (handler arg fromNow : Z) (type : IntType)
  | ActYieldOnReturn.

Section interrupt.
Context {D : Type}.
Context (call : Z → Z → MachineStatus → D → result (D * list action)).

(** The globals [interrupt], [stats] and [machine] (null when the kernel was
    built without USER_PROGRAM), the interrupts that were allocated, and the
    devices. *)
Record sim := mkSim {
  interrupt : Interrupt;
  stats : Statistics;
  machine : option Machine.Machine;
  heap : gmap Z PendingInterrupt;
  next : Z;
  devices : D;
}.

Definition set_interrupt (s : sim) (i : Interrupt) : sim :=
  mkSim i (stats s) (machine s) (heap s) (next s) (devices s).
Definition set_stats (s : sim) (x : Statistics) : sim :=
  mkSim (interrupt s) x (machine s) (heap s) (next s) (devices s).
Definition set_machine (s : sim) (x : option Machine.Machine) : sim :=
  mkSim (interrupt s) (stats s) x (heap s) (next s) (devices s).
Definition set_heap (s : sim) (x : gmap Z PendingInterrupt) : sim :=
  mkSim (interrupt s) (stats s) (machine s) x (next s) (devices s).
Definition set_devices (s : sim) (x : D) : sim :=
  mkSim (interrupt s) (stats s) (machine s) (heap s) (next s) x.

Definition set_level (s : sim) (x : Threads.IntStatus) : sim :=
  let i := interrupt s in
  set_interrupt s (mkInterrupt x (pending i) (inHandler i) (yieldOnReturn i) (status i)).
Definition set_pending (s : sim) (x : qlist) : sim :=
  let i := interrupt s in
  set_interrupt s (mkInterrupt (level i) x (inHandler i) (yieldOnReturn i) (status i)).
Definition set_inHandler (s : sim) (x : bool) : sim :=
  let i := interrupt s in
  set_interrupt s (mkInterrupt (level i) (pending i) x (yieldOnReturn i) (status i)).
Definition set_yieldOnReturn (s : sim) (x : bool) : sim :=
  let i := interrupt s in
  set_interrupt s (mkInterrupt (level i) (pending i) (inHandler i) x (status i)).
Definition setStatus (s : sim) (x : MachineStatus) : sim :=
  let i := interrupt s in
  set_interrupt s (mkInterrupt (level i) (pending i) (inHandler i) (yieldOnReturn i) x).

(** ** Operations *)

Definition ChangeLevel (s : sim) (old now : Threads.IntStatus) : sim := set_level s now.

(** [new PendingInterrupt(...)]. *)
Definition PendingInterrupt_new (s : sim) (func param time : Z) (kind : IntType) : Z * sim :=
  (next s, mkSim (interrupt s) (stats s) (machine s)
             (<[next s := mkPending func param time kind]> (heap s)) (next s + 1) (devices s)).

Definition Schedule (s : sim) (func param fromNow : Z) (kind : IntType) : result sim :=
  let when := s32 (totalTicks (stats s) + fromNow) in
  let '(toOccur, s) := PendingInterrupt_new s func param when kind in
  _ ← ASSERT (fromNow >? 0);
  q ← SortedInsert (pending (interrupt s)) toOccur when;
  Ok (set_pending s q).

Definition YieldOnReturn (s : sim) : result sim :=
  _ ← ASSERT (bool_decide (inHandler (interrupt s) = true));
  Ok (set_yieldOnReturn s true).

Definition act (s : sim) (a : action) : result sim :=
  match a with
  | ActSchedule func param fromNow kind => Schedule s func param fromNow kind
  | ActYieldOnReturn => YieldOnReturn s
  end.

Fixpoint acts (s : sim) (l : list action) : result sim :=
  match l with [] => Ok s | a :: l => s ← act s a; acts s l end.

(** [( *(toOccur->handler))(toOccur->arg)]. *)
Definition invoke (s : sim) (p : PendingInterrupt) : result sim :=
  '(d, l) ← call (handler p) (arg p) (status (interrupt s)) (devices s);
  acts (set_devices s d) l.

(** The part of [CheckIfDue] after the checks: call the handler. *)
Definition fire (s : sim) (old : MachineStatus) (toOccur : Z) (p : PendingInterrupt)
    : result (bool * sim) :=
  m ← match machine s with
      | None => Ok None
      | Some m => m ← Machine.DelayedLoad m 0 0; Ok (Some m)
      end;
  let s := set_machine s m in
  let s := setStatus (set_inHandler s true) SystemMode in
  s ← invoke s p;
  let s := set_inHandler (setStatus s old) false in
  Ok (true, set_heap s (delete toOccur (heap s))).

Definition CheckIfDue (s : sim) (advanceClock : bool) : result (bool * sim) :=
  let old := status (interrupt s) in
  _ ← ASSERT (bool_decide (level (interrupt s) = Threads.IntOff));
  match SortedRemove (pending (interrupt s)) with
  | (_, None, _) => Ok (false, s)
  | (toOccur, Some when, q) =>
    let s := set_pending s q in
    let st := stats s in
    if negb advanceClock && (when >? totalTicks st) then
      q ← SortedInsert (pending (interrupt s)) toOccur when;
      Ok (false, set_pending s q)
    else
      let s :=
        if when >? totalTicks st
        then set_stats s (mkStats when (s32 (idleTicks st + (when - totalTicks st)))
                            (systemTicks st) (userTicks st) (counters st))
        else s in
      p ← Threads.find (heap s) toOccur;
      if bool_decide (old = IdleMode) && bool_decide (type p = TimerInt)
         && IsEmpty (pending (interrupt s)) then
        q ← SortedInsert (pending (interrupt s)) toOccur when;
        Ok (false, set_pending s q)
      else
        fire s old toOccur p
  end.

(** [while (CheckIfDue(FALSE));].  The interrupts that are due when the loop
    begins bound the number of rounds. *)
Fixpoint CheckIfDue_loop (fuel : nat) (s : sim) : result sim :=
  '(fired, s) ← CheckIfDue s false;
  if (fired : bool) then
    match fuel with O => Err OutOfFuel | S fuel => CheckIfDue_loop fuel s end
  else Ok s.

Definition fire_due (s : sim) : result sim :=
  CheckIfDue_loop (length (items (pending (interrupt s)))) s.

(** How [OneTick] ends: it returns, or calls [currentThread->Yield()] and, when
    that returns, restores the status it found. *)
Inductive tick :=
  | Returns (s : sim)
  | Yields (s : sim) (old : MachineStatus).

Definition OneTick (s : sim) : result tick :=
  let old := status (interrupt s) in
  let st := stats s in
  let st :=
    if bool_decide (old = SystemMode)
    then mkStats (s32 (totalTicks st + SystemTick)) (idleTicks st)
           (s32 (systemTicks st + SystemTick)) (userTicks st) (counters st)
    else mkStats (s32 (totalTicks st + UserTick)) (idleTicks st) (systemTicks st)
           (s32 (userTicks st + UserTick)) (counters st) in
  let s := set_stats s st in
  let s := ChangeLevel s Threads.IntOn Threads.IntOff in
  s ← fire_due s;
  let s := ChangeLevel s Threads.IntOff Threads.IntOn in
  if yieldOnReturn (interrupt s) then
    let s := set_yieldOnReturn s false in
    Ok (Yields (setStatus s SystemMode) old)
  else Ok (Returns s).

(** The end of [OneTick] after the call of [Yield]. *)
Definition OneTick_end (s : sim) (old : MachineStatus) : sim := setStatus s old.

(** [Interrupt::SetLevel]: the old level, and how it ends. *)
Definition SetLevel (s : sim) (now : Threads.IntStatus) : result (Threads.IntStatus * tick) :=
  let old := level (interrupt s) in
  _ ← ASSERT (bool_decide (now = Threads.IntOff) || bool_decide (inHandler (interrupt s) = false));
  let s := ChangeLevel s old now in
  if bool_decide (now = Threads.IntOn) && bool_decide (old = Threads.IntOff) then
    t ← OneTick s; Ok (old, t)
  else Ok (old, Returns s).

Definition Enable (s : sim) : result tick :=
  '(_, t) ← SetLevel s Threads.IntOn; Ok t.

(** [Interrupt::Idle]: it returns, or halts the machine. *)
Inductive idle := Resumes (s : sim) | Halts (s : sim).

Definition Idle (s : sim) : result idle :=
  let s := setStatus s IdleMode in
  '(fired, s) ← CheckIfDue s true;
  if (fired : bool) then
    s ← fire_due s;
    let s := set_yieldOnReturn s false in
    Ok (Resumes (setStatus s SystemMode))
  else Ok (Halts s).

(** The destructor deletes the pending interrupts. *)
Fixpoint delete_pending (fuel : nat) (s : sim) : result sim :=
  let q := pending (interrupt s) in
  if negb (IsEmpty q) then
    match fuel with
    | O => Err OutOfFuel
    | S fuel =>
      let '(p, q) := Remove q in
      _ ← Threads.find (heap s) p;
      delete_pending fuel (set_heap (set_pending s q) (delete p (heap s)))
    end
  else Ok s.

Definition Interrupt_delete (s : sim) : result sim :=
  delete_pending (length (items (pending (interrupt s)))) s.

(** ** What the devices promise

    [MaxDelay] bounds how far ahead a device schedules, so that the time of an
    interrupt fits an [int] as long as the clock is below [Horizon]. *)
Definition MaxDelay : Z := 2 ^ 20.
Definition Horizon : Z := 2 ^ 31 - 2 ^ 22.

Class Devices := {
  dev_ok : D → Prop;
  known : Z → Z → Prop;
  action_ok a := match a with
    | ActSchedule f x n _ => 0 < n ≤ MaxDelay ∧ known f x
    | ActYieldOnReturn => True
    end;
  dev_call f x d :
    known f x → dev_ok d →
    ∃ d' l, call f x SystemMode d = Ok (d', l) ∧ dev_ok d' ∧ Forall action_ok l;
}.
Context `{!Devices}.
Implicit Types (s : sim).

Definition queue (s : sim) : list (Z * Z) := items (pending (interrupt s)).
Definition now (s : sim) : Z := totalTicks (stats s).

(** ** The invariant *)
Record Inv (s : sim) : Prop := mkInv {
  inv_sorted : StronglySorted by_key (queue s);
  inv_last : dangling (pending (interrupt s)) = false;
  inv_nodup : NoDup (queue s).*1;
  inv_queue : ∀ p k, (p, k) ∈ queue s →
    k < 2 ^ 31 ∧ ∃ i, heap s !! p = Some i ∧ when i = k ∧ known (handler i) (arg i);
  inv_heap : ∀ p i, heap s !! p = Some i → 0 < p < next s;
  inv_machine : match machine s with Some m => Machine.wf_regs m | None => True end;
  inv_devices : dev_ok (devices s);
  inv_time : now s = idleTicks (stats s) + systemTicks (stats s) + userTicks (stats s);
  inv_ticks : 0 ≤ idleTicks (stats s) ∧ 0 ≤ systemTicks (stats s) ∧ 0 ≤ userTicks (stats s);
  inv_next : 0 < next s;
}.

(** What the operations inside a handler leave alone. *)
Record steady (s s' : sim) : Prop := mkSteady {
  st_stats : stats s' = stats s;
  st_level : level (interrupt s') = level (interrupt s);
  st_inHandler : inHandler (interrupt s') = inHandler (interrupt s);
  st_status : status (interrupt s') = status (interrupt s);
  st_machine : machine s' = machine s;
  st_next : next s ≤ next s';
  st_heap : ∀ p, p < next s → heap s' !! p = heap s !! p;
}.

#[local] Instance steady_preorder : PreOrder steady.
Proof.
  split; [by split|]. intros s1 s2 s3 [? ? ? ? ? Hn1 Hh1] [? ? ? ? ? Hn2 Hh2].
  split; try congruence; [lia|]. intros p Hp. by rewrite Hh2, Hh1 by lia.
Qed.

(** The interrupts that came in between: all of them later than now. *)
Definition later (s s' : sim) (new : list (Z * Z)) : Prop :=
  Forall (λ e, now s < e.2 ∧ next s ≤ e.1 < next s') new.

(** What the actions [l] of a handler leave behind: an interrupt for every
    delay, and the request to yield. *)
Definition delays (l : list action) : list Z :=
  omap (λ a, if a is ActSchedule _ _ n _ then Some n else None) l.
Definition asks_yield (l : list action) : bool :=
  existsb (λ a, if a is ActYieldOnReturn then true else false) l.

Definition effects (s s' : sim) (l : list action) (new : list (Z * Z)) : Prop :=
  new.*2 ≡ₚ (Z.add (now s) <$> delays l) ∧
  yieldOnReturn (interrupt s') = yieldOnReturn (interrupt s) || asks_yield l.

Lemma insert_perm q x k q' : SortedInsert q x k = Ok q' → items q' ≡ₚ (x, k) :: items q.
Proof.
  intros E. rewrite (SortedInsert_ok _ _ _ _ E). rewrite <- (before_after k (items q)) at 3.
  by rewrite Permutation_middle.
Qed.

Lemma Schedule_ok s f x n kind :
  Inv s → now s < Horizon → 0 < n ≤ MaxDelay → known f x →
  ∃ s', Schedule s f x n kind = Ok s' ∧ Inv s' ∧ steady s s' ∧
    yieldOnReturn (interrupt s') = yieldOnReturn (interrupt s) ∧ devices s' = devices s ∧
    queue s' ≡ₚ (next s, now s + n) :: queue s ∧ next s' = next s + 1.
Proof.
  intros HI Hh Hn Hk. pose proof HI as [Hso Hl Hnd Hq Hheap Hm Hd Ht Htk Hnx].
  assert (0 ≤ now s) as Hnow by lia.
  assert (s32 (now s + n) = now s + n) as Hs32.
  { apply s32_id. unfold is_s32, Horizon, MaxDelay in *. lia. }
  unfold Schedule. fold (now s). rewrite Hs32. cbn [PendingInterrupt_new]. rewrite Z.gtb_ltb.
  destruct (Z.ltb_spec 0 n); [|lia]. run_ok. cbn [interrupt].
  destruct (SortedInsert_total (pending (interrupt s)) (next s) (now s + n) Hl) as (q & E & Hdq).
  rewrite E. run_ok. eexists. split; [reflexivity|].
  pose proof (insert_perm _ _ _ _ E) as Hp. fold (queue s) in Hp.
  assert (∀ p k, (p, k) ∈ queue s → p < next s) as Hlt.
  { intros p k Hin. apply Hq in Hin as (_ & i & Hi & _). apply Hheap in Hi. lia. }
  split_and!; [|split; try done; simpl; try lia|done|done|exact Hp|done].
  - split; simpl; try done.
    + unfold queue. simpl. rewrite (SortedInsert_ok _ _ _ _ E). by apply sorted_insert_items.
    + unfold queue. simpl. rewrite Hp. csimpl. constructor; [|done].
      intros ([p k] & Heq & Hin)%list_elem_of_fmap. simpl in Heq. apply Hlt in Hin. lia.
    + intros p k Hin. unfold queue in Hin. simpl in Hin. rewrite Hp in Hin.
      apply elem_of_cons in Hin as [[= -> ->]|Hin].
      * unfold Horizon, MaxDelay in *. split; [lia|]. eexists. by rewrite lookup_insert_eq.
      * rewrite lookup_insert_ne; [by apply Hq|]. apply Hlt in Hin. lia.
    + intros p i. destruct (decide (p = next s)) as [->|]; [lia|].
      rewrite lookup_insert_ne by done. intros Hi. apply Hheap in Hi. lia.
    + lia.
  - intros p Hp'. rewrite lookup_insert_ne; [done|lia].
Qed.

Lemma YieldOnReturn_ok s :
  Inv s → inHandler (interrupt s) = true →
  YieldOnReturn s = Ok (set_yieldOnReturn s true) ∧ Inv (set_yieldOnReturn s true).
Proof. intros [] Hin. unfold YieldOnReturn. rewrite Hin. by split. Qed.

(** Everything a handler does. *)
Lemma acts_ok l : ∀ s,
  Inv s → now s < Horizon → inHandler (interrupt s) = true → Forall action_ok l →
  ∃ s' new, acts s l = Ok s' ∧ Inv s' ∧ steady s s' ∧ devices s' = devices s ∧
    queue s' ≡ₚ new ++ queue s ∧ later s s' new ∧ effects s s' l new.
Proof.
  induction l as [|a l IH]; intros s HI Hh Hin Hl.
  { exists s, []. split_and!; try done; [constructor|]. split; [done|]. by rewrite orb_false_r. }
  apply Forall_cons in Hl as [Ha Hl]. destruct a as [f x n kind|]; cbn [acts act].
  - destruct Ha as [Hn Hk].
    destruct (Schedule_ok s f x n kind HI Hh Hn Hk) as (s1 & E & HI1 & Hst & Hy & Hd & Hq & Hnx).
    rewrite E. run_ok. pose proof Hst as [Hstats _ Hih _ _ _ _].
    assert (now s1 = now s) as Hnow by (unfold now; by rewrite Hstats).
    destruct (IH s1 HI1) as (s' & new & E' & HI' & Hst' & Hd' & Hq' & Hnew & Heff & Hy');
      [lia|congruence|done|].
    exists s', (new ++ [(next s, now s + n)]). split_and!; [done|done|by etrans|congruence| | |].
    + rewrite Hq', Hq. by rewrite <- (assoc_L (++)).
    + pose proof (st_next _ _ Hst'). apply Forall_app. split.
      * eapply Forall_impl; [exact Hnew|]. intros e. simpl. lia.
      * constructor; [simpl; lia|constructor].
    + split; [|by rewrite Hy', Hy]. rewrite fmap_app, Heff, Hnow. csimpl.
      by rewrite (comm (++)).
  - destruct (YieldOnReturn_ok s HI Hin) as [E HI1]. rewrite E. run_ok.
    destruct (IH _ HI1 Hh Hin Hl) as (s' & new & E' & HI' & Hst' & Hd' & Hq' & Hnew & Heff & Hy').
    exists s', new. split_and!; [done|done| |done|done|done|].
    + etrans; [|exact Hst']. by split.
    + split; [exact Heff|]. rewrite Hy'. simpl. by rewrite orb_true_r.
Qed.

Lemma fire_ok s old p i :
  Inv s → now s < Horizon → heap s !! p = Some i → p ∉ (queue s).*1 → known (handler i) (arg i) →
  ∃ s' new, fire s old p i = Ok (true, s') ∧ Inv s' ∧ stats s' = stats s ∧
    level (interrupt s') = level (interrupt s) ∧ status (interrupt s') = old ∧
    inHandler (interrupt s') = false ∧ next s ≤ next s' ∧
    queue s' ≡ₚ new ++ queue s ∧ later s s' new ∧
    ∃ l, call (handler i) (arg i) SystemMode (devices s) = Ok (devices s', l) ∧ effects s s' l new.
Proof.
  intros HI Hh Hp Hnin Hk. unfold fire.
  assert (∃ m, (match machine s with
                | None => Ok None
                | Some m => m ← Machine.DelayedLoad m 0 0; Ok (Some m)
                end) = Ok m ∧ match m with Some m => Machine.wf_regs m | None => True end)
    as (m & -> & Hm).
  { pose proof (inv_machine _ HI) as Hm. destruct (machine s) as [m|]; [|by exists None].
    destruct (Machine.DelayedLoad_ok m 0 0 Hm) as (-> & Hm' & _); [done|]. by eexists (Some _). }
  run_ok. set (s1 := setStatus (set_inHandler (set_machine s m) true) SystemMode).
  assert (Inv s1) as HI1 by (by destruct HI).
  destruct (dev_call _ _ _ Hk (inv_devices _ HI)) as (d & l & E & Hd & Hl).
  unfold invoke. cbn [status interrupt s1 setStatus set_interrupt devices set_inHandler set_machine].
  rewrite E. run_ok.
  assert (Inv (set_devices s1 d)) as HI2 by (by destruct HI1).
  destruct (acts_ok l (set_devices s1 d) HI2 Hh eq_refl Hl) as (s2 & new & E2 & HI3 & Hst & Hd2 & Hq & Hnew & Heff).
  rewrite E2. run_ok. pose proof Hst as [Hs1 Hs2 Hs3 Hs4 Hs5 Hs6 Hs7]. simpl in Hs1, Hs2, Hs6, Hs7.
  eexists _, new. split; [reflexivity|].
  split_and!; try done; [|exists l; split; [simpl; by rewrite Hd2|exact Heff]].
  pose proof (inv_heap _ HI _ _ Hp) as Hpn.
  assert (p ∉ (queue s2).*1) as Hnin2.
  { rewrite Hq, fmap_app. intros [Hin|Hin]%elem_of_app; [|done].
    apply list_elem_of_fmap in Hin as (e & -> & He). eapply Forall_forall in Hnew; [|exact He].
    simpl in Hnew. lia. }
  destruct HI3 as [? ? ? Hq3 Hh3 ? ? ? ? ?]. split; try done; simpl.
  - intros q k Hin. destruct (Hq3 q k Hin) as (? & j & Hj & ?). split; [done|]. exists j.
    rewrite lookup_delete_ne; [done|]. intros ->. apply Hnin2.
    by apply (list_elem_of_fmap_2 fst _ (q, k)).
  - intros q j Hj. apply lookup_delete_Some in Hj as [_ Hj]. by eapply Hh3.
Qed.

(** Taking out the head of the queue. *)
Lemma remove_head s p k rest :
  Inv s → queue s = (p, k) :: rest →
  ∃ q, SortedRemove (pending (interrupt s)) = (p, Some k, q) ∧ items q = rest ∧
    Inv (set_pending s q) ∧ (∃ i, heap s !! p = Some i ∧ when i = k ∧ known (handler i) (arg i)) ∧
    (p ∉ rest.*1) ∧ Forall (λ e, k ≤ e.2) rest ∧ k < 2 ^ 31.
Proof.
  intros HI Hq. pose proof HI as [Hso Hl Hnd Hk ? ? ? ? ? ?].
  rewrite Hq in Hso, Hnd. csimpl in Hnd. apply NoDup_cons in Hnd as [Hnin Hnd].
  apply StronglySorted_inv in Hso as [Hso Hle].
  destruct (Hk p k) as [H31 Hi]; [rewrite Hq; set_solver|].
  exists (drop_first (pending (interrupt s)) rest). unfold queue in Hq.
  assert (dangling (drop_first (pending (interrupt s)) rest) = false) as Hdf
    by (unfold drop_first; simpl; by destruct rest).
  split_and!; try done.
  - unfold SortedRemove. by rewrite Hq.
  - split; try done. intros p' k' Hin. apply Hk. unfold queue. rewrite Hq. by right.
Qed.

(** Putting it back. *)
Lemma put_back s q p k i :
  Inv (set_pending s q) → heap s !! p = Some i → when i = k → known (handler i) (arg i) →
  p ∉ (items q).*1 → k < 2 ^ 31 →
  ∃ q', SortedInsert q p k = Ok q' ∧ Inv (set_pending s q') ∧ items q' ≡ₚ (p, k) :: items q.
Proof.
  intros HI Hp Hw Hk Hnin H31. pose proof HI as [Hso Hl Hnd Hq Hheap ? ? ? ? ?].
  destruct (SortedInsert_total q p k Hl) as (q' & E & Hd). pose proof (insert_perm _ _ _ _ E) as Hpm.
  exists q'. split_and!; [done| |done]. split; try done.
  - unfold queue. simpl. rewrite (SortedInsert_ok _ _ _ _ E). by apply sorted_insert_items.
  - unfold queue. simpl. rewrite Hpm. csimpl. by constructor.
  - intros p' k' Hin. unfold queue in Hin. simpl in Hin. rewrite Hpm in Hin.
    apply elem_of_cons in Hin as [[= -> ->]|Hin]; [by eauto 10|by apply Hq].
Qed.

(** What firing interrupts leaves alone. *)
Record quiet (s s' : sim) : Prop := mkQuiet {
  qu_stats : stats s' = stats s;
  qu_level : level (interrupt s') = level (interrupt s);
  qu_status : status (interrupt s') = status (interrupt s);
  qu_inHandler : inHandler (interrupt s') = false;
  qu_next : next s ≤ next s';
}.

Lemma quiet_trans s1 s2 s3 : quiet s1 s2 → quiet s2 s3 → quiet s1 s3.
Proof. intros [] []. split; congruence || lia. Qed.

(** Not yet due. *)
Definition future (t : Z) (e : Z * Z) : Prop := t < e.2.
#[local] Instance future_dec t e : Decision (future t e).
Proof. unfold future. apply _. Defined.

(** Nothing is pending but the timer, while nothing can run: such an interrupt
    is left alone. *)
Definition only_timer (s : sim) : Prop :=
  status (interrupt s) = IdleMode ∧
  ∃ p k i, queue s = [(p, k)] ∧ heap s !! p = Some i ∧ type i = TimerInt.

(** [CheckIfDue(FALSE)] fires the first interrupt if it is due. *)
Lemma check_false_ok s :
  Inv s → level (interrupt s) = Threads.IntOff → inHandler (interrupt s) = false →
  now s < Horizon →
  ∃ s' fired, CheckIfDue s false = Ok (fired, s') ∧ Inv s' ∧ quiet s s' ∧
    if (fired : bool)
    then ∃ p k rest new, queue s = (p, k) :: rest ∧ k ≤ now s ∧
           queue s' ≡ₚ new ++ rest ∧ later s s' new ∧
           ∃ i l, heap s !! p = Some i ∧
             call (handler i) (arg i) SystemMode (devices s) = Ok (devices s', l) ∧ effects s s' l new
    else (queue s' ≡ₚ queue s ∧ (Forall (future (now s)) (queue s) ∨ only_timer s)) ∧
         heap s' = heap s ∧ yieldOnReturn (interrupt s') = yieldOnReturn (interrupt s) ∧
         devices s' = devices s.
Proof.
  intros HI Hlev Hin Hh. unfold CheckIfDue. rewrite Hlev, (bool_decide_true (Threads.IntOff = Threads.IntOff)) by done. run_ok.
  destruct (queue s) as [|[p k] rest] eqn:Eq.
  { unfold queue in Eq. unfold SortedRemove. rewrite Eq. exists s, false.
    split_and!; [done|done|by split|by unfold queue; rewrite Eq|by left|done..]. }
  destruct (remove_head s p k rest HI Eq) as (q & -> & Hq & HIq & (i & Hi & Hw & Hk) & Hnin & Hle & H31).
  cbn [negb andb stats set_pending set_interrupt]. change (totalTicks (stats s)) with (now s).
  rewrite !Z.gtb_ltb. destruct (Z.ltb_spec (now s) k) as [Hlt|Hge].
  - rewrite <- Hq in Hnin. destruct (put_back s q p k i HIq Hi Hw Hk Hnin H31) as (q' & E & HI' & Hp).
    cbn [interrupt pending set_pending set_interrupt]. rewrite E. run_ok. eexists _, false.
    split_and!; [reflexivity|by destruct HI'|by split| | |done..].
    + unfold queue. simpl. by rewrite Hp, Hq.
    + left. constructor; [exact Hlt|]. eapply Forall_impl; [exact Hle|]. unfold future. intros e ?. lia.
  - unfold Threads.find. cbn [heap set_pending set_interrupt]. rewrite Hi. run_ok.
    destruct (bool_decide (status (interrupt s) = IdleMode) && bool_decide (type i = TimerInt)
      && IsEmpty (pending (interrupt (set_pending s q)))) eqn:Etimer.
    + apply andb_true_iff in Etimer as [[Hs Ht]%andb_true_iff Hemp].
      apply bool_decide_eq_true in Hs, Ht. rewrite <- Hq in Hnin.
      destruct (put_back s q p k i HIq Hi Hw Hk Hnin H31) as (q' & E & HI' & Hp).
      cbn [interrupt pending set_pending set_interrupt] in Hemp |- *. rewrite E. run_ok.
      eexists _, false. split_and!; [reflexivity|exact HI'|by split|unfold queue; simpl; by rewrite Hp, Hq| |done..].
      right. split; [done|]. exists p, k, i. split_and!; [|done|done]. rewrite Eq.
      unfold IsEmpty in Hemp. rewrite Hq in Hemp. by destruct rest.
    + destruct (fire_ok (set_pending s q) (status (interrupt s)) p i) as
        (s' & new & E & HI' & Hst & Hl & Hs & Hih & Hnx & Hq' & Hnew & l & Hcall & Heff);
        [done|done|done| |done|].
      { unfold queue. simpl. by rewrite Hq. }
      exists s', true. split_and!; [exact E|done|by split|]. exists p, k, rest, new.
      split_and!; [done|done| |done|by exists i, l]. rewrite Hq'. unfold queue. simpl. by rewrite Hq.
Qed.

Lemma filter_all {B} (P : B → Prop) `{∀ x, Decision (P x)} (l : list B) :
  Forall P l → filter P l = l.
Proof. induction 1; [done|]. rewrite filter_cons_True by done. by f_equal. Qed.

Lemma filter_none {B} (P : B → Prop) `{∀ x, Decision (P x)} (l : list B) :
  Forall (λ x, ¬ P x) l → filter P l = [].
Proof. induction 1; [done|]. by rewrite filter_cons_False by done. Qed.

(** Firing one interrupt leaves one less that is due. *)
Lemma fired_one s s1 p k rest new :
  quiet s s1 → queue s = (p, k) :: rest → k ≤ now s → queue s1 ≡ₚ new ++ rest → later s s1 new →
  now s1 = now s ∧
  filter (future (now s)) (queue s1) ≡ₚ new ++ filter (future (now s)) (queue s) ∧
  length (filter (λ e, ¬ future (now s) e) (queue s)) =
    S (length (filter (λ e, ¬ future (now s) e) (queue s1))).
Proof.
  intros Hqu Hq Hk Hq1 Hnew.
  assert (Forall (future (now s)) new) as Hf.
  { eapply Forall_impl; [exact Hnew|]. unfold future. intros e. simpl. lia. }
  split_and!.
  - unfold now. by rewrite (qu_stats _ _ Hqu).
  - rewrite Hq1, filter_app, (filter_all _ new) by done. rewrite Hq.
    rewrite filter_cons_False; [done|]. unfold future. simpl. lia.
  - rewrite Hq1, filter_app, length_app, (filter_none _ new).
    + rewrite Hq, filter_cons_True; [done|]. unfold future. simpl. lia.
    + eapply Forall_impl; [exact Hf|]. naive_solver.
Qed.

Lemma not_fired s s1 :
  quiet s s1 → queue s1 ≡ₚ queue s ∧ (Forall (future (now s)) (queue s) ∨ only_timer s) →
  (∀ p, heap s1 !! p = heap s !! p) →
  queue s1 ≡ₚ [] ++ filter (future (now s)) (queue s) ∨ only_timer s1.
Proof.
  intros Hqu [Hq [Hf|(Hs & p & k & i & Hqs & Hi & Ht)]] Hheap; [left|right].
  - by rewrite filter_all.
  - split; [by rewrite (qu_status _ _ Hqu)|]. exists p, k, i. rewrite Hheap. split_and!; [|done|done].
    rewrite Hqs in Hq. by apply Permutation_singleton_r in Hq.
Qed.

Lemma fire_due_loop n : ∀ s,
  Inv s → level (interrupt s) = Threads.IntOff → inHandler (interrupt s) = false →
  now s < Horizon → (length (filter (λ e, ¬ future (now s) e) (queue s)) ≤ n)%nat →
  ∃ s' new, CheckIfDue_loop n s = Ok s' ∧ Inv s' ∧ quiet s s' ∧ later s s' new ∧
    (queue s' ≡ₚ new ++ filter (future (now s)) (queue s) ∨ only_timer s').
Proof.
  induction n as [|n IH]; intros s HI Hl Hin Hh Hn;
    destruct (check_false_ok s HI Hl Hin Hh) as (s1 & fired & E & HI1 & Hqu & Hc);
    cbn [CheckIfDue_loop]; rewrite E; run_ok; destruct fired.
  - destruct Hc as (p & k & rest & new & Hq & Hk & Hq1 & Hnew & _).
    destruct (fired_one _ _ _ _ _ _ Hqu Hq Hk Hq1 Hnew) as (_ & _ & Hlen). lia.
  - exists s1, []. split_and!; [done|done|done|constructor|]. destruct Hc as (Hc & Hheap & _).
    apply not_fired; [done|done|]. intros; by rewrite Hheap.
  - destruct Hc as (p & k & rest & new & Hq & Hk & Hq1 & Hnew & _).
    destruct (fired_one _ _ _ _ _ _ Hqu Hq Hk Hq1 Hnew) as (Hnow & Hfil & Hlen).
    destruct (IH s1 HI1) as (s' & new' & E' & HI' & Hqu' & Hnew' & Hq').
    { by rewrite (qu_level _ _ Hqu). } { apply Hqu. } { lia. } { rewrite Hnow. lia. }
    exists s', (new' ++ new). split_and!; [done|done|by eapply quiet_trans| |].
    + pose proof (qu_next _ _ Hqu). pose proof (qu_next _ _ Hqu'). apply Forall_app. split.
      * eapply Forall_impl; [exact Hnew'|]. intros e. simpl. lia.
      * eapply Forall_impl; [exact Hnew|]. intros e. simpl. lia.
    + destruct Hq' as [Hq'|]; [left|by right]. rewrite Hq', Hnow, Hfil. by rewrite (assoc_L (++)).
  - exists s1, []. split_and!; [done|done|done|constructor|]. destruct Hc as (Hc & Hheap & _).
    apply not_fired; [done|done|]. intros; by rewrite Hheap.
Qed.

Lemma fire_due_ok s :
  Inv s → level (interrupt s) = Threads.IntOff → inHandler (interrupt s) = false →
  now s < Horizon →
  ∃ s' new, fire_due s = Ok s' ∧ Inv s' ∧ quiet s s' ∧ later s s' new ∧
    (queue s' ≡ₚ new ++ filter (future (now s)) (queue s) ∨ only_timer s').
Proof.
  intros HI Hl Hin Hh. apply fire_due_loop; [done..|]. apply length_filter.
Qed.

(** ** Time *)

Lemma ticks_small s x :
  Inv s → 0 ≤ x ≤ 2 ^ 22 → now s < Horizon →
  s32 (totalTicks (stats s) + x) = now s + x ∧
  s32 (systemTicks (stats s) + x) = systemTicks (stats s) + x ∧
  s32 (userTicks (stats s) + x) = userTicks (stats s) + x.
Proof.
  intros HI Hx Hh. pose proof (inv_time _ HI) as Ht. pose proof (inv_ticks _ HI).
  unfold now, Horizon in *. split_and!; apply s32_id; unfold is_s32; lia.
Qed.

(** The length of a tick. *)
Definition tick_length (m : MachineStatus) : Z :=
  if decide (m = SystemMode) then SystemTick else UserTick.

Lemma tick_ok s :
  Inv s → now s < Horizon →
  let st := stats s in
  let st' :=
    if bool_decide (status (interrupt s) = SystemMode)
    then mkStats (s32 (totalTicks st + SystemTick)) (idleTicks st)
           (s32 (systemTicks st + SystemTick)) (userTicks st) (counters st)
    else mkStats (s32 (totalTicks st + UserTick)) (idleTicks st) (systemTicks st)
           (s32 (userTicks st + UserTick)) (counters st) in
  Inv (set_stats s st') ∧ totalTicks st' = now s + tick_length (status (interrupt s)).
Proof.
  intros HI Hh. destruct (ticks_small s SystemTick HI) as (E1 & E2 & _); [unfold SystemTick; lia|done|].
  destruct (ticks_small s UserTick HI) as (E3 & _ & E4); [unfold UserTick; lia|done|].
  pose proof (inv_time _ HI) as Ht. pose proof (inv_ticks _ HI) as Htk.
  unfold tick_length, now, SystemTick, UserTick in *.
  destruct (decide (status (interrupt s) = SystemMode)) as [Es|Es];
    [rewrite bool_decide_true by done|rewrite bool_decide_false by done]; simpl;
    rewrite ?E1, ?E2, ?E3, ?E4; (split; [|lia]); destruct HI; (split; try done; simpl; unfold now; simpl; lia).
Qed.

(** The clock jumps to the time of the next interrupt. *)
Lemma jump_ok s k :
  Inv s → now s < k < 2 ^ 31 →
  Inv (set_stats s (mkStats k (s32 (idleTicks (stats s) + (k - totalTicks (stats s))))
                      (systemTicks (stats s)) (userTicks (stats s)) (counters (stats s)))).
Proof.
  intros HI Hk. pose proof (inv_time _ HI) as Ht. pose proof (inv_ticks _ HI) as Htk.
  unfold now in *. destruct HI. split; try done; simpl; unfold now; simpl;
    rewrite s32_id by (unfold is_s32; lia); lia.
Qed.

Definition tick_state (t : tick) : sim := match t with Returns s | Yields s _ => s end.

(** [CheckIfDue(TRUE)]: the clock goes to the first interrupt, which is fired
    unless only the timer is left and nothing can run. *)
Lemma check_true_ok s p k rest i :
  Inv s → level (interrupt s) = Threads.IntOff → inHandler (interrupt s) = false →
  now s < Horizon → k < Horizon → queue s = (p, k) :: rest → heap s !! p = Some i →
  ∃ s' fired, CheckIfDue s true = Ok (fired, s') ∧ Inv s' ∧ now s' = Z.max (now s) k ∧
    level (interrupt s') = Threads.IntOff ∧ inHandler (interrupt s') = false ∧
    status (interrupt s') = status (interrupt s) ∧ next s ≤ next s' ∧
    fired = negb (bool_decide (status (interrupt s) = IdleMode) && bool_decide (type i = TimerInt)
                  && bool_decide (rest = [])) ∧
    if (fired : bool) then ∃ new, queue s' ≡ₚ new ++ rest ∧
      Forall (λ e, now s' < e.2 ∧ next s ≤ e.1) new
    else queue s' = queue s.
Proof.
  intros HI Hlev Hin Hh Hkh Eq Hpi. unfold CheckIfDue.
  rewrite Hlev, (bool_decide_true (Threads.IntOff = Threads.IntOff)) by done. run_ok.
  destruct (remove_head s p k rest HI Eq) as (q & -> & Hq & HIq & (i' & Hi & Hw & Hk) & Hnin & Hle & H31).
  assert (i' = i) as -> by congruence. subst k rest. cbn [negb andb stats set_pending set_interrupt].
  change (totalTicks (stats s)) with (now s). rewrite Z.gtb_ltb.
  set (s1 := if now s <? when i then set_stats (set_pending s q) _ else set_pending s q).
  assert (Inv s1 ∧ now s1 = Z.max (now s) (when i) ∧ interrupt s1 = interrupt (set_pending s q) ∧
          heap s1 = heap s ∧ next s1 = next s) as (HI1 & Hn1 & Hint & Hheap & Hnx).
  { unfold s1. destruct (Z.ltb_spec (now s) (when i)).
    - split_and!; [by apply (jump_ok (set_pending s q))|simpl; unfold now at 1; simpl; lia|done..].
    - split_and!; [done|change (now (set_pending s q)) with (now s); lia|done..]. }
  assert (queue s1 = items q) as Hq1 by (unfold queue; by rewrite Hint).
  clearbody s1. unfold Threads.find. rewrite Hheap, Hi. run_ok.
  assert (IsEmpty (pending (interrupt s1)) = bool_decide (items q = [])) as ->.
  { rewrite Hint. simpl. unfold IsEmpty. by destruct (items q). }
  destruct (bool_decide (status (interrupt s) = IdleMode) && bool_decide (type i = TimerInt)
    && bool_decide (items q = [])) eqn:Et.
  - pose proof Et as [_ Hemp]%andb_true_iff. apply bool_decide_eq_true in Hemp.
    assert (Inv (set_pending s1 q)) as HIq1.
    { destruct s1 as [[] ? ? ? ? ?]. simpl in *. unfold set_pending, set_interrupt in *. simpl in *.
      injection Hint as -> -> -> -> ->. done. }
    destruct (put_back s1 q p (when i) i HIq1) as (q' & E & HI' & Hp); [by rewrite Hheap|done..|].
    rewrite Hint. cbn [interrupt pending set_pending set_interrupt]. rewrite E. run_ok.
    eexists _, false. split; [reflexivity|]. split_and!; try done; simpl; rewrite ?Hint; try done.
    + by rewrite Hnx.
    + rewrite Eq, Hemp. rewrite Hemp in Hp. by apply Permutation_singleton_r in Hp.
  - destruct (fire_ok s1 (status (interrupt s)) p i) as
      (s' & new & E & HI' & Hst & Hl & Hs & Hih & Hnx' & Hq' & Hnew & _);
      [done|lia|by rewrite Hheap| |done|].
    { by rewrite Hq1. }
    exists s', true. assert (now s' = now s1) as Hn' by (unfold now; by rewrite Hst).
    split; [exact E|]. split_and!; try done.
    + by rewrite Hn', Hn1.
    + by rewrite Hl, Hint.
    + by rewrite <- Hnx.
    + exists new. rewrite <- Hq1. split; [done|]. eapply Forall_impl; [exact Hnew|].
      intros e. simpl. rewrite Hn', Hnx. lia.
Qed.

(** ** Properties *)

(** Every interrupt fires at the first tick at or after its time.  [OneTick]
    returns, whatever is pending; it advances the clock by the tick of the
    mode; it fires exactly the interrupts whose time has come, all of them,
    and none that the handlers schedule meanwhile, since those are later; then
    interrupts are on, nothing that is pending is due, and the invariant
    holds: the queue is sorted by time and the total time is the sum of idle,
    system and user time.  When the timer asked for it, the thread yields in
    system mode, after which the old mode is restored. *)
Theorem one_tick_fires_due s :
  Inv s → inHandler (interrupt s) = false → status (interrupt s) ≠ IdleMode →
  now s + SystemTick < Horizon →
  ∃ t new, OneTick s = Ok t ∧ Inv (tick_state t) ∧
    now (tick_state t) = now s + tick_length (status (interrupt s)) ∧
    queue (tick_state t) ≡ₚ new ++ filter (future (now (tick_state t))) (queue s) ∧
    Forall (λ e, next s ≤ e.1) new ∧
    Forall (future (now (tick_state t))) (queue (tick_state t)) ∧
    level (interrupt (tick_state t)) = Threads.IntOn ∧
    yieldOnReturn (interrupt (tick_state t)) = false ∧
    match t with
    | Returns s' => status (interrupt s') = status (interrupt s)
    | Yields s' old => status (interrupt s') = SystemMode ∧ old = status (interrupt s) ∧
        OneTick_end s' old = setStatus s' (status (interrupt s))
    end.
Proof.
  intros HI Hin Hmode Hh. destruct (tick_ok s HI ltac:(unfold SystemTick in *; lia)) as [HI1 Hnow].
  unfold OneTick. set (st' := if bool_decide _ then _ else _) in *.
  set (s1 := ChangeLevel (set_stats s st') Threads.IntOn Threads.IntOff).
  assert (now s1 = now s + tick_length (status (interrupt s))) as Hnow1 by done.
  assert (Inv s1) as HI1' by (by destruct HI1).
  destruct (fire_due_ok s1 HI1' eq_refl Hin) as (s2 & new & E & HI2 & Hqu & Hnew & Hq).
  { rewrite Hnow1. unfold tick_length, SystemTick, UserTick in *. case_decide; lia. }
  destruct Hq as [Hq|[Hidle _]]; [|by rewrite (qu_status _ _ Hqu) in Hidle].
  rewrite E. run_ok. assert (now s2 = now s1) as Hn2 by (unfold now; by rewrite (qu_stats _ _ Hqu)).
  assert (Forall (future (now s2)) (queue s2)) as Hfut.
  { rewrite Hq, Hn2. apply Forall_app. split.
    - eapply Forall_impl; [exact Hnew|]. unfold future. intros e. simpl. lia.
    - apply Forall_forall. intros e He. by apply list_elem_of_filter in He as [? _]. }
  assert (Forall (λ e, next s ≤ e.1) new) as Hfresh.
  { eapply Forall_impl; [exact Hnew|]. intros e. simpl. lia. }
  pose proof (qu_status _ _ Hqu) as Hst. rewrite <- Hn2 in Hq.
  destruct (yieldOnReturn (interrupt (ChangeLevel s2 Threads.IntOff Threads.IntOn))) eqn:Ey;
    eexists _, new; (split; [reflexivity|]); cbn [tick_state];
    (split_and!; [by destruct HI2|exact (eq_trans Hn2 Hnow1)|exact Hq|done|exact Hfut|done|done|..]; done).
Qed.

(** When nothing can run, time jumps to the next interrupt.  With nothing
    pending the machine halts.  Otherwise the clock goes to the time of the
    first pending interrupt; if that is the timer and nothing else is pending,
    the machine halts, and in every other case the interrupt is fired, then
    those that are due at that time, and [Idle] returns in system mode with
    nothing due, a single timer interrupt apart. *)
Theorem idle_jumps_to_next s :
  Inv s → level (interrupt s) = Threads.IntOff → inHandler (interrupt s) = false →
  now s < Horizon → Forall (λ e, e.2 < Horizon) (queue s) →
  match queue s with
  | [] => ∃ s', Idle s = Ok (Halts s') ∧ Inv s' ∧ now s' = now s
  | (p, k) :: rest =>
    ∃ i, heap s !! p = Some i ∧
    if decide (type i = TimerInt ∧ rest = [])
    then ∃ s', Idle s = Ok (Halts s') ∧ Inv s' ∧ now s' = Z.max (now s) k ∧ queue s' = queue s
    else ∃ s', Idle s = Ok (Resumes s') ∧ Inv s' ∧ now s' = Z.max (now s) k ∧
           status (interrupt s') = SystemMode ∧
           (Forall (future (now s')) (queue s') ∨
            ∃ p' k' i', queue s' = [(p', k')] ∧ heap s' !! p' = Some i' ∧ type i' = TimerInt)
  end.
Proof.
  intros HI Hl Hin Hh Hq. set (s0 := setStatus s IdleMode).
  assert (Inv s0) as HI0 by (by destruct HI). unfold Idle. fold s0.
  destruct (queue s) as [|[p k] rest] eqn:Eq.
  - exists s0. unfold CheckIfDue. unfold queue in Eq.
    rewrite (bool_decide_true (level (interrupt s0) = Threads.IntOff)) by done. run_ok.
    unfold SortedRemove. cbn [s0 setStatus set_interrupt interrupt pending]. rewrite Eq. by run_ok.
  - apply Forall_cons in Hq as [Hk Hq]. simpl in Hk.
    destruct (remove_head s p k rest HI Eq) as (_ & _ & _ & _ & (i & Hi & _) & _). exists i.
    split; [done|]. destruct (check_true_ok s0 p k rest i HI0 Hl Hin Hh Hk Eq Hi)
      as (s1 & fired & -> & HI1 & Hn1 & Hl1 & Hin1 & Hs1 & Hnx & Hf & Hc). run_ok.
    change (now s0) with (now s) in Hn1.
    rewrite bool_decide_true in Hf by done. rewrite andb_true_l in Hf.
    destruct (decide (type i = TimerInt ∧ rest = [])) as [[Ht Hr]|Hno].
    + rewrite !bool_decide_true in Hf by done. subst fired. exists s1. split_and!; try done.
      by rewrite Hc.
    + assert (fired = true) as ->.
      { rewrite Hf. apply negb_true_iff, andb_false_iff. rewrite !bool_decide_eq_false.
        destruct (decide (type i = TimerInt)); tauto. }
      destruct (fire_due_ok s1 HI1 Hl1 Hin1) as (s2 & new & -> & HI2 & Hqu & Hnew & Hq2); [lia|]. run_ok.
      assert (now s2 = now s1) as Hn2 by (unfold now; by rewrite (qu_stats _ _ Hqu)).
      eexists. split; [reflexivity|]. split_and!; [by destruct HI2|exact (eq_trans Hn2 Hn1)|done|].
      destruct Hq2 as [Hq2|[_ Ht2]]; [left|right; exact Ht2].
      change (Forall (future (now s2)) (queue s2)). rewrite Hq2, Hn2. apply Forall_app. split.
      * eapply Forall_impl; [exact Hnew|]. unfold future. intros e. simpl. lia.
      * apply Forall_forall. intros e He. by apply list_elem_of_filter in He as [? _].
Qed.

End interrupt.
Arguments sim : clear implicits.
Arguments tick : clear implicits.
Arguments idle : clear implicits.

End Interrupt.

(** * The timer and time-slicing: machine/timer.h, machine/timer.cc, and
      [TimerInterruptHandler] of threads/system.cc

    The timer is a device of the interrupt simulation: its own handler, which
    schedules the next timer interrupt and calls the handler of the kernel,
    discharges what [Interrupt.Devices] asks. *)
Module Timer.
Import ListModel Interrupt.

(** [class Timer]. *)
Record Timer := mkTimer {
  randomize : bool;
  thandler : Z;
  targ : Z;
}.

Section timer.
(** The addresses of the static functions [TimerHandler] and
    [TimerInterruptHandler] and of the timer; the state of [rand()]. *)
Context (TimerHandler_addr TimerInterruptHandler_addr this : Z).
Context {R : Type} (Random : R → Z * R).

Record dev := mkDev { timer : Timer; seed : R }.

Definition TimeOfNextInterrupt (d : dev) : Z * dev :=
  if randomize (timer d) then
    let '(r, seed) := Random (seed d) in
    (1 + Z.rem r (TimerTicks * 2), mkDev (timer d) seed)
  else (TimerTicks, d).

Definition TimerInterruptHandler (dummy : Z) (status : MachineStatus) : list action :=
  if bool_decide (status = IdleMode) then [] else [ActYieldOnReturn].

(** [( *handler)(arg)]; there is no other code that the pointer may name. *)
Definition call_handler (func param : Z) (status : MachineStatus) : result (list action) :=
  if func =? TimerInterruptHandler_addr then Ok (TimerInterruptHandler param status)
  else Err OutOfBounds.

Definition TimerExpired (d : dev) (status : MachineStatus) : result (dev * list action) :=
  let '(n, d) := TimeOfNextInterrupt d in
  l ← call_handler (thandler (timer d)) (targ (timer d)) status;
  Ok (d, ActSchedule TimerHandler_addr this n TimerInt :: l).

(** The static [TimerHandler], behind its address. *)
Definition call (func param : Z) (status : MachineStatus) (d : dev) : result (dev * list action) :=
  if (func =? TimerHandler_addr) && (param =? this) then TimerExpired d status
  else Err OutOfBounds.

(** [new Timer(timerHandler, callArg, doRandom)]. *)
Definition Timer_new (s : sim dev) (timerHandler callArg : Z) (doRandom : bool)
    : result (sim dev) :=
  let '(n, d) := TimeOfNextInterrupt
                   (mkDev (mkTimer doRandom timerHandler callArg) (seed (devices s))) in
  Schedule (set_devices s d) TimerHandler_addr this n TimerInt.

(** [rand()] is at least 0. *)
Context (Random_nonneg : ∀ r, 0 ≤ (Random r).1).

(** The delays of the timer. *)
Definition shortest (t : Timer) : Z := if randomize t then 1 else TimerTicks.
Definition longest (t : Timer) : Z := if randomize t then 2 * TimerTicks else TimerTicks.

Lemma delay_bounds d :
  shortest (timer d) ≤ (TimeOfNextInterrupt d).1 ≤ longest (timer d) ∧
  timer (TimeOfNextInterrupt d).2 = timer d.
Proof.
  unfold TimeOfNextInterrupt, shortest, longest, TimerTicks. destruct (randomize (timer d)).
  - pose proof (Random_nonneg (seed d)). destruct (Random (seed d)) as [r sd]. cbn [fst snd timer] in *.
    pose proof (Z.rem_bound_pos r 200 ltac:(lia) ltac:(lia)). split; [change (100 * 2) with 200; lia|done].
  - simpl. split; [lia|done].
Qed.

Lemma shortest_longest t : 0 < shortest t ∧ longest t ≤ 200.
Proof. unfold shortest, longest, TimerTicks. destruct (randomize t); lia. Qed.

(** The kernel passes [TimerInterruptHandler] to the timer. *)
Definition armed_dev (d : dev) : Prop := thandler (timer d) = TimerInterruptHandler_addr.

Lemma call_ok d :
  armed_dev d →
  ∃ n d', call TimerHandler_addr this SystemMode d =
      Ok (d', [ActSchedule TimerHandler_addr this n TimerInt; ActYieldOnReturn]) ∧
    timer d' = timer d ∧ shortest (timer d) ≤ n ≤ longest (timer d).
Proof.
  intros Hd. unfold call. rewrite !Z.eqb_refl. cbn [andb]. unfold TimerExpired.
  destruct (delay_bounds d) as [Hn Ht]. destruct (TimeOfNextInterrupt d) as [n d'].
  simpl in *. unfold call_handler. rewrite Ht, Hd, Z.eqb_refl. run_ok. by exists n, d'.
Qed.

#[local] Instance timer_devices : Devices call.
Proof.
  refine {| dev_ok := armed_dev;
            known f x := f = TimerHandler_addr ∧ x = this |}.
  intros f x d [-> ->] Hd. destruct (call_ok d Hd) as (n & d' & E & Ht & Hn).
  pose proof (shortest_longest (timer d)). eexists _, _. split; [exact E|].
  split; [unfold armed_dev; by rewrite Ht|].
  repeat constructor; unfold MaxDelay; lia.
Defined.

(** A thread runs, and the timer is the one device: its interrupt number [p] is
    the only one pending, for time [k]. *)
Record Armed (t : Timer) (s : sim dev) (p k : Z) : Prop := mkArmed {
  armed_inv : Inv call s;
  armed_queue : queue s = [(p, k)];
  armed_timer : timer (devices s) = t;
  armed_time : now s < k ≤ now s + longest t;
  armed_out : inHandler (interrupt s) = false;
  armed_busy : status (interrupt s) ≠ IdleMode;
  armed_yield : yieldOnReturn (interrupt s) = false;
}.

(** The constructor sets the timer for the first time. *)
Lemma Timer_new_armed s callArg doRandom :
  let t := mkTimer doRandom TimerInterruptHandler_addr callArg in
  Inv call s → queue s = [] → inHandler (interrupt s) = false → status (interrupt s) ≠ IdleMode →
  yieldOnReturn (interrupt s) = false → now s < Horizon →
  ∃ s' k, Timer_new s TimerInterruptHandler_addr callArg doRandom = Ok s' ∧
    Armed t s' (next s) k ∧ now s' = now s ∧ shortest t ≤ k - now s.
Proof.
  intros t HI Hq Hin Hb Hy Hh. unfold Timer_new. fold t.
  destruct (delay_bounds (mkDev t (seed (devices s)))) as [Hn Ht].
  destruct (TimeOfNextInterrupt _) as [n d]. simpl in *. pose proof (shortest_longest t).
  assert (Inv call (set_devices s d)) as HI1.
  { destruct HI. split; try done. simpl. unfold armed_dev. by rewrite Ht. }
  destruct (Schedule_ok call (set_devices s d) TimerHandler_addr this n TimerInt HI1 Hh)
    as (s' & E & HI' & [Hst _ Hih Hs _ _ _] & Hy' & Hd & Hq' & _); [unfold MaxDelay; lia|done|].
  change (queue (set_devices s d)) with (queue s) in Hq'. rewrite Hq in Hq'.
  apply Permutation_singleton_r in Hq'.
  assert (now s' = now s) as Hnow by (unfold now; by rewrite Hst).
  exists s', (now s + n). split_and!; [done| |done|lia].
  split; [done|done|by rewrite Hd|lia|by rewrite Hih|by rewrite Hs|by rewrite Hy'].
Qed.

(** The due interrupts of such a state: the timer's, if its time has come. *)
Lemma timer_due s p k :
  Inv call s → queue s = [(p, k)] → level (interrupt s) = Threads.IntOff →
  inHandler (interrupt s) = false → status (interrupt s) ≠ IdleMode → now s < Horizon →
  yieldOnReturn (interrupt s) = false →
  let t := timer (devices s) in
  ∃ s' p' k', fire_due call s = Ok s' ∧ Inv call s' ∧ quiet s s' ∧ queue s' = [(p', k')] ∧
    timer (devices s') = t ∧
    if decide (k ≤ now s)
    then yieldOnReturn (interrupt s') = true ∧ shortest t ≤ k' - now s ≤ longest t
    else yieldOnReturn (interrupt s') = false ∧ p' = p ∧ k' = k.
Proof.
  intros HI Hq Hl Hin Hst Hh Hy t. unfold fire_due. fold (queue s). rewrite Hq. cbn [length CheckIfDue_loop].
  destruct (check_false_ok call s HI Hl Hin Hh) as (s1 & fired & -> & HI1 & Hqu & Hc). run_ok.
  destruct fired; cbn [CheckIfDue_loop].
  - destruct Hc as (p0 & k0 & rest & new & Hq0 & Hk & Hq1 & Hnew & i & l & Hi & Hcall & Heff & Hyl).
    rewrite Hq in Hq0. injection Hq0 as <- <- <-. rewrite app_nil_r in Hq1.
    destruct (inv_queue _ _ HI p k) as (_ & i' & Hi' & _ & Hka & Hkx); [rewrite Hq; set_solver|].
    simplify_eq. rewrite Hka, Hkx in Hcall.
    destruct (call_ok (devices s) (inv_devices _ _ HI)) as (n & d' & E & Ht & Hn).
    rewrite E in Hcall. injection Hcall as Hd <-. csimpl in Heff.
    assert (∃ p', new = [(p', now s + n)]) as [p' ->].
    { apply Permutation_singleton_r in Heff. destruct new as [|[p' k'] [|]]; simplify_eq/=. by exists p'. }
    apply Permutation_singleton_r in Hq1.
    pose proof (shortest_longest t). assert (now s1 = now s) as Hn1 by (unfold now; by rewrite (qu_stats _ _ Hqu)).
    destruct (check_false_ok call s1 HI1) as (s2 & fired & -> & HI2 & Hqu2 & Hc2);
      [by rewrite (qu_level _ _ Hqu)|apply Hqu|lia|]. run_ok.
    fold t in Hn. destruct fired.
    { destruct Hc2 as (? & ? & ? & ? & Hq2 & Hk2 & _). rewrite Hq1 in Hq2. injection Hq2 as <- <- <-. lia. }
    destruct Hc2 as ((Hq2 & _) & _ & Hy2 & Hd2). rewrite Hq1 in Hq2. apply Permutation_singleton_r in Hq2.
    exists s2, p', (now s + n). rewrite decide_True by done.
    split_and!; [done|done|by eapply quiet_trans|done|by rewrite Hd2, <- Hd| |lia|lia].
    rewrite Hy2, Hyl. by rewrite orb_true_r.
  - destruct Hc as ((Hq1 & Hf) & _ & Hy1 & Hd1). rewrite Hq in Hq1. apply Permutation_singleton_r in Hq1.
    exists s1, p, k. rewrite decide_False.
    + split_and!; [done|done|done|done|by rewrite Hd1|congruence|done|done].
    + destruct Hf as [Hf|[? _]]; [|done]. rewrite Hq in Hf. apply Forall_cons in Hf as [Hf _].
      unfold future in Hf. simpl in Hf. lia.
Qed.

(** One tick of such a state. *)
Lemma timer_tick t s p k :
  Armed t s p k → now s + SystemTick < Horizon →
  let n := now s + tick_length (status (interrupt s)) in
  ∃ s' p' k', now s' = n ∧ Armed t s' p' k' ∧
    if decide (k ≤ n)
    then OneTick call s = Ok (Yields s' (status (interrupt s))) ∧ shortest t ≤ k' - n
    else OneTick call s = Ok (Returns s') ∧ p' = p ∧ k' = k ∧
         status (interrupt s') = status (interrupt s).
Proof.
  intros [HI Hq <- Hk Hin Hb Hy] Hh n. destruct (tick_ok call s HI ltac:(unfold SystemTick in *; lia)) as [HI1 Hnow].
  assert (n < Horizon) as Hn.
  { unfold n, tick_length, SystemTick, UserTick in *. case_decide; lia. }
  unfold OneTick. set (st' := if bool_decide _ then _ else _) in *.
  set (s1 := ChangeLevel (set_stats s st') Threads.IntOn Threads.IntOff).
  assert (now s1 = n) as Hn1 by done.
  assert (Inv call s1) as HI1' by (by destruct HI1).
  destruct (timer_due s1 p k HI1' Hq eq_refl Hin Hb) as (s2 & p' & k' & -> & HI2 & Hqu & Hq2 & Ht & Hc); [lia|done|].
  run_ok. rewrite Hn1 in Hc. pose proof (qu_status _ _ Hqu) as Hst. pose proof (qu_inHandler _ _ Hqu) as Hih.
  assert (now s2 = n) as Hn2 by (unfold now; rewrite (qu_stats _ _ Hqu); exact Hn1).
  change (timer (devices s1)) with (timer (devices s)) in *.
  pose proof (shortest_longest (timer (devices s))). cbn [ChangeLevel set_level set_interrupt interrupt yieldOnReturn].
  destruct (decide (k ≤ n)); destruct Hc as [Hyr Hc]; rewrite Hyr; eexists _, p', k'.
  - split; [|split; [|split; [reflexivity|lia]]]; [exact Hn2|].
    split; try done; [by destruct HI2|]. change (now s2 < k' ≤ now s2 + longest (timer (devices s))). lia.
  - destruct Hc as [-> ->]. split; [|split; [|split; [reflexivity|done]]]; [exact Hn2|].
    split; try done; [by destruct HI2| |change (status (interrupt s2) ≠ IdleMode); by rewrite Hst].
    change (now s2 < k ≤ now s2 + longest (timer (devices s))).
    unfold n, tick_length, SystemTick, UserTick in *. case_decide; lia.
Qed.

(** [n] ticks, none of which takes the CPU from the thread. *)
Inductive runs : nat → sim dev → sim dev → Prop :=
  | runs_none s : runs 0 s s
  | runs_tick n s s' s'' : OneTick call s = Ok (Returns s') → runs n s' s'' → runs (S n) s s''.

(** The thread runs for [n] ticks, and the next makes it yield. *)
Definition preempted (t : Timer) (k : Z) (n : nat) (s : sim dev) : Prop :=
  let tick := tick_length (status (interrupt s)) in
  ∃ s1 s2 p' k',
    runs n s s1 ∧ now s1 = now s + Z.of_nat n * tick ∧
    OneTick call s1 = Ok (Yields s2 (status (interrupt s))) ∧
    now s1 < k ≤ now s2 ∧ now s2 = now s1 + tick ∧
    Armed t s2 p' k' ∧ shortest t ≤ k' - now s2 ≤ longest t.

Lemma preempted_within t p k m : ∀ s,
  Armed t s p k → now s + SystemTick < Horizon → k ≤ now s + Z.of_nat m →
  k + SystemTick < Horizon → ∃ n, (n < m)%nat ∧ preempted t k n s.
Proof.
  induction m as [|m IH]; intros s HA Hh Hm Hk; pose proof (armed_time _ _ _ _ HA); [lia|].
  unfold preempted. set (tick := tick_length (status (interrupt s))).
  assert (1 ≤ tick ∧ tick ≤ SystemTick) as Htick.
  { unfold tick, tick_length, SystemTick, UserTick. case_decide; lia. }
  destruct (timer_tick t s p k HA Hh) as (s' & p' & k' & Hn & HA' & Hc). fold tick in Hn, Hc.
  destruct (decide (k ≤ now s + tick)) as [Hdue|Hnot].
  - destruct Hc as [E Hs]. pose proof (armed_time _ _ _ _ HA').
    exists 0%nat. split; [lia|]. exists s, s', p', k'.
    split_and!; [constructor|lia|done|lia|lia|done|done|lia|lia].
  - destruct Hc as (E & -> & -> & Hst).
    destruct (IH s' HA') as (n & Hlt & s1 & s2 & p1 & k1 & Hr & Hn1 & E2 & Hrest); [lia|lia|lia|].
    rewrite Hst in Hn1, E2, Hrest. fold tick in Hn1, Hrest.
    exists (S n). split; [lia|]. exists s1, s2, p1, k1.
    split_and!; [by econstructor|lia|done|apply Hrest..].
Qed.

(** ** Properties *)

(** A thread that does not give up the CPU loses it.  Starting from any
    time at which only the timer interrupt is pending, a running thread, in
    user or in system mode, goes through [n] ticks that return to it, fewer
    than 200, and the next tick makes it yield: that is the first tick at or
    after the time [k] of the interrupt.  The same timer is then set again, 100
    ticks ahead, or between 1 and 200 if it was made to be random, so that the
    next thread is preempted in turn. *)
Theorem timer_preempts t s p k :
  Armed t s p k → now s + 2 * longest t < Horizon →
  ∃ n, (n < 200)%nat ∧ preempted t k n s.
Proof.
  intros HA Hh. pose proof (armed_time _ _ _ _ HA). pose proof (shortest_longest t).
  assert (SystemTick ≤ longest t) as Hst.
  { unfold SystemTick, longest, TimerTicks. destruct (randomize t); lia. }
  apply (preempted_within t p k 200 s HA); lia.
Qed.

End timer.
End Timer.

(** * Concrete machines *)
Module TimerExamples.
Import ListModel Interrupt Timer.

(** A timer at address 3, with handlers at 1 and 2, and a random number
    generator that counts. *)
Definition rand (r : Z) : Z * Z := (Z.abs r, r + 1).
Lemma rand_nonneg r : 0 ≤ (rand r).1.
Proof. simpl. lia. Qed.

Definition call13 := call 1 2 3 rand.
Definition devices13 : Devices call13 := timer_devices 1 2 3 rand rand_nonneg.
#[local] Existing Instance devices13.

(** The machine at time [t], in user mode, with timer interrupts pending. *)
Definition machine_at (t : Z) (l : list Z) (lv : Threads.IntStatus) (doRandom : bool) : sim dev :=
  let q := imap (λ i k, (Z.of_nat i + 1, k)) l in
  mkSim (mkInterrupt lv (mkQ q false) false false UserMode)
    (mkStats t 0 0 t (mkCounters 0 0 0 0 0 0 0)) None
    (list_to_map ((λ e, (e.1, mkPending 1 3 e.2 TimerInt)) <$> q)) (Z.of_nat (length l) + 1)
    (mkDev (mkTimer doRandom 2 0) 0).

Lemma one_pending t k lv b : 0 ≤ t → k < 2 ^ 31 → Inv call13 (machine_at t [k] lv b).
Proof.
  intros Ht Hk. split; unfold queue, now; simpl; try done; try lia.
  - repeat constructor.
  - repeat constructor. set_solver.
  - intros p k' [= -> ->]%list_elem_of_singleton. split; [done|]. by eexists.
  - intros p i. rewrite insert_empty, lookup_singleton_Some. intros [<- _]. lia.
Qed.

Lemma two_pending t k k' lv b : 0 ≤ t → k ≤ k' < 2 ^ 31 → Inv call13 (machine_at t [k; k'] lv b).
Proof.
  intros Ht Hk. split; unfold queue, now; simpl; try done; try lia.
  - repeat constructor. unfold by_key. simpl. lia.
  - repeat constructor; set_solver.
  - intros p k'' Hin. split; [set_solver by lia|].
    apply elem_of_cons in Hin as [[= -> ->]|[= -> ->]%list_elem_of_singleton]; by eexists.
  - intros p i [[<- _]|[_ [[<- _]|[_ ?]]%lookup_insert_Some]]%lookup_insert_Some; lia || done.
Qed.

(** At time 99 the timer is due at 100: it fires at the next user instruction. *)
Lemma one_tick_fires_due_witness :
  ∃ t new, OneTick call13 (machine_at 99 [100] Threads.IntOn false) = Ok t ∧
    now (tick_state t) = 100 ∧ queue (tick_state t) ≡ₚ new.
Proof.
  destruct (one_tick_fires_due call13 (machine_at 99 [100] Threads.IntOn false))
    as (t & new & E & _ & Hn & Hq & _).
  - by apply one_pending.
  - done.
  - done.
  - done.
  - exists t, new. split_and!; [done|done|]. rewrite Hn, app_nil_r in Hq. exact Hq.
Defined.

(** At time 99 the first of two interrupts is due at 150: the clock goes there. *)
Lemma idle_jumps_to_next_witness :
  ∃ s', Idle call13 (machine_at 99 [150; 170] Threads.IntOff false) = Ok (Resumes s') ∧
    now s' = 150.
Proof.
  destruct (idle_jumps_to_next call13 (machine_at 99 [150; 170] Threads.IntOff false))
    as (i & Hi & Hc).
  - by apply two_pending.
  - done.
  - done.
  - done.
  - by repeat constructor.
  - rewrite decide_False in Hc by (by intros [_ ?]). destruct Hc as (s' & E & _ & Hn & _).
    exists s'. by rewrite E, Hn.
Defined.

(** A random timer set for time 150 at time 99. *)
Lemma timer_preempts_witness :
  ∃ n, (n < 200)%nat ∧
    preempted 1 2 3 rand rand_nonneg (mkTimer true 2 0) 150 n (machine_at 99 [150] Threads.IntOn true).
Proof.
  apply (timer_preempts 1 2 3 rand rand_nonneg (mkTimer true 2 0) (machine_at 99 [150] Threads.IntOn true) 1 150).
  - split; try done. by apply one_pending.
  - done.
Defined.

End TimerExamples.
