(* ===== verification/Syscalls.v ===== *)
(** * System calls and processes: userprog/exception.cc, userprog/syscall.h,
      [StartProcess] of userprog/progtest.cc, and the parts of threads/thread.cc
      and threads/scheduler.cc compiled with USER_PROGRAM

    A process is a PCB, an address space and a thread; the kernel reaches one
    from the other through pointers, which are kept here: the fields of
    [Thread] that USER_PROGRAM adds, the address spaces and the PCBs live in
    stores of their own, by address.

    The kernel runs without a timer (the -rs option is off), so that a thread
    gives up the processor only in [Yield] and [Finish].  A thread that is
    stopped inside [Yield] goes on with what is left of its system call: [kont]
    says what that is.  One [step] executes one user instruction with the
    system call it makes, if any, or goes on with a system call after a switch,
    or makes one round of the loop of [join]. *)

From stdpp Require Import base list gmap.
From S2P Require Import Prelude Lists BitMap Machine Mips Threads Managers Frames AddrSpace.
Import Pages AddrSpace.

Module Syscalls.

(** ** userprog/syscall.h *)
Definition SC_Halt : Z := 0.
Definition SC_Exit : Z := 1.
Definition SC_Exec : Z := 2.
Definition SC_Join : Z := 3.
Definition SC_Create : Z := 4.
Definition SC_Open : Z := 5.
Definition SC_Read : Z := 6.
Definition SC_Write : Z := 7.
Definition SC_Close : Z := 8.
Definition SC_Fork : Z := 9.
Definition SC_Yield : Z := 10.
Definition SC_Kill : Z := 11.

(** What a thread does when [Yield] returns: go on with the user program, with
    the end of the system call yield, or with the loop of join. *)
Inductive kont := KUser | KYield | KJoin (pid : Z).

(** The fields of [class Thread] under USER_PROGRAM; [space] is an address. *)
Record UserThread := mkUser {
  space : Z;
  userRegisters : list Z;
  at_kont : kont;
}.

Section kernel.
Context {A : Type} `{PageAllocator A}.
(** As for the address spaces: the host, uninitialised memory (a PCB and the
    registers of a new thread included), and the files. *)
Context (HOST_IS_BIG_ENDIAN : bool) (uninit : nat → Z) (stale_entry : Machine.TranslationEntry)
  (stale_pcb : Z) (stale_PCB : PCB.PCB unit) (stale_registers : list Z)
  (Open : list Z → option (list Z)).

(** The kernel: the machine with its memory, the threads, the processes.
    [fresh] is the address the next [new] gives. *)
Record kernel := mkKernel {
  mem : world A;
  sys : Threads.sys;
  processManager : ProcessManager.ProcessManager unit;
  pcbs : gmap Z (PCB.PCB unit);
  spaces : gmap Z AddrSpace;
  users : gmap Z UserThread;
  fresh : Z;
}.

Definition set_mem (k : kernel) (x : world A) : kernel :=
  mkKernel x (sys k) (processManager k) (pcbs k) (spaces k) (users k) (fresh k).
Definition set_sys (k : kernel) (x : Threads.sys) : kernel :=
  mkKernel (mem k) x (processManager k) (pcbs k) (spaces k) (users k) (fresh k).
Definition set_processManager (k : kernel) (x : ProcessManager.ProcessManager unit) : kernel :=
  mkKernel (mem k) (sys k) x (pcbs k) (spaces k) (users k) (fresh k).
Definition set_pcbs (k : kernel) (x : gmap Z (PCB.PCB unit)) : kernel :=
  mkKernel (mem k) (sys k) (processManager k) x (spaces k) (users k) (fresh k).
Definition set_spaces (k : kernel) (x : gmap Z AddrSpace) : kernel :=
  mkKernel (mem k) (sys k) (processManager k) (pcbs k) x (users k) (fresh k).
Definition set_users (k : kernel) (x : gmap Z UserThread) : kernel :=
  mkKernel (mem k) (sys k) (processManager k) (pcbs k) (spaces k) x (fresh k).
Definition set_machine (k : kernel) (m : Machine.Machine) : kernel :=
  set_mem k (AddrSpace.set_machine (mem k) m).

Definition put_pcb (k : kernel) (p : Z) (P : PCB.PCB unit) : kernel :=
  set_pcbs k (<[p := P]> (pcbs k)).
Definition put_user (k : kernel) (t : Z) (U : UserThread) : kernel :=
  set_users k (<[t := U]> (users k)).

Definition current (k : kernel) : Z := Threads.currentThread (sys k).

(** An address that [new] gives. *)
Definition alloc (k : kernel) : Z * kernel :=
  (fresh k, mkKernel (mem k) (sys k) (processManager k) (pcbs k) (spaces k) (users k) (fresh k + 1)).

(** [t->space], [t->userRegisters]: the thread has to exist. *)
Definition user (k : kernel) (t : Z) : result UserThread :=
  _ ← Threads.find (Threads.threads (sys k)) t; Threads.find (users k) t.

(** [currentThread->space] and [currentThread->space->pcb], by address. *)
Definition current_space (k : kernel) : result (Z * AddrSpace) :=
  U ← user k (current k);
  s ← Threads.find (spaces k) (space U);
  Ok (space U, s).

Definition current_pcb (k : kernel) : result (Z * PCB.PCB unit) :=
  '(_, s) ← current_space k;
  P ← Threads.find (pcbs k) (pcb s);
  Ok (pcb s, P).

(** ** threads/thread.cc *)

Definition ReadRegister (k : kernel) (num : Z) : result Z :=
  Machine.ReadRegister (machine (mem k)) num.

Definition WriteRegister (k : kernel) (num value : Z) : result kernel :=
  m ← Machine.WriteRegister (machine (mem k)) num value; Ok (set_machine k m).

Fixpoint write_registers (k : kernel) (i : Z) (rs : list Z) : result kernel :=
  match rs with
  | [] => Ok k
  | r :: rs => k ← WriteRegister k i r; write_registers k (i + 1) rs
  end.

Definition SaveUserState (k : kernel) (t : Z) : result kernel :=
  U ← user k t;
  rs ← mapM (ReadRegister k) (seqZ 0 Machine.NumTotalRegs);
  Ok (put_user k t (mkUser (space U) rs (at_kont U))).

Definition RestoreUserState (k : kernel) (t : Z) : result kernel :=
  U ← user k t;
  write_registers k 0 (userRegisters U).

(** [new Thread(...)]: its registers are not initialised. *)
Definition Thread_new (k : kernel) : Z * kernel :=
  let '(t, k) := alloc k in
  (t, put_user (set_sys k (Threads.Thread_new (sys k) t)) t (mkUser Threads.NULL stale_registers KUser)).

Definition set_kont (k : kernel) (c : kont) : result kernel :=
  U ← user k (current k);
  Ok (put_user k (current k) (mkUser (space U) (userRegisters U) c)).

(** What [Scheduler::Run] does before the switch; [AddrSpace::SaveState] is
    empty and does not look at the address space. *)
Definition leave (k : kernel) : result kernel :=
  U ← user k (current k);
  if space U =? Threads.NULL then Ok k else SaveUserState k (current k).

(** What it does after the switch. *)
Definition arrive (k : kernel) : result kernel :=
  U ← user k (current k);
  if space U =? Threads.NULL then Ok k
  else
    k ← RestoreUserState k (current k);
    s ← Threads.find (spaces k) (space U);
    Ok (set_mem k (RestoreState (mem k) s)).

(** Is there a thread to switch to? *)
Definition some_ready (k : kernel) : bool :=
  negb ((Threads.FindNextToRun (sys k)).1 =? Threads.NULL).

(** [currentThread->Yield()], in the middle of a call that goes on with [c]. *)
Definition Yield (k : kernel) (c : kont) : result kernel :=
  k ← set_kont k c;
  k ← (if some_ready k then leave k else Ok k);
  s ← Threads.Yield (sys k);
  Ok (set_sys k s).

(** How a system call ends: the kernel goes on, or halts the machine. *)
Inductive outcome := Runs (k : kernel) | Halts (k : kernel).

(** [currentThread->Finish()]: with no other thread, and no interrupt pending,
    [Interrupt::Idle] halts the machine. *)
Definition Finish (k : kernel) : result outcome :=
  k ← (if some_ready k then leave k else Ok k);
  s ← Threads.Finish (sys k);
  let k := set_sys k s in
  Ok (if Threads.idle s then Halts k else Runs k).

(** ** userprog/exception.cc *)

Definition update (k : kernel) : result kernel :=
  r ← ReadRegister k Machine.PCReg;
  k ← WriteRegister k Machine.PCReg (r + 4);
  r ← ReadRegister k Machine.NextPCReg;
  k ← WriteRegister k Machine.NextPCReg (r + 4);
  r ← ReadRegister k Machine.PrevPCReg;
  WriteRegister k Machine.PrevPCReg (r + 4).

(** The end of most calls: a result in r2. *)
Definition return_with (k : kernel) (value : Z) : result kernel :=
  k ← WriteRegister k 2 value; update k.

(** [dummy]: what a forked thread begins with. *)
Definition dummy (k : kernel) : result kernel :=
  k ← RestoreUserState k (current k);
  '(_, s) ← current_space k;
  Ok (set_mem k (RestoreState (mem k) s)).

Definition set_pcb (s : AddrSpace) (p : Z) : AddrSpace := mkSpace (pageTable s) (numPages s) p.

(** Steps 2 and 3 of [fork]: [new] gets an address, and a thread. *)
Definition new_thread (k : kernel) (new : AddrSpace) : result (Z * Z * kernel) :=
  let '(sp, k) := alloc k in
  let k := set_spaces k (<[sp := new]> (spaces k)) in
  let '(newThread, k) := Thread_new k in
  U ← user k newThread;
  Ok (sp, newThread, put_user k newThread (mkUser sp (userRegisters U) (at_kont U))).

(** Steps 4 and 5: a PCB for the thread [newThread] in the address
    space at [sp], a child of the current process. *)
Definition adopt (k : kernel) (sp newThread pid : Z) : result kernel :=
  let '(newPCB, k) := alloc k in
  let P := PCB.PCB_new newThread tt stale_PCB in
  s ← Threads.find (spaces k) sp;
  let k := set_spaces k (<[sp := set_pcb s newPCB]> (spaces k)) in
  '(parent, _) ← current_pcb k;
  let k := put_pcb k newPCB (PCB.set P pid parent) in
  '(parent, Q) ← current_pcb k;
  '(_, Q) ← PCB.addChild Q newPCB;
  let k := put_pcb k parent Q in
  pm ← ProcessManager.addPCB (pcbs k) (processManager k) newPCB;
  Ok (set_processManager k pm).

(** Steps 6 to 10. *)
Definition start_child (k : kernel) (newThread pid : Z) : result kernel :=
  r4 ← ReadRegister k 4;
  k ← WriteRegister k Machine.PCReg r4;
  r4 ← ReadRegister k 4;
  k ← WriteRegister k Machine.NextPCReg (r4 + 4);
  r4 ← ReadRegister k 4;
  k ← WriteRegister k Machine.PrevPCReg (r4 - 4);
  k ← SaveUserState k newThread;
  th ← Threads.Fork (sys k) newThread;
  let k := set_sys k th in
  k ← RestoreUserState k (current k);
  return_with k pid.

Definition fork (k : kernel) : result kernel :=
  _ ← current_pcb k;
  k ← SaveUserState k (current k);
  '(_, s) ← current_space k;
  '(newAddrSpace, w) ← copy stale_entry stale_pcb (mem k) s;
  let k := set_mem k w in
  match newAddrSpace with
  | None => return_with k (-1)
  | Some new =>
    '(sp, newThread, k) ← new_thread k new;
    '(pid, pm) ← ProcessManager.getPID (processManager k);
    let k := set_processManager k pm in
    if pid <? 0 then return_with k (-1)
    else
      k ← adopt k sp newThread pid;
      start_child k newThread pid
  end.

Definition yield (k : kernel) : result kernel :=
  _ ← current_pcb k;
  Yield k KYield.

Definition nullParent (k : kernel) (p : Z) : result kernel :=
  P ← Threads.find (pcbs k) p;
  Ok (put_pcb k p (PCB.set P (PCB.getID P) Threads.NULL)).

(** [children->Mapcar(nullParent)]. *)
Fixpoint orphan (k : kernel) (children : list Z) : result kernel :=
  match children with [] => Ok k | p :: children => k ← nullParent k p; orphan k children end.

(** What [exit] and [kill] do to the family of a process: its children lose
    their parent, and its parent loses a child, and gets the exit code. *)
Definition leave_family (k : kernel) (p : Z) (code : option Z) : result kernel :=
  P ← Threads.find (pcbs k) p;
  let children := PCB.getChildren P in
  k ← (if negb (ListModel.IsEmpty children) then orphan k (ListModel.items children).*1 else Ok k);
  P ← Threads.find (pcbs k) p;
  let parent := PCB.getParent P in
  if negb (parent =? Threads.NULL) then
    Q ← Threads.find (pcbs k) parent;
    '(_, Q) ← PCB.removeChild Q p;
    Ok (put_pcb k parent (match code with Some c => PCB.setExit Q c | None => Q end))
  else Ok k.

(** The number, the frames, the PCB and the address space are given back. *)
Definition free_process (k : kernel) (pid p sp : Z) : result kernel :=
  pm ← ProcessManager.removePCB (processManager k) pid;
  pm ← ProcessManager.clearPID pm pid;
  let k := set_processManager k pm in
  s ← Threads.find (spaces k) sp;
  w ← ReleasePhysicalMemory (mem k) s;
  let k := set_mem k w in
  _ ← Threads.find (pcbs k) p;
  let k := set_pcbs k (delete p (pcbs k)) in
  w ← AddrSpace_delete (mem k) s;
  Ok (set_spaces (set_mem k w) (delete sp (spaces k))).

Definition exit (k : kernel) : result outcome :=
  '(p, P) ← current_pcb k;
  let pid := PCB.getID P in
  code ← ReadRegister k 4;
  k ← leave_family k p (Some code);
  '(sp, _) ← current_space k;
  k ← free_process k pid p sp;
  Finish k.

(** One round of the loop of [join], and what follows the loop. *)
Definition join_loop (k : kernel) (pid : Z) : result kernel :=
  '(p, pm) ← ProcessManager.getProcess (processManager k) pid;
  let k := set_processManager k pm in
  if negb (p =? Threads.NULL) then Yield k (KJoin pid)
  else
    k ← set_kont k KUser;
    '(_, P) ← current_pcb k;
    return_with k (PCB.getCode P).

Definition join (k : kernel) : result kernel :=
  '(_, P) ← current_pcb k;
  pid ← ReadRegister k 4;
  if pid <? 0 then return_with k (-1)
  else
    '(p, pm) ← ProcessManager.getProcess (processManager k) pid;
    let k := set_processManager k pm in
    if negb (PCB.isChild P p) then return_with k (-1) else join_loop k pid.

Definition kill (k : kernel) : result outcome :=
  '(_, P) ← current_pcb k;
  let pid := PCB.getID P in
  killID ← ReadRegister k 4;
  '(killPCB, pm) ← ProcessManager.getProcess (processManager k) killID;
  let k := set_processManager k pm in
  if killPCB =? Threads.NULL then (k ← return_with k (-1); Ok (Runs k))
  else if killID =? pid then exit k
  else
    k ← leave_family k killPCB None;
    Q ← Threads.find (pcbs k) killPCB;
    let killThread := PCB.getThread Q in
    U ← user k killThread;
    k ← free_process k killID killPCB (space U);
    let k := set_sys k (Threads.Scheduler_Remove (sys k) killThread) in
    k ← return_with k 0;
    Ok (Runs k).

Definition exec (k : kernel) : result kernel :=
  _ ← current_pcb k;
  address ← ReadRegister k 4;
  '(sp, s) ← current_space k;
  '(success, s, w) ← Replace HOST_IS_BIG_ENDIAN uninit stale_entry Open (mem k) s address;
  let k := set_spaces (set_mem k w) (<[sp := s]> (spaces k)) in
  return_with k (if (success : bool) then 1 else -1).

Definition ExceptionHandler (k : kernel) (which : Machine.ExceptionType) : result outcome :=
  type ← ReadRegister k 2;
  if bool_decide (which = Machine.SyscallException) then
    if (type =? SC_Open) || (type =? SC_Read) || (type =? SC_Write) || (type =? SC_Close)
       || (type =? SC_Create) then Ok (Runs k)
    else if type =? SC_Fork then (k ← fork k; Ok (Runs k))
    else if type =? SC_Yield then (k ← yield k; Ok (Runs k))
    else if type =? SC_Exec then (k ← exec k; Ok (Runs k))
    else if type =? SC_Join then (k ← join k; Ok (Runs k))
    else if type =? SC_Exit then exit k
    else if type =? SC_Kill then kill k
    else Ok (Halts k)
  else Err AssertionFailed.

(** ** userprog/progtest.cc *)

(** [StartProcess] up to [machine->Run()]; [false] when it gives up. *)
Definition StartProcess (k : kernel) (filename : list Z) : result (bool * kernel) :=
  match Open filename with
  | None => Ok (false, k)
  | Some executable =>
    '(pid, pm) ← ProcessManager.getPID (processManager k);
    let k := set_processManager k pm in
    if pid <? 0 then Ok (false, k)
    else
      let '(npcb, k) := alloc k in
      let P := PCB.set (PCB.PCB_new (current k) tt stale_PCB) pid Threads.NULL in
      let k := put_pcb k npcb P in
      pm ← ProcessManager.addPCB (pcbs k) (processManager k) npcb;
      let k := set_processManager k pm in
      let '(sp, k) := alloc k in
      '(s, w) ← AddrSpace_new HOST_IS_BIG_ENDIAN uninit stale_entry stale_pcb (mem k) executable;
      let s := set_pcb s npcb in
      let k := set_spaces (set_mem k w) (<[sp := s]> (spaces k)) in
      U ← user k (current k);
      let k := put_user k (current k) (mkUser sp (userRegisters U) (at_kont U)) in
      w ← InitRegisters (mem k) s;
      Ok (true, set_mem k (RestoreState w s))
  end.

(** ** Running *)

(** A thread that was switched to: the end of [Yield] and of [Run], or, the
    first time, [InterruptEnable] and [dummy]. *)
Definition resume (k : kernel) (f : Threads.frame) : result kernel :=
  '(s, _) ← Threads.resume (sys k) f;
  let k := set_sys k s in
  match f with Threads.AtStart => dummy k | _ => arrive k end.

(** [Machine::Run]: one instruction, and the exception it raises. *)
Definition run_user (k : kernel) : result outcome :=
  '(e, w) ← user_step HOST_IS_BIG_ENDIAN (mem k);
  let k := set_mem k w in
  match e with None => Ok (Runs k) | Some which => ExceptionHandler k which end.

Definition step (k : kernel) : result outcome :=
  T ← Threads.find (Threads.threads (sys k)) (current k);
  match Threads.at_frame T with
  | Some f => k ← resume k f; Ok (Runs k)
  | None =>
    U ← user k (current k);
    match at_kont U with
    | KUser => run_user k
    | KYield => k ← set_kont k KUser; k ← update k; Ok (Runs k)
    | KJoin pid => k ← join_loop k pid; Ok (Runs k)
    end
  end.

(** Everything that can happen after [StartProcess]. *)
Inductive reachable (k0 : kernel) : kernel → Prop :=
  | reach_start : reachable k0 k0
  | reach_step k k' : reachable k0 k → step k = Ok (Runs k') → reachable k0 k'.

End kernel.
Arguments kernel : clear implicits.

End Syscalls.
