(* ===== verification/Processes.v ===== *)
(** * Processes: the proofs about the system calls (file Syscalls)

    The invariant of the process system: which threads are alive, which PCB,
    address space and process number belong to which thread, who is whose
    parent, and that every system call keeps it so, or stops for one of a few
    reasons. *)

From stdpp Require Import base list gmap.
From S2P Require Import Prelude Lists BitMap Machine Mips Threads Managers Frames AddrSpace Spaces Syscalls.
Import Pages Frames AddrSpace Spaces Syscalls.

(** ** The threads of user programs

    The scheduler's lists as sets of thread numbers, whether or not [last] is
    still good. *)
Module UserThreads.
Import ListModel Threads.

Lemma Remove_items q :
  (Remove q).1 = default NULL (head (ids q)) ∧ ids (Remove q).2 = tail (ids q).
Proof. unfold Remove, SortedRemove, ids. by destruct (items q) as [|[x k] rest] eqn:E; simpl; rewrite ?E. Qed.

Lemma Append_cases q x :
  match Append q x with
  | Ok q' => ids q' = ids q ++ [x] ∧ dangling q' = false
  | Err e => e = UseAfterFree ∧ dangling q = true
  end.
Proof.
  unfold Append, IsEmpty, link_at_end, ids. destruct (items q) eqn:E; [by simpl|].
  destruct (dangling q); [done|]. simpl. by rewrite fmap_app.
Qed.

Lemma RemoveElement_ids q c :
  NoDup (ids q) → ids (RemoveElement q c).2 = filter (λ d, d ≠ c) (ids q).
Proof.
  intros Hnd. unfold RemoveElement, ids in *.
  destruct (split_at c (items q)) as [[[pre k] post]|] eqn:Es.
  - apply split_at_Some in Es as [Ei Hpre]. rewrite Ei in *. rewrite fmap_app, fmap_cons in *.
    simpl in Hnd |- *. rewrite (PCB.filter_one _ _ _ Hnd). destruct pre; csimpl; [done|].
    by rewrite fmap_app.
  - apply split_at_None in Es. by rewrite PCB.filter_absent.
Qed.

Lemma in_head {X} (x : X) l : head l = Some x → x ∈ l.
Proof. destruct l; simpl; intros; simplify_eq. set_solver. Qed.

(** The threads that are alive: the one on the processor and the ready ones. *)
Definition live (s : sys) : list Z := currentThread s :: ids (readyList s).

Definition fence (T : Thread) : Prop := ∀ w, stack T = Some w → w = STACK_FENCEPOST.

Definition resumable (f : option frame) : Prop := f = Some (AtYield IntOn) ∨ f = Some AtStart.

Record TInv (s : sys) : Prop := mkTInv {
  t_idle : idle s = false;
  t_current : ∃ T, threads s !! currentThread s = Some T ∧ status T = RUNNING ∧ fence T ∧
    (at_frame T = None ∧ level s = IntOn ∨ resumable (at_frame T) ∧ level s = IntOff);
  t_ready t : t ∈ ids (readyList s) →
    ∃ T, threads s !! t = Some T ∧ status T = READY ∧ fence T ∧ resumable (at_frame T);
  t_nodup : NoDup (live s);
  t_null : NULL ∉ live s;
  t_carcass : threadToBeDestroyed s = NULL ∨
    is_Some (threads s !! threadToBeDestroyed s) ∧ (threadToBeDestroyed s ∉ live s);
}.

(** The thread on the processor executes, and is not about to resume. *)
Definition executing (s : sys) : Prop :=
  ∃ T, threads s !! currentThread s = Some T ∧ at_frame T = None.

Lemma live_exists s t : TInv s → t ∈ live s → ∃ T, threads s !! t = Some T.
Proof.
  intros HI [->|Hin]%elem_of_cons.
  - destruct (t_current s HI) as (T & ? & _). eauto.
  - destruct (t_ready s HI t Hin) as (T & ? & _). eauto.
Qed.

Lemma CheckOverflow_ok T : fence T → CheckOverflow T = Ok tt.
Proof. intros Hf. unfold CheckOverflow. destruct (stack T) as [w|] eqn:E; [|done]. by rewrite (Hf w E), Z.eqb_refl. Qed.

(** Where a thread stands after a switch: those that were there, the old one at
    its frame, the new one running, and perhaps one deleted. *)
Definition after_switch (s s' : sys) (old : Z) (f : frame) : Prop :=
  ∀ t, t ≠ threadToBeDestroyed s →
    threads s' !! t =
    (if decide (t = currentThread s')
     then (λ T, mkThread RUNNING (stack T) (at_frame T))
     else if decide (t = old) then (λ T, mkThread (status T) (stack T) (Some f)) else id) <$> threads s !! t.

Lemma Run_user s f t T0 T :
  threads s !! currentThread s = Some T0 → fence T0 → threads s !! t = Some T → t ≠ currentThread s →
  is_Some (at_frame T) →
  (threadToBeDestroyed s = NULL ∨ is_Some (threads s !! threadToBeDestroyed s) ∧ threadToBeDestroyed s ≠ t) →
  ∃ s', Run s f t = Ok s' ∧ currentThread s' = t ∧ readyList s' = readyList s ∧ idle s' = idle s ∧
    level s' = level s ∧ after_switch s s' (currentThread s) f ∧ dom (threads s') ⊆ dom (threads s) ∧
    (threadToBeDestroyed s' = NULL ∨
     threadToBeDestroyed s' = threadToBeDestroyed s ∧ is_Some (threads s' !! threadToBeDestroyed s)).
Proof.
  intros H0 Hf Ht Hne Hfr Hcar. unfold Run, set_frame, setStatus.
  rewrite (find_Some _ _ _ H0). run_ok. rewrite CheckOverflow_ok by done. run_ok.
  rewrite (find_Some _ _ T) by (simpl; by rewrite lookup_insert_ne). run_ok. simpl.
  rewrite (find_Some _ t (mkThread RUNNING (stack T) (at_frame T))) by apply lookup_insert_eq. run_ok.
  set (s1 := put_thread _ t _).
  assert (after_switch s s1 (currentThread s) f) as Haf.
  { intros u _. simpl. destruct (decide (u = t)) as [->|Hut].
    - by rewrite lookup_insert_eq, Ht.
    - rewrite lookup_insert_ne by done. destruct (decide (u = currentThread s)) as [->|Huc].
      + by rewrite lookup_insert_eq, H0.
      + rewrite lookup_insert_ne by done. by destruct (threads s !! u). }
  assert (∀ u, is_Some (threads s !! u) → is_Some (threads s1 !! u)) as Hdom.
  { intros u Hu. simpl. rewrite !lookup_insert_is_Some'. auto. }
  assert (dom (threads s1) ⊆ dom (threads s)) as Hsub.
  { simpl. rewrite !dom_insert_L. apply elem_of_dom_2 in H0, Ht. set_solver. }
  destruct (bool_decide _).
  { exists s1. split_and!; [done..|]. destruct Hcar as [?|[? _]]; [by left|right]. split; [done|by apply Hdom]. }
  unfold destroy_carcass. change (threadToBeDestroyed s1) with (threadToBeDestroyed s).
  destruct (Z.eqb_spec (threadToBeDestroyed s) NULL) as [Hn|Hn].
  { exists s1. split_and!; try done. by left. }
  destruct Hcar as [?|[Hd Hdt]]; [done|]. unfold Thread_delete. change (currentThread s1) with t.
  destruct (Z.eqb_spec (threadToBeDestroyed s) t); [done|]. run_ok.
  destruct (Hdom _ Hd) as [Td HTd]. rewrite (find_Some _ _ _ HTd). run_ok.
  eexists. split; [reflexivity|]. split_and!; try done; [| |by left].
  - intros u Hu. simpl. rewrite lookup_delete_ne by done. by apply Haf.
  - simpl. rewrite dom_delete_L. simpl in Hsub. set_solver.
Qed.

(** The thread switched to is the head of the ready list. *)
Lemma switched_TInv s s' t rest :
  idle s' = false → level s' = IntOff → currentThread s' = t → ids (readyList s') = rest →
  (∃ T, threads s' !! t = Some T ∧ status T = RUNNING ∧ fence T ∧ resumable (at_frame T)) →
  (∀ u, u ∈ rest → ∃ T, threads s' !! u = Some T ∧ status T = READY ∧ fence T ∧ resumable (at_frame T)) →
  NoDup (t :: rest) → NULL ∉ t :: rest →
  (threadToBeDestroyed s' = NULL ∨
   threadToBeDestroyed s' = threadToBeDestroyed s ∧ is_Some (threads s' !! threadToBeDestroyed s)) →
  (threadToBeDestroyed s = NULL ∨ (threadToBeDestroyed s ∉ t :: rest)) →
  TInv s' ∧ ¬ executing s'.
Proof.
  intros Hid Hl Hc Hr (T & HT & Hst & Hf & Hres) Hrest Hnd Hnull Hcar Hcar0. split.
  - split; [done| | | | |]; unfold live; rewrite ?Hc, ?Hr; [|done|done|done|].
    + exists T. split_and!; [done|done|done|by right].
    + destruct Hcar as [?|[E ?]]; [by left|]. rewrite E. destruct Hcar0 as [?|?]; [by left|by right].
  - intros (T' & HT' & Hnone). rewrite Hc in HT'. simplify_eq. rewrite Hnone in Hres. by destruct Hres.
Qed.

Lemma after_switch_ready s s' old f t u T :
  after_switch s s' old f → currentThread s' = t → u ≠ t → u ≠ old → u ≠ threadToBeDestroyed s →
  threads s !! u = Some T → threads s' !! u = Some T.
Proof.
  intros Haf Hc Hut Huo Hud HT. rewrite Haf by done. rewrite Hc.
  rewrite !decide_False by done. by rewrite HT.
Qed.

Lemma Yield_T s :
  TInv s → executing s →
  match Yield s with
  | Ok s' => TInv s' ∧ dom (threads s') ⊆ dom (threads s) ∧
      (if decide (ids (readyList s) = []) then s' = s
       else ¬ executing s' ∧ live s' ≡ₚ live s ∧ head (ids (readyList s)) = Some (currentThread s'))
  | Err e => e = UseAfterFree ∧ dangling (readyList s) = true
  end.
Proof.
  intros HI (T & HT & Hfr). destruct (t_current s HI) as (T' & HT' & Hst & Hf & Hc). simplify_eq.
  destruct Hc as [[_ Hl]|[[?|?] _]]; [|congruence..].
  pose proof (t_nodup s HI) as Hnd. pose proof (t_null s HI) as Hnull. unfold live in Hnd, Hnull.
  unfold Yield, FindNextToRun. cbv zeta. cbn [readyList set_level].
  destruct (Remove_items (readyList s)) as [H1 H2].
  destruct (Remove (readyList s)) as [t q] eqn:ER. simpl in H1, H2.
  destruct (ids (readyList s)) as [|t' rest] eqn:Eids; simpl in H1, H2; subst t.
  { cbn [Z.eqb NULL default]. unfold Remove, SortedRemove in ER. unfold ids in Eids.
    apply fmap_nil_inv in Eids. rewrite Eids in ER. injection ER as <-.
    replace (set_level _ _) with s by (by destruct s). by split_and!. }
  destruct (t_ready s HI t') as (Tn & HTn & Hstn & Hfn & Hrn); [rewrite Eids; set_solver|].
  destruct (Z.eqb_spec t' NULL); [set_solver|]. unfold ReadyToRun, setStatus. simpl.
  rewrite (find_Some _ _ _ HT). run_ok. simpl.
  pose proof (Append_cases q (currentThread s)) as Happ.
  destruct (Append q (currentThread s)) as [q'|e]; run_ok; [|].
  2: { destruct Happ as [-> Hd]. split; [done|]. unfold Remove, SortedRemove, drop_first in ER.
       destruct (items (readyList s)) as [|[x kx] l] eqn:Ei; [unfold ids in Eids; by rewrite Ei in Eids|].
       injection ER as _ <-.
       simpl in Hd. by destruct l. }
  destruct Happ as [Hq' Hdq]. rewrite H2 in Hq'.
  set (T1 := mkThread READY (stack T) (at_frame T)).
  set (s1 := set_readyList (put_thread (set_readyList (set_level s IntOff) q) (currentThread s) T1) q').
  assert (t' ≠ currentThread s) as Hne by (intros ->; apply NoDup_cons in Hnd as [Hnd _]; apply Hnd; by left).
  assert (threadToBeDestroyed s = NULL ∨ is_Some (threads s !! threadToBeDestroyed s) ∧
            (threadToBeDestroyed s ∉ live s)) as Hcar by apply HI.
  assert (∀ u, u ∈ live s → u ≠ threadToBeDestroyed s) as Hlive.
  { intros u Hu ->. destruct Hcar as [E|[_ E]]; [rewrite E in Hu; by apply (t_null s HI)|done]. }
  destruct (Run_user s1 (AtYield IntOn) t' T1 Tn) as (s' & E & Hcur & Hrl & Hid & Hlv & Haf & Hdom & Hcar').
  { simpl. by rewrite lookup_insert_eq. } { done. } { simpl. by rewrite lookup_insert_ne. } { done. }
  { by destruct Hrn as [->| ->]. }
  { simpl. destruct Hcar as [?|[? Hn]]; [by left|right]. rewrite lookup_insert_is_Some'. split; [by right|].
    intros Heq. apply Hn. rewrite Heq. unfold live. rewrite Eids. by right; left. }
  rewrite Hl, E.
  assert (threads s' !! t' = Some (mkThread RUNNING (stack Tn) (at_frame Tn))) as HTn'.
  { rewrite Haf, Hcur by (apply Hlive; unfold live; rewrite Eids; set_solver).
    rewrite decide_True by done. simpl. by rewrite lookup_insert_ne, HTn. }
  assert (threads s' !! currentThread s = Some (mkThread READY (stack T) (Some (AtYield IntOn)))) as HT'.
  { rewrite Haf, Hcur by (apply Hlive; unfold live; set_solver).
    rewrite decide_False by done. rewrite decide_True by done. simpl. by rewrite lookup_insert_eq. }
  destruct (switched_TInv s1 s' t' (rest ++ [currentThread s])) as [HI' Hex]; try done.
  - by rewrite Hid, <- (t_idle s HI).
  - by rewrite Hrl.
  - by exists (mkThread RUNNING (stack Tn) (at_frame Tn)).
  - intros u [Hu| ->%list_elem_of_singleton]%elem_of_app.
    + destruct (t_ready s HI u) as (Tu & HTu & Hu'); [rewrite Eids; set_solver|].
      exists Tu. split; [|done]. eapply after_switch_ready; [exact Haf|done|..].
      * intros ->. by apply NoDup_cons in Hnd as [_ [? _]%NoDup_cons].
      * intros ->. apply NoDup_cons in Hnd as [Hnd _]. apply Hnd. by right.
      * apply Hlive. unfold live. rewrite Eids. set_solver.
      * simpl. rewrite lookup_insert_ne; [done|]. intros <-. apply NoDup_cons in Hnd as [Hnd _]. apply Hnd. by right.
    + eexists. split; [exact HT'|]. split_and!; [done|done|by left].
  - by rewrite <- Permutation_cons_append, Permutation_swap.
  - set_solver.
  - simpl. destruct Hcar as [?|[_ Hn]]; [by left|right]. unfold live in Hn. rewrite Eids in Hn.
    intros Hin. apply Hn. revert Hin. rewrite !elem_of_cons, elem_of_app, list_elem_of_singleton. tauto.
  - split_and!; [done| |done| |by rewrite Hcur].
    { etrans; [exact Hdom|]. simpl. rewrite dom_insert_L. apply elem_of_dom_2 in HT. set_solver. }
    unfold live. rewrite Hcur, Hrl, Eids. simpl. rewrite Hq'. by rewrite <- Permutation_cons_append, Permutation_swap.
Qed.

(** [Finish] hands the processor to the next thread, or nobody is left. *)
Lemma Finish_T s :
  TInv s → executing s →
  ∃ s', Finish s = Ok s' ∧
    if decide (ids (readyList s) = []) then idle s' = true
    else TInv s' ∧ ¬ executing s' ∧ live s' = ids (readyList s) ∧ dom (threads s') ⊆ dom (threads s).
Proof.
  intros HI (T & HT & Hfr). destruct (t_current s HI) as (T' & HT' & Hst & Hf & Hc). simplify_eq.
  pose proof (t_nodup s HI) as Hnd. pose proof (t_null s HI) as Hnull. unfold live in Hnd, Hnull.
  unfold Finish, Sleep, setStatus. cbv zeta. rewrite bool_decide_true by done. run_ok. simpl.
  rewrite (find_Some _ _ _ HT). run_ok. unfold dispatch, FindNextToRun. simpl.
  destruct (Remove_items (readyList s)) as [H1 H2].
  destruct (Remove (readyList s)) as [t q] eqn:ER. simpl in H1, H2.
  destruct (ids (readyList s)) as [|t' rest] eqn:Eids; simpl in H1, H2; subst t.
  { simpl. unfold set_frame. simpl.
    rewrite (find_Some _ _ (mkThread BLOCKED (stack T) (at_frame T))) by apply lookup_insert_eq. run_ok.
    by eexists. }
  destruct (t_ready s HI t') as (Tn & HTn & Hstn & Hfn & Hrn); [rewrite Eids; set_solver|].
  destruct (Z.eqb_spec t' NULL); [set_solver|].
  set (T1 := mkThread BLOCKED (stack T) (at_frame T)). set (s1 := set_idle _ false).
  assert (t' ≠ currentThread s) as Hne by (intros ->; apply NoDup_cons in Hnd as [Hnd _]; apply Hnd; by left).
  destruct (Run_user s1 AtFinish t' T1 Tn) as (s' & E & Hcur & Hrl & Hid & Hlv & Haf & Hdom & Hcar').
  { simpl. by rewrite lookup_insert_eq. } { done. } { simpl. by rewrite lookup_insert_ne. } { done. }
  { by destruct Hrn as [->| ->]. }
  { simpl. right. rewrite lookup_insert_is_Some'. split; [by left|done]. }
  exists s'. split; [done|].
  assert (threads s' !! t' = Some (mkThread RUNNING (stack Tn) (at_frame Tn))) as HTn'.
  { rewrite Haf, Hcur by done. rewrite decide_True by done. simpl. by rewrite lookup_insert_ne, HTn. }
  destruct (switched_TInv s1 s' t' rest) as [HI' Hex]; try done.
  - by rewrite Hrl.
  - by exists (mkThread RUNNING (stack Tn) (at_frame Tn)).
  - intros u Hu. destruct (t_ready s HI u) as (Tu & HTu & Hu'); [rewrite Eids; set_solver|].
    exists Tu. split; [|done]. eapply after_switch_ready; [exact Haf|done|..].
    + intros ->. by apply NoDup_cons in Hnd as [_ [? _]%NoDup_cons].
    + intros ->. apply NoDup_cons in Hnd as [Hnd _]. apply Hnd. by right.
    + intros ->. apply NoDup_cons in Hnd as [Hnd _]. apply Hnd. by right.
    + simpl. rewrite lookup_insert_ne; [done|]. intros <-. apply NoDup_cons in Hnd as [Hnd _]. apply Hnd. by right.
  - by apply NoDup_cons in Hnd as [_ ?].
  - set_solver.
  - right. simpl. by apply NoDup_cons in Hnd as [? _].
  - split_and!; [done|done| |].
    + unfold live. rewrite Hcur, Hrl. simpl. by rewrite H2.
    + etrans; [exact Hdom|]. simpl. rewrite dom_insert_L. apply elem_of_dom_2 in HT. set_solver.
Qed.

(** A change to the thread table that leaves the live threads alone. *)
Lemma TInv_ext s s' :
  TInv s → currentThread s' = currentThread s → ids (readyList s') = ids (readyList s) →
  idle s' = idle s → level s' = level s → (∀ t, t ∈ live s → threads s' !! t = threads s !! t) →
  (threadToBeDestroyed s' = NULL ∨
   is_Some (threads s' !! threadToBeDestroyed s') ∧ (threadToBeDestroyed s' ∉ live s)) →
  TInv s' ∧ live s' = live s ∧ (executing s → executing s').
Proof.
  intros [Hid Hcur Hrd Hnd Hnull _] Hc Hr Hi Hl Hth Hcar.
  assert (live s' = live s) as Hlive by (unfold live; by rewrite Hc, Hr).
  assert (threads s' !! currentThread s = threads s !! currentThread s) as Ec by (apply Hth; by left).
  split_and!; [|done|unfold executing; by rewrite Hc, Ec].
  split; rewrite ?Hlive, ?Hi, ?Hl; try done.
  - by rewrite Hc, Ec.
  - intros t Ht. rewrite Hr in Ht. rewrite Hth by (by right). by apply Hrd.
Qed.

Lemma Thread_new_T s t :
  TInv s → threads s !! t = None →
  TInv (Thread_new s t) ∧ live (Thread_new s t) = live s ∧ (executing s → executing (Thread_new s t)).
Proof.
  intros HI Ht. apply (TInv_ext s); try done.
  - intros u Hu. destruct (live_exists s u HI Hu) as [T HT]. simpl. rewrite lookup_insert_ne; [done|].
    intros ->. congruence.
  - simpl. destruct (t_carcass s HI) as [?|[? ?]]; [by left|right].
    rewrite lookup_insert_is_Some'. auto.
Qed.

Lemma Fork_T s t :
  TInv s → executing s → is_Some (threads s !! t) → (t ∉ live s) → t ≠ NULL → threadToBeDestroyed s ≠ t →
  match Fork s t with
  | Ok s' => TInv s' ∧ executing s' ∧ currentThread s' = currentThread s ∧
             ids (readyList s') = ids (readyList s) ++ [t] ∧ threadToBeDestroyed s' = threadToBeDestroyed s ∧
             dom (threads s') = dom (threads s)
  | Err e => e = UseAfterFree ∧ dangling (readyList s) = true
  end.
Proof.
  intros HI Hex [T HT] Hnl Hn0 Htbd. unfold Fork, StackAllocate, ReadyToRun, setStatus. cbv zeta.
  rewrite (find_Some _ _ _ HT). run_ok. simpl.
  rewrite (find_Some _ _ (mkThread (status T) (Some STACK_FENCEPOST) (Some AtStart))) by apply lookup_insert_eq.
  run_ok. simpl. pose proof (Append_cases (readyList s) t) as Happ.
  destruct (Append (readyList s) t) as [q|e]; run_ok; [|exact Happ]. destruct Happ as [Hq _].
  set (s' := set_level _ _). set (T' := mkThread READY (Some STACK_FENCEPOST) (Some AtStart)).
  assert (∀ u, u ≠ t → threads s' !! u = threads s !! u) as Hoth.
  { intros u Hu. simpl. by rewrite !lookup_insert_ne. }
  assert (threads s' !! t = Some T') as Ht' by apply lookup_insert_eq.
  assert (currentThread s ≠ t) as Hct by (intros <-; apply Hnl; by left).
  destruct HI as [Hid Hcur Hrd Hnd Hnull Hcar].
  split_and!; try done; [split; try done|..].
  - simpl. rewrite Hoth by done. by destruct s.
  - intros u Hu. simpl in Hu. rewrite Hq in Hu. apply elem_of_app in Hu as [Hu| ->%list_elem_of_singleton].
    + rewrite Hoth; [by apply Hrd|]. intros ->. apply Hnl. by right.
    + exists T'. split_and!; [done|done|by intros w [= <-]|by right].
  - unfold live. simpl. rewrite Hq. unfold live in Hnd, Hnl. rewrite app_comm_cons.
    apply NoDup_app. split_and!; [done|set_solver|apply NoDup_singleton].
  - unfold live. simpl. rewrite Hq. unfold live in Hnull. set_solver.
  - destruct Hcar as [?|[? Hn]]; [by left|right]. change (threadToBeDestroyed s') with (threadToBeDestroyed s).
    rewrite Hoth by done. split; [done|]. unfold live in *. simpl. rewrite Hq. set_solver.
  - destruct Hex as (Tc & HTc & Hnone). exists Tc. simpl. by rewrite Hoth.
  - simpl. rewrite !dom_insert_L. apply elem_of_dom_2 in HT. set_solver.
Qed.

Lemma Remove_T s t :
  TInv s → t ∈ ids (readyList s) →
  let s' := Scheduler_Remove s t in
  TInv s' ∧ (executing s → executing s') ∧ currentThread s' = currentThread s ∧
  threads s' = threads s ∧ ids (readyList s') = filter (λ u, u ≠ t) (ids (readyList s)).
Proof.
  intros HI Ht. pose proof (t_nodup s HI) as Hnd. unfold live in Hnd. apply NoDup_cons in Hnd as [Hc Hnd].
  pose proof (RemoveElement_ids (readyList s) t Hnd) as Hids. unfold Scheduler_Remove.
  destruct (RemoveElement (readyList s) t) as [x q]. simpl in *.
  destruct HI as [Hid Hcur Hrd Hnd0 Hnull _]. split_and!; try done. split; try done.
  - intros u Hu. simpl in Hu. rewrite Hids in Hu. apply list_elem_of_filter in Hu as [_ Hu]. by apply Hrd.
  - unfold live. simpl. rewrite Hids. constructor; [|by apply NoDup_filter].
    intros [_ Hin]%list_elem_of_filter. done.
  - unfold live. simpl. rewrite Hids. intros [E|[_ Hin]%list_elem_of_filter]%elem_of_cons; apply Hnull; unfold live; [rewrite E; by left|by right].
  - right. simpl. split; [destruct (Hrd t Ht) as (T & -> & _); done|]. unfold live. simpl. rewrite Hids.
    intros [E|[Hne _]%list_elem_of_filter]%elem_of_cons; [|done]. subst t. done.
Qed.

Lemma resume_T s :
  TInv s → ¬ executing s →
  ∃ T f s', threads s !! currentThread s = Some T ∧ at_frame T = Some f ∧ resume s f = Ok (s', []) ∧
    TInv s' ∧ executing s' ∧ currentThread s' = currentThread s ∧ readyList s' = readyList s ∧
    dom (threads s') = dom (threads s) ∧ (f = AtStart ∨ f = AtYield IntOn).
Proof.
  intros HI Hex. destruct HI as [Hid (T & HT & Hst & Hf & Hc) Hrd Hnd Hnull Hcar].
  destruct Hc as [[? _]|[Hres _]]; [by destruct Hex; exists T|].
  assert (∀ o, o = IntOn → ∃ s', set_level (put_thread s (currentThread s) (mkThread (status T) (stack T) None)) o = s' ∧
    TInv s' ∧ executing s' ∧ currentThread s' = currentThread s ∧ readyList s' = readyList s ∧
    dom (threads s') = dom (threads s)) as Hgo.
  { intros o ->. eexists. split; [reflexivity|].
    split_and!; try done; [split; try done|..].
    - eexists. simpl. rewrite lookup_insert_eq. split_and!; [done|done|done|by left].
    - intros u Hu. simpl. rewrite lookup_insert_ne; [by apply Hrd|]. intros <-.
      by apply NoDup_cons in Hnd as [? _].
    - destruct Hcar as [?|[? ?]]; [by left|right]. simpl. rewrite lookup_insert_is_Some'. auto.
    - eexists. simpl. by rewrite lookup_insert_eq.
    - simpl. rewrite dom_insert_L. apply elem_of_dom_2 in HT. set_solver. }
  destruct (Hgo IntOn eq_refl) as (s' & Es & Hs').
  destruct Hres as [Hr|Hr].
  - exists T, (AtYield IntOn), s'. unfold resume, set_frame. rewrite (find_Some _ _ _ HT). run_ok.
    rewrite Es. split_and!; try done; [apply Hs'..|by right].
  - exists T, AtStart, s'. unfold resume, set_frame. rewrite (find_Some _ _ _ HT). run_ok.
    rewrite Es. split_and!; try done; [apply Hs'..|by left].
Qed.

End UserThreads.

(** ** Parents and children

    The PCBs as a forest: the list of children of a PCB holds exactly the PCBs
    whose parent it is. *)
Module Family.

Implicit Types (m : gmap Z (PCB.PCB unit)) (P Q X C : PCB.PCB unit).

Record family m : Prop := mkFamily {
  fam_null : m !! Threads.NULL = None;
  fam_nodup p P : m !! p = Some P → NoDup (PCB.kids P);
  fam_kids p P c : m !! p = Some P →
    (c ∈ PCB.kids P ↔ ∃ C, m !! c = Some C ∧ PCB.getParent C = p);
  fam_parent p P : m !! p = Some P →
    PCB.getParent P = Threads.NULL ∨ is_Some (m !! PCB.getParent P) ∧ PCB.getParent P ≠ p;
}.

(** What a process that leaves does to the PCB [X] at [x]. *)
Record changed (p : Z) (P : PCB.PCB unit) (code : option Z) (x : Z) (X X' : PCB.PCB unit) : Prop :=
mkChanged {
  ch_thread : PCB.getThread X' = PCB.getThread X;
  ch_id : PCB.getID X' = PCB.getID X;
  ch_parent : PCB.getParent X' = if decide (x ∈ PCB.kids P) then Threads.NULL else PCB.getParent X;
  ch_kids : PCB.kids X' = if decide (x = PCB.getParent P) then filter (λ c, c ≠ p) (PCB.kids X) else PCB.kids X;
  ch_code : PCB.getCode X' =
    if decide (x = PCB.getParent P) then default (PCB.getCode X) code else PCB.getCode X;
}.

Lemma family_leave m m' p P code :
  family m → m !! p = Some P →
  (∀ x, option_Forall2 (changed p P code x) (m !! x) (m' !! x)) →
  family (delete p m').
Proof.
  intros [Hnull Hnd Hk Hpar] Hp Hch.
  assert (∀ x X', delete p m' !! x = Some X' → x ≠ p ∧ ∃ X, m !! x = Some X ∧ changed p P code x X X') as Hinv.
  { intros x X' [Hne Hx]%lookup_delete_Some. specialize (Hch x). rewrite Hx in Hch.
    inversion Hch as [? X ? Hc E|]; subst. eauto. }
  assert (∀ x X, m !! x = Some X → x ≠ p → ∃ X', delete p m' !! x = Some X' ∧ changed p P code x X X') as Hfwd.
  { intros x X Hx Hne. specialize (Hch x). rewrite Hx in Hch. inversion Hch as [? X' ? Hc E|]; subst.
    exists X'. by rewrite lookup_delete_ne. }
  split.
  - destruct (delete p m' !! Threads.NULL) as [X'|] eqn:E; [|done].
    apply Hinv in E as (_ & X & HX & _). congruence.
  - intros x X' (Hne & X & HX & Hc)%Hinv. rewrite (ch_kids _ _ _ _ _ _ Hc).
    case_decide; [apply NoDup_filter|]; by eapply Hnd.
  - intros x X' c (Hne & X & HX & Hc)%Hinv.
    assert (c ∈ PCB.kids X' ↔ c ∈ PCB.kids X ∧ c ≠ p) as ->.
    { rewrite (ch_kids _ _ _ _ _ _ Hc). case_decide as Hx; [rewrite list_elem_of_filter; tauto|].
      split; [|tauto]. intros Hin. split; [done|]. intros ->. apply (Hk x X p HX) in Hin as (C & HC & Hpc).
      congruence. }
    rewrite (Hk x X c HX). split.
    + intros ((C & HC & Hpc) & Hcp). destruct (Hfwd c C HC Hcp) as (C' & HC' & Hch').
      exists C'. split; [done|]. rewrite (ch_parent _ _ _ _ _ _ Hch'), decide_False; [done|].
      intros (C2 & HC2 & Hp2)%(Hk p P c Hp). congruence.
    + intros (C' & (Hcp & C & HC & Hch')%Hinv & Hpc). rewrite (ch_parent _ _ _ _ _ _ Hch') in Hpc.
      case_decide as Hin; [|by eauto 10]. subst x. congruence.
  - intros x X' (Hne & X & HX & Hc)%Hinv. rewrite (ch_parent _ _ _ _ _ _ Hc).
    case_decide as Hin; [by left|]. destruct (Hpar x X HX) as [?|[[Y HY] Hirr]]; [by left|right].
    split; [|done]. destruct (Hfwd _ Y HY) as (Y' & -> & _); [|done].
    intros Heq. apply Hin. apply (Hk p P x Hp). eauto.
Qed.

Lemma family_join m q Q Q' n N :
  family m → m !! q = Some Q → m !! n = None → n ≠ Threads.NULL →
  PCB.kids Q' = PCB.kids Q ++ [n] → PCB.getParent Q' = PCB.getParent Q →
  PCB.kids N = [] → PCB.getParent N = q →
  family (<[q := Q']> (<[n := N]> m)).
Proof.
  intros [Hnull Hnd Hk Hpar] HQ Hn Hn0 Hkq Hpq Hkn Hpn.
  assert (q ≠ n) as Hqn by (intros ->; congruence).
  assert (q ≠ Threads.NULL) as Hq0 by (intros ->; congruence).
  assert (∀ p P, m !! p = Some P → n ∉ PCB.kids P) as Hfresh.
  { intros p P HP (C & HC & _)%(Hk p P n HP). congruence. }
  assert (∀ p P, m !! p = Some P → PCB.getParent P ≠ n) as Hnop.
  { intros p P HP Heq. destruct (Hpar p P HP) as [?|[[? ?] _]]; [congruence|congruence]. }
  assert (∀ x X, <[q := Q']> (<[n := N]> m) !! x = Some X →
    (x = n ∧ X = N) ∨ (x = q ∧ X = Q') ∨ (x ≠ n ∧ x ≠ q ∧ m !! x = Some X)) as Hinv.
  { intros x X [[<- <-]|[? [[<- <-]|[? ?]]%lookup_insert_Some]]%lookup_insert_Some; auto. }
  assert (∀ c x, (∃ C, <[q := Q']> (<[n := N]> m) !! c = Some C ∧ PCB.getParent C = x) ↔
    (c = n ∧ x = q) ∨ (∃ C, m !! c = Some C ∧ PCB.getParent C = x)) as Hchild.
  { intros c x. split.
    - intros (C & HC & Hx). destruct (Hinv c C HC) as [[-> ->]|[[-> ->]|(_ & _ & ?)]];
        [left; split; congruence|right; exists Q; split; congruence|eauto].
    - intros [[-> ->]|(C & HC & Hx)].
      + exists N. by rewrite lookup_insert_ne, lookup_insert_eq.
      + assert (c ≠ n) by (intros ->; congruence). destruct (decide (c = q)) as [->|].
        * exists Q'. rewrite lookup_insert_eq. split; [done|congruence].
        * exists C. by rewrite !lookup_insert_ne. }
  split.
  - by rewrite !lookup_insert_ne.
  - intros p P HP. destruct (Hinv p P HP) as [[-> ->]|[[-> ->]|(? & ? & ?)]].
    + rewrite Hkn. constructor.
    + rewrite Hkq. apply NoDup_app. split_and!; [by eapply Hnd| |apply NoDup_singleton].
      intros x Hx ->%list_elem_of_singleton. by eapply Hfresh.
    + by eapply Hnd.
  - intros p P c HP. rewrite Hchild. destruct (Hinv p P HP) as [[-> ->]|[[-> ->]|(? & ? & ?)]].
    + rewrite Hkn. split; [set_solver|]. intros [[_ ?]|(C & HC & Hpc)]; [congruence|]. by edestruct Hnop.
    + rewrite Hkq, elem_of_app, list_elem_of_singleton, (Hk q Q c HQ). tauto.
    + rewrite (Hk p P c) by done. split; [tauto|]. intros [[_ ?]|?]; [congruence|done].
  - intros p P HP. rewrite !lookup_insert_is_Some'.
    destruct (Hinv p P HP) as [[-> ->]|[[-> ->]|(? & ? & HP')]].
    + right. rewrite Hpn. auto.
    + rewrite Hpq. destruct (Hpar q Q HQ) as [?|[? ?]]; auto.
    + destruct (Hpar p P HP') as [?|[? ?]]; auto.
Qed.

End Family.

(** ** Loading any file

    [Replace] of a file that need not be a program: what becomes of the memory
    is left open, but the frames stay with their owners. *)
Module Loading.

Definition harmless (e : error) : Prop := e = AssertionFailed ∨ e = OutOfBounds.

Section loading.
Context {A : Type} `{PageAllocatorLaws A}.
Implicit Types (w : world A) (s : AddrSpace).

Record keeps w w' (ss : list AddrSpace) : Prop := mkKeeps {
  kp_inv : Inv w' ss;
  kp_machine : machine w' = Machine.set_mainMemory (machine w) (memory w');
  kp_ptr : pageTablePtr w' = pageTablePtr w;
}.

Lemma keeps_refl w ss : Inv w ss → keeps w w ss.
Proof. split; [done| |done]. by destruct w as [? [] ? ? ?]. Qed.

Lemma keeps_trans w1 w2 w3 ss : keeps w1 w2 ss → keeps w2 w3 ss → keeps w1 w3 ss.
Proof. intros [? Hm1 ?] [? Hm2 ?]. split; [done| |congruence]. by rewrite Hm2, Hm1. Qed.

Lemma writes_keeps w w' ss s va bs : writes w w' ss s va bs → keeps w w' ss.
Proof. intros []. by split. Qed.

Lemma Translate_total w ss s va :
  Inv w ss → s ∈ ss → is_s32 va →
  ∃ pa w', Translate w s va = Ok (pa, w') ∧ writes w w' ss s 0 [] ∧
    (pa = -1 ∨ 0 ≤ pa < Machine.MemorySize ∧ 0 ≤ va < Machine.MemorySize).
Proof.
  intros HI Hs Hva. pose proof (numPages_range w ss s HI Hs) as Hn.
  assert (space_ok w s) as Hok by (by apply (proj1 (Forall_forall _ _) (inv_spaces _ _ HI))).
  destruct (decide (0 ≤ va < numPages s * Machine.PageSize)) as [Hin|Hout].
  - destruct (Translate_ok w s va Hok Hva Hin) as (e & Hte & (_ & _ & Hf) & E).
    eexists _, _. split; [exact E|]. split; [by apply mark_writes|]. right.
    destruct (page_offset va) as (_ & Ho & _); [lia|]. frames. lia.
  - exists (-1), w. rewrite Translate_outside by (done || lia). split; [done|].
    split; [by apply writes_nil|by left].
Qed.

Lemma store_memory_any w ss pa bs :
  Inv w ss → Forall Machine.is_byte bs →
  match store_memory w pa bs with Ok w' => keeps w w' ss | Err e => e = OutOfBounds end.
Proof.
  intros HI Hb. unfold store_memory.
  assert (∀ bs mem pa, full mem → Forall Machine.is_byte bs →
    match Machine.store_bytes mem pa bs with Ok mem' => full mem' | Err e => e = OutOfBounds end) as Hst.
  { clear. induction bs as [|b bs IH]; intros mem pa Hf Hb; cbn [Machine.store_bytes]; [done|].
    apply Forall_cons in Hb as [Hb Hbs]. destruct (decide (0 ≤ pa < Z.of_nat (length mem))) as [Hin|].
    - rewrite aset_ok by done. run_ok. apply IH; [|done]. destruct Hf as [Hl Hf].
      split; [by rewrite length_insert|by apply Forall_insert].
    - by rewrite aset_out. }
  specialize (Hst bs (memory w) pa (ww_memory _ (inv_world _ _ HI)) Hb).
  destruct (Machine.store_bytes (memory w) pa bs) as [mem'|e]; run_ok; [|done].
  split; [|done|done]. apply inv_machine; [done| |done|apply HI].
  by destruct (ww_registers _ (inv_world _ _ HI)).
Qed.

Lemma load_bytes_any buf a n :
  Forall Machine.is_byte buf →
  match Machine.load_bytes buf a n with Ok bs => Forall Machine.is_byte bs | Err e => e = OutOfBounds end.
Proof.
  intros Hb. revert a. induction n as [|n IH]; intros a; cbn [Machine.load_bytes]; [constructor|].
  unfold aget. destruct (a <? 0); [done|]. destruct (buf !! Z.to_nat a) as [b|] eqn:E; run_ok; [|done].
  specialize (IH (a + 1)). destruct (Machine.load_bytes buf (a + 1) n); run_ok; [|done].
  constructor; [exact (Forall_lookup_1 _ _ _ _ Hb E)|done].
Qed.

Lemma ReadFile_loop_any fuel : ∀ w ss s buf va done left,
  Inv w ss → s ∈ ss → Forall Machine.is_byte buf → is_s32 va → left ≤ Z.of_nat fuel →
  match ReadFile_loop fuel w s buf va done left with
  | Ok (_, w') => keeps w w' ss
  | Err e => harmless e
  end.
Proof.
  induction fuel as [|fuel IH]; intros w ss s buf va done' left HI Hs Hb Hva Hfuel; cbn [ReadFile_loop];
    rewrite Z.gtb_ltb; (destruct (Z.ltb_spec 0 left); [|by apply keeps_refl]); [lia|].
  destruct (Translate_total w ss s va HI Hs Hva) as (pa & w1 & -> & Hw1 & Hpa). run_ok.
  set (n := if left <? Machine.PageSize then left else Machine.PageSize - Z.rem va Machine.PageSize).
  unfold ASSERT. rewrite Z.geb_leb. destruct (Z.leb_spec 0 pa) as [Hpos|]; run_ok; [|by left].
  destruct Hpa as [->|[Hpa Hva']]; [lia|].
  pose proof (load_bytes_any buf done' (Z.to_nat n) Hb) as Hl.
  destruct (Machine.load_bytes buf done' (Z.to_nat n)) as [bs|e]; run_ok; [|by right].
  pose proof (store_memory_any w1 ss pa bs (wr_inv _ _ _ _ _ _ Hw1) Hl) as Hst.
  destruct (store_memory w1 pa bs) as [w2|e]; run_ok; [|by right].
  assert (0 < n ≤ left ∧ n ≤ Machine.PageSize) as Hn.
  { unfold n. pose proof (Z.rem_bound_pos va Machine.PageSize). destruct (Z.ltb_spec left Machine.PageSize); frames; lia. }
  specialize (IH w2 ss s buf (va + n) (done' + n) (left - n) (kp_inv _ _ _ Hst) Hs Hb).
  destruct (ReadFile_loop fuel w2 s buf (va + n) (done' + n) (left - n)) as [[? w3]|e];
    [|apply IH; unfold is_s32; frames; lia].
  eapply keeps_trans; [by eapply writes_keeps|]. eapply keeps_trans; [exact Hst|].
  apply IH; unfold is_s32; frames; lia.
Qed.

Context (uninit : nat → Z) (uninit_bytes : ∀ n, Machine.is_byte (uninit n)).

Lemma ReadAt_any file n pos :
  Forall Machine.is_byte file →
  match ReadAt file (buffer uninit n) n pos with
  | Ok buf => Forall Machine.is_byte buf
  | Err e => e = AssertionFailed
  end.
Proof using uninit_bytes.
  intros Hb. unfold ReadAt, ASSERT. destruct (pos >=? 0); run_ok; [|done].
  apply Forall_inserts; [by apply Forall_take, Forall_drop|].
  unfold buffer. apply Forall_fmap, Forall_forall. intros x _. apply uninit_bytes.
Qed.

Lemma load_segment_any w ss s file seg :
  Inv w ss → s ∈ ss → Forall Machine.is_byte file → is_s32 (virtualAddr seg) →
  match load_segment uninit w s file seg with Ok w' => keeps w w' ss | Err e => harmless e end.
Proof using uninit_bytes.
  intros HI Hs Hb Hva. unfold load_segment. rewrite Z.gtb_ltb. destruct (Z.ltb_spec 0 (size seg));
    [|by apply keeps_refl]. unfold ReadFile.
  pose proof (ReadAt_any file (size seg) (inFileAddr seg) Hb) as Hr.
  destruct (ReadAt _ _ _ _) as [buf|e]; run_ok; [|by left].
  pose proof (ReadFile_loop_any (Z.to_nat (size seg)) w ss s buf (virtualAddr seg) 0 (size seg)
    HI Hs Hr Hva ltac:(lia)) as Hl.
  by destruct (ReadFile_loop _ _ _ _ _ _ _) as [[? w']|e]; run_ok.
Qed.

Lemma ReadFileName_loop_any fuel : ∀ w ss s va buf c pos size,
  Inv w ss → s ∈ ss → is_s32 va → size - pos ≤ Z.of_nat fuel →
  match ReadFileName_loop fuel w s va buf c pos size with
  | Ok (_, _, w') => writes w w' ss s 0 []
  | Err e => harmless e
  end.
Proof.
  induction fuel as [|fuel IH]; intros w ss s va buf c pos size HI Hs Hva Hf; cbn [ReadFileName_loop];
    (destruct (negb (c =? 0) && (pos <? size)) eqn:Ec; [|by apply writes_nil]);
    apply andb_true_iff in Ec as [_ Hlt%Z.ltb_lt]; [lia|].
  destruct (Translate_total w ss s va HI Hs Hva) as (pa & w1 & -> & Hw1 & Hpa). run_ok.
  destruct (Z.ltb_spec pa 0); [done|]. unfold aget.
  destruct (Z.ltb_spec pa 0); [lia|]. destruct (memory w1 !! Z.to_nat pa) as [b|]; run_ok; [|by right].
  destruct (decide (0 ≤ pos < Z.of_nat (length buf))) as [Hin|Hout];
    [rewrite aset_ok by done|rewrite aset_out by done; by right]. run_ok.
  specialize (IH w1 ss s (s32 (va + 1)) (<[Z.to_nat pos := b]> buf) b (pos + 1) size (wr_inv _ _ _ _ _ _ Hw1) Hs
    (s32_range _) ltac:(lia)).
  destruct (ReadFileName_loop fuel w1 s _ _ b _ size) as [[[? ?] w2]|e]; [|done].
  by eapply writes_trans.
Qed.

Lemma c_string_any buf : match c_string buf with Ok _ => True | Err e => e = OutOfBounds end.
Proof.
  induction buf as [|b buf IH]; cbn [c_string]; [done|]. destruct (b =? 0); [done|].
  by destruct (c_string buf); run_ok.
Qed.

Context (HOST_IS_BIG_ENDIAN : bool) (stale_entry : Machine.TranslationEntry)
  (Open : list Z → option (list Z))
  (files_are_bytes : ∀ name file, Open name = Some file → Forall Machine.is_byte file).

Lemma read_header_any file :
  match read_header HOST_IS_BIG_ENDIAN uninit file with
  | Ok h => is_s32 (virtualAddr (code h)) ∧ is_s32 (virtualAddr (initData h))
  | Err e => e = AssertionFailed
  end.
Proof.
  unfold read_header, ReadAt, ASSERT. change (0 >=? 0) with true. run_ok.
  set (h := header_of _ _). destruct (negb (noffMagic h =? NOFFMAGIC) && _).
  - destruct (noffMagic (SwapHeader _ h) =? NOFFMAGIC); run_ok; [|done]. simpl. unfold swap. auto with nachos.
  - destruct (noffMagic h =? NOFFMAGIC); run_ok; [|done]. simpl. unfold int_at. auto with nachos.
Qed.

(** [Replace] of anything: the address space is what it was, or a new one with
    the machine about to start in it. *)
Lemma Replace_any w s ss va :
  Inv w (s :: ss) → running w s → is_s32 va →
  match Replace HOST_IS_BIG_ENDIAN uninit stale_entry Open w s va with
  | Ok (false, s', w') => s' = s ∧ keeps w w' (s :: ss) ∧ untouched w w' (s :: ss)
  | Ok (true, s', w') => Inv w' (s' :: ss) ∧ running w' s' ∧ pcb s' = pcb s ∧
      Machine.registers (machine w') = start_registers (numPages s')
  | Err e => harmless e
  end.
Proof using uninit_bytes files_are_bytes.
  intros HI Hrun Hva. assert (s ∈ s :: ss) as Hs by (by left). unfold Replace. cbv zeta.
  pose proof (ReadFileName_loop_any 128 w (s :: ss) s va (buffer uninit 128) 48 0 128 HI Hs Hva ltac:(lia)) as Hn.
  unfold ReadFileName. change (Z.to_nat 128) with 128%nat.
  destruct (ReadFileName_loop 128 w s va (buffer uninit 128) 48 0 128) as [[[? fileName] w1]|e]; run_ok; [|done].
  pose proof (c_string_any fileName) as Hc. destruct (c_string fileName) as [name|e]; run_ok; [|by right].
  assert (∀ w', keeps w1 w' (s :: ss) → (∀ s', s' ∈ s :: ss → contents w' s' = contents w1 s' ∧ owned w' s' = owned w1 s') →
    s = s ∧ keeps w w' (s :: ss) ∧ untouched w w' (s :: ss)) as Hsame.
  { intros w' Hk Hsm. split_and!; [done|eapply keeps_trans; [by eapply writes_keeps|done]|].
    intros s' Hs'. destruct (Hsm s' Hs') as [-> ->]. split; [by apply Hn|].
    destruct (decide (s' = s)) as [->|]; [exact (wr_contents _ _ _ _ _ _ Hn)|by apply Hn]. }
  destruct (Open name) as [file|] eqn:Eo;
    [|apply Hsame; [apply keeps_refl, Hn|done]].
  pose proof (files_are_bytes name file Eo) as Hb.
  pose proof (read_header_any file) as Hh.
  destruct (read_header HOST_IS_BIG_ENDIAN uninit file) as [h|e]; run_ok; [|by left].
  destruct Hh as [Hv1 Hv2]. pose proof (wr_inv _ _ _ _ _ _ Hn) as HI1. pose proof (inv_world _ _ HI1) as Hw1.
  destruct (getFree_law (memoryManager w1) (ww_ready _ Hw1)) as (mm & -> & Hr & Hp & Hf). run_ok.
  rewrite (ww_pages _ Hw1) in *. destruct (image_pages_int h) as [H1 H2].
  set (n := divRoundUp (image_size h) Machine.PageSize) in *. rewrite H1, H2.
  set (free := Machine.NumPhysPages - Z.of_nat (base.size (frames (memoryManager w1)))).
  set (w2 := set_memoryManager w1 mm).
  assert (Inv w2 (s :: ss)) as HI2 by (by apply inv_manager).
  rewrite Z.gtb_ltb. destruct (Z.ltb_spec free (u32 (n - numPages s))) as [|Hroom].
  { apply Hsame; [split; [done| |done]; by destruct w1 as [? [] ? ? ?]|done]. }
  destruct (release_ok w2 s ss HI2) as (w3 & w4 & -> & E4 & HI4 & Hun & Hm4 & _ & _ & Hfr). run_ok.
  rewrite E4. run_ok. pose proof (inv_world _ _ HI4) as Hw4.
  assert (0 ≤ n) as Hn0 by apply image_pages_nonneg.
  pose proof (numPages_range _ _ _ HI1 Hs) as Hns.
  assert (Z.of_nat (base.size (frames (memoryManager w4))) + n ≤ Machine.NumPhysPages) as Hfit.
  { pose proof (frames_size_cons w2 w4 s ss HI2 HI4 Hun) as Hsz. unfold w2 in Hsz. simpl in Hsz. rewrite Hf in Hsz.
    assert (n - numPages s ≤ free); [|unfold free in *; lia].
    pose proof (u32_range n) as Hu32. rewrite H2 in Hu32. unfold is_u32 in Hu32.
    destruct (decide (0 ≤ n - numPages s)) as [Hge|Hlt].
    - by rewrite u32_id in Hroom by (unfold is_u32; lia).
    - exfalso. unfold u32 in Hroom. rewrite <- (Z.mod_add _ 1) in Hroom by lia.
      rewrite Z.mod_small in Hroom by (frames; lia). unfold free in Hroom. frames. lia. }
  destruct (initialized_space stale_entry w4 ss (memoryManager w4) n (pcb s) HI4 (ww_ready _ Hw4)
    (ww_pages _ Hw4) eq_refl Hn0 Hfit) as (w5 & E5 & HI5 & _).
  unfold with_table in E5. replace (set_memoryManager w4 (memoryManager w4)) with w4 in E5 by (by destruct w4).
  unfold new_table in *. cbn [snd] in E5. set (s' := mkSpace (next w4) n (pcb s)) in *.
  rewrite E5. run_ok. assert (s' ∈ s' :: ss) as Hs' by (by left).
  pose proof (load_segment_any w5 (s' :: ss) s' file (code h) HI5 Hs' Hb Hv1) as Hl1.
  destruct (load_segment uninit w5 s' file (code h)) as [w6|e]; run_ok; [|done].
  pose proof (load_segment_any w6 (s' :: ss) s' file (initData h) (kp_inv _ _ _ Hl1) Hs' Hb Hv2) as Hl2.
  destruct (load_segment uninit w6 s' file (initData h)) as [w7|e]; run_ok; [|done].
  pose proof (kp_inv _ _ _ Hl2) as HI7. pose proof (inv_world _ _ HI7) as Hw7.
  rewrite InitRegisters_ok by apply Hw7. run_ok. split_and!; try done.
  apply RestoreState_ok, inv_machine; [done|apply start_registers_wf|apply Hw7|apply Hw7].
Qed.

Lemma AddrSpace_new_any stale_pcb w ss file :
  Inv w ss → Forall Machine.is_byte file →
  match AddrSpace_new HOST_IS_BIG_ENDIAN uninit stale_entry stale_pcb w file with
  | Ok (s, w') => Inv w' (s :: ss)
  | Err e => harmless e
  end.
Proof using uninit_bytes.
  intros HI Hb. pose proof (inv_world _ _ HI) as Hw. unfold AddrSpace_new.
  pose proof (read_header_any file) as Hh.
  destruct (read_header HOST_IS_BIG_ENDIAN uninit file) as [h|e]; run_ok; [|by left].
  destruct Hh as [Hv1 Hv2].
  destruct (getFree_law (memoryManager w) (ww_ready _ Hw)) as (mm & -> & Hr & Hp & Hf). run_ok.
  rewrite (ww_pages _ Hw) in *. set (n := divRoundUp (image_size h) Machine.PageSize).
  unfold ASSERT. destruct (Z.leb_spec n (Machine.NumPhysPages - Z.of_nat (base.size (frames (memoryManager w)))));
    run_ok; [|by left].
  assert (0 ≤ n) as Hn0 by apply image_pages_nonneg.
  destruct (initialized_space stale_entry w ss mm n stale_pcb HI Hr Hp Hf Hn0 ltac:(lia)) as (w1 & E1 & HI1 & _).
  unfold with_table, new_table in E1. unfold new_table. cbn [snd] in E1.
  set (s := mkSpace (next w) n stale_pcb) in *. simpl in E1 |- *. fold s. rewrite E1. run_ok.
  assert (s ∈ s :: ss) as Hs by (by left).
  pose proof (load_segment_any w1 (s :: ss) s file (code h) HI1 Hs Hb Hv1) as Hl1.
  destruct (load_segment uninit w1 s file (code h)) as [w2|e]; run_ok; [|done].
  pose proof (load_segment_any w2 (s :: ss) s file (initData h) (kp_inv _ _ _ Hl1) Hs Hb Hv2) as Hl2.
  destruct (load_segment uninit w2 s file (initData h)) as [w3|e]; run_ok; [apply Hl2|done].
Qed.

End loading.
End Loading.

(** ** The process system *)
Module Processes.
Import UserThreads Family.

(** *** Registers *)
Section registers.
Context {A : Type} `{PageAllocator A}.
Implicit Types (k : kernel A) (rs : list Z).

Definition good_regs rs : Prop :=
  length rs = Z.to_nat Machine.NumTotalRegs ∧ Forall is_u32 rs ∧
  ∀ r, rs !! Z.to_nat Machine.LoadReg = Some r → r < Machine.NumGPRegs.

Lemma good_regs_wf m : good_regs (Machine.registers m) ↔ Machine.wf_regs m.
Proof. split; [intros (? & ? & ?); by split|intros []; by split_and!]. Qed.

Definition regs k : list Z := Machine.registers (machine (mem k)).
Definition with_regs k rs : kernel A :=
  Syscalls.set_machine k (Machine.set_registers (machine (mem k)) rs).
Definition reg_at rs (i : Z) : Z := default 0 (rs !! Z.to_nat i).

Lemma with_regs_twice k rs rs' : with_regs (with_regs k rs) rs' = with_regs k rs'.
Proof. by destruct k as [[]]. Qed.

Lemma with_regs_id k : with_regs k (regs k) = k.
Proof. by destruct k as [[? [] ? ? ?]]. Qed.

Lemma regs_with k rs : regs (with_regs k rs) = rs.
Proof. done. Qed.

Lemma good_insert rs i v :
  good_regs rs → 0 ≤ i → i ≠ Machine.LoadReg → good_regs (<[Z.to_nat i := u32 v]> rs).
Proof.
  intros (Hl & Hu & Hr) Hi Hne. split_and!.
  - by rewrite length_insert.
  - apply Forall_insert; [done|apply u32_range].
  - rewrite list_lookup_insert_ne by (unfold Machine.LoadReg in *; lia). done.
Qed.

Lemma reg_at_insert rs i j v :
  length rs = Z.to_nat Machine.NumTotalRegs → 0 ≤ i < Machine.NumTotalRegs → 0 ≤ j →
  reg_at (<[Z.to_nat i := v]> rs) j = if decide (i = j) then v else reg_at rs j.
Proof.
  intros Hl Hi Hj. unfold reg_at. case_decide as E.
  - subst. by rewrite list_lookup_insert_eq by lia.
  - by rewrite list_lookup_insert_ne by lia.
Qed.

Lemma ReadRegister_ok k i :
  good_regs (regs k) → 0 ≤ i < Machine.NumTotalRegs → ReadRegister k i = Ok (s32 (reg_at (regs k) i)).
Proof.
  intros (Hl & _) Hi. unfold ReadRegister, Machine.ReadRegister.
  destruct (Z.geb_spec i 0); [|lia]. destruct (Z.ltb_spec i Machine.NumTotalRegs); [|lia]. run_ok.
  destruct (aget_ok (Machine.registers (machine (mem k))) i) as (x & Hx & ->); [unfold regs in Hl; lia|].
  run_ok. unfold reg_at, regs. by rewrite Hx.
Qed.

Lemma write_register_ok k i v :
  length (regs k) = Z.to_nat Machine.NumTotalRegs → 0 ≤ i < Machine.NumTotalRegs →
  WriteRegister k i v = Ok (with_regs k (<[Z.to_nat i := u32 v]> (regs k))).
Proof. intros Hl Hi. unfold WriteRegister. by rewrite Spaces.WriteRegister_ok. Qed.

(** The three program counters one instruction further. *)
Definition bump rs (i : Z) : list Z := <[Z.to_nat i := u32 (reg_at rs i + 4)]> rs.
Definition advanced rs : list Z :=
  bump (bump (bump rs Machine.PCReg) Machine.NextPCReg) Machine.PrevPCReg.
Definition returned rs (v : Z) : list Z := advanced (<[2%nat := u32 v]> rs).

Lemma good_bump rs i : good_regs rs → 0 ≤ i → i ≠ Machine.LoadReg → good_regs (bump rs i).
Proof. intros. by apply good_insert. Qed.

Lemma good_advanced rs : good_regs rs → good_regs (advanced rs).
Proof. intros. by repeat (apply good_bump; [|done|done]). Qed.

Lemma good_returned rs v : good_regs rs → good_regs (returned rs v).
Proof. intros. apply good_advanced. by apply (good_insert rs 2). Qed.

Lemma bump_ok {B} k i (f : kernel A → result B) :
  good_regs (regs k) → 0 ≤ i < Machine.NumTotalRegs →
  (r ← ReadRegister k i; k ← WriteRegister k i (r + 4); f k) = f (with_regs k (bump (regs k) i)).
Proof.
  intros Hg Hi. rewrite ReadRegister_ok by done. run_ok. rewrite write_register_ok by (apply Hg || done). run_ok.
  unfold bump. by rewrite u32_add_s32.
Qed.

Lemma update_ok k : good_regs (regs k) → update k = Ok (with_regs k (advanced (regs k))).
Proof.
  intros Hg. unfold update. rewrite bump_ok by done.
  set (r1 := bump (regs k) Machine.PCReg).
  assert (good_regs r1) by (by apply good_bump).
  rewrite bump_ok by done. rewrite regs_with, with_regs_twice.
  set (r2 := bump r1 Machine.NextPCReg). assert (good_regs r2) by (by apply good_bump).
  pose proof (bump_ok (with_regs k r2) Machine.PrevPCReg Ok) as Hb.
  rewrite regs_with, with_regs_twice in Hb.
  change (with_regs k (advanced (regs k))) with (with_regs k (bump r2 Machine.PrevPCReg)). rewrite <- Hb by done.
  destruct (ReadRegister _ _); [|done]. run_ok. by destruct (WriteRegister _ _ _).
Qed.

Lemma return_with_ok k v : good_regs (regs k) → return_with k v = Ok (with_regs k (returned (regs k) v)).
Proof.
  intros Hg. unfold return_with. rewrite write_register_ok by (apply Hg || done). run_ok.
  rewrite update_ok by (by apply good_insert). by rewrite regs_with, with_regs_twice.
Qed.

(** Saving and restoring give the registers back. *)
Lemma mapM_Ok {B C} (f : B → result C) (g : B → C) l :
  (∀ x, x ∈ l → f x = Ok (g x)) → mapM f l = Ok (g <$> l).
Proof.
  induction l as [|x l IH]; intros Hf; [done|].
  change ((y ← f x; ys ← mapM f l; mret (y :: ys)) = Ok (g <$> x :: l)).
  rewrite Hf by (by left). run_ok. rewrite IH; [done|]. intros y Hy. apply Hf. by right.
Qed.

Lemma SaveUserState_ok k t U :
  user k t = Ok U → good_regs (regs k) →
  SaveUserState k t = Ok (put_user k t (mkUser (space U) (s32 <$> regs k) (at_kont U))).
Proof.
  intros HU Hg. unfold SaveUserState. rewrite HU. run_ok.
  rewrite (mapM_Ok _ (λ i, s32 (reg_at (regs k) i))).
  - run_ok. do 3 f_equal. apply list_eq. intros i. destruct Hg as [Hl _].
    destruct (decide (i < Z.to_nat Machine.NumTotalRegs)%nat) as [Hi|Hi].
    + rewrite list_lookup_fmap, lookup_seqZ_lt by (unfold Machine.NumTotalRegs in *; lia). simpl.
      rewrite list_lookup_fmap. unfold reg_at. replace (Z.to_nat (0 + Z.of_nat i)) with i by lia.
      by destruct (lookup_lt_is_Some_2 (regs k) i) as [x ->]; [lia|].
    + rewrite !lookup_ge_None_2; [done|rewrite length_fmap; lia|rewrite length_fmap, length_seqZ; lia].
  - intros i Hi%elem_of_seqZ. apply ReadRegister_ok; [done|lia].
Qed.

Lemma write_registers_ok rs : ∀ k i,
  (i + length rs)%nat = Z.to_nat Machine.NumTotalRegs → length (regs k) = Z.to_nat Machine.NumTotalRegs →
  write_registers k (Z.of_nat i) rs = Ok (with_regs k (take i (regs k) ++ (u32 <$> rs))).
Proof.
  induction rs as [|r rs IH]; intros k i Hi Hl; cbn [write_registers].
  - rewrite app_nil_r, take_ge by (simpl in Hi; lia). by rewrite with_regs_id.
  - simpl in Hi. rewrite write_register_ok by (done || lia). run_ok.
    replace (Z.of_nat i + 1) with (Z.of_nat (S i)) by lia. rewrite IH.
    + rewrite with_regs_twice, regs_with, Nat2Z.id. csimpl.
      rewrite (take_S_r _ _ (u32 r)), take_insert_ge by (rewrite ?list_lookup_insert_eq; done || lia).
      by rewrite <- (assoc_L (++)).
    + lia.
    + rewrite regs_with. by rewrite length_insert.
Qed.

(** Registers that were saved by [SaveUserState]. *)
Definition saved (U : UserThread) (rs : list Z) : Prop := good_regs rs ∧ userRegisters U = s32 <$> rs.

Lemma RestoreUserState_ok k t U rs :
  user k t = Ok U → saved U rs → length (regs k) = Z.to_nat Machine.NumTotalRegs →
  RestoreUserState k t = Ok (with_regs k rs).
Proof.
  intros HU [(Hl & Hu & _) Hs] Hk. unfold RestoreUserState. rewrite HU. run_ok.
  rewrite (write_registers_ok _ k 0) by (rewrite ?Hs, ?length_fmap; done). rewrite Hs. do 2 f_equal.
  simpl. rewrite <- list_fmap_compose. rewrite <- (list_fmap_id rs) at 2.
  apply Forall_fmap_ext_1. eapply Forall_impl; [exact Hu|]. intros x Hx. simpl.
  by rewrite u32_s32, u32_id.
Qed.

End registers.

(** *** The invariant *)

(** A process: its number, and the addresses of its PCB, thread and address
    space. *)
Record proc := mkProc { p_pid : Z; p_pcb : Z; p_thread : Z; p_space : Z }.

Section invariant.
Context {A : Type} `{PageAllocatorLaws A}.
Implicit Types (k : kernel A) (p : proc) (procs : list proc) (leaked : list AddrSpace).

Definition space_of k p : AddrSpace := default (mkSpace 0 0 0) (spaces k !! p_space p).

(** The process is on the processor, its registers in the machine. *)
Definition on_cpu k p : Prop := p_thread p = current k ∧ executing (sys k).

Record proc_ok k p : Prop := mkProcOk {
  po_pcb : ∃ P, pcbs k !! p_pcb p = Some P ∧ PCB.getThread P = p_thread p ∧ PCB.getID P = p_pid p;
  po_space : ∃ s, spaces k !! p_space p = Some s ∧ pcb s = p_pcb p;
  po_user : ∃ U, users k !! p_thread p = Some U ∧ space U = p_space p ∧
    (on_cpu k p ∨ ∃ rs, saved U rs);
}.

Definition below {X} (n : Z) (m : gmap Z X) : Prop := ∀ x, is_Some (m !! x) → 0 < x < n.

(** [procs] are the processes that are alive, [leaked] the address spaces that
    a failed fork left behind, and [gone] the live thread of a process that has
    been taken apart, in the middle of exit or kill. *)
Record KInv k (gone : list Z) procs leaked : Prop := mkKInv {
  ki_sys : TInv (sys k);
  ki_threads : gone ++ (p_thread <$> procs) ≡ₚ live (sys k);
  ki_procs : Forall (proc_ok k) procs;
  ki_manager : ProcessManager.wf (processManager k);
  ki_pids : NoDup (p_pid <$> procs);
  ki_table : ProcessManager.table (processManager k) = list_to_map ((λ p, (p_pid p, p_pcb p)) <$> procs);
  ki_distinct : NoDup (p_pcb <$> procs);
  ki_pcbs : dom (pcbs k) = list_to_set (p_pcb <$> procs);
  ki_family : family (pcbs k);
  ki_spaces : NoDup (p_space <$> procs);
  ki_memory : Inv (mem k) ((space_of k <$> procs) ++ leaked);
  ki_running p : p ∈ procs → on_cpu k p → running (mem k) (space_of k p);
  ki_fresh : 0 < fresh k;
  ki_fresh_threads : below (fresh k) (Threads.threads (sys k));
  ki_fresh_pcbs : below (fresh k) (pcbs k);
  ki_fresh_spaces : below (fresh k) (spaces k);
  ki_fresh_users : below (fresh k) (users k);
}.

Lemma KInv_perm k gone procs procs' leaked :
  procs ≡ₚ procs' → KInv k gone procs leaked → KInv k gone procs' leaked.
Proof.
  intros Hp []. split; try done.
  - by rewrite <- Hp.
  - by rewrite <- Hp.
  - by rewrite <- Hp.
  - rewrite ki_table0. apply list_to_map_proper; [|by rewrite Hp].
    rewrite <- list_fmap_compose. done.
  - by rewrite <- Hp.
  - rewrite ki_pcbs0. by apply list_to_set_perm_L, fmap_Permutation.
  - by rewrite <- Hp.
  - eapply (Inv_proper (mem k)); [|exact ki_memory0]. by rewrite Hp.
  - intros p Hin. apply ki_running0. by rewrite Hp.
Qed.

(** The process on the processor, first. *)
Lemma current_first k procs leaked :
  KInv k [] procs leaked →
  ∃ c others, procs ≡ₚ c :: others ∧ p_thread c = current k ∧ KInv k [] (c :: others) leaked ∧
    (p_thread <$> others) ≡ₚ Threads.ids (Threads.readyList (sys k)).
Proof.
  intros HK. pose proof (ki_threads _ _ _ _ HK) as Hth.
  assert (current k ∈ p_thread <$> procs) as Hin by (rewrite Hth; by left).
  apply list_elem_of_fmap in Hin as (c & Hc & Hin).
  apply elem_of_Permutation in Hin as [others Ho]. exists c, others.
  split_and!; [done|done|by eapply KInv_perm|].
  rewrite Ho in Hth. csimpl in Hth. rewrite <- Hc in Hth. unfold live in Hth.
  by apply Permutation_cons_inv in Hth.
Qed.

Lemma user_ok k gone procs leaked p :
  KInv k gone procs leaked → p ∈ procs →
  ∃ U, users k !! p_thread p = Some U ∧ user k (p_thread p) = Ok U ∧ space U = p_space p ∧
    (on_cpu k p ∨ ∃ rs, saved U rs).
Proof.
  intros HK Hp. destruct (proj1 (Forall_forall _ _) (ki_procs _ _ _ _ HK) p Hp) as [_ _ (U & HU & Hs & Hsv)].
  exists U. split_and!; try done. unfold user.
  destruct (live_exists (sys k) (p_thread p)) as [T HT]; [apply HK| |].
  { rewrite <- (ki_threads _ _ _ _ HK). apply elem_of_app. right. by apply list_elem_of_fmap_2. }
  by rewrite (Threads.find_Some _ _ _ HT), (Threads.find_Some _ _ _ HU).
Qed.

(** What [currentThread->space->pcb] reaches. *)
Lemma current_ok k gone c others leaked :
  KInv k gone (c :: others) leaked → p_thread c = current k →
  ∃ P, pcbs k !! p_pcb c = Some P ∧ PCB.getThread P = p_thread c ∧ PCB.getID P = p_pid c ∧
    spaces k !! p_space c = Some (space_of k c) ∧ pcb (space_of k c) = p_pcb c ∧
    current_space k = Ok (p_space c, space_of k c) ∧ current_pcb k = Ok (p_pcb c, P).
Proof.
  intros HK Hc. assert (c ∈ c :: others) as Hin by (by left).
  destruct (user_ok k _ _ _ c HK Hin) as (U & HU & Hu & Hs & _).
  destruct (Forall_inv (ki_procs _ _ _ _ HK)) as [(P & HP & HPt & HPi) (s & Hsp & Hpc) _].
  assert (space_of k c = s) as Hso by (unfold space_of; by rewrite Hsp).
  exists P. rewrite Hso. split_and!; try done.
  - unfold current_space. rewrite <- Hc, Hu. run_ok. by rewrite Hs, (Threads.find_Some _ _ _ Hsp).
  - unfold current_pcb, current_space. rewrite <- Hc, Hu. run_ok. rewrite Hs, (Threads.find_Some _ _ _ Hsp). run_ok.
    by rewrite Hpc, (Threads.find_Some _ _ _ HP).
Qed.

Lemma good_current k gone procs leaked : KInv k gone procs leaked → good_regs (regs k).
Proof. intros HK. apply good_regs_wf. apply (inv_world _ _ (ki_memory _ _ _ _ HK)). Qed.

(** The memory changes, the processes do not. *)
Lemma KInv_mem k w gone procs leaked :
  KInv k gone procs leaked → Inv w ((space_of k <$> procs) ++ leaked) →
  (∀ p, p ∈ procs → on_cpu k p → running w (space_of k p)) →
  KInv (set_mem k w) gone procs leaked.
Proof.
  intros [] HI Hr. split; try done. eapply Forall_impl; [exact ki_procs0|]. by intros p [].
Qed.

Lemma KInv_regs k rs gone procs leaked :
  KInv k gone procs leaked → good_regs rs → KInv (with_regs k rs) gone procs leaked.
Proof.
  intros HK Hg. apply KInv_mem; [done| |].
  - pose proof (ki_memory _ _ _ _ HK) as HI. pose proof (inv_world _ _ HI) as Hw.
    apply inv_machine; [done|by apply good_regs_wf|apply Hw|apply Hw].
  - intros p Hp Hcpu. by destruct (ki_running _ _ _ _ HK p Hp Hcpu).
Qed.

(** A return with a result. *)
Lemma return_with_KInv k v gone procs leaked :
  KInv k gone procs leaked →
  return_with k v = Ok (with_regs k (returned (regs k) v)) ∧
  KInv (with_regs k (returned (regs k) v)) gone procs leaked.
Proof.
  intros HK. pose proof (good_current _ _ _ _ HK) as Hg.
  split; [by apply return_with_ok|]. apply KInv_regs; [done|]. by apply good_returned.
Qed.

End invariant.

End Processes.
