(* ===== verification/Lifecycle.v ===== *)
(** * Processes: what the system calls do

    Every system call keeps the invariant of the process system (file
    Processes), or stops for one of the reasons listed in [stops]; and what
    each of them does to the processes, their memory and their registers. *)

From stdpp Require Import base list gmap.
From S2P Require Import Prelude Lists BitMap Machine Mips Threads Managers Frames AddrSpace Spaces Syscalls Processes.
Import Pages Frames AddrSpace Spaces Syscalls UserThreads Family Loading Processes.

Module Lifecycle.

(** The parts of the invariant, by name. *)
Ltac open_inv H :=
  destruct H as [Ksys Kthreads Kprocs Kmanager Kpids Ktable Kdistinct Kpcbs Kfamily Kspaces Kmemory
                 Krunning Kfresh Kfthreads Kfpcbs Kfspaces Kfusers].

Section state.
Context {A : Type} `{PageAllocatorLaws A}.
Implicit Types (k : kernel A) (p : proc) (procs : list proc) (leaked : list AddrSpace).

Lemma threads_nodup k gone procs leaked : KInv k gone procs leaked → NoDup (gone ++ (p_thread <$> procs)).
Proof. intros HK. rewrite (ki_threads _ _ _ _ HK). apply (ki_sys _ _ _ _ HK). Qed.

Lemma thread_inj k gone procs leaked p p' :
  KInv k gone procs leaked → p ∈ procs → p' ∈ procs → p_thread p = p_thread p' → p = p'.
Proof.
  intros HK Hp Hp' Heq. pose proof (threads_nodup _ _ _ _ HK) as (_ & _ & Hnd)%NoDup_app.
  by eapply (NoDup_fmap_inj_in p_thread).
Qed.

(** The saved registers, or the continuation, of a process change. *)
Lemma KInv_user k gone procs leaked p U' :
  KInv k gone procs leaked → p ∈ procs → space U' = p_space p →
  (on_cpu k p ∨ ∃ rs, saved U' rs) → KInv (put_user k (p_thread p) U') gone procs leaked.
Proof.
  intros HK Hp Hs Hsv. pose proof HK as HK'. open_inv HK'. split; try done.
  - apply Forall_forall. intros q Hq.
    destruct (proj1 (Forall_forall _ _) Kprocs q Hq) as [HP HS (U & HU & Hsp & Hsq)].
    split; [done|done|]. simpl. destruct (decide (p_thread q = p_thread p)) as [Heq|Hne].
    + rewrite Heq, lookup_insert_eq. assert (q = p) as -> by (by eapply thread_inj). by exists U'.
    + exists U. by rewrite lookup_insert_ne.
  - intros x. simpl. rewrite lookup_insert_is_Some'. intros [<-|Hx]; [|by apply Kfusers].
    apply Kfthreads. destruct (live_exists (sys k) (p_thread p) Ksys) as [T ->]; [|done].
    rewrite <- Kthreads. apply elem_of_app. right. by apply list_elem_of_fmap_2.
Qed.

Lemma set_kont_ok k c others leaked x :
  KInv k [] (c :: others) leaked → p_thread c = current k →
  ∃ U, users k !! current k = Some U ∧
    set_kont k x = Ok (put_user k (current k) (mkUser (space U) (userRegisters U) x)) ∧
    KInv (put_user k (current k) (mkUser (space U) (userRegisters U) x)) [] (c :: others) leaked.
Proof.
  intros HK Hc. assert (c ∈ c :: others) as Hin by (by left).
  destruct (user_ok k _ _ _ c HK Hin) as (U & HU & Hu & Hs & Hsv). rewrite Hc in *.
  exists U. split_and!; [done|unfold set_kont; by rewrite Hu|].
  rewrite <- Hc. apply KInv_user; [done|done|done|].
  destruct Hsv as [|[rs [Hg Hrs]]]; [by left|right]. by exists rs.
Qed.

(** The current process saves its registers. *)
Lemma SaveUserState_KInv k c others leaked :
  KInv k [] (c :: others) leaked → p_thread c = current k →
  ∃ U, users k !! current k = Some U ∧
    let U' := mkUser (space U) (s32 <$> regs k) (at_kont U) in
    SaveUserState k (current k) = Ok (put_user k (current k) U') ∧
    saved U' (regs k) ∧ KInv (put_user k (current k) U') [] (c :: others) leaked.
Proof.
  intros HK Hc. assert (c ∈ c :: others) as Hin by (by left).
  destruct (user_ok k _ _ _ c HK Hin) as (U & HU & Hu & Hs & _). rewrite Hc in *.
  pose proof (good_current _ _ _ _ HK) as Hg. exists U. split; [done|]. cbv zeta.
  split_and!; [by apply SaveUserState_ok|done|]. rewrite <- Hc.
  apply KInv_user; [done|done|done|]. right. by exists (regs k).
Qed.

(** A switch to another thread, once every process has saved its registers. *)
Lemma KInv_switch k s' gone procs leaked :
  KInv k gone procs leaked → TInv s' → ¬ executing s' →
  live s' ≡ₚ p_thread <$> procs → dom (Threads.threads s') ⊆ dom (Threads.threads (sys k)) →
  (∀ p U, p ∈ procs → users k !! p_thread p = Some U → ∃ rs, saved U rs) →
  KInv (set_sys k s') [] procs leaked.
Proof.
  intros HK HT Hex Hlive Hdom Hsaved. open_inv HK. split; try done.
  - apply Forall_forall. intros q Hq.
    destruct (proj1 (Forall_forall _ _) Kprocs q Hq) as [HP HS (U & HU & Hsp & _)].
    split; [done|done|]. exists U. split_and!; [done|done|]. right. by eapply Hsaved.
  - by intros p _ [_ ?].
  - intros x Hx. apply Kfthreads. rewrite <- elem_of_dom in Hx |- *. set_solver.
Qed.

Lemma others_saved k c others leaked p U :
  KInv k [] (c :: others) leaked → p_thread c = current k → p ∈ others →
  users k !! p_thread p = Some U → ∃ rs, saved U rs.
Proof.
  intros HK Hc Hp HU. assert (p ∈ c :: others) as Hin by (by right).
  destruct (user_ok k _ _ _ p HK Hin) as (U' & HU' & _ & _ & [[Hcur _]|Hs]); [|by simplify_eq].
  assert (p = c) as -> by (eapply thread_inj; [exact HK|done|by left|congruence]).
  pose proof (threads_nodup _ _ _ _ HK) as Hnd. csimpl in Hnd. apply NoDup_cons in Hnd as [Hnin _].
  destruct Hnin. by apply list_elem_of_fmap_2.
Qed.

Definition is_dangling k : Prop := ListModel.dangling (Threads.readyList (sys k)) = true.

(** [Yield] in a system call. *)
Lemma Yield_KInv k procs leaked x :
  KInv k [] procs leaked → executing (sys k) →
  match Yield k x with
  | Ok k' => KInv k' [] procs leaked ∧ mem k' = mem k ∧ pcbs k' = pcbs k ∧
             processManager k' = processManager k ∧ spaces k' = spaces k ∧
             (Threads.ids (Threads.readyList (sys k)) ≠ [] → ¬ executing (sys k') ∧
               head (Threads.ids (Threads.readyList (sys k))) = Some (current k') ∧
               ∃ U, users k' !! current k = Some U ∧ saved U (regs k) ∧ at_kont U = x)
  | Err e => e = UseAfterFree ∧ is_dangling k
  end.
Proof.
  intros HK Hex. destruct (current_first _ _ _ HK) as (c & others & Hp & Hc & HK1 & Hready).
  destruct (set_kont_ok k c others leaked x HK1 Hc) as (U & HU & E & HK2).
  unfold Yield. rewrite E. run_ok. set (k2 := put_user k (current k) _) in *.
  unfold some_ready. change (sys k2) with (sys k). unfold Threads.FindNextToRun.
  pose proof (Yield_T (sys k) (ki_sys _ _ _ _ HK) Hex) as HY.
  destruct (Remove_items (Threads.readyList (sys k))) as [H1 _].
  destruct (ListModel.Remove (Threads.readyList (sys k))) as [t q]. simpl in H1. cbn [fst]. subst t.
  destruct (Threads.ids (Threads.readyList (sys k))) as [|t rest] eqn:Eids; simpl.
  - change (sys k2) with (sys k). destruct (Threads.Yield (sys k)) as [s'|e]; run_ok; [|exact HY].
    destruct HY as (_ & _ & ->). split_and!; try done.
    replace (set_sys k2 (sys k)) with k2 by (by destruct k). eapply KInv_perm; [symmetry; exact Hp|done].
  - assert (t ≠ Threads.NULL) as Ht0.
    { intros ->. apply (t_null _ (ki_sys _ _ _ _ HK)). unfold live. rewrite Eids. by right; left. }
    destruct (Z.eqb_spec t Threads.NULL) as [|_]; [done|]. cbn [negb]. unfold leave.
    assert (users k2 !! current k2 = Some (mkUser (space U) (userRegisters U) x)) as HU2 by apply lookup_insert_eq.
    destruct (user_ok k2 _ _ _ c HK2 ltac:(by left)) as (U2 & HU2' & Hu2 & Hs2 & _).
    rewrite Hc in HU2', Hu2. change (current k) with (current k2) in HU2', Hu2. rewrite HU2 in HU2'.
    injection HU2' as <-. rewrite Hu2. run_ok.
    pose proof (Forall_inv (ki_procs _ _ _ _ HK2)) as [_ (s & Hsp & _) _].
    assert (0 < p_space c < fresh k2) as Hsp0 by (apply (ki_fresh_spaces _ _ _ _ HK2); by rewrite Hsp).
    destruct (Z.eqb_spec (space (mkUser (space U) (userRegisters U) x)) Threads.NULL) as [E0|_];
      [rewrite Hs2 in E0; unfold Threads.NULL in E0; lia|].
    destruct (SaveUserState_KInv k2 c others leaked HK2 Hc) as (U3 & HU3 & -> & Hsv & HK3). run_ok.
    set (k3 := put_user k2 (current k2) _) in *. change (sys k3) with (sys k).
    destruct (Threads.Yield (sys k)) as [s'|e]; run_ok; [|exact HY].
    destruct HY as (HT & Hdom & Hnx & Hlive & Hhd). split_and!; try done;
      [|intros _; split_and!; [done|exact Hhd|]; eexists; split; [apply lookup_insert_eq|];
        split; [exact Hsv|]; simpl; change (current k) with (current k2) in HU2; by simplify_eq].
    eapply KInv_perm; [symmetry; exact Hp|]. eapply KInv_switch; [exact HK3|done|done| |done|].
    + etrans; [exact Hlive|]. symmetry. exact (ki_threads _ _ _ _ HK3).
    + intros p Up [->|Hin]%elem_of_cons HUp.
      * rewrite Hc in HUp. change (current k) with (current k2) in HUp. simpl in HUp.
        rewrite lookup_insert_eq in HUp. injection HUp as <-. by exists (regs k2).
      * by eapply (others_saved k3).
Qed.

(** The thread switched to goes on: its registers and its page table are in the
    machine again. *)
Lemma resume_KInv k procs leaked :
  KInv k [] procs leaked → ¬ executing (sys k) →
  ∃ T f k', Threads.threads (sys k) !! current k = Some T ∧ Threads.at_frame T = Some f ∧
    resume k f = Ok k' ∧ KInv k' [] procs leaked ∧ executing (sys k') ∧ current k' = current k ∧
    (∃ U, users k !! current k = Some U ∧ saved U (regs k')) ∧ users k' = users k ∧
    memory (mem k') = memory (mem k) ∧ tables (mem k') = tables (mem k) ∧
    memoryManager (mem k') = memoryManager (mem k) ∧
    processManager k' = processManager k ∧ pcbs k' = pcbs k ∧ spaces k' = spaces k.
Proof.
  intros HK Hex. destruct (current_first _ _ _ HK) as (c & others & Hp & Hc & HK1 & _).
  destruct (resume_T (sys k) (ki_sys _ _ _ _ HK) Hex) as
    (T & f & s' & HT & Hf & E & HT' & Hex' & Hcur & Hrl & Hdom & Hff).
  destruct (user_ok k _ _ _ c HK1 ltac:(by left)) as (U & HU & _ & Hs & Hsv). rewrite Hc in HU.
  destruct Hsv as [[_ ?]|[rs Hsv]]; [done|].
  destruct (Forall_inv (ki_procs _ _ _ _ HK1)) as [_ (s & Hsp & _) _].
  assert (0 < p_space c < fresh k) as Hsp0 by (apply (ki_fresh_spaces _ _ _ _ HK); by rewrite Hsp).
  set (k1 := set_sys k s'). set (k' := set_mem k1 (RestoreState (mem (with_regs k1 rs)) s)).
  assert (current k1 = current k) as Hck1 by exact Hcur.
  assert (user k1 (current k) = Ok U) as Hu1.
  { unfold user. change (sys k1) with s'. change (users k1) with (users k).
    destruct (Threads.threads s' !! current k) as [T1|] eqn:E1;
      [rewrite (Threads.find_Some _ _ _ E1); run_ok; by rewrite (Threads.find_Some _ _ _ HU)|].
    apply elem_of_dom_2 in HT. rewrite <- Hdom in HT. apply not_elem_of_dom in E1. done. }
  pose proof (good_current _ _ _ _ HK) as Hg.
  assert (RestoreUserState k1 (current k1) = Ok (with_regs k1 rs)) as Er.
  { rewrite Hck1. eapply RestoreUserState_ok; [done|done|apply Hg]. }
  assert (resume k f = Ok k') as Ek.
  { unfold resume. rewrite E. run_ok. fold k1.
    assert (user (with_regs k1 rs) (current k1) = Ok U) as Hu2 by (rewrite Hck1; exact Hu1).
    destruct Hff as [-> | ->].
    - unfold dummy. rewrite Er. run_ok. unfold current_space.
      change (current (with_regs k1 rs)) with (current k1). rewrite Hu2. run_ok.
      by rewrite Hs, (Threads.find_Some _ _ s).
    - unfold arrive. rewrite Hck1, Hu1. run_ok.
      destruct (Z.eqb_spec (space U) Threads.NULL) as [E0|_]; [rewrite Hs in E0; unfold Threads.NULL in E0; lia|].
      rewrite <- Hck1, Er. run_ok. by rewrite Hs, (Threads.find_Some _ _ s). }
  exists T, f, k'. split_and!; try done; [|by exists U].
  assert (space_of k c = s) as Hso by (unfold space_of; by rewrite Hsp).
  pose proof HK as HK'. open_inv HK'. split; try done.
  - rewrite Kthreads. unfold live. simpl. by rewrite Hcur, Hrl.
  - apply Forall_forall. intros q Hq. rewrite Hp in Hq.
    destruct (proj1 (Forall_forall _ _) (ki_procs _ _ _ _ HK1) q Hq) as [HP HS (Uq & HUq & Hsq & _)].
    split; [done|done|]. exists Uq. split_and!; [done|done|].
    destruct (decide (p_thread q = current k)) as [Hqc|Hqc]; [left; split; [by rewrite <- Hck1 in Hqc|done]|right].
    destruct (user_ok k _ _ _ q HK1 Hq) as (U' & HU' & _ & _ & [[? _]|?]); [done|by simplify_eq].
  - apply RestoreState_ok. pose proof (inv_world _ _ Kmemory) as Hw.
    apply inv_machine; [done|apply good_regs_wf, Hsv|apply Hw|apply Hw].
  - intros p Hin [Hcpu _]. assert (p = c) as ->; [|change (space_of k' c) with (space_of k c); by rewrite Hso].
    eapply thread_inj; [exact HK1|by rewrite <- Hp|by left|]. rewrite Hc, <- Hck1. exact Hcpu.
  - intros x Hx. apply Kfthreads. apply elem_of_dom. rewrite <- Hdom. by apply elem_of_dom.
Qed.

(** *** A process leaves *)

Definition orphaned (P : PCB.PCB unit) : PCB.PCB unit := PCB.set P (PCB.getID P) Threads.NULL.

Lemma orphan_ok l : ∀ k,
  (∀ c, c ∈ l → is_Some (pcbs k !! c)) →
  ∃ m', orphan k l = Ok (set_pcbs k m') ∧
    ∀ x, m' !! x = (if decide (x ∈ l) then orphaned else id) <$> pcbs k !! x.
Proof.
  induction l as [|c l IH]; intros k Hl; cbn [orphan].
  { exists (pcbs k). split; [by destruct k|]. intros x. rewrite decide_False by set_solver.
    by destruct (pcbs k !! x). }
  destruct (Hl c ltac:(by left)) as [P HP]. unfold nullParent. rewrite (Threads.find_Some _ _ _ HP). run_ok.
  fold (orphaned P). destruct (IH (put_pcb k c (orphaned P))) as (m' & -> & Hm').
  { intros d Hd. simpl. rewrite lookup_insert_is_Some'. right. apply Hl. by right. }
  exists m'. split; [done|]. intros x. rewrite Hm'. simpl. destruct (decide (x = c)) as [->|Hne].
  - rewrite lookup_insert_eq, HP. rewrite (decide_True (P := c ∈ c :: l)) by (by left).
    by destruct (decide (c ∈ l)).
  - rewrite lookup_insert_ne by done.
    destruct (decide (x ∈ l)); [rewrite decide_True by (by right)|rewrite decide_False by set_solver]; done.
Qed.

Lemma removeChild_unit (Q : PCB.PCB unit) (p : Z) :
  NoDup (PCB.kids Q) →
  ∃ b q, PCB.removeChild Q p = Ok (b, PCB.set_children Q q (PCB.lock Q)) ∧
    (ListModel.items q).*1 = filter (λ c, c ≠ p) (PCB.kids Q).
Proof.
  intros Hnd. pose proof (RemoveElement_ids (PCB.children Q) p Hnd) as Hids.
  unfold PCB.removeChild. simpl. destruct (ListModel.RemoveElement (PCB.children Q) p) as [x q].
  eexists _, q. split; [reflexivity|]. exact Hids.
Qed.

Lemma leave_family_ok k (p : Z) P code :
  family (pcbs k) → pcbs k !! p = Some P →
  ∃ m', leave_family k p code = Ok (set_pcbs k m') ∧
    ∀ x, option_Forall2 (changed p P code x) (pcbs k !! x) (m' !! x).
Proof.
  intros Hf HP. unfold leave_family. rewrite (Threads.find_Some _ _ _ HP). run_ok.
  destruct (orphan_ok (PCB.kids P) k) as (m1 & E1 & Hm1).
  { intros c (C & -> & _)%(fam_kids _ Hf p P c HP). done. }
  assert ((if negb (ListModel.IsEmpty (PCB.getChildren P)) then orphan k (ListModel.items (PCB.getChildren P)).*1
           else Ok k) = Ok (set_pcbs k m1)) as ->.
  { change ((ListModel.items (PCB.getChildren P)).*1) with (PCB.kids P).
    unfold ListModel.IsEmpty. destruct (ListModel.items (PCB.getChildren P)) eqn:Ei; [|done].
    simpl. rewrite <- E1. unfold PCB.kids. change (PCB.children P) with (PCB.getChildren P). by rewrite Ei. }
  run_ok. assert (p ∉ PCB.kids P) as Hself.
  { intros (C & HC & Hpc)%(fam_kids _ Hf p P p HP). assert (C = P) as -> by congruence.
    destruct (fam_parent _ Hf _ _ HP) as [E|[_ ?]]; [|done]. rewrite Hpc in E.
    pose proof (fam_null _ Hf) as Hn. rewrite <- E in Hn. congruence. }
  assert (m1 !! p = Some P) as HP1 by (rewrite Hm1, decide_False, HP by done; done).
  simpl. rewrite (Threads.find_Some _ _ _ HP1). run_ok.
  destruct (Z.eqb_spec (PCB.getParent P) Threads.NULL) as [Hnull|Hnn]; cbn [negb].
  - exists m1. split; [done|]. intros x. rewrite Hm1. destruct (pcbs k !! x) as [X|] eqn:HX; [|constructor].
    constructor. assert (x ≠ PCB.getParent P) as Hx.
    { rewrite Hnull. intros ->. pose proof (fam_null _ Hf). congruence. }
    split; rewrite ?(decide_False (P := x = PCB.getParent P)) by done;
      by destruct (decide (x ∈ PCB.kids P)).
  - destruct (fam_parent _ Hf _ _ HP) as [?|[[Q HQ] Hpp]]; [done|].
    set (Q1 := (if decide (PCB.getParent P ∈ PCB.kids P) then orphaned else id) Q).
    assert (m1 !! PCB.getParent P = Some Q1) as HQ1 by (by rewrite Hm1, HQ).
    assert (PCB.kids Q1 = PCB.kids Q) as Hk1 by (unfold Q1; by case_decide).
    rewrite (Threads.find_Some _ _ _ HQ1). run_ok.
    destruct (removeChild_unit Q1 p) as (b & q & -> & Hq); [rewrite Hk1; by eapply fam_nodup|]. run_ok.
    eexists. split; [reflexivity|]. intros x. simpl.
    destruct (decide (x = PCB.getParent P)) as [->|Hx].
    + rewrite lookup_insert_eq, HQ. constructor. rewrite Hk1 in Hq.
      unfold Q1. split; rewrite ?(decide_True (P := PCB.getParent P = PCB.getParent P)) by done;
        destruct code, (decide (PCB.getParent P ∈ PCB.kids P)); done.
    + rewrite lookup_insert_ne by done. rewrite Hm1. destruct (pcbs k !! x) as [X|] eqn:HX; [|constructor].
      constructor. split; rewrite ?(decide_False (P := x = PCB.getParent P)) by done;
        by destruct (decide (x ∈ PCB.kids P)).
Qed.

Definition pid_pcb p : Z * Z := (p_pid p, p_pcb p).

Lemma pid_pcb_fst procs : (pid_pcb <$> procs).*1 = p_pid <$> procs.
Proof. by rewrite <- list_fmap_compose. Qed.

Lemma table_range (pm : ProcessManager.ProcessManager unit) i :
  is_Some (ProcessManager.table pm !! i) →
  0 ≤ i < BitMap.numBits (ProcessManager.map pm) ∧ i ∈ ProcessManager.pids pm.
Proof.
  intros [x Hx]. rewrite ProcessManager.table_lookup in Hx. case_decide as Hi; [|done].
  split; [by apply ProcessManager.pids_range|done].
Qed.

Lemma table_proc k gone procs leaked p :
  KInv k gone procs leaked → p ∈ procs →
  ProcessManager.table (processManager k) !! p_pid p = Some (p_pcb p).
Proof.
  intros HK Hp. rewrite (ki_table _ _ _ _ HK). apply elem_of_list_to_map_1.
  - rewrite pid_pcb_fst. apply (ki_pids _ _ _ _ HK).
  - apply (list_elem_of_fmap_2 pid_pcb). done.
Qed.

(** The number of the process is free again. *)
Lemma free_pid k gone p others leaked :
  KInv k gone (p :: others) leaked →
  ∃ pm1 pm2, ProcessManager.removePCB (processManager k) (p_pid p) = Ok pm1 ∧
    ProcessManager.clearPID pm1 (p_pid p) = Ok pm2 ∧ ProcessManager.wf pm2 ∧
    ProcessManager.table pm2 = list_to_map (pid_pcb <$> others).
Proof.
  intros HK. pose proof (table_proc k _ _ _ p HK ltac:(by left)) as Ht.
  destruct (table_range (processManager k) (p_pid p)) as [Hr Hin]; [by rewrite Ht|].
  destruct (ProcessManager.removePCB_ok _ _ (ki_manager _ _ _ _ HK) Hr) as (pm1 & E1 & Hwf1 & Ht1).
  rewrite decide_True in Ht1 by done.
  destruct (table_range pm1 (p_pid p)) as [Hr1 _]; [by rewrite Ht1, lookup_insert_eq|].
  destruct (ProcessManager.clearPID_ok _ _ Hwf1 Hr1) as (pm2 & E2 & Hwf2 & Ht2 & _).
  exists pm1, pm2. split_and!; try done. rewrite Ht2, Ht1, (ki_table _ _ _ _ HK). csimpl.
  rewrite insert_insert_eq, delete_insert_id; [done|]. apply not_elem_of_list_to_map_1. rewrite pid_pcb_fst.
  pose proof (ki_pids _ _ _ _ HK) as Hnd. csimpl in Hnd. by apply NoDup_cons in Hnd as [? _].
Qed.

(** Process [p] is taken apart: its thread alone is left. *)
Definition taken_apart k p (m' : gmap Z (PCB.PCB unit)) pm w : kernel A :=
  mkKernel w (sys k) pm (delete (p_pcb p) m') (delete (p_space p) (spaces k)) (users k) (fresh k).

Lemma remove_process k p others leaked code :
  KInv k [] (p :: others) leaked →
  ∃ P m' pm w, pcbs k !! p_pcb p = Some P ∧
    leave_family k (p_pcb p) code = Ok (set_pcbs k m') ∧
    (∀ x, option_Forall2 (changed (p_pcb p) P code x) (pcbs k !! x) (m' !! x)) ∧
    free_process (set_pcbs k m') (p_pid p) (p_pcb p) (p_space p) = Ok (taken_apart k p m' pm w) ∧
    KInv (taken_apart k p m' pm w) [p_thread p] others leaked ∧
    machine w = machine (mem k) ∧ untouched (mem k) w ((space_of k <$> others) ++ leaked) ∧
    frames (memoryManager w) = frames (memoryManager (mem k)) ∖ list_to_set (owned (mem k) (space_of k p)).
Proof.
  intros HK. destruct (Forall_inv (ki_procs _ _ _ _ HK)) as [(P & HP & HPt & HPi) (s & Hsp & Hsc) _].
  assert (space_of k p = s) as Hso by (unfold space_of; by rewrite Hsp).
  destruct (leave_family_ok k (p_pcb p) P code (ki_family _ _ _ _ HK) HP) as (m' & E & Hch).
  destruct (free_pid k _ p others leaked HK) as (pm1 & pm & E1 & E2 & Hwf & Htab).
  destruct (release_ok (mem k) s ((space_of k <$> others) ++ leaked)) as
    (w1 & w & Er & Ed & HI & Hun & Hm & _ & Hptr & Hfr).
  { pose proof (ki_memory _ _ _ _ HK) as HI. csimpl in HI. by rewrite Hso in HI. }
  assert (∀ x X, pcbs k !! x = Some X → ∃ X', m' !! x = Some X' ∧ changed (p_pcb p) P code x X X') as Hfwd.
  { intros x X HX. specialize (Hch x). rewrite HX in Hch. inversion Hch; subst. eauto. }
  exists P, m', pm, w. split_and!; try done.
  - unfold free_process. cbn [processManager set_pcbs]. rewrite E1. run_ok. rewrite E2. run_ok.
    cbn [spaces mem set_processManager set_pcbs]. rewrite (Threads.find_Some _ _ _ Hsp). run_ok. rewrite Er. run_ok.
    destruct (Hfwd _ _ HP) as (P' & HP' & _). cbn [pcbs set_mem set_processManager set_pcbs].
    rewrite (Threads.find_Some _ _ _ HP'). run_ok. unfold AddrSpace_delete.
    cbn [mem set_mem set_processManager set_pcbs]. by rewrite Ed.
  - pose proof HK as HK'. open_inv HK'. csimpl in *.
    apply Forall_cons in Kprocs as [_ Kprocs].
    apply NoDup_cons in Kpids as [_ Kpids]. apply NoDup_cons in Kdistinct as [Hd1 Kdistinct].
    apply NoDup_cons in Kspaces as [Hs1 Kspaces].
    assert (∀ q, q ∈ others → space_of (taken_apart k p m' pm w) q = space_of k q ∧
              spaces (taken_apart k p m' pm w) !! p_space q = spaces k !! p_space q) as Hspq.
    { intros q Hq. unfold space_of. simpl. rewrite lookup_delete_ne; [done|].
      intros Heq. apply Hs1. rewrite Heq. by apply list_elem_of_fmap_2. }
    assert (space_of (taken_apart k p m' pm w) <$> others = space_of k <$> others) as Hsps.
    { apply list_fmap_ext. intros i q Hq%list_elem_of_lookup_2. by apply Hspq. }
    split; try done.
    + apply Forall_forall. intros q Hq.
      destruct (proj1 (Forall_forall _ _) Kprocs q Hq) as [(Q & HQ & HQt & HQi) HS HU].
      split; [|by rewrite (proj2 (Hspq q Hq))|done].
      destruct (Hfwd _ _ HQ) as (Q' & HQ' & [Ht Hi _ _ _]). exists Q'. simpl. rewrite lookup_delete_ne.
      * split_and!; congruence.
      * intros Heq. apply Hd1. rewrite Heq. by apply list_elem_of_fmap_2.
    + simpl. rewrite dom_delete_L. assert (dom m' = dom (pcbs k)) as ->.
      { apply set_eq. intros x. rewrite !elem_of_dom. specialize (Hch x). inversion Hch; by rewrite ?is_Some_alt. }
      rewrite Kpcbs. simpl. apply set_eq. intros x.
      rewrite elem_of_difference, elem_of_union, elem_of_singleton, elem_of_list_to_set.
      split; [tauto|]. intros Hx. split; [by right|]. intros ->. done.
    + by eapply family_leave.
    + simpl. by rewrite Hsps.
    + intros q Hq Hcpu. rewrite (proj1 (Hspq q Hq)). simpl. unfold running. rewrite Hm, Hptr.
      apply Krunning; [by right|done].
    + intros x [X HX]. simpl in HX. apply lookup_delete_Some in HX as [_ HX]. apply Kfpcbs. specialize (Hch x). rewrite HX in Hch.
      inversion Hch; eauto.
    + intros x [X HX]. simpl in HX. apply lookup_delete_Some in HX as [_ HX]. apply Kfspaces. by rewrite HX.
  - by rewrite Hso.
Qed.

(** The thread of a process that was taken apart. *)
Lemma KInv_user_gone k t procs leaked U' :
  KInv k [t] procs leaked → KInv (put_user k t U') [t] procs leaked.
Proof.
  intros HK. pose proof (threads_nodup _ _ _ _ HK) as [Hnin _]%NoDup_cons. pose proof HK as HK'. open_inv HK'.
  split; try done.
  - apply Forall_forall. intros q Hq.
    destruct (proj1 (Forall_forall _ _) Kprocs q Hq) as [HP HS (U & HU & Hsp & Hsq)].
    split; [done|done|]. exists U. simpl. rewrite lookup_insert_ne; [done|]. intros ->.
    apply Hnin. by apply list_elem_of_fmap_2.
  - intros x. simpl. rewrite lookup_insert_is_Some'. intros [<-|Hx]; [|by apply Kfusers].
    apply Kfthreads. destruct (live_exists (sys k) t Ksys) as [T ->]; [|done].
    rewrite <- Kthreads. by left.
Qed.

Definition same_processes k k' : Prop :=
  mem k' = mem k ∧ pcbs k' = pcbs k ∧ processManager k' = processManager k ∧ spaces k' = spaces k.

Lemma Finish_KInv k U others leaked :
  KInv k [current k] others leaked → executing (sys k) → users k !! current k = Some U →
  ∃ o, Finish k = Ok o ∧
    match o with
    | Runs k' => others ≠ [] ∧ KInv k' [] others leaked ∧ ¬ executing (sys k') ∧ same_processes k k'
    | Halts k' => others = [] ∧ same_processes k k'
    end.
Proof.
  intros HK Hex HU. pose proof (ki_sys _ _ _ _ HK) as HT.
  assert ((p_thread <$> others) ≡ₚ Threads.ids (Threads.readyList (sys k))) as Hready.
  { pose proof (ki_threads _ _ _ _ HK) as Hth. unfold live in Hth. by apply Permutation_cons_inv in Hth. }
  assert (user k (current k) = Ok U) as Hu.
  { destruct (t_current _ HT) as (T & HTc & _). unfold user.
    rewrite (Threads.find_Some _ (current k) T HTc). run_ok. by rewrite (Threads.find_Some _ _ _ HU). }
  unfold Finish.
  assert (∃ k1, (if some_ready k then leave k else Ok k) = Ok k1 ∧ KInv k1 [current k] others leaked ∧
            sys k1 = sys k ∧ same_processes k k1) as (k1 & -> & HK1 & Hsys & Hsame).
  { destruct (some_ready k); [|by exists k]. unfold leave. rewrite Hu. run_ok.
    destruct (space U =? Threads.NULL); [by exists k|].
    rewrite (SaveUserState_ok k _ U) by (done || by eapply good_current).
    eexists. split; [done|]. split; [by apply KInv_user_gone|done]. }
  run_ok. rewrite Hsys. destruct (Finish_T (sys k) HT Hex) as (s' & -> & Hc). run_ok.
  destruct (Threads.ids (Threads.readyList (sys k))) as [|t rest] eqn:Eids.
  - rewrite decide_True in Hc by done. rewrite Hc. eexists. split; [done|]. split; [|done].
    apply Permutation_nil_r in Hready. by apply fmap_nil_inv in Hready.
  - rewrite decide_False in Hc by done. destruct Hc as (HT' & Hex' & Hlive & Hdom).
    rewrite (t_idle _ HT'). eexists. split; [done|]. split_and!; [intros ->; by apply Permutation_nil_cons in Hready| |done|done].
    eapply KInv_switch; [exact HK1|done|done|by rewrite Hlive|by rewrite Hsys|].
    intros p Up Hp HUp. destruct (user_ok k1 _ _ _ p HK1 Hp) as (U' & HU' & _ & _ & [[Hcur _]|?]); [|by simplify_eq].
    pose proof (threads_nodup _ _ _ _ HK1) as [Hnin _]%NoDup_cons. exfalso. apply Hnin.
    unfold current in *. rewrite Hsys in Hcur. rewrite <- Hcur. by apply list_elem_of_fmap_2.
Qed.

(** [exit] of the current process [c]. *)
Lemma exit_KInv k c others leaked :
  KInv k [] (c :: others) leaked → p_thread c = current k → executing (sys k) →
  ∃ P m' pm w o, pcbs k !! p_pcb c = Some P ∧ exit k = Ok o ∧
    (∀ x, option_Forall2 (changed (p_pcb c) P (Some (s32 (reg_at (regs k) 4))) x) (pcbs k !! x) (m' !! x)) ∧
    untouched (mem k) w ((space_of k <$> others) ++ leaked) ∧
    frames (memoryManager w) = frames (memoryManager (mem k)) ∖ list_to_set (owned (mem k) (space_of k c)) ∧
    ProcessManager.table pm = list_to_map (pid_pcb <$> others) ∧
    match o with
    | Runs k' => others ≠ [] ∧ KInv k' [] others leaked ∧ ¬ executing (sys k') ∧
                 same_processes (taken_apart k c m' pm w) k'
    | Halts k' => others = [] ∧ same_processes (taken_apart k c m' pm w) k'
    end.
Proof.
  intros HK Hc Hex.
  destruct (current_ok k _ c others leaked HK Hc) as (P & HP & HPt & HPi & Hsp & _ & Ecs & Ecp).
  destruct (remove_process k c others leaked (Some (s32 (reg_at (regs k) 4))) HK)
    as (P' & m' & pm & w & HP' & E1 & Hch & E2 & HK2 & Hm & Hun & Hfr). simplify_eq.
  destruct (user_ok k _ _ _ c HK ltac:(by left)) as (U & HU & _ & _ & _).
  rewrite Hc in HK2, HU.
  destruct (Finish_KInv (taken_apart k c m' pm w) U others leaked HK2 Hex HU) as (o & Eo & Ho).
  exists P, m', pm, w, o. split_and!; try done.
  - unfold exit. rewrite Ecp. run_ok. rewrite ReadRegister_ok by (done || by eapply good_current). run_ok.
    rewrite E1. run_ok. assert (current_space (set_pcbs k m') = current_space k) as -> by done.
    rewrite Ecs. run_ok. rewrite HPi, E2. run_ok. exact Eo.
  - apply (ki_table _ _ _ _ HK2).
Qed.

Lemma KInv_manager k pm gone procs leaked :
  KInv k gone procs leaked → ProcessManager.wf pm →
  ProcessManager.table pm = ProcessManager.table (processManager k) →
  KInv (set_processManager k pm) gone procs leaked.
Proof.
  intros HK Hwf Ht. open_inv HK. split; try done; [|simpl; congruence].
  eapply Forall_impl; [exact Kprocs|]. by intros p [].
Qed.

Lemma getProcess_KInv k gone procs leaked pid :
  KInv k gone procs leaked → 0 ≤ pid < BitMap.numBits (ProcessManager.map (processManager k)) →
  ∃ pm, ProcessManager.getProcess (processManager k) pid =
      Ok (default Threads.NULL (ProcessManager.table (processManager k) !! pid), pm) ∧
    KInv (set_processManager k pm) gone procs leaked.
Proof.
  intros HK Hr. destruct (ProcessManager.getProcess_ok _ pid (ki_manager _ _ _ _ HK) Hr) as (pm & E & Hwf & Ht).
  exists pm. split; [done|]. by apply KInv_manager.
Qed.

(** The thread of a process that was taken apart leaves the ready list. *)
Lemma KInv_unready k t c others leaked :
  KInv k [t] (c :: others) leaked → p_thread c = current k → executing (sys k) →
  KInv (set_sys k (Threads.Scheduler_Remove (sys k) t)) [] (c :: others) leaked.
Proof.
  intros HK Hc Hex. pose proof (threads_nodup _ _ _ _ HK) as Hnd. csimpl in Hnd.
  apply NoDup_cons in Hnd as [Hnin Hnd]. apply NoDup_cons in Hnd as [_ Hnd].
  pose proof (ki_threads _ _ _ _ HK) as Hth. csimpl in Hth. unfold live in Hth. fold (current k) in Hth.
  rewrite Permutation_swap, Hc in Hth. apply Permutation_cons_inv in Hth.
  assert (t ∈ Threads.ids (Threads.readyList (sys k))) as Hin by (rewrite <- Hth; by left).
  destruct (Remove_T (sys k) t (ki_sys _ _ _ _ HK) Hin) as (HT' & Hex' & Hcur & Hthr & Hids).
  set (s' := Threads.Scheduler_Remove (sys k) t) in *. open_inv HK. split; try done.
  - csimpl. unfold live. simpl. rewrite Hids, Hcur, Hc. unfold current. f_equiv. rewrite <- Hth.
    rewrite filter_cons_False by naive_solver. rewrite PCB.filter_absent; [done|]. set_solver.
  - eapply Forall_impl; [exact Kprocs|]. intros p [HP HS (U & HU & Hsp & Hsv)]. split; [done|done|].
    exists U. split_and!; [done|done|]. destruct Hsv as [[Hcpu _]|?]; [left|by right].
    split; [|by apply Hex']. rewrite Hcpu. symmetry. exact Hcur.
  - intros p Hp [Hcpu _]. apply Krunning; [done|]. split; [|done]. rewrite Hcpu. exact Hcur.
  - simpl. by rewrite Hthr.
Qed.

(** [kill] of another process [p]. *)
Lemma kill_KInv k c p others leaked :
  KInv k [] (c :: p :: others) leaked → p_thread c = current k → executing (sys k) →
  s32 (reg_at (regs k) 4) = p_pid p →
  ∃ P m' w k', pcbs k !! p_pcb p = Some P ∧ kill k = Ok (Runs k') ∧ KInv k' [] (c :: others) leaked ∧
    (∀ x, option_Forall2 (changed (p_pcb p) P None x) (pcbs k !! x) (m' !! x)) ∧
    untouched (mem k) w ((space_of k <$> c :: others) ++ leaked) ∧
    frames (memoryManager w) = frames (memoryManager (mem k)) ∖ list_to_set (owned (mem k) (space_of k p)) ∧
    pcbs k' = delete (p_pcb p) m' ∧ memory (mem k') = memory w ∧ tables (mem k') = tables w ∧
    memoryManager (mem k') = memoryManager w ∧ current k' = current k ∧ executing (sys k') ∧
    spaces k' = delete (p_space p) (spaces k) ∧ regs k' = returned (regs k) 0.
Proof.
  intros HK Hc Hex Hr4.
  assert (p ∈ c :: p :: others) as Hin by (by right; left).
  destruct (current_ok k _ c _ leaked HK Hc) as (Pc & HPc & _ & HPi & _ & _ & _ & Ecp).
  pose proof (table_proc k _ _ _ p HK Hin) as Htab.
  destruct (table_range (processManager k) (p_pid p)) as [Hr _]; [by rewrite Htab|].
  destruct (getProcess_KInv k _ _ _ (p_pid p) HK Hr) as (pm0 & E0 & HK0). rewrite Htab in E0.
  set (k0 := set_processManager k pm0) in *.
  apply (KInv_perm _ _ _ (p :: c :: others)) in HK0; [|by rewrite Permutation_swap].
  destruct (remove_process k0 p (c :: others) leaked None HK0)
    as (P & m' & pm & w & HP & E1 & Hch & E2 & HK2 & Hm & Hun & Hfr).
  destruct (user_ok k0 _ _ _ p HK0 ltac:(by left)) as (U & HU & Hu & Hus & _).
  destruct (Forall_inv (ki_procs _ _ _ _ HK0)) as [(P' & HP' & HPt & HPid) _ _]. simplify_eq.
  set (k2 := taken_apart k0 p m' pm w) in *.
  pose proof (KInv_unready k2 (p_thread p) c others leaked HK2 Hc Hex) as HK3.
  set (k3 := set_sys k2 _) in *.
  destruct (Remove_T (sys k2) (p_thread p) (ki_sys _ _ _ _ HK2)) as (_ & Hex3 & Hcur3 & _).
  { pose proof (ki_threads _ _ _ _ HK2) as Hth. unfold live in Hth. csimpl in Hth.
    rewrite Permutation_swap, Hc in Hth. apply Permutation_cons_inv in Hth.
    change (sys k2) with (sys k). rewrite <- Hth. by left. }
  destruct (return_with_KInv k3 0 _ _ _ HK3) as [E4 HK4].
  assert (regs k3 = regs k) as Hregs by (unfold regs; simpl; by rewrite Hm).
  exists P, m', w, (with_regs k3 (returned (regs k) 0)).
  rewrite Hregs in E4, HK4.
  split_and!; try done; [|by apply Hex3].
  unfold kill. rewrite Ecp. run_ok. rewrite ReadRegister_ok by (done || by eapply good_current). run_ok.
  rewrite Hr4, E0. run_ok. fold k0. simpl.
  assert (0 < p_pcb p < fresh k) as Hp0 by (apply (ki_fresh_pcbs _ _ _ _ HK); eexists; exact HP).
  destruct (Z.eqb_spec (p_pcb p) Threads.NULL) as [E|_]; [unfold Threads.NULL in E; lia|].
  destruct (Z.eqb_spec (p_pid p) (PCB.getID Pc)) as [E|_].
  { pose proof (ki_pids _ _ _ _ HK) as Hnd. csimpl in Hnd. apply NoDup_cons in Hnd as [Hnd _].
    exfalso. apply Hnd. rewrite <- HPi, <- E. by left. }
  rewrite E1. run_ok. specialize (Hch (p_pcb p)) as Hchp. rewrite HP in Hchp.
  destruct (m' !! p_pcb p) as [Q|] eqn:HQ; [|by inversion Hchp].
  assert (changed (p_pcb p) P None (p_pcb p) P Q) as HQch by (by inversion Hchp).
  simpl. rewrite (Threads.find_Some _ _ Q) by done. run_ok.
  rewrite (ch_thread _ _ _ _ _ _ HQch), HPt.
  assert (user (set_pcbs k0 m') (p_thread p) = Ok U) as -> by exact Hu. run_ok. rewrite Hus, E2. run_ok.
  fold k2. change (set_sys k2 (Threads.Scheduler_Remove (sys k2) (p_thread p))) with k3. rewrite E4. by run_ok.
Qed.

End state.

End Lifecycle.
