(* ===== verification/Forking.v ===== *)
(** * Fork: a new process from the running one

    What the system call fork does to the process system: the new process has a
    copy of the memory and of the registers of its parent, and starts at the
    address in r4; when there are no free frames or no free process number,
    nothing changes, except that the frames of the copy are lost in the second
    case. *)

From stdpp Require Import base list gmap.
From S2P Require Import Prelude Lists BitMap Machine Mips Threads Managers Frames AddrSpace Spaces Syscalls Processes Lifecycle.
Import Pages Frames AddrSpace Spaces Syscalls UserThreads Family Loading Processes Lifecycle.

Module Forking.

Section state.
Context {A : Type} `{PageAllocatorLaws A}.
Implicit Types (k : kernel A) (p : proc) (procs : list proc) (leaked : list AddrSpace).

Lemma Inv_set_pcb (w : world A) s (p : Z) ss : Inv w (s :: ss) → Inv w (set_pcb s p :: ss).
Proof.
  intros [Hw Hs Ht Hf Hu]. apply Forall_cons in Hs as [[H1 H2 H3] Hs].
  by split; [|constructor| | |].
Qed.

Lemma below_mono {X} n n' (m : gmap Z X) : below n m → n ≤ n' → below n' m.
Proof. intros Hb Hn x Hx. specialize (Hb x Hx). lia. Qed.

Lemma below_insert {X} n n' (m : gmap Z X) i x : below n m → n ≤ n' → 0 < i < n' → below n' (<[i := x]> m).
Proof.
  intros Hb Hn Hi j. rewrite lookup_insert_is_Some'. intros [<-|Hj]; [done|]. specialize (Hb j Hj). lia.
Qed.

Lemma below_fresh {X} n n' (m : gmap Z X) : below n m → n ≤ n' → m !! n' = None.
Proof. intros Hb Hn. apply eq_None_not_Some. intros Hs%Hb. lia. Qed.

Lemma below_ne {X} n n' (m : gmap Z X) i : below n m → n ≤ n' → is_Some (m !! i) → i ≠ n'.
Proof. intros Hb Hn Hs%Hb. lia. Qed.

(** The kernel after a fork: the new process [n] is added. *)
Record joins k k' (n c : proc) (new : AddrSpace) (rs : list Z) : Prop := mkJoins {
  jn_new : p_space n = fresh k ∧ p_thread n = fresh k + 1 ∧ p_pcb n = fresh k + 2;
  jn_fresh : fresh k' = fresh k + 3;
  jn_threads : TInv (sys k') ∧ executing (sys k') ∧ current k' = current k;
  jn_ready : Threads.ids (Threads.readyList (sys k')) = Threads.ids (Threads.readyList (sys k)) ++ [p_thread n];
  jn_dom : dom (Threads.threads (sys k')) ⊆ {[ p_thread n ]} ∪ dom (Threads.threads (sys k));
  jn_user : ∃ U, users k' = <[p_thread n := U]> (users k) ∧ space U = p_space n ∧ saved U rs;
  jn_spaces : spaces k' = <[p_space n := set_pcb new (p_pcb n)]> (spaces k);
  jn_manager : ProcessManager.wf (processManager k') ∧
    ProcessManager.table (processManager k) !! p_pid n = None ∧
    ProcessManager.table (processManager k') = <[p_pid n := p_pcb n]> (ProcessManager.table (processManager k));
  jn_pcbs : ∃ Q Q' N, pcbs k !! p_pcb c = Some Q ∧ pcbs k' = <[p_pcb c := Q']> (<[p_pcb n := N]> (pcbs k)) ∧
    PCB.kids Q' = PCB.kids Q ++ [p_pcb n] ∧ PCB.getParent Q' = PCB.getParent Q ∧
    PCB.getThread Q' = PCB.getThread Q ∧ PCB.getID Q' = PCB.getID Q ∧
    PCB.kids N = [] ∧ PCB.getParent N = p_pcb c ∧ PCB.getThread N = p_thread n ∧ PCB.getID N = p_pid n;
}.

Lemma KInv_join k k' n c new rs others leaked :
  KInv k [] (c :: others) leaked → executing (sys k) → joins k k' n c new rs →
  Inv (mem k') (new :: (space_of k <$> c :: others) ++ leaked) →
  (∀ p, p ∈ c :: others → on_cpu k p → running (mem k') (space_of k p)) →
  KInv k' [] (n :: c :: others) leaked.
Proof.
  intros HK Hex [(Hs & Ht & Hp) Hf (HT & Hex' & Hcur) Hrl Hdom (U & HU & HUs & Hsv) Hsp
    (Hwf & Hpid & Htab) (Q & Q' & N & HQ & Hpcbs & Hkq & Hpq & Htq & Hiq & Hkn & Hpn & Htn & Hin)] HI Hrun.
  assert (∀ q, q ∈ c :: others → p_pid q ≠ p_pid n) as Hdi.
  { intros q Hq Heq. pose proof (table_proc k _ _ _ q HK Hq) as Hq'. congruence. }
  open_inv HK.
  assert (∀ q, q ∈ c :: others → proc_ok k q) as Kok by (by apply Forall_forall).
  assert (∀ q, q ∈ c :: others → p_thread q ≠ p_thread n) as Hdt.
  { intros q Hq. destruct (Kok q Hq) as [_ _ (Uq & HUq & _)]. rewrite Ht.
    eapply below_ne; [exact Kfusers|lia|by rewrite HUq]. }
  assert (∀ q, q ∈ c :: others → p_pcb q ≠ p_pcb n) as Hdp.
  { intros q Hq. destruct (Kok q Hq) as [(P & HP & _) _ _]. rewrite Hp.
    eapply below_ne; [exact Kfpcbs|lia|by rewrite HP]. }
  assert (∀ q, q ∈ c :: others → p_space q ≠ p_space n) as Hds.
  { intros q Hq. destruct (Kok q Hq) as [_ (s & HS & _) _].
    eapply below_ne; [exact Kfspaces|lia|by rewrite HS]. }
  assert (∀ q, q ∈ c :: others → space_of k' q = space_of k q ∧ spaces k' !! p_space q = spaces k !! p_space q) as Hso.
  { intros q Hq. unfold space_of. rewrite Hsp, lookup_insert_ne by (symmetry; by apply Hds). done. }
  assert (∀ q, on_cpu k' q ↔ on_cpu k q) as Hcpu by (intros q; unfold on_cpu; rewrite Hcur; tauto).
  split; try done.
  - csimpl. unfold live. rewrite Hrl. fold (current k'). rewrite Hcur.
    rewrite app_comm_cons, <- Permutation_cons_append. apply perm_skip. exact Kthreads.
  - constructor; [|apply Forall_forall; intros q Hq; destruct (Kok q Hq) as [(P & HP & HPt & HPi) HS (Uq & HUq & Husp & Husv)]; split].
    + split.
      * exists N. rewrite Hpcbs, lookup_insert_ne, lookup_insert_eq by (apply Hdp; by left). done.
      * eexists. rewrite Hsp, lookup_insert_eq. done.
      * exists U. rewrite HU, lookup_insert_eq. split_and!; [done|done|]. right. by exists rs.
    + rewrite Hpcbs. destruct (decide (p_pcb q = p_pcb c)) as [Heq|Hne].
      * exists Q'. rewrite Heq, lookup_insert_eq. rewrite Heq in HP. simplify_eq. split_and!; congruence.
      * exists P. rewrite !lookup_insert_ne; [done|symmetry; by apply Hdp|done].
    + by rewrite (proj2 (Hso q Hq)).
    + exists Uq. rewrite HU, lookup_insert_ne by (symmetry; by apply Hdt). rewrite Hcpu. done.
  - csimpl. constructor; [|done]. intros (q & Heq & Hq)%(list_elem_of_fmap_1 p_pid (c :: others)). by apply (Hdi q Hq).
  - rewrite Htab, Ktable. done.
  - csimpl. constructor; [|done]. intros (q & Heq & Hq)%(list_elem_of_fmap_1 p_pcb (c :: others)). by apply (Hdp q Hq).
  - rewrite Hpcbs, !dom_insert_L, Kpcbs. csimpl. set_solver.
  - rewrite Hpcbs. eapply family_join; try done; [by eapply below_fresh; [exact Kfpcbs|lia]|].
    rewrite Hp. unfold Threads.NULL. lia.
  - csimpl. constructor; [|done]. intros (q & Heq & Hq)%(list_elem_of_fmap_1 p_space (c :: others)). by apply (Hds q Hq).
  - assert (space_of k' n = set_pcb new (p_pcb n)) as Hn by (unfold space_of; by rewrite Hsp, lookup_insert_eq).
    rewrite fmap_cons, Hn. assert (space_of k' <$> c :: others = space_of k <$> c :: others) as ->.
    { apply list_fmap_ext. intros i q Hq%list_elem_of_lookup_2. by apply Hso. }
    by apply Inv_set_pcb.
  - intros q Hq Hon. apply Hcpu in Hon. apply elem_of_cons in Hq as [->|Hq].
    + exfalso. destruct Hon as [Hon _]. apply (Hdt c); [by left|]. rewrite Hon.
      assert (current k ∈ p_thread <$> c :: others) as (q & Hq1 & Hq2)%list_elem_of_fmap by (rewrite Kthreads; by left).
      exfalso. apply (Hdt q Hq2). congruence.
    + rewrite (proj1 (Hso q Hq)). by apply Hrun.
  - lia.
  - intros x Hx%elem_of_dom. apply Hdom, elem_of_union in Hx as [->%elem_of_singleton|Hx%elem_of_dom]; [lia|].
    apply Kfthreads in Hx. lia.
  - rewrite Hpcbs. apply (below_insert (fresh k')); [eapply below_insert; [exact Kfpcbs|lia|lia]|lia|].
    assert (0 < p_pcb c < fresh k) by (apply Kfpcbs; by rewrite HQ). lia.
  - rewrite Hsp. eapply below_insert; [exact Kfspaces|lia|lia].
  - rewrite HU. eapply below_insert; [exact Kfusers|lia|lia].
Qed.

(** The registers of the new process: those of its parent, and the program
    counters at the address in r4. *)
Definition child_regs (rs : list Z) : list Z :=
  <[Z.to_nat Machine.PrevPCReg := u32 (reg_at rs 4 - 4)]>
    (<[Z.to_nat Machine.NextPCReg := u32 (reg_at rs 4 + 4)]>
       (<[Z.to_nat Machine.PCReg := u32 (reg_at rs 4)]> rs)).

Lemma good_child_regs rs : good_regs rs → good_regs (child_regs rs).
Proof. intros Hg. unfold child_regs. by repeat (apply good_insert; [|done|done]). Qed.

Lemma find_user k t T U :
  Threads.threads (sys k) !! t = Some T → users k !! t = Some U → user k t = Ok U.
Proof. intros HT HU. unfold user. by rewrite (Threads.find_Some _ _ _ HT), (Threads.find_Some _ _ _ HU). Qed.

Lemma user_Ok k t U :
  user k t = Ok U → is_Some (Threads.threads (sys k) !! t) ∧ users k !! t = Some U.
Proof.
  unfold user, Threads.find. intros E. destruct (Threads.threads (sys k) !! t); [|by destruct (t =? Threads.NULL)].
  simpl in E. destruct (users k !! t); [|by destruct (t =? Threads.NULL)]. by simplify_eq.
Qed.

Context (stale_entry : Machine.TranslationEntry) (stale_pcb : Z) (stale_PCB : PCB.PCB unit)
  (stale_registers : list Z).

Lemma addChild_unit (Q : PCB.PCB unit) (x : Z) :
  match PCB.addChild Q x with
  | Ok (_, Q') => PCB.kids Q' = PCB.kids Q ++ [x] ∧ PCB.getParent Q' = PCB.getParent Q ∧
      PCB.getThread Q' = PCB.getThread Q ∧ PCB.getID Q' = PCB.getID Q
  | Err e => e = UseAfterFree ∧ ListModel.dangling (PCB.children Q) = true
  end.
Proof.
  unfold PCB.addChild. simpl. pose proof (Append_cases (PCB.children Q) x) as Ha.
  destruct (ListModel.Append (PCB.children Q) x) as [q|e]; run_ok; [|done]. by destruct Ha.
Qed.

Lemma adopt_ok k sp t pid U s (p : Z) Q new :
  user k (current k) = Ok U → spaces k !! space U = Some s → pcb s = p → pcbs k !! p = Some Q →
  space U ≠ sp → p ≠ fresh k → spaces k !! sp = Some new →
  ProcessManager.wf (processManager k) → pid ∈ ProcessManager.pids (processManager k) →
  match adopt stale_PCB k sp t pid with
  | Ok k' => ∃ pm' Q' N,
      k' = mkKernel (mem k) (sys k) pm' (<[p := Q']> (<[fresh k := N]> (pcbs k)))
             (<[sp := set_pcb new (fresh k)]> (spaces k)) (users k) (fresh k + 1) ∧
      ProcessManager.wf pm' ∧
      ProcessManager.table pm' = <[pid := fresh k]> (ProcessManager.table (processManager k)) ∧
      PCB.kids Q' = PCB.kids Q ++ [fresh k] ∧ PCB.getParent Q' = PCB.getParent Q ∧
      PCB.getThread Q' = PCB.getThread Q ∧ PCB.getID Q' = PCB.getID Q ∧
      PCB.kids N = [] ∧ PCB.getParent N = p ∧ PCB.getThread N = t ∧ PCB.getID N = pid
  | Err e => e = UseAfterFree ∧ ListModel.dangling (PCB.children Q) = true
  end.
Proof.
  intros HU Hs Hp HQ Hne Hpf Hnew Hwf Hpid. unfold adopt, alloc. cbn [spaces set_spaces put_pcb set_pcbs].
  rewrite (Threads.find_Some _ _ _ Hnew). run_ok.
  assert (∀ k', sys k' = sys k → users k' = users k → spaces k' !! space U = Some s → pcbs k' !! p = Some Q →
    current_pcb k' = Ok (p, Q)) as Hcur.
  { intros k' E1 E2 E3 E4. unfold current_pcb, current_space, current, user in *. rewrite E1, E2, HU. run_ok.
    rewrite (Threads.find_Some _ _ _ E3). run_ok. by rewrite Hp, (Threads.find_Some _ _ _ E4). }
  rewrite Hcur; [run_ok|done|done|simpl; by rewrite lookup_insert_ne|done].
  rewrite Hcur; [run_ok|done|done|simpl; by rewrite lookup_insert_ne|simpl; by rewrite lookup_insert_ne].
  pose proof (addChild_unit Q (fresh k)) as Ha. destruct (PCB.addChild Q (fresh k)) as [[b Q']|e]; run_ok; [|done].
  destruct Ha as (H1 & H2 & H3 & H4).
  set (N := PCB.set (PCB.PCB_new t tt stale_PCB) pid p).
  destruct (ProcessManager.addPCB_ok (<[p := Q']> (<[fresh k := N]> (pcbs k))) (processManager k) (fresh k) N)
    as (pm' & E & Hwf' & Ht); [done|by rewrite lookup_insert_ne, lookup_insert_eq|by apply ProcessManager.pids_range|].
  simpl. rewrite E. run_ok. exists pm', Q', N. split_and!; try done.
  rewrite Ht. by rewrite decide_True.
Qed.

Lemma write_child_regs {B} k (f : kernel A → result B) :
  good_regs (regs k) →
  (r4 ← ReadRegister k 4; k ← WriteRegister k Machine.PCReg r4;
   r4 ← ReadRegister k 4; k ← WriteRegister k Machine.NextPCReg (r4 + 4);
   r4 ← ReadRegister k 4; k ← WriteRegister k Machine.PrevPCReg (r4 - 4); f k)
  = f (with_regs k (child_regs (regs k))).
Proof.
  intros Hg. rewrite ReadRegister_ok by done. run_ok. rewrite write_register_ok by (apply Hg || done). run_ok.
  rewrite u32_s32. set (r1 := <[_ := _]> (regs k)).
  assert (good_regs r1) as Hg1 by (by apply good_insert).
  assert (∀ rs i v, good_regs rs → 0 ≤ i < Machine.NumTotalRegs → i ≠ 4 →
    reg_at (<[Z.to_nat i := v]> rs) 4 = reg_at rs 4) as Hr4.
  { intros rs i v [Hl _] Hi Hne. rewrite reg_at_insert by (done || lia). by rewrite decide_False. }
  rewrite ReadRegister_ok by done. run_ok. rewrite write_register_ok by (apply Hg1 || done). run_ok.
  rewrite regs_with, with_regs_twice, u32_add_s32. set (r2 := <[_ := _]> r1).
  assert (good_regs r2) as Hg2 by (by apply good_insert).
  rewrite ReadRegister_ok by done. run_ok. rewrite write_register_ok by (apply Hg2 || done). run_ok.
  rewrite regs_with, with_regs_twice. replace (s32 (reg_at r2 4) - 4) with (s32 (reg_at r2 4) + -4) by lia.
  rewrite u32_add_s32. unfold r2. rewrite Hr4 by done. unfold r1. rewrite Hr4 by done. done.
Qed.

Lemma start_child_ok k t pid U rs0 Ut :
  good_regs (regs k) → user k (current k) = Ok U → saved U rs0 → user k t = Ok Ut → t ≠ current k →
  TInv (sys k) → executing (sys k) → (t ∉ live (sys k)) → t ≠ Threads.NULL →
  Threads.threadToBeDestroyed (sys k) ≠ t →
  match start_child k t pid with
  | Ok k' => ∃ s',
      k' = with_regs (set_sys (put_user k t (mkUser (space Ut) (s32 <$> child_regs (regs k)) (at_kont Ut))) s')
             (returned rs0 pid) ∧
      TInv s' ∧ executing s' ∧ Threads.currentThread s' = current k ∧
      Threads.ids (Threads.readyList s') = Threads.ids (Threads.readyList (sys k)) ++ [t] ∧
      dom (Threads.threads s') = dom (Threads.threads (sys k))
  | Err e => e = UseAfterFree ∧ is_dangling k
  end.
Proof.
  intros Hg HU Hsv HUt Hne HT Hex Hnl Hn0 Htbd. unfold start_child. rewrite write_child_regs by done.
  set (rs' := child_regs (regs k)). set (k1 := with_regs k rs').
  assert (good_regs rs') as Hg' by (by apply good_child_regs).
  assert (user k1 t = Ok Ut) as HUt1 by exact HUt.
  rewrite (SaveUserState_ok k1 t Ut HUt1 Hg'). run_ok. change (regs k1) with rs'.
  set (k2 := put_user k1 t _). change (sys k2) with (sys k).
  destruct (user_Ok _ _ _ HUt) as [Ht _].
  pose proof (Fork_T (sys k) t HT Hex Ht Hnl Hn0 Htbd) as HF.
  destruct (Threads.Fork (sys k) t) as [s'|e]; run_ok; [|exact HF].
  destruct HF as (HT' & Hex' & Hcur & Hids & Htb & Hdom). set (k3 := set_sys k2 s').
  assert (current k3 = current k) as Hck by exact Hcur.
  assert (user k3 (current k3) = Ok U) as HU3.
  { rewrite Hck. destruct Hex' as (T & HTc & _). eapply (find_user _ _ T).
    - change (sys k3) with s'. by rewrite Hcur in HTc.
    - simpl. rewrite lookup_insert_ne by done. by apply user_Ok. }
  erewrite RestoreUserState_ok; [|exact HU3|exact Hsv|exact (proj1 Hg')]. run_ok.
  rewrite return_with_ok by apply Hsv. rewrite regs_with, with_regs_twice.
  exists s'. by split_and!.
Qed.

(** The address space and the thread of a new process, before it has a number. *)
Definition half_made k w pm new U : kernel A :=
  mkKernel w (Threads.Thread_new (sys k) (fresh k + 1)) pm (pcbs k)
    (<[fresh k := new]> (spaces k)) (<[fresh k + 1 := U]> (users k)) (fresh k + 1 + 1).

Lemma KInv_half_made k w pm new U c others leaked :
  KInv k [] (c :: others) leaked → executing (sys k) →
  ProcessManager.wf pm → ProcessManager.table pm = ProcessManager.table (processManager k) →
  Inv w (new :: (space_of k <$> c :: others) ++ leaked) →
  (∀ p, p ∈ c :: others → on_cpu k p → running w (space_of k p)) →
  KInv (half_made k w pm new U) [] (c :: others) (new :: leaked).
Proof.
  intros HK Hex Hwf Htab HI Hrun. set (k' := half_made k w pm new U). open_inv HK.
  assert (Threads.threads (sys k) !! (fresh k + 1) = None) as Hnt by (eapply below_fresh; [exact Kfthreads|lia]).
  destruct (Thread_new_T (sys k) (fresh k + 1) Ksys Hnt) as (HT & Hlive & Hex').
  assert (∀ q, q ∈ c :: others → space_of k' q = space_of k q ∧ spaces k' !! p_space q = spaces k !! p_space q) as Hso.
  { intros q Hq. destruct (proj1 (Forall_forall _ _) Kprocs q Hq) as [_ (s & HS & _) _].
    unfold space_of. simpl. rewrite lookup_insert_ne; [done|]. symmetry.
    eapply below_ne; [exact Kfspaces|lia|by rewrite HS]. }
  split; try done.
  - apply Forall_forall. intros q Hq.
    destruct (proj1 (Forall_forall _ _) Kprocs q Hq) as [HP HS (Uq & HUq & Husp & Husv)].
    split; [done|by rewrite (proj2 (Hso q Hq))|]. exists Uq. simpl. rewrite lookup_insert_ne.
    + split_and!; [done|done|]. destruct Husv as [[Hc _]|?]; [left|by right]. split; [done|by apply Hex'].
    + symmetry. eapply below_ne; [exact Kfusers|lia|by rewrite HUq].
  - change (ProcessManager.table pm = list_to_map ((λ p, (p_pid p, p_pcb p)) <$> c :: others)). by rewrite Htab.
  - assert (space_of k' <$> c :: others = space_of k <$> c :: others) as ->.
    { apply list_fmap_ext. intros i q Hq%list_elem_of_lookup_2. by apply Hso. }
    change (mem k') with w. eapply (Inv_proper w); [|exact HI]. symmetry. apply Permutation_middle.
  - intros q Hq [Hc _]. rewrite (proj1 (Hso q Hq)). apply Hrun; [done|by split].
  - simpl. lia.
  - simpl. eapply below_insert; [exact Kfthreads|lia|lia].
  - simpl. eapply below_mono; [exact Kfpcbs|lia].
  - simpl. eapply below_insert; [exact Kfspaces|lia|lia].
  - simpl. eapply below_insert; [exact Kfusers|lia|lia].
Qed.

Lemma new_thread_ok k new :
  new_thread stale_registers k new =
  Ok (fresh k, fresh k + 1,
      half_made k (mem k) (processManager k) new (mkUser (fresh k) stale_registers KUser)).
Proof.
  unfold new_thread, Thread_new, alloc. cbn [fresh spaces set_spaces sys].
  erewrite find_user; [|apply lookup_insert_eq|apply lookup_insert_eq]. run_ok.
  unfold half_made. do 2 f_equal. unfold put_user, set_users, set_sys, set_spaces. simpl.
  by rewrite insert_insert_eq.
Qed.

(** The lists that fork appends to. *)
Definition fork_dangling k c : Prop :=
  is_dangling k ∨ ∃ P, pcbs k !! p_pcb c = Some P ∧ ListModel.dangling (PCB.children P) = true.

(** Steps 4 to 10 of fork, from the thread without a process. *)
Lemma make_child k w pm new Un U rs0 pid c others leaked :
  KInv k [] (c :: others) leaked → p_thread c = current k → executing (sys k) →
  users k !! current k = Some U → saved U rs0 → space Un = fresh k →
  ProcessManager.wf pm → 0 ≤ pid → ProcessManager.table (processManager k) !! pid = None →
  (∃ e, ProcessManager.table pm = <[pid := e]> (ProcessManager.table (processManager k))) →
  good_regs (Machine.registers (machine w)) →
  let k2 := half_made k w pm new Un in
  match (k' ← adopt stale_PCB k2 (fresh k) (fresh k + 1) pid; start_child k' (fresh k + 1) pid) with
  | Ok k' => ∃ n, joins k k' n c new (child_regs (regs k2)) ∧ p_pid n = pid ∧
                  mem k' = mem (with_regs k2 (returned rs0 pid))
  | Err e => e = UseAfterFree ∧ fork_dangling k c
  end.
Proof.
  intros HK Hc Hex HU Hsv HUn Hwf Hpid Hfree [e Htab] Hg k2.
  destruct (current_ok k _ c others leaked HK Hc) as (P & HP & HPt & HPi & Hsp & Hpc & _ & _).
  destruct (user_ok k _ _ _ c HK ltac:(by left)) as (U' & HU' & _ & Hspc & _). rewrite Hc, HU in HU'. simplify_eq.
  pose proof HK as HK'. open_inv HK'. pose proof (threads_nodup _ _ _ _ HK) as Hnd.
  set (t := fresh k + 1) in *.
  assert (Threads.threads (sys k) !! t = None) as Hnt by (eapply below_fresh; [exact Kfthreads|lia]).
  destruct (Thread_new_T (sys k) t Ksys Hnt) as (HT & Hlive & Hex'). specialize (Hex' Hex).
  assert (0 < p_thread c < fresh k) as Hct by (apply Kfusers; by rewrite Hc, HU).
  assert (0 < p_pcb c < fresh k) as Hcp by (apply Kfpcbs; by rewrite HP).
  assert (0 < p_space c < fresh k) as Hcs by (apply Kfspaces; by rewrite Hsp).
  assert (user k2 (current k2) = Ok U') as Hu2.
  { destruct Hex' as (T & HTc & _). eapply (find_user _ _ T); [exact HTc|]. simpl.
    rewrite lookup_insert_ne; [exact HU|]. unfold current. simpl. unfold t, current in *. lia. }
  assert (pid ∈ ProcessManager.pids pm) as Hin.
  { apply (table_range pm pid). rewrite Htab, lookup_insert_eq. done. }
  opose proof (adopt_ok k2 (fresh k) t pid U' (space_of k c) (p_pcb c) P new Hu2 _ Hpc HP _ _ _ Hwf Hin) as Ha.
  { simpl. rewrite lookup_insert_ne by lia. by rewrite Hspc. }
  { lia. } { simpl. lia. } { apply lookup_insert_eq. }
  destruct (adopt stale_PCB k2 (fresh k) t pid) as [k3|e1]; run_ok;
    [|destruct Ha as [-> Hd]; split; [done|right; by exists P]].
  destruct Ha as (pm' & Q' & N & -> & Hwf' & Htab' & Hkq & Hpq & Htq & Hiq & Hkn & Hpn & Htn & Hin').
  set (k3 := mkKernel _ _ _ _ _ _ _).
  assert (t ∉ live (sys k)) as Htl.
  { intros (T & HTl)%(live_exists _ _ Ksys). congruence. }
  opose proof (start_child_ok k3 t pid U' rs0 Un Hg Hu2 Hsv _ _ HT Hex' _ _ _) as Hs.
  { eapply find_user; [apply lookup_insert_eq|apply lookup_insert_eq]. }
  { change (current k3) with (current k). lia. }
  { change (live (sys k3)) with (live (Threads.Thread_new (sys k) t)). by rewrite Hlive. }
  { unfold Threads.NULL. lia. }
  { change (Threads.threadToBeDestroyed (sys k) ≠ t).
    destruct (t_carcass _ Ksys) as [->|[[T HTd] _]]; [unfold Threads.NULL; lia|congruence]. }
  destruct (start_child k3 t pid) as [k4|e1]; [|destruct Hs as [-> Hd]; split; [done|by left]].
  destruct Hs as (s' & -> & HT4 & Hex4 & Hcur4 & Hids4 & Hdom4).
  exists (mkProc pid (fresh k + 2) t (fresh k)). split_and!; [|done|done].
  assert (fresh k2 = fresh k + 2) as Hf2 by (simpl; lia).
  split; simpl; try done.
  - lia.
  - rewrite Hdom4. simpl. by rewrite dom_insert_L.
  - eexists. split_and!; [by rewrite insert_insert_eq|done|]. split; [by apply good_child_regs|done].
  - rewrite insert_insert_eq. simpl in Hf2. by rewrite Hf2.
  - split_and!; [done|done|]. rewrite Htab'. simpl in *. rewrite Htab, insert_insert_eq. by rewrite Hf2.
  - simpl in Hf2. rewrite Hf2 in *. exists P, Q', N. split_and!; try done.
    rewrite Hkq. simpl. by rewrite Hf2.
Qed.

(** How a fork of [c] that returns ends. *)
Inductive forked k k' c others leaked : Prop :=
  | fork_no_frames :
      Machine.NumPhysPages - Z.of_nat (base.size (frames (memoryManager (mem k)))) < numPages (space_of k c) →
      KInv k' [] (c :: others) leaked → regs k' = returned (regs k) (-1) → forked k k' c others leaked
  | fork_no_number new :
      (∀ i, 0 ≤ i < BitMap.numBits (ProcessManager.map (processManager k)) →
        is_Some (ProcessManager.table (processManager k) !! i)) →
      KInv k' [] (c :: others) (new :: leaked) → regs k' = returned (regs k) (-1) →
      contents (mem k') new = contents (mem k) (space_of k c) → forked k k' c others leaked
  | fork_new n :
      KInv k' [] (n :: c :: others) leaked → regs k' = returned (regs k) (p_pid n) →
      ProcessManager.table (processManager k) !! p_pid n = None →
      0 ≤ p_pid n < BitMap.numBits (ProcessManager.map (processManager k)) →
      contents (mem k') (space_of k' n) = contents (mem k) (space_of k c) →
      Threads.ids (Threads.readyList (sys k')) = Threads.ids (Threads.readyList (sys k)) ++ [p_thread n] →
      (∃ N, pcbs k' !! p_pcb n = Some N ∧ PCB.getParent N = p_pcb c) →
      (∃ U, users k' !! p_thread n = Some U ∧ saved U (child_regs (regs k))) → forked k k' c others leaked.

Lemma fork_cases k c others leaked :
  KInv k [] (c :: others) leaked → p_thread c = current k → executing (sys k) →
  match fork stale_entry stale_pcb stale_PCB stale_registers k with
  | Ok k' => forked k k' c others leaked ∧ current k' = current k ∧ executing (sys k') ∧
      untouched (mem k) (mem k') ((space_of k <$> c :: others) ++ leaked) ∧
      ∀ p, p ∈ c :: others → space_of k' p = space_of k p
  | Err e => e = UseAfterFree ∧ fork_dangling k c
  end.
Proof.
  intros HK Hc Hex. pose proof (ki_memory _ _ _ _ HK) as HI.
  assert (space_of k c ∈ (space_of k <$> c :: others) ++ leaked) as Hin by (by left).
  destruct (current_ok k _ c others leaked HK Hc) as (P & HP & HPt & HPi & Hsp & Hpc & Ecs & Ecp).
  unfold fork. rewrite Ecp. run_ok.
  destruct (SaveUserState_KInv k c others leaked HK Hc) as (U & HU & -> & Hsv & HK1). run_ok.
  set (U1 := mkUser (space U) (s32 <$> regs k) (at_kont U)) in *. set (k1 := put_user k (current k) U1) in *.
  destruct (current_ok k1 _ c others leaked HK1 Hc) as (_ & _ & _ & _ & _ & _ & -> & _). run_ok.
  change (space_of k1 c) with (space_of k c). change (mem k1) with (mem k).
  set (s := space_of k c) in *.
  set (free := Machine.NumPhysPages - Z.of_nat (base.size (frames (memoryManager (mem k))))).
  assert (∀ k' x, spaces k' = <[fresh k := x]> (spaces k) → ∀ p, p ∈ c :: others → space_of k' p = space_of k p) as Hsame.
  { intros k' x E p Hp. unfold space_of. rewrite E, lookup_insert_ne; [done|]. symmetry.
    destruct (proj1 (Forall_forall _ _) (ki_procs _ _ _ _ HK) p Hp) as [_ (sq & HS & _) _].
    eapply below_ne; [exact (ki_fresh_spaces _ _ _ _ HK)|done|by rewrite HS]. }
  assert (∀ w : world A, machine w = Machine.set_mainMemory (machine (mem k)) (memory w) → pageTablePtr w = pageTablePtr (mem k) →
    ∀ p, p ∈ c :: others → on_cpu k1 p → running w (space_of k1 p)) as Hrun.
  { intros w Hm Hp p Hin' Hcpu. destruct (ki_running _ _ _ _ HK1 p Hin' Hcpu) as [H1 H2].
    split; [by rewrite Hp|]. by rewrite Hm. }
  destruct (decide (numPages s ≤ free)) as [Hroom|Hroom].
  2: { destruct (copy_no_room stale_entry stale_pcb (mem k) _ s HI Hin ltac:(lia)) as (w & -> & HI' & Hun & Hm & Hp).
    run_ok. set (k2 := set_mem k1 w).
    assert (KInv k2 [] (c :: others) leaked) as HK2.
    { apply KInv_mem; [done|done|]. apply Hrun; [|done]. rewrite Hm. unfold memory. rewrite Hm.
      by destruct (machine (mem k)). }
    destruct (return_with_KInv k2 (-1) _ _ _ HK2) as [-> HK3]. split_and!; try done.
    apply fork_no_frames; [fold s; unfold free in Hroom; lia|done|]. unfold regs at 2. simpl. by rewrite Hm. }
  destruct (copy_ok stale_entry stale_pcb (mem k) _ s HI Hin Hroom) as (new & w & -> & Hnp & HI' & Hcon & Hun & Hm & Hp).
  run_ok. rewrite new_thread_ok. run_ok.
  set (Un := mkUser _ stale_registers KUser).
  change (half_made _ _ _ new Un) with (half_made k1 w (processManager k) new Un).
  change (fresh (set_mem k1 w)) with (fresh k).
  change (ProcessManager.getPID (processManager (half_made k1 w (processManager k) new Un))) with
    (ProcessManager.getPID (processManager k)).
  destruct (ProcessManager.getPID_ok (processManager k) (ki_manager _ _ _ _ HK)) as (pid & pm & -> & Hwf & Hpid).
  run_ok. change (set_processManager _ pm) with (half_made k1 w pm new Un). set (k2 := half_made k1 w pm new Un).
  destruct Hpid as [(-> & Htab & Hfull)|(Hr & Hfree & Htab)]; cbn [Z.ltb Z.compare].
  { assert (KInv k2 [] (c :: others) (new :: leaked)) as HK2 by (apply KInv_half_made; [done..|by apply Hrun]).
    destruct (return_with_KInv k2 (-1) _ _ _ HK2) as [-> HK3]. split_and!; try done.
    - eapply fork_no_number; [done|done| |done]. unfold regs at 2. simpl. by rewrite Hm.
    - apply (Thread_new_T (sys k)); [apply HK| |done]. change (fresh k1 + 1) with (fresh k + 1).
      eapply (below_fresh (fresh k)); [apply HK|lia].
    - by eapply Hsame. }
  destruct (Z.ltb_spec pid 0); [lia|].
  opose proof (make_child k1 w pm new Un U1 (regs k) pid c others leaked HK1 Hc Hex _ Hsv eq_refl Hwf (proj1 Hr)
    Hfree (ex_intro _ _ Htab) _) as Hmake.
  { apply lookup_insert_eq. } { rewrite Hm. by eapply good_current. }
  cbv zeta in Hmake. fold k2 in Hmake. change (fresh k1) with (fresh k) in Hmake.
  destruct (adopt stale_PCB k2 (fresh k) (fresh k + 1) pid ≫= _) as [k'|e] in Hmake |- *; [|exact Hmake]. destruct Hmake as (n & Hj & <- & Hmem).
  assert (regs k2 = regs k) as Hrk by (unfold regs; simpl; by rewrite Hm).
  assert (KInv k' [] (n :: c :: others) leaked) as HK'.
  { eapply KInv_join; [exact HK1|done|exact Hj| |]; rewrite Hmem.
    - apply inv_machine; [exact HI'|apply good_regs_wf, good_returned; by eapply good_current|apply HI'|apply HI'].
    - intros p Hp' Hcpu. exact (Hrun w Hm Hp p Hp' Hcpu). }
  pose proof (jn_spaces _ _ _ _ _ _ Hj) as Hsps.
  assert (space_of k' n = set_pcb new (p_pcb n)) as Hspn by (unfold space_of; by rewrite Hsps, lookup_insert_eq).
  split_and!; [|apply Hj|apply Hj| |eapply Hsame; change (fresh k) with (fresh k1); rewrite <- (proj1 (jn_new _ _ _ _ _ _ Hj)); exact Hsps].
  - eapply fork_new; [exact HK'| |exact Hfree|done| |exact (jn_ready _ _ _ _ _ _ Hj)| |].
    + unfold regs. by rewrite Hmem.
    + rewrite Hspn, Hmem. exact Hcon.
    + destruct (jn_pcbs _ _ _ _ _ _ Hj) as (Q & Q' & N & HQ & -> & _ & _ & _ & _ & _ & HN & _).
      exists N. rewrite lookup_insert_ne, lookup_insert_eq; [done|].
      pose proof (ki_distinct _ _ _ _ HK') as Hnd. csimpl in Hnd. apply NoDup_cons in Hnd as [Hnd _]. set_solver.
    + destruct (jn_user _ _ _ _ _ _ Hj) as (Uc & -> & _ & Hsc). exists Uc. rewrite lookup_insert_eq.
      by rewrite <- Hrk.
  - rewrite Hmem. exact Hun.
Qed.

End state.

End Forking.
