(* ===== verification/Steps.v ===== *)
(** * What a step of the kernel leaves alone

    The fields of the threads that are not running ([userRegisters], [space], and
    the place in a system call) are changed by no system call of another thread;
    a new thread is made at an address that was not in use.  The number of
    entries of the process table never changes, and a thread waits in join only
    for a number inside the table. *)

From stdpp Require Import base list gmap.
From S2P Require Import Prelude Lists BitMap Machine Mips Threads Managers Frames AddrSpace Syscalls.
Import Pages AddrSpace Syscalls.

Module Steps.

(** As [bind_inv], and into pairs. *)
Ltac split_pairs := repeat (bind_inv; match goal with H : (let '(_, _) := ?p in _) = Ok _ |- _ => destruct p end); bind_inv.

Section steps.
Context {A : Type} `{PageAllocator A}.
Implicit Types (k : kernel A).

(** The size of the process table. *)
Definition numProcesses k : Z := BitMap.numBits (ProcessManager.map (processManager k)).

(** *** The process table *)

Lemma Find_from_numBits n : ∀ b i r b', BitMap.Find_from b i n = Ok (r, b') → BitMap.numBits b' = BitMap.numBits b.
Proof.
  induction n as [|n IH]; intros b i r b' E; simpl in E; bind_inv; [done|].
  case_match; bind_inv; [|by eapply IH].
  match goal with H : BitMap.Mark _ _ = Ok _ |- _ => unfold BitMap.Mark in H end. by bind_inv.
Qed.

Lemma getPID_numBits (pm pm' : ProcessManager.ProcessManager unit) r :
  ProcessManager.getPID pm = Ok (r, pm') → BitMap.numBits (ProcessManager.map pm') = BitMap.numBits (ProcessManager.map pm).
Proof.
  unfold ProcessManager.getPID. intros E. bind_inv. case_match; bind_inv. simpl. by eapply Find_from_numBits.
Qed.

Lemma getProcess_numBits (pm pm' : ProcessManager.ProcessManager unit) pid r :
  ProcessManager.getProcess pm pid = Ok (r, pm') →
  BitMap.numBits (ProcessManager.map pm') = BitMap.numBits (ProcessManager.map pm) ∧ 0 ≤ pid < BitMap.numBits (ProcessManager.map pm).
Proof.
  unfold ProcessManager.getProcess. intros E. destruct (decide (0 ≤ pid < BitMap.numBits (ProcessManager.map pm))) as [Hp|Hp].
  - by bind_inv.
  - destruct (BitMap.out_of_range _ _ Hp) as (_ & _ & Ht). rewrite Ht in E. by bind_inv.
Qed.

Lemma addPCB_numBits pcbs (pm pm' : ProcessManager.ProcessManager unit) p :
  ProcessManager.addPCB pcbs pm p = Ok pm' → BitMap.numBits (ProcessManager.map pm') = BitMap.numBits (ProcessManager.map pm).
Proof. unfold ProcessManager.addPCB. intros E. by bind_inv. Qed.

Lemma removePCB_numBits (pm pm' : ProcessManager.ProcessManager unit) p :
  ProcessManager.removePCB pm p = Ok pm' → BitMap.numBits (ProcessManager.map pm') = BitMap.numBits (ProcessManager.map pm).
Proof. unfold ProcessManager.removePCB. intros E. by bind_inv. Qed.

Lemma clearPID_numBits (pm pm' : ProcessManager.ProcessManager unit) p :
  ProcessManager.clearPID pm p = Ok pm' → BitMap.numBits (ProcessManager.map pm') = BitMap.numBits (ProcessManager.map pm).
Proof.
  unfold ProcessManager.clearPID. intros E. bind_inv.
  match goal with H : BitMap.Clear _ _ = Ok _ |- _ => unfold BitMap.Clear in H end. by bind_inv.
Qed.

(** *** The parts of a step *)

(** Which threads a step may change. *)
Context (own : Z → Prop).

Record evolves k k' : Prop := mkEvolves {
  ev_users t : ¬ own t → users k' !! t = users k !! t;
  ev_fresh : fresh k ≤ fresh k';
  ev_number : numProcesses k' = numProcesses k;
  ev_konts t U pid : users k' !! t = Some U → at_kont U = KJoin pid →
    0 ≤ pid < numProcesses k ∨ ∃ U0, users k !! t = Some U0 ∧ at_kont U0 = KJoin pid;
}.

Lemma evolves_same k k' :
  users k' = users k → fresh k' = fresh k → numProcesses k' = numProcesses k → evolves k k'.
Proof. intros Hu Hf Hn. split; rewrite ?Hu; [done|lia|done|eauto]. Qed.

#[global] Instance evolves_refl : Reflexive evolves.
Proof. intros k. by apply evolves_same. Qed.

#[global] Instance evolves_trans : Transitive evolves.
Proof.
  intros k1 k2 k3 [U1 F1 N1 K1] [U2 F2 N2 K2]. split; [|lia|congruence|].
  - intros t Ht. rewrite U2, U1; done.
  - intros t U pid HU HK. destruct (K2 t U pid HU HK) as [?|(U0 & HU0 & HK0)]; [left; lia|eauto].
Qed.

(** A thread of its own gets new fields, and goes on as it did or as [x] says. *)
Lemma evolves_put k t U (x : kont) :
  own t → at_kont U = x → (∀ pid, x = KJoin pid → 0 ≤ pid < numProcesses k ∨ ∃ U0, users k !! t = Some U0 ∧ at_kont U0 = x) →
  evolves k (put_user k t U).
Proof.
  intros Ht Hx HK. split; [|simpl; lia|done|].
  - intros u Hu. simpl. rewrite lookup_insert_ne; [done|]. by intros ->.
  - intros u V pid. simpl. intros [[<- <-]|[_ HV]]%lookup_insert_Some Hp; [|eauto].
    destruct (HK pid ltac:(congruence)) as [?|(U0 & HU0 & E)]; [by left|right]. exists U0. split; [done|congruence].
Qed.

Lemma find_users k t U : user k t = Ok U → users k !! t = Some U.
Proof.
  unfold user. intros E. bind_inv. unfold Threads.find in E. destruct (users k !! t); [by simplify_eq|]. by case_match.
Qed.

(** Registers are part of the machine. *)
Lemma WriteRegister_mem k n v k' : WriteRegister k n v = Ok k' → ∃ w, k' = set_mem k w.
Proof. unfold WriteRegister. intros E. bind_inv. by eexists. Qed.

Lemma write_registers_mem rs : ∀ k i k', write_registers k i rs = Ok k' → ∃ w, k' = set_mem k w.
Proof.
  induction rs as [|r rs IH]; intros k i k' E; simpl in E; bind_inv; [by exists (mem k'); destruct k'|].
  match goal with H : WriteRegister _ _ _ = Ok _ |- _ => apply WriteRegister_mem in H as [w ->] end.
  apply IH in E as [w' ->]. by exists w'.
Qed.

Lemma RestoreUserState_mem k t k' : RestoreUserState k t = Ok k' → ∃ w, k' = set_mem k w.
Proof. unfold RestoreUserState. intros E. bind_inv. by eapply write_registers_mem. Qed.

Lemma update_mem k k' : update k = Ok k' → ∃ w, k' = set_mem k w.
Proof.
  unfold update. intros E. bind_inv. repeat match goal with H : WriteRegister _ _ _ = Ok _ |- _ => apply WriteRegister_mem in H as [? ->] end.
  by eexists.
Qed.

Lemma return_with_mem k v k' : return_with k v = Ok k' → ∃ w, k' = set_mem k w.
Proof.
  unfold return_with. intros E. bind_inv. match goal with H : WriteRegister _ _ _ = Ok _ |- _ => apply WriteRegister_mem in H as [? ->] end.
  apply update_mem in E as [? ->]. by eexists.
Qed.

Lemma dummy_mem k k' : dummy k = Ok k' → ∃ w, k' = set_mem k w.
Proof.
  unfold dummy. intros E. bind_inv. match goal with H : RestoreUserState _ _ = Ok _ |- _ => apply RestoreUserState_mem in H as [? ->] end.
  case_match. bind_inv. by eexists.
Qed.

Lemma arrive_mem k k' : arrive k = Ok k' → ∃ w, k' = set_mem k w.
Proof.
  unfold arrive. intros E. bind_inv. case_match; bind_inv; [by exists (mem k'); destruct k'|].
  match goal with H : RestoreUserState _ _ = Ok _ |- _ => apply RestoreUserState_mem in H as [? ->] end. by eexists.
Qed.

Lemma set_mem_evolves k w : evolves k (set_mem k w).
Proof. by apply evolves_same. Qed.

Lemma SaveUserState_evolves k t k' : own t → SaveUserState k t = Ok k' → evolves k k' ∧ current k' = current k.
Proof.
  unfold SaveUserState. intros Ht E. bind_inv. split; [|done].
  match goal with H : user _ _ = Ok ?a |- _ => apply find_users in H; apply (evolves_put k t _ (at_kont a)); [done|done|eauto] end.
Qed.

Lemma set_kont_evolves k x k' :
  own (current k) → (∀ pid, x = KJoin pid → 0 ≤ pid < numProcesses k) → set_kont k x = Ok k' →
  evolves k k' ∧ current k' = current k.
Proof. unfold set_kont. intros Ht Hx E. bind_inv. split; [|done]. apply (evolves_put k _ _ x); [done|done|eauto]. Qed.

Lemma leave_evolves k k' : own (current k) → leave k = Ok k' → evolves k k'.
Proof.
  unfold leave. intros Ht E. bind_inv. case_match; bind_inv; [done|]. by eapply SaveUserState_evolves.
Qed.

Lemma maybe_leave_evolves k k' (b : bool) : own (current k) → (if b then leave k else Ok k) = Ok k' → evolves k k'.
Proof. intros Ht E. destruct b; [by apply leave_evolves|by simplify_eq]. Qed.

Lemma Yield_evolves k x k' :
  own (current k) → (∀ pid, x = KJoin pid → 0 ≤ pid < numProcesses k) → Yield k x = Ok k' → evolves k k'.
Proof.
  unfold Yield. intros Ht Hx E. bind_inv.
  match goal with H : set_kont _ _ = Ok ?k1 |- _ => destruct (set_kont_evolves k x k1 Ht Hx H) as [H1 Hc] end.
  match goal with H : (if _ then _ else _) = Ok ?k2 |- _ => apply maybe_leave_evolves in H; [|by rewrite Hc] end.
  etrans; [exact H1|]. etrans; [eassumption|]. by apply evolves_same.
Qed.

Lemma Finish_evolves k o : own (current k) → Finish k = Ok o → match o with Runs k' | Halts k' => evolves k k' end.
Proof.
  unfold Finish. intros Ht E. bind_inv.
  match goal with H : (if _ then _ else _) = Ok ?k2 |- _ => apply maybe_leave_evolves in H; [|done] end.
  destruct (Threads.idle _); (etrans; [eassumption|]; by apply evolves_same).
Qed.

(** *** The system calls *)

Lemma resume_evolves k f k' : resume k f = Ok k' → evolves k k'.
Proof.
  unfold resume. intros E. bind_inv. case_match. destruct f; [|..]; first [apply dummy_mem in E as [w ->]|apply arrive_mem in E as [w ->]]; by apply evolves_same.
Qed.

Lemma new_thread_evolves stale_registers k new sp t k' :
  (∀ x, fresh k ≤ x → own x) → new_thread stale_registers k new = Ok (sp, t, k') → evolves k k' ∧ own t ∧ current k' = current k.
Proof.
  unfold new_thread, Thread_new, alloc. cbv beta iota zeta. cbn [fresh set_spaces]. intros Hf E. bind_inv.
  assert (own (fresh k + 1)) as Ho by (apply Hf; lia). split_and!; [|done|done].
  match goal with H : user _ _ = Ok ?a |- _ => apply find_users in H; cbn [users put_user set_users] in H; rewrite lookup_insert_eq in H; injection H as <- end.
  split; cbn [users put_user set_users fresh set_sys set_spaces at_kont]; [|lia|done|].
  - intros u Hu. rewrite !lookup_insert_ne; [done|intros <-; done..].
  - intros u V pid [[<- <-]|[Hne HV]]%lookup_insert_Some Hp; [done|]. rewrite lookup_insert_ne in HV by done. eauto.
Qed.

Lemma adopt_evolves stale_PCB k sp t pid k' :
  adopt stale_PCB k sp t pid = Ok k' → evolves k k' ∧ current k' = current k.
Proof.
  unfold adopt, alloc. cbv beta iota zeta. intros E. split_pairs.
  match goal with H : ProcessManager.addPCB _ _ _ = Ok _ |- _ => apply addPCB_numBits in H end.
  split; [|done]. split; cbn [users fresh put_pcb set_pcbs set_spaces set_processManager]; [done|lia|done|eauto].
Qed.

Lemma start_child_evolves k t pid k' : own t → start_child k t pid = Ok k' → evolves k k'.
Proof.
  unfold start_child. intros Ht E. bind_inv.
  repeat match goal with H : WriteRegister _ _ _ = Ok _ |- _ => apply WriteRegister_mem in H as [? ->] end.
  match goal with H : SaveUserState _ _ = Ok _ |- _ => apply SaveUserState_evolves in H as [Hs _]; [|done] end.
  match goal with H : RestoreUserState _ _ = Ok _ |- _ => apply RestoreUserState_mem in H as [? ->] end.
  apply return_with_mem in E as [? ->].
  etrans; [apply set_mem_evolves|]. etrans; [exact Hs|]. by apply evolves_same.
Qed.

Lemma fork_evolves stale_entry stale_pcb stale_PCB stale_registers k k' :
  own (current k) → (∀ x, fresh k ≤ x → own x) → fork stale_entry stale_pcb stale_PCB stale_registers k = Ok k' → evolves k k'.
Proof.
  unfold fork. intros Ht Hf E. bind_inv.
  match goal with H : SaveUserState _ _ = Ok ?k1 |- _ =>
    destruct (SaveUserState_evolves _ _ _ Ht H) as [Hs Hc]; pose proof (ev_fresh _ _ Hs) as Hfr end.
  etrans; [exact Hs|]. split_pairs. match goal with o : option AddrSpace |- _ => destruct o as [new|] end.
  2: { apply return_with_mem in E as [? ->]. by apply evolves_same. }
  split_pairs. match goal with H : new_thread _ _ _ = Ok _ |- _ => apply new_thread_evolves in H as (Hn & Hot & _) end.
  2: { simpl. intros x Hx. apply Hf. lia. }
  etrans; [apply set_mem_evolves|]. etrans; [exact Hn|].
  match goal with H : ProcessManager.getPID _ = Ok _ |- _ => apply getPID_numBits in H end.
  case_match.
  - apply return_with_mem in E as [? ->]. by apply evolves_same.
  - bind_inv. match goal with H : adopt _ _ _ _ _ = Ok _ |- _ => apply adopt_evolves in H as [Ha _] end.
    apply start_child_evolves in E; [|done]. etrans; [|exact E]. etrans; [|exact Ha]. by apply evolves_same.
Qed.

Lemma leave_family_pcbs k p code k' : leave_family k p code = Ok k' → ∃ m, k' = set_pcbs k m.
Proof.
  assert (∀ l k k', orphan k l = Ok k' → ∃ m, k' = set_pcbs k m) as Ho.
  { induction l as [|x l IH]; intros k1 k2 E; simpl in E; bind_inv; [by exists (pcbs k2); destruct k2|].
    match goal with H : nullParent _ _ = Ok _ |- _ => unfold nullParent in H end. bind_inv. apply IH in E as [m ->]. by eexists. }
  unfold leave_family. intros E. bind_inv.
  match goal with H : (if _ then orphan _ _ else _) = Ok ?k1 |- _ => rename H into Ek; assert (∃ m, k1 = set_pcbs k m) as [m ->] end.
  { destruct (negb _) in Ek; [by eapply Ho|]. injection Ek as <-. exists (pcbs k). by destruct k. }
  destruct (negb _) in E; split_pairs; by eexists.
Qed.

Lemma free_process_evolves k pid p sp k' : free_process k pid p sp = Ok k' → evolves k k' ∧ current k' = current k.
Proof.
  unfold free_process. intros E. bind_inv.
  repeat match goal with
  | H : ProcessManager.removePCB _ _ = Ok _ |- _ => apply removePCB_numBits in H
  | H : ProcessManager.clearPID _ _ = Ok _ |- _ => apply clearPID_numBits in H
  end.
  split; [|done]. apply evolves_same; try done. unfold numProcesses. simpl. congruence.
Qed.

Lemma exit_evolves k o : own (current k) → exit k = Ok o → match o with Runs k' | Halts k' => evolves k k' end.
Proof.
  unfold exit. intros Ht E. split_pairs.
  match goal with H : leave_family _ _ _ = Ok _ |- _ => apply leave_family_pcbs in H as [m ->] end.
  match goal with H : free_process _ _ _ _ = Ok _ |- _ => apply free_process_evolves in H as [Hf Hc] end.
  apply Finish_evolves in E; [|by rewrite Hc].
  destruct o; (etrans; [|exact E]; etrans; [|exact Hf]; by apply evolves_same).
Qed.

Lemma getProcess_evolves k p pid pm :
  ProcessManager.getProcess (processManager k) pid = Ok (p, pm) →
  evolves k (set_processManager k pm) ∧ 0 ≤ pid < numProcesses (set_processManager k pm).
Proof. intros [En Hr]%getProcess_numBits. split; [by apply evolves_same|]. unfold numProcesses. simpl. lia. Qed.

Lemma kill_evolves k o : own (current k) → kill k = Ok o → match o with Runs k' | Halts k' => evolves k k' end.
Proof.
  unfold kill. intros Ht E. split_pairs.
  match goal with H : ProcessManager.getProcess _ _ = Ok _ |- _ => apply getProcess_evolves in H as [Hg _] end.
  case_match; [|case_match].
  - bind_inv. match goal with H : return_with _ _ = Ok _ |- _ => apply return_with_mem in H as [? ->] end.
    etrans; [exact Hg|]. by apply evolves_same.
  - apply exit_evolves in E; [|done]. destruct o; by etrans.
  - bind_inv. match goal with H : leave_family _ _ _ = Ok _ |- _ => apply leave_family_pcbs in H as [m ->] end.
    match goal with H : free_process _ _ _ _ = Ok _ |- _ => apply free_process_evolves in H as [Hf _] end.
    match goal with H : return_with _ _ = Ok _ |- _ => apply return_with_mem in H as [? ->] end.
    etrans; [exact Hg|]. etrans; [|etrans; [exact Hf|]]; by apply evolves_same.
Qed.

Lemma join_loop_evolves k pid k' : own (current k) → join_loop k pid = Ok k' → evolves k k'.
Proof.
  unfold join_loop. intros Ht E. split_pairs.
  match goal with H : ProcessManager.getProcess _ _ = Ok _ |- _ => apply getProcess_evolves in H as [Hg Hr] end.
  etrans; [exact Hg|]. case_match.
  - apply Yield_evolves in E; [done|done|]. by intros x [= <-].
  - bind_inv. match goal with H : set_kont _ _ = Ok _ |- _ => apply set_kont_evolves in H as [Hk _]; [|done..] end.
    split_pairs. apply return_with_mem in E as [? ->]. etrans; [exact Hk|]. by apply evolves_same.
Qed.

Lemma join_evolves k k' : own (current k) → join k = Ok k' → evolves k k'.
Proof.
  unfold join. intros Ht E. split_pairs. case_match; [apply return_with_mem in E as [? ->]; by apply evolves_same|].
  split_pairs. match goal with H : ProcessManager.getProcess _ _ = Ok _ |- _ => apply getProcess_evolves in H as [Hg _] end.
  etrans; [exact Hg|]. case_match; [apply return_with_mem in E as [? ->]; by apply evolves_same|].
  by apply join_loop_evolves in E.
Qed.

Lemma exec_evolves HOST_IS_BIG_ENDIAN uninit stale_entry Open k k' :
  exec HOST_IS_BIG_ENDIAN uninit stale_entry Open k = Ok k' → evolves k k'.
Proof.
  unfold exec. intros E. split_pairs. apply return_with_mem in E as [? ->]. by apply evolves_same.
Qed.

Lemma ExceptionHandler_evolves HOST_IS_BIG_ENDIAN uninit stale_entry stale_pcb stale_PCB stale_registers Open k which o :
  own (current k) → (∀ x, fresh k ≤ x → own x) →
  ExceptionHandler HOST_IS_BIG_ENDIAN uninit stale_entry stale_pcb stale_PCB stale_registers Open k which = Ok o →
  match o with Runs k' | Halts k' => evolves k k' end.
Proof.
  intros Ht Hf E. unfold ExceptionHandler in E. bind_inv. destruct (bool_decide _); [|done].
  repeat match type of E with (if ?b then _ else _) = _ => destruct b; [|] end; bind_inv.
  - done.
  - by eapply fork_evolves.
  - match goal with H : yield _ = Ok _ |- _ => unfold yield in H end. bind_inv.
    match goal with H : Yield _ _ = Ok _ |- _ => by apply Yield_evolves in H end.
  - by eapply exec_evolves.
  - by eapply join_evolves.
  - by apply exit_evolves.
  - by apply kill_evolves.
  - done.
Qed.

(** A step of the running thread. *)
Lemma step_evolves HOST_IS_BIG_ENDIAN uninit stale_entry stale_pcb stale_PCB stale_registers Open k o :
  own (current k) → (∀ x, fresh k ≤ x → own x) →
  step HOST_IS_BIG_ENDIAN uninit stale_entry stale_pcb stale_PCB stale_registers Open k = Ok o →
  match o with Runs k' | Halts k' => evolves k k' end.
Proof.
  intros Ht Hf E. unfold step in E. bind_inv. case_match.
  { bind_inv. by eapply resume_evolves. }
  bind_inv. case_match.
  - unfold run_user in E. split_pairs. match goal with w : world A |- _ => pose proof (set_mem_evolves k w) as Hw end.
    case_match; [|by bind_inv].
    apply ExceptionHandler_evolves in E; [|done|done]. destruct o; by etrans.
  - bind_inv. match goal with H : set_kont _ _ = Ok _ |- _ => apply set_kont_evolves in H as [Hk _]; [|done..] end.
    match goal with H : update _ = Ok _ |- _ => apply update_mem in H as [? ->] end. etrans; [exact Hk|]. by apply evolves_same.
  - bind_inv. by eapply join_loop_evolves.
Qed.
Lemma StartProcess_evolves HOST_IS_BIG_ENDIAN uninit stale_entry stale_pcb stale_PCB Open k name b k' :
  own (current k) → StartProcess HOST_IS_BIG_ENDIAN uninit stale_entry stale_pcb stale_PCB Open k name = Ok (b, k') → evolves k k'.
Proof.
  unfold StartProcess, alloc. intros Ht E. case_match; [|by simplify_eq]. split_pairs.
  match goal with H : ProcessManager.getPID _ = Ok _ |- _ => apply getPID_numBits in H as Hn end.
  case_match; [simplify_eq; by apply evolves_same|]. cbv beta iota zeta in E. split_pairs. simplify_eq.
  match goal with H : ProcessManager.addPCB _ _ _ = Ok _ |- _ => apply addPCB_numBits in H as Ha end.
  match goal with H : user _ _ = Ok ?a |- _ => apply find_users in H as Hu end. cbn in Hu.
  split; cbn -[Z.add]; [|lia|etrans; [exact Ha|exact Hn]|].
  - intros u Hne. rewrite lookup_insert_ne; [done|]. by intros <-.
  - intros u V pid [[<- <-]|[_ HV]]%lookup_insert_Some Hp; [right|by eauto]. by eexists.
Qed.
End steps.

(** *** Which thread runs

    The processor goes to another thread only with interrupts off. *)

Lemma Run_level s f t s' : Threads.Run s f t = Ok s' → Threads.level s' = Threads.level s.
Proof.
  unfold Threads.Run, Threads.set_frame, Threads.setStatus, Threads.destroy_carcass, Threads.Thread_delete. intros E. bind_inv.
  repeat (case_match; bind_inv); done.
Qed.

Lemma ReadyToRun_stays s t s' :
  Threads.ReadyToRun s t = Ok s' → Threads.level s' = Threads.level s ∧ Threads.currentThread s' = Threads.currentThread s.
Proof. unfold Threads.ReadyToRun, Threads.setStatus. intros E. by bind_inv. Qed.

Lemma Fork_stays s t s' : Threads.Fork s t = Ok s' → Threads.currentThread s' = Threads.currentThread s.
Proof.
  unfold Threads.Fork, Threads.StackAllocate. intros E. bind_inv.
  match goal with H : Threads.ReadyToRun _ _ = Ok _ |- _ => by apply ReadyToRun_stays in H as [_ H] end.
Qed.

Lemma Yield_level s s' :
  Threads.Yield s = Ok s' → Threads.currentThread s' = Threads.currentThread s ∨ Threads.level s' = Threads.IntOff.
Proof.
  unfold Threads.Yield, Threads.FindNextToRun. destruct (ListModel.Remove _) as [z q]. intros E. destruct (_ =? _); [simplify_eq; by left|]. bind_inv.
  apply Run_level in E. match goal with H : Threads.ReadyToRun _ _ = Ok _ |- _ => apply ReadyToRun_stays in H as [H _] end.
  right. by etrans.
Qed.

Lemma Finish_level s s' : Threads.Finish s = Ok s' → Threads.level s' = Threads.IntOff.
Proof.
  unfold Threads.Finish, Threads.Sleep, Threads.dispatch, Threads.FindNextToRun, Threads.setStatus. intros E. bind_inv.
  destruct (ListModel.Remove _) as [z q]. destruct (_ =? _); [|by apply Run_level in E]. unfold Threads.set_frame in E. by bind_inv.
Qed.

Section switches.
Context {A : Type} `{PageAllocator A}.
Implicit Types (k : kernel A).

Definition switches k k' : Prop := current k' = current k ∨ Threads.level (sys k') = Threads.IntOff.

Lemma set_kont_sys k x k' : set_kont k x = Ok k' → sys k' = sys k.
Proof. unfold set_kont. intros E. by bind_inv. Qed.

Lemma maybe_leave_sys k k' (b : bool) : (if b then leave k else Ok k) = Ok k' → sys k' = sys k.
Proof.
  destruct b; [|by intros [= <-]]. unfold leave, SaveUserState. intros E. bind_inv. by case_match; bind_inv.
Qed.

Lemma Yield_switches k x k' : Yield k x = Ok k' → switches k k'.
Proof.
  unfold Yield, switches, current. intros E. bind_inv.
  repeat match goal with
  | H : set_kont _ _ = Ok _ |- _ => apply set_kont_sys in H
  | H : (if _ then _ else _) = Ok _ |- _ => apply maybe_leave_sys in H
  | H : Threads.Yield _ = Ok _ |- _ => apply Yield_level in H
  end. simpl. congruence.
Qed.

Lemma Finish_switches k k' : Finish k = Ok (Runs k') → switches k k'.
Proof.
  unfold Finish, switches. intros E. bind_inv. case_match; simplify_eq. right. simpl. by eapply Finish_level.
Qed.

Lemma exit_switches k k' : exit k = Ok (Runs k') → switches k k'.
Proof.
  unfold exit. intros E. split_pairs. apply Finish_switches in E. destruct E as [E|?]; [left|by right]. rewrite E.
  match goal with H : leave_family _ _ _ = Ok _ |- _ => apply leave_family_pcbs in H as [m ->] end.
  match goal with H : free_process _ _ _ _ = Ok _ |- _ => by apply (free_process_evolves (λ _, True)) in H as [_ ->] end.
Qed.

Lemma kill_switches k k' : kill k = Ok (Runs k') → switches k k'.
Proof.
  unfold kill. intros E. split_pairs. case_match; [|case_match]; [|by apply exit_switches in E|]; bind_inv; left.
  - match goal with H : return_with _ _ = Ok _ |- _ => by apply return_with_mem in H as [? ->] end.
  - match goal with H : return_with _ _ = Ok _ |- _ => apply return_with_mem in H as [? ->] end.
    match goal with H : leave_family _ _ _ = Ok _ |- _ => apply leave_family_pcbs in H as [m ->] end.
    match goal with H : free_process _ _ _ _ = Ok _ |- _ => apply (free_process_evolves (λ _, True)) in H as [_ Hc] end.
    etrans; [|exact Hc]. unfold current. simpl. unfold Threads.Scheduler_Remove. by case_match.
Qed.

Lemma join_loop_switches k pid k' : join_loop k pid = Ok k' → switches k k'.
Proof.
  unfold join_loop. intros E. split_pairs. case_match; [by apply Yield_switches in E|]. bind_inv. split_pairs. left.
  apply return_with_mem in E as [? ->]. match goal with H : set_kont _ _ = Ok _ |- _ => apply set_kont_sys in H as Hk end.
  unfold current. simpl. by rewrite Hk.
Qed.

Lemma join_switches k k' : join k = Ok k' → switches k k'.
Proof.
  unfold join. intros E. split_pairs. case_match; [apply return_with_mem in E as [? ->]; by left|]. split_pairs.
  case_match; [apply return_with_mem in E as [? ->]; by left|]. by apply join_loop_switches in E.
Qed.

Lemma fork_switches stale_entry stale_pcb stale_PCB stale_registers k k' :
  fork stale_entry stale_pcb stale_PCB stale_registers k = Ok k' → current k' = current k.
Proof.
  unfold fork. intros E. bind_inv. match goal with H : SaveUserState _ _ = Ok _ |- _ => apply (SaveUserState_evolves (λ _, True)) in H as [_ Hs]; [|done] end.
  split_pairs. match goal with o : option AddrSpace |- _ => destruct o as [new|] end.
  2: { by apply return_with_mem in E as [? ->]. }
  split_pairs. match goal with H : new_thread _ _ _ = Ok _ |- _ => apply (new_thread_evolves (λ _, True)) in H as (_ & _ & Hn); [|done] end.
  case_match; [apply return_with_mem in E as [? ->]; unfold current in *; simpl in *; congruence|].
  bind_inv. match goal with H : adopt _ _ _ _ _ = Ok _ |- _ => apply (adopt_evolves (λ _, True)) in H as [_ Ha] end.
  unfold start_child in E. bind_inv.
  repeat match goal with
  | H : WriteRegister _ _ _ = Ok _ |- _ => apply WriteRegister_mem in H as [? ->]
  | H : SaveUserState _ _ = Ok _ |- _ => apply (SaveUserState_evolves (λ _, True)) in H as [_ H]; [|done]
  | H : RestoreUserState _ _ = Ok _ |- _ => apply RestoreUserState_mem in H as [? ->]
  | H : Threads.Fork _ _ = Ok _ |- _ => apply Fork_stays in H
  end.
  apply return_with_mem in E as [? ->]. unfold current in *. simpl in *. congruence.
Qed.

Lemma ExceptionHandler_switches HOST_IS_BIG_ENDIAN uninit stale_entry stale_pcb stale_PCB stale_registers Open k which k' :
  ExceptionHandler HOST_IS_BIG_ENDIAN uninit stale_entry stale_pcb stale_PCB stale_registers Open k which = Ok (Runs k') → switches k k'.
Proof.
  intros E. unfold ExceptionHandler in E. bind_inv. destruct (bool_decide _); [|done].
  repeat match type of E with (if ?b then _ else _) = _ => destruct b; [|] end; bind_inv.
  - by left.
  - left. by eapply fork_switches.
  - match goal with H : yield _ = Ok _ |- _ => unfold yield in H end. bind_inv. by eapply Yield_switches.
  - left. match goal with H : exec _ _ _ _ _ = Ok _ |- _ => unfold exec in H end. split_pairs.
    match goal with H : return_with _ _ = Ok _ |- _ => by apply return_with_mem in H as [? ->] end.
  - by eapply join_switches.
  - by apply exit_switches.
  - by apply kill_switches.
  - done.
Qed.
End switches.

(** No thread waits for a number outside the table. *)
Definition joins_ok {A} `{PageAllocator A} (k : kernel A) : Prop :=
  ∀ t U pid, users k !! t = Some U → at_kont U = KJoin pid → 0 ≤ pid < numProcesses k.

Lemma evolves_joins_ok {A} `{PageAllocator A} own (k k' : kernel A) : evolves own k k' → joins_ok k → joins_ok k'.
Proof.
  intros [_ _ Hn HK] Hj t U pid HU Hp. rewrite Hn. destruct (HK t U pid HU Hp) as [?|(U0 & HU0 & E)]; [done|by eapply Hj].
Qed.
End Steps.
