(* ===== verification/Kernel.v ===== *)
(** * The kernel: every step of it

    The system calls join and exec, the exception handler, [step], and the
    start of the first process: the invariant of the process system holds in
    every state the kernel reaches, and it stops only for the reasons listed in
    [stops] and [call_stops]. *)

From stdpp Require Import base list gmap.
From S2P Require Import Prelude Lists BitMap Machine Mips Threads Managers Frames AddrSpace Spaces Syscalls Processes Lifecycle Forking Steps.
Import Steps Pages Frames AddrSpace Spaces Syscalls UserThreads Family Loading Processes Lifecycle Forking.

Module Kernel.

Section state.
Context {A : Type} `{PageAllocatorLaws A}.
Implicit Types (k : kernel A) (p c : proc) (procs others : list proc) (leaked : list AddrSpace).

(** The number of a system call and its argument. *)
Definition call_number k : Z := s32 (reg_at (regs k) 2).
Definition call_argument k : Z := s32 (reg_at (regs k) 4).

(** Why the exception handler can stop, [k] being the kernel when the exception
    is raised: the exception is not a system call; kill or join of a number that
    is not in the process table (the assertion in [BitMap::Test]); exec of a file
    that is not a program or does not fit, or that overruns its pages; and an
    append to a list after its last element was removed, to the ready list in
    fork, yield and join, or to the children of the caller in fork. *)
Inductive call_stops k (which : Machine.ExceptionType) : error → Prop :=
  | stop_exception : which ≠ Machine.SyscallException → call_stops k which AssertionFailed
  | stop_kill : call_number k = SC_Kill → ¬ (0 ≤ call_argument k < numProcesses k) → call_stops k which AssertionFailed
  | stop_join : call_number k = SC_Join → numProcesses k ≤ call_argument k → call_stops k which AssertionFailed
  | stop_exec e : call_number k = SC_Exec → harmless e → call_stops k which e
  | stop_ready : call_number k ∈ [SC_Fork; SC_Yield; SC_Join] → is_dangling k → call_stops k which UseAfterFree
  | stop_children x P : call_number k = SC_Fork → current_pcb k = Ok (x, P) → ListModel.dangling (PCB.children P) = true →
      call_stops k which UseAfterFree.

(** The memory of process [p] is as it was. *)
Definition keeps_memory k k' p : Prop :=
  contents (mem k') (space_of k' p) = contents (mem k) (space_of k p).

(** The kernel goes on in [k']: the invariant holds again, and, if [isolated],
    no process other than [c] that is still there has had its memory changed. *)
Definition goes_on (isolated : Prop) k c procs k' : Prop :=
  ∃ procs' leaked', KInv k' [] procs' leaked' ∧
    (isolated → ∀ p, p ∈ procs → p ∈ procs' → p ≠ c → keeps_memory k k' p).

Definition continues (stop : error → Prop) (isolated : Prop) k c procs (r : result (outcome (A := A))) : Prop :=
  match r with
  | Ok (Runs k') => goes_on isolated k c procs k'
  | Ok (Halts _) => True
  | Err e => stop e
  end.

Lemma continues_impl (stop stop' : error → Prop) isolated k c procs r :
  (∀ e, stop e → stop' e) → continues stop isolated k c procs r → continues stop' isolated k c procs r.
Proof. destruct r as [[k'|]|e]; simpl; auto. Qed.

Lemma contents_ext (w w' : world A) s :
  memory w' = memory w → tables w' !! pageTable s = tables w !! pageTable s → contents w' s = contents w s.
Proof. intros Hm Ht. unfold contents, owned, table_of. by rewrite Hm, Ht. Qed.

Lemma goes_on_same isolated k c procs leaked k' :
  KInv k' [] procs leaked → spaces k' = spaces k → memory (mem k') = memory (mem k) →
  tables (mem k') = tables (mem k) → goes_on isolated k c procs k'.
Proof.
  intros HK Hs Hm Ht. exists procs, leaked. split; [done|]. intros _ p _ _ _. unfold keeps_memory, space_of.
  rewrite Hs. apply contents_ext; congruence.
Qed.

(** What [untouched] says of the processes. *)
Lemma untouched_keeps k k' c others leaked procs' :
  (∀ p, p ∈ others → p ∈ procs' → space_of k' p = space_of k p) →
  untouched (mem k) (mem k') ((space_of k <$> others) ++ leaked) →
  ∀ p, p ∈ c :: others → p ∈ procs' → p ≠ c → keeps_memory k k' p.
Proof.
  intros Hsp Hun p [->|Hp]%elem_of_cons Hp' Hne; [done|]. unfold keeps_memory. rewrite (Hsp p Hp Hp').
  apply Hun, elem_of_app. left. by apply list_elem_of_fmap_2.
Qed.

(** *** One instruction of the user program *)

Lemma user_step_KInv HOST_IS_BIG_ENDIAN k c others leaked :
  KInv k [] (c :: others) leaked → p_thread c = current k → executing (sys k) →
  match user_step HOST_IS_BIG_ENDIAN (mem k) with
  | Ok (_, w) => KInv (set_mem k w) [] (c :: others) leaked ∧
                 untouched (mem k) w ((space_of k <$> others) ++ leaked)
  | Err e => e = AssertionFailed
  end.
Proof.
  intros HK Hc Hex. pose proof (ki_memory _ _ _ _ HK) as HI. csimpl in HI.
  assert (c ∈ c :: others) as Hin by (by left).
  pose proof (ki_running _ _ _ _ HK c Hin (conj Hc Hex)) as Hrun.
  destruct (hardware_ok (mem k) _ (space_of k c) HI ltac:(by left) Hrun) as [Hh Hwfm].
  unfold user_step. rewrite Hh. run_ok.
  pose proof (Mips.OneInstruction_confined HOST_IS_BIG_ENDIAN _ Hwfm) as Hone.
  assert (∀ m, Machine.wfm m ∧ Machine.confined (Machine.set_pageTable (machine (mem k)) (Some (table_of (mem k) (space_of k c)))) m →
    KInv (set_mem k (after_hardware (mem k) m)) [] (c :: others) leaked ∧
    untouched (mem k) (after_hardware (mem k) m) ((space_of k <$> others) ++ leaked)) as Hgo.
  { intros m [Hm1 Hm2]. destruct (after_hardware_ok (mem k) (space_of k c) _ m HI Hrun Hm1 Hm2) as (HI' & Hr' & Hun).
    split; [|done]. apply KInv_mem; [done|done|]. intros p Hp [Hpc _].
    assert (p = c) as -> by (eapply thread_inj; [exact HK|done|done|congruence]). done. }
  destruct (Mips.OneInstruction _ _) as [[? m|which m]|e]; [..|done]; run_ok; by apply Hgo.
Qed.

(** *** Join *)

Lemma getProcess_out (pm : ProcessManager.ProcessManager unit) pid :
  ¬ (0 ≤ pid < BitMap.numBits (ProcessManager.map pm)) → ProcessManager.getProcess pm pid = Err AssertionFailed.
Proof.
  intros Hp. unfold ProcessManager.getProcess. simpl. by destruct (BitMap.out_of_range _ _ Hp) as (_ & _ & ->).
Qed.

Lemma getProcess_in (pm : ProcessManager.ProcessManager unit) pid :
  ProcessManager.wf pm → 0 ≤ pid < BitMap.numBits (ProcessManager.map pm) →
  ProcessManager.getProcess pm pid = Ok (default Threads.NULL (ProcessManager.table pm !! pid), pm).
Proof.
  intros Hwf Hp. destruct (ProcessManager.getProcess_ok pm pid Hwf Hp) as (pm' & E & _ & _).
  rewrite E. do 2 f_equal. unfold ProcessManager.getProcess in E. simpl in E. bind_inv. by destruct pm as [? [] ?].
Qed.

Lemma set_processManager_id k : set_processManager k (processManager k) = k.
Proof. by destruct k. Qed.

(** One round of the loop. *)
Lemma join_loop_cases k c others leaked pid P :
  KInv k [] (c :: others) leaked → p_thread c = current k → executing (sys k) → pcbs k !! p_pcb c = Some P →
  match join_loop k pid with
  | Ok k' => KInv k' [] (c :: others) leaked ∧ spaces k' = spaces k ∧ pcbs k' = pcbs k ∧
      memory (mem k') = memory (mem k) ∧ tables (mem k') = tables (mem k) ∧
      (ProcessManager.table (processManager k) !! pid = None → executing (sys k') ∧ current k' = current k ∧
        regs k' = returned (regs k) (PCB.getCode P))
  | Err e => if decide (0 ≤ pid < BitMap.numBits (ProcessManager.map (processManager k)))
             then e = UseAfterFree ∧ is_dangling k ∧ is_Some (ProcessManager.table (processManager k) !! pid)
             else e = AssertionFailed
  end.
Proof.
  intros HK Hc Hex HP. unfold join_loop. case_decide as Hr; [|by rewrite getProcess_out].
  destruct (getProcess_KInv k _ _ _ pid HK Hr) as (pm & -> & HK1). run_ok.
  set (k1 := set_processManager k pm) in *.
  destruct (ProcessManager.table (processManager k) !! pid) as [x|] eqn:Et; simpl.
  - assert (x ≠ Threads.NULL) as Hx.
    { rewrite (ki_table _ _ _ _ HK) in Et. apply elem_of_list_to_map_2 in Et.
      apply (list_elem_of_fmap_1 pid_pcb (c :: others)) in Et as (q & [= -> ->] & Hq).
      destruct (proj1 (Forall_forall _ _) (ki_procs _ _ _ _ HK) q Hq) as [(Q & HQ & _) _ _].
      assert (0 < p_pcb q < fresh k) by (apply (ki_fresh_pcbs _ _ _ _ HK); by rewrite HQ).
      unfold Threads.NULL. lia. }
    destruct (Z.eqb_spec x Threads.NULL); [done|]. cbn [negb].
    pose proof (Yield_KInv k1 (c :: others) leaked (KJoin pid) HK1 Hex) as HY.
    destruct (Yield k1 (KJoin pid)) as [k'|e]; [|destruct HY; split_and!; done || eauto].
    destruct HY as (HK' & Hm & Hp & _ & Hs & _). by rewrite Hm, Hp, Hs.
  - destruct (set_kont_ok k1 c others leaked KUser HK1 Hc) as (U & HU & -> & HK2). run_ok.
    set (k2 := put_user k1 (current k1) _) in *.
    destruct (current_ok k2 _ c others leaked HK2 Hc) as (P' & HP' & _ & _ & _ & _ & _ & ->). run_ok.
    assert (P' = P) as -> by (change (pcbs k2) with (pcbs k) in HP'; congruence).
    destruct (return_with_KInv k2 (PCB.getCode P) _ _ _ HK2) as [-> HK3]. by split_and!.
Qed.

Lemma join_loop_continues isolated k c others leaked pid :
  KInv k [] (c :: others) leaked → p_thread c = current k → executing (sys k) →
  continues (λ e, if decide (0 ≤ pid < numProcesses k)
                  then e = UseAfterFree ∧ is_dangling k ∧ is_Some (ProcessManager.table (processManager k) !! pid)
                  else e = AssertionFailed) isolated k c (c :: others) (k' ← join_loop k pid; Ok (Runs k')).
Proof.
  intros HK Hc Hex. destruct (current_ok k _ c others leaked HK Hc) as (P & HP & _).
  pose proof (join_loop_cases k c others leaked pid P HK Hc Hex HP) as Hj.
  destruct (join_loop k pid) as [k'|e]; run_ok; [|exact Hj].
  destruct Hj as (HK' & Hs & _ & Hm & Ht & _). by eapply goes_on_same.
Qed.

(** Join of a number that is not one of a child answers -1. *)
Lemma join_cases k c others leaked P :
  KInv k [] (c :: others) leaked → p_thread c = current k → pcbs k !! p_pcb c = Some P →
  let pid := s32 (reg_at (regs k) 4) in
  let n := BitMap.numBits (ProcessManager.map (processManager k)) in
  let child := default Threads.NULL (ProcessManager.table (processManager k) !! pid) in
  join k =
    if decide (n ≤ pid) then Err AssertionFailed
    else if decide (0 ≤ pid ∧ child ∈ PCB.kids P) then join_loop k pid
    else Ok (with_regs k (returned (regs k) (-1))).
Proof.
  intros HK Hc HP pid n child. pose proof (good_current _ _ _ _ HK) as Hg.
  destruct (current_ok k _ c others leaked HK Hc) as (P' & HP' & _ & _ & _ & _ & _ & Ecp). simplify_eq.
  unfold join. rewrite Ecp. run_ok. rewrite ReadRegister_ok by done. run_ok. fold pid.
  assert (0 ≤ n) as Hn by apply (ProcessManager.wf_map _ (ki_manager _ _ _ _ HK)).
  destruct (Z.ltb_spec pid 0).
  { rewrite decide_False by lia. rewrite decide_False by lia. by apply return_with_ok. }
  case_decide as Hle; [rewrite getProcess_out; [done|fold n; lia]|].
  rewrite getProcess_in; [|apply HK|fold n; lia]. run_ok. rewrite set_processManager_id. fold child.
  rewrite PCB.isChild_kids. case_bool_decide as Hk.
  - rewrite decide_True by done. done.
  - rewrite decide_False by tauto. simpl. by apply return_with_ok.
Qed.

Lemma join_continues isolated k c others leaked :
  KInv k [] (c :: others) leaked → p_thread c = current k → executing (sys k) →
  continues (λ e, e = AssertionFailed ∧ numProcesses k ≤ call_argument k ∨ e = UseAfterFree ∧ is_dangling k)
    isolated k c (c :: others) (k' ← join k; Ok (Runs k')).
Proof.
  intros HK Hc Hex. destruct (current_ok k _ c others leaked HK Hc) as (P & HP & _).
  rewrite (join_cases k c others leaked P) by done. cbv zeta. case_decide as Hn; [by left|].
  case_decide as Hin.
  - eapply continues_impl; [|by eapply join_loop_continues]. simpl. intros e.
    rewrite decide_True by (unfold numProcesses; lia). intros (-> & Hd & _). by right.
  - eapply goes_on_same; try done. by apply return_with_KInv.
Qed.

(** *** Fork, yield, exit, kill *)

Lemma fork_continues isolated stale_entry stale_pcb stale_PCB stale_registers k c others leaked :
  KInv k [] (c :: others) leaked → p_thread c = current k → executing (sys k) →
  continues (λ e, e = UseAfterFree ∧ fork_dangling k c) isolated k c (c :: others)
    (k' ← fork stale_entry stale_pcb stale_PCB stale_registers k; Ok (Runs k')).
Proof.
  intros HK Hc Hex. pose proof (fork_cases stale_entry stale_pcb stale_PCB stale_registers k c others leaked HK Hc Hex) as Hf.
  destruct (fork _ _ _ _ k) as [k'|e]; run_ok; [|exact Hf].
  destruct Hf as (Hf & _ & _ & Hun & Hsp).
  assert (∀ procs' leaked', KInv k' [] procs' leaked' → goes_on isolated k c (c :: others) k') as Hgo.
  { intros procs' leaked' HK'. exists procs', leaked'. split; [done|]. intros _.
    eapply (untouched_keeps k k' c others leaked); [|intros s Hs; apply Hun; by right].
    intros p Hp _. apply Hsp. by right. }
  destruct Hf; by eapply Hgo.
Qed.

Lemma yield_continues isolated k c others leaked :
  KInv k [] (c :: others) leaked → p_thread c = current k → executing (sys k) →
  continues (λ e, e = UseAfterFree ∧ is_dangling k) isolated k c (c :: others) (k' ← yield k; Ok (Runs k')).
Proof.
  intros HK Hc Hex. destruct (current_ok k _ c others leaked HK Hc) as (P & _ & _ & _ & _ & _ & _ & Ecp).
  unfold yield. rewrite Ecp. run_ok. pose proof (Yield_KInv k (c :: others) leaked KYield HK Hex) as HY.
  destruct (Yield k KYield) as [k'|e]; run_ok.
  - destruct HY as (HK' & Hm & _ & _ & Hs & _). eapply goes_on_same; [done|done|congruence|congruence].
  - exact HY.
Qed.

Lemma exit_continues isolated k c others leaked :
  KInv k [] (c :: others) leaked → p_thread c = current k → executing (sys k) →
  continues (λ _, False) isolated k c (c :: others) (exit k).
Proof.
  intros HK Hc Hex. destruct (exit_KInv k c others leaked HK Hc Hex) as (P & m' & pm & w & o & _ & -> & _ & Hun & _ & _ & Ho).
  destruct o as [k'|]; [|done]. destruct Ho as (_ & HK' & _ & Hm & _ & _ & Hs). exists others, leaked.
  split; [done|]. intros _. eapply (untouched_keeps k k' c others leaked).
  - intros p Hp _. unfold space_of. rewrite Hs. simpl. rewrite lookup_delete_ne; [done|].
    pose proof (ki_spaces _ _ _ _ HK) as Hnd. csimpl in Hnd. apply NoDup_cons in Hnd as [Hnd _].
    intros Heq. apply Hnd. rewrite Heq. by apply list_elem_of_fmap_2.
  - by rewrite Hm.
Qed.

(** The branches of [kill]. *)
Lemma kill_cases k c others leaked :
  KInv k [] (c :: others) leaked → p_thread c = current k →
  let killID := s32 (reg_at (regs k) 4) in
  let n := BitMap.numBits (ProcessManager.map (processManager k)) in
  if decide (0 ≤ killID < n) then
    if decide (killID ∈ p_pid <$> c :: others) then killID = p_pid c → kill k = exit k
    else kill k = Ok (Runs (with_regs k (returned (regs k) (-1))))
  else kill k = Err AssertionFailed.
Proof.
  intros HK Hc killID n. pose proof (good_current _ _ _ _ HK) as Hg.
  destruct (current_ok k _ c others leaked HK Hc) as (P & HP & _ & HPi & _ & _ & _ & Ecp).
  unfold kill. rewrite Ecp. run_ok. rewrite ReadRegister_ok by done. run_ok. fold killID.
  case_decide as Hr; [|by rewrite getProcess_out].
  rewrite getProcess_in; [|apply HK|done]. run_ok. rewrite set_processManager_id.
  case_decide as Hin.
  - intros Heq. rewrite Heq. rewrite (table_proc k _ _ _ c HK) by (by left). simpl.
    assert (0 < p_pcb c < fresh k) as Hp0 by (apply (ki_fresh_pcbs _ _ _ _ HK); by rewrite HP).
    destruct (Z.eqb_spec (p_pcb c) Threads.NULL) as [E|_]; [unfold Threads.NULL in E; lia|].
    by rewrite HPi, Z.eqb_refl.
  - assert (ProcessManager.table (processManager k) !! killID = None) as ->.
    { rewrite (ki_table _ _ _ _ HK). apply not_elem_of_list_to_map_1. by rewrite pid_pcb_fst. }
    simpl. by rewrite return_with_ok.
Qed.

Lemma kill_continues isolated k c others leaked :
  KInv k [] (c :: others) leaked → p_thread c = current k → executing (sys k) →
  continues (λ e, e = AssertionFailed ∧ ¬ (0 ≤ call_argument k < numProcesses k)) isolated k c (c :: others) (kill k).
Proof.
  intros HK Hc Hex. pose proof (kill_cases k c others leaked HK Hc) as Hk. cbv zeta in Hk.
  case_decide as Hr; [|by rewrite Hk]. case_decide as Hin.
  2: { rewrite Hk. eapply goes_on_same; try done. by apply return_with_KInv. }
  destruct (decide (s32 (reg_at (regs k) 4) = p_pid c)) as [E|Hne]; [rewrite Hk by done; eapply continues_impl; [|by eapply exit_continues]; done|].
  apply (list_elem_of_fmap_1 p_pid) in Hin as (p & Hp & [->|Hin]%elem_of_cons); [done|].
  apply elem_of_Permutation in Hin as [rest Hrest].
  assert (KInv k [] (c :: p :: rest) leaked) as HK1 by (eapply KInv_perm; [|done]; by rewrite Hrest).
  destruct (kill_KInv k c p rest leaked HK1 Hc Hex Hp) as
    (P & m' & w & k' & _ & -> & HK' & _ & Hun & _ & _ & Hm & Ht & _ & _ & _ & Hs & _).
  exists (c :: rest), leaked. split; [done|]. intros _ q Hq Hq' Hqc. unfold keeps_memory.
  assert (space_of k' q = space_of k q) as ->.
  { unfold space_of. rewrite Hs, lookup_delete_ne; [done|].
    pose proof (ki_spaces _ _ _ _ HK1) as Hnd. rewrite (fmap_Permutation _ _ _ (Permutation_swap _ _ _)) in Hnd.
    apply NoDup_cons in Hnd as [Hnd _]. intros Heq. apply Hnd. rewrite Heq.
    by apply (list_elem_of_fmap_2 p_space (c :: rest)). }
  rewrite (contents_ext w (mem k')) by congruence. apply Hun, elem_of_app. left. by apply list_elem_of_fmap_2.
Qed.

(** *** Exec *)
Section exec.
Context (HOST_IS_BIG_ENDIAN : bool) (uninit : nat → Z) (uninit_bytes : ∀ n, Machine.is_byte (uninit n))
  (stale_entry : Machine.TranslationEntry) (Open : list Z → option (list Z))
  (files_are_bytes : ∀ name file, Open name = Some file → Forall Machine.is_byte file).

(** The address space of [c] and the memory are replaced. *)
Lemma KInv_space k w s c others leaked :
  KInv k [] (c :: others) leaked → p_thread c = current k →
  Inv w (s :: (space_of k <$> others) ++ leaked) → running w s → pcb s = p_pcb c →
  KInv (set_spaces (set_mem k w) (<[p_space c := s]> (spaces k))) [] (c :: others) leaked.
Proof.
  intros HK Hc HI Hrun Hpc. set (k' := set_spaces _ _). pose proof HK as HK0. open_inv HK.
  pose proof Kspaces as Hnd. csimpl in Hnd. apply NoDup_cons in Hnd as [Hnd _].
  assert (∀ q, q ∈ others → p_space c ≠ p_space q) as Hne.
  { intros q Hq Heq. apply Hnd. rewrite Heq. by apply list_elem_of_fmap_2. }
  assert (space_of k' c = s) as Hsc by (unfold space_of; simpl; by rewrite lookup_insert_eq).
  assert (∀ q, q ∈ others → space_of k' q = space_of k q) as Hsq.
  { intros q Hq. unfold space_of. simpl. by rewrite lookup_insert_ne by (by apply Hne). }
  split; try done.
  - apply Forall_cons in Kprocs as [[HP HS HU] Kprocs]. constructor.
    + split; [done| |done]. exists s. simpl. by rewrite lookup_insert_eq.
    + apply Forall_forall. intros q Hq. destruct (proj1 (Forall_forall _ _) Kprocs q Hq) as [HPq HSq HUq].
      split; [done| |done]. simpl. by rewrite lookup_insert_ne by (by apply Hne).
  - csimpl. rewrite Hsc. assert (space_of k' <$> others = space_of k <$> others) as ->; [|done].
    apply list_fmap_ext. intros i q Hq%list_elem_of_lookup_2. by apply Hsq.
  - intros q Hq [Hq' _]. assert (q = c) as -> by (eapply thread_inj; [exact HK0|done|by left|rewrite Hc; exact Hq']).
    by rewrite Hsc.
  - simpl. eapply below_insert; [exact Kfspaces|lia|]. apply Kfspaces.
    destruct (Forall_inv Kprocs) as [_ (s0 & -> & _) _]. done.
Qed.

Lemma exec_cases k c others leaked :
  KInv k [] (c :: others) leaked → p_thread c = current k → executing (sys k) →
  match exec HOST_IS_BIG_ENDIAN uninit stale_entry Open k with
  | Ok k' => KInv k' [] (c :: others) leaked ∧ executing (sys k') ∧ current k' = current k ∧
      (regs k' = returned (start_registers (numPages (space_of k' c))) 1 ∨
       regs k' = returned (regs k) (-1) ∧ space_of k' c = space_of k c ∧
       untouched (mem k) (mem k') ((space_of k <$> c :: others) ++ leaked))
  | Err e => harmless e
  end.
Proof using uninit_bytes files_are_bytes H0.
  intros HK Hc Hex. destruct (current_ok k _ c others leaked HK Hc) as (P & HP & _ & _ & Hsp & Hpc & Ecs & Ecp).
  unfold exec. rewrite Ecp. run_ok. pose proof (good_current _ _ _ _ HK) as Hg.
  rewrite ReadRegister_ok by done. run_ok. rewrite Ecs. run_ok.
  pose proof (ki_running _ _ _ _ HK c ltac:(by left) (conj Hc Hex)) as Hrun.
  pose proof (Replace_any uninit uninit_bytes HOST_IS_BIG_ENDIAN stale_entry Open files_are_bytes (mem k)
    (space_of k c) _ _ (ki_memory _ _ _ _ HK) Hrun (s32_range (reg_at (regs k) 4))) as HR.
  destruct (Replace _ _ _ _ _ _ _) as [[[[] s'] w]|e]; run_ok; [| |done].
  - destruct HR as (HI & Hrun' & Hp & Hr).
    pose proof (KInv_space k w s' c others leaked HK Hc HI Hrun' ltac:(congruence)) as HK'.
    destruct (return_with_KInv _ 1 _ _ _ HK') as [-> HK2]. split_and!; try done. left.
    rewrite regs_with. unfold regs at 1. simpl. rewrite Hr. do 2 f_equal. unfold space_of. simpl.
    by rewrite lookup_insert_eq.
  - destruct HR as (-> & [HI Hm Hp] & Hun).
    assert (running w (space_of k c)) as Hrun'.
    { destruct Hrun as [H1 H2]. split; [by rewrite Hp|by rewrite Hm]. }
    pose proof (KInv_space k w (space_of k c) c others leaked HK Hc HI Hrun' Hpc) as HK'.
    destruct (return_with_KInv _ (-1) _ _ _ HK') as [-> HK2]. split_and!; try done. right. split_and!; [|..].
    + rewrite regs_with. unfold regs at 1. simpl. by rewrite Hm.
    + unfold space_of at 1. simpl. by rewrite lookup_insert_eq.
    + exact Hun.
Qed.

(** *** Every step *)
Context (stale_pcb : Z) (stale_PCB : PCB.PCB unit) (stale_registers : list Z).

(** A program loaded by exec can overrun its frames, so that exec is the one
    call after which the memory of the others may have changed. *)
Lemma ExceptionHandler_continues k c others leaked which :
  KInv k [] (c :: others) leaked → p_thread c = current k → executing (sys k) →
  continues (call_stops k which) (¬ (which = Machine.SyscallException ∧ call_number k = SC_Exec)) k c (c :: others)
    (ExceptionHandler HOST_IS_BIG_ENDIAN uninit stale_entry stale_pcb stale_PCB stale_registers Open k which).
Proof using uninit_bytes files_are_bytes H0.
  intros HK Hc Hex. destruct (current_ok k _ c others leaked HK Hc) as (P & HP & _ & _ & _ & _ & _ & Ecp).
  unfold ExceptionHandler. pose proof (good_current _ _ _ _ HK) as Hg.
  rewrite ReadRegister_ok by done. run_ok. fold (call_number k).
  case_bool_decide as Hw; [|by apply stop_exception].
  destruct (_ || _); [by eapply goes_on_same|].
  destruct (Z.eqb_spec (call_number k) SC_Fork) as [E|_].
  { eapply continues_impl; [|by eapply fork_continues]. simpl. intros e [-> [Hd|(Q & HQ & Hd)]].
    - apply stop_ready; [rewrite E; by left|done].
    - simplify_eq. by eapply stop_children. }
  destruct (Z.eqb_spec (call_number k) SC_Yield) as [E|_].
  { eapply continues_impl; [|by eapply yield_continues]. simpl. intros e [-> Hd]. apply stop_ready; [rewrite E; by right; left|done]. }
  destruct (Z.eqb_spec (call_number k) SC_Exec) as [E|_].
  { pose proof (exec_cases k c others leaked HK Hc Hex) as He.
    destruct (exec _ _ _ _ k) as [k'|e]; run_ok; [|by apply stop_exec]. destruct He as (HK' & _).
    exists (c :: others), leaked. split; [done|]. intros Hne. by destruct Hne. }
  destruct (Z.eqb_spec (call_number k) SC_Join) as [E|_].
  { eapply continues_impl; [|by eapply join_continues]. simpl. intros e [[-> Hn]|[-> Hd]]; [by apply stop_join|].
    apply stop_ready; [rewrite E; by right; right; left|done]. }
  destruct (_ =? SC_Exit); [eapply continues_impl; [|by eapply exit_continues]; done|].
  destruct (Z.eqb_spec (call_number k) SC_Kill) as [E|_]; [|done].
  eapply continues_impl; [|by eapply kill_continues]. simpl. intros e [-> Hn]. by apply stop_kill.
Qed.

(** The running thread is in its user program, or in the loop of join. *)
Definition in_user k : Prop := executing (sys k) ∧ ∃ U, users k !! current k = Some U ∧ at_kont U = KUser.
Definition in_join k pid : Prop := executing (sys k) ∧ ∃ U, users k !! current k = Some U ∧ at_kont U = KJoin pid.

(** Why a step of the kernel can stop: the instruction fails an assertion of the
    simulator, the exception handler stops, or join, which waits for a process
    that is alive, puts the caller on a ready list after its last element was
    removed. *)
Inductive stops k : error → Prop :=
  | stops_instruction : in_user k → user_step HOST_IS_BIG_ENDIAN (mem k) = Err AssertionFailed → stops k AssertionFailed
  | stops_call which w e : in_user k → user_step HOST_IS_BIG_ENDIAN (mem k) = Ok (Some which, w) →
      call_stops (set_mem k w) which e → stops k e
  | stops_waiting pid : in_join k pid → is_dangling k → is_Some (ProcessManager.table (processManager k) !! pid) →
      stops k UseAfterFree.

(** The next step of the kernel is the system call exec. *)
Definition execs k : Prop :=
  executing (sys k) ∧ ∃ w, user_step HOST_IS_BIG_ENDIAN (mem k) = Ok (Some Machine.SyscallException, w) ∧
       s32 (reg_at (Machine.registers (machine w)) 2) = SC_Exec.

Lemma goes_on_trans k k1 k' c procs (P Q : Prop) :
  (∀ p, p ∈ procs → p ≠ c → keeps_memory k k1 p) → (Q → P) →
  goes_on P k1 c procs k' → goes_on Q k c procs k'.
Proof.
  intros Hk HQP (procs' & leaked' & HK & Hp). exists procs', leaked'. split; [done|].
  intros HQ p Hin Hin' Hne. unfold keeps_memory in *. rewrite (Hp (HQP HQ)) by done. by apply Hk.
Qed.

Lemma step_continues k procs leaked :
  KInv k [] procs leaked →
  ∃ c, c ∈ procs ∧ p_thread c = current k ∧
    continues (λ e, joins_ok k → stops k e) (¬ execs k) k c procs
      (step HOST_IS_BIG_ENDIAN uninit stale_entry stale_pcb stale_PCB stale_registers Open k).
Proof using uninit_bytes files_are_bytes H0.
  intros HK. destruct (current_first _ _ _ HK) as (c & others & Hp & Hc & HK1 & _). exists c.
  split_and!; [rewrite Hp; by left|done|].
  assert (∀ S Q r, continues S Q k c (c :: others) r → continues S Q k c procs r) as Hperm.
  { intros S Q [[k'|]|e]; [|done..]. intros (procs' & leaked' & HK' & Hq). exists procs', leaked'. split; [done|].
    intros HQ p Hin. apply (Hq HQ). by rewrite <- Hp. }
  apply Hperm. clear Hperm. unfold step.
  destruct (t_current _ (ki_sys _ _ _ _ HK1)) as (T & HT & _). rewrite (Threads.find_Some _ _ T) by done. run_ok.
  destruct (Threads.at_frame T) as [f|] eqn:Ef.
  { destruct (resume_KInv k (c :: others) leaked HK1) as
      (T' & f' & k' & HT' & Ef' & E & HK' & _ & _ & _ & _ & Hm & Ht & _ & _ & _ & Hs).
    { intros (T' & HT' & ?). by simplify_eq. }
    unfold current in HT'. simplify_eq. rewrite E. run_ok. by eapply goes_on_same. }
  assert (executing (sys k)) as Hex by (by exists T).
  destruct (user_ok k _ _ _ c HK1 ltac:(by left)) as (U & _ & Hu & _). rewrite Hc in Hu. rewrite Hu. run_ok.
  assert (∀ x, at_kont U = x → ∃ U, users k !! current k = Some U ∧ at_kont U = x) as Hat by (intros x <-; apply find_users in Hu; by exists U).
  destruct (at_kont U) as [| |pid] eqn:Ek.
  - assert (in_user k) as Hin by (split; [done|by apply Hat]). unfold run_user, execs. pose proof (user_step_KInv HOST_IS_BIG_ENDIAN k c others leaked HK1 Hc Hex) as Hs.
    destruct (user_step HOST_IS_BIG_ENDIAN (mem k)) as [[[which|] w]|e] eqn:Es; run_ok; [..|subst e; intros _; by apply stops_instruction].
    + destruct Hs as [HK2 Hun]. pose proof (ExceptionHandler_continues (set_mem k w) c others leaked which HK2 Hc Hex) as He.
      destruct (ExceptionHandler _ _ _ _ _ _ _ _ which) as [[k'|]|e]; [|done|intros _; by eapply stops_call].
      eapply goes_on_trans; [|clear He|exact He].
      * intros p Hp' Hne. by eapply (untouched_keeps k (set_mem k w) c others leaked (c :: others)).
      * intros Hne [-> E]. apply Hne. split; [done|]. by exists w.
    + destruct Hs as [HK2 Hun]. exists (c :: others), leaked. split; [done|]. intros _.
      by eapply (untouched_keeps k (set_mem k w) c others leaked (c :: others)).
  - destruct (set_kont_ok k c others leaked KUser HK1 Hc) as (U' & _ & -> & HK2). run_ok.
    rewrite update_ok by (by eapply good_current). run_ok.
    eapply goes_on_same; [|done..]. apply KInv_regs; [done|]. apply good_advanced. by eapply good_current.
  - eapply continues_impl; [|by eapply join_loop_continues]. simpl. intros e He Hj.
    destruct (Hat _ eq_refl) as (U0 & HU0 & E0). rewrite decide_True in He by (by eapply Hj).
    destruct He as (-> & Hd & Hs). by eapply stops_waiting; [split; [done|by exists U0]|..].
Qed.

(** *** A thread that does not run *)

Section waits.
Let kernel_step := step HOST_IS_BIG_ENDIAN uninit stale_entry stale_pcb stale_PCB stale_registers Open.

(** The kernel goes from [k] to [k'] in steps of threads other than [t]. *)
Inductive runs_without (t : Z) k : kernel A → Prop :=
  | runs_none : runs_without t k k
  | runs_step k1 k2 : runs_without t k k1 → current k1 ≠ t → kernel_step k1 = Ok (Runs k2) → runs_without t k k2.

(** A thread that is switched to is about to leave [Yield], or to begin. *)
Lemma step_switches k procs leaked k' :
  KInv k [] procs leaked → kernel_step k = Ok (Runs k') → current k' ≠ current k → ¬ executing (sys k').
Proof using uninit_bytes files_are_bytes H0.
  intros HK E Hne. destruct (step_continues k procs leaked HK) as (c & _ & _ & Hs). fold kernel_step in Hs. rewrite E in Hs.
  destruct Hs as (procs' & leaked' & HK' & _).
  assert (switches k k') as [?|Hl]; [|done|].
  - unfold kernel_step, step in E. bind_inv. case_match.
    { destruct (resume_KInv k procs leaked HK) as (T & f' & k1 & HT & Hf & Er & _ & _ & Hc & _).
      { intros (T & HT & Hf). match goal with H : Threads.find _ _ = Ok _ |- _ => unfold Threads.find, current in H; rewrite HT in H end.
        simplify_eq. }
      match goal with H : Threads.find _ _ = Ok _ |- _ => rewrite (Threads.find_Some _ _ T HT) in H end. simplify_eq.
      rewrite Er in E. bind_inv. by left. }
    bind_inv. case_match.
    + unfold run_user in E. split_pairs. case_match; [by apply ExceptionHandler_switches in E|simplify_eq].
    + bind_inv. match goal with H : update _ = Ok _ |- _ => apply update_mem in H as [? ->] end.
      match goal with H : set_kont _ _ = Ok _ |- _ => apply set_kont_sys in H as Hk end. left. unfold current. simpl. by rewrite Hk.
    + bind_inv. by eapply join_loop_switches.
  - intros (T & HT & Hf). destruct (t_current _ (ki_sys _ _ _ _ HK')) as (T' & HT' & _ & _ & [[_ Hl']|[[Hr|Hr] _]]); simplify_eq; congruence.
Qed.

(** Its fields stay as they are, and when it is its turn again it has not begun
    to execute. *)
Lemma runs_without_ok t k k' procs leaked :
  KInv k [] procs leaked → t < fresh k → runs_without t k k' →
  (∃ procs' leaked', KInv k' [] procs' leaked') ∧ t < fresh k' ∧ users k' !! t = users k !! t ∧
  (current k ≠ t → current k' = t → ¬ executing (sys k')).
Proof using uninit_bytes files_are_bytes H0.
  intros HK Ht Hr. induction Hr as [|k1 k2 _ IH Hne E]; [by eauto 10|].
  destruct IH as ((procs1 & leaked1 & HK1) & Ht1 & Hu1 & _).
  assert (∀ x, fresh k1 ≤ x → x ≠ t) as Hnew by lia.
  pose proof (step_evolves (λ x, x ≠ t) HOST_IS_BIG_ENDIAN uninit stale_entry stale_pcb stale_PCB stale_registers Open k1
    (Runs k2) Hne Hnew E) as [Hu2 Hf2 _ _].
  destruct (step_continues k1 procs1 leaked1 HK1) as (c & _ & _ & Hs). fold kernel_step in Hs. rewrite E in Hs.
  destruct Hs as (procs2 & leaked2 & HK2 & _). split_and!; [by eauto|lia| |].
  - rewrite Hu2, Hu1; [done|]. by intros ?.
  - intros _ Hc. eapply step_switches; [exact HK1|exact E|congruence].
Qed.
End waits.

(** *** The first process *)

(** The kernel before [StartProcess]: one thread, no process. *)
Record boots k : Prop := mkBoots {
  bt_sys : TInv (sys k);
  bt_alone : live (sys k) = [current k];
  bt_executing : executing (sys k);
  bt_user : is_Some (users k !! current k);
  bt_joins : joins_ok k;
  bt_manager : ProcessManager.wf (processManager k);
  bt_table : ProcessManager.table (processManager k) = ∅;
  bt_pcbs : pcbs k = ∅;
  bt_spaces : spaces k = ∅;
  bt_memory : Inv (mem k) [];
  bt_fresh : 0 < fresh k ∧ below (fresh k) (Threads.threads (sys k)) ∧ below (fresh k) (users k);
}.

Lemma KInv_first k U pm x P sp s w :
  boots k → users k !! current k = Some U → x = fresh k → sp = fresh k + 1 →
  ProcessManager.wf pm → ProcessManager.table pm = {[ PCB.getID P := x ]} →
  PCB.getThread P = current k → PCB.getParent P = Threads.NULL → PCB.kids P = [] →
  Inv w [s] → running w s → pcb s = x →
  KInv (mkKernel w (sys k) pm {[ x := P ]} {[ sp := s ]}
          (<[current k := mkUser sp (userRegisters U) (at_kont U)]> (users k)) (fresh k + 1 + 1)) []
    [mkProc (PCB.getID P) x (current k) sp] [].
Proof.
  intros [HT Hl Hex HU _ Hwf Ht Hp Hs HI (Hf & Hft & Hfu)] HUs -> -> Hwf' Htab HPt HPp HPk HI' Hrun Hpc.
  set (k' := mkKernel _ _ _ _ _ _ _). set (c := mkProc _ _ _ _).
  assert (space_of k' c = s) as Hsc by (unfold space_of; simpl; by rewrite lookup_singleton_eq).
  assert (0 < current k < fresh k) as Hc by (by apply Hfu).
  split; try done.
  - simpl. by rewrite Hl.
  - constructor; [|done]. split.
    + exists P. simpl. by rewrite lookup_singleton_eq.
    + exists s. simpl. by rewrite lookup_singleton_eq.
    + eexists. simpl. rewrite lookup_insert_eq. split_and!; [done|done|]. left. by split.
  - simpl. apply NoDup_singleton.
  - simpl. apply NoDup_singleton.
  - simpl. rewrite dom_singleton_L. set_solver.
  - simpl. split.
    + rewrite lookup_singleton_ne; [done|]. unfold Threads.NULL. lia.
    + intros p Q [<- <-]%lookup_singleton_Some. rewrite HPk. constructor.
    + intros p Q q [<- <-]%lookup_singleton_Some. rewrite HPk. split; [by intros ?%elem_of_nil|].
      intros (C & [<- <-]%lookup_singleton_Some & E). rewrite HPp in E. unfold Threads.NULL in E. lia.
    + intros p Q [<- <-]%lookup_singleton_Some. by left.
  - simpl. apply NoDup_singleton.
  - csimpl. by rewrite Hsc.
  - intros p ->%list_elem_of_singleton _. by rewrite Hsc.
  - simpl. lia.
  - simpl. eapply below_mono; [exact Hft|lia].
  - intros x [Q HQ]. simpl in HQ. apply lookup_singleton_Some in HQ as [<- _]. simpl. lia.
  - intros x [Q HQ]. simpl in HQ. apply lookup_singleton_Some in HQ as [<- _]. simpl. lia.
  - simpl. eapply below_insert; [exact Hfu|lia|lia].
Qed.

Lemma StartProcess_cases k name :
  boots k →
  match StartProcess HOST_IS_BIG_ENDIAN uninit stale_entry stale_pcb stale_PCB Open k name with
  | Ok (true, k') => ∃ c, KInv k' [] [c] [] ∧ p_thread c = current k' ∧ executing (sys k') ∧
      regs k' = start_registers (numPages (space_of k' c))
  | Ok (false, k') => Open name = None ∨ BitMap.numBits (ProcessManager.map (processManager k)) = 0
  | Err e => harmless e ∧ ∃ file, Open name = Some file ∧
      AddrSpace_new HOST_IS_BIG_ENDIAN uninit stale_entry stale_pcb (mem k) file = Err e
  end.
Proof using uninit_bytes files_are_bytes H0.
  intros HB. unfold StartProcess. destruct (Open name) as [file|] eqn:Eo; [|by left].
  pose proof (files_are_bytes name file Eo) as Hb.
  destruct (ProcessManager.getPID_ok (processManager k) (bt_manager k HB)) as (pid & pm & -> & Hwf & Hpid).
  run_ok. rewrite (bt_table k HB) in Hpid.
  destruct Hpid as [(-> & _ & Hall)|(Hr & _ & Htab)].
  { right. simpl. pose proof (ProcessManager.wf_map _ (bt_manager k HB)) as [Hn _ _ _].
    destruct (decide (BitMap.numBits (ProcessManager.map (processManager k)) = 0)) as [|Hne]; [done|].
    destruct (Hall 0 ltac:(lia)) as [x Hx]. by rewrite lookup_empty in Hx. }
  destruct (Z.ltb_spec pid 0); [lia|]. unfold alloc. cbv zeta. cbn [fresh set_processManager].
  set (P := PCB.set (PCB.PCB_new _ tt stale_PCB) pid Threads.NULL).
  cbn [pcbs processManager put_pcb set_pcbs set_processManager].
  rewrite (bt_pcbs k HB). change (<[fresh k := P]> ∅) with ({[ fresh k := P ]} : gmap Z (PCB.PCB unit)).
  rewrite insert_empty in Htab.
  assert (pid ∈ ProcessManager.pids pm) as Hin.
  { apply (table_range pm pid). by rewrite Htab, lookup_singleton_eq. }
  destruct (ProcessManager.addPCB_ok {[ fresh k := P ]} pm (fresh k) P) as (pm' & -> & Hwf' & Ht');
    [done|by rewrite lookup_singleton_eq|by apply ProcessManager.pids_range|]. run_ok.
  rewrite decide_True in Ht' by done. rewrite Htab, insert_singleton_eq in Ht'.
  cbn [mem set_processManager put_pcb set_pcbs fresh].
  pose proof (AddrSpace_new_any uninit uninit_bytes HOST_IS_BIG_ENDIAN stale_entry stale_pcb (mem k) [] file
    (bt_memory k HB) Hb) as Hn.
  destruct (AddrSpace_new _ _ _ _ _ file) as [[s w]|e] eqn:En; run_ok; [|split; [done|]; by exists file].
  apply (Inv_set_pcb w s (fresh k)) in Hn. set (s' := set_pcb s (fresh k)) in *.
  destruct (bt_user k HB) as [U HU]. destruct (bt_executing k HB) as (T & HT & _).
  erewrite (find_user _ _ T U); [run_ok|exact HT|exact HU].
  cbn [mem set_processManager put_pcb set_pcbs put_user set_users set_spaces set_mem].
  pose proof (inv_world _ _ Hn) as Hw. rewrite InitRegisters_ok by apply Hw. run_ok.
  set (w' := AddrSpace.set_machine w _). assert (Inv w' [s']) as HI'
    by (apply inv_machine; [done|apply start_registers_wf|apply Hw|apply Hw]).
  destruct (RestoreState_ok w' [s'] s' HI') as [HI2 Hrun].
  exists (mkProc pid (fresh k) (current k) (fresh k + 1)). split_and!; [|done|apply (bt_executing k HB)|].
  - pose proof (KInv_first k U pm' (fresh k) P (fresh k + 1) s' (RestoreState w' s') HB HU eq_refl eq_refl
      Hwf' Ht' eq_refl eq_refl eq_refl HI2 Hrun eq_refl) as HK. simpl. rewrite (bt_spaces k HB). exact HK.
  - unfold regs, space_of. simpl. by rewrite lookup_insert_eq.
Qed.

End exec.

End state.

End Kernel.
