(* ===== verification/KernelTheorems.v ===== *)
(** * The kernel: the theorems

    The properties of the system calls and of the kernel as a whole, and the
    kernels they are tried on. *)

From stdpp Require Import base list gmap.
From S2P Require Import Prelude Lists BitMap Machine Mips Threads Managers Frames AddrSpace Spaces Syscalls Processes Lifecycle Forking Steps Kernel.
Import Steps Pages Frames AddrSpace Spaces Syscalls UserThreads Family Loading Processes Lifecycle Forking Kernel.

Module KernelTheorems.

Section theorems.
Context {A : Type} `{PageAllocatorLaws A}.
Context (HOST_IS_BIG_ENDIAN : bool) (uninit : nat → Z) (uninit_bytes : ∀ n, Machine.is_byte (uninit n))
  (stale_entry : Machine.TranslationEntry) (Open : list Z → option (list Z))
  (files_are_bytes : ∀ name file, Open name = Some file → Forall Machine.is_byte file)
  (stale_pcb : Z) (stale_PCB : PCB.PCB unit) (stale_registers : list Z).
Implicit Types (k : kernel A) (p c : proc) (procs others : list proc) (leaked : list AddrSpace).

Lemma saved_inj U rs rs' : saved U rs → saved U rs' → rs = rs'.
Proof.
  assert (∀ l, good_regs l → u32 <$> (s32 <$> l) = l) as Hid.
  { intros l (_ & Hu & _). rewrite <- list_fmap_compose. rewrite <- (list_fmap_id l) at 2.
    apply Forall_fmap_ext_1. eapply Forall_impl; [exact Hu|]. intros x Hx. simpl. by rewrite u32_s32, u32_id. }
  intros [Hg Hs] [Hg' Hs']. rewrite <- (Hid rs Hg), <- (Hid rs' Hg'). congruence.
Qed.

(** C1: the kernel is safe.  In every state that the kernel reaches after it
    started a program, whatever the programs do, the processes are as they
    should be ([KInv]): every live thread belongs to one process, with one PCB,
    one number, one address space, and frames of its own; parents and children
    agree; and the registers of every process that is not running are saved.
    The next step keeps it so or stops, and it stops only for one of the reasons
    of [stops] and [call_stops], each tied to what the running thread does: the
    instruction fails an assertion of the simulator; it raises an exception other
    than a system call; kill or join gets a number that is not in the process
    table; exec fails an assertion or overruns a buffer while it loads; or fork,
    yield or join appends to a list whose last element was removed before.  It
    never follows a null pointer, no other call leaves an array, and every loop
    ends. *)
Theorem kernel_invariant k0 name k1 k :
  boots k0 →
  StartProcess HOST_IS_BIG_ENDIAN uninit stale_entry stale_pcb stale_PCB Open k0 name = Ok (true, k1) →
  reachable HOST_IS_BIG_ENDIAN uninit stale_entry stale_pcb stale_PCB stale_registers Open k1 k →
  ∃ procs leaked, KInv k [] procs leaked ∧
    match step HOST_IS_BIG_ENDIAN uninit stale_entry stale_pcb stale_PCB stale_registers Open k with
    | Ok _ => True
    | Err e => stops HOST_IS_BIG_ENDIAN k e
    end.
Proof using uninit_bytes files_are_bytes H0.
  intros HB E Hr. assert (joins_ok k ∧ ∃ procs leaked, KInv k [] procs leaked) as (Hj & procs & leaked & HK).
  { induction Hr as [|k k' Hr IH Es].
    - split; [eapply (evolves_joins_ok (λ _, True)); [by eapply StartProcess_evolves|apply HB]|].
      pose proof (StartProcess_cases HOST_IS_BIG_ENDIAN uninit uninit_bytes stale_entry Open files_are_bytes
        stale_pcb stale_PCB k0 name HB) as Hs. rewrite E in Hs. destruct Hs as (c & HK & _). eauto.
    - destruct IH as (Hj & procs & leaked & HK).
      split; [eapply (evolves_joins_ok (λ _, True)); [by eapply (step_evolves _ _ _ _ _ _ _ _ _ (Runs k'))|done]|].
      destruct (step_continues HOST_IS_BIG_ENDIAN uninit uninit_bytes stale_entry Open files_are_bytes
        stale_pcb stale_PCB stale_registers k procs leaked HK) as (c & _ & _ & Hs).
      rewrite Es in Hs. destruct Hs as (procs' & leaked' & HK' & _). eauto. }
  exists procs, leaked. split; [done|].
  destruct (step_continues HOST_IS_BIG_ENDIAN uninit uninit_bytes stale_entry Open files_are_bytes
    stale_pcb stale_PCB stale_registers k procs leaked HK) as (c & _ & _ & Hs).
  destruct (step _ _ _ _ _ _ _ k); [done|by apply Hs].
Qed.

(** C2: processes are isolated.  A step of the kernel, with the system call it
    makes and the switch that follows, changes the memory of the running process
    only: every other process that is still alive finds its memory as it left
    it.  The one exception is exec, which can overrun the frames of the process
    it loads. *)
Theorem processes_isolated k k' procs leaked :
  KInv k [] procs leaked →
  step HOST_IS_BIG_ENDIAN uninit stale_entry stale_pcb stale_PCB stale_registers Open k = Ok (Runs k') →
  ¬ execs HOST_IS_BIG_ENDIAN k →
  ∃ c procs' leaked', c ∈ procs ∧ p_thread c = current k ∧ KInv k' [] procs' leaked' ∧
    ∀ p, p ∈ procs → p ∈ procs' → p ≠ c →
      contents (mem k') (space_of k' p) = contents (mem k) (space_of k p).
Proof using uninit_bytes files_are_bytes H0.
  intros HK E Hx.
  destruct (step_continues HOST_IS_BIG_ENDIAN uninit uninit_bytes stale_entry Open files_are_bytes
    stale_pcb stale_PCB stale_registers k procs leaked HK) as (c & Hc & Hcur & Hs).
  rewrite E in Hs. destruct Hs as (procs' & leaked' & HK' & Hk). exists c, procs', leaked'. split_and!; try done.
  intros p Hp Hp' Hne. by apply Hk.
Qed.

(** C3: Fork.  The new process gets a copy of the address space, as fork of UNIX
    does; userprog/syscall.h announces a thread in the same address space.
    A fork that returns has one of three outcomes ([forked]): there
    are not enough free frames, and r2 is -1; all process numbers are in use,
    r2 is -1, and the frames of the copy are lost; or there is a new process,
    a child of the caller, with a free number, which is in r2, a copy of the
    memory, and the registers of the caller with the program counter at the
    address in r4.  Memory that existed before is as it was.  Fork stops only
    when it appends to a list whose last element was removed. *)
Theorem fork_duplicates_process k c others leaked :
  KInv k [] (c :: others) leaked → p_thread c = current k → executing (sys k) →
  match fork stale_entry stale_pcb stale_PCB stale_registers k with
  | Ok k' => forked k k' c others leaked ∧ current k' = current k ∧ executing (sys k') ∧
      untouched (mem k) (mem k') ((space_of k <$> c :: others) ++ leaked)
  | Err e => e = UseAfterFree ∧ fork_dangling k c
  end.
Proof.
  intros HK Hc Hex. pose proof (fork_cases stale_entry stale_pcb stale_PCB stale_registers k c others leaked HK Hc Hex) as Hf.
  destruct (fork _ _ _ _ k) as [k'|e]; [|done]. by destruct Hf as (? & ? & ? & ? & _).
Qed.

(** C4: Exit.  The frames of the process, and no others, are free again, its
    number is free, its PCB is deleted, its children have no parent, its parent
    has one child fewer and gets the exit code in r4; the other processes keep
    their memory, and one of them goes on, or the machine halts if there is
    none. *)
Theorem exit_frees_process k c others leaked P :
  KInv k [] (c :: others) leaked → p_thread c = current k → executing (sys k) → pcbs k !! p_pcb c = Some P →
  ∃ k', exit k = Ok (if decide (others = []) then Halts k' else Runs k') ∧
    frames (memoryManager (mem k')) = frames (memoryManager (mem k)) ∖ list_to_set (owned (mem k) (space_of k c)) ∧
    ProcessManager.table (processManager k') = list_to_map ((λ p, (p_pid p, p_pcb p)) <$> others) ∧
    (∀ x X, pcbs k !! x = Some X → x ≠ p_pcb c → ∃ X', pcbs k' !! x = Some X' ∧
       PCB.getParent X' = (if decide (x ∈ PCB.kids P) then Threads.NULL else PCB.getParent X) ∧
       (x = PCB.getParent P → PCB.kids X' = filter (λ y, y ≠ p_pcb c) (PCB.kids X) ∧
                              PCB.getCode X' = s32 (reg_at (regs k) 4))) ∧
    pcbs k' !! p_pcb c = None ∧ spaces k' = delete (p_space c) (spaces k) ∧
    untouched (mem k) (mem k') ((space_of k <$> others) ++ leaked) ∧
    (others ≠ [] → KInv k' [] others leaked ∧ current k' ∈ p_thread <$> others).
Proof.
  intros HK Hc Hex HP.
  destruct (exit_KInv k c others leaked HK Hc Hex) as (P' & m' & pm & w & o & HP' & E & Hch & Hun & Hfr & Htab & Ho).
  simplify_eq. assert (∃ k', o = (if decide (others = []) then Halts k' else Runs k') ∧
    same_processes (taken_apart k c m' pm w) k' ∧ (others ≠ [] → KInv k' [] others leaked)) as (k' & -> & Hs & HK').
  { destruct o as [k'|k']; exists k'; [destruct Ho as (Hne & HK' & _ & Hs)|destruct Ho as (-> & Hs)].
    - by rewrite decide_False.
    - by rewrite decide_True. }
  exists k'. destruct Hs as (Hm & Hp & Hpm & Hsp). rewrite Hm, Hp, Hpm, Hsp. simpl. split_and!; try done.
  - intros x X HX Hne. rewrite lookup_delete_ne by done. specialize (Hch x). rewrite HX in Hch.
    inversion Hch as [? X' Hx EX|]; subst. exists X'. split; [done|]. split; [apply Hx|]. intros ->.
    pose proof (ch_kids _ _ _ _ _ _ Hx) as Hk. pose proof (ch_code _ _ _ _ _ _ Hx) as Hcd.
    rewrite decide_True in Hk by done. by rewrite decide_True in Hcd by done.
  - apply lookup_delete_eq.
  - intros Hne. split; [by apply HK'|]. specialize (HK' Hne). rewrite (ki_threads _ _ _ _ HK'). by left.
Qed.

(** C5: Kill.  A number outside the table stops the kernel; one that no process
    has gives -1; the caller's own number is exit; and the number of another
    process removes that process: its frames, and no others, are free again, it
    is off the ready list, and the caller goes on with 0 in r2. *)
Theorem kill_removes_process k c others leaked :
  KInv k [] (c :: others) leaked → p_thread c = current k → executing (sys k) →
  let killID := s32 (reg_at (regs k) 4) in
  let n := BitMap.numBits (ProcessManager.map (processManager k)) in
  (¬ (0 ≤ killID < n) → kill k = Err AssertionFailed) ∧
  (0 ≤ killID < n → (killID ∉ p_pid <$> c :: others) →
    kill k = Ok (Runs (with_regs k (returned (regs k) (-1))))) ∧
  (killID = p_pid c → kill k = exit k) ∧
  (∀ p rest, others ≡ₚ p :: rest → killID = p_pid p →
    ∃ k', kill k = Ok (Runs k') ∧ KInv k' [] (c :: rest) leaked ∧ current k' = current k ∧
      regs k' = returned (regs k) 0 ∧ pcbs k' !! p_pcb p = None ∧
      (∀ q, q ∈ c :: rest → contents (mem k') (space_of k q) = contents (mem k) (space_of k q)) ∧
      frames (memoryManager (mem k')) =
        frames (memoryManager (mem k)) ∖ list_to_set (owned (mem k) (space_of k p))).
Proof.
  intros HK Hc Hex killID n. pose proof (kill_cases k c others leaked HK Hc) as Hk. cbv zeta in Hk.
  fold killID n in Hk. split_and!.
  - intros Hr. by rewrite decide_False in Hk.
  - intros Hr Hni. by rewrite decide_True, decide_False in Hk.
  - intros E. rewrite decide_True, decide_True in Hk; [by apply Hk|rewrite E; by left|].
    rewrite E. apply (table_range (processManager k)). rewrite (table_proc k _ _ _ c HK) by (by left). done.
  - intros p rest Hp E. assert (KInv k [] (c :: p :: rest) leaked) as HK1 by (eapply KInv_perm; [|done]; by rewrite Hp).
    destruct (kill_KInv k c p rest leaked HK1 Hc Hex E) as
      (P & m' & w & k' & _ & -> & HK' & _ & Hun & Hfr & Hpc & Hm & Ht & Hmm & Hcur & _ & _ & Hregs).
    exists k'. split_and!; try done.
    + rewrite Hpc. apply lookup_delete_eq.
    + intros q Hq. rewrite (contents_ext w (mem k')) by congruence. apply Hun, elem_of_app. left.
      by apply list_elem_of_fmap_2.
    + by rewrite Hmm.
Qed.

(** A round of the loop of join, for a number that another process has: the
    caller gives up the processor and stays in the loop. *)
Lemma join_loop_waits k c others leaked p :
  KInv k [] (c :: others) leaked → p_thread c = current k → executing (sys k) → p ∈ others → ¬ is_dangling k →
  ∃ k', join_loop k (p_pid p) = Ok k' ∧ KInv k' [] (c :: others) leaked ∧ current k' ≠ current k ∧
    ∃ U, users k' !! current k = Some U ∧ saved U (regs k) ∧ at_kont U = KJoin (p_pid p).
Proof.
  intros HK Hc Hex Hp Hnd. assert (p ∈ c :: others) as Hin by (by right).
  pose proof (table_proc k _ _ _ p HK Hin) as Htab.
  destruct (table_range (processManager k) (p_pid p)) as [Hr _]; [by rewrite Htab|].
  unfold join_loop. rewrite getProcess_in by (done || apply HK). rewrite Htab. run_ok.
  rewrite set_processManager_id. simpl.
  destruct (proj1 (Forall_forall _ _) (ki_procs _ _ _ _ HK) p Hin) as [(Q & HQ & _) _ _].
  assert (0 < p_pcb p < fresh k) as Hp0 by (apply (ki_fresh_pcbs _ _ _ _ HK); by rewrite HQ).
  destruct (Z.eqb_spec (p_pcb p) Threads.NULL) as [E0|_]; [unfold Threads.NULL in E0; lia|]. cbn [negb].
  pose proof (Yield_KInv k (c :: others) leaked (KJoin (p_pid p)) HK Hex) as HY.
  destruct (Yield k (KJoin (p_pid p))) as [k'|e]; [|by destruct HY].
  destruct HY as (HK' & _ & _ & _ & _ & Hsw). exists k'.
  pose proof (ki_threads _ _ _ _ HK) as Hth. unfold live in Hth. csimpl in Hth. rewrite Hc in Hth.
  apply Permutation_cons_inv in Hth.
  assert (p_thread p ∈ Threads.ids (Threads.readyList (sys k))) as Hrdy by (rewrite <- Hth; by apply list_elem_of_fmap_2).
  destruct Hsw as (_ & Hhd & HU); [intros E; by rewrite E in Hrdy; apply elem_of_nil in Hrdy|].
  split_and!; try done. intros E. rewrite E in Hhd. apply in_head in Hhd.
  pose proof (t_nodup _ (ki_sys _ _ _ _ HK)) as Hnd'. unfold live in Hnd'. by apply NoDup_cons in Hnd' as [? _].
Qed.

(** A step of a thread that is in the loop of join. *)
Lemma step_in_join k pid :
  in_join k pid →
  step HOST_IS_BIG_ENDIAN uninit stale_entry stale_pcb stale_PCB stale_registers Open k = (k' ← join_loop k pid; Ok (Runs k')).
Proof.
  intros ((T & HT & Hf) & U & HU & Hk). unfold step. rewrite (Threads.find_Some _ (current k) T HT). run_ok. rewrite Hf.
  assert (user k (current k) = Ok U) as -> by (by eapply find_user). run_ok. by rewrite Hk.
Qed.

(** C6: Join.  A number that is not one of a child gives -1, and one past the
    table stops the kernel.  Join of a child that is alive gives up the
    processor, and the caller waits inside join, as long as the ready list is
    sound.  It goes on waiting while any process has this number, be it the
    child or a later process to which the number was given again; when no
    process has it, the next step of the caller returns from join, with the
    exit code that its own PCB then holds in r2: that of the child that exited
    last, whichever number was asked for. *)
Theorem join_waits_for_child k c others leaked P :
  KInv k [] (c :: others) leaked → p_thread c = current k → executing (sys k) → pcbs k !! p_pcb c = Some P →
  let pid := call_argument k in
  let kernel_step := step HOST_IS_BIG_ENDIAN uninit stale_entry stale_pcb stale_PCB stale_registers Open in
  let waits k' n := KInv k' [] (c :: others) leaked ∧ current k' ≠ current k ∧
    ∃ U, users k' !! current k = Some U ∧ saved U (regs k) ∧ at_kont U = KJoin n in
  (numProcesses k ≤ pid → join k = Err AssertionFailed) ∧
  (pid < numProcesses k → (∀ p, p ∈ others → p_pid p = pid → p_pcb p ∉ PCB.kids P) →
    join k = Ok (with_regs k (returned (regs k) (-1)))) ∧
  (∀ p, p ∈ others → p_pid p = pid → p_pcb p ∈ PCB.kids P → ¬ is_dangling k → ∃ k', join k = Ok k' ∧ waits k' pid) ∧
  (∀ p, p ∈ others → in_join k (p_pid p) → ¬ is_dangling k → ∃ k', kernel_step k = Ok (Runs k') ∧ waits k' (p_pid p)) ∧
  (∀ n, in_join k n → 0 ≤ n < numProcesses k → (n ∉ p_pid <$> c :: others) →
    ∃ k', kernel_step k = Ok (Runs k') ∧
      KInv k' [] (c :: others) leaked ∧ current k' = current k ∧ executing (sys k') ∧
      regs k' = returned (regs k) (PCB.getCode P)).
Proof.
  intros HK Hc Hex HP pid kernel_step waits. pose proof (join_cases k c others leaked P HK Hc HP) as Hj. cbv zeta in Hj.
  fold (numProcesses k) (call_argument k) in Hj. fold pid in Hj. split_and!.
  - intros Hn. by rewrite decide_True in Hj.
  - intros Hn Hno. rewrite decide_False in Hj by lia. rewrite decide_False in Hj; [done|]. intros [Hp Hin].
    destruct (ProcessManager.table (processManager k) !! pid) as [x|] eqn:Et; simpl in Hin.
    + rewrite (ki_table _ _ _ _ HK) in Et. apply elem_of_list_to_map_2 in Et.
      apply (list_elem_of_fmap_1 pid_pcb (c :: others)) in Et as (q & [= Eq ->] & [->|Hq]%elem_of_cons).
      * apply (fam_kids _ (ki_family _ _ _ _ HK) _ _ _ HP) in Hin as (C & HC & Hpar).
        destruct (fam_parent _ (ki_family _ _ _ _ HK) _ _ HC) as [Hnull|[_ ?]]; [|done].
        pose proof (fam_null _ (ki_family _ _ _ _ HK)). congruence.
      * by eapply Hno.
    + apply (fam_kids _ (ki_family _ _ _ _ HK) _ _ _ HP) in Hin as (C & HC & _).
      pose proof (fam_null _ (ki_family _ _ _ _ HK)). congruence.
  - intros p Hp Hpid Hkid Hnd. pose proof (table_proc k _ _ _ p HK ltac:(by right)) as Htab. rewrite Hpid in Htab.
    destruct (table_range (processManager k) pid) as [Hr _]; [by rewrite Htab|]. fold (numProcesses k) in Hr.
    rewrite decide_False in Hj by lia. rewrite Htab in Hj. rewrite decide_True in Hj by (split; [lia|done]).
    rewrite Hj, <- Hpid. by apply join_loop_waits.
  - intros p Hp Hin Hnd. unfold kernel_step. rewrite (step_in_join k (p_pid p) Hin).
    destruct (join_loop_waits k c others leaked p HK Hc Hex Hp Hnd) as (k' & -> & Hw). by exists k'.
  - intros n Hin Hr Hni. unfold kernel_step. rewrite (step_in_join k n Hin).
    pose proof (join_loop_cases k c others leaked n P HK Hc Hex HP) as Hl.
    assert (ProcessManager.table (processManager k) !! n = None) as Ht.
    { rewrite (ki_table _ _ _ _ HK). apply not_elem_of_list_to_map_1. by rewrite pid_pcb_fst. }
    destruct (join_loop k n) as [k'|e]; run_ok.
    + destruct Hl as (HK' & _ & _ & _ & _ & Hret). destruct (Hret Ht) as (? & ? & ?). exists k'. by split_and!.
    + rewrite decide_True in Hl by done. destruct Hl as (_ & _ & Hs). rewrite Ht in Hs. by destruct Hs.
Qed.

(** C7: a process that gives up the processor finds its registers again.
    [Yield] saves them and hands the processor to another process.  After any
    number of steps of the others, whatever these do, when the process is
    switched to its next step puts its registers and its page table into the
    machine again, leaves memory alone, and it goes on where it called
    [Yield]. *)
Theorem switch_restores_registers k c others leaked x k' k2 :
  KInv k [] (c :: others) leaked → p_thread c = current k → executing (sys k) → others ≠ [] →
  Yield k x = Ok k' →
  runs_without HOST_IS_BIG_ENDIAN uninit stale_entry Open stale_pcb stale_PCB stale_registers (current k) k' k2 →
  current k2 = current k →
  current k' ≠ current k ∧
  ∃ k3, step HOST_IS_BIG_ENDIAN uninit stale_entry stale_pcb stale_PCB stale_registers Open k2 = Ok (Runs k3) ∧
    current k3 = current k ∧ executing (sys k3) ∧ regs k3 = regs k ∧
    (∃ U, users k3 !! current k = Some U ∧ space U = p_space c ∧ at_kont U = x) ∧
    running (mem k3) (space_of k3 c) ∧ memory (mem k3) = memory (mem k2).
Proof using uninit_bytes files_are_bytes H0.
  intros HK Hc Hex Hne E Hrun Hcur.
  pose proof (Yield_KInv k (c :: others) leaked x HK Hex) as HY. rewrite E in HY.
  destruct HY as (HK' & _ & _ & _ & _ & Hsw).
  pose proof (ki_threads _ _ _ _ HK) as Hth. unfold live in Hth. csimpl in Hth. rewrite Hc in Hth.
  apply Permutation_cons_inv in Hth.
  destruct Hsw as (_ & Hhd & U & HU & Hsv & Hx).
  { intros E0. rewrite E0 in Hth. by apply Permutation_nil_r, fmap_nil_inv in Hth. }
  assert (current k' ≠ current k) as Haway.
  { intros E0. rewrite E0 in Hhd. apply in_head in Hhd.
    pose proof (t_nodup _ (ki_sys _ _ _ _ HK)) as Hnd. unfold live in Hnd. by apply NoDup_cons in Hnd as [? _]. }
  split; [done|].
  assert (current k < fresh k') as Hfr by (apply (ki_fresh_users _ _ _ _ HK'); by rewrite HU).
  destruct (runs_without_ok HOST_IS_BIG_ENDIAN uninit uninit_bytes stale_entry Open files_are_bytes stale_pcb stale_PCB
    stale_registers (current k) k' k2 _ _ HK' Hfr Hrun) as ((procs2 & leaked2 & HK2) & _ & HU2 & Hnex).
  specialize (Hnex Haway Hcur).
  destruct (resume_KInv k2 procs2 leaked2 HK2 Hnex) as
    (T & f & k3 & HT & Hf & Er & HK3 & Hex3 & Hcur3 & (U3 & HU3 & Hsv3) & Hus & Hm & _).
  destruct (user_ok k' _ _ _ c HK' ltac:(by left)) as (U' & HU' & _ & Hsp & _). rewrite Hc, HU in HU'. injection HU' as <-.
  destruct (current_first _ _ _ HK3) as (c3 & others3 & _ & Hc3 & HK3' & _).
  destruct (user_ok k3 _ _ _ c3 HK3' ltac:(by left)) as (U4 & HU4 & _ & Hsp4 & _).
  rewrite Hc3, Hcur3, Hcur, Hus, HU2, HU in HU4. injection HU4 as <-. rewrite Hcur, HU2, HU in HU3. injection HU3 as <-.
  exists k3. split_and!; try done.
  - unfold step. rewrite (Threads.find_Some _ _ _ HT). run_ok. rewrite Hf, Er. by run_ok.
  - congruence.
  - by eapply saved_inj.
  - exists U. by rewrite Hus, HU2.
  - assert (space_of k3 c = space_of k3 c3) as -> by (unfold space_of; congruence).
    apply (ki_running _ _ _ _ HK3'); [by left|]. by split.
Qed.

(** Exec returns into the new program past its first instruction.  When
    exec answers 1 the new program is loaded and its registers are those of a
    program that starts, except that the program counters have been moved on by
    four: the program begins at address 4.  When it answers -1 the caller goes
    on with its memory unchanged. *)
Theorem exec_skips_first_instruction k c others leaked k' :
  KInv k [] (c :: others) leaked → p_thread c = current k → executing (sys k) →
  exec HOST_IS_BIG_ENDIAN uninit stale_entry Open k = Ok k' →
  (s32 (reg_at (regs k') 2) = 1 ∧ reg_at (regs k') Machine.PCReg = 4 ∧ reg_at (regs k') Machine.NextPCReg = 8 ∧
   reg_at (regs k') Machine.StackReg = u32 (numPages (space_of k' c) * Machine.PageSize - 16)) ∨
  (s32 (reg_at (regs k') 2) = -1 ∧ regs k' = returned (regs k) (-1) ∧
   contents (mem k') (space_of k' c) = contents (mem k) (space_of k c)).
Proof using uninit_bytes files_are_bytes H0.
  intros HK Hc Hex E.
  pose proof (exec_cases HOST_IS_BIG_ENDIAN uninit uninit_bytes stale_entry Open files_are_bytes k c others leaked HK Hc Hex) as He.
  rewrite E in He. destruct He as (_ & _ & _ & [Hr|(Hr & Hs & Hun)]); [left|right].
  - rewrite Hr. unfold returned, start_registers. set (v := u32 _). split_and!; try reflexivity.
  - split_and!; [|done|].
    + rewrite Hr. pose proof (good_current _ _ _ _ HK) as (Hl & _ & _). unfold reg_at, returned, advanced, bump.
      rewrite !list_lookup_insert_ne by done. rewrite list_lookup_insert_eq; [reflexivity|]. rewrite Hl. vm_compute. lia.
    + rewrite Hs. apply Hun. by left.
Qed.

End theorems.

(** ** Examples

    Two processes: number 0, thread 1, which runs [program_a], and its child,
    number 1, thread 2, which is ready. *)
Definition MM : Type := MemoryManager.MemoryManager unit.
#[local] Instance MM_allocator : PageAllocator MM := _ : PageAllocator (MemoryManager.MemoryManager unit).
#[local] Instance MM_laws : PageAllocatorLaws MM := _ : PageAllocatorLaws (MemoryManager.MemoryManager unit).

Definition c : proc := mkProc 0 5 1 3.
Definition d : proc := mkProc 1 6 2 4.

Definition sample_regs (r4 : Z) : list Z := <[4%nat := r4]> (replicate 40 0).

(** The machine with the page table of process 0. *)
Definition pair_world (r4 : Z) : world MM :=
  RestoreState (AddrSpace.set_machine kernel2 (Machine.set_registers (machine kernel2) (sample_regs r4)))
    (set_pcb second 5).

(** [x] and [y] say what the two threads do in the kernel, [f] where thread 1
    is: executing, or about to return from [Yield]. *)
Definition pair (r4 : Z) (x y : kont) (f : option Threads.frame) : kernel MM :=
  mkKernel (pair_world r4)
    (Threads.mkSys
       {[ 1 := Threads.mkThread Threads.RUNNING None f;
          2 := Threads.mkThread Threads.READY (Some Threads.STACK_FENCEPOST) (Some Threads.AtStart) ]}
       (ListModel.mkQ [(2, 0)] false) 1 0
       (match f with None => Threads.IntOn | Some _ => Threads.IntOff end) false ∅ ∅ ∅)
    (ProcessManager.mkPM (BitMap.mkBitMap 10 1 [3]) tt [5; 6; 0; 0; 0; 0; 0; 0; 0; 0])
    {[ 5 := PCB.mkPCB 1 0 0 (ListModel.mkQ [(6, 0)] false) tt 0;
       6 := PCB.mkPCB 2 1 5 ListModel.empty tt 0 ]}
    {[ 3 := set_pcb second 5; 4 := set_pcb first 6 ]}
    {[ 1 := mkUser 3 (s32 <$> sample_regs r4) x; 2 := mkUser 4 (s32 <$> sample_regs 0) y ]} 7.

Lemma sample_regs_good r4 : is_u32 r4 → good_regs (sample_regs r4).
Proof.
  intros Hr. split_and!; [reflexivity| |].
  - apply Forall_insert; [|done]. apply Forall_replicate. unfold is_u32. lia.
  - intros r. vm_compute. intros [= <-]. reflexivity.
Qed.

Lemma start_inv `{PageAllocatorLaws A} (w : world A) s1 s2 p1 p2 rs :
  Inv w [s1; s2] → good_regs rs →
  let w' := RestoreState (AddrSpace.set_machine w (Machine.set_registers (machine w) rs)) (set_pcb s1 p1) in
  Inv w' [set_pcb s1 p1; set_pcb s2 p2] ∧ running w' (set_pcb s1 p1).
Proof.
  intros HI Hg. apply RestoreState_ok. apply (Inv_set_pcb w s1 p1) in HI.
  eapply (Inv_proper w) in HI; [|apply Permutation_swap]. apply (Inv_set_pcb w s2 p2) in HI.
  eapply (Inv_proper w) in HI; [|apply Permutation_swap].
  pose proof (inv_world _ _ HI) as Hw. apply inv_machine; [done|by apply good_regs_wf|apply Hw|apply Hw].
Qed.

#[local] Opaque load_a kernel2 first second.

Lemma pair_world_inv r4 :
  is_u32 r4 → Inv (pair_world r4) [set_pcb second 5; set_pcb first 6] ∧ running (pair_world r4) (set_pcb second 5).
Proof. intros Hr. exact (start_inv kernel2 second first 5 6 _ (proj1 kernel2_inv) (sample_regs_good r4 Hr)). Qed.

Lemma start_contents {A} `{PageAllocatorLaws A} (w : world A) s s' p rs :
  contents (RestoreState (AddrSpace.set_machine w (Machine.set_registers (machine w) rs)) s') (set_pcb s p) = contents w s.
Proof. reflexivity. Qed.

Lemma start_regs (w : world MM) s' rs :
  Machine.registers (machine (RestoreState (AddrSpace.set_machine w (Machine.set_registers (machine w) rs)) s')) = rs.
Proof. reflexivity. Qed.

Lemma pair_world_regs r4 : Machine.registers (machine (pair_world r4)) = sample_regs r4.
Proof. exact (start_regs kernel2 _ _). Qed.

Lemma set_pcb_pages s p : numPages (set_pcb s p) = numPages s.
Proof. reflexivity. Qed.

Lemma pair_world_contents r4 : contents (pair_world r4) (set_pcb second 5) = image program_a header_a 10.
Proof. etrans; [exact (start_contents kernel2 second _ 5 _)|]. exact (proj2 (proj2 kernel2_inv)). Qed.

#[local] Opaque pair_world.

Lemma pair_TInv r4 x y f :
  f = None ∨ f = Some (Threads.AtYield Threads.IntOn) → TInv (sys (pair r4 x y f)).
Proof.
  intros Hf. split; [done| | | | |by left].
  - eexists. split; [reflexivity|]. split_and!; [done|done|].
    destruct Hf as [->| ->]; [by left|right]. split; [by left|done].
  - intros t ->%list_elem_of_singleton. eexists. split; [reflexivity|].
    split_and!; [done|by intros w [= <-]|by right].
  - repeat constructor; set_solver.
  - unfold live. simpl. set_solver.
Qed.

Lemma pair_lookup {X} (a b : Z) (u v : X) i y :
  ({[ a := u; b := v ]} : gmap Z X) !! i = Some y → i = a ∧ y = u ∨ i = b ∧ y = v.
Proof.
  intros [[<- <-]|[_ [<- <-]%lookup_singleton_Some]]%lookup_insert_Some; auto.
Qed.

Lemma pair_below {X} (a b n : Z) (u v : X) : 0 < a < n → 0 < b < n → below n ({[ a := u; b := v ]} : gmap Z X).
Proof. intros Ha Hb i [y [[-> _]|[-> _]]%pair_lookup]; done. Qed.

Lemma pair_family r4 x y f : family (pcbs (pair r4 x y f)).
Proof.
  split; unfold pair; cbn [pcbs].
  - reflexivity.
  - intros p P [[-> ->]|[-> ->]]%pair_lookup; repeat constructor; set_solver.
  - intros p P q [[-> ->]|[-> ->]]%pair_lookup; cbn [PCB.kids PCB.children ListModel.items fmap list_fmap fst].
    + rewrite list_elem_of_singleton. split; [intros ->; by eexists|].
      by intros (C & [[-> ->]|[-> ->]]%pair_lookup & E).
    + split; [by intros ?%elem_of_nil|]. by intros (C & [[-> ->]|[-> ->]]%pair_lookup & E).
  - intros p P [[-> ->]|[-> ->]]%pair_lookup; [by left|right]. split; [|done]. by eexists.
Qed.

Lemma pair_KInv r4 x y f :
  is_u32 r4 → f = None ∨ f = Some (Threads.AtYield Threads.IntOn) → KInv (pair r4 x y f) [] [c; d] [].
Proof.
  intros Hr Hf. split.
  - by apply pair_TInv.
  - done.
  - repeat constructor.
    + by eexists.
    + by eexists.
    + eexists. split_and!; [done|done|]. right. exists (sample_regs r4). split; [by apply sample_regs_good|done].
    + by eexists.
    + by eexists.
    + eexists. split_and!; [done|done|]. right. exists (sample_regs 0). split; [by apply sample_regs_good|done].
  - split; [|exact I|reflexivity]. split; [simpl; lia|reflexivity|reflexivity|]. repeat constructor; simpl; lia.
  - repeat constructor; set_solver.
  - vm_compute. reflexivity.
  - repeat constructor; set_solver.
  - vm_compute. reflexivity.
  - apply pair_family.
  - repeat constructor; set_solver.
  - exact (proj1 (pair_world_inv r4 Hr)).
  - intros p [->| ->%list_elem_of_singleton]%elem_of_cons [Hp _]; [exact (proj2 (pair_world_inv r4 Hr))|done].
  - done.
  - by apply pair_below.
  - by apply pair_below.
  - by apply pair_below.
  - by apply pair_below.
Qed.

(** Thread 1 executes. *)
Definition running_pair (r4 : Z) : kernel MM := pair r4 KUser KUser None.

Lemma running_pair_ok r4 :
  is_u32 r4 → KInv (running_pair r4) [] [c; d] [] ∧ p_thread c = current (running_pair r4) ∧
  executing (sys (running_pair r4)).
Proof. intros Hr. split_and!; [apply pair_KInv; auto|reflexivity|]. by eexists. Qed.

Lemma pair_not_dangling r4 x y f : ¬ is_dangling (pair r4 x y f).
Proof. discriminate. Qed.

Definition sample_PCB : PCB.PCB unit := PCB.mkPCB 0 0 0 ListModel.empty tt 0.

Lemma fork_duplicates_process_witness :
  match fork junk_entry 0 sample_PCB [] (running_pair 400) with
  | Ok k' => forked (running_pair 400) k' c [d] []
  | Err _ => False
  end.
Proof.
  destruct (running_pair_ok 400 ltac:(unfold is_u32; lia)) as (HK & Hc & Hex).
  pose proof (fork_duplicates_process junk_entry 0 sample_PCB [] (running_pair 400) c [d] [] HK Hc Hex) as Hf.
  clear HK Hc Hex. destruct (fork _ _ _ _ _) as [k'|e]; [exact (proj1 Hf)|].
  destruct Hf as (_ & [Hd|(P & HP & Hd)]); [discriminate Hd|]. injection HP as <-. discriminate Hd.
Defined.

Lemma exit_frees_process_witness :
  ∃ k', exit (running_pair 7) = Ok (Runs k') ∧ current k' = 2 ∧
        ∃ X', pcbs k' !! 6 = Some X' ∧ PCB.getParent X' = Threads.NULL.
Proof.
  destruct (running_pair_ok 7 ltac:(unfold is_u32; lia)) as (HK & Hc & Hex).
  destruct (exit_frees_process (running_pair 7) c [d] [] (PCB.mkPCB 1 0 0 (ListModel.mkQ [(6, 0)] false) tt 0)
    HK Hc Hex eq_refl) as (k' & E & _ & _ & Hch & _ & _ & _ & Hgo). clear HK Hc Hex.
  exists k'. split; [exact E|]. split.
  - destruct Hgo as [_ Hin]; [discriminate|]. clear Hch E. by apply list_elem_of_singleton in Hin.
  - clear Hgo E. destruct (Hch 6 (PCB.mkPCB 2 1 5 ListModel.empty tt 0) eq_refl) as (X' & HX & Hp & _); [discriminate|].
    exists X'. split; [exact HX|exact Hp].
Defined.

Lemma kill_removes_process_witness :
  ∃ k', kill (running_pair 1) = Ok (Runs k') ∧ KInv k' [] [c] [].
Proof.
  destruct (running_pair_ok 1 ltac:(unfold is_u32; lia)) as (HK & Hc & Hex).
  destruct (kill_removes_process (running_pair 1) c [d] [] HK Hc Hex) as (_ & _ & _ & Hk). clear HK Hc Hex.
  destruct (Hk d [] (Permutation_refl _) eq_refl) as (k' & E & HK' & _). exists k'. exact (conj E HK').
Defined.

Lemma join_waits_for_child_witness :
  ∃ k', join (running_pair 1) = Ok k' ∧ current k' ≠ 1.
Proof.
  destruct (running_pair_ok 1 ltac:(unfold is_u32; lia)) as (HK & Hc & Hex).
  destruct (join_waits_for_child false junk junk_entry sample_open 0 sample_PCB [] (running_pair 1) c [d] []
    (PCB.mkPCB 1 0 0 (ListModel.mkQ [(6, 0)] false) tt 0) HK Hc Hex eq_refl) as (_ & _ & Hj & _). clear HK Hc Hex.
  destruct (Hj d) as (k' & E & _ & Hne & _); [by left|reflexivity|by left|apply pair_not_dangling|].
  exists k'. exact (conj E Hne).
Defined.

Lemma junk_bytes n : Machine.is_byte (junk n).
Proof. unfold Machine.is_byte, junk. lia. Qed.

Definition one_file (name : list Z) : option (list Z) := Some program_a.

Lemma one_file_bytes name file : one_file name = Some file → Forall Machine.is_byte file.
Proof. intros [= <-]. apply program_a_loads. Qed.

Lemma pair_room :
  0 ≤ 10 - numPages (set_pcb second 5)
    ≤ Machine.NumPhysPages - Z.of_nat (base.size (frames (memoryManager (pair_world 8)))).
Proof.
  destruct (pair_world_inv 8 ltac:(unfold is_u32; lia)) as [HI _].
  pose proof (owned_length _ _ _ HI (list_elem_of_here _ _)) as H1.
  pose proof (owned_length _ _ _ HI (list_elem_of_further _ _ _ (list_elem_of_here _ _))) as H2.
  rewrite set_pcb_pages in H1, H2 |- *. rewrite (proj1 (proj2 kernel2_inv)) in H1 |- *.
  rewrite (proj1 (proj2 kernel1_inv)) in H2.
  rewrite (frames_size _ _ HI). clear HI. cbn [mbind list_bind]. rewrite !length_app.
  unfold Machine.NumPhysPages. change (length []) with 0%nat. lia.
Qed.

Lemma pair_replaces :
  ∃ s' w, Replace false junk junk_entry one_file (pair_world 8) (set_pcb second 5) 8 = Ok (true, s', w) ∧
    good_regs (Machine.registers (machine w)).
Proof.
  destruct (pair_world_inv 8 ltac:(unfold is_u32; lia)) as [HI _].
  destruct (Replace_ok false junk junk_entry one_file (pair_world 8) (set_pcb second 5)
    [set_pcb first 6] 8 [98] program_a header_a 10 HI) as (s' & w & E & _ & _ & HI' & _).
  - lia.
  - rewrite pair_world_contents. exact image_string.
  - simpl. lia.
  - reflexivity.
  - apply read_header_a.
  - reflexivity.
  - apply program_a_loads.
  - apply program_a_loads.
  - apply program_a_loads.
  - exact pair_room.
  - exists s', w. split; [exact E|]. apply good_regs_wf, (inv_world _ _ HI').
Qed.

Lemma exec_runs {A} `{PageAllocatorLaws A} uninit stale_entry Open (k : kernel A) p others leaked b s' w :
  KInv k [] (p :: others) leaked → p_thread p = current k →
  Replace false uninit stale_entry Open (mem k) (space_of k p) (s32 (reg_at (regs k) 4)) = Ok (b, s', w) →
  good_regs (Machine.registers (machine w)) → ∃ k', exec false uninit stale_entry Open k = Ok k'.
Proof.
  intros HK Hc E Hg'. destruct (current_ok k _ p others leaked HK Hc) as (P & _ & _ & _ & _ & _ & Ecs & Ecp).
  unfold exec. rewrite Ecp. run_ok. rewrite ReadRegister_ok by (done || by eapply good_current). run_ok.
  rewrite Ecs. run_ok. rewrite E. run_ok. eexists. by apply return_with_ok.
Qed.

Lemma pair_exec : ∃ k', exec false junk junk_entry one_file (running_pair 8) = Ok k'.
Proof.
  destruct pair_replaces as (s' & w & E & Hg').
  destruct (running_pair_ok 8 ltac:(unfold is_u32; lia)) as (HK & Hc & _).
  apply (exec_runs junk junk_entry one_file (running_pair 8) c [d] [] true s' w HK Hc); [|exact Hg'].
  assert (regs (running_pair 8) = sample_regs 8) as -> by exact (pair_world_regs 8).
  change (s32 (reg_at (sample_regs 8) 4)) with 8.
  assert (space_of (running_pair 8) c = set_pcb second 5) as -> by reflexivity. exact E.
Qed.

Lemma exec_skips_first_instruction_witness :
  ∃ k', exec false junk junk_entry one_file (running_pair 8) = Ok k' ∧
    (reg_at (regs k') Machine.PCReg = 4 ∨ s32 (reg_at (regs k') 2) = -1).
Proof.
  destruct (running_pair_ok 8 ltac:(unfold is_u32; lia)) as (HK & Hc & Hex).
  destruct pair_exec as [k' E]. exists k'. split; [exact E|].
  destruct (exec_skips_first_instruction false junk junk_bytes junk_entry one_file one_file_bytes
    (running_pair 8) c [d] [] k' HK Hc Hex E) as [(_ & Hp & _)|(Hp & _)]; [left|right]; exact Hp.
Defined.

(** Thread 1 is switched to after it called [Yield]. *)
Definition resting_pair (r4 : Z) : kernel MM := pair r4 KYield KUser (Some (Threads.AtYield Threads.IntOn)).

Lemma resting_pair_ok r4 :
  is_u32 r4 → KInv (resting_pair r4) [] [c; d] [] ∧ ¬ executing (sys (resting_pair r4)).
Proof.
  intros Hr. split; [apply pair_KInv; auto|]. intros (T & HT & Hf). injection HT as <-. discriminate Hf.
Qed.

(** Thread 2 is inside join of process 0. *)
Definition joining_pair (r4 : Z) : kernel MM := pair r4 KUser (KJoin 0) None.

Lemma joining_pair_runs :
  ∃ k1 k2 k3, Yield (joining_pair 8) KYield = Ok k1 ∧
    step false junk junk_entry 0 sample_PCB [] one_file k1 = Ok (Runs k2) ∧
    step false junk junk_entry 0 sample_PCB [] one_file k2 = Ok (Runs k3) ∧
    current k1 = 2 ∧ current k2 = 2 ∧ current k3 = 1.
Proof.
  assert (match Yield (joining_pair 8) KYield with
    | Ok k1 => match step false junk junk_entry 0 sample_PCB [] one_file k1 with
      | Ok (Runs k2) => match step false junk junk_entry 0 sample_PCB [] one_file k2 with
        | Ok (Runs k3) => (current k1, current k2, current k3) = (2, 2, 1)
        | _ => False end
      | _ => False end
    | _ => False end) as H by (vm_compute; reflexivity).
  destruct (Yield _ _) as [k1|]; [|done].
  destruct (step _ _ _ _ _ _ _ k1) as [[k2|]|] eqn:E2; try done.
  destruct (step _ _ _ _ _ _ _ k2) as [[k3|]|] eqn:E3; try done.
  injection H as ???. by exists k1, k2, k3.
Qed.

Lemma switch_restores_registers_witness :
  ∃ k1 k2 k3, Yield (joining_pair 8) KYield = Ok k1 ∧ current k1 ≠ 1 ∧
    runs_without false junk junk_entry one_file 0 sample_PCB [] 1 k1 k2 ∧
    step false junk junk_entry 0 sample_PCB [] one_file k2 = Ok (Runs k3) ∧ regs k3 = regs (joining_pair 8).
Proof.
  destruct joining_pair_runs as (k1 & k1' & k2 & E1 & E2 & E3 & C1 & C2 & C3).
  assert (runs_without false junk junk_entry one_file 0 sample_PCB [] 1 k1 k2) as Hrun.
  { eapply runs_step; [eapply runs_step; [apply runs_none|by rewrite C1|exact E2]|by rewrite C2|exact E3]. }
  destruct (switch_restores_registers false junk junk_bytes junk_entry one_file one_file_bytes 0 sample_PCB []
    (joining_pair 8) c [d] [] KYield k1 k2) as (Hne & k3 & Er & _ & _ & Hr & _);
    [apply pair_KInv; [unfold is_u32; lia|by left]|reflexivity|by eexists|discriminate|exact E1|exact Hrun|exact C3|].
  exists k1, k2, k3. exact (conj E1 (conj Hne (conj Hrun (conj Er Hr)))).
Defined.

Lemma processes_isolated_witness :
  ∃ k', step false junk junk_entry 0 sample_PCB [] one_file (resting_pair 8) = Ok (Runs k') ∧
    ∃ procs' leaked', KInv k' [] procs' leaked'.
Proof.
  destruct (resting_pair_ok 8 ltac:(unfold is_u32; lia)) as (HK & Hnex).
  assert (∃ k', step false junk junk_entry 0 sample_PCB [] one_file (resting_pair 8) = Ok (Runs k')) as [k' E].
  { destruct (resume_KInv _ _ _ HK Hnex) as (T & f & k' & HT & Hf & Er & _). exists k'. unfold step.
    rewrite (Threads.find_Some _ _ T HT). run_ok. rewrite Hf, Er. run_ok. reflexivity. }
  exists k'. split; [exact E|].
  destruct (processes_isolated false junk junk_bytes junk_entry one_file one_file_bytes 0 sample_PCB []
    (resting_pair 8) k' [c; d] [] HK E (λ Hx, Hnex (proj1 Hx))) as (_ & procs' & leaked' & _ & _ & HK' & _).
  exists procs', leaked'. exact HK'.
Defined.

(** The kernel before the first process. *)
Definition idle_kernel : kernel MM :=
  mkKernel boot
    (Threads.mkSys {[ 1 := Threads.mkThread Threads.RUNNING None None ]} ListModel.empty 1 0 Threads.IntOn false ∅ ∅ ∅)
    (ProcessManager.mkPM (BitMap.mkBitMap 10 1 [0]) tt [0; 0; 0; 0; 0; 0; 0; 0; 0; 0])
    ∅ ∅ {[ 1 := mkUser Threads.NULL [] KUser ]} 2.

Lemma idle_boots : boots idle_kernel.
Proof.
  split.
  - split; [done| | | | |by left].
    + eexists. split; [reflexivity|]. split_and!; [done|done|by left].
    + by intros t ?%elem_of_nil.
    + apply NoDup_singleton.
    + unfold live. simpl. set_solver.
  - reflexivity.
  - by eexists.
  - by eexists.
  - intros t U pid HU Hx. simpl in HU. apply lookup_singleton_Some in HU as [_ <-]. discriminate Hx.
  - split; [|exact I|reflexivity]. split; [simpl; lia|reflexivity|reflexivity|]. repeat constructor; simpl; lia.
  - vm_compute. reflexivity.
  - reflexivity.
  - reflexivity.
  - exact boot_inv.
  - split_and!; [done| |]; intros x [y Hy]; simpl in Hy; apply lookup_singleton_Some in Hy as [<- _]; done.
Qed.

Lemma idle_starts :
  ∃ k1, StartProcess false junk junk_entry 0 sample_PCB one_file idle_kernel [98] = Ok (true, k1).
Proof.
  destruct program_a_loads as (Hb & Hc & Hd).
  destruct (AddrSpace_new_ok false junk junk_entry 0 boot [] program_a header_a 10) as (s & w & E & _);
    [exact boot_inv|apply read_header_a|reflexivity|done|done|done|vm_compute; congruence|].
  pose proof (StartProcess_cases false junk junk_bytes junk_entry one_file one_file_bytes 0 sample_PCB
    idle_kernel [98] idle_boots) as Hs.
  destruct (StartProcess _ _ _ _ _ _ _ _) as [[[] k1]|e]; [by exists k1|by destruct Hs as [Ho|Hn]|].
  destruct Hs as (_ & file & Ho & En). injection Ho as <-.
  pose proof (eq_trans (eq_sym En) E) as Hd'. discriminate Hd'.
Qed.

Lemma kernel_invariant_witness :
  ∃ k1, StartProcess false junk junk_entry 0 sample_PCB one_file idle_kernel [98] = Ok (true, k1) ∧
    ∃ procs leaked, KInv k1 [] procs leaked.
Proof.
  destruct idle_starts as [k1 E]. exists k1. split; [exact E|].
  destruct (kernel_invariant false junk junk_bytes junk_entry one_file one_file_bytes 0 sample_PCB []
    idle_kernel [98] k1 k1 idle_boots E (reach_start _ _ _ _ _ _ _ k1)) as (procs & leaked & HK & _).
  exists procs, leaked. exact HK.
Defined.

End KernelTheorems.
