(* ===== verification/Disk.v ===== *)
(** * The disk: machine/disk.h, machine/disk.cc, filesys/synchdisk.h,
      filesys/synchdisk.cc

    The disk is a device of the interrupt simulation (file Interrupt): a
    request is carried out at once on the UNIX file that stands for the disk,
    and an interrupt tells when it would have been done.  The synchronous disk
    waits for that interrupt on a semaphore.

    Here one thread uses the disk, as the file system supposes ("there is no
    synchronization for concurrent accesses", filesys.cc), so that the lock, the
    semaphore and the ready list are shown as far as that thread sees them:
    whether it waits on the semaphore and whether it is ready.  File SharedDisk
    has the synchronous disk with any number of threads. *)

From stdpp Require Import base list gmap.
From S2P Require Import Prelude Lists Machine Bytes Threads Interrupt.

Module Disk.
Import ListModel Interrupt.

(** ** disk.h, stats.h *)
Definition SectorSize : Z := 128.
Definition SectorsPerTrack : Z := 32.
Definition NumTracks : Z := 32.
Definition NumSectors : Z := SectorsPerTrack * NumTracks.
Definition RotationTime : Z := 500.
Definition SeekTime : Z := 500.

Definition MagicNumber : Z := 0x456789ab.
Definition MagicSize : Z := 4.
Definition DiskSize : Z := MagicSize + NumSectors * SectorSize.

(** [class Disk]; [fileno] is the UNIX file, by its contents. *)
Record Disk := mkDisk {
  fileno : list Z;
  handler : Z;
  handlerArg : Z;
  active : bool;
  lastSector : Z;
  bufferInit : Z;
}.

(** ** The time a request takes *)

(** [Disk::TimeToSeek]: the result, and [*rotation]. *)
Definition TimeToSeek (d : Disk) (totalTicks newSector : Z) : Z * Z :=
  let newTrack := Z.quot newSector SectorsPerTrack in
  let oldTrack := Z.quot (lastSector d) SectorsPerTrack in
  let seek := Z.abs (newTrack - oldTrack) * SeekTime in
  let over := Z.rem (s32 (totalTicks + seek)) RotationTime in
  (seek, if over >? 0 then RotationTime - over else 0).

Definition ModuloDiff (to from : Z) : Z :=
  let toOffset := Z.rem to SectorsPerTrack in
  let fromOffset := Z.rem from SectorsPerTrack in
  Z.rem ((toOffset - fromOffset) + SectorsPerTrack) SectorsPerTrack.

Definition ComputeLatency (d : Disk) (totalTicks newSector : Z) (writing : bool) : Z :=
  let '(seek, rotation) := TimeToSeek d totalTicks newSector in
  let timeAfter := s32 (totalTicks + seek + rotation) in
  if negb writing && (seek =? 0) &&
     (Z.quot (s32 (timeAfter - bufferInit d)) RotationTime >?
      ModuloDiff newSector (Z.quot (bufferInit d) RotationTime))
  then RotationTime
  else
    let rotation := rotation + ModuloDiff newSector (Z.quot timeAfter RotationTime) * RotationTime in
    seek + rotation + RotationTime.

Definition UpdateLast (d : Disk) (totalTicks newSector : Z) : Disk :=
  let '(seek, rotate) := TimeToSeek d totalTicks newSector in
  mkDisk (fileno d) (handler d) (handlerArg d) (active d) newSector
    (if negb (seek =? 0) then s32 (totalTicks + seek + rotate) else bufferInit d).

Definition set_active (d : Disk) (x : bool) : Disk :=
  mkDisk (fileno d) (handler d) (handlerArg d) x (lastSector d) (bufferInit d).
Definition set_fileno (d : Disk) (x : list Z) : Disk :=
  mkDisk x (handler d) (handlerArg d) (active d) (lastSector d) (bufferInit d).

(** ** UNIX files (machine/sysdep.cc): [Lseek] followed by [Read] or
    [WriteFile], which assert that the whole of the request was done *)
Definition read_at (file : list Z) (offset nBytes : Z) : result (list Z) :=
  _ ← ASSERT (offset + nBytes <=? Z.of_nat (length file));
  Ok (take (Z.to_nat nBytes) (drop (Z.to_nat offset) file)).

Definition write_at (file : list Z) (offset : Z) (data : list Z) : list Z :=
  let o := Z.to_nat offset in
  take o (file ++ replicate (o - length file) 0) ++ data ++ drop (o + length data) file.

(** ** The synchronous disk *)

(** [class SynchDisk] with its semaphore and its lock, as the one thread that
    uses it sees them: [waiting] if it is in the queue of the semaphore,
    [ready] if it is on the ready list. *)
Record SynchDisk := mkSynch {
  disk : Disk;
  value : Z;
  waiting : bool;
  ready : bool;
  free : bool;
}.

Definition set_disk (x : SynchDisk) (d : Disk) : SynchDisk :=
  mkSynch d (value x) (waiting x) (ready x) (free x).
Definition set_ready (x : SynchDisk) (b : bool) : SynchDisk :=
  mkSynch (disk x) (value x) (waiting x) b (free x).
Definition set_waiting (x : SynchDisk) (b : bool) : SynchDisk :=
  mkSynch (disk x) (value x) b (ready x) (free x).
Definition set_value (x : SynchDisk) (v : Z) : SynchDisk :=
  mkSynch (disk x) v (waiting x) (ready x) (free x).
Definition set_free (x : SynchDisk) (b : bool) : SynchDisk :=
  mkSynch (disk x) (value x) (waiting x) (ready x) b.

(** ** How long a request takes *)

Definition is_sector (n : Z) : Prop := 0 ≤ n < NumSectors.

Lemma ModuloDiff_range to from : 0 ≤ to → 0 ≤ ModuloDiff to from < SectorsPerTrack.
Proof.
  intros Ht. unfold ModuloDiff, SectorsPerTrack. apply Z.rem_bound_pos; [|lia].
  pose proof (Z.rem_bound_pos to 32 Ht ltac:(lia)). pose proof (Z.rem_bound_abs from 32 ltac:(lia)). lia.
Qed.

Lemma TimeToSeek_range d t n :
  is_sector n → is_sector (lastSector d) →
  0 ≤ (TimeToSeek d t n).1 ≤ (NumTracks - 1) * SeekTime ∧ 0 ≤ (TimeToSeek d t n).2 < RotationTime.
Proof.
  unfold is_sector, NumSectors, TimeToSeek, SectorsPerTrack, NumTracks, SeekTime, RotationTime. intros Hn Hl. simpl.
  assert (0 ≤ Z.quot n 32 < 32) by (split; [apply Z.quot_pos; lia|apply Z.quot_lt_upper_bound; lia]).
  assert (0 ≤ Z.quot (lastSector d) 32 < 32) by (split; [apply Z.quot_pos; lia|apply Z.quot_lt_upper_bound; lia]).
  split; [lia|]. set (o := Z.rem _ _). pose proof (Z.rem_bound_abs (s32 (t + Z.abs (Z.quot n 32 - Z.quot (lastSector d) 32) * 500)) 500 ltac:(lia)) as Ho.
  fold o in Ho. rewrite Z.gtb_ltb. destruct (Z.ltb_spec 0 o); lia.
Qed.

(** Whatever the clock says, overflowed or not. *)
Lemma latency_range d t n b :
  is_sector n → is_sector (lastSector d) →
  RotationTime ≤ ComputeLatency d t n b < NumTracks * SeekTime + (SectorsPerTrack + 1) * RotationTime.
Proof.
  intros Hn Hl. unfold ComputeLatency. pose proof (TimeToSeek_range d t n Hn Hl) as [H1 H2].
  destruct (TimeToSeek d t n) as [seek rot]. simpl in H1, H2.
  pose proof (ModuloDiff_range n (Z.quot (s32 (t + seek + rot)) RotationTime) ltac:(unfold is_sector in Hn; lia)).
  unfold NumTracks, SectorsPerTrack, SeekTime, RotationTime in *.
  destruct (_ && _ && _); lia.
Qed.

Section disk.
(** The addresses of the static functions [DiskDone] and [DiskRequestDone], of
    the disk and of the synchronous disk; the byte order of the host. *)
Context (DiskDone_addr DiskRequestDone_addr disk_addr synch_addr : Z) (HOST_IS_BIG_ENDIAN : bool).

(** [new Disk(name, callWhenDone, callArg)]; [file] is the UNIX file, if it
    exists. *)
Definition Disk_new (file : option (list Z)) (callWhenDone callArg : Z) : result Disk :=
  f ← match file with
      | Some f =>
        magicNum ← read_at f 0 MagicSize;
        _ ← ASSERT (bool_decide (magicNum = Bytes.int_bytes HOST_IS_BIG_ENDIAN MagicNumber));
        Ok f
      | None =>
        let f := write_at [] 0 (Bytes.int_bytes HOST_IS_BIG_ENDIAN MagicNumber) in
        Ok (write_at f (DiskSize - MagicSize) (Bytes.int_bytes HOST_IS_BIG_ENDIAN 0))
      end;
  Ok (mkDisk f callWhenDone callArg false 0 0).

(** [new SynchDisk(name)]. *)
Definition SynchDisk_new (file : option (list Z)) : result SynchDisk :=
  d ← Disk_new file DiskRequestDone_addr synch_addr;
  Ok (mkSynch d 0 false false true).

(** [semaphore->V()] in [SynchDisk::RequestDone]; interrupts are off already. *)
Definition RequestDone (x : SynchDisk) : SynchDisk :=
  let x := if waiting x then set_ready (set_waiting x false) true else x in
  set_value x (value x + 1).

(** [( *handler)(handlerArg)]; there is no other code that the pointer may name. *)
Definition call_handler (func param : Z) (x : SynchDisk) : result SynchDisk :=
  if (func =? DiskRequestDone_addr) && (param =? synch_addr) then Ok (RequestDone x) else Err OutOfBounds.

Definition HandleInterrupt (x : SynchDisk) : result SynchDisk :=
  let x := set_disk x (set_active (disk x) false) in
  call_handler (handler (disk x)) (handlerArg (disk x)) x.

(** The static [DiskDone], behind its address. *)
Definition call (func param : Z) (status : MachineStatus) (x : SynchDisk) : result (SynchDisk * list action) :=
  if (func =? DiskDone_addr) && (param =? disk_addr) then x ← HandleInterrupt x; Ok (x, [])
  else Err OutOfBounds.

(** [synchDisk] in the simulation. *)
Definition with_disk (s : sim SynchDisk) (d : Disk) : sim SynchDisk :=
  set_devices s (set_disk (devices s) d).

Definition count_request (s : sim SynchDisk) (reads writes : Z) : sim SynchDisk :=
  let st := stats s in
  let c := counters st in
  set_stats s (mkStats (totalTicks st) (idleTicks st) (systemTicks st) (userTicks st)
    (mkCounters (s32 (numDiskReads c + reads)) (s32 (numDiskWrites c + writes)) (numConsoleCharsRead c)
       (numConsoleCharsWritten c) (numPageFaults c) (numPacketsSent c) (numPacketsRecvd c))).

(** [ReadRequest] and [WriteRequest] up to the statistics: the data, the disk and
    the delay of the interrupt. *)
Definition start_read (d : Disk) (now sectorNumber : Z) : result (list Z * Disk * Z) :=
  let ticks := ComputeLatency d now sectorNumber false in
  _ ← ASSERT (negb (active d));
  _ ← ASSERT ((sectorNumber >=? 0) && (sectorNumber <? NumSectors));
  data ← read_at (fileno d) (SectorSize * sectorNumber + MagicSize) SectorSize;
  Ok (data, UpdateLast (set_active d true) now sectorNumber, ticks).

Definition start_write (d : Disk) (now sectorNumber : Z) (data : list Z) : result (Disk * Z) :=
  let ticks := ComputeLatency d now sectorNumber true in
  _ ← ASSERT (negb (active d));
  _ ← ASSERT ((sectorNumber >=? 0) && (sectorNumber <? NumSectors));
  bytes ← Machine.load_bytes data 0 (Z.to_nat SectorSize);
  let d := set_fileno d (write_at (fileno d) (SectorSize * sectorNumber + MagicSize) bytes) in
  Ok (UpdateLast (set_active d true) now sectorNumber, ticks).

Definition ReadRequest (s : sim SynchDisk) (sectorNumber : Z) : result (list Z * sim SynchDisk) :=
  '(data, d, ticks) ← start_read (disk (devices s)) (totalTicks (stats s)) sectorNumber;
  s ← Schedule (count_request (with_disk s d) 1 0) DiskDone_addr disk_addr ticks DiskInt;
  Ok (data, s).

Definition WriteRequest (s : sim SynchDisk) (sectorNumber : Z) (data : list Z) : result (sim SynchDisk) :=
  '(d, ticks) ← start_write (disk (devices s)) (totalTicks (stats s)) sectorNumber data;
  Schedule (count_request (with_disk s d) 0 1) DiskDone_addr disk_addr ticks DiskInt.

(** ** Waiting

    Nobody else is ready, so that the [Yield] at the end of a tick returns at
    once. *)
Definition after_tick (t : tick SynchDisk) : sim SynchDisk :=
  match t with Returns s => s | Yields s old => OneTick_end s old end.

(** [interrupt->SetLevel(now)]: the old level. *)
Definition level_to (s : sim SynchDisk) (now : Threads.IntStatus) : result (Threads.IntStatus * sim SynchDisk) :=
  '(old, t) ← SetLevel call s now; Ok (old, after_tick t).

(** [currentThread->Sleep()]: [Interrupt::Idle] until the thread is ready.
    Every round fires an interrupt, or halts the machine. *)
Fixpoint Sleep (fuel : nat) (s : sim SynchDisk) : result (sim SynchDisk) :=
  if ready (devices s) then Ok (set_devices s (set_ready (devices s) false))
  else match fuel with
  | O => Err OutOfFuel
  | S fuel =>
    r ← Idle call s;
    match r with Resumes s => Sleep fuel s | Halts _ => Err MachineHalts end
  end.

(** [while (value == 0) ...] of [Semaphore::P]. *)
Fixpoint P_loop (fuel : nat) (s : sim SynchDisk) : result (sim SynchDisk) :=
  if value (devices s) =? 0 then
    match fuel with
    | O => Err OutOfFuel
    | S fuel' =>
      let s := set_devices s (set_waiting (devices s) true) in
      s ← Sleep fuel s; P_loop fuel' s
    end
  else Ok s.

Definition P (s : sim SynchDisk) : result (sim SynchDisk) :=
  '(oldLevel, s) ← level_to s Threads.IntOff;
  s ← P_loop (S (length (items (pending (interrupt s))))) s;
  let s := set_devices s (set_value (devices s) (value (devices s) - 1)) in
  '(_, s) ← level_to s oldLevel;
  Ok s.

(** The lock; if it is taken the thread sleeps, and there is nobody to release
    it: the machine halts when nothing is pending any more. *)
Definition Acquire (s : sim SynchDisk) : result (sim SynchDisk) :=
  '(oldLevel, s) ← level_to s Threads.IntOff;
  if free (devices s) then
    '(_, s) ← level_to (set_devices s (set_free (devices s) false)) oldLevel; Ok s
  else Err MachineHalts.

Definition Release (s : sim SynchDisk) : result (sim SynchDisk) :=
  '(oldLevel, s) ← level_to s Threads.IntOff;
  '(_, s) ← level_to (set_devices s (set_free (devices s) true)) oldLevel; Ok s.

Definition ReadSector (s : sim SynchDisk) (sectorNumber : Z) : result (list Z * sim SynchDisk) :=
  s ← Acquire s;
  '(data, s) ← ReadRequest s sectorNumber;
  s ← P s;
  s ← Release s;
  Ok (data, s).

Definition WriteSector (s : sim SynchDisk) (sectorNumber : Z) (data : list Z) : result (sim SynchDisk) :=
  s ← Acquire s;
  s ← WriteRequest s sectorNumber data;
  s ← P s;
  Release s.

(** ** The one thread and its disk *)

(** No request under way, nothing pending, interrupts on. *)
Record quiet (s : sim SynchDisk) : Prop := mkQuiet {
  qt_pending : items (pending (interrupt s)) = [];
  qt_level : level (interrupt s) = Threads.IntOn;
  qt_outside : inHandler (interrupt s) = false ∧ yieldOnReturn (interrupt s) = false;
  qt_status : status (interrupt s) = SystemMode;
  qt_machine : match machine s with Some m => Machine.wf_regs m | None => True end;
  qt_next : 0 < next s;
  qt_synch : value (devices s) = 0 ∧ waiting (devices s) = false ∧ ready (devices s) = false ∧ free (devices s) = true;
  qt_disk : active (disk (devices s)) = false ∧ is_sector (lastSector (disk (devices s)));
  qt_handler : handler (disk (devices s)) = DiskRequestDone_addr ∧ handlerArg (disk (devices s)) = synch_addr;
  qt_file : Z.of_nat (length (fileno (disk (devices s)))) = DiskSize;
}.

Lemma level_off s : level (interrupt s) = Threads.IntOn → level_to s Threads.IntOff = Ok (Threads.IntOn, set_level s Threads.IntOff).
Proof.
  intros Hl. unfold level_to, SetLevel. rewrite (bool_decide_true (Threads.IntOff = Threads.IntOff)) by done. cbn [orb]. run_ok.
  rewrite (bool_decide_false (Threads.IntOff = Threads.IntOn)) by done. cbn [andb]. run_ok. by rewrite Hl.
Qed.

(** The clock after one tick. *)
Definition ticked (st : Statistics) : Statistics :=
  mkStats (s32 (totalTicks st + SystemTick)) (idleTicks st) (s32 (systemTicks st + SystemTick)) (userTicks st) (counters st).

Lemma fire_none s : items (pending (interrupt s)) = [] → level (interrupt s) = Threads.IntOff → fire_due call s = Ok s.
Proof.
  intros Hp Hl. unfold fire_due. rewrite Hp. simpl. unfold CheckIfDue. rewrite Hl.
  rewrite (bool_decide_true (Threads.IntOff = Threads.IntOff)) by done. run_ok.
  unfold SortedRemove. rewrite Hp. by run_ok.
Qed.

Lemma level_on s :
  level (interrupt s) = Threads.IntOff → items (pending (interrupt s)) = [] → inHandler (interrupt s) = false →
  yieldOnReturn (interrupt s) = false → status (interrupt s) = SystemMode →
  level_to s Threads.IntOn = Ok (Threads.IntOff, set_level (set_stats s (ticked (stats s))) Threads.IntOn).
Proof.
  intros Hl Hp Hi Hy Hs. unfold level_to, SetLevel. rewrite (bool_decide_true (inHandler _ = false)) by done.
  rewrite orb_true_r. run_ok. rewrite (bool_decide_true (Threads.IntOn = Threads.IntOn)) by done.
  rewrite (bool_decide_true (level _ = _)) by done. cbn [andb]. unfold OneTick, ChangeLevel. simpl.
  rewrite (bool_decide_true (status _ = _)) by done. rewrite fire_none by done. run_ok. simpl. by rewrite Hy, Hl.
Qed.

(** What the interrupt simulation looks like from outside the devices. *)
Record calm (s : sim SynchDisk) (l : Threads.IntStatus) : Prop := mkCalm {
  cm_level : level (interrupt s) = l;
  cm_outside : inHandler (interrupt s) = false ∧ yieldOnReturn (interrupt s) = false;
  cm_status : status (interrupt s) = SystemMode;
  cm_machine : match machine s with Some m => Machine.wf_regs m | None => True end;
  cm_next : 0 < next s;
}.

(** A request is under way: its interrupt is the one that is pending. *)
Record requested (s : sim SynchDisk) : Prop := mkRequested {
  rq_pending : ∃ p k i, items (pending (interrupt s)) = [(p, k)] ∧ heap s !! p = Some i ∧
    Interrupt.handler i = DiskDone_addr ∧ arg i = disk_addr ∧ type i = DiskInt;
  rq_synch : value (devices s) = 0 ∧ waiting (devices s) = false ∧ ready (devices s) = false;
  rq_handler : handler (disk (devices s)) = DiskRequestDone_addr ∧ handlerArg (disk (devices s)) = synch_addr;
}.

Lemma call_done st x :
  handler (disk x) = DiskRequestDone_addr → handlerArg (disk x) = synch_addr →
  call DiskDone_addr disk_addr st x = Ok (RequestDone (set_disk x (set_active (disk x) false)), []).
Proof.
  intros H4 H5. unfold call. rewrite !Z.eqb_refl. cbn [andb].
  unfold HandleInterrupt, call_handler. simpl. by rewrite H4, H5, !Z.eqb_refl.
Qed.

#[local] Opaque fire_due.

(** The idle machine jumps to the interrupt, which wakes the thread. *)
Lemma Idle_wakes s :
  calm s Threads.IntOff → requested (set_devices s (set_waiting (devices s) false)) → waiting (devices s) = true →
  ∃ s', Idle call s = Ok (Resumes s') ∧ calm s' Threads.IntOff ∧ items (pending (interrupt s')) = [] ∧
    devices s' = mkSynch (set_active (disk (devices s)) false) 1 false true (free (devices s)).
Proof.
  intros [Hl [Hi Hy] Hs Hm Hn] [(p & k & i & Hp & Hh & H1 & H2 & H3) (Hv & _ & Hr) [H4 H5]] Hw. simpl in *.
  unfold Idle, CheckIfDue. simpl. rewrite Hl.
  rewrite (bool_decide_true (Threads.IntOff = Threads.IntOff)) by done. run_ok.
  unfold SortedRemove. rewrite Hp. cbn [negb andb].
  set (s1 := if k >? _ then _ else _).
  assert (heap s1 = heap s ∧ machine s1 = machine s ∧ devices s1 = devices s ∧ next s1 = next s ∧
    interrupt s1 = mkInterrupt Threads.IntOff (drop_first (pending (interrupt s)) []) false false IdleMode) as (E1 & E2 & E3 & E4 & E5).
  { unfold s1. destruct (k >? _); simpl; rewrite ?Hl, ?Hi, ?Hy; split_and!; done. }
  clearbody s1. rewrite E1, (Threads.find_Some _ _ _ Hh). run_ok. rewrite H3.
  rewrite (bool_decide_false (DiskInt = TimerInt)) by done. rewrite ?andb_false_r. cbn [andb].
  unfold fire. rewrite E2.
  assert (∃ m', match machine s with None => Ok None | Some m => m ← Machine.DelayedLoad m 0 0; Ok (Some m) end = Ok m' ∧
    match m' with Some m => Machine.wf_regs m | None => True end) as (m' & -> & Hm').
  { destruct (machine s) as [m|]; [|by exists None]. destruct (Machine.DelayedLoad_ok m 0 0) as (-> & Hw' & _); [done|done|].
    by eexists (Some _). }
  run_ok. unfold invoke. simpl. rewrite H1, H2, E3, call_done by done. run_ok.
  cbn [acts]. run_ok. rewrite fire_none by (simpl; by rewrite E5). run_ok.
  eexists. split; [reflexivity|]. simpl. rewrite E5. split_and!; [split; simpl; try done; [by rewrite E5..|by rewrite E4]|done|].
  unfold RequestDone. simpl. rewrite Hw. unfold set_value. simpl. by rewrite Hv.
Qed.

Lemma P_ok s :
  calm s Threads.IntOn → requested s →
  ∃ s', P s = Ok s' ∧ calm s' Threads.IntOn ∧ items (pending (interrupt s')) = [] ∧
    devices s' = mkSynch (set_active (disk (devices s)) false) 0 false false (free (devices s)).
Proof.
  intros [Hl [Hi Hy] Hs Hm Hn] Hrq. pose proof Hrq as [(p & k & i & Hp & Hrest) (Hv & Hw & Hr) Hh].
  unfold P. rewrite level_off by done. run_ok. simpl. rewrite Hp. cbn [length]. rewrite Hv. cbn [Z.eqb].
  simpl. rewrite Hr. set (s1 := set_devices _ _).
  destruct (Idle_wakes s1) as (s2 & -> & Hc2 & Hp2 & Hd2).
  { by split. } { split; simpl; [by eauto 10|done|done]. } { done. }
  run_ok. rewrite Hd2. simpl. rewrite ?Hd2. simpl.
  destruct Hc2 as [Hl2 [Hi2 Hy2] Hs2 Hm2 Hn2].
  rewrite level_on by done. run_ok. eexists. split; [reflexivity|]. split_and!; [by split|done|].
  simpl. done.
Qed.

(** The contents of a sector. *)
Definition slice (l : list Z) (o n : Z) : list Z := take (Z.to_nat n) (drop (Z.to_nat o) l).
Definition sector (s : sim SynchDisk) (n : Z) : list Z :=
  slice (fileno (disk (devices s))) (SectorSize * n + MagicSize) SectorSize.

(** The thread after [Acquire]. *)
Definition acquired (s : sim SynchDisk) : sim SynchDisk :=
  let s1 := set_level s Threads.IntOff in
  let s2 := set_devices s1 (set_free (devices s1) false) in
  set_level (set_stats s2 (ticked (stats s2))) Threads.IntOn.

Lemma Acquire_ok s : quiet s → Acquire s = Ok (acquired s).
Proof.
  intros [Hp Hl [Hi Hy] Hs Hm Hn (Hv & Hw & Hr & Hf) Hd Hh Hfile]. unfold Acquire. rewrite level_off by done. run_ok. simpl.
  rewrite Hf. by rewrite level_on.
Qed.

(** A disk that did not exist before; a file that begins with the magic number
    is accepted as a disk again. *)
Lemma Disk_new_ok f a :
  ∃ d, Disk_new None f a = Ok d ∧ handler d = f ∧ handlerArg d = a ∧ active d = false ∧ lastSector d = 0 ∧
       Z.of_nat (length (fileno d)) = DiskSize ∧ slice (fileno d) 0 MagicSize = Bytes.int_bytes HOST_IS_BIG_ENDIAN MagicNumber.
Proof.
  assert (∀ x, length (Bytes.int_bytes HOST_IS_BIG_ENDIAN x) = 4%nat) as Hi.
  { apply Bytes.int_bytes_length. }
  unfold Disk_new. run_ok. eexists. split; [reflexivity|]. cbn [handler handlerArg active lastSector fileno].
  assert (write_at [] 0 (Bytes.int_bytes HOST_IS_BIG_ENDIAN MagicNumber) = Bytes.int_bytes HOST_IS_BIG_ENDIAN MagicNumber) as ->.
  { unfold write_at. simpl. by rewrite drop_nil, app_nil_r. }
  unfold write_at. set (o := Z.to_nat (DiskSize - MagicSize)).
  assert (Z.of_nat o = DiskSize - MagicSize) as Ho by (unfold o; by rewrite Z2Nat.id).
  change (DiskSize - MagicSize) with 131072 in Ho. clearbody o. change DiskSize with 131076.
  split_and!; try done.
  - rewrite !length_app, length_take, length_app, length_replicate, length_drop, !Hi. lia.
  - unfold slice. change (Z.to_nat 0) with 0%nat. change (Z.to_nat MagicSize) with 4%nat.
    rewrite drop_0, take_app_le by (rewrite length_take, length_app, length_replicate, Hi; lia).
    rewrite take_take, Nat.min_l by lia. by rewrite take_app_length' by by rewrite Hi.
Qed.

Lemma Disk_new_again file f a :
  Z.of_nat (length file) = DiskSize → slice file 0 MagicSize = Bytes.int_bytes HOST_IS_BIG_ENDIAN MagicNumber →
  Disk_new (Some file) f a = Ok (mkDisk file f a false 0 0).
Proof.
  intros Hl Hm. unfold Disk_new, read_at. rewrite Hl. change (ASSERT (0 + MagicSize <=? DiskSize)) with (@Ok unit tt). run_ok.
  fold (slice file 0 MagicSize). rewrite Hm, bool_decide_true by done. by run_ok.
Qed.

(** [P] and [Release], once the request is under way. *)
Lemma request_completes s :
  calm s Threads.IntOn → requested s → free (devices s) = false →
  is_sector (lastSector (disk (devices s))) → Z.of_nat (length (fileno (disk (devices s)))) = DiskSize →
  ∃ s1 s', P s = Ok s1 ∧ Release s1 = Ok s' ∧ quiet s' ∧
    fileno (disk (devices s')) = fileno (disk (devices s)).
Proof.
  intros Hc Hrq Hfr Hlast Hfile. destruct (P_ok s Hc Hrq) as (s1 & E & [Hl [Hi Hy] Hs Hm Hn] & Hp & Hd).
  exists s1. unfold Release. rewrite level_off by done. run_ok. rewrite level_on by done. run_ok.
  eexists. split_and!; [done|reflexivity| |simpl; by rewrite Hd].
  split; simpl; try done; rewrite Hd; simpl; try done. apply Hrq.
Qed.

(** What [Schedule] does when nothing is pending. *)
Lemma Schedule_first (s : sim SynchDisk) f x n k :
  items (pending (interrupt s)) = [] → 0 < n →
  ∃ s', Schedule s f x n k = Ok s' ∧ devices s' = devices s ∧ machine s' = machine s ∧ next s' = next s + 1 ∧
    interrupt s' = mkInterrupt (level (interrupt s)) (mkQ [(next s, s32 (totalTicks (stats s) + n))] false)
                     (inHandler (interrupt s)) (yieldOnReturn (interrupt s)) (status (interrupt s)) ∧
    heap s' !! next s = Some (mkPending f x (s32 (totalTicks (stats s) + n)) k).
Proof.
  intros Hp Hn. unfold Schedule, PendingInterrupt_new, ASSERT. rewrite Z.gtb_ltb. destruct (Z.ltb_spec 0 n); [|lia].
  run_ok. unfold SortedInsert. simpl. rewrite Hp. run_ok. eexists. split; [reflexivity|]. split_and!; try done.
  apply lookup_insert_eq.
Qed.

(** A request that was made, from the state after [Acquire]. *)
Lemma requested_ok s d n w reads writes :
  quiet s → is_sector n → disk (devices (acquired s)) = d →
  handler w = handler d → handlerArg w = handlerArg d → Z.of_nat (length (fileno w)) = DiskSize → is_sector (lastSector w) →
  ∃ s1 s2 s', Schedule (count_request (with_disk (acquired s) w) reads writes) DiskDone_addr disk_addr
      (ComputeLatency d (totalTicks (stats (acquired s))) n (bool_decide (reads = 0))) DiskInt = Ok s1 ∧
    P s1 = Ok s2 ∧ Release s2 = Ok s' ∧ quiet s' ∧ fileno (disk (devices s')) = fileno w.
Proof.
  intros [Hp Hl [Hi Hy] Hs Hm Hnx (Hv & Hw & Hr & Hf) [Ha Hlast] [Hh1 Hh2] Hfile] Hn <- H1 H2 H3 H4. simpl in *.
  destruct (Schedule_first (count_request (with_disk (acquired s) w) reads writes) DiskDone_addr disk_addr
    (ComputeLatency (disk (devices s)) (s32 (totalTicks (stats s) + SystemTick)) n (bool_decide (reads = 0))) DiskInt)
    as (s1 & -> & E1 & E2 & E3 & E4 & E5); [done| |].
  { pose proof (latency_range (disk (devices s)) (s32 (totalTicks (stats s) + SystemTick)) n (bool_decide (reads = 0)) Hn Hlast).
    unfold RotationTime in *. lia. }
  destruct (request_completes s1) as (s2 & s' & EP & ER & Hq & Hfn).
  - split; rewrite ?E2, ?E3, ?E4; try done. simpl. lia.
  - split; rewrite ?E1; simpl; [|done|by rewrite H1, H2]. rewrite E4. do 3 eexists. split; [done|]. split; [exact E5|done].
  - by rewrite E1.
  - by rewrite E1.
  - by rewrite E1.
  - exists s1, s2, s'. split_and!; try done. by rewrite Hfn, E1.
Qed.

Lemma UpdateLast_fields d t n :
  fileno (UpdateLast d t n) = fileno d ∧ handler (UpdateLast d t n) = handler d ∧
  handlerArg (UpdateLast d t n) = handlerArg d ∧ lastSector (UpdateLast d t n) = n.
Proof. unfold UpdateLast. by destruct (TimeToSeek d t n). Qed.

Lemma sector_in_file n : is_sector n → 0 ≤ SectorSize * n + MagicSize ∧ SectorSize * n + MagicSize + SectorSize ≤ DiskSize.
Proof. unfold is_sector, DiskSize, NumSectors, SectorSize, MagicSize, SectorsPerTrack, NumTracks. lia. Qed.

Lemma ASSERT_sector n :
  ASSERT ((n >=? 0) && (n <? NumSectors)) = if decide (is_sector n) then Ok tt else Err AssertionFailed.
Proof.
  unfold ASSERT, is_sector. rewrite Z.geb_leb. destruct (Z.leb_spec 0 n), (Z.ltb_spec n NumSectors); simpl;
    [rewrite decide_True by done|rewrite decide_False by lia..]; done.
Qed.

Lemma ReadSector_ok s n :
  quiet s →
  if decide (is_sector n) then
    ∃ s', ReadSector s n = Ok (sector s n, s') ∧ quiet s' ∧
          fileno (disk (devices s')) = fileno (disk (devices s))
  else ReadSector s n = Err AssertionFailed.
Proof.
  intros Hq. unfold ReadSector. rewrite Acquire_ok by done. run_ok. unfold ReadRequest, start_read.
  pose proof Hq as [Hp Hl [Hi Hy] Hs Hm Hnx (Hv & Hw & Hr & Hf) [Ha Hlast] [Hh1 Hh2] Hfile].
  change (disk (devices (acquired s))) with (disk (devices s)). rewrite Ha. cbn [negb]. run_ok.
  rewrite ASSERT_sector. case_decide as Hn; run_ok; [|done].
  destruct (sector_in_file n Hn) as [Hlo Hhi]. unfold read_at, ASSERT.
  destruct (Z.leb_spec (SectorSize * n + MagicSize + SectorSize) (Z.of_nat (length (fileno (disk (devices s)))))); [|lia].
  run_ok. destruct (UpdateLast_fields (set_active (disk (devices s)) true) (totalTicks (stats (acquired s))) n) as (F1 & F2 & F3 & F4).
  destruct (requested_ok s _ n (UpdateLast (set_active (disk (devices s)) true) (totalTicks (stats (acquired s))) n) 1 0
    Hq Hn eq_refl) as (s1 & s2 & s' & E & EP & ER & Hq' & Hfn); [done|done|by rewrite F1|by rewrite F4|].
  simpl in E |- *. rewrite E. run_ok. rewrite EP. run_ok. rewrite ER. run_ok. exists s'. split_and!; [done|done|].
  by rewrite Hfn, F1.
Qed.

Lemma load_bytes_whole bs n : length bs = n → Machine.load_bytes bs 0 n = Ok bs.
Proof.
  intros <-. rewrite Machine.load_bytes_ok by lia. change (Z.to_nat 0) with 0%nat. by rewrite drop_0, firstn_all.
Qed.

Section writing.
Context (file data : list Z) (o : Z) (Hin : 0 ≤ o ∧ o + Z.of_nat (length data) ≤ Z.of_nat (length file)).

Lemma write_at_inside : write_at file o data = take (Z.to_nat o) file ++ data ++ drop (Z.to_nat o + length data) file.
Proof using Hin.
  unfold write_at. replace (Z.to_nat o - length file)%nat with 0%nat by lia. by rewrite app_nil_r.
Qed.

Lemma write_at_length : length (write_at file o data) = length file.
Proof using Hin. rewrite write_at_inside, !length_app, length_take, length_drop. lia. Qed.

Lemma write_at_same : slice (write_at file o data) o (Z.of_nat (length data)) = data.
Proof using Hin.
  unfold slice. rewrite write_at_inside, Nat2Z.id. rewrite drop_app_length' by (rewrite length_take; lia).
  by rewrite take_app_length.
Qed.

Lemma write_at_other o' n :
  0 ≤ o' → 0 ≤ n → (o' + n ≤ o ∨ o + Z.of_nat (length data) ≤ o') →
  slice (write_at file o data) o' n = slice file o' n.
Proof using Hin.
  intros Ho Hn Hd. unfold slice. apply list_eq. intros i. rewrite write_at_inside.
  destruct (decide (i < Z.to_nat n)%nat); [|by rewrite !lookup_take_ge by lia].
  rewrite !lookup_take_lt, !lookup_drop by done.
  destruct Hd as [Hd|Hd].
  - rewrite lookup_app_l by (rewrite length_take; lia). by rewrite lookup_take_lt by lia.
  - rewrite lookup_app_r by (rewrite length_take; lia). rewrite length_take.
    rewrite lookup_app_r by lia. rewrite lookup_drop. f_equal. lia.
Qed.

End writing.

Lemma WriteSector_ok s n data :
  quiet s → Z.of_nat (length data) = SectorSize →
  if decide (is_sector n) then
    ∃ s', WriteSector s n data = Ok s' ∧ quiet s' ∧ sector s' n = data ∧
          (∀ m, is_sector m → m ≠ n → sector s' m = sector s m) ∧
          slice (fileno (disk (devices s'))) 0 MagicSize = slice (fileno (disk (devices s))) 0 MagicSize
  else WriteSector s n data = Err AssertionFailed.
Proof.
  intros Hq Hdata. unfold WriteSector. rewrite Acquire_ok by done. run_ok. unfold WriteRequest, start_write.
  pose proof Hq as [Hp Hl [Hi Hy] Hs Hm Hnx (Hv & Hw & Hr & Hf) [Ha Hlast] [Hh1 Hh2] Hfile].
  change (disk (devices (acquired s))) with (disk (devices s)). rewrite Ha. cbn [negb]. run_ok.
  rewrite ASSERT_sector. case_decide as Hn; run_ok; [|done].
  rewrite load_bytes_whole by (rewrite <- Hdata; lia). run_ok.
  destruct (sector_in_file n Hn) as [Hlo Hhi]. set (o := SectorSize * n + MagicSize) in *.
  set (file := fileno (disk (devices s))) in *. set (f' := write_at file o data).
  assert (0 ≤ o ∧ o + Z.of_nat (length data) ≤ Z.of_nat (length file)) as Hin by lia.
  destruct (UpdateLast_fields (set_active (set_fileno (disk (devices s)) f') true) (totalTicks (stats (acquired s))) n) as (F1 & F2 & F3 & F4).
  destruct (requested_ok s _ n (UpdateLast (set_active (set_fileno (disk (devices s)) f') true) (totalTicks (stats (acquired s))) n) 0 1
    Hq Hn eq_refl) as (s1 & s2 & s' & E & EP & ER & Hq' & Hfn); [done|done| |by rewrite F4|].
  { rewrite F1. simpl. unfold f'. by rewrite write_at_length. }
  simpl in E |- *. rewrite E. run_ok. rewrite EP. run_ok. rewrite ER. run_ok. exists s'. rewrite F1 in Hfn. simpl in Hfn.
  unfold sector. rewrite Hfn. fold file. split_and!; [done|done| | |].
  - pose proof (write_at_same file data o Hin) as E2. rewrite Hdata in E2. exact E2.
  - intros m Hsec Hne. apply write_at_other; [exact Hin|..]; rewrite ?Hdata; unfold o, is_sector, SectorSize, MagicSize in *; lia.
  - apply write_at_other; [exact Hin|..]; rewrite ?Hdata; unfold o, is_sector, SectorSize, MagicSize in *; lia.
Qed.

End disk.

End Disk.
