(* ===== verification/SharedDisk.v ===== *)
(** * The synchronous disk and its threads: filesys/synchdisk.cc, machine/disk.cc

    Any number of threads that read and write sectors.  A thread is the place in
    [ReadSector] or [WriteSector] where it stands; a step takes it over one
    operation of the lock or of the semaphore, or over the request between them.
    The disk itself is that of file Disk.  What the lock and the semaphore do is
    what file Threads proves of them: [Acquire] waits for the lock to be free,
    [P] for a positive value.  The interrupt of a request may be taken at any time
    after it was scheduled, and the clock may show anything when a request is
    made.

    Without THREADS, as in the build of network/Makefile, the lock does nothing. *)

From stdpp Require Import base list.
From S2P Require Import Prelude Machine Bytes Threads Interrupt Disk.

Module SharedDisk.
Import Interrupt Disk.

(** ** State *)

(** [class SynchDisk]: the disk, the value of the semaphore, the holder of the
    lock; and the interrupts that were scheduled. *)
Record shared := mkShared {
  disk : Disk;
  semaphore : Z;
  lock : option nat;
  pending : list action;
}.

Definition set_disk (x : shared) (d : Disk) : shared := mkShared d (semaphore x) (lock x) (pending x).
Definition set_semaphore (x : shared) (v : Z) : shared := mkShared (disk x) v (lock x) (pending x).
Definition set_lock (x : shared) (l : option nat) : shared := mkShared (disk x) (semaphore x) l (pending x).
Definition set_pending (x : shared) (l : list action) : shared := mkShared (disk x) (semaphore x) (lock x) l.

(** Where a thread stands, and [Out] if it is in neither of the routines. *)
Inductive place :=
  | Out
  | RAcquire (n : Z)                      (* ReadSector: lock->Acquire() *)
  | RRequest (n : Z)                      (* has the lock: disk->ReadRequest(n, data) *)
  | RWait (data : list Z)                 (* has the lock: semaphore->P() *)
  | RRelease (data : list Z)              (* has the lock: lock->Release() *)
  | RDone (data : list Z)                 (* returned, with this in the buffer *)
  | WAcquire (n : Z) (data : list Z)      (* WriteSector: lock->Acquire() *)
  | WRequest (n : Z) (data : list Z)      (* has the lock: disk->WriteRequest(n, data) *)
  | WWait                                 (* has the lock: semaphore->P() *)
  | WRelease.                             (* has the lock: lock->Release() *)

Section shared_disk.
Context (DiskDone_addr DiskRequestDone_addr disk_addr synch_addr : Z) (HOST_IS_BIG_ENDIAN : bool).
Context {build : SynchBuild}.

(** ** The lock and the semaphore; [None] is waiting *)

Definition Acquire (x : shared) (t : nat) : option shared :=
  if THREADS_defined then match lock x with None => Some (set_lock x (Some t)) | Some _ => None end else Some x.
Definition Release (x : shared) : shared := if THREADS_defined then set_lock x None else x.
Definition P (x : shared) : option shared :=
  if semaphore x >? 0 then Some (set_semaphore x (semaphore x - 1)) else None.
Definition V (x : shared) : shared := set_semaphore x (semaphore x + 1).

(** ** The routines *)

(** [new SynchDisk(name)]. *)
Definition SynchDisk_new (file : option (list Z)) : result shared :=
  d ← Disk_new HOST_IS_BIG_ENDIAN file DiskRequestDone_addr synch_addr;
  Ok (mkShared d 0 None []).

(** [interrupt->Schedule(DiskDone, (int) this, ticks, DiskInt)]. *)
Definition Schedule (x : shared) (ticks : Z) : result shared :=
  _ ← ASSERT (ticks >? 0);
  Ok (set_pending x (pending x ++ [ActSchedule DiskDone_addr disk_addr ticks DiskInt])).

Definition ReadSector (x : shared) (t : nat) (now : Z) (p : place) : option (result (shared * place)) :=
  match p with
  | RAcquire n => x ← Acquire x t; Some (Ok (x, RRequest n))
  | RRequest n =>
    Some ('(data, d, ticks) ← start_read (disk x) now n;
          x ← Schedule (set_disk x d) ticks; Ok (x, RWait data))
  | RWait data => x ← P x; Some (Ok (x, RRelease data))
  | RRelease data => Some (Ok (Release x, RDone data))
  | _ => None
  end.

Definition WriteSector (x : shared) (t : nat) (now : Z) (p : place) : option (result (shared * place)) :=
  match p with
  | WAcquire n data => x ← Acquire x t; Some (Ok (x, WRequest n data))
  | WRequest n data =>
    Some ('(d, ticks) ← start_write (disk x) now n data;
          x ← Schedule (set_disk x d) ticks; Ok (x, WWait))
  | WWait => x ← P x; Some (Ok (x, WRelease))
  | WRelease => Some (Ok (Release x, Out))
  | _ => None
  end.

Definition step (x : shared) (t : nat) (now : Z) (p : place) : option (result (shared * place)) :=
  match p with
  | Out | RDone _ => None
  | RAcquire _ | RRequest _ | RWait _ | RRelease _ => ReadSector x t now p
  | _ => WriteSector x t now p
  end.

(** [Disk::HandleInterrupt], and [SynchDisk::RequestDone] behind the pointer
    [handler]. *)
Definition HandleInterrupt (x : shared) : result shared :=
  let x := set_disk x (set_active (disk x) false) in
  if (handler (disk x) =? DiskRequestDone_addr) && (handlerArg (disk x) =? synch_addr) then Ok (V x) else Err OutOfBounds.

(** The interrupt [i] of those that were scheduled. *)
Definition take_interrupt (x : shared) (i : nat) : option (result shared) :=
  a ← pending x !! i;
  let x := set_pending x (delete i (pending x)) in
  match a with
  | ActSchedule func param _ _ =>
    Some (if (func =? DiskDone_addr) && (param =? disk_addr) then HandleInterrupt x else Err OutOfBounds)
  | ActYieldOnReturn => Some (Ok x)
  end.

(** ** Runs *)

Inductive event :=
  | ERead (t : nat) (n : Z) (data : list Z)
  | EWrite (t : nat) (n : Z) (data : list Z).

(** A request takes effect when it is made. *)
Definition emits (t : nat) (p p' : place) : list event :=
  match p, p' with
  | RRequest n, RWait data => [ERead t n data]
  | WRequest n data, _ => [EWrite t n data]
  | _, _ => []
  end.

(** The calls that are allowed: a sector of the disk, and a whole sector of
    data. *)
Definition good_call (p : place) : Prop :=
  match p with
  | RAcquire n | RRequest n => is_sector n
  | WAcquire n data | WRequest n data => is_sector n ∧ Z.of_nat (length data) = SectorSize
  | _ => True
  end.

Definition calls (p p' : place) : Prop :=
  match p, p' with
  | (Out | RDone _), (RAcquire _ | WAcquire _ _) => good_call p'
  | _, _ => False
  end.

#[global] Instance calls_dec p p' : Decision (calls p p').
Proof. destruct p, p'; simpl; unfold is_sector; apply _. Defined.

(** [k] threads and the disk, in any order. *)
Inductive run (x0 : shared) (k : nat) : list event → shared → list place → Prop :=
  | run_start : run x0 k [] x0 (replicate k Out)
  | run_call tr x threads t p p' :
      run x0 k tr x threads → threads !! t = Some p → calls p p' → run x0 k tr x (<[t := p']> threads)
  | run_step tr x threads t now p x' p' :
      run x0 k tr x threads → threads !! t = Some p → step x t now p = Some (Ok (x', p')) →
      run x0 k (tr ++ emits t p p') x' (<[t := p']> threads)
  | run_interrupt tr x threads i x' :
      run x0 k tr x threads → take_interrupt x i = Some (Ok x') → run x0 k tr x' threads.

(** ** The specification: an array of sectors *)

Definition array : Type := Z → list Z.

(** The array after the operations of the trace, one after the other. *)
Definition apply_event (a : array) (e : event) : array :=
  match e with EWrite _ n data => λ m, if m =? n then data else a m | ERead _ _ _ => a end.
Definition after (a : array) (tr : list event) : array := foldl apply_event a tr.

(** Every read gives what the array has then. *)
Fixpoint reads_ok (a : array) (tr : list event) : Prop :=
  match tr with
  | [] => True
  | e :: tr => match e with ERead _ n data => data = a n | EWrite _ _ _ => True end ∧ reads_ok (apply_event a e) tr
  end.

Definition sectors (d : Disk) : array := λ n, slice (fileno d) (SectorSize * n + MagicSize) SectorSize.

(** What a thread reads last. *)
Definition read_by (t : nat) (tr : list event) : list (list Z) :=
  omap (λ e, match e with ERead u _ data => if decide (u = t) then Some data else None | _ => None end) tr.
Definition returns (p : place) : option (list Z) :=
  match p with RWait data | RRelease data | RDone data => Some data | _ => None end.

(** ** The invariant *)

Definition holds (p : place) : bool :=
  match p with Out | RAcquire _ | RDone _ | WAcquire _ _ => false | _ => true end.
Definition waits (p : place) : bool := match p with RWait _ | WWait => true | _ => false end.

(** No request; a request under way; a request that is done. *)
Definition calm (x : shared) : Prop := active (disk x) = false ∧ pending x = [] ∧ semaphore x = 0.
Definition under_way (x : shared) : Prop :=
  active (disk x) = true ∧ semaphore x = 0 ∧ ∃ ticks, pending x = [ActSchedule DiskDone_addr disk_addr ticks DiskInt].
Definition finished (x : shared) : Prop := active (disk x) = false ∧ pending x = [] ∧ semaphore x = 1.

Record disk_ok (d : Disk) : Prop := mkDiskOk {
  k_handler : handler d = DiskRequestDone_addr ∧ handlerArg d = synch_addr;
  k_last : is_sector (lastSector d);
  k_file : Z.of_nat (length (fileno d)) = DiskSize;
}.

Record Inv (x : shared) (threads : list place) : Prop := mkInv {
  v_lock t : lock x = Some t ↔ ∃ p, threads !! t = Some p ∧ holds p = true;
  v_calm : (∀ t p, threads !! t = Some p → waits p = false) → calm x;
  v_wait t p : threads !! t = Some p → waits p = true → under_way x ∨ finished x;
  v_calls t p : threads !! t = Some p → good_call p;
  v_disk : disk_ok (disk x);
}.

(** The holder of the lock is the only thread that holds it. *)
Lemma Inv_alone x threads t u p q :
  Inv x threads → threads !! t = Some p → threads !! u = Some q → holds p = true → holds q = true → t = u.
Proof.
  intros V Hp Hq Hhp Hhq. assert (lock x = Some t) by (apply (v_lock _ _ V); eauto).
  assert (lock x = Some u) by (apply (v_lock _ _ V); eauto). congruence.
Qed.

Lemma waits_holds p : waits p = true → holds p = true.
Proof. by destruct p. Qed.

(** When a thread that holds the lock does not wait, nobody does. *)
Lemma Inv_calm x threads t p : Inv x threads → threads !! t = Some p → holds p = true → waits p = false → calm x.
Proof.
  intros V Hp Hh Hw. apply (v_calm _ _ V). intros u q Hq. destruct (waits q) eqn:Eq; [|done].
  pose proof (Inv_alone x threads t u p q V Hp Hq Hh (waits_holds q Eq)) as <-. congruence.
Qed.

(** A thread goes from [p] to [p'] and the disk from [x] to [x']. *)
Lemma Inv_moves x x' threads t p p' :
  Inv x threads → threads !! t = Some p →
  ((lock x' = lock x ∧ holds p' = holds p) ∨ (lock x = None ∧ lock x' = Some t ∧ holds p' = true) ∨
   (lock x' = None ∧ holds p = true ∧ holds p' = false)) →
  (if waits p' then under_way x' ∨ finished x' else waits p = true → calm x') →
  (waits p = false → waits p' = false → disk x' = disk x ∧ pending x' = pending x ∧ semaphore x' = semaphore x) →
  (waits p' = true → holds p = true) →
  good_call p' → disk_ok (disk x') → Inv x' (<[t := p']> threads).
Proof.
  intros V Hp Hlock Hw Hsame Hown Hcall Hdisk. pose proof V as [V1 V2 V3 V4 V5].
  assert (t < length threads)%nat as Ht by (by eapply lookup_lt_Some).
  assert (holds p = true → lock x = Some t) as Hme by (intros; apply V1; eauto).
  assert (∀ u q, u ≠ t → threads !! u = Some q → waits q = true → holds p = false) as Hother.
  { intros u q Hne Hq Hwq. destruct (holds p) eqn:Eh; [|done]. exfalso. apply Hne. symmetry.
    exact (Inv_alone x threads t u p q V Hp Hq Eh (waits_holds q Hwq)). }
  split; try done.
  - intros u. destruct (decide (u = t)) as [->|Hne].
    + rewrite list_lookup_insert_eq by done. destruct Hlock as [[E1 E2]|[(E1 & E2 & E3)|(E1 & E2 & E3)]].
      * rewrite E1, V1, Hp. split; intros (q & [= <-] & Hq); eexists; (split; [done|congruence]).
      * rewrite E2. split; [by eauto|done].
      * rewrite E1. split; [done|]. intros (q & [= <-] & Hq). congruence.
    + rewrite list_lookup_insert_ne by done. rewrite <- V1. destruct Hlock as [[E1 _]|[(E1 & E2 & _)|(E1 & E2 & E3)]].
      * by rewrite E1.
      * rewrite E1, E2. split; [intros [= ->]; done|done].
      * rewrite E1, (Hme E2). split; [done|intros [= ->]; done].
  - intros Hno. pose proof (Hno t p' ltac:(by apply list_lookup_insert_eq)) as Hp'. rewrite Hp' in Hw.
    destruct (waits p) eqn:Ep; [by apply Hw|]. destruct (Hsame eq_refl Hp') as (E1 & E2 & E3). unfold calm. rewrite E1, E2, E3.
    apply V2. intros u q Hq. destruct (decide (u = t)) as [->|Hne]; [congruence|].
    apply (Hno u). by rewrite list_lookup_insert_ne.
  - intros u q Hq Hwq. destruct (decide (u = t)) as [->|Hne].
    + rewrite list_lookup_insert_eq in Hq by done. injection Hq as <-. by rewrite Hwq in Hw.
    + rewrite list_lookup_insert_ne in Hq by done. pose proof (Hother u q Hne Hq Hwq) as Hnh.
      assert (waits p = false ∧ waits p' = false) as [Ep Ep'].
      { split; [destruct (waits p) eqn:E; [apply waits_holds in E; congruence|done]|].
        destruct (waits p') eqn:E; [|done]. specialize (Hown eq_refl). congruence. }
      destruct (Hsame Ep Ep') as (E1 & E2 & E3). unfold under_way, finished. rewrite E1, E2, E3. by eapply V3.
  - intros u q Hq. destruct (decide (u = t)) as [->|Hne].
    + rewrite list_lookup_insert_eq in Hq by done. by simplify_eq.
    + rewrite list_lookup_insert_ne in Hq by done. eauto.
Qed.

(** ** The requests *)

Lemma start_read_ok d now n :
  disk_ok d → active d = false → is_sector n →
  ∃ d' ticks, start_read d now n = Ok (sectors d n, d', ticks) ∧ 0 < ticks ∧ disk_ok d' ∧ active d' = true ∧ sectors d' = sectors d.
Proof.
  intros [Hh Hl Hf] Ha Hn. unfold start_read. rewrite Ha. cbn [negb]. run_ok. rewrite ASSERT_sector, decide_True by done. run_ok.
  destruct (sector_in_file n Hn) as [Hlo Hhi]. unfold read_at, ASSERT.
  destruct (Z.leb_spec (SectorSize * n + MagicSize + SectorSize) (Z.of_nat (length (fileno d)))); [|lia]. run_ok.
  destruct (UpdateLast_fields (set_active d true) now n) as (F1 & F2 & F3 & F4).
  pose proof (latency_range d now n false Hn Hl) as Hlat. unfold RotationTime in Hlat.
  eexists _, _. split; [reflexivity|]. split_and!; [lia| | |].
  - split; [by rewrite F2, F3|by rewrite F4|by rewrite F1].
  - unfold UpdateLast. by destruct (TimeToSeek _ _ _).
  - unfold sectors. by rewrite F1.
Qed.

Lemma start_write_ok d now n data :
  disk_ok d → active d = false → is_sector n → Z.of_nat (length data) = SectorSize →
  ∃ d' ticks, start_write d now n data = Ok (d', ticks) ∧ 0 < ticks ∧ disk_ok d' ∧ active d' = true ∧
    ∀ m, is_sector m → sectors d' m = if m =? n then data else sectors d m.
Proof.
  intros [Hh Hl Hf] Ha Hn Hd. unfold start_write. rewrite Ha. cbn [negb]. run_ok. rewrite ASSERT_sector, decide_True by done. run_ok.
  rewrite load_bytes_whole by (rewrite <- Hd; lia). run_ok. destruct (sector_in_file n Hn) as [Hlo Hhi].
  set (o := SectorSize * n + MagicSize) in *. set (f' := write_at (fileno d) o data).
  assert (0 ≤ o ∧ o + Z.of_nat (length data) ≤ Z.of_nat (length (fileno d))) as Hin by lia.
  destruct (UpdateLast_fields (set_active (set_fileno d f') true) now n) as (F1 & F2 & F3 & F4).
  pose proof (latency_range d now n true Hn Hl) as Hlat. unfold RotationTime in Hlat.
  eexists _, _. split; [reflexivity|]. split_and!; [lia| | |].
  - split; [by rewrite F2, F3|by rewrite F4|]. rewrite F1. simpl. unfold f'. by rewrite write_at_length.
  - unfold UpdateLast. by destruct (TimeToSeek _ _ _).
  - intros m Hm. unfold sectors. rewrite F1. cbn [fileno set_active set_fileno]. unfold f'. destruct (Z.eqb_spec m n) as [->|Hne].
    + pose proof (write_at_same (fileno d) data o Hin) as E. rewrite Hd in E. exact E.
    + apply write_at_other; [exact Hin|..]; rewrite ?Hd; unfold o, is_sector, SectorSize, MagicSize in *; lia.
Qed.

(** ** Every step, in a build with THREADS *)

Section real_locks.
Context {locks : RealLocks}.

Lemma shared_Acquire_eq x t : Acquire x t = match lock x with None => Some (set_lock x (Some t)) | Some _ => None end.
Proof. unfold Acquire. by rewrite with_THREADS. Qed.
Lemma shared_Release_eq x : Release x = set_lock x None.
Proof. unfold Release. by rewrite with_THREADS. Qed.

Lemma shared_Schedule_ok x ticks :
  0 < ticks → Schedule x ticks = Ok (set_pending x (pending x ++ [ActSchedule DiskDone_addr disk_addr ticks DiskInt])).
Proof. intros Ht. unfold Schedule, ASSERT. rewrite Z.gtb_ltb. by destruct (Z.ltb_spec 0 ticks); [|lia]. Qed.

(** What a step does to the sectors, by its events. *)
Definition effect_ok (x x' : shared) (t : nat) (p p' : place) : Prop :=
  (∀ m, is_sector m → sectors (disk x') m = after (sectors (disk x)) (emits t p p') m) ∧
  (∀ n data, emits t p p' = [ERead t n data] → is_sector n ∧ data = sectors (disk x) n ∧ returns p' = Some data) ∧
  (emits t p p' = [] ∨ (∃ n data, emits t p p' = [ERead t n data]) ∨ ∃ n data, emits t p p' = [EWrite t n data]) ∧
  (∀ data, returns p' = Some data → returns p = Some data ∨ ∃ n, emits t p p' = [ERead t n data]).

Definition goes (x : shared) (threads : list place) (t : nat) (p : place) (r : result (shared * place)) : Prop :=
  ∃ x' p', r = Ok (x', p') ∧ Inv x' (<[t := p']> threads) ∧ effect_ok x x' t p p'.

Section one_step.
Context (x : shared) (threads : list place) (t : nat) (now : Z) (r : result (shared * place)).
Context (Hinv : Inv x threads).

Lemma acquires p p' :
  threads !! t = Some p → holds p = false → holds p' = true → waits p = false → waits p' = false → good_call p' →
  emits t p p' = [] → returns p' = None →
  (y ← Acquire x t; Some (Ok (y, p'))) = Some r → goes x threads t p r.
Proof.
  intros Hp H1 H2 H3 H4 H5 H6 H7 Hr. rewrite shared_Acquire_eq in Hr. destruct (lock x) eqn:El; [done|]. injection Hr as <-.
  eexists _, _. split; [reflexivity|]. split.
  - eapply (Inv_moves x _ threads t p p' Hinv Hp); try done; [by auto|by rewrite H3, H4|by rewrite H4|apply Hinv].
  - unfold effect_ok. rewrite H6. split_and!; try done; [by auto|by rewrite H7].
Qed.

Lemma releases p p' :
  threads !! t = Some p → holds p = true → holds p' = false → waits p = false → waits p' = false → good_call p' →
  emits t p p' = [] → returns p' = None ∨ returns p' = returns p →
  r = Ok (Release x, p') → goes x threads t p r.
Proof.
  intros Hp H1 H2 H3 H4 H5 H6 H7 ->. rewrite shared_Release_eq. eexists _, _. split; [reflexivity|]. split.
  - eapply (Inv_moves x _ threads t p p' Hinv Hp); try done; [by auto|by rewrite H3, H4|apply Hinv].
  - unfold effect_ok. rewrite H6. split_and!; try done; [by auto|]. intros data Hd. destruct H7 as [H7|H7]; [congruence|left; congruence].
Qed.

Lemma passes p p' :
  threads !! t = Some p → holds p = true → holds p' = true → waits p = true → waits p' = false → good_call p' →
  emits t p p' = [] → returns p' = returns p →
  (y ← P x; Some (Ok (y, p'))) = Some r → goes x threads t p r.
Proof.
  intros Hp H1 H2 H3 H4 H5 H6 H7 Hr. unfold P in Hr. rewrite Z.gtb_ltb in Hr. destruct (Z.ltb_spec 0 (semaphore x)); [|done].
  injection Hr as <-. destruct (v_wait _ _ Hinv t p Hp H3) as [(_ & Hs & _)|(F1 & F2 & F3)]; [lia|].
  eexists _, _. split; [reflexivity|]. split.
  - eapply (Inv_moves x _ threads t p p' Hinv Hp); try done.
    + left. by rewrite H1, H2.
    + rewrite H4. intros _. split_and!; [done|done|]. simpl. lia.
    + by rewrite H3.
    + apply Hinv.
  - unfold effect_ok. rewrite H6. split_and!; try done; [by auto|]. intros data Hd. left. congruence.
Qed.

Lemma reads n :
  threads !! t = Some (RRequest n) → ReadSector x t now (RRequest n) = Some r → goes x threads t (RRequest n) r.
Proof.
  intros Hp Hr. pose proof (Inv_calm x threads t _ Hinv Hp eq_refl eq_refl) as (C1 & C2 & C3).
  pose proof (v_calls _ _ Hinv t _ Hp) as Hn. simpl in Hn. cbn [ReadSector] in Hr. injection Hr as Hr. rewrite <- Hr. clear Hr.
  destruct (start_read_ok (disk x) now n (v_disk _ _ Hinv) C1 Hn) as (d' & ticks & -> & Ht & Hd' & Ha' & Hs'). run_ok.
  rewrite shared_Schedule_ok by done. run_ok. eexists _, _. split; [reflexivity|]. split.
  - eapply (Inv_moves x _ threads t _ (RWait _) Hinv Hp); try done; [by left|]. left. split_and!; [done|done|].
    exists ticks. simpl. by rewrite C2.
  - split_and!; [intros m _; simpl; by rewrite Hs'| |by eauto 10|].
    + intros k data [= -> ->]. done.
    + intros data [= <-]. right. by exists n.
Qed.

Lemma writes n data :
  threads !! t = Some (WRequest n data) → WriteSector x t now (WRequest n data) = Some r → goes x threads t (WRequest n data) r.
Proof.
  intros Hp Hr. pose proof (Inv_calm x threads t _ Hinv Hp eq_refl eq_refl) as (C1 & C2 & C3).
  pose proof (v_calls _ _ Hinv t _ Hp) as [Hn Hlen]. cbn [WriteSector] in Hr. injection Hr as Hr. rewrite <- Hr. clear Hr.
  destruct (start_write_ok (disk x) now n data (v_disk _ _ Hinv) C1 Hn Hlen) as (d' & ticks & -> & Ht & Hd' & Ha' & Hs'). run_ok.
  rewrite shared_Schedule_ok by done. run_ok. eexists _, _. split; [reflexivity|]. split.
  - eapply (Inv_moves x _ threads t _ WWait Hinv Hp); try done; [by left|]. left. split_and!; [done|done|].
    exists ticks. simpl. by rewrite C2.
  - split_and!; [intros m Hm; simpl; by rewrite Hs'|done|by eauto 10|done].
Qed.

Lemma step_goes p : threads !! t = Some p → step x t now p = Some r → goes x threads t p r.
Proof.
  intros Hp Hr. pose proof (v_calls _ _ Hinv t p Hp) as Hc.
  destruct p; try discriminate Hr; cbn [step] in Hr.
  - by eapply (acquires (RAcquire n) (RRequest n)).
  - by apply reads.
  - by eapply (passes (RWait data) (RRelease data)).
  - injection Hr as Hr. eapply (releases (RRelease data) (RDone data)); try done. by right.
  - by eapply (acquires (WAcquire n data) (WRequest n data)).
  - by apply writes.
  - by eapply (passes WWait WRelease).
  - injection Hr as Hr. eapply (releases WRelease Out); try done. by left.
Qed.

(** The interrupt finds the request that it belongs to. *)
Lemma interrupt_goes i y :
  take_interrupt x i = Some y → ∃ x', y = Ok x' ∧ Inv x' threads ∧ sectors (disk x') = sectors (disk x).
Proof.
  intros Hy. unfold take_interrupt in Hy. destruct (pending x !! i) as [a|] eqn:Ei; [|done]. simpl in Hy.
  destruct Hinv as [V1 V2 V3 V4 V5]. destruct (decide (number waits threads = 0)%nat) as [Hz|Hnz].
  { destruct V2 as (_ & E & _); [|by rewrite E in Ei]. intros u q Hq. destruct (waits q) eqn:Ew; [|done].
    pose proof (number_some waits threads u q Hq Ew). lia. }
  destruct (number_pos waits threads) as (u & q & Hq & Hw); [lia|].
  destruct (V3 u q Hq Hw) as [(U1 & U2 & ticks & U3)|(_ & E & _)]; [|by rewrite E in Ei].
  rewrite U3 in Ei. destruct i as [|i]; [|done]. injection Ei as <-. rewrite !Z.eqb_refl in Hy. cbn [andb] in Hy.
  destruct V5 as [[K1 K2] K3 K4]. unfold HandleInterrupt in Hy. simpl in Hy. rewrite K1, K2, !Z.eqb_refl in Hy. cbn [andb] in Hy.
  injection Hy as <-. eexists. split; [reflexivity|]. split; [|done].
  assert (finished (V (set_disk (set_pending x (delete 0%nat (pending x))) (set_active (disk x) false)))) as Hfin.
  { split_and!; [done|simpl; by rewrite U3|]. simpl. lia. }
  split; try done.
  - intros Hno. specialize (Hno u q Hq). congruence.
  - intros t' p' _ _. by right.
Qed.
End one_step.

(** ** Runs *)

Lemma array_after_app a tr1 tr2 : after a (tr1 ++ tr2) = after (after a tr1) tr2.
Proof. apply foldl_app. Qed.

Lemma reads_ok_app tr1 tr2 : ∀ a, reads_ok a tr1 → reads_ok (after a tr1) tr2 → reads_ok a (tr1 ++ tr2).
Proof. induction tr1 as [|e tr1 IH]; intros a H1 H2; [done|]. destruct H1 as [H1 H1']. split; [done|]. by apply IH. Qed.

(** The array is only looked at where there are sectors. *)
Lemma after_congr tr : ∀ a a' m, (∀ k, is_sector k → a k = a' k) → is_sector m → after a tr m = after a' tr m.
Proof.
  induction tr as [|e tr IH]; intros a a' m Ha Hm; [by apply Ha|]. simpl. apply IH; [|done]. intros k Hk.
  destruct e as [t n data|t n data]; simpl; [by apply Ha|]. destruct (k =? n); [done|by apply Ha].
Qed.

Lemma read_by_app t tr1 tr2 : read_by t (tr1 ++ tr2) = read_by t tr1 ++ read_by t tr2.
Proof. apply omap_app. Qed.

Record good (x0 : shared) (tr : list event) (x : shared) (threads : list place) : Prop := mkGood {
  g_inv : Inv x threads;
  g_sectors m : is_sector m → sectors (disk x) m = after (sectors (disk x0)) tr m;
  g_reads : reads_ok (sectors (disk x0)) tr;
  g_returns t p data : threads !! t = Some p → returns p = Some data → last (read_by t tr) = Some data;
}.

Lemma good_step x0 tr x threads t now p x' p' :
  good x0 tr x threads → threads !! t = Some p → step x t now p = Some (Ok (x', p')) →
  good x0 (tr ++ emits t p p') x' (<[t := p']> threads).
Proof.
  intros [G1 G2 G3 G4] Hp Hs. destruct (step_goes x threads t now _ G1 p Hp Hs) as (x1 & p1 & [= <- <-] & HI & E1 & E2 & E3 & E4).
  assert (t < length threads)%nat as Ht by (by eapply lookup_lt_Some). split; [done|..].
  - intros m Hm. rewrite E1, array_after_app by done. by apply after_congr.
  - apply reads_ok_app; [done|]. destruct E3 as [->|[(n & data & E)|(n & data & ->)]]; [done| |done]. rewrite E.
    destruct (E2 n data E) as (Hn & -> & _). split; [by apply G2|done].
  - intros u q data Hq Hr. rewrite read_by_app. destruct (decide (u = t)) as [->|Hne].
    + rewrite list_lookup_insert_eq in Hq by done. injection Hq as <-. destruct (E4 data Hr) as [Hold|[n ->]].
      * destruct E3 as [->|[(n & d & E)|(n & d & ->)]]; [by rewrite app_nil_r; eauto| |by rewrite app_nil_r; eauto].
        destruct (E2 n d E) as (_ & _ & Hd). rewrite E. simpl. rewrite decide_True, last_snoc by done. congruence.
      * simpl. by rewrite decide_True, last_snoc.
    + rewrite list_lookup_insert_ne in Hq by done.
      assert (read_by u (emits t p p') = []) as ->; [|rewrite app_nil_r; eauto].
      destruct E3 as [->|[(n & d & ->)|(n & d & ->)]]; [done| |done]. simpl. by rewrite decide_False.
Qed.

Lemma good_call_step x0 tr x threads t p p' :
  good x0 tr x threads → threads !! t = Some p → calls p p' → good x0 tr x (<[t := p']> threads).
Proof.
  intros [G1 G2 G3 G4] Hp Hc. assert (t < length threads)%nat by (by eapply lookup_lt_Some).
  assert (holds p = false ∧ holds p' = false ∧ waits p = false ∧ waits p' = false ∧ returns p' = None ∧ good_call p') as (A1 & A2 & A3 & A4 & A5 & A6)
    by (destruct p, p'; done).
  split; try done.
  - eapply (Inv_moves x x threads t p p' G1 Hp); try done; [left; split; congruence|by rewrite A4, A3|by rewrite A4|apply G1].
  - intros u q data Hq Hr. destruct (decide (u = t)) as [->|Hne].
    + rewrite list_lookup_insert_eq in Hq by done. simplify_eq.
    + rewrite list_lookup_insert_ne in Hq by done. eauto.
Qed.

Lemma run_good x0 k tr x threads :
  disk_ok (disk x0) → calm x0 → lock x0 = None → run x0 k tr x threads → good x0 tr x threads.
Proof.
  intros Hd Hc Hl. induction 1 as [|tr x threads t p p' _ IH Hp Hcall|tr x threads t now p x' p' _ IH Hp Hs|tr x threads i x' _ IH Hi].
  - split; try done; [|intros t p data [-> _]%lookup_replicate Hr; done].
    split; try done; [intros t; rewrite Hl; split; [done|]; by intros (p & [-> _]%lookup_replicate & ?)
                     |by intros t p [-> _]%lookup_replicate|by intros t p [-> _]%lookup_replicate].
  - by eapply good_call_step.
  - by eapply good_step.
  - destruct IH as [G1 G2 G3 G4]. destruct (interrupt_goes x threads G1 i _ Hi) as (x1 & [= <-] & HI & Es).
    split; try done. intros m Hm. rewrite Es. by apply G2.
Qed.

(** The disk that [SynchDisk_new] makes. *)
Lemma SynchDisk_new_ok file x0 :
  SynchDisk_new file = Ok x0 → (∀ f, file = Some f → Z.of_nat (length f) = DiskSize) →
  disk_ok (disk x0) ∧ calm x0 ∧ lock x0 = None.
Proof.
  intros Hn Hf. unfold SynchDisk_new in Hn. destruct (Disk_new _ _ _ _) as [d|] eqn:Ed; [|done]. injection Hn as <-.
  assert (disk_ok d ∧ active d = false) as [Hd Ha]; [|by split_and!].
  destruct file as [f|].
  - unfold Disk_new in Ed. specialize (Hf f eq_refl). destruct (read_at f 0 MagicSize); [|done]. cbn [mbind result_bind] in Ed.
    destruct (ASSERT _); [|done]. injection Ed as <-. by split.
  - destruct (Disk_new_ok HOST_IS_BIG_ENDIAN DiskRequestDone_addr synch_addr) as (d' & E & F1 & F2 & F3 & F4 & F5 & _).
    rewrite E in Ed. injection Ed as <-. split; [|done]. split; [done|by rewrite F4|done].
Qed.

(** ** Nobody waits for ever *)

Lemma somebody_moves x threads t p :
  Inv x threads → threads !! t = Some p → (∀ i, take_interrupt x i = None) →
  (∀ u q now, threads !! u = Some q → step x u now q = None) → p = Out ∨ ∃ data, p = RDone data.
Proof.
  intros V Hp Hi Hq.
  assert (∀ u q, threads !! u = Some q → holds q = false) as Hno.
  { intros u q Hu. destruct (holds q) eqn:Eh; [|done]. specialize (Hq u q 0 Hu).
    assert (waits q = true) as Hw by (by destruct q).
    destruct (v_wait _ _ V u q Hu Hw) as [(_ & _ & ticks & Hpend)|(_ & _ & Hs)].
    - specialize (Hi 0%nat). unfold take_interrupt in Hi. by rewrite Hpend in Hi.
    - assert (P x ≠ None) by (unfold P; rewrite Hs; done). by destruct q; try done; simpl in Hq; destruct (P x). }
  assert (lock x = None) as El.
  { destruct (lock x) as [u|] eqn:E; [|done]. apply (v_lock _ _ V) in E as (q & Hu & Hh). rewrite (Hno u q Hu) in Hh. done. }
  specialize (Hno t p Hp). specialize (Hq t p 0 Hp).
  destruct p; try done; eauto; simpl in Hq; by rewrite shared_Acquire_eq, El in Hq.
Qed.
End real_locks.

(** ** Theorem *)

(** C35: the synchronous disk with any number of threads, in a build with THREADS,
    whatever the interleaving of the threads and of the interrupts and whatever
    the clock says: the requests take effect one after the other, as operations
    of an array of sectors; [ReadSector] returns what it read; no assertion fails
    and nothing else stops; one thread at a time is between [Acquire] and
    [Release], and when it comes out of [P] its request is done; and as long as a
    thread has not returned, some thread or an interrupt can go on. *)
Theorem shared_disk_serial `{!RealLocks} file x0 k tr x threads :
  SynchDisk_new file = Ok x0 → (∀ f, file = Some f → Z.of_nat (length f) = DiskSize) → run x0 k tr x threads →
  (∀ m, is_sector m → sectors (disk x) m = after (sectors (disk x0)) tr m) ∧ reads_ok (sectors (disk x0)) tr ∧
  (∀ t p data, threads !! t = Some p → returns p = Some data → last (read_by t tr) = Some data) ∧
  (∀ t now p e, threads !! t = Some p → step x t now p ≠ Some (Err e)) ∧
  (∀ i e, take_interrupt x i ≠ Some (Err e)) ∧
  (∀ t u p q, threads !! t = Some p → threads !! u = Some q → holds p = true → holds q = true → t = u) ∧
  (∀ t p, threads !! t = Some p → p = WRelease ∨ (∃ data, p = RRelease data) → active (disk x) = false ∧ pending x = []) ∧
  ((∀ i, take_interrupt x i = None) → (∀ t p now, threads !! t = Some p → step x t now p = None) →
   ∀ t p, threads !! t = Some p → p = Out ∨ ∃ data, p = RDone data).
Proof.
  intros Hnew Hf Hrun. destruct (SynchDisk_new_ok file x0 Hnew Hf) as (Hd & Hc & Hl).
  destruct (run_good x0 k tr x threads Hd Hc Hl Hrun) as [G1 G2 G3 G4]. split_and!; try done.
  - intros t now p e Hp Hs. by destruct (step_goes x threads t now _ G1 p Hp Hs) as (? & ? & ? & _).
  - intros i e Hi. by destruct (interrupt_goes x threads G1 i _ Hi) as (? & ? & _).
  - intros t u p q. by apply (Inv_alone x).
  - intros t p Hp Hr. destruct (Inv_calm x threads t p G1 Hp) as (? & ? & _); [|by destruct Hr as [->|[? ->]]..|done].
    by destruct Hr as [->|[? ->]].
  - intros Hi Hq t p Hp. by eapply somebody_moves.
Qed.

(** A schedule: a call, a step of a thread, an interrupt. *)
Inductive move_ := MCall (t : nat) (p : place) | MStep (t : nat) (now : Z) | MInterrupt (i : nat).

Fixpoint play (tr : list event) (x : shared) (threads : list place) (l : list move_) : option (list event * shared * list place) :=
  match l with
  | [] => Some (tr, x, threads)
  | MCall t p' :: l => p ← threads !! t; if decide (calls p p') then play tr x (<[t := p']> threads) l else None
  | MStep t now :: l =>
    p ← threads !! t;
    match step x t now p with Some (Ok (x', p')) => play (tr ++ emits t p p') x' (<[t := p']> threads) l | _ => None end
  | MInterrupt i :: l => match take_interrupt x i with Some (Ok x') => play tr x' threads l | _ => None end
  end.

Lemma disk_play_run x0 k l : ∀ tr x threads tr' x' threads',
  run x0 k tr x threads → play tr x threads l = Some (tr', x', threads') → run x0 k tr' x' threads'.
Proof.
  induction l as [|[t p'|t now|i] l IH]; intros tr x threads tr' x' threads' Hrun Hp; simpl in Hp; [by simplify_eq|..].
  - destruct (threads !! t) as [p|] eqn:Et; [|done]. simpl in Hp. case_decide; [|done]. eapply IH; [|done]. by eapply run_call.
  - destruct (threads !! t) as [p|] eqn:Et; [|done]. simpl in Hp. destruct (step x t now p) as [[[x1 p1]|]|] eqn:Es; try done.
    eapply IH; [|done]. by eapply run_step.
  - destruct (take_interrupt x i) as [[x1|]|] eqn:Ei; try done. eapply IH; [|done]. by eapply run_interrupt.
Qed.
End shared_disk.

(** *** Witnesses: one thread writes a sector while another one waits to read it *)

Definition ones : list Z := replicate 128 1.
Definition write_and_read : list move_ :=
  [MCall 0 (WAcquire 7 ones); MStep 0 0; MCall 1 (RAcquire 7); MStep 0 3; MInterrupt 0; MStep 0 5; MStep 0 5;
   MStep 1 6; MStep 1 7; MInterrupt 0; MStep 1 9; MStep 1 9].

(** The disk that is made when there was none. *)
Definition fresh_disk : shared := match SynchDisk_new 1 2 false None with Ok x => x | Err _ => mkShared (mkDisk [] 0 0 false 0 0) 0 None [] end.

Lemma fresh_disk_new : SynchDisk_new 1 2 false None = Ok fresh_disk.
Proof.
  unfold fresh_disk, SynchDisk_new. destruct (Disk_new_ok false 1 2) as (d & -> & _). reflexivity.
Qed.

Lemma write_and_read_runs :
  ∃ x, run (build := true) 10 1 11 2 fresh_disk 2 [EWrite 0 7 ones; ERead 1 7 ones] x [Out; RDone ones].
Proof.
  assert (match play (build := true) 10 1 11 2 [] fresh_disk [Out; Out] write_and_read with
          | Some (tr, _, threads) => tr = [EWrite 0 7 ones; ERead 1 7 ones] ∧ threads = [Out; RDone ones] | None => False end) as H.
  { vm_compute. by split. }
  destruct (play _ _ _ _ _ _ _ _) as [[[tr x] threads]|] eqn:Ep; [|destruct H]. destruct H as [-> ->].
  exists x. eapply disk_play_run; [apply run_start|exact Ep].
Qed.

Lemma shared_disk_serial_witness :
  ∃ x, run (build := true) 10 1 11 2 fresh_disk 2 [EWrite 0 7 ones; ERead 1 7 ones] x [Out; RDone ones] ∧ sectors (disk x) 7 = ones.
Proof.
  destruct write_and_read_runs as (x & Hrun). exists x. split; [exact Hrun|].
  destruct (@shared_disk_serial 10 1 11 2 false true eq_refl None fresh_disk 2 _ x _ fresh_disk_new ltac:(discriminate) Hrun) as (H & _).
  rewrite H by done. reflexivity.
Defined.

(** Without THREADS nothing keeps a second request away from the disk: it stops on
    [ASSERT(!active)]. *)
Lemma unlocked_disk_stops :
  ∃ tr x threads p, run (build := false) 10 1 11 2 fresh_disk 2 tr x threads ∧
    threads !! 1%nat = Some p ∧ step (build := false) 10 11 x 1 0 p = Some (Err AssertionFailed).
Proof.
  assert (match play (build := false) 10 1 11 2 [] fresh_disk [Out; Out]
            [MCall 0 (RAcquire 7); MStep 0 0; MStep 0 0; MCall 1 (RAcquire 8); MStep 1 0] with
          | Some (_, x, threads) => threads !! 1%nat = Some (RRequest 8) ∧
              step (build := false) 10 11 x 1 0 (RRequest 8) = Some (Err AssertionFailed)
          | None => False end) as H.
  { vm_compute. by split. }
  destruct (play _ _ _ _ _ _ _ _) as [[[tr x] threads]|] eqn:Ep; [|destruct H]. destruct H as [H1 H2].
  exists tr, x, threads, (RRequest 8).
  split; [|split; [exact H1|exact H2]]. eapply disk_play_run; [apply run_start|exact Ep].
Qed.

End SharedDisk.
