(* ===== verification/FileSys.v ===== *)
(** * The file system: filesys/filehdr.cc, filesys/openfile.cc,
      filesys/directory.cc, filesys/filesys.cc, and [FetchFrom] and [WriteBack]
      of userprog/bitmap.cc

    The real file system of Nachos (the build without FILESYS_STUB), over the
    interface [SectorOps] of a synchronous disk.  What is kept on the disk is
    there as bytes: a file header in one sector, the free map and the directory
    as files; reading and writing them goes through the layout of the C++
    objects in memory. *)

From stdpp Require Import base list gmap.
From S2P Require Import Prelude Lists BitMap Machine Bytes Disk.
Import Bytes Disk.

(** ** What the file system needs of a disk *)
Class SectorOps (D : Type) := {
  ReadSector : D → Z → result (list Z * D);
  WriteSector : D → Z → list Z → result D;
}.

(** Sectors are numbered from 0 to [NumSectors - 1]; any other number stops the
    kernel; a sector holds what was last written to it. *)
Class SectorLaws (D : Type) `{SectorOps D} := {
  disk_ok : D → Prop;
  sector : D → Z → list Z;
  sector_length d n : disk_ok d → is_sector n → length (sector d n) = Z.to_nat SectorSize;
  read_law d n :
    disk_ok d → is_sector n →
    ∃ d', ReadSector d n = Ok (sector d n, d') ∧ disk_ok d' ∧ ∀ m, is_sector m → sector d' m = sector d m;
  write_law d n data :
    disk_ok d → is_sector n → length data = Z.to_nat SectorSize →
    ∃ d', WriteSector d n data = Ok d' ∧ disk_ok d' ∧ sector d' n = data ∧
          ∀ m, is_sector m → m ≠ n → sector d' m = sector d m;
  sector_range d n data :
    disk_ok d → length data = Z.to_nat SectorSize → ¬ is_sector n →
    ReadSector d n = Err AssertionFailed ∧ WriteSector d n data = Err AssertionFailed;
}.

Module FileSys.

(** ** filehdr.h *)
Definition NumDirect : Z := (SectorSize - 2 * 4) / 4.
Definition MaxFileSize : Z := NumDirect * SectorSize.

(** [class FileHeader]. *)
Record FileHeader := mkHdr {
  numBytes : Z;
  numSectors : Z;
  dataSectors : list Z;
}.

(** [class OpenFile]. *)
Record OpenFile := mkOpen {
  hdr : FileHeader;
  seekPosition : Z;
}.

(** ** directory.h *)
Definition FileNameMaxLen : Z := 9.

(** [class DirectoryEntry]; [pad1] and [pad2] are the bytes that the alignment
    of [sector] and of the next entry leaves unused. *)
Record DirectoryEntry := mkEntry {
  inUse : bool;
  pad1 : list Z;
  esector : Z;
  name : list Z;
  pad2 : list Z;
}.

Definition sizeof_DirectoryEntry : Z := 20.

(** [class Directory]; [tableSize] is the length of [table]. *)
Record Directory := mkDirectory { table : list DirectoryEntry }.

(** ** filesys.cc *)
Definition FreeMapSector : Z := 0.
Definition DirectorySector : Z := 1.
Definition FreeMapFileSize : Z := NumSectors / BitMap.BitsInByte.
Definition NumDirEntries : Z := 10.
Definition DirectoryFileSize : Z := sizeof_DirectoryEntry * NumDirEntries.

(** [class FileSystem]. *)
Record FileSystem := mkFileSys {
  freeMapFile : OpenFile;
  directoryFile : OpenFile;
}.

Section layout.
Context (HOST_IS_BIG_ENDIAN : bool).

(** [(char * )this] of a [FileHeader], and a [FileHeader] filled from bytes. *)
Definition header_bytes (h : FileHeader) : list Z :=
  mjoin (int_bytes HOST_IS_BIG_ENDIAN <$> numBytes h :: numSectors h :: dataSectors h).
Definition header_of (bs : list Z) : FileHeader :=
  mkHdr (int_at HOST_IS_BIG_ENDIAN bs 0) (int_at HOST_IS_BIG_ENDIAN bs 4) ((λ i, int_at HOST_IS_BIG_ENDIAN bs (8 + 4 * i)) <$> seq 0 (Z.to_nat NumDirect)).

(** [(char * )map] of a [BitMap]. *)
Definition map_bytes (words : list Z) : list Z := mjoin (int_bytes HOST_IS_BIG_ENDIAN <$> words).
Definition map_of (bs : list Z) (n : nat) : list Z := (λ i, word_at HOST_IS_BIG_ENDIAN bs (4 * i)) <$> seq 0 n.

(** [(char * )table] of a [Directory]. *)
Definition entry_bytes (e : DirectoryEntry) : list Z :=
  (if inUse e then 1 else 0) :: pad1 e ++ int_bytes HOST_IS_BIG_ENDIAN (esector e) ++ name e ++ pad2 e.
Definition entry_of (bs : list Z) : DirectoryEntry :=
  mkEntry (negb (default 0 (head bs) =? 0)) (take 3 (drop 1 bs)) (int_at HOST_IS_BIG_ENDIAN bs 4)
    (take 10 (drop 8 bs)) (take 2 (drop 18 bs)).
Definition table_bytes (t : list DirectoryEntry) : list Z := t ≫= entry_bytes.
Definition table_of (bs : list Z) (n : nat) : list DirectoryEntry :=
  (λ i, entry_of (drop (20 * i) bs)) <$> seq 0 n.

End layout.

Section files.
Context {D : Type} `{SectorOps D}.
(** The byte order of the host, and memory that is not initialised: the bytes
    of a buffer, a file header, the entries of a directory, the words of a bit
    map. *)
Context (HOST_IS_BIG_ENDIAN : bool) (uninit : nat → Z) (stale_header : FileHeader)
  (stale_entry : nat → DirectoryEntry) (stale_words : list Z).

Definition buffer (n : Z) : list Z := uninit <$> seq 0 (Z.to_nat n).

(** ** filehdr.cc *)

Fixpoint Allocate_loop (n : nat) (freeMap : BitMap.BitMap) (sectors : list Z) (i : Z)
    : result (list Z * BitMap.BitMap) :=
  match n with
  | O => Ok (sectors, freeMap)
  | S n =>
    '(s, freeMap) ← BitMap.Find freeMap;
    sectors ← aset sectors i s;
    Allocate_loop n freeMap sectors (i + 1)
  end.

(** The result, [*this] and the free map. *)
Definition Allocate (this : FileHeader) (freeMap : BitMap.BitMap) (fileSize : Z)
    : result (bool * FileHeader * BitMap.BitMap) :=
  let n := divRoundUp fileSize SectorSize in
  let this := mkHdr fileSize n (dataSectors this) in
  free ← BitMap.NumClear freeMap;
  if free <? n then Ok (false, this, freeMap)
  else
    '(sectors, freeMap) ← Allocate_loop (Z.to_nat n) freeMap (dataSectors this) 0;
    Ok (true, mkHdr fileSize n sectors, freeMap).

Fixpoint Deallocate_loop (n : nat) (freeMap : BitMap.BitMap) (sectors : list Z) (i : Z)
    : result BitMap.BitMap :=
  match n with
  | O => Ok freeMap
  | S n =>
    s ← aget sectors i;
    t ← BitMap.Test freeMap s;
    _ ← ASSERT t;
    freeMap ← BitMap.Clear freeMap s;
    Deallocate_loop n freeMap sectors (i + 1)
  end.

Definition Deallocate (this : FileHeader) (freeMap : BitMap.BitMap) : result BitMap.BitMap :=
  Deallocate_loop (Z.to_nat (numSectors this)) freeMap (dataSectors this) 0.

Definition FetchFrom (d : D) (sectorNumber : Z) : result (FileHeader * D) :=
  '(bs, d) ← ReadSector d sectorNumber;
  Ok (header_of HOST_IS_BIG_ENDIAN bs, d).

Definition WriteBack (d : D) (this : FileHeader) (sectorNumber : Z) : result D :=
  WriteSector d sectorNumber (header_bytes HOST_IS_BIG_ENDIAN this).

Definition ByteToSector (this : FileHeader) (offset : Z) : result Z :=
  aget (dataSectors this) (Z.quot offset SectorSize).

Definition FileLength (this : FileHeader) : Z := numBytes this.

(** ** openfile.cc *)

Definition OpenFile_new (d : D) (sectorNumber : Z) : result (OpenFile * D) :=
  '(h, d) ← FetchFrom d sectorNumber; Ok (mkOpen h 0, d).

Definition Seek (f : OpenFile) (position : Z) : OpenFile := mkOpen (hdr f) position.

Definition Length (f : OpenFile) : Z := FileLength (hdr f).

(** The first two statements of [ReadAt] and [WriteAt]: how many bytes there
    are to transfer. *)
Definition check_request (f : OpenFile) (n position : Z) : Z :=
  let fileLength := FileLength (hdr f) in
  if (n <=? 0) || (position >=? fileLength) then 0
  else if s32 (position + n) >? fileLength then fileLength - position else n.

(** The sectors from [i] on, [n] of them. *)
Fixpoint read_sectors (n : nat) (d : D) (f : OpenFile) (i : Z) : result (list Z * D) :=
  match n with
  | O => Ok ([], d)
  | S n =>
    s ← ByteToSector (hdr f) (i * SectorSize);
    '(bs, d) ← ReadSector d s;
    '(rest, d) ← read_sectors n d f (i + 1);
    Ok (bs ++ rest, d)
  end.

(** The bytes that [ReadAt] copies to [into]; it returns their number. *)
Definition ReadAt (d : D) (f : OpenFile) (n position : Z) : result (list Z * D) :=
  let n := check_request f n position in
  if n =? 0 then Ok ([], d)
  else
    let firstSector := divRoundDown position SectorSize in
    let lastSector := divRoundDown (s32 (position + n - 1)) SectorSize in
    '(buf, d) ← read_sectors (Z.to_nat (1 + lastSector - firstSector)) d f firstSector;
    bs ← Machine.load_bytes buf (position - firstSector * SectorSize) (Z.to_nat n);
    Ok (bs, d).

Fixpoint write_sectors (n : nat) (d : D) (f : OpenFile) (buf : list Z) (first i : Z) : result D :=
  match n with
  | O => Ok d
  | S n =>
    s ← ByteToSector (hdr f) (i * SectorSize);
    bs ← Machine.load_bytes buf ((i - first) * SectorSize) (Z.to_nat SectorSize);
    d ← WriteSector d s bs;
    write_sectors n d f buf first (i + 1)
  end.

(** [ReadAt(&buf[offset], SectorSize, position)]. *)
Definition read_into (d : D) (f : OpenFile) (buf : list Z) (offset position : Z) : result (list Z * D) :=
  '(bs, d) ← ReadAt d f SectorSize position;
  buf ← Machine.store_bytes buf offset bs;
  Ok (buf, d).

(** The number of bytes written. *)
Definition WriteAt (d : D) (f : OpenFile) (from : list Z) (n position : Z) : result (Z * D) :=
  let n := check_request f n position in
  if n =? 0 then Ok (0, d)
  else
    let firstSector := divRoundDown position SectorSize in
    let lastSector := divRoundDown (s32 (position + n - 1)) SectorSize in
    let count := 1 + lastSector - firstSector in
    let buf := buffer (count * SectorSize) in
    let firstAligned := position =? firstSector * SectorSize in
    let lastAligned := position + n =? (lastSector + 1) * SectorSize in
    '(buf, d) ← (if negb firstAligned
                 then read_into d f buf 0 (firstSector * SectorSize) else Ok (buf, d));
    '(buf, d) ← (if negb lastAligned && (negb (firstSector =? lastSector) || firstAligned)
                 then read_into d f buf ((lastSector - firstSector) * SectorSize) (lastSector * SectorSize)
                 else Ok (buf, d));
    bs ← Machine.load_bytes from 0 (Z.to_nat n);
    buf ← Machine.store_bytes buf (position - firstSector * SectorSize) bs;
    d ← write_sectors (Z.to_nat count) d f buf firstSector firstSector;
    Ok (n, d).

Definition Read (d : D) (f : OpenFile) (n : Z) : result (list Z * OpenFile * D) :=
  '(bs, d) ← ReadAt d f n (seekPosition f);
  Ok (bs, mkOpen (hdr f) (s32 (seekPosition f + Z.of_nat (length bs))), d).

Definition Write (d : D) (f : OpenFile) (from : list Z) (n : Z) : result (Z * OpenFile * D) :=
  '(r, d) ← WriteAt d f from n (seekPosition f);
  Ok (r, mkOpen (hdr f) (s32 (seekPosition f + r)), d).

(** ** bitmap.cc *)

Definition BitMap_FetchFrom (d : D) (b : BitMap.BitMap) (file : OpenFile) : result (BitMap.BitMap * D) :=
  '(bs, d) ← ReadAt d file (BitMap.numWords b * 4) 0;
  img ← Machine.store_bytes (map_bytes HOST_IS_BIG_ENDIAN (BitMap.map b)) 0 bs;
  Ok (BitMap.mkBitMap (BitMap.numBits b) (BitMap.numWords b)
        (map_of HOST_IS_BIG_ENDIAN img (length (BitMap.map b))), d).

Definition BitMap_WriteBack (d : D) (b : BitMap.BitMap) (file : OpenFile) : result D :=
  '(_, d) ← WriteAt d file (map_bytes HOST_IS_BIG_ENDIAN (BitMap.map b)) (BitMap.numWords b * 4) 0;
  Ok d.

(** ** directory.cc *)

(** [!strncmp(a, b, n)]; the string [b] ends where the list ends. *)
Fixpoint strncmp_equal (n : nat) (a b : list Z) : bool :=
  match n with
  | O => true
  | S n =>
    let x := default 0 (head a) in
    let y := default 0 (head b) in
    if negb (x =? y) then false
    else if x =? 0 then true
    else strncmp_equal n (tail a) (tail b)
  end.

(** [strncpy(dst, src, n)]; the string [src] has no null character and ends
    where the list ends. *)
Definition strncpy (dst src : list Z) (n : nat) : list Z :=
  take n (src ++ replicate n 0) ++ drop n dst.

Definition Directory_new (size : Z) : Directory :=
  mkDirectory ((λ i, let e := stale_entry i in mkEntry false (pad1 e) (esector e) (name e) (pad2 e))
                 <$> seq 0 (Z.to_nat size)).

Definition tableSize (dir : Directory) : Z := Z.of_nat (length (table dir)).

Definition Directory_FetchFrom (d : D) (dir : Directory) (file : OpenFile) : result (Directory * D) :=
  '(bs, d) ← ReadAt d file (tableSize dir * sizeof_DirectoryEntry) 0;
  img ← Machine.store_bytes (table_bytes HOST_IS_BIG_ENDIAN (table dir)) 0 bs;
  Ok (mkDirectory (table_of HOST_IS_BIG_ENDIAN img (length (table dir))), d).

Definition Directory_WriteBack (d : D) (dir : Directory) (file : OpenFile) : result D :=
  '(_, d) ← WriteAt d file (table_bytes HOST_IS_BIG_ENDIAN (table dir))
              (tableSize dir * sizeof_DirectoryEntry) 0;
  Ok d.

Definition matches (nm : list Z) (e : DirectoryEntry) : bool :=
  inUse e && strncmp_equal (Z.to_nat FileNameMaxLen) (name e) nm.

(** The first index from [i] on of an entry that satisfies [p], or -1. *)
Fixpoint first_index (p : DirectoryEntry → bool) (t : list DirectoryEntry) (i : Z) : Z :=
  match t with
  | [] => -1
  | e :: t => if p e then i else first_index p t (i + 1)
  end.

Definition FindIndex (dir : Directory) (nm : list Z) : Z := first_index (matches nm) (table dir) 0.

Definition Find (dir : Directory) (nm : list Z) : result Z :=
  let i := FindIndex dir nm in
  if negb (i =? -1) then e ← aget (table dir) i; Ok (esector e) else Ok (-1).

Definition Add (dir : Directory) (nm : list Z) (newSector : Z) : result (bool * Directory) :=
  if negb (FindIndex dir nm =? -1) then Ok (false, dir)
  else
    let i := first_index (λ e, negb (inUse e)) (table dir) 0 in
    if i =? -1 then Ok (false, dir)
    else
      e ← aget (table dir) i;
      t ← aset (table dir) i
            (mkEntry true (pad1 e) newSector (strncpy (name e) nm (Z.to_nat FileNameMaxLen)) (pad2 e));
      Ok (true, mkDirectory t).

Definition Remove (dir : Directory) (nm : list Z) : result (bool * Directory) :=
  let i := FindIndex dir nm in
  if i =? -1 then Ok (false, dir)
  else
    e ← aget (table dir) i;
    t ← aset (table dir) i (mkEntry false (pad1 e) (esector e) (name e) (pad2 e));
    Ok (true, mkDirectory t).

(** ** filesys.cc *)

Definition FileSystem_format (d : D) : result (FileSystem * D) :=
  freeMap ← BitMap.BitMap_new NumSectors stale_words;
  let directory := Directory_new NumDirEntries in
  freeMap ← BitMap.Mark freeMap FreeMapSector;
  freeMap ← BitMap.Mark freeMap DirectorySector;
  '(ok, mapHdr, freeMap) ← Allocate stale_header freeMap FreeMapFileSize;
  _ ← ASSERT ok;
  '(ok, dirHdr, freeMap) ← Allocate stale_header freeMap DirectoryFileSize;
  _ ← ASSERT ok;
  d ← WriteBack d mapHdr FreeMapSector;
  d ← WriteBack d dirHdr DirectorySector;
  '(freeMapFile, d) ← OpenFile_new d FreeMapSector;
  '(directoryFile, d) ← OpenFile_new d DirectorySector;
  d ← BitMap_WriteBack d freeMap freeMapFile;
  d ← Directory_WriteBack d directory directoryFile;
  Ok (mkFileSys freeMapFile directoryFile, d).

(** [FileSystem::FileSystem(format)]. *)
Definition FileSystem_new (d : D) (format : bool) : result (FileSystem * D) :=
  if format then FileSystem_format d
  else
    '(freeMapFile, d) ← OpenFile_new d FreeMapSector;
    '(directoryFile, d) ← OpenFile_new d DirectorySector;
    Ok (mkFileSys freeMapFile directoryFile, d).

Definition Create (d : D) (fs : FileSystem) (nm : list Z) (initialSize : Z) : result (bool * D) :=
  '(directory, d) ← Directory_FetchFrom d (Directory_new NumDirEntries) (directoryFile fs);
  found ← Find directory nm;
  if negb (found =? -1) then Ok (false, d)
  else
    freeMap ← BitMap.BitMap_new NumSectors stale_words;
    '(freeMap, d) ← BitMap_FetchFrom d freeMap (freeMapFile fs);
    '(sector, freeMap) ← BitMap.Find freeMap;
    if sector =? -1 then Ok (false, d)
    else
      '(ok, directory) ← Add directory nm sector;
      if negb ok then Ok (false, d)
      else
        '(ok, h, freeMap) ← Allocate stale_header freeMap initialSize;
        if negb ok then Ok (false, d)
        else
          d ← WriteBack d h sector;
          d ← Directory_WriteBack d directory (directoryFile fs);
          d ← BitMap_WriteBack d freeMap (freeMapFile fs);
          Ok (true, d).

(** [None] is NULL. *)
Definition Open (d : D) (fs : FileSystem) (nm : list Z) : result (option OpenFile * D) :=
  '(directory, d) ← Directory_FetchFrom d (Directory_new NumDirEntries) (directoryFile fs);
  sector ← Find directory nm;
  if sector >=? 0 then '(f, d) ← OpenFile_new d sector; Ok (Some f, d) else Ok (None, d).

Definition FileSystem_Remove (d : D) (fs : FileSystem) (nm : list Z) : result (bool * D) :=
  '(directory, d) ← Directory_FetchFrom d (Directory_new NumDirEntries) (directoryFile fs);
  sector ← Find directory nm;
  if sector =? -1 then Ok (false, d)
  else
    '(fileHdr, d) ← FetchFrom d sector;
    freeMap ← BitMap.BitMap_new NumSectors stale_words;
    '(freeMap, d) ← BitMap_FetchFrom d freeMap (freeMapFile fs);
    freeMap ← Deallocate fileHdr freeMap;
    freeMap ← BitMap.Clear freeMap sector;
    '(_, directory) ← Remove directory nm;
    d ← BitMap_WriteBack d freeMap (freeMapFile fs);
    d ← Directory_WriteBack d directory (directoryFile fs);
    Ok (true, d).

End files.

End FileSys.
