(* ===== verification/Files.v ===== *)
(** * Open files

    What is kept on the disk and what is read back from it is the same: the
    layout of file headers, bit maps and directories.  A file is the list of
    its bytes ([contents]): [ReadAt] returns a stretch of it and [WriteAt]
    overwrites a stretch of it, whatever the alignment, and nothing else on the
    disk changes. *)

From stdpp Require Import base list gmap.
From S2P Require Import Prelude Lists BitMap Machine Bytes Disk.
Import Bytes Disk.
From S2P Require Import FileSys.

Module Files.
Import FileSys.

(** ** Lists of pieces of the same length *)
Section pieces.
Context {A : Type} (k : nat).

Lemma join_cons (l : list A) ls : mjoin (l :: ls) = l ++ mjoin ls.
Proof. done. Qed.

Lemma join_length (ls : list (list A)) :
  Forall (λ l, length l = k) ls → length (mjoin ls) = (k * length ls)%nat.
Proof. induction 1; [simpl; lia|]. rewrite join_cons, length_app. simpl. lia. Qed.

Lemma join_drop (ls : list (list A)) i :
  Forall (λ l, length l = k) ls → drop (k * i) (mjoin ls) = mjoin (drop i ls).
Proof.
  intros H. revert i. induction H as [|l ls Hl _ IH]; intros [|i].
  - by rewrite Nat.mul_0_r.
  - change (drop (k * S i) (@nil A) = mjoin (drop (S i) [])). by rewrite !drop_nil.
  - by rewrite Nat.mul_0_r.
  - cbn [drop]. rewrite join_cons, drop_app_ge by lia. rewrite <- IH. f_equal. lia.
Qed.

Lemma join_take (ls : list (list A)) i :
  Forall (λ l, length l = k) ls → take (k * i) (mjoin ls) = mjoin (take i ls).
Proof.
  intros H. revert i. induction H as [|l ls Hl _ IH]; intros [|i].
  - by rewrite Nat.mul_0_r.
  - change (take (k * S i) (@nil A) = mjoin (take (S i) [])). by rewrite !take_nil.
  - by rewrite Nat.mul_0_r.
  - cbn [take]. rewrite !join_cons, take_app_ge by lia. rewrite <- IH. do 2 f_equal. lia.
Qed.

Lemma join_lookup (ls : list (list A)) i j l :
  Forall (λ l, length l = k) ls → ls !! i = Some l → (j < k)%nat → mjoin ls !! (k * i + j)%nat = l !! j.
Proof.
  intros H Hi Hj. rewrite <- lookup_drop, join_drop by done. rewrite (drop_S _ _ _ Hi), join_cons.
  rewrite Forall_lookup in H. specialize (H _ _ Hi). by rewrite lookup_app_l by lia.
Qed.

End pieces.

(** ** The layout *)
Section layout.
Context (E : bool).

Lemma ints_length ws : Forall (λ l, length l = 4%nat) (int_bytes E <$> ws).
Proof. apply Forall_fmap, Forall_true. intros x. apply int_bytes_length. Qed.

Lemma word_at_words hd ws i x o :
  ws !! i = Some x → o = (length hd + 4 * i)%nat → word_at E (hd ++ mjoin (int_bytes E <$> ws)) o = u32 x.
Proof.
  intros Hx ->. rewrite <- (take_drop_middle ws i x Hx), fmap_app, fmap_cons.
  rewrite join_app, join_cons, (assoc_L (++)). apply word_at_int.
  rewrite length_app, (join_length 4) by apply ints_length. rewrite length_fmap, length_take.
  apply lookup_lt_Some in Hx. lia.
Qed.

Lemma map_bytes_length ws : length (map_bytes E ws) = (4 * length ws)%nat.
Proof. unfold map_bytes. rewrite (join_length 4) by apply ints_length. by rewrite length_fmap. Qed.

Lemma map_roundtrip ws : Forall is_u32 ws → map_of E (map_bytes E ws) (length ws) = ws.
Proof.
  intros Hu. apply list_eq. intros i. unfold map_of. rewrite list_lookup_fmap. destruct (ws !! i) as [x|] eqn:Hx.
  - pose proof (lookup_lt_Some _ _ _ Hx). rewrite lookup_seq_lt by done. cbn [fmap option_fmap option_map]. f_equal.
    rewrite (word_at_words [] ws i x) by done. apply u32_id. eapply Forall_lookup_1; eauto.
  - apply lookup_ge_None in Hx. by rewrite lookup_seq_ge.
Qed.

(** The integers of a header fit in an [int]. *)
Record ints_ok (h : FileHeader) : Prop := mkInts {
  io_bytes : is_s32 (numBytes h);
  io_sectors : is_s32 (numSectors h);
  io_data : Forall is_s32 (dataSectors h);
  io_length : Z.of_nat (length (dataSectors h)) = NumDirect;
}.

Lemma header_bytes_length h : ints_ok h → length (header_bytes E h) = Z.to_nat SectorSize.
Proof.
  intros [_ _ _ Hl]. unfold header_bytes. rewrite (join_length 4) by apply ints_length. rewrite length_fmap. simpl.
  change NumDirect with 30 in *. change (Z.to_nat SectorSize) with 128%nat. lia.
Qed.

Lemma header_roundtrip h : ints_ok h → header_of E (header_bytes E h) = h.
Proof.
  intros [H1 H2 H3 Hl]. unfold header_of, header_bytes, int_at. destruct h as [nb ns ds].
  cbn [numBytes numSectors dataSectors] in *. set (ws := nb :: ns :: ds). f_equal.
  - rewrite (word_at_words [] ws 0 nb) by done. rewrite s32_u32. by apply s32_id.
  - rewrite (word_at_words [] ws 1 ns) by done. rewrite s32_u32. by apply s32_id.
  - apply list_eq. intros i. rewrite list_lookup_fmap. destruct (ds !! i) as [x|] eqn:Hx.
    + pose proof (lookup_lt_Some _ _ _ Hx). rewrite lookup_seq_lt by (change NumDirect with 30 in *; lia). cbn [fmap option_fmap option_map]. f_equal.
      rewrite (word_at_words [] ws (2 + i) x); [|done|simpl; lia]. rewrite s32_u32. apply s32_id.
      eapply Forall_lookup_1; eauto.
    + apply lookup_ge_None in Hx. by rewrite lookup_seq_ge by (change NumDirect with 30 in *; lia).
Qed.

Record entry_ok (e : DirectoryEntry) : Prop := mkEntryOk {
  eo_pad1 : length (pad1 e) = 3%nat;
  eo_sector : is_s32 (esector e);
  eo_name : length (name e) = 10%nat;
  eo_pad2 : length (pad2 e) = 2%nat;
}.

Lemma entry_bytes_length e : entry_ok e → length (entry_bytes E e) = 20%nat.
Proof.
  intros [H1 _ H3 H4]. unfold entry_bytes. cbn [length]. rewrite !length_app, int_bytes_length. lia.
Qed.

Lemma entry_roundtrip e tl : entry_ok e → entry_of E (entry_bytes E e ++ tl) = e.
Proof.
  intros [H1 H2 H3 H4]. destruct e as [b p s n q]. simpl in *. unfold entry_of, entry_bytes, int_at. simpl.
  assert (∀ (hd : list Z) o (x y : list Z), o = length hd → drop o (hd ++ x ++ y) = x ++ y) as Hd.
  { intros hd o x y ->. apply drop_app_length. }
  f_equal.
  - by destruct b.
  - rewrite <- !(assoc_L (++)). by rewrite drop_0, take_app_length'.
  - set (hd := (if b then 1 else 0) :: p).
    replace (_ :: _) with (hd ++ int_bytes E s ++ n ++ q ++ tl) by (unfold hd; by rewrite <- !(assoc_L (++))).
    rewrite word_at_int by (unfold hd; simpl; lia). rewrite s32_u32. by apply s32_id.
  - rewrite <- !(assoc_L (++)). rewrite (assoc_L (++) p), Hd by (rewrite length_app, int_bytes_length; lia).
    by rewrite take_app_length'.
  - rewrite <- !(assoc_L (++)). rewrite (assoc_L (++) p), (assoc_L (++) (p ++ _)), Hd by (rewrite !length_app, int_bytes_length; lia).
    by rewrite take_app_length'.
Qed.

Lemma entry_pieces t : Forall entry_ok t → Forall (λ l, length l = 20%nat) (entry_bytes E <$> t).
Proof. intros H. apply Forall_fmap. eapply Forall_impl; [exact H|]. apply entry_bytes_length. Qed.

Lemma table_bytes_join t : table_bytes E t = mjoin (entry_bytes E <$> t).
Proof. unfold table_bytes. induction t; csimpl; [done|]. by rewrite IHt. Qed.

Lemma table_bytes_length t : Forall entry_ok t → length (table_bytes E t) = (20 * length t)%nat.
Proof.
  intros H. rewrite table_bytes_join, (join_length 20) by by apply entry_pieces. by rewrite length_fmap.
Qed.

Lemma table_roundtrip t : Forall entry_ok t → table_of E (table_bytes E t) (length t) = t.
Proof.
  intros H. apply list_eq. intros i. unfold table_of. rewrite list_lookup_fmap. destruct (t !! i) as [e|] eqn:He.
  - pose proof (lookup_lt_Some _ _ _ He). rewrite lookup_seq_lt by done. cbn [fmap option_fmap option_map]. f_equal.
    rewrite table_bytes_join, join_drop by by apply entry_pieces. simpl.
    rewrite <- fmap_drop, (drop_S _ _ _ He), fmap_cons, join_cons.
    apply entry_roundtrip. eapply Forall_lookup_1; eauto.
  - apply lookup_ge_None in He. by rewrite lookup_seq_ge.
Qed.

End layout.

(** ** The bytes of a file *)

Definition blocks (h : FileHeader) : list Z := take (Z.to_nat (numSectors h)) (dataSectors h).

(** A file of at most [MaxFileSize] bytes in sectors of its own. *)
Record hdr_ok (h : FileHeader) : Prop := mkHdrOk {
  ho_bytes : 0 ≤ numBytes h ≤ MaxFileSize;
  ho_sectors : numSectors h = divRoundUp (numBytes h) SectorSize;
  ho_data : Forall is_s32 (dataSectors h);
  ho_length : Z.of_nat (length (dataSectors h)) = NumDirect;
  ho_blocks : Forall is_sector (blocks h);
  ho_nodup : NoDup (blocks h);
}.

Lemma sectors_of n : 0 ≤ n ≤ MaxFileSize → 0 ≤ divRoundUp n SectorSize ≤ NumDirect.
Proof.
  intros Hn. pose proof (divRoundUp_spec n SectorSize ltac:(lia) ltac:(done)).
  change MaxFileSize with 3840 in *. change NumDirect with 30. unfold SectorSize in *. lia.
Qed.

Lemma hdr_ints h : hdr_ok h → ints_ok h.
Proof.
  intros [H1 H2 H3 H4 _ _]. pose proof (sectors_of _ H1). change MaxFileSize with 3840 in *. change NumDirect with 30 in *.
  split; unfold is_s32; [lia|lia|done|done].
Qed.

Lemma blocks_length h : hdr_ok h → Z.of_nat (length (blocks h)) = numSectors h.
Proof.
  intros [H1 H2 H3 H4 _ _]. pose proof (sectors_of _ H1). unfold blocks. rewrite length_take. lia.
Qed.

(** The file ends in its last sector. *)
Lemma hdr_size h : hdr_ok h → SectorSize * (numSectors h - 1) < numBytes h ≤ SectorSize * numSectors h.
Proof. intros [H1 H2 _ _ _ _]. rewrite H2. apply divRoundUp_spec; [lia|done]. Qed.

Section contents.
Context {D : Type} `{SectorLaws D}.
(** The same disk, as far as its sectors go. *)
Definition same (d d' : D) : Prop := disk_ok d' ∧ ∀ m, is_sector m → sector d' m = sector d m.

(** Only the sectors of [l] may have changed. *)
Definition only (l : list Z) (d d' : D) : Prop := disk_ok d' ∧ ∀ m, is_sector m → m ∉ l → sector d' m = sector d m.

Definition raw (d : D) (h : FileHeader) : list Z := mjoin (sector d <$> blocks h).

(** What is in the file. *)
Definition contents (d : D) (h : FileHeader) : list Z := take (Z.to_nat (numBytes h)) (raw d h).

Lemma same_refl d : disk_ok d → same d d.
Proof. done. Qed.

Lemma same_trans d1 d2 d3 : same d1 d2 → same d2 d3 → same d1 d3.
Proof. intros [_ H1] [Hok H2]. split; [done|]. intros m Hm. by rewrite H2, H1. Qed.

Lemma same_only l d d' : same d d' → only l d d'.
Proof. intros [H1 H2]. split; [done|]. intros m Hm _. by apply H2. Qed.

Lemma only_trans l1 l2 d1 d2 d3 : only l1 d1 d2 → only l2 d2 d3 → only (l1 ++ l2) d1 d3.
Proof.
  intros [_ H1] [Hok H2]. split; [done|]. intros m Hm Hni. rewrite elem_of_app in Hni. rewrite H2, H1; naive_solver.
Qed.

Lemma only_mono l1 l2 d d' : l1 ⊆ l2 → only l1 d d' → only l2 d d'.
Proof. intros Hs [H1 H2]. split; [done|]. intros m Hm Hni. apply H2; [done|]. set_solver. Qed.

(** The contents depend on the sectors of the file only. *)
Lemma contents_frame l d d' h : hdr_ok h → only l d d' → blocks h ## l → contents d' h = contents d h.
Proof.
  intros Hh [_ Ho] Hd. unfold contents, raw. do 2 f_equal. apply list_fmap_ext. intros i b Hb.
  assert (b ∈ blocks h) by (by eapply list_elem_of_lookup_2). apply Ho; [|set_solver].
  eapply Forall_lookup_1; [apply ho_blocks, Hh|exact Hb].
Qed.

Lemma pieces_length d l : disk_ok d → Forall is_sector l → Forall (λ x, length x = 128%nat) (sector d <$> l).
Proof.
  intros Hok Hl. apply Forall_fmap. eapply Forall_impl; [exact Hl|]. intros n Hn. by apply sector_length.
Qed.

Lemma raw_length d h : disk_ok d → hdr_ok h → Z.of_nat (length (raw d h)) = SectorSize * numSectors h.
Proof.
  intros Hok Hh. unfold raw. rewrite (join_length 128) by (by apply pieces_length; [|apply ho_blocks]).
  rewrite length_fmap. pose proof (blocks_length h Hh). unfold SectorSize. lia.
Qed.

Lemma file_length d h : disk_ok d → hdr_ok h → Z.of_nat (length (contents d h)) = numBytes h.
Proof.
  intros Hok Hh. unfold contents. rewrite length_take. pose proof (raw_length d h Hok Hh). pose proof (hdr_size h Hh).
  pose proof (ho_bytes h Hh). lia.
Qed.

Lemma raw_lookup d h i b j :
  disk_ok d → hdr_ok h → blocks h !! i = Some b → (j < 128)%nat → raw d h !! (128 * i + j)%nat = sector d b !! j.
Proof.
  intros Hok Hh Hb Hj. unfold raw. apply join_lookup; [|by rewrite list_lookup_fmap, Hb|done].
  by apply pieces_length; [|apply ho_blocks].
Qed.

Lemma ByteToSector_ok h (i : Z) :
  hdr_ok h → 0 ≤ i < numSectors h →
  ∃ b, blocks h !! Z.to_nat i = Some b ∧ is_sector b ∧ ByteToSector h (i * SectorSize) = Ok b.
Proof.
  intros Hh Hi. pose proof (blocks_length h Hh) as Hl.
  destruct (lookup_lt_is_Some_2 (blocks h) (Z.to_nat i)) as [b Hb]; [lia|]. exists b. split_and!; [done| |].
  - eapply Forall_lookup_1; [apply ho_blocks, Hh|exact Hb].
  - unfold ByteToSector. rewrite Z.quot_mul by done. unfold blocks in Hb. rewrite lookup_take in Hb.
    case_decide; [|done]. apply aget_Some; [lia|done].
Qed.

Lemma read_sectors_ok n d f i :
  disk_ok d → hdr_ok (hdr f) → 0 ≤ i → i + Z.of_nat n ≤ numSectors (hdr f) →
  ∃ d', read_sectors n d f i = Ok (mjoin (sector d <$> take n (drop (Z.to_nat i) (blocks (hdr f)))), d') ∧ same d d'.
Proof.
  intros Hok Hh. revert d i Hok. induction n as [|n IH]; intros d i Hok Hi Hn; cbn [read_sectors]; [by exists d|].
  destruct (ByteToSector_ok (hdr f) i Hh) as (b & Hb & Hs & ->); [lia|]. run_ok.
  destruct (read_law d b Hok Hs) as (d1 & -> & Hok1 & H1). run_ok.
  destruct (IH d1 (i + 1) Hok1) as (d2 & -> & Hs2); [lia|lia|]. run_ok. exists d2. split; [|by eapply same_trans].
  rewrite (drop_S _ _ _ Hb). cbn [take]. rewrite fmap_cons, join_cons. replace (Z.to_nat (i + 1)) with (S (Z.to_nat i)) by lia.
  do 3 f_equal. f_equal. apply list_fmap_ext. intros k x Hx. apply H1. eapply Forall_lookup_1; [|exact Hx].
  by apply Forall_take, Forall_drop, ho_blocks.
Qed.

(** How many bytes a request transfers. *)
Definition amount (h : FileHeader) (n position : Z) : Z := Z.max 0 (Z.min n (numBytes h - position)).

Lemma check_request_ok f n position :
  0 ≤ position → position + n < 2 ^ 31 → check_request f n position = amount (hdr f) n position.
Proof.
  intros Hp Hn. unfold check_request, amount, FileLength. rewrite Z.geb_leb.
  destruct (Z.leb_spec n 0); simpl; [lia|]. destruct (Z.leb_spec (numBytes (hdr f)) position); [lia|].
  rewrite s32_id by (unfold is_s32; lia). rewrite Z.gtb_ltb. destruct (Z.ltb_spec (numBytes (hdr f)) (position + n)); lia.
Qed.

Lemma lookup_slice (l : list Z) (o n : Z) (i : nat) :
  0 ≤ o → slice l o n !! i = if decide (Z.of_nat i < n) then l !! (Z.to_nat o + i)%nat else None.
Proof.
  intros Ho. unfold slice. case_decide.
  - by rewrite lookup_take_lt, lookup_drop by lia.
  - by rewrite lookup_take_ge by lia.
Qed.

Lemma lookup_contents d h (i : nat) :
  contents d h !! i = if decide (Z.of_nat i < numBytes h) then raw d h !! i else None.
Proof.
  unfold contents. case_decide; [by rewrite lookup_take_lt by lia|by rewrite lookup_take_ge by lia].
Qed.

(** The sectors a request touches. *)
Record touches (h : FileHeader) (position m first last : Z) : Prop := mkTouches {
  to_first : first = position / SectorSize;
  to_last : last = (position + m - 1) / SectorSize;
  to_range : 0 ≤ first ∧ first ≤ last ∧ last < numSectors h;
  to_start : SectorSize * first ≤ position < SectorSize * (first + 1);
  to_end : SectorSize * last < position + m ≤ SectorSize * (last + 1);
}.

Lemma touches_ok h position m :
  hdr_ok h → 0 ≤ position → 0 < m → position + m ≤ numBytes h →
  touches h position m (divRoundDown position SectorSize) (divRoundDown (s32 (position + m - 1)) SectorSize).
Proof.
  intros Hh Hp Hm Hn. pose proof (hdr_size h Hh). pose proof (ho_bytes h Hh). change MaxFileSize with 3840 in *.
  rewrite s32_id by (unfold is_s32; lia). unfold divRoundDown. rewrite !Z.quot_div_nonneg by (unfold SectorSize; lia).
  unfold SectorSize in *.
  split; unfold SectorSize; [done|done|..]; Z.to_euclidean_division_equations; lia.
Qed.

Lemma amount_pos h n position : 0 ≤ position → amount h n position ≠ 0 →
  0 < amount h n position ∧ amount h n position ≤ n ∧ position + amount h n position ≤ numBytes h.
Proof. unfold amount. lia. Qed.

Lemma slice_none d h n position :
  disk_ok d → hdr_ok h → 0 ≤ position → amount h n position = 0 → slice (contents d h) position n = [].
Proof.
  intros Hok Hh Hp Hz. apply length_zero_iff_nil. unfold slice. rewrite length_take, length_drop.
  pose proof (file_length d h Hok Hh). unfold amount in Hz. lia.
Qed.

(** [ReadAt] returns the bytes from [position] on, as many as there are of
    those asked for. *)
Lemma ReadAt_ok d f n position :
  disk_ok d → hdr_ok (hdr f) → 0 ≤ position → position + n < 2 ^ 31 →
  ∃ d', ReadAt d f n position = Ok (slice (contents d (hdr f)) position n, d') ∧ same d d'.
Proof.
  intros Hok Hh Hp Hn. unfold ReadAt. rewrite check_request_ok by done. cbv zeta.
  destruct (Z.eqb_spec (amount (hdr f) n position) 0) as [Hz|Hz].
  { exists d. by rewrite slice_none. }
  destruct (amount_pos (hdr f) n position Hp Hz) as (H1 & H2 & H3). set (m := amount _ _ _) in *.
  destruct (touches_ok (hdr f) position m Hh Hp H1 H3) as [_ _ Hr Hs He].
  set (first := divRoundDown position SectorSize) in *. set (last := divRoundDown (s32 (position + m - 1)) SectorSize) in *.
  destruct (read_sectors_ok (Z.to_nat (1 + last - first)) d f first Hok Hh) as (d' & -> & Hsame); [lia|lia|]. run_ok.
  set (buf := mjoin _). pose proof (raw_length d _ Hok Hh) as Hl.
  assert (buf = slice (raw d (hdr f)) (SectorSize * first) (SectorSize * (1 + last - first))) as ->.
  { unfold slice, buf, raw. replace (Z.to_nat (SectorSize * first)) with (128 * Z.to_nat first)%nat by (unfold SectorSize; lia).
    replace (Z.to_nat (SectorSize * (1 + last - first))) with (128 * Z.to_nat (1 + last - first))%nat by (unfold SectorSize; lia).
    rewrite join_drop, <- fmap_drop, join_take, <- fmap_take;
      [done|apply pieces_length; [done|]; by apply Forall_drop, ho_blocks|by apply pieces_length; [|apply ho_blocks]]. }
  rewrite Machine.load_bytes_ok; [|unfold SectorSize in *; lia|].
  - run_ok. exists d'. split; [|done]. do 2 f_equal. apply list_eq. intros i. fold (slice (contents d (hdr f)) position n).
    rewrite lookup_slice, lookup_contents by done. unfold slice. rewrite take_drop_commute.
    destruct (decide (Z.of_nat i < m)).
    + rewrite lookup_drop, lookup_take_lt, lookup_take_lt, lookup_drop by (unfold SectorSize in *; lia).
      rewrite !decide_True by lia. f_equal. unfold SectorSize in *. lia.
    + rewrite lookup_ge_None_2 by (rewrite length_drop, length_take; lia).
      repeat case_decide; [|done..]. unfold m, amount in *. lia.
  - unfold slice. rewrite length_take, length_drop. unfold SectorSize in *. lia.
Qed.

(** ** Writing *)

Lemma not_touched h (n : nat) (i k b : Z) :
  hdr_ok h → 0 ≤ i → 0 ≤ k → blocks h !! Z.to_nat k = Some b → ¬ (i ≤ k < i + Z.of_nat n) →
  b ∉ take n (drop (Z.to_nat i) (blocks h)).
Proof.
  intros Hh Hi Hk0 Hb Hk (j & Hj)%list_elem_of_lookup. rewrite lookup_take in Hj. case_decide; [|done].
  rewrite lookup_drop in Hj. pose proof (NoDup_lookup _ _ _ _ (ho_nodup h Hh) Hb Hj). lia.
Qed.

Lemma write_sectors_ok n d f buf first i :
  disk_ok d → hdr_ok (hdr f) → 0 ≤ first ≤ i → i + Z.of_nat n ≤ numSectors (hdr f) →
  SectorSize * (i + Z.of_nat n - first) ≤ Z.of_nat (length buf) →
  ∃ d', write_sectors n d f buf first i = Ok d' ∧ only (take n (drop (Z.to_nat i) (blocks (hdr f)))) d d' ∧
    ∀ k b, i ≤ k < i + Z.of_nat n → blocks (hdr f) !! Z.to_nat k = Some b →
           sector d' b = slice buf (SectorSize * (k - first)) SectorSize.
Proof.
  intros Hok Hh. revert d i Hok. induction n as [|n IH]; intros d i Hok Hi Hn Hbuf; cbn [write_sectors].
  { exists d. split_and!; [done|done|intros; lia]. }
  destruct (ByteToSector_ok (hdr f) i Hh) as (b & Hb & Hs & ->); [lia|]. run_ok.
  rewrite Machine.load_bytes_ok by (unfold SectorSize in *; lia). run_ok. set (bs := take _ _).
  assert (bs = slice buf (SectorSize * (i - first)) SectorSize) as Hbs by (unfold bs, slice; do 3 f_equal; lia).
  destruct (write_law d b bs Hok Hs) as (d1 & -> & Hok1 & H1 & H2).
  { unfold bs. rewrite length_take, length_drop. unfold SectorSize in *. lia. }
  run_ok. destruct (IH d1 (i + 1) Hok1) as (d2 & -> & Ho & Hk); [lia|lia|lia|]. exists d2.
  rewrite (drop_S _ _ _ Hb). cbn [take]. replace (Z.to_nat (i + 1)) with (S (Z.to_nat i)) in Ho by lia. split_and!; [done| |].
  - eapply (only_trans [b]); [|exact Ho]. split; [done|]. intros m Hm Hne. apply H2; [done|set_solver].
  - intros k b' Hr Hb'. destruct (decide (k = i)) as [->|Hne]; [|apply Hk; [lia|done]].
    assert (b' = b) as -> by congruence. rewrite <- Hbs, <- H1. apply Ho; [done|].
    replace (S (Z.to_nat i)) with (Z.to_nat (i + 1)) by lia. eapply not_touched; [done|lia| |exact Hb|]; lia.
Qed.

(** One sector of the file read into the buffer, up to the end of the file. *)
Lemma read_into_ok d f buf off k :
  disk_ok d → hdr_ok (hdr f) → 0 ≤ k < numSectors (hdr f) → 0 ≤ off → off + SectorSize ≤ Z.of_nat (length buf) →
  ∃ buf' d', read_into d f buf off (k * SectorSize) = Ok (buf', d') ∧ same d d' ∧ length buf' = length buf ∧
    (∀ j, SectorSize * k ≤ j < SectorSize * (k + 1) → j < numBytes (hdr f) →
          buf' !! Z.to_nat (off + (j - SectorSize * k)) = raw d (hdr f) !! Z.to_nat j) ∧
    (∀ i : nat, ¬ (off ≤ Z.of_nat i < off + SectorSize) → buf' !! i = buf !! i).
Proof.
  intros Hok Hh Hk Ho Hb. unfold read_into. pose proof (ho_bytes _ Hh). pose proof (hdr_size _ Hh).
  change MaxFileSize with 3840 in *. destruct (ReadAt_ok d f SectorSize (k * SectorSize) Hok Hh) as (d' & -> & Hs);
    [unfold SectorSize in *; lia..|]. run_ok. set (bs := slice _ _ _).
  assert (Z.of_nat (length bs) ≤ SectorSize) by (unfold bs, slice; rewrite length_take; lia).
  rewrite Machine.store_bytes_ok by lia. run_ok. do 2 eexists. split; [done|]. split_and!; [done|apply length_inserts| |].
  - intros j Hj Hlt. pose proof (file_length d _ Hok Hh) as Hc.
    assert (bs !! Z.to_nat (j - SectorSize * k) = raw d (hdr f) !! Z.to_nat j) as Hbs.
    { unfold bs. rewrite lookup_slice, lookup_contents by (unfold SectorSize in *; lia). rewrite !decide_True by (unfold SectorSize in *; lia).
      f_equal. unfold SectorSize in *. lia. }
    rewrite <- Hbs. assert (Z.to_nat (j - SectorSize * k) < length bs)%nat.
    { unfold bs, slice. rewrite length_take, length_drop. unfold SectorSize in *. lia. }
    rewrite list_lookup_inserts by lia. f_equal. lia.
  - intros i Hi. apply inserts_ne. lia.
Qed.

Section write.
Context (d : D) (f : OpenFile) (position m first last : Z).
Context (Hok : disk_ok d) (Hh : hdr_ok (hdr f)) (Hp : 0 ≤ position) (Hm : 0 < m) (Hend : position + m ≤ numBytes (hdr f)).
Context (Ht : touches (hdr f) position m first last).

(** The buffer holds what the file holds, except maybe where it is about to be
    overwritten. *)
Definition filled (buf : list Z) : Prop :=
  ∀ j, SectorSize * first ≤ j < SectorSize * (last + 1) → j < numBytes (hdr f) → ¬ (position ≤ j < position + m) →
       buf !! Z.to_nat (j - SectorSize * first) = raw d (hdr f) !! Z.to_nat j.

(** The sectors that are modified in part are read first. *)
Lemma fill_ok buf :
  Z.of_nat (length buf) = SectorSize * (1 + last - first) →
  let firstAligned := position =? first * SectorSize in
  let lastAligned := position + m =? (last + 1) * SectorSize in
  ∃ buf1 d1 buf2 d2,
    (if negb firstAligned then read_into d f buf 0 (first * SectorSize) else Ok (buf, d)) = Ok (buf1, d1) ∧
    (if negb lastAligned && (negb (first =? last) || firstAligned)
     then read_into d1 f buf1 ((last - first) * SectorSize) (last * SectorSize) else Ok (buf1, d1)) = Ok (buf2, d2) ∧
    same d d2 ∧ length buf2 = length buf ∧ filled buf2.
Proof using Hok Hh Ht Hm.
  intros Hl fa la. destruct Ht as [_ _ (H1 & H2 & H3) Hs He].
  assert (∃ buf1 d1, (if negb fa then read_into d f buf 0 (first * SectorSize) else Ok (buf, d)) = Ok (buf1, d1) ∧
    same d d1 ∧ length buf1 = length buf ∧
    ∀ j, SectorSize * first ≤ j < SectorSize * (first + 1) → j < numBytes (hdr f) → fa = false →
         buf1 !! Z.to_nat (j - SectorSize * first) = raw d (hdr f) !! Z.to_nat j) as (buf1 & d1 & E1 & Hs1 & Hl1 & Hb1).
  { destruct fa; cbn [negb].
    - exists buf, d. split_and!; [done|by apply same_refl|done|done].
    - destruct (read_into_ok d f buf 0 first Hok Hh) as (buf1 & d1 & E1 & Hs1 & Hl1 & Hb1 & _); [lia|lia|unfold SectorSize in *; lia|].
      exists buf1, d1. split_and!; [done|done|done|]. intros j Hj Hlt _. by apply Hb1. }
  exists buf1, d1. destruct (negb la && _) eqn:Ec.
  - destruct (read_into_ok d1 f buf1 ((last - first) * SectorSize) last (proj1 Hs1) Hh)
      as (buf2 & d2 & E2 & Hs2 & Hl2 & Hb2 & Hne2); [lia|unfold SectorSize in *; lia..|].
    exists buf2, d2. split_and!; [done|done|by eapply same_trans|congruence|]. intros j Hj Hlt Hout.
    assert (raw d1 (hdr f) = raw d (hdr f)) as Er.
    { unfold raw. f_equal. apply list_fmap_ext. intros i b Hb. apply Hs1. eapply Forall_lookup_1; [apply ho_blocks, Hh|exact Hb]. }
    rewrite Er in Hb2. destruct (decide (SectorSize * last ≤ j)).
    + rewrite <- Hb2 by lia. f_equal. unfold SectorSize in *. lia.
    + rewrite Hne2 by (unfold SectorSize in *; lia). apply Hb1; [unfold SectorSize in *; lia|done|].
      unfold fa. apply Z.eqb_neq. unfold SectorSize in *. lia.
  - exists buf1, d1. split_and!; [done|done|done|done|]. intros j Hj Hlt Hout. unfold fa, la in *.
    destruct (Z.eqb_spec (position + m) ((last + 1) * SectorSize)) as [El|El], (Z.eqb_spec first last) as [Ef|Ef],
      (Z.eqb_spec position (first * SectorSize)) as [Ep|Ep]; simpl in Ec; try discriminate Ec;
      first [unfold SectorSize in *; lia | apply Hb1; [unfold SectorSize in *; lia|done|done]].
Qed.

(** The sectors written back hold the new contents. *)
Lemma overwrite_ok buf bs d2 :
  Z.of_nat (length buf) = SectorSize * (1 + last - first) → Z.of_nat (length bs) = m → same d d2 → filled buf →
  ∃ d', write_sectors (Z.to_nat (1 + last - first)) d2 f
          (list_inserts (Z.to_nat (position - first * SectorSize)) bs buf) first first = Ok d' ∧
    only (blocks (hdr f)) d d' ∧ contents d' (hdr f) = list_inserts (Z.to_nat position) bs (contents d (hdr f)).
Proof using Hok Hh Ht Hp Hm Hend.
  intros Hl Hbs [Hok2 Hs2] Hf. destruct Ht as [_ _ (H1 & H2 & H3) Hs He]. set (buf3 := list_inserts _ _ _).
  assert (length buf3 = length buf) as Hl3 by apply length_inserts.
  pose proof (file_length d _ Hok Hh) as Hc.
  assert (∀ j, SectorSize * first ≤ j < SectorSize * (last + 1) → j < numBytes (hdr f) →
    buf3 !! Z.to_nat (j - SectorSize * first) = list_inserts (Z.to_nat position) bs (contents d (hdr f)) !! Z.to_nat j) as H3'.
  { intros j Hj Hlt. unfold buf3. destruct (decide (position ≤ j < position + m)).
    - rewrite !list_lookup_inserts by (unfold SectorSize in *; lia). f_equal. unfold SectorSize in *. lia.
    - rewrite !inserts_ne by (unfold SectorSize in *; lia). rewrite Hf, lookup_contents, decide_True by lia. done. }
  destruct (write_sectors_ok (Z.to_nat (1 + last - first)) d2 f buf3 first first Hok2 Hh) as (d' & -> & [Hok' Ho] & Hk);
    [lia|lia|unfold SectorSize in *; lia|]. exists d'. split_and!; [done| |].
  { split; [done|]. intros x Hx Hni. rewrite Ho; [by apply Hs2|done|]. intros Hin. apply Hni.
    eapply subseteq_drop, subseteq_take, Hin. }
  apply list_eq. intros i. rewrite lookup_contents. case_decide as Hi.
  2: { rewrite lookup_ge_None_2; [done|]. rewrite length_inserts. lia. }
  pose proof (hdr_size _ Hh) as Hsz. set (k := Z.of_nat i / SectorSize).
  assert (0 ≤ k < numSectors (hdr f) ∧ SectorSize * k ≤ Z.of_nat i < SectorSize * (k + 1)) as [Hk1 Hk2].
  { unfold k, SectorSize in *. Z.to_euclidean_division_equations; lia. }
  destruct (ByteToSector_ok _ k Hh Hk1) as (b & Hb & Hsec & _).
  assert (i = (128 * Z.to_nat k + (i - 128 * Z.to_nat k))%nat) as Ei by (unfold SectorSize in *; lia).
  rewrite Ei at 1. rewrite (raw_lookup d' _ (Z.to_nat k) b) by (done || unfold SectorSize in *; lia).
  destruct (decide (first ≤ k ≤ last)).
  - rewrite (Hk k b) by (done || lia). rewrite lookup_slice by (unfold SectorSize; lia). rewrite decide_True by (unfold SectorSize in *; lia).
    replace (Z.to_nat (SectorSize * (k - first)) + (i - 128 * Z.to_nat k))%nat with (Z.to_nat (Z.of_nat i - SectorSize * first)) by (unfold SectorSize in *; lia).
    rewrite H3' by (unfold SectorSize in *; lia). f_equal. lia.
  - rewrite Ho, Hs2; [|done|done|eapply not_touched; [done|lia| |exact Hb|]; lia].
    rewrite inserts_ne by (unfold SectorSize in *; lia). rewrite lookup_contents, decide_True by done.
    rewrite Ei at 2. by rewrite (raw_lookup d _ (Z.to_nat k) b) by (done || unfold SectorSize in *; lia).
Qed.

End write.

(** [WriteAt] overwrites the bytes from [position] on, as many as there are of
    those given; no other sector of the disk changes. *)
Lemma WriteAt_ok (uninit : nat → Z) d f from n position :
  disk_ok d → hdr_ok (hdr f) → 0 ≤ position → position + n < 2 ^ 31 →
  amount (hdr f) n position ≤ Z.of_nat (length from) →
  ∃ d', WriteAt uninit d f from n position = Ok (amount (hdr f) n position, d') ∧ only (blocks (hdr f)) d d' ∧
    contents d' (hdr f) =
      list_inserts (Z.to_nat position) (take (Z.to_nat (amount (hdr f) n position)) from) (contents d (hdr f)).
Proof.
  intros Hok Hh Hp Hn Hfrom. unfold WriteAt. rewrite check_request_ok by done. cbv zeta.
  destruct (Z.eqb_spec (amount (hdr f) n position) 0) as [Hz|Hz].
  { rewrite Hz. exists d. split_and!; [done|by apply same_only, same_refl|done]. }
  destruct (amount_pos (hdr f) n position Hp Hz) as (H1 & H2 & H3). set (m := amount _ _ _) in *.
  pose proof (touches_ok (hdr f) position m Hh Hp H1 H3) as Ht.
  set (first := divRoundDown position SectorSize) in *. set (last := divRoundDown (s32 (position + m - 1)) SectorSize) in *.
  set (buf := buffer _ _). assert (Z.of_nat (length buf) = SectorSize * (1 + last - first)) as Hl.
  { unfold buf, buffer. rewrite length_fmap, length_seq. destruct Ht as [_ _ Hr _ _]. unfold SectorSize. lia. }
  destruct (fill_ok d f position m first last Hok Hh H1 Ht buf Hl) as (buf1 & d1 & buf2 & d2 & -> & Hcase & Hs & Hl2 & Hf).
  run_ok. rewrite Hcase. run_ok. rewrite Machine.load_bytes_ok by lia. run_ok. change (Z.to_nat 0) with 0%nat. rewrite drop_0.
  assert (Z.of_nat (length (take (Z.to_nat m) from)) = m) as Hlm by (rewrite length_take; lia).
  destruct Ht as [T1 T2 T3 T4 T5]. rewrite Machine.store_bytes_ok by (rewrite ?Hlm; unfold SectorSize in *; lia). run_ok.
  destruct (overwrite_ok d f position m first last Hok Hh Hp H1 H3 (mkTouches _ _ _ _ _ T1 T2 T3 T4 T5) buf2 (take (Z.to_nat m) from) d2)
    as (d' & -> & Ho & Hc); [lia|done|done|done|]. run_ok. by exists d'.
Qed.

End contents.

End Files.
