(* ===== verification/Volume.v ===== *)
(** * The file system as a map from names to bytes

    A formatted disk ([volume]) is a finite map from file names to the bytes of
    the files, and a number of free sectors; creating, opening, removing,
    reading and writing files are the obvious operations on that map.  The
    invariant behind it: the free map marks exactly the sectors of the headers
    and of the data of the files, no sector has two owners, and no name is
    twice in the directory. *)

From stdpp Require Import base list gmap.
From S2P Require Import Prelude Lists BitMap Machine Bytes Threads Managers Disk.
Import Bytes Disk.
From S2P Require Import FileSys Files.

Module Volume.
Import InUse FileSys Files.

(** ** The directory *)

(** What counts of a file name: the characters before the end of the string, and
    not more than [FileNameMaxLen] of them. *)
Fixpoint key_of (n : nat) (l : list Z) : list Z :=
  match n with
  | O => []
  | S n => let x := default 0 (head l) in if x =? 0 then [] else x :: key_of n (tail l)
  end.
Definition key (nm : list Z) : list Z := key_of (Z.to_nat FileNameMaxLen) nm.

Lemma strncmp_key n a b : strncmp_equal n a b = bool_decide (key_of n a = key_of n b).
Proof.
  revert a b. induction n as [|n IH]; intros a b; cbn [strncmp_equal key_of]; [done|].
  generalize (default 0 (head a)) (default 0 (head b)). intros x y.
  destruct (Z.eqb_spec x y) as [->|Hne]; cbn [negb].
  - destruct (y =? 0); [by symmetry; apply bool_decide_true|]. rewrite IH. apply bool_decide_ext.
    split; [by intros ->|by intros [= ->]].
  - symmetry. apply bool_decide_false. destruct (Z.eqb_spec x 0), (Z.eqb_spec y 0); congruence.
Qed.

Lemma key_padded n m src rest : (n ≤ m)%nat → key_of n (take n (src ++ replicate m 0) ++ rest) = key_of n src.
Proof.
  revert m src. induction n as [|n IH]; intros m src Hm; [done|]. destruct src as [|x src].
  - destruct m; [lia|done].
  - simpl. destruct (x =? 0); [done|]. f_equal. apply IH. lia.
Qed.

Lemma key_strncpy dst src : key (strncpy dst src (Z.to_nat FileNameMaxLen)) = key src.
Proof. apply key_padded. done. Qed.

(** The entries in use: names and header sectors. *)
Definition entries (t : list DirectoryEntry) : list (list Z * Z) :=
  (λ e, (key (name e), esector e)) <$> filter (λ e, inUse e = true) t.

Definition dir (t : list DirectoryEntry) : gmap (list Z) Z := list_to_map (entries t).

Lemma entries_app t1 t2 : entries (t1 ++ t2) = entries t1 ++ entries t2.
Proof. unfold entries. by rewrite filter_app, fmap_app. Qed.

Lemma entries_cons e t : entries (e :: t) = if inUse e then (key (name e), esector e) :: entries t else entries t.
Proof. unfold entries. rewrite filter_cons. destruct (inUse e); done. Qed.

Lemma entries_middle t1 e t2 :
  entries (t1 ++ e :: t2) ≡ₚ if inUse e then (key (name e), esector e) :: entries (t1 ++ t2) else entries (t1 ++ t2).
Proof.
  rewrite !entries_app, entries_cons. destruct (inUse e); [|done]. symmetry. apply Permutation_middle.
Qed.

Lemma entries_length t : (length (entries t) ≤ length t)%nat.
Proof. unfold entries. rewrite length_fmap. apply length_filter. Qed.

Lemma entries_full t : Forall (λ e, negb (inUse e) = false) t → length (entries t) = length t.
Proof.
  induction 1 as [|e t He _ IH]; [done|]. rewrite entries_cons. apply negb_false_iff in He. rewrite He. simpl. by rewrite IH.
Qed.

Lemma first_index_ok p t i :
  (first_index p t i = -1 ∧ Forall (λ e, p e = false) t) ∨
  (∃ t1 e t2, t = t1 ++ e :: t2 ∧ p e = true ∧ first_index p t i = i + Z.of_nat (length t1)).
Proof.
  revert i. induction t as [|e t IH]; intros i; cbn [first_index]; [by left|]. destruct (p e) eqn:Hp.
  - right. exists [], e, t. split_and!; [done|done|simpl; lia].
  - destruct (IH (i + 1)) as [[-> Hf]|(t1 & e' & t2 & -> & Hp' & ->)]; [left; split; [done|by constructor]|].
    right. exists (e :: t1), e', t2. split_and!; [done|done|simpl; lia].
Qed.

Lemma matches_key nm e : matches nm e = inUse e && bool_decide (key (name e) = key nm).
Proof. unfold matches. by rewrite strncmp_key. Qed.

(** Where a name is. *)
Lemma FindIndex_ok t nm :
  NoDup (entries t).*1 →
  (FindIndex (mkDirectory t) nm = -1 ∧ dir t !! key nm = None) ∨
  (∃ t1 e t2, t = t1 ++ e :: t2 ∧ inUse e = true ∧ key (name e) = key nm ∧
     FindIndex (mkDirectory t) nm = Z.of_nat (length t1) ∧ dir t !! key nm = Some (esector e)).
Proof.
  intros Hnd. unfold FindIndex. simpl. destruct (first_index_ok (matches nm) t 0) as [[-> Hf]|(t1 & e & t2 & -> & Hm & ->)].
  - left. split; [done|]. apply not_elem_of_list_to_map_1. rewrite list_elem_of_fmap. intros ([k s] & Hk & Hin). simpl in Hk. subst k.
    apply list_elem_of_fmap in Hin as (e & [= Hk ->] & (Hu & Hin)%list_elem_of_filter).
    rewrite Forall_forall in Hf. specialize (Hf e Hin). rewrite matches_key, Hu, bool_decide_true in Hf; [done|by symmetry].
  - right. rewrite matches_key in Hm. apply andb_true_iff in Hm as [Hu Hk]. apply bool_decide_eq_true in Hk.
    exists t1, e, t2. split_and!; [done|done|done|lia|]. apply elem_of_list_to_map_1; [done|].
    rewrite entries_middle, Hu, Hk. by left.
Qed.

Lemma Find_dir t nm :
  NoDup (entries t).*1 → Find (mkDirectory t) nm = Ok (default (-1) (dir t !! key nm)).
Proof.
  intros Hnd. unfold Find. destruct (FindIndex_ok t nm Hnd) as [[-> ->]|(t1 & e & t2 & -> & Hu & Hk & -> & ->)]; [done|].
  destruct (Z.eqb_spec (Z.of_nat (length t1)) (-1)); [lia|]. cbn [negb]. simpl.
  rewrite (aget_Some _ _ e); [done|lia|]. by rewrite Nat2Z.id, list_lookup_middle.
Qed.

Lemma replace_entry {A} (t1 : list A) e e' t2 :
  aget (t1 ++ e :: t2) (Z.of_nat (length t1)) = Ok e ∧ aset (t1 ++ e :: t2) (Z.of_nat (length t1)) e' = Ok (t1 ++ e' :: t2).
Proof.
  assert (0 ≤ Z.of_nat (length t1) < Z.of_nat (length (t1 ++ e :: t2))) by (rewrite length_app; simpl; lia).
  split; [apply aget_Some; [lia|]; by rewrite Nat2Z.id, list_lookup_middle|].
  rewrite aset_ok by done. by rewrite Nat2Z.id, insert_app_r_alt, Nat.sub_diag by lia.
Qed.

Record table_ok (t : list DirectoryEntry) : Prop := mkTable {
  tb_length : Z.of_nat (length t) = NumDirEntries;
  tb_entries : Forall entry_ok t;
  tb_keys : NoDup (entries t).*1;
}.

Lemma table_replace t1 e e' t2 :
  table_ok (t1 ++ e :: t2) → entry_ok e' → NoDup (entries (t1 ++ e' :: t2)).*1 → table_ok (t1 ++ e' :: t2).
Proof.
  intros [H1 H2 H3] He Hnd. apply Forall_app in H2 as [? [? ?]%Forall_cons]. split; [|by rewrite Forall_app, Forall_cons|done].
  rewrite <- H1. by rewrite !length_app.
Qed.

Lemma Add_dir t nm s :
  table_ok t → is_s32 s → dir t !! key nm = None →
  if decide (Z.of_nat (length (entries t)) < NumDirEntries) then
    ∃ t', Add (mkDirectory t) nm s = Ok (true, mkDirectory t') ∧ table_ok t' ∧ entries t' ≡ₚ (key nm, s) :: entries t
  else Add (mkDirectory t) nm s = Ok (false, mkDirectory t).
Proof.
  intros Ht Hs Hnone. unfold Add. destruct (FindIndex_ok t nm (tb_keys t Ht)) as [[-> _]|(t1 & e & t2 & -> & _ & _ & _ & ?)]; [|congruence].
  cbn [negb Z.eqb Pos.eqb]. simpl. destruct (first_index_ok (λ e, negb (inUse e)) t 0) as [[-> Hf]|(t1 & e & t2 & -> & Hm & ->)].
  - rewrite decide_False; [done|]. rewrite <- (tb_length t Ht).
    rewrite (entries_full t Hf). lia.
  - apply negb_true_iff in Hm. rewrite Z.add_0_l.
    destruct (Z.eqb_spec (Z.of_nat (length t1)) (-1)); [lia|]. 
    set (e' := mkEntry true (pad1 e) s (strncpy (name e) nm (Z.to_nat FileNameMaxLen)) (pad2 e)).
    pose proof (entries_middle t1 e t2) as Hold. rewrite Hm in Hold.
    rewrite decide_True.
    2: { rewrite <- (tb_length _ Ht), Hold. pose proof (entries_length (t1 ++ t2)). rewrite !length_app in *. simpl. lia. }
    destruct (replace_entry t1 e e' t2) as [E1 E2]. rewrite E1. run_ok. fold e'. rewrite E2. run_ok. exists (t1 ++ e' :: t2).
    assert (entries (t1 ++ e' :: t2) ≡ₚ (key nm, s) :: entries (t1 ++ e :: t2)) as Hnew.
    { rewrite Hold, entries_middle. unfold e'. cbn [inUse name esector]. by rewrite key_strncpy. }
    split_and!; [done| |done]. eapply table_replace; [exact Ht| |].
    + pose proof (tb_entries _ Ht) as He. rewrite Forall_app, Forall_cons in He. destruct He as (_ & [H1 _ H3 H4] & _).
      split; [done|done| |done]. unfold e'. cbn [name]. unfold strncpy.
      rewrite length_app, length_take, length_app, length_replicate, length_drop, H3. unfold FileNameMaxLen. lia.
    + rewrite Hnew. apply NoDup_cons. split; [|apply Ht]. apply not_elem_of_list_to_map_2. exact Hnone.
Qed.

Lemma Remove_dir t nm s :
  table_ok t → dir t !! key nm = Some s →
  ∃ t', Remove (mkDirectory t) nm = Ok (true, mkDirectory t') ∧ table_ok t' ∧ entries t ≡ₚ (key nm, s) :: entries t'.
Proof.
  intros Ht Hsome. unfold Remove.
  destruct (FindIndex_ok t nm (tb_keys t Ht)) as [[_ ?]|(t1 & e & t2 & -> & Hu & Hk & -> & He)]; [congruence|].
  destruct (Z.eqb_spec (Z.of_nat (length t1)) (-1)); [lia|]. simpl.
  set (e' := mkEntry false (pad1 e) (esector e) (name e) (pad2 e)). destruct (replace_entry t1 e e' t2) as [E1 E2]. rewrite E1. run_ok. fold e'. rewrite E2. run_ok.
  exists (t1 ++ e' :: t2). assert (esector e = s) as Es by congruence.
  assert (entries (t1 ++ e :: t2) ≡ₚ (key nm, s) :: entries (t1 ++ e' :: t2)) as Hp.
  { rewrite !entries_middle, Hu, Hk, Es. done. }
  split_and!; [done| |done]. eapply table_replace; [exact Ht| |].
  - pose proof (tb_entries _ Ht) as Hf. rewrite Forall_app, Forall_cons in Hf. by destruct Hf as (_ & [? ? ? ?] & _).
  - pose proof (tb_keys _ Ht) as Hnd. rewrite Hp in Hnd. by apply NoDup_cons in Hnd as [_ ?].
Qed.

(** ** The free map *)

Definition map_ok (bm : BitMap.BitMap) : Prop := BitMap.wf bm ∧ BitMap.numBits bm = NumSectors.
Definition free_sectors (bm : BitMap.BitMap) : Z := NumSectors - Z.of_nat (size (used bm)).

(** [bm'] is [bm] with the sectors of [l] taken. *)
Record takes (bm bm' : BitMap.BitMap) (l : list Z) : Prop := mkTakes {
  tk_map : map_ok bm';
  tk_sectors : Forall is_sector l;
  tk_nodup : NoDup l;
  tk_fresh : ∀ s, s ∈ l → s ∉ used bm;
  tk_used : used bm' = list_to_set l ∪ used bm;
}.

Lemma takes_nil bm : map_ok bm → takes bm bm [].
Proof. intros H. split; [done|done|constructor|set_solver|set_solver]. Qed.

Lemma takes_cons bm bm1 bm2 s l : takes bm bm1 [s] → takes bm1 bm2 l → takes bm bm2 (s :: l).
Proof.
  intros [_ [H2 _]%Forall_cons _ H4 H5] [K1 K2 K3 K4 K5]. split; [done|by constructor| | |].
  - constructor; [|done]. intros Hin. apply (K4 s Hin). rewrite H5. set_solver.
  - intros x [->|Hin]%elem_of_cons; [apply H4; set_solver|]. specialize (K4 x Hin). rewrite H5 in K4. set_solver.
  - rewrite K5, H5. set_solver.
Qed.

Lemma takes_free bm bm' l : takes bm bm' l → free_sectors bm' = free_sectors bm - Z.of_nat (length l).
Proof.
  intros [_ _ H3 H4 H5]. unfold free_sectors. rewrite H5, size_union, size_list_to_set by (done || set_solver). lia.
Qed.

Lemma Find_free bm :
  map_ok bm →
  if decide (0 < free_sectors bm) then ∃ s bm', BitMap.Find bm = Ok (s, bm') ∧ is_sector s ∧ takes bm bm' [s]
  else ∃ bm', BitMap.Find bm = Ok (-1, bm').
Proof.
  intros [Hwf Hn]. destruct (Find_used bm Hwf) as (r & bm' & E & Hwf' & Hn' & [(-> & _ & Hfull)|(Hr & Hni & Hu)]).
  - rewrite decide_False; [by exists bm'|]. unfold free_sectors. lia.
  - assert (is_sector r) by (unfold is_sector; lia).
    assert (takes bm bm' [r]) as Ht.
    { split; [split; [done|congruence]|by constructor|apply NoDup_singleton|set_solver|set_solver]. }
    rewrite decide_True; [by exists r, bm'|]. pose proof (takes_free _ _ _ Ht). simpl in *.
    assert (0 ≤ free_sectors bm'); [|lia]. unfold free_sectors. destruct (tk_map _ _ _ Ht) as [_ Hn2].
    pose proof (used_size bm' (BitMap.wf_bits _ Hwf')). lia.
Qed.

Lemma Allocate_loop_ok n bm sectors i :
  map_ok bm → Z.of_nat n ≤ free_sectors bm → 0 ≤ i → i + Z.of_nat n ≤ Z.of_nat (length sectors) →
  ∃ new bm', Allocate_loop n bm sectors i = Ok (list_inserts (Z.to_nat i) new sectors, bm') ∧ length new = n ∧ takes bm bm' new.
Proof.
  revert bm sectors i. induction n as [|n IH]; intros bm sectors i Hm Hf Hi Hl; cbn [Allocate_loop].
  { exists [], bm. split_and!; [done|done|by apply takes_nil]. }
  pose proof (Find_free bm Hm) as HF. rewrite decide_True in HF by lia. destruct HF as (s & bm1 & -> & Hs & Ht). run_ok.
  rewrite aset_ok by lia. run_ok. pose proof (takes_free _ _ _ Ht) as Hf1. simpl in Hf1.
  destruct (IH bm1 (<[Z.to_nat i:=s]> sectors) (i + 1)) as (new & bm2 & -> & Hln & Ht2);
    [apply Ht|lia|lia|rewrite length_insert; lia|]. exists (s :: new), bm2. split_and!; [|simpl; lia|by eapply takes_cons].
  do 2 f_equal. replace (Z.to_nat (i + 1)) with (S (Z.to_nat i)) by lia. apply inserts_insert. lia.
Qed.

(** Without a check of [NumDirect] the loop runs past the end of [dataSectors]. *)
Lemma Allocate_loop_overflow n bm sectors i :
  map_ok bm → Z.of_nat n ≤ free_sectors bm → 0 ≤ i ≤ Z.of_nat (length sectors) → Z.of_nat (length sectors) < i + Z.of_nat n →
  Allocate_loop n bm sectors i = Err OutOfBounds.
Proof.
  revert bm sectors i. induction n as [|n IH]; intros bm sectors i Hm Hf Hi Hl; [lia|]. cbn [Allocate_loop].
  pose proof (Find_free bm Hm) as HF. rewrite decide_True in HF by lia. destruct HF as (s & bm1 & -> & Hs & Ht). run_ok.
  pose proof (takes_free _ _ _ Ht) as Hf1. simpl in Hf1.
  destruct (decide (i < Z.of_nat (length sectors))); [|by rewrite aset_out by lia].
  rewrite aset_ok by lia. run_ok. apply IH; [apply Ht|lia|rewrite length_insert; lia..].
Qed.

(** A header whose contents are not initialised has room for [NumDirect]
    sectors all the same. *)
Definition header_room (h : FileHeader) : Prop :=
  Forall is_s32 (dataSectors h) ∧ Z.of_nat (length (dataSectors h)) = NumDirect.

Lemma is_sector_s32 s : is_sector s → is_s32 s.
Proof. unfold is_sector, is_s32. change NumSectors with 1024. lia. Qed.

Lemma Allocate_ok this bm fileSize :
  header_room this → map_ok bm → 0 ≤ fileSize ≤ MaxFileSize →
  if decide (divRoundUp fileSize SectorSize ≤ free_sectors bm) then
    ∃ h bm', Allocate this bm fileSize = Ok (true, h, bm') ∧ hdr_ok h ∧ numBytes h = fileSize ∧ takes bm bm' (blocks h)
  else ∃ h bm', Allocate this bm fileSize = Ok (false, h, bm').
Proof.
  intros [Hs Hl] [Hwf Hn] Hsize. unfold Allocate. rewrite NumClear_used by done. run_ok. cbn [dataSectors]. rewrite Hn.
  fold (free_sectors bm). pose proof (sectors_of _ Hsize) as Hsec. set (n := divRoundUp fileSize SectorSize) in *.
  destruct (Z.ltb_spec (free_sectors bm) n); [rewrite decide_False by lia; by do 2 eexists|]. rewrite decide_True by lia.
  destruct (Allocate_loop_ok (Z.to_nat n) bm (dataSectors this) 0) as (new & bm' & -> & Hln & Ht); [by split|lia..|].
  run_ok. change (Z.to_nat 0) with 0%nat. eexists _, bm'. split; [done|].
  assert (∀ tl, take (Z.to_nat n) (new ++ tl) = new) as Hb by (intros; by rewrite take_app_length').
  rewrite inserts_prefix by lia. pose proof (tk_sectors _ _ _ Ht) as Hns. split_and!; [|done|by unfold blocks; simpl; rewrite Hb].
  split; unfold blocks; cbn [numBytes numSectors dataSectors]; rewrite ?Hb; [done|done| |rewrite length_app, length_drop; lia|done|apply Ht].
  apply Forall_app. split; [|by apply Forall_drop]. eapply Forall_impl; [exact Hns|]. apply is_sector_s32.
Qed.

Lemma Allocate_overflow this bm fileSize :
  header_room this → map_ok bm → MaxFileSize < fileSize → divRoundUp fileSize SectorSize ≤ free_sectors bm →
  Allocate this bm fileSize = Err OutOfBounds.
Proof.
  intros [Hs Hl] [Hwf Hn] Hsize Hfree. unfold Allocate. rewrite NumClear_used by done. run_ok. cbn [dataSectors]. rewrite Hn.
  fold (free_sectors bm). destruct (Z.ltb_spec (free_sectors bm) (divRoundUp fileSize SectorSize)); [lia|].
  change MaxFileSize with 3840 in *. pose proof (divRoundUp_spec fileSize SectorSize ltac:(lia) ltac:(done)).
  change NumDirect with 30 in *. rewrite Allocate_loop_overflow; [done|by split|unfold SectorSize in *; lia..].
Qed.

Lemma Deallocate_loop_ok n bm sectors i :
  map_ok bm → 0 ≤ i → i + Z.of_nat n ≤ Z.of_nat (length sectors) → let l := take n (drop (Z.to_nat i) sectors) in
  NoDup l → (∀ s, s ∈ l → s ∈ used bm) →
  ∃ bm', Deallocate_loop n bm sectors i = Ok bm' ∧ map_ok bm' ∧ used bm' = used bm ∖ list_to_set l.
Proof.
  revert bm i. induction n as [|n IH]; intros bm i Hm Hi Hl l Hnd Hu; cbn [Deallocate_loop].
  { exists bm. split_and!; [done|done|]. unfold l. simpl. set_solver. }
  destruct (aget_ok sectors i) as (s & Hs & ->); [lia|]. run_ok.
  assert (l = s :: take n (drop (Z.to_nat (i + 1)) sectors)) as El.
  { unfold l. rewrite (drop_S _ _ _ Hs). cbn [take]. by replace (S (Z.to_nat i)) with (Z.to_nat (i + 1)) by lia. }
  clearbody l. subst l. apply NoDup_cons in Hnd as [Hni Hnd]. assert (s ∈ used bm) as Hin by (apply Hu; set_solver).
  pose proof Hm as [Hwf Hn]. assert (0 ≤ s < BitMap.numBits bm) as Hr by (by apply elem_of_used in Hin as [? _]).
  rewrite Test_used by done. rewrite bool_decide_true by done. run_ok.
  destruct (Clear_used bm s Hwf Hr) as (bm1 & -> & Hwf1 & Hn1 & Hu1). run_ok.
  destruct (IH bm1 (i + 1)) as (bm2 & -> & Hm2 & Hu2); [split; [done|congruence]|lia|lia|done| |].
  { intros x Hx. rewrite Hu1. assert (x ≠ s) by congruence. specialize (Hu x). set_solver. }
  exists bm2. split_and!; [done|done|]. rewrite Hu2, Hu1. set_solver.
Qed.

Lemma Deallocate_ok h bm :
  hdr_ok h → map_ok bm → (∀ s, s ∈ blocks h → s ∈ used bm) →
  ∃ bm', Deallocate h bm = Ok bm' ∧ map_ok bm' ∧ used bm' = used bm ∖ list_to_set (blocks h).
Proof.
  intros Hh Hm Hu. pose proof (sectors_of _ (ho_bytes h Hh)) as Hs. rewrite <- (ho_sectors h Hh) in Hs.
  pose proof (ho_length h Hh). destruct (Deallocate_loop_ok (Z.to_nat (numSectors h)) bm (dataSectors h) 0) as (bm' & E & H1 & H2);
    [done|lia|lia|apply (ho_nodup h Hh)|exact Hu|]. by exists bm'.
Qed.

(** ** Lists of lists without duplicates *)

Lemma bind_two (l : list Z) (f : Z → list Z) x y :
  NoDup (l ≫= f) → x ∈ l → y ∈ l → x ≠ y → f x ## f y.
Proof.
  intros Hnd Hx Hy Hne. apply elem_of_Permutation in Hx as [l' Hp]. rewrite Hp in Hnd. csimpl in Hnd.
  apply NoDup_app in Hnd as (_ & Hd & _). assert (y ∈ l') as Hy' by (rewrite Hp in Hy; set_solver).
  intros z Hz1 Hz2. apply (Hd z Hz1). apply list_elem_of_bind. eauto.
Qed.

Lemma bind_one (l : list Z) (f : Z → list Z) x : NoDup (l ≫= f) → x ∈ l → NoDup (f x).
Proof.
  intros Hnd Hx. apply elem_of_Permutation in Hx as [l' Hp]. rewrite Hp in Hnd. csimpl in Hnd. by apply NoDup_app in Hnd as [? _].
Qed.

(** ** The two files of the file system *)
Section storage.
Context {D : Type} `{SectorLaws D}.
Context (E : bool).

Lemma read_whole_file d f :
  disk_ok d → hdr_ok (hdr f) → ∃ d', ReadAt d f (numBytes (hdr f)) 0 = Ok (contents d (hdr f), d') ∧ same d d'.
Proof.
  intros Hok Hh. pose proof (ho_bytes _ Hh) as Hb. change MaxFileSize with 3840 in Hb.
  destruct (ReadAt_ok d f (numBytes (hdr f)) 0 Hok Hh) as (d' & -> & Hs); [lia|lia|]. exists d'. split; [|done].
  do 2 f_equal. unfold slice. change (Z.to_nat 0) with 0%nat. rewrite drop_0. apply take_ge.
  pose proof (file_length d _ Hok Hh). lia.
Qed.

Lemma write_whole_file uninit d f bs :
  disk_ok d → hdr_ok (hdr f) → Z.of_nat (length bs) = numBytes (hdr f) →
  ∃ r d', WriteAt uninit d f bs (numBytes (hdr f)) 0 = Ok (r, d') ∧ only (blocks (hdr f)) d d' ∧ contents d' (hdr f) = bs.
Proof.
  intros Hok Hh Hl. pose proof (ho_bytes _ Hh) as Hb. change MaxFileSize with 3840 in Hb.
  assert (amount (hdr f) (numBytes (hdr f)) 0 = numBytes (hdr f)) as Ea by (unfold amount; lia).
  destruct (WriteAt_ok uninit d f bs (numBytes (hdr f)) 0 Hok Hh) as (d' & -> & Ho & Hc); [lia|lia|lia|].
  do 2 eexists. split_and!; [done|done|]. rewrite Hc, Ea, take_ge by lia. apply inserts_all.
  pose proof (file_length d _ Hok Hh). lia.
Qed.

Lemma map_words bm : map_ok bm → BitMap.numWords bm = 32 ∧ length (BitMap.map bm) = 32%nat ∧ Forall is_u32 (BitMap.map bm).
Proof.
  intros [[_ Hw Hl Hu] Hn]. rewrite Hn in Hw. change (divRoundUp NumSectors BitMap.BitsInWord) with 32 in Hw. split_and!; [done|lia|done].
Qed.

Lemma fetch_map d b bm f :
  disk_ok d → hdr_ok (hdr f) → numBytes (hdr f) = FreeMapFileSize → map_ok b → map_ok bm →
  contents d (hdr f) = map_bytes E (BitMap.map bm) → ∃ d', BitMap_FetchFrom E d b f = Ok (bm, d') ∧ same d d'.
Proof.
  intros Hok Hh Hn Hb Hm Hc. destruct (map_words b Hb) as (H1 & H2 & _). destruct (map_words bm Hm) as (H3 & H4 & H5).
  unfold BitMap_FetchFrom. rewrite H1. change (32 * 4) with FreeMapFileSize. rewrite <- Hn.
  destruct (read_whole_file d f Hok Hh) as (d' & -> & Hs). run_ok. rewrite Hc.
  rewrite Machine.store_bytes_ok by (rewrite ?map_bytes_length; lia). run_ok. change (Z.to_nat 0) with 0%nat.
  rewrite inserts_all by (rewrite !map_bytes_length; lia). rewrite H2, <- H4, map_roundtrip by done. exists d'.
  split; [|done]. do 2 f_equal. destruct bm as [nb nw m]. simpl in *. destruct Hb as [_ ->], Hm as [_ Hm]. simpl in Hm. by rewrite Hm, H3.
Qed.

Lemma store_map uninit d bm f :
  disk_ok d → hdr_ok (hdr f) → numBytes (hdr f) = FreeMapFileSize → map_ok bm →
  ∃ d', BitMap_WriteBack E uninit d bm f = Ok d' ∧ only (blocks (hdr f)) d d' ∧ contents d' (hdr f) = map_bytes E (BitMap.map bm).
Proof.
  intros Hok Hh Hn Hm. destruct (map_words bm Hm) as (H3 & H4 & H5). unfold BitMap_WriteBack. rewrite H3.
  change (32 * 4) with FreeMapFileSize. rewrite <- Hn.
  destruct (write_whole_file uninit d f (map_bytes E (BitMap.map bm)) Hok Hh) as (r & d' & -> & Ho & Hc);
    [rewrite map_bytes_length, Hn, H4; done|]. run_ok. by exists d'.
Qed.

Lemma fetch_table d t0 t f :
  disk_ok d → hdr_ok (hdr f) → numBytes (hdr f) = DirectoryFileSize → table_ok t → table_ok t0 →
  contents d (hdr f) = table_bytes E t →
  ∃ d', Directory_FetchFrom E d (mkDirectory t0) f = Ok (mkDirectory t, d') ∧ same d d'.
Proof.
  intros Hok Hh Hn [H1 H2 _] [H3 H4 _] Hc. unfold Directory_FetchFrom, tableSize. cbn [table]. rewrite H3.
  change (NumDirEntries * sizeof_DirectoryEntry) with DirectoryFileSize. rewrite <- Hn.
  destruct (read_whole_file d f Hok Hh) as (d' & -> & Hs). run_ok. rewrite Hc.
  rewrite Machine.store_bytes_ok by (rewrite ?table_bytes_length by done; lia). run_ok. change (Z.to_nat 0) with 0%nat.
  rewrite inserts_all by (rewrite !table_bytes_length by done; lia).
  replace (length t0) with (length t) by lia. rewrite table_roundtrip by done. by exists d'.
Qed.

Lemma store_table uninit d t f :
  disk_ok d → hdr_ok (hdr f) → numBytes (hdr f) = DirectoryFileSize → table_ok t →
  ∃ d', Directory_WriteBack E uninit d (mkDirectory t) f = Ok d' ∧ only (blocks (hdr f)) d d' ∧ contents d' (hdr f) = table_bytes E t.
Proof.
  intros Hok Hh Hn [H1 H2 _]. unfold Directory_WriteBack, tableSize. cbn [table]. rewrite H1.
  change (NumDirEntries * sizeof_DirectoryEntry) with DirectoryFileSize. rewrite <- Hn.
  destruct (write_whole_file uninit d f (table_bytes E t) Hok Hh) as (r & d' & -> & Ho & Hc).
  { rewrite table_bytes_length, Hn by done. change DirectoryFileSize with 200. change NumDirEntries with 10 in H1. lia. }
  run_ok. by exists d'.
Qed.

(** ** The invariant *)

Definition header_at (d : D) (s : Z) : FileHeader := header_of E (sector d s).
Definition file_sectors (d : D) (s : Z) : list Z := s :: blocks (header_at d s).

(** Every sector that is in use, by its owner. *)
Definition owned (d : D) (fs : FileSystem) (es : list (list Z * Z)) : list Z :=
  FreeMapSector :: DirectorySector :: blocks (hdr (freeMapFile fs)) ++ blocks (hdr (directoryFile fs)) ++
  (es.*2 ≫= file_sectors d).

(** The files of the disk: what is not kept in the free map or the directory. *)
Record base (d : D) (fs : FileSystem) (es : list (list Z * Z)) : Prop := mkBase {
  bs_disk : disk_ok d;
  bs_map_header : header_at d FreeMapSector = hdr (freeMapFile fs);
  bs_dir_header : header_at d DirectorySector = hdr (directoryFile fs);
  bs_map : hdr_ok (hdr (freeMapFile fs)) ∧ numBytes (hdr (freeMapFile fs)) = FreeMapFileSize;
  bs_dir : hdr_ok (hdr (directoryFile fs)) ∧ numBytes (hdr (directoryFile fs)) = DirectoryFileSize;
  bs_files : Forall (λ e, is_sector e.2 ∧ hdr_ok (header_at d e.2)) es;
  bs_owned : NoDup (owned d fs es);
}.

Record fs_ok (d : D) (fs : FileSystem) (t : list DirectoryEntry) (bm : BitMap.BitMap) : Prop := mkFs {
  fo_base : base d fs (entries t);
  fo_map : contents d (hdr (freeMapFile fs)) = map_bytes E (BitMap.map bm);
  fo_dir : contents d (hdr (directoryFile fs)) = table_bytes E t;
  fo_map_ok : map_ok bm;
  fo_table : table_ok t;
  fo_used : used bm = list_to_set (owned d fs (entries t));
}.

(** The bytes of the files, by name. *)
Definition files (d : D) (es : list (list Z * Z)) : gmap (list Z) (list Z) :=
  (λ s, contents d (header_at d s)) <$> list_to_map es.

(** A disk that holds the files [F] and has [free] sectors left. *)
Definition volume (d : D) (fs : FileSystem) (F : gmap (list Z) (list Z)) (free : Z) : Prop :=
  ∃ t bm, fs_ok d fs t bm ∧ files d (entries t) = F ∧ free = free_sectors bm.

(** ** Sectors with one owner *)

#[export] Instance owned_perm d fs : Proper ((≡ₚ) ==> (≡ₚ)) (owned d fs).
Proof. intros es es' Hp. unfold owned. by rewrite Hp. Qed.

#[export] Instance base_perm d fs : Proper ((≡ₚ) ==> iff) (base d fs).
Proof.
  assert (∀ es es', es ≡ₚ es' → base d fs es → base d fs es') as Hgo.
  { intros es es' Hp [H1 H2 H3 H4 H5 H6 H7]. split; try done; by rewrite <- Hp. }
  intros es es' Hp. split; by apply Hgo.
Qed.

(** Where the sectors of the free map, of the directory and of a file may not be. *)
Record separate (d : D) (fs : FileSystem) (es : list (list Z * Z)) : Prop := mkSeparate {
  sp_map_dir : blocks (hdr (freeMapFile fs)) ## blocks (hdr (directoryFile fs));
  sp_headers s : s ∈ FreeMapSector :: DirectorySector :: es.*2 →
    s ∉ blocks (hdr (freeMapFile fs)) ++ blocks (hdr (directoryFile fs));
  sp_file s : s ∈ es.*2 → blocks (header_at d s) ##
    FreeMapSector :: DirectorySector :: blocks (hdr (freeMapFile fs)) ++ blocks (hdr (directoryFile fs)) ++ es.*2;
  sp_two s s' : s ∈ es.*2 → s' ∈ es.*2 → s ≠ s' → blocks (header_at d s) ## blocks (header_at d s');
  sp_special : (FreeMapSector ∉ es.*2) ∧ (DirectorySector ∉ es.*2);
}.

Lemma file_sectors_in d es s x : s ∈ es → x ∈ file_sectors d s → x ∈ (es ≫= file_sectors d).
Proof. intros. apply list_elem_of_bind. eauto. Qed.

Lemma base_separate d fs es : base d fs es → separate d fs es.
Proof.
  intros Hb. pose proof (bs_owned _ _ _ Hb) as Hnd. unfold owned in Hnd.
  apply NoDup_cons in Hnd as [Hz Hnd]. apply NoDup_cons in Hnd as [Ho Hnd].
  apply NoDup_app in Hnd as (_ & Hm & Hnd). apply NoDup_app in Hnd as (_ & Hd & Hnd).
  assert (∀ s, s ∈ es.*2 → s ∈ (es.*2 ≫= file_sectors d)) as Hs by (intros; eapply file_sectors_in; [done|by left]).
  assert (∀ s x, s ∈ es.*2 → x ∈ blocks (header_at d s) → x ∈ (es.*2 ≫= file_sectors d)) as Hx
    by (intros; eapply file_sectors_in; [done|by right]).
  split.
  - intros x Hx1 Hx2. apply (Hm x Hx1). set_solver.
  - intros s Hin [Hin2|Hin2]%elem_of_app.
    + apply elem_of_cons in Hin as [->|[->|Hin]%elem_of_cons]; [set_solver|set_solver|]. apply (Hm s Hin2). set_solver.
    + apply elem_of_cons in Hin as [->|[->|Hin]%elem_of_cons]; [set_solver|set_solver|]. apply (Hd s Hin2). set_solver.
  - intros s Hin x Hx1 Hx2. pose proof (Hx s x Hin Hx1) as Hxin.
    apply elem_of_cons in Hx2 as [->|[->|[Hx2|[Hx2|Hx2]%elem_of_app]%elem_of_app]%elem_of_cons];
      [set_solver|set_solver|apply (Hm x Hx2); set_solver|by apply (Hd x Hx2)|].
    destruct (decide (x = s)) as [->|Hne].
    + pose proof (bind_one _ _ s Hnd Hin) as [Hni _]%NoDup_cons. done.
    + apply (bind_two _ _ s x Hnd Hin Hx2 ltac:(congruence) x); [by right|by left].
  - intros s s' Hin Hin' Hne x Hx1 Hx2. apply (bind_two _ _ s s' Hnd Hin Hin' Hne x); by right.
  - split; intros Hin; [apply Hz|apply Ho]; set_solver.
Qed.

(** ** Frames *)

(** Writing outside the headers keeps all that the headers say. *)
Lemma headers_kept W d d' fs es :
  base d fs es → only W d d' → (∀ s, s ∈ FreeMapSector :: DirectorySector :: es.*2 → s ∉ W) →
  base d' fs es ∧ owned d' fs es = owned d fs es ∧ ∀ s, s ∈ es.*2 → header_at d' s = header_at d s.
Proof.
  intros [H1 H2 H3 H4 H5 H6 H7] [Hok Ho] HW.
  assert (∀ s, is_sector s → s ∈ FreeMapSector :: DirectorySector :: es.*2 → header_at d' s = header_at d s) as Hh.
  { intros s Hs Hin. unfold header_at. by rewrite Ho by auto. }
  assert (∀ s, s ∈ es.*2 → header_at d' s = header_at d s) as He.
  { intros s Hin. apply Hh; [|set_solver]. apply list_elem_of_fmap in Hin as (e & -> & Hin). rewrite Forall_forall in H6. by apply H6. }
  assert (owned d' fs es = owned d fs es) as Eo.
  { unfold owned. do 4 f_equal. apply Forall_bind_ext, Forall_forall. intros s Hin.
    unfold file_sectors. by rewrite He. }
  split_and!; [|done|done]. split; rewrite ?Eo; try done.
  - rewrite Hh; [done|done|set_solver].
  - rewrite Hh; [done|done|set_solver].
  - rewrite Forall_forall in H6 |- *. intros e Hin. destruct (H6 e Hin). rewrite He; [done|]. apply list_elem_of_fmap. eauto.
Qed.

Lemma files_eq d d' es :
  (∀ s, s ∈ es.*2 → contents d' (header_at d' s) = contents d (header_at d s)) → files d' es = files d es.
Proof.
  intros He. unfold files. apply map_fmap_ext. intros k s Hks. apply He. apply elem_of_list_to_map_2 in Hks.
  apply list_elem_of_fmap. by exists (k, s).
Qed.

Lemma files_perm d es es' : NoDup es.*1 → es ≡ₚ es' → files d es = files d es'.
Proof. intros Hnd Hp. unfold files. f_equal. by apply list_to_map_proper. Qed.

Lemma files_cons d k s es : files d ((k, s) :: es) = <[k := contents d (header_at d s)]> (files d es).
Proof. unfold files. simpl. by rewrite fmap_insert. Qed.

Lemma file_header d fs es s : base d fs es → s ∈ es.*2 → is_sector s ∧ hdr_ok (header_at d s).
Proof.
  intros Hb Hin. apply list_elem_of_fmap in Hin as (e & -> & Hin). pose proof (bs_files _ _ _ Hb) as Hf.
  rewrite Forall_forall in Hf. by apply Hf.
Qed.

Lemma owned_sectors d fs es :
  base d fs es → ∀ s, s ∈ es.*2 → s ∈ owned d fs es ∧ ∀ x, x ∈ blocks (header_at d s) → x ∈ owned d fs es.
Proof.
  intros Hb s Hin. unfold owned.
  assert (∀ x, x ∈ file_sectors d s → x ∈ (es.*2 ≫= file_sectors d)) as Hf by (intros x; by apply file_sectors_in).
  split; [|intros x Hx]; do 2 right; apply elem_of_app; right; apply elem_of_app; right; apply Hf; [by left|by right].
Qed.

(** The free map and the directory have been written back. *)
Lemma written_back d d' fs t bm :
  base d fs (entries t) → only (blocks (hdr (freeMapFile fs)) ++ blocks (hdr (directoryFile fs))) d d' →
  contents d' (hdr (freeMapFile fs)) = map_bytes E (BitMap.map bm) →
  contents d' (hdr (directoryFile fs)) = table_bytes E t →
  map_ok bm → table_ok t → used bm = list_to_set (owned d fs (entries t)) →
  fs_ok d' fs t bm ∧ files d' (entries t) = files d (entries t).
Proof.
  intros Hb Ho Hm Hd Hmap Htab Hu. pose proof (base_separate _ _ _ Hb) as [_ Sh Sf _ _].
  destruct (headers_kept _ _ _ _ _ Hb Ho Sh) as (Hb' & Eo & He). split; [split; try done; by rewrite Eo|].
  apply files_eq. intros s Hin. rewrite (He s Hin). eapply contents_frame; [by eapply file_header|exact Ho|].
  intros x Hx Hx2. apply (Sf s Hin x Hx). set_solver.
Qed.

(** A header for a new file has been written to a sector that was free. *)
Lemma header_added d d' fs es k s h :
  base d fs es → only [s] d d' → sector d' s = header_bytes E h → is_sector s → hdr_ok h → NoDup (s :: blocks h) →
  (∀ x, x ∈ s :: blocks h → x ∉ owned d fs es) →
  base d' fs ((k, s) :: es) ∧ files d' es = files d es ∧ header_at d' s = h ∧
  owned d' fs ((k, s) :: es) ≡ₚ (s :: blocks h) ++ owned d fs es.
Proof.
  intros Hb Ho Hs Hsec Hh Hnd Hni. assert (s ∉ owned d fs es) as Hso by (apply Hni; by left).
  assert (header_at d' s = h) as Es by (unfold header_at; rewrite Hs; apply header_roundtrip; by apply hdr_ints).
  assert (∀ x, x ∈ FreeMapSector :: DirectorySector :: es.*2 → x ∉ [s]) as Hw.
  { intros x Hx ->%list_elem_of_singleton. apply Hso. apply elem_of_cons in Hx as [->|[->|Hx]%elem_of_cons];
      [by left|right; by left|by apply owned_sectors]. }
  destruct (headers_kept _ _ _ _ _ Hb Ho Hw) as (Hb' & Eo & He).
  assert (owned d' fs ((k, s) :: es) ≡ₚ (s :: blocks h) ++ owned d fs es) as Hp.
  { rewrite <- Eo. unfold owned. csimpl. unfold file_sectors at 1. rewrite Es. cbn [app]. solve_Permutation. }
  split_and!; [|apply files_eq|done|done].
  - destruct Hb' as [H1 H2 H3 H4 H5 H6 H7]. split; try done.
    + constructor; [simpl; by rewrite Es|done].
    + rewrite Hp. apply NoDup_app. split_and!; [done|exact Hni|apply Hb].
  - intros x Hin. rewrite (He x Hin). eapply contents_frame; [by eapply file_header|exact Ho|].
    intros y Hy ->%list_elem_of_singleton. apply Hso. by eapply owned_sectors.
Qed.

(** A file is no longer in the directory. *)
Lemma base_removed d fs k s es :
  base d fs ((k, s) :: es) →
  base d fs es ∧ owned d fs ((k, s) :: es) ≡ₚ file_sectors d s ++ owned d fs es.
Proof.
  intros [H1 H2 H3 H4 H5 H6 H7].
  assert (owned d fs ((k, s) :: es) ≡ₚ file_sectors d s ++ owned d fs es) as Hp.
  { unfold owned. csimpl. unfold file_sectors at 1. cbn [app]. solve_Permutation. }
  split; [|done]. apply Forall_cons in H6 as [_ H6]. split; try done. rewrite Hp in H7. by apply NoDup_app in H7 as (_ & _ & ?).
Qed.

(** The data of a file have been written. *)
Lemma file_written d d' fs t bm k s :
  fs_ok d fs t bm → (k, s) ∈ entries t → only (blocks (header_at d s)) d d' →
  fs_ok d' fs t bm ∧ header_at d' s = header_at d s ∧
  files d' (entries t) = <[k := contents d' (header_at d s)]> (files d (entries t)).
Proof.
  intros [Hb Hm Hd Hmap Htab Hu] Hin Ho. pose proof (base_separate _ _ _ Hb) as [_ _ Sf Stwo _].
  assert (s ∈ (entries t).*2) as Hs by (apply list_elem_of_fmap; by exists (k, s)).
  assert (∀ x, x ∈ FreeMapSector :: DirectorySector :: (entries t).*2 → x ∉ blocks (header_at d s)) as Hw.
  { intros x Hx Hx2. apply (Sf s Hs x Hx2). set_solver. }
  destruct (headers_kept _ _ _ _ _ Hb Ho Hw) as (Hb' & Eo & He). split_and!; [|by apply He|].
  - split; try done; [| |by rewrite Eo].
    + rewrite <- Hm. eapply contents_frame; [apply (bs_map _ _ _ Hb)|exact Ho|]. intros x Hx1 Hx2. apply (Sf s Hs x Hx2). set_solver.
    + rewrite <- Hd. eapply contents_frame; [apply (bs_dir _ _ _ Hb)|exact Ho|]. intros x Hx1 Hx2. apply (Sf s Hs x Hx2). set_solver.
  - pose proof Hin as [es Hp]%elem_of_Permutation. pose proof (tb_keys _ Htab) as Hnd. pose proof (bs_owned _ _ _ Hb) as Hown.
    rewrite (files_perm d' _ _ Hnd Hp), (files_perm d _ _ Hnd Hp), !files_cons, insert_insert_eq, He by done. f_equal.
    apply files_eq. intros x Hx. assert (x ∈ (entries t).*2) as Hxin by (rewrite Hp; by right).
    rewrite He by done. eapply contents_frame; [by eapply file_header|exact Ho|]. apply Stwo; [done|done|]. intros ->.
    unfold owned in Hown. rewrite Hp in Hown. csimpl in Hown. unfold file_sectors at 1 in Hown.
    do 2 apply NoDup_cons in Hown as [_ Hown]. do 2 apply NoDup_app in Hown as (_ & _ & Hown).
    apply NoDup_cons in Hown as [Hni _]. apply Hni, elem_of_app. right. eapply file_sectors_in; [exact Hx|by left].
Qed.

Lemma fs_same d d' fs t bm : fs_ok d fs t bm → same d d' → fs_ok d' fs t bm ∧ files d' (entries t) = files d (entries t).
Proof.
  intros [Hb Hm Hd Hmap Htab Hu] Hs. pose proof (same_only [] _ _ Hs) as Ho.
  destruct (headers_kept [] _ _ _ _ Hb Ho) as (Hb' & Eo & He); [set_solver|]. split.
  - split; try done; [| |by rewrite Eo].
    + rewrite <- Hm. eapply contents_frame; [apply (bs_map _ _ _ Hb)|exact Ho|set_solver].
    + rewrite <- Hd. eapply contents_frame; [apply (bs_dir _ _ _ Hb)|exact Ho|set_solver].
  - apply files_eq. intros x Hx. rewrite He by done. eapply contents_frame; [by eapply file_header|exact Ho|set_solver].
Qed.

Lemma files_lookup d t k : files d (entries t) !! k = (λ s, contents d (header_at d s)) <$> dir t !! k.
Proof. unfold files. by rewrite lookup_fmap. Qed.

Lemma files_size d t : table_ok t → size (files d (entries t)) = length (entries t).
Proof. intros Ht. unfold files. rewrite map_size_fmap. by apply map_size_list_to_map, Ht. Qed.

Lemma dir_sector d fs t bm k s :
  fs_ok d fs t bm → dir t !! k = Some s → (k, s) ∈ entries t ∧ is_sector s ∧ hdr_ok (header_at d s).
Proof.
  intros Hfs Hd. apply elem_of_list_to_map_2 in Hd. split; [done|]. eapply file_header; [apply Hfs|].
  apply list_elem_of_fmap. by exists (k, s).
Qed.

End storage.

(** ** The operations *)
Section volume.
Context {D : Type} `{SectorLaws D}.
Context (E : bool) (uninit : nat → Z) (stale_header : FileHeader) (stale_entry : nat → DirectoryEntry) (stale_words : list Z).

Lemma volume_same d d' fs F free : volume E d fs F free → same d d' → volume E d' fs F free.
Proof.
  intros (t & bm & Hfs & <- & ->) Hs. destruct (fs_same E _ _ _ _ _ Hfs Hs) as [Hfs' Ef]. by exists t, bm.
Qed.

(** Reading the free map. *)
Lemma read_free_map d b fs t bm :
  fs_ok E d fs t bm → map_ok b → ∃ d', BitMap_FetchFrom E d b (freeMapFile fs) = Ok (bm, d') ∧ same d d'.
Proof.
  intros [Hb Hm Hd Hmap Htab Hu] Hbm. destruct (bs_map _ _ _ _ Hb) as [Hh Hn].
  by apply fetch_map; [eapply bs_disk|..].
Qed.

(** Writing both back, in either order. *)
Lemma write_back_both d fs t bm :
  base E d fs (entries t) → map_ok bm → table_ok t → used bm = list_to_set (owned E d fs (entries t)) →
  (∃ d1 d2, Directory_WriteBack E uninit d (mkDirectory t) (directoryFile fs) = Ok d1 ∧
     BitMap_WriteBack E uninit d1 bm (freeMapFile fs) = Ok d2 ∧ fs_ok E d2 fs t bm ∧ files E d2 (entries t) = files E d (entries t)) ∧
  (∃ d1 d2, BitMap_WriteBack E uninit d bm (freeMapFile fs) = Ok d1 ∧
     Directory_WriteBack E uninit d1 (mkDirectory t) (directoryFile fs) = Ok d2 ∧ fs_ok E d2 fs t bm ∧
     files E d2 (entries t) = files E d (entries t)).
Proof.
  intros Hb Hm Ht Hu. destruct (bs_map _ _ _ _ Hb) as [Hmh Hmn]. destruct (bs_dir _ _ _ _ Hb) as [Hdh Hdn].
  pose proof (sp_map_dir _ _ _ _ (base_separate _ _ _ _ Hb)) as Hsep. split.
  - destruct (store_table E uninit d t (directoryFile fs)) as (d1 & E1 & Ho1 & Hc1); [by eapply bs_disk|done|done|done|].
    destruct (store_map E uninit d1 bm (freeMapFile fs)) as (d2 & E2 & Ho2 & Hc2); [apply Ho1|done|done|done|].
    exists d1, d2. split; [done|]. split; [done|]. apply written_back; [done| |done| |done|done|done].
    + eapply only_mono; [|by eapply only_trans]. set_solver.
    + rewrite <- Hc1. eapply contents_frame; [done|exact Ho2|]. intros x Hx1 Hx2. by apply (Hsep x).
  - destruct (store_map E uninit d bm (freeMapFile fs)) as (d1 & E1 & Ho1 & Hc1); [by eapply bs_disk|done|done|done|].
    destruct (store_table E uninit d1 t (directoryFile fs)) as (d2 & E2 & Ho2 & Hc2); [apply Ho1|done|done|done|].
    exists d1, d2. split; [done|]. split; [done|]. apply written_back; [done|by eapply only_trans| |done|done|done|done].
    rewrite <- Hc1. by eapply contents_frame; [|exact Ho2|].
Qed.

Lemma write_header d h s :
  disk_ok d → is_sector s → hdr_ok h →
  ∃ d', WriteBack E d h s = Ok d' ∧ only [s] d d' ∧ sector d' s = header_bytes E h.
Proof.
  intros Hok Hs Hh. unfold WriteBack.
  destruct (write_law d s (header_bytes E h) Hok Hs) as (d' & -> & Hok' & Hd & Ho); [by apply header_bytes_length, hdr_ints|].
  exists d'. split_and!; [done| |done]. split; [done|]. intros m Hm Hne. apply Ho; [done|set_solver].
Qed.

(** What is known of memory that is not initialised. *)
Context (Hheader : header_room stale_header) (Hentry : ∀ i, entry_ok (stale_entry i)).
Context (Hwords : Forall is_u32 stale_words ∧ NumSectors / BitMap.BitsInWord ≤ Z.of_nat (length stale_words)).

(** The table that the constructor of a directory makes. *)
Definition fresh_table : list DirectoryEntry := table (Directory_new stale_entry NumDirEntries).

Lemma fresh_entries : entries fresh_table = [].
Proof.
  unfold fresh_table, Directory_new. simpl. done.
Qed.

Lemma fresh_table_ok : table_ok fresh_table.
Proof using Hentry.
  split; [done| |rewrite fresh_entries; constructor]. unfold fresh_table, Directory_new. apply Forall_fmap, Forall_true.
  intros i. by destruct (Hentry i) as [? ? ? ?].
Qed.

Lemma new_map : ∃ b, BitMap.BitMap_new NumSectors stale_words = Ok b ∧ map_ok b ∧ used b = ∅.
Proof using Hwords.
  destruct Hwords as [Hw1 Hw2]. destruct (BitMap_new_used NumSectors stale_words) as (b & E1 & Hw & Hn & Hu); [done|done|exact Hw2|].
  by exists b.
Qed.

(** Reading the directory. *)
Lemma read_directory d fs t bm :
  fs_ok E d fs t bm →
  ∃ d', Directory_FetchFrom E d (Directory_new stale_entry NumDirEntries) (directoryFile fs) = Ok (mkDirectory t, d') ∧ same d d'.
Proof using Hentry.
  intros [Hb Hm Hd Hmap Htab Hu]. destruct (bs_dir _ _ _ _ Hb) as [Hh Hn].
  apply (fetch_table E d fresh_table t); [by eapply bs_disk|done|done|done|apply fresh_table_ok|done].
Qed.

End volume.

End Volume.
