(* ===== verification/FileTheorems.v ===== *)
(** * Properties of the disk and of the file system

    Every request to the synchronous disk completes, in bounded time.  Over any
    disk that meets [SectorLaws], and so over the synchronous disk of file Disk,
    the operations of filesys.cc and openfile.cc are those of a finite map from
    names to bytes. *)

From stdpp Require Import base list gmap.
From S2P Require Import Prelude Lists BitMap Machine Bytes Threads Managers Interrupt Disk.
Import Bytes Disk.
From S2P Require Import FileSys Files Volume.

Module FileTheorems.
Import InUse FileSys Files Volume.

Section operations.
Context {D : Type} `{SectorLaws D}.
Context (E : bool) (uninit : nat → Z) (stale_header : FileHeader) (stale_entry : nat → DirectoryEntry) (stale_words : list Z).
Context (Hheader : header_room stale_header) (Hentry : ∀ i, entry_ok (stale_entry i)).
Context (Hwords : Forall is_u32 stale_words ∧ NumSectors / BitMap.BitsInWord ≤ Z.of_nat (length stale_words)).

(** There is room for a file of [n] bytes. *)
Definition room (F : gmap (list Z) (list Z)) (free n : Z) : Prop :=
  Z.of_nat (size F) < NumDirEntries ∧ 1 + divRoundUp n SectorSize ≤ free.

(** The sectors and the header of a file that is about to be created. *)
Lemma new_file d fs t bm bm1 bm2 k s h n t' :
  fs_ok E d fs t bm → is_sector s → takes bm bm1 [s] → hdr_ok h → numBytes h = n → takes bm1 bm2 (blocks h) →
  table_ok t' → entries t' ≡ₚ (k, s) :: entries t →
  ∃ d1 d2 d3 bs, WriteBack E d h s = Ok d1 ∧ Directory_WriteBack E uninit d1 (mkDirectory t') (directoryFile fs) = Ok d2 ∧
    BitMap_WriteBack E uninit d2 bm2 (freeMapFile fs) = Ok d3 ∧ Z.of_nat (length bs) = n ∧
    volume E d3 fs (<[k := bs]> (files E d (entries t))) (free_sectors bm - (1 + divRoundUp n SectorSize)).
Proof.
  intros Hfs Hs Ht1 Hh Hn Ht2 Htab Hp. pose proof (takes_cons _ _ _ _ _ Ht1 Ht2) as Ht.
  destruct Hfs as [Hb Hm Hd Hmap Htab0 Hu]. pose proof (bs_disk _ _ _ _ Hb) as Hok.
  destruct (write_header E d h s Hok Hs Hh) as (d1 & E1 & Ho1 & Hs1).
  destruct (header_added E d d1 fs (entries t) k s h) as (Hb1 & Hf1 & Hh1 & Hown); [done|done|done|done|done|apply Ht| |].
  { intros x Hx. pose proof (tk_fresh _ _ _ Ht x Hx) as Hx2. by rewrite Hu, elem_of_list_to_set in Hx2. }
  assert (base E d1 fs (entries t')) as Hb1' by by rewrite Hp.
  destruct (write_back_both E uninit d1 fs t' bm2 Hb1') as [(d2 & d3 & E2 & E3 & Hfs3 & Hf3) _]; [apply Ht|done| |].
  { rewrite (tk_used _ _ _ Ht), Hu, Hp, Hown. by rewrite list_to_set_app_L. }
  exists d1, d2, d3, (contents d1 h). pose proof (bs_disk _ _ _ _ Hb1) as Hok1. pose proof (file_length d1 h Hok1 Hh) as Hl.
  split_and!; [done|done|done|lia|]. exists t', bm2. split_and!; [done| |].
  - rewrite Hf3, (files_perm E d1 _ _ (tb_keys _ Htab) Hp), files_cons, Hh1. by f_equal.
  - rewrite (takes_free _ _ _ Ht). cbn [length]. pose proof (blocks_length h Hh) as Hbl. rewrite (ho_sectors h Hh), Hn in Hbl. lia.
Qed.

(** The last part of [Create]. *)
Definition create_file (d : D) (fs : FileSystem) (s : Z) (freeMap : BitMap.BitMap) (t : list DirectoryEntry) (n : Z) : result (bool * D) :=
  '(ok, h, freeMap) ← Allocate stale_header freeMap n;
  if negb ok then Ok (false, d)
  else
    d ← WriteBack E d h s;
    d ← Directory_WriteBack E uninit d (mkDirectory t) (directoryFile fs);
    d ← BitMap_WriteBack E uninit d freeMap (freeMapFile fs);
    Ok (true, d).

(** [Create] up to the point where it allocates the sectors of the file. *)
Lemma Create_start d fs t bm nm n :
  fs_ok E d fs t bm →
  ∃ d', same d d' ∧ let r := Create E uninit stale_header stale_entry stale_words d fs nm n in
  if decide (dir t !! key nm = None ∧ Z.of_nat (length (entries t)) < NumDirEntries ∧ 0 < free_sectors bm)
  then ∃ s bm1 t', r = create_file d' fs s bm1 t' n ∧ is_sector s ∧ takes bm bm1 [s] ∧ table_ok t' ∧ entries t' ≡ₚ (key nm, s) :: entries t
  else r = Ok (false, d').
Proof.
  intros Hfs. unfold Create. destruct (read_directory E stale_entry Hentry d fs t bm Hfs) as (d1 & -> & Hs1). run_ok.
  pose proof (fo_table _ _ _ _ _ Hfs) as Htab. rewrite (Find_dir t nm (tb_keys _ Htab)). run_ok.
  destruct (dir t !! key nm) as [s|] eqn:Hdir; cbv beta zeta iota delta [from_option id].
  { destruct (dir_sector E _ _ _ _ _ _ Hfs Hdir) as (_ & Hsec & _). unfold is_sector in Hsec. exists d1. split; [done|].
    rewrite decide_False by naive_solver. destruct (Z.eqb_spec s (-1)); [lia|done]. }
  destruct (new_map stale_words Hwords) as (b & -> & Hb & _). run_ok. destruct (fs_same E _ _ _ _ _ Hfs Hs1) as [Hfs1 _].
  destruct (read_free_map E d1 b fs t bm Hfs1 Hb) as (d2 & -> & Hs2). run_ok. exists d2. split; [by eapply same_trans|].
  pose proof (Find_free bm (fo_map_ok _ _ _ _ _ Hfs)) as HF.
  destruct (decide (0 < free_sectors bm)); [|destruct HF as (bm1 & ->); by rewrite decide_False by naive_solver].
  destruct HF as (s & bm1 & -> & Hss & Ht1). run_ok. destruct (Z.eqb_spec s (-1)); [unfold is_sector in Hss; lia|].
  pose proof (Add_dir t nm s Htab (is_sector_s32 s Hss) Hdir) as HA.
  destruct (decide (Z.of_nat (length (entries t)) < NumDirEntries)); [|rewrite HA; by rewrite decide_False by naive_solver].
  destruct HA as (t' & -> & Htab' & Hp). rewrite decide_True by done. by exists s, bm1, t'.
Qed.

Lemma Create_cases d fs F free nm n :
  volume E d fs F free → 0 ≤ n ≤ MaxFileSize →
  ∃ r d', Create E uninit stale_header stale_entry stale_words d fs nm n = Ok (r, d') ∧
  if r then F !! key nm = None ∧ room F free n ∧
            ∃ bs, Z.of_nat (length bs) = n ∧ volume E d' fs (<[key nm := bs]> F) (free - (1 + divRoundUp n SectorSize))
  else (is_Some (F !! key nm) ∨ ¬ room F free n) ∧ same d d'.
Proof.
  intros (t & bm & Hfs & <- & ->) Hn. pose proof (fo_table _ _ _ _ _ Hfs) as Htab. pose proof (sectors_of n Hn) as Hsec.
  destruct (Create_start d fs t bm nm n Hfs) as (d2 & Hs & Hr). destruct (fs_same E _ _ _ _ _ Hfs Hs) as [Hfs2 Hf2].
  rewrite files_lookup. unfold room. rewrite files_size by done. cbv zeta in Hr. case_decide as Hc.
  2: { exists false, d2. split_and!; [done| |done]. destruct (dir t !! key nm); [left; by eexists|right; naive_solver lia]. }
  destruct Hc as (Hdir & Hlen & Hfree), Hr as (s & bm1 & t' & -> & Hss & Ht1 & Htab' & Hp). rewrite Hdir. unfold create_file.
  pose proof (takes_free _ _ _ Ht1) as Hf1. simpl in Hf1. pose proof (Allocate_ok stale_header bm1 n Hheader (tk_map _ _ _ Ht1) Hn) as HA.
  case_decide; [|destruct HA as (h & bm2 & ->); exists false, d2; split_and!; [done|right; lia|done]].
  destruct HA as (h & bm2 & -> & Hh & Hhn & Ht2). cbn [mbind result_bind negb].
  destruct (new_file d2 fs t bm bm1 bm2 (key nm) s h n t' Hfs2 Hss Ht1 Hh Hhn Ht2 Htab' Hp) as (d3 & d4 & d5 & bs & -> & E4 & E5 & Hl & Hv).
  run_ok. rewrite E4. run_ok. rewrite E5. run_ok. exists true, d5. rewrite Hf2 in Hv. split_and!; [done|done|lia|lia|]. by exists bs.
Qed.

(** A file that needs more than [NumDirect] sectors. *)
Lemma Create_overflow d fs F free nm n :
  volume E d fs F free → MaxFileSize < n → F !! key nm = None → room F free n →
  Create E uninit stale_header stale_entry stale_words d fs nm n = Err OutOfBounds.
Proof.
  intros (t & bm & Hfs & <- & ->) Hn Hnone [Hlen Hroom]. pose proof (fo_table _ _ _ _ _ Hfs) as Htab.
  rewrite files_size in Hlen by done. rewrite files_lookup, fmap_None in Hnone. change MaxFileSize with 3840 in *.
  pose proof (divRoundUp_nonneg n SectorSize ltac:(lia) ltac:(done)).
  destruct (Create_start d fs t bm nm n Hfs) as (d2 & _ & Hr). cbv zeta in Hr. rewrite decide_True in Hr by (split_and!; [done|done|lia]).
  destruct Hr as (s & bm1 & t' & -> & _ & Ht1 & _). unfold create_file. pose proof (takes_free _ _ _ Ht1) as Hf1. simpl in Hf1.
  rewrite Allocate_overflow; [done|done|apply Ht1|done|lia].
Qed.

Lemma fs_free d fs t bm : fs_ok E d fs t bm → free_sectors bm = NumSectors - Z.of_nat (length (owned E d fs (entries t))).
Proof.
  intros Hfs. unfold free_sectors. rewrite (fo_used _ _ _ _ _ Hfs), size_list_to_set; [done|apply (bs_owned _ _ _ _ (fo_base _ _ _ _ _ Hfs))].
Qed.

(** The sectors of a file go back to the free map. *)
Lemma file_freed d fs t bm k s es :
  fs_ok E d fs t bm → entries t ≡ₚ (k, s) :: es →
  ∃ bm1 bm2, Deallocate (header_at E d s) bm = Ok bm1 ∧ BitMap.Clear bm1 s = Ok bm2 ∧ map_ok bm2 ∧
    base E d fs es ∧ used bm2 = list_to_set (owned E d fs es).
Proof.
  intros Hfs Hp. pose proof (fo_base _ _ _ _ _ Hfs) as Hb. rewrite Hp in Hb.
  destruct (file_header E d fs _ s Hb) as [Hs Hh]; [by left|]. destruct (base_removed E _ _ _ _ _ Hb) as [Hb' Hown].
  pose proof (bs_owned _ _ _ _ Hb) as Hnd. rewrite Hown in Hnd. apply NoDup_app in Hnd as (Hnd1 & Hdis & Hnd2).
  pose proof (fo_used _ _ _ _ _ Hfs) as Hu. rewrite Hp, Hown, list_to_set_app_L in Hu.
  destruct (Deallocate_ok (header_at E d s) bm Hh (fo_map_ok _ _ _ _ _ Hfs)) as (bm1 & E1 & [Hwf1 Hn1] & Hu1).
  { intros x Hx. rewrite Hu, elem_of_union, elem_of_list_to_set. left. by right. }
  destruct (Clear_used bm1 s Hwf1) as (bm2 & E2 & Hwf2 & Hn2 & Hu2); [by rewrite Hn1|]. exists bm1, bm2.
  split_and!; [done|done|split; [done|congruence]|done|]. rewrite Hu2, Hu1, Hu. apply set_eq. intros x.
  rewrite !elem_of_difference, elem_of_singleton, elem_of_union, !elem_of_list_to_set. specialize (Hdis x). unfold file_sectors in *.
  rewrite elem_of_cons in *. naive_solver.
Qed.

Lemma Remove_cases d fs F free nm :
  volume E d fs F free → let r := FileSystem_Remove E uninit stale_entry stale_words d fs nm in
  match F !! key nm with
  | None => ∃ d', r = Ok (false, d') ∧ same d d'
  | Some bs => ∃ d', r = Ok (true, d') ∧
      volume E d' fs (delete (key nm) F) (free + (1 + divRoundUp (Z.of_nat (length bs)) SectorSize))
  end.
Proof.
  intros (t & bm & Hfs & <- & ->). cbv zeta. unfold FileSystem_Remove. pose proof (fo_table _ _ _ _ _ Hfs) as Htab.
  destruct (read_directory E stale_entry Hentry d fs t bm Hfs) as (d1 & -> & Hs1). run_ok.
  rewrite (Find_dir t nm (tb_keys _ Htab)). run_ok. rewrite files_lookup. destruct (dir t !! key nm) as [s|] eqn:Hdir; simpl; [|by exists d1].
  destruct (dir_sector E _ _ _ _ _ _ Hfs Hdir) as (_ & Hsec & Hh). destruct (Z.eqb_spec s (-1)); [unfold is_sector in Hsec; lia|].
  unfold FetchFrom. destruct (read_law d1 s (proj1 Hs1) Hsec) as (d2 & -> & Hs2). run_ok.
  destruct (new_map stale_words Hwords) as (b & -> & Hb & _). run_ok. pose proof (same_trans _ _ _ Hs1 Hs2) as Hs12.
  destruct (fs_same E _ _ _ _ _ Hfs Hs12) as [Hfs2 _].
  destruct (read_free_map E d2 b fs t bm Hfs2 Hb) as (d3 & -> & Hs3). run_ok. pose proof (same_trans _ _ _ Hs12 Hs3) as Hs.
  destruct (fs_same E _ _ _ _ _ Hfs Hs) as [Hfs3 Hf3]. destruct (Remove_dir t nm s Htab Hdir) as (t' & Er & Htab' & Hp).
  destruct (file_freed d3 fs t bm _ _ _ Hfs3 Hp) as (bm1 & bm2 & E1 & E2 & Hm2 & Hb3 & Hu2).
  assert (header_of E (sector d1 s) = header_at E d3 s) as -> by (unfold header_at; by rewrite (proj2 Hs s Hsec), (proj2 Hs1 s Hsec)).
  rewrite E1. run_ok. rewrite E2. run_ok. rewrite Er. run_ok.
  destruct (write_back_both E uninit d3 fs t' bm2 Hb3 Hm2 Htab' Hu2) as [_ (d4 & d5 & -> & E5 & Hfs5 & Hf5)]. run_ok. rewrite E5. run_ok.
  exists d5. split; [done|]. exists t', bm2. split_and!; [done| |].
  - rewrite Hf5, <- Hf3, (files_perm E d3 _ _ (tb_keys _ Htab) Hp), files_cons, delete_insert_id; [done|]. rewrite files_lookup, fmap_None.
    pose proof (tb_keys _ Htab) as Hnd. rewrite Hp in Hnd. apply NoDup_cons in Hnd as [Hni _]. by apply not_elem_of_list_to_map_1.
  - pose proof (bs_disk _ _ _ _ (fo_base _ _ _ _ _ Hfs)) as Hok. rewrite (file_length d _ Hok Hh), <- (ho_sectors _ Hh).
    pose proof (blocks_length _ Hh). unfold free_sectors at 2. rewrite Hu2, size_list_to_set by apply Hb3. rewrite (fs_free _ _ _ _ Hfs3), Hp.
    destruct (base_removed E d3 fs (key nm) s (entries t')) as [_ ->]; [rewrite <- Hp; apply Hfs3|].
    rewrite length_app. unfold file_sectors. cbn [length].
    assert (header_at E d3 s = header_at E d s) as -> by (unfold header_at; by rewrite (proj2 Hs s Hsec)). lia.
Qed.

(** ** Open files *)

(** The directory that is on the disk. *)
Definition dir_on (d : D) (fs : FileSystem) : gmap (list Z) Z :=
  dir (table_of E (contents d (hdr (directoryFile fs))) (Z.to_nat NumDirEntries)).

(** [f] is open on the file with the name [k]. *)
Definition opened (d : D) (fs : FileSystem) (k : list Z) (f : OpenFile) : Prop :=
  ∃ s, dir_on d fs !! k = Some s ∧ hdr f = header_at E d s.

Lemma dir_on_ok d fs t bm : fs_ok E d fs t bm → dir_on d fs = dir t.
Proof.
  intros Hfs. unfold dir_on. pose proof (fo_table _ _ _ _ _ Hfs) as Htab. rewrite (fo_dir _ _ _ _ _ Hfs).
  replace (Z.to_nat NumDirEntries) with (length t) by (pose proof (tb_length _ Htab); lia).
  by rewrite table_roundtrip by apply Htab.
Qed.

(** An open file and what is in it. *)
Lemma opened_file d fs F free k f :
  volume E d fs F free → opened d fs k f →
  ∃ t bm s, fs_ok E d fs t bm ∧ files E d (entries t) = F ∧ free = free_sectors bm ∧ dir t !! k = Some s ∧
    hdr f = header_at E d s ∧ hdr_ok (hdr f) ∧ disk_ok d ∧ F !! k = Some (contents d (hdr f)).
Proof.
  intros (t & bm & Hfs & <- & ->) (s & Hs & Hf). rewrite (dir_on_ok _ _ _ _ Hfs) in Hs.
  destruct (dir_sector E _ _ _ _ _ _ Hfs Hs) as (_ & _ & Hh). exists t, bm, s. rewrite files_lookup, Hs, Hf.
  split_and!; try done. apply (bs_disk _ _ _ _ (fo_base _ _ _ _ _ Hfs)).
Qed.

Lemma opened_same d d' fs k f : opened d fs k f → same d d' → (∀ t bm, fs_ok E d fs t bm → opened d' fs k f).
Proof.
  intros (s & Hs & Hf) Hsame t bm Hfs. destruct (fs_same E _ _ _ _ _ Hfs Hsame) as [Hfs' _].
  exists s. rewrite (dir_on_ok _ _ _ _ Hfs'), <- (dir_on_ok _ _ _ _ Hfs). split; [done|]. rewrite Hf.
  rewrite (dir_on_ok _ _ _ _ Hfs) in Hs. destruct (dir_sector E _ _ _ _ _ _ Hfs Hs) as (_ & Hsec & _).
  unfold header_at. by rewrite (proj2 Hsame s Hsec).
Qed.

Lemma Open_cases d fs F free nm :
  volume E d fs F free →
  ∃ r d', Open E stale_entry d fs nm = Ok (r, d') ∧ same d d' ∧
  match F !! key nm, r with
  | Some _, Some f => opened d' fs (key nm) f ∧ seekPosition f = 0
  | None, None => True
  | _, _ => False
  end.
Proof.
  intros (t & bm & Hfs & <- & ->). unfold Open. pose proof (fo_table _ _ _ _ _ Hfs) as Htab.
  destruct (read_directory E stale_entry Hentry d fs t bm Hfs) as (d1 & -> & Hs1). run_ok.
  rewrite (Find_dir t nm (tb_keys _ Htab)). run_ok. rewrite files_lookup. destruct (dir t !! key nm) as [s|] eqn:Hdir; simpl; [|by exists None, d1].
  destruct (dir_sector E _ _ _ _ _ _ Hfs Hdir) as (_ & Hsec & Hh). rewrite Z.geb_leb. destruct (Z.leb_spec 0 s); [|unfold is_sector in Hsec; lia].
  unfold OpenFile_new, FetchFrom. destruct (read_law d1 s (proj1 Hs1) Hsec) as (d2 & -> & Hs2). run_ok.
  pose proof (same_trans _ _ _ Hs1 Hs2) as Hs. eexists _, d2. split; [reflexivity|]. split_and!; [done| |done]. exists s.
  destruct (fs_same E _ _ _ _ _ Hfs Hs) as [Hfs2 _]. rewrite (dir_on_ok _ _ _ _ Hfs2). split; [done|].
  simpl. unfold header_at. by rewrite (proj2 Hs2 s Hsec).
Qed.

Lemma opened_read d fs F free k f n position bs :
  volume E d fs F free → opened d fs k f → F !! k = Some bs → 0 ≤ position → position + n < 2 ^ 31 →
  ∃ d', ReadAt d f n position = Ok (slice bs position n, d') ∧ same d d'.
Proof.
  intros Hv Hop Hk Hp Hn. destruct (opened_file _ _ _ _ _ _ Hv Hop) as (t & bm & s & Hfs & _ & _ & _ & _ & Hh & Hok & Hc).
  rewrite Hk in Hc. injection Hc as ->. by apply ReadAt_ok.
Qed.

Lemma opened_write d fs F free k f data n position bs :
  volume E d fs F free → opened d fs k f → F !! k = Some bs → 0 ≤ position → position + n < 2 ^ 31 →
  let m := Z.max 0 (Z.min n (Z.of_nat (length bs) - position)) in m ≤ Z.of_nat (length data) →
  ∃ d', WriteAt uninit d f data n position = Ok (m, d') ∧
    volume E d' fs (<[k := list_inserts (Z.to_nat position) (take (Z.to_nat m) data) bs]> F) free ∧
    ∀ k' f', opened d fs k' f' → opened d' fs k' f'.
Proof.
  intros Hv Hop Hk Hp Hn m Hm. destruct (opened_file _ _ _ _ _ _ Hv Hop) as (t & bm & s & Hfs & Hf & -> & Hdir & Hhdr & Hh & Hok & Hc).
  rewrite Hk in Hc. injection Hc as ->. pose proof (file_length d _ Hok Hh) as Hl.
  assert (m = amount (hdr f) n position) as Em by (unfold m, amount; by rewrite Hl).
  destruct (WriteAt_ok uninit d f data n position Hok Hh Hp Hn) as (d' & -> & Ho & Hc'); [lia|]. exists d'. rewrite Em.
  destruct (dir_sector E _ _ _ _ _ _ Hfs Hdir) as (Hin & Hsec & _). rewrite Hhdr in Ho.
  destruct (file_written E d d' fs t bm k s Hfs Hin Ho) as (Hfs' & Hhs & Hfiles). split_and!; [done| |].
  - exists t, bm. split_and!; [done| |done]. by rewrite Hfiles, Hf, <- Hhdr, Hc'.
  - intros k' f' (s' & Hs' & Hf'). exists s'. rewrite (dir_on_ok _ _ _ _ Hfs'), <- (dir_on_ok _ _ _ _ Hfs). split; [done|]. rewrite Hf'.
    rewrite (dir_on_ok _ _ _ _ Hfs) in Hs'. destruct (dir_sector E _ _ _ _ _ _ Hfs Hs') as (Hin' & Hsec' & _).
    unfold header_at. f_equal. symmetry. apply Ho; [done|]. intros Hx.
    apply (sp_file _ _ _ _ (base_separate _ _ _ _ (fo_base _ _ _ _ _ Hfs)) s) with (x := s'); [apply list_elem_of_fmap; by exists (k, s)|done|].
    do 2 right. rewrite !elem_of_app. do 2 right. apply list_elem_of_fmap. by exists (k', s').
Qed.

(** ** Formatting and mounting *)

Lemma Mark_takes bm s : map_ok bm → is_sector s → s ∉ used bm → ∃ bm', BitMap.Mark bm s = Ok bm' ∧ takes bm bm' [s].
Proof.
  intros [Hwf Hn] Hs Hni. destruct (BitMap.Mark_ok bm s Hwf) as (bm' & -> & Hu); [by rewrite Hn|]. exists bm'. split; [done|].
  split; [split; [apply Hu|]|by constructor|apply NoDup_singleton|set_solver|].
  - rewrite <- Hn. apply Hu.
  - rewrite (used_mark bm bm' s); [set_solver|by rewrite Hn|done].
Qed.

Lemma takes_app bm bm1 bm2 l1 l2 : takes bm bm1 l1 → takes bm1 bm2 l2 → takes bm bm2 (l1 ++ l2).
Proof.
  intros [_ H2 H3 H4 H5] [K1 K2 K3 K4 K5]. split; [done|by apply Forall_app| | |].
  - apply NoDup_app. split_and!; [done| |done]. intros x Hx Hx2. apply (K4 x Hx2). rewrite H5. set_solver.
  - intros x [Hx|Hx]%elem_of_app; [by apply H4|]. specialize (K4 x Hx). rewrite H5 in K4. set_solver.
  - rewrite K5, H5. set_solver.
Qed.

Lemma OpenFile_at d s : disk_ok d → is_sector s → ∃ d', OpenFile_new E d s = Ok (mkOpen (header_at E d s) 0, d') ∧ same d d'.
Proof.
  intros Hok Hs. unfold OpenFile_new, FetchFrom. destruct (read_law d s Hok Hs) as (d' & -> & Hsame). run_ok. by exists d'.
Qed.

Lemma format_ok d :
  disk_ok d → ∃ fs d', FileSystem_format E uninit stale_header stale_entry stale_words d = Ok (fs, d') ∧ volume E d' fs ∅ (NumSectors - 5).
Proof.
  intros Hok. unfold FileSystem_format. destruct (new_map stale_words Hwords) as (b0 & -> & Hb0 & Hu0). run_ok.
  destruct (Mark_takes b0 FreeMapSector Hb0) as (b1 & -> & Ht1); [done|set_solver|]. run_ok.
  destruct (Mark_takes b1 DirectorySector (tk_map _ _ _ Ht1)) as (b2 & -> & Ht2); [done| |].
  { rewrite (tk_used _ _ _ Ht1), Hu0. unfold FreeMapSector, DirectorySector. set_solver. }
  run_ok. assert (free_sectors b0 = 1024) as F0 by (unfold free_sectors; by rewrite Hu0, size_empty).
  pose proof (takes_free _ _ _ Ht1) as F1. pose proof (takes_free _ _ _ Ht2) as F2. simpl in F1, F2.
  pose proof (Allocate_ok stale_header b2 FreeMapFileSize Hheader (tk_map _ _ _ Ht2) ltac:(done)) as HA.
  change (divRoundUp FreeMapFileSize SectorSize) with 1 in HA. rewrite decide_True in HA by lia.
  destruct HA as (mh & b3 & -> & Hmh & Hmn & Ht3). run_ok. pose proof (takes_free _ _ _ Ht3) as F3.
  pose proof (blocks_length mh Hmh) as L3. rewrite (ho_sectors _ Hmh), Hmn in L3. change (divRoundUp FreeMapFileSize SectorSize) with 1 in L3.
  pose proof (Allocate_ok stale_header b3 DirectoryFileSize Hheader (tk_map _ _ _ Ht3) ltac:(done)) as HA.
  change (divRoundUp DirectoryFileSize SectorSize) with 2 in HA. rewrite decide_True in HA by lia.
  destruct HA as (dh & b4 & -> & Hdh & Hdn & Ht4). run_ok. pose proof (takes_free _ _ _ Ht4) as F4.
  pose proof (blocks_length dh Hdh) as L4. rewrite (ho_sectors _ Hdh), Hdn in L4. change (divRoundUp DirectoryFileSize SectorSize) with 2 in L4.
  pose proof (takes_cons _ _ _ _ _ Ht1 (takes_cons _ _ _ _ _ Ht2 (takes_app _ _ _ _ _ Ht3 Ht4))) as Ht.
  destruct (write_header E d mh FreeMapSector Hok) as (d1 & -> & Ho1 & Hs1); [done|done|]. run_ok.
  destruct (write_header E d1 dh DirectorySector (proj1 Ho1)) as (d2 & -> & Ho2 & Hs2); [done|done|]. run_ok.
  destruct (OpenFile_at d2 FreeMapSector (proj1 Ho2)) as (d3 & -> & Hs3); [done|]. run_ok.
  destruct (OpenFile_at d3 DirectorySector (proj1 Hs3)) as (d4 & -> & Hs4); [done|]. run_ok.
  assert (header_at E d2 FreeMapSector = mh) as Em.
  { unfold header_at. rewrite (proj2 Ho2), Hs1; [by apply header_roundtrip, hdr_ints|done|]. unfold FreeMapSector, DirectorySector. set_solver. }
  assert (header_at E d3 DirectorySector = dh) as Ed.
  { unfold header_at. rewrite (proj2 Hs3), Hs2 by done. by apply header_roundtrip, hdr_ints. }
  rewrite Em, Ed. set (fs := mkFileSys (mkOpen mh 0) (mkOpen dh 0)).
  assert (base E d4 fs []) as Hb.
  { split; simpl; try done.
    - apply Hs4.
    - unfold header_at in *. by rewrite (proj2 Hs4), (proj2 Hs3).
    - unfold header_at in *. by rewrite (proj2 Hs4).
    - unfold owned. simpl. rewrite app_nil_r. apply Ht. }
  rewrite <- (fresh_entries stale_entry) in Hb.
  destruct (write_back_both E uninit d4 fs (fresh_table stale_entry) b4 Hb (tk_map _ _ _ Ht4) (fresh_table_ok stale_entry Hentry))
    as [_ (d5 & d6 & E5 & E6 & Hfs6 & Hf6)].
  { rewrite (tk_used _ _ _ Ht), Hu0, fresh_entries. unfold owned. simpl. rewrite app_nil_r. set_solver. }
  cbn [freeMapFile directoryFile fs] in E5, E6. rewrite E5. run_ok. change (Directory_new stale_entry NumDirEntries) with (mkDirectory (fresh_table stale_entry)).
  rewrite E6. run_ok. exists fs, d6. split; [done|]. exists (fresh_table stale_entry), b4. split_and!; [done| |].
  - rewrite fresh_entries. by apply fmap_empty.
  - change NumSectors with 1024. lia.
Qed.

(** The files are still there after the file system is started again. *)
Lemma mount_ok d fs F free :
  volume E d fs F free →
  ∃ fs' d', FileSystem_new E uninit stale_header stale_entry stale_words d false = Ok (fs', d') ∧ volume E d' fs' F free.
Proof.
  intros (t & bm & Hfs & <- & ->). unfold FileSystem_new. pose proof (fo_base _ _ _ _ _ Hfs) as Hb.
  destruct (OpenFile_at d FreeMapSector (bs_disk _ _ _ _ Hb)) as (d1 & -> & Hs1); [done|]. run_ok.
  destruct (OpenFile_at d1 DirectorySector (proj1 Hs1)) as (d2 & -> & Hs2); [done|]. run_ok.
  pose proof (same_trans _ _ _ Hs1 Hs2) as Hs. destruct (fs_same E _ _ _ _ _ Hfs Hs) as [Hfs2 Hf2].
  assert (header_at E d1 DirectorySector = header_at E d DirectorySector) as Ed by (unfold header_at; by rewrite (proj2 Hs1)).
  rewrite Ed, (bs_map_header _ _ _ _ Hb), (bs_dir_header _ _ _ _ Hb). do 2 eexists. split; [done|]. exists t, bm. split_and!; [|done|done].
  destruct Hfs2 as [[B1 B2 B3 B4 B5 B6 B7] F1 F2 F3 F4 F5]. by split; [split|..].
Qed.

End operations.

(** ** The synchronous disk is such a disk *)
Section synch.
Context (DiskDone_addr DiskRequestDone_addr disk_addr synch_addr : Z).

Definition synch_ops : SectorOps (Interrupt.sim SynchDisk) :=
  {| ReadSector := Disk.ReadSector DiskDone_addr DiskRequestDone_addr disk_addr synch_addr;
     WriteSector := Disk.WriteSector DiskDone_addr DiskRequestDone_addr disk_addr synch_addr |}.

Lemma sector_full s n : quiet DiskRequestDone_addr synch_addr s → is_sector n → length (Disk.sector s n) = Z.to_nat SectorSize.
Proof.
  intros Hq Hn. pose proof (qt_file _ _ _ Hq) as Hf. destruct (sector_in_file n Hn) as [Hlo Hhi].
  unfold Disk.sector, slice. rewrite length_take, length_drop. unfold SectorSize in *. lia.
Qed.

Program Definition synch_laws : SectorLaws (Interrupt.sim SynchDisk) (H := synch_ops) :=
  {| disk_ok := quiet DiskRequestDone_addr synch_addr; sector := Disk.sector |}.
Next Obligation. intros. by apply sector_full. Qed.
Next Obligation.
  intros s n Hq Hn. pose proof (ReadSector_ok DiskDone_addr DiskRequestDone_addr disk_addr synch_addr s n Hq) as Hr.
  rewrite decide_True in Hr by done. destruct Hr as (s' & E & Hq' & Hf). exists s'. split_and!; [done|done|].
  intros m _. unfold Disk.sector. by rewrite Hf.
Qed.
Next Obligation.
  intros s n data Hq Hn Hl. pose proof (WriteSector_ok DiskDone_addr DiskRequestDone_addr disk_addr synch_addr s n data Hq) as Hw.
  rewrite decide_True in Hw by done. destruct Hw as (s' & E & Hq' & Hd & Ho & _); [by rewrite Hl|]. by exists s'.
Qed.
Next Obligation.
  intros s n data Hq Hl Hn. pose proof (ReadSector_ok DiskDone_addr DiskRequestDone_addr disk_addr synch_addr s n Hq) as Hr.
  pose proof (WriteSector_ok DiskDone_addr DiskRequestDone_addr disk_addr synch_addr s n data Hq) as Hw.
  rewrite decide_False in Hr, Hw by done. split; [done|]. apply Hw. by rewrite Hl.
Qed.

End synch.

(** ** A new disk *)

Definition new_synch : SynchDisk := match SynchDisk_new 1 2 false None with Ok x => x | Err _ => mkSynch (mkDisk [] 0 0 false 0 0) 0 false false true end.
Definition new_disk : Interrupt.sim SynchDisk :=
  Interrupt.mkSim (Interrupt.mkInterrupt Threads.IntOn ListModel.empty false false Interrupt.SystemMode)
    Interrupt.Statistics_new None ∅ 1 new_synch.

Lemma new_synch_ok :
  ∃ d, new_synch = mkSynch d 0 false false true ∧ handler d = 1 ∧ handlerArg d = 2 ∧ active d = false ∧ lastSector d = 0 ∧
       Z.of_nat (length (fileno d)) = DiskSize.
Proof.
  destruct (Disk_new_ok false 1 2) as (d & E & H1 & H2 & H3 & H4 & H5 & _). exists d. split_and!; try assumption.
  unfold new_synch, SynchDisk_new. rewrite E. reflexivity.
Qed.

#[global] Opaque new_synch.

Lemma new_disk_quiet : quiet 1 2 new_disk.
Proof.
  destruct new_synch_ok as (d & Ed & H1 & H2 & H3 & H4 & H5).
  split; unfold new_disk; simpl; rewrite ?Ed; simpl; try done. split; [done|]. rewrite H4. done.
Qed.

(** Memory that happens to be zero. *)
Definition zero_header : FileHeader := mkHdr 0 0 (replicate 30 0).
Definition zero_entry (i : nat) : DirectoryEntry := mkEntry false (replicate 3 0) 0 (replicate 10 0) (replicate 2 0).
Definition zero_words : list Z := replicate 32 0.

Lemma zero_header_room : header_room zero_header.
Proof. split; [by apply Forall_replicate|done]. Qed.
Lemma zero_entry_ok i : entry_ok (zero_entry i).
Proof. by split. Qed.
Lemma zero_words_ok : Forall is_u32 zero_words ∧ NumSectors / BitMap.BitsInWord ≤ Z.of_nat (length zero_words).
Proof. split; [by apply Forall_replicate|done]. Qed.

(** ** Properties *)

(** What was just written is what is read. *)
Lemma slice_written (bs data : list Z) (n position : Z) :
  0 ≤ position → let m := Z.max 0 (Z.min n (Z.of_nat (length bs) - position)) in m ≤ Z.of_nat (length data) →
  slice (list_inserts (Z.to_nat position) (take (Z.to_nat m) data) bs) position n = take (Z.to_nat m) data.
Proof.
  intros Hp m Hm. apply list_eq. intros i. rewrite lookup_slice by done.
  assert (length (take (Z.to_nat m) data) = Z.to_nat m) as Hl by (rewrite length_take; lia).
  destruct (decide (Z.of_nat i < m)).
  - rewrite decide_True by lia. rewrite list_lookup_inserts by lia. f_equal. lia.
  - rewrite (lookup_ge_None_2 (take _ _)) by lia. case_decide; [|done]. apply lookup_ge_None_2. rewrite length_inserts. lia.
Qed.

Section properties.
Context {D : Type} `{SectorLaws D}.
Context (E : bool) (uninit : nat → Z) (stale_header : FileHeader) (stale_entry : nat → DirectoryEntry) (stale_words : list Z).
Context (Hheader : header_room stale_header) (Hentry : ∀ i, entry_ok (stale_entry i)).
Context (Hwords : Forall is_u32 stale_words ∧ NumSectors / BitMap.BitsInWord ≤ Z.of_nat (length stale_words)).

(** C13: [FileSystem::Create] of a file of at most [MaxFileSize] bytes, on a disk
    with the files [F], returns TRUE exactly when no file has the name (up to
    nine characters), the directory has an entry left and there are sectors left
    for the header and the data.  Then the files are those of [F] and one more of
    the size asked for, and so many sectors fewer are free; else no sector of the
    disk has changed.  (A larger file overruns its header when there is space for
    it: [create_overflows_header].) *)
Theorem create_adds_file d fs F free nm n :
  volume E d fs F free → 0 ≤ n ≤ MaxFileSize →
  ∃ r d', Create E uninit stale_header stale_entry stale_words d fs nm n = Ok (r, d') ∧
  if r then F !! key nm = None ∧ room F free n ∧
            ∃ bs, Z.of_nat (length bs) = n ∧ volume E d' fs (<[key nm := bs]> F) (free - (1 + divRoundUp n SectorSize))
  else (is_Some (F !! key nm) ∨ ¬ room F free n) ∧ same d d' ∧ volume E d' fs F free.
Proof.
  intros Hv Hn. destruct (Create_cases E uninit stale_header stale_entry stale_words Hheader Hentry Hwords d fs F free nm n Hv Hn)
    as (r & d' & Er & Hr). exists r, d'. split; [done|]. destruct r; [done|]. destruct Hr as [Hwhy Hs].
  split_and!; [done|done|]. by eapply volume_same.
Qed.

(** C14: [FileSystem::Remove] of a file that exists deletes this file and no
    other, and its header and data sectors are free again; of a file that does
    not exist it returns FALSE and changes nothing. *)
Theorem remove_deletes_file d fs F free nm :
  volume E d fs F free →
  ∃ r d', FileSystem_Remove E uninit stale_entry stale_words d fs nm = Ok (r, d') ∧
  match F !! key nm with
  | None => r = false ∧ volume E d' fs F free
  | Some bs => r = true ∧ volume E d' fs (delete (key nm) F) (free + (1 + divRoundUp (Z.of_nat (length bs)) SectorSize))
  end.
Proof.
  intros Hv. pose proof (Remove_cases E uninit stale_entry stale_words Hentry Hwords d fs F free nm Hv) as Hr. cbv zeta in Hr.
  destruct (F !! key nm); destruct Hr as (d' & Er & Hv'); [by exists true, d'|]. exists false, d'. split_and!; [done|done|].
  by eapply volume_same.
Qed.

(** C15: an open file reads and writes its own bytes and nothing else.
    [FileSystem::Open] returns NULL when there is no such file.  Else [ReadAt]
    returns the bytes from the position on, as many as there are of those asked
    for; [WriteAt] puts as many bytes there, whether or not the request begins
    and ends with a sector, so that the other bytes of the file and all other
    files stay as they are, and returns their number; and reading again gives
    what was written. *)
Theorem open_reads_and_writes d fs F free nm data n position :
  volume E d fs F free → 0 ≤ position → position + n < 2 ^ 31 →
  match F !! key nm with
  | None => ∃ d', Open E stale_entry d fs nm = Ok (None, d') ∧ volume E d' fs F free
  | Some bs =>
    let m := Z.max 0 (Z.min n (Z.of_nat (length bs) - position)) in m ≤ Z.of_nat (length data) →
    ∃ f d1 d2 d3 d4, Open E stale_entry d fs nm = Ok (Some f, d1) ∧ volume E d1 fs F free ∧
      ReadAt d1 f n position = Ok (slice bs position n, d2) ∧ same d1 d2 ∧
      WriteAt uninit d2 f data n position = Ok (m, d3) ∧
      volume E d3 fs (<[key nm := list_inserts (Z.to_nat position) (take (Z.to_nat m) data) bs]> F) free ∧
      ReadAt d3 f n position = Ok (take (Z.to_nat m) data, d4) ∧ same d3 d4
  end.
Proof.
  intros Hv Hp Hn. destruct (Open_cases E stale_entry stale_words Hentry d fs F free nm Hv) as (r & d1 & Er & Hs1 & Hr).
  pose proof (volume_same E _ _ _ _ _ Hv Hs1) as Hv1. destruct (F !! key nm) as [bs|] eqn:Hbs.
  2: { destruct r; [done|]. by exists d1. }
  intros m Hm. destruct r as [f|]; [|done]. destruct Hr as [Hop _].
  destruct (opened_read E stale_words d1 fs F free (key nm) f n position bs Hv1 Hop Hbs Hp Hn) as (d2 & E2 & Hs2).
  pose proof (volume_same E _ _ _ _ _ Hv1 Hs2) as Hv2.
  assert (opened E d2 fs (key nm) f) as Hop2 by (pose proof Hv1 as (t & bm & Hfs & _); by eapply opened_same).
  destruct (opened_write E uninit stale_words d2 fs F free (key nm) f data n position bs Hv2 Hop2 Hbs Hp Hn Hm) as (d3 & E3 & Hv3 & Hop3).
  destruct (opened_read E stale_words d3 fs _ free (key nm) f n position _ Hv3 (Hop3 _ _ Hop2) (lookup_insert_eq _ _ _) Hp Hn) as (d4 & E4 & Hs4).
  rewrite slice_written in E4 by done. by exists f, d1, d2, d3, d4.
Qed.

(** C16: formatting a disk leaves it without files and with all sectors free but
    the five that the free map and the directory take; starting the file system
    on a disk that holds files finds these files. *)
Theorem format_and_mount d :
  disk_ok d →
  (∃ fs d', FileSystem_new E uninit stale_header stale_entry stale_words d true = Ok (fs, d') ∧ volume E d' fs ∅ (NumSectors - 5)) ∧
  (∀ fs F free, volume E d fs F free →
   ∃ fs' d', FileSystem_new E uninit stale_header stale_entry stale_words d false = Ok (fs', d') ∧ volume E d' fs' F free).
Proof.
  intros Hok. split; [by apply format_ok|]. intros fs F free Hv. by eapply mount_ok.
Qed.

(** C39: nothing keeps a file to the [NumDirect] sectors that its header has
    room for: for a larger file, if there is space on the disk, [Create] writes
    past the end of [dataSectors]. *)
Theorem create_overflows_header d fs F free nm n :
  volume E d fs F free → MaxFileSize < n → F !! key nm = None → room F free n →
  Create E uninit stale_header stale_entry stale_words d fs nm n = Err OutOfBounds.
Proof. intros. by eapply Create_overflow. Qed.

End properties.

(** C34: a request to the synchronous disk completes, when one thread uses the disk
    and no other interrupt is pending (so without the timer of -rs).  For a
    sector of the disk and a buffer of the size of a sector: the thread that made
    the request sleeps, the machine is idle until the interrupt of the disk, and
    the interrupt wakes the thread: [ReadSector] returns the contents of the
    sector; [WriteSector] changes that sector and no other, nor the magic number,
    and reading it gives what was written.  (File SharedDisk has the disk with
    any number of threads.) *)
Theorem disk_requests_complete DiskDone_addr DiskRequestDone_addr disk_addr synch_addr s n data :
  let read := Disk.ReadSector DiskDone_addr DiskRequestDone_addr disk_addr synch_addr in
  let write := Disk.WriteSector DiskDone_addr DiskRequestDone_addr disk_addr synch_addr in
  let idle := quiet DiskRequestDone_addr synch_addr in
  let file x := fileno (disk (Interrupt.devices x)) in
  idle s → is_sector n → Z.of_nat (length data) = SectorSize →
  (∃ s', read s n = Ok (Disk.sector s n, s') ∧ idle s' ∧ file s' = file s) ∧
  (∃ s1 s2, write s n data = Ok s1 ∧ idle s1 ∧ (∀ m, is_sector m → m ≠ n → Disk.sector s1 m = Disk.sector s m) ∧
     slice (file s1) 0 MagicSize = slice (file s) 0 MagicSize ∧ read s1 n = Ok (data, s2) ∧ idle s2).
Proof.
  intros read write idle file Hq Hn Hd.
  pose proof (ReadSector_ok DiskDone_addr DiskRequestDone_addr disk_addr synch_addr s n Hq) as Hr.
  pose proof (WriteSector_ok DiskDone_addr DiskRequestDone_addr disk_addr synch_addr s n data Hq Hd) as Hw.
  rewrite decide_True in Hr, Hw by done. split; [exact Hr|]. destruct Hw as (s1 & E1 & Hq1 & Hs1 & Ho & Hm).
  pose proof (ReadSector_ok DiskDone_addr DiskRequestDone_addr disk_addr synch_addr s1 n Hq1) as Hr1.
  rewrite decide_True in Hr1 by done. destruct Hr1 as (s2 & E2 & Hq2 & _). rewrite Hs1 in E2. by exists s1, s2.
Qed.

(** Whatever the clock says and wherever the head is, a request takes at
    least one rotation of a sector and less than a seek over all tracks, one
    revolution and one sector: the delay given to [Schedule] is positive, so
    that its assertion holds, and it does not overflow. *)
Theorem disk_latency_bounds d totalTicks newSector writing :
  is_sector newSector → is_sector (lastSector d) →
  let ticks := ComputeLatency d totalTicks newSector writing in
  RotationTime ≤ ticks < NumTracks * SeekTime + (SectorsPerTrack + 1) * RotationTime ∧ is_s32 ticks ∧
  is_sector (lastSector (UpdateLast d totalTicks newSector)).
Proof.
  intros Hn Hl ticks. pose proof (latency_range d totalTicks newSector writing Hn Hl) as Hr. fold ticks in Hr. split_and!; [apply Hr|apply Hr| |].
  - unfold is_s32. unfold RotationTime, NumTracks, SeekTime, SectorsPerTrack in Hr. lia.
  - by rewrite (proj2 (proj2 (proj2 (UpdateLast_fields d totalTicks newSector)))).
Qed.

(** ** Witnesses: the synchronous disk, newly formatted *)

#[local] Instance real_ops : SectorOps (Interrupt.sim SynchDisk) := synch_ops 10 1 11 2.
#[local] Instance real_laws : SectorLaws (Interrupt.sim SynchDisk) := synch_laws 10 1 11 2.

Definition bytes_at (i : nat) : Z := 0.

Lemma new_disk_ok : disk_ok new_disk.
Proof. exact new_disk_quiet. Qed.

Lemma formatted : ∃ d fs, volume (D := Interrupt.sim SynchDisk) false d fs ∅ (NumSectors - 5).
Proof.
  destruct (format_ok false bytes_at zero_header zero_entry zero_words zero_header_room zero_entry_ok zero_words_ok new_disk new_disk_ok)
    as (fs & d & _ & Hv). by exists d, fs.
Qed.

(** One file, of two sectors and a bit. *)
Lemma one_file :
  ∃ (d : Interrupt.sim SynchDisk) fs bs, Z.of_nat (length bs) = 300 ∧ volume false d fs {[ [97; 98] := bs ]} 1015.
Proof.
  destruct formatted as (d & fs & Hv).
  destruct (Create_cases false bytes_at zero_header zero_entry zero_words zero_header_room zero_entry_ok zero_words_ok d fs ∅ (NumSectors - 5) [97; 98] 300 Hv)
    as ([] & d' & _ & Hr); [done| |].
  - destruct Hr as (_ & _ & bs & Hl & Hv'). exists d', fs, bs. split; [done|exact Hv'].
  - destruct Hr as [[Hr|Hr] _]; [by destruct Hr|]. destruct Hr. by split.
Qed.

Lemma create_adds_file_witness :
  ∃ (d : Interrupt.sim SynchDisk) fs, volume false d fs ∅ (NumSectors - 5) ∧
  ∃ r d', Create false bytes_at zero_header zero_entry zero_words d fs [97; 98] 300 = Ok (r, d').
Proof.
  destruct formatted as (d & fs & Hv). exists d, fs. split; [exact Hv|].
  destruct (create_adds_file false bytes_at zero_header zero_entry zero_words zero_header_room zero_entry_ok zero_words_ok
    d fs ∅ (NumSectors - 5) [97; 98] 300 Hv) as (r & d' & Er & _); [done|]. exists r, d'. exact Er.
Defined.

Lemma remove_deletes_file_witness :
  ∃ (d d' : Interrupt.sim SynchDisk) fs free, FileSystem_Remove false bytes_at zero_entry zero_words d fs [97; 98] = Ok (true, d') ∧
    volume false d' fs ∅ free.
Proof.
  destruct one_file as (d & fs & bs & _ & Hv).
  destruct (remove_deletes_file false bytes_at zero_entry zero_words zero_entry_ok zero_words_ok d fs _ 1015 [97; 98] Hv)
    as (r & d' & Er & Hr). change (key [97; 98]) with [97; 98] in Hr. rewrite lookup_singleton_eq in Hr. destruct Hr as [-> Hr].
  rewrite delete_singleton_eq in Hr. exists d, d', fs. eexists. split; [exact Er|exact Hr].
Defined.

Lemma open_reads_and_writes_witness :
  ∃ (d d1 d2 d3 : Interrupt.sim SynchDisk) fs f bs, Open false zero_entry d fs [97; 98] = Ok (Some f, d1) ∧
    WriteAt bytes_at d2 f [1; 2; 3] 3 127 = Ok (3, d3) ∧ volume false d3 fs {[ [97; 98] := bs ]} 1015 ∧ bs !! 128%nat = Some 2.
Proof.
  destruct one_file as (d & fs & bs & Hl & Hv).
  pose proof (open_reads_and_writes false bytes_at zero_entry zero_words zero_entry_ok d fs _ 1015 [97; 98] [1; 2; 3] 3 127 Hv) as Hr.
  change (key [97; 98]) with [97; 98] in Hr. rewrite lookup_singleton_eq in Hr. cbv zeta in Hr.
  replace (Z.max 0 (Z.min 3 (Z.of_nat (length bs) - 127))) with 3 in Hr by lia.
  destruct Hr as (f & d1 & d2 & d3 & d4 & E1 & _ & _ & _ & E3 & Hv3 & _); [done|done|done|].
  rewrite insert_singleton_eq in Hv3. exists d, d1, d2, d3, fs, f. eexists. split; [exact E1|]. split; [exact E3|]. split.
  - exact Hv3.
  - rewrite list_lookup_inserts by (simpl; lia). reflexivity.
Defined.

Lemma format_and_mount_witness :
  ∃ fs (d' : Interrupt.sim SynchDisk), FileSystem_new false bytes_at zero_header zero_entry zero_words new_disk true = Ok (fs, d').
Proof.
  destruct (format_and_mount false bytes_at zero_header zero_entry zero_words zero_header_room zero_entry_ok zero_words_ok new_disk new_disk_ok)
    as [(fs & d' & Er & _) _]. exists fs, d'. exact Er.
Defined.

Lemma create_overflows_header_witness :
  ∃ (d : Interrupt.sim SynchDisk) fs, Create false bytes_at zero_header zero_entry zero_words d fs [97] 3841 = Err OutOfBounds.
Proof.
  destruct formatted as (d & fs & Hv). exists d, fs.
  apply (create_overflows_header false bytes_at zero_header zero_entry zero_words zero_header_room zero_entry_ok zero_words_ok
    d fs ∅ (NumSectors - 5) [97] 3841 Hv); [done|done|]. by split.
Defined.

Lemma disk_requests_complete_witness :
  ∃ s', Disk.ReadSector 10 1 11 2 new_disk 7 = Ok (Disk.sector new_disk 7, s').
Proof.
  destruct (disk_requests_complete 10 1 11 2 new_disk 7 (replicate 128 0) new_disk_quiet ltac:(done) ltac:(done)) as [(s' & Er & _) _].
  exists s'. exact Er.
Defined.

Lemma disk_latency_bounds_witness : 500 ≤ ComputeLatency (mkDisk [] 0 0 false 40 0) 0 1000 false.
Proof.
  exact (proj1 (proj1 (disk_latency_bounds (mkDisk [] 0 0 false 40 0) 0 1000 false ltac:(done) ltac:(done)))).
Defined.

End FileTheorems.
