(* ===== verification/FsTest.v ===== *)
(** * Test routines of the file system: filesys/fstest.cc

    [Copy] copies a UNIX file into a Nachos file in small pieces, [Print] writes a
    Nachos file to the terminal, [PerformanceTest] writes, reads and removes a
    file.  What they print is returned.  They are clients of the file system: the
    theorems use what file FileTheorems shows of its operations. *)

From stdpp Require Import base list gmap.
From S2P Require Import Prelude Lists BitMap Machine Bytes Threads Managers Interrupt Disk.
Import Bytes Disk.
From S2P Require Import FileSys Files Volume FileTheorems.

Module FsTest.
Import InUse FileSys Files Volume FileTheorems.

Definition TransferSize : Z := 10.

(** What [Copy] says. *)
Inductive copy_says := CouldNotOpenInput | CouldNotCreateOutput | SaysNothing.

(** What [PerformanceTest] says, apart from the statistics. *)
Inductive perf_says :=
  | CanNotCreate | UnableToOpen | UnableToWrite       (* FileWrite *)
  | UnableToOpenFile | UnableToRead                   (* FileRead *)
  | UnableToRemove.

(** "TestFile" and "1234567890". *)
Definition FileName : list Z := [84; 101; 115; 116; 70; 105; 108; 101; 0].
Definition Contents : list Z := [49; 50; 51; 52; 53; 54; 55; 56; 57; 48].
Definition ContentSize : Z := Z.of_nat (length Contents).
Definition FileSize : Z := ContentSize * 5000.

Section fstest.
Context {D : Type} `{SectorOps D}.
Context (E : bool) (uninit : nat → Z) (stale_header : FileHeader) (stale_entry : nat → DirectoryEntry) (stale_words : list Z).

(** ** Copy and Print *)

(** [while ((amountRead = fread(buffer, 1, TransferSize, fp)) > 0) openFile->Write(buffer, amountRead);]
    [rest] is what has not been read of the UNIX file.  Every round but the last
    reads something, so that the length of the file bounds the rounds. *)
Fixpoint copy_loop (fuel : nat) (d : D) (openFile : OpenFile) (rest : list Z) : result D :=
  match fuel with
  | O => Err OutOfFuel
  | S fuel =>
    let buf := take (Z.to_nat TransferSize) rest in
    let amountRead := Z.of_nat (length buf) in
    if amountRead >? 0 then
      '(_, openFile, d) ← Write uninit d openFile buf amountRead;
      copy_loop fuel d openFile (drop (Z.to_nat TransferSize) rest)
    else Ok d
  end.

(** [Copy(from, to)]; [from] is the UNIX file, if it can be opened. *)
Definition Copy (d : D) (fs : FileSystem) (from : option (list Z)) (nm : list Z) : result (copy_says * D) :=
  match from with
  | None => Ok (CouldNotOpenInput, d)
  | Some file =>
    let fileLength := Z.of_nat (length file) in
    '(ok, d) ← Create E uninit stale_header stale_entry stale_words d fs nm fileLength;
    if negb ok then Ok (CouldNotCreateOutput, d)
    else
      '(openFile, d) ← Open E stale_entry d fs nm;
      match openFile with
      | None => Err AssertionFailed
      | Some openFile =>
        d ← copy_loop (S (length file)) d openFile file;
        Ok (SaysNothing, d)
      end
  end.

(** [while ((amountRead = openFile->Read(buffer, TransferSize)) > 0) ... printf("%c", buffer[i]);] *)
Fixpoint print_loop (fuel : nat) (d : D) (openFile : OpenFile) : result (list Z * D) :=
  match fuel with
  | O => Err OutOfFuel
  | S fuel =>
    '(buf, openFile, d) ← Read d openFile TransferSize;
    if Z.of_nat (length buf) >? 0 then
      '(out, d) ← print_loop fuel d openFile;
      Ok (buf ++ out, d)
    else Ok ([], d)
  end.

(** [Print(name)]: what it prints, and [None] if there is no such file. *)
Definition Print (d : D) (fs : FileSystem) (nm : list Z) : result (option (list Z) * D) :=
  '(openFile, d) ← Open E stale_entry d fs nm;
  match openFile with
  | None => Ok (None, d)
  | Some openFile =>
    '(out, d) ← print_loop (S (Z.to_nat (Length openFile))) d openFile;
    Ok (Some out, d)
  end.

(** ** PerformanceTest *)

(** The rounds of [for (i = 0; i < FileSize; i += ContentSize)] that are left. *)
Fixpoint write_loop (n : nat) (d : D) (openFile : OpenFile) : result (list perf_says * D) :=
  match n with
  | O => Ok ([], d)
  | S n =>
    '(numBytes, openFile, d) ← Write uninit d openFile Contents ContentSize;
    if numBytes <? 10 then Ok ([UnableToWrite], d) else write_loop n d openFile
  end.

Definition FileWrite (d : D) (fs : FileSystem) : result (list perf_says * D) :=
  '(ok, d) ← Create E uninit stale_header stale_entry stale_words d fs FileName 0;
  if negb ok then Ok ([CanNotCreate], d)
  else
    '(openFile, d) ← Open E stale_entry d fs FileName;
    match openFile with
    | None => Ok ([UnableToOpen], d)
    | Some openFile => write_loop (Z.to_nat (FileSize / ContentSize)) d openFile
    end.

Fixpoint read_loop (n : nat) (d : D) (openFile : OpenFile) : result (list perf_says * D) :=
  match n with
  | O => Ok ([], d)
  | S n =>
    '(buf, openFile, d) ← Read d openFile ContentSize;
    if (Z.of_nat (length buf) <? 10) || negb (strncmp_equal (Z.to_nat ContentSize) buf Contents)
    then Ok ([UnableToRead], d)
    else read_loop n d openFile
  end.

Definition FileRead (d : D) (fs : FileSystem) : result (list perf_says * D) :=
  '(openFile, d) ← Open E stale_entry d fs FileName;
  match openFile with
  | None => Ok ([UnableToOpenFile], d)
  | Some openFile => read_loop (Z.to_nat (FileSize / ContentSize)) d openFile
  end.

Definition PerformanceTest (d : D) (fs : FileSystem) : result (list perf_says * D) :=
  '(m1, d) ← FileWrite d fs;
  '(m2, d) ← FileRead d fs;
  '(ok, d) ← FileSystem_Remove E uninit stale_entry stale_words d fs FileName;
  Ok (m1 ++ m2 ++ (if (ok : bool) then [] else [UnableToRemove]), d).

End fstest.

(** ** Theorems *)

Section properties.
Context {D : Type} `{SectorLaws D}.
Context (E : bool) (uninit : nat → Z) (stale_header : FileHeader) (stale_entry : nat → DirectoryEntry) (stale_words : list Z).
Context (Hheader : header_room stale_header) (Hentry : ∀ i, entry_ok (stale_entry i)).
Context (Hwords : Forall is_u32 stale_words ∧ NumSectors / BitMap.BitsInWord ≤ Z.of_nat (length stale_words)).

(** [opened] does not look at the position. *)
Lemma opened_seek d fs k h p p' : opened E d fs k (mkOpen h p) → opened E d fs k (mkOpen h p').
Proof. done. Qed.

Lemma opened_kept d d' fs F free k f : volume E d fs F free → opened E d fs k f → same d d' → opened E d' fs k f.
Proof. intros (t & bm & Hfs & _) Ho Hs. by eapply opened_same. Qed.

(** The rest of the UNIX file goes behind what was written before. *)
Lemma copy_loop_copies fuel : ∀ d fs F free k h p bs rest,
  volume E d fs F free → opened E d fs k (mkOpen h p) → F !! k = Some bs → 0 ≤ p →
  p + Z.of_nat (length rest) = Z.of_nat (length bs) → Z.of_nat (length bs) < 2 ^ 31 - TransferSize → (length rest < fuel)%nat →
  ∃ d', copy_loop uninit fuel d (mkOpen h p) rest = Ok d' ∧ volume E d' fs (<[k := take (Z.to_nat p) bs ++ rest]> F) free.
Proof.
  induction fuel as [|fuel IH]; intros d fs F free k h p bs rest Hv Ho Hk Hp Hl Hmax Hf; [lia|].
  unfold TransferSize in Hmax. cbn [copy_loop]. change (Z.to_nat TransferSize) with 10%nat. rewrite length_take.
  destruct (Z.gtb_spec (Z.of_nat (10 `min` length rest)) 0) as [Hgt|Hle].
  - set (n := Z.of_nat (10 `min` length rest)) in *. unfold Write. cbn [seekPosition].
    destruct (opened_write E uninit stale_words d fs F free k (mkOpen h p) (take 10 rest) n p bs Hv Ho Hk Hp ltac:(lia))
      as (d1 & -> & Hv1 & Ho1); [rewrite length_take; lia|]. cbn [mbind result_bind hdr].
    replace (Z.max 0 (Z.min n (Z.of_nat (length bs) - p))) with n in * by lia. rewrite s32_id by (unfold is_s32; lia).
    assert (take (Z.to_nat n) (take 10 rest) = take 10 rest) as Htk by (apply take_ge; rewrite length_take; lia).
    rewrite Htk in Hv1. rewrite inserts_split in Hv1 by (rewrite length_take; lia).
    destruct (IH d1 fs _ free k h (p + n) _ (drop 10 rest) Hv1 (opened_seek _ _ _ _ p _ (Ho1 _ _ Ho)) (lookup_insert_eq _ _ _)) as (d2 & -> & Hv2).
    { lia. }
    { unfold TransferSize. rewrite !length_app, !length_take, !length_drop. lia. }
    { unfold TransferSize. rewrite !length_app, !length_take, !length_drop. lia. }
    { rewrite length_drop. lia. }
    exists d2. split; [done|]. rewrite insert_insert_eq in Hv2.
    assert (take (Z.to_nat (p + n)) (take (Z.to_nat p) bs ++ take 10 rest ++ drop (Z.to_nat p + length (take 10 rest)) bs) ++ drop 10 rest
            = take (Z.to_nat p) bs ++ rest) as <-; [|done].
    rewrite (assoc_L (++)), take_app_length' by (rewrite length_app, !length_take; lia).
    by rewrite <- (assoc_L (++)), take_drop.
  - assert (rest = []) as -> by (destruct rest; [done|simpl in *; lia]). exists d. split; [done|]. simpl in Hl.
    rewrite app_nil_r, take_ge by lia. by rewrite insert_id.
Qed.

(** The rest of the Nachos file is printed. *)
Lemma print_loop_ok fuel : ∀ d fs F free k h p bs,
  volume E d fs F free → opened E d fs k (mkOpen h p) → F !! k = Some bs → 0 ≤ p ≤ Z.of_nat (length bs) →
  Z.of_nat (length bs) < 2 ^ 31 - TransferSize → (length bs - Z.to_nat p < fuel)%nat →
  ∃ d', print_loop fuel d (mkOpen h p) = Ok (drop (Z.to_nat p) bs, d') ∧ same d d'.
Proof.
  induction fuel as [|fuel IH]; intros d fs F free k h p bs Hv Ho Hk Hp Hmax Hf; [lia|].
  unfold TransferSize in Hmax. cbn [print_loop]. unfold Read. cbn [seekPosition].
  destruct (opened_read E stale_words d fs F free k (mkOpen h p) TransferSize p bs Hv Ho Hk ltac:(lia) ltac:(unfold TransferSize; lia))
    as (d1 & -> & Hs1). cbn [mbind result_bind hdr]. unfold slice. change (Z.to_nat TransferSize) with 10%nat.
  rewrite length_take, length_drop. destruct (Z.gtb_spec (Z.of_nat (10 `min` (length bs - Z.to_nat p))) 0) as [Hgt|Hle].
  - set (n := Z.of_nat (10 `min` (length bs - Z.to_nat p))) in *. rewrite s32_id by (unfold is_s32; lia).
    destruct (IH d1 fs F free k h (p + n) bs) as (d2 & -> & Hs2); try done; try lia.
    { by eapply volume_same. }
    { eapply opened_seek. by eapply opened_kept. }
    cbn [mbind result_bind]. exists d2. split; [|by eapply same_trans]. do 2 f_equal.
    replace (Z.to_nat (p + n)) with (Z.to_nat p + 10 `min` (length bs - Z.to_nat p))%nat by lia. rewrite <- drop_drop.
    rewrite <- (take_drop 10 (drop (Z.to_nat p) bs)) at 3. f_equal.
    destruct (decide (10 ≤ length bs - Z.to_nat p)%nat); [by rewrite Nat.min_l by lia|].
    rewrite Nat.min_r by lia. rewrite !drop_ge; rewrite ?length_drop; lia || done.
  - exists d1. rewrite drop_ge by lia. done.
Qed.

Lemma Print_cases d fs F free nm :
  volume E d fs F free →
  ∃ d', Print E stale_entry d fs nm = Ok (F !! key nm, d') ∧ same d d'.
Proof.
  intros Hv. unfold Print. destruct (Open_cases E stale_entry stale_words Hentry d fs F free nm Hv) as (r & d1 & -> & Hs1 & Hr).
  cbn [mbind result_bind]. pose proof (volume_same E _ _ _ _ _ Hv Hs1) as Hv1.
  destruct (F !! key nm) as [bs|] eqn:Hk, r as [f|]; try done; [|by exists d1]. destruct Hr as [Ho Hz].
  destruct f as [h p]. simpl in Hz. subst p.
  assert (length bs = Z.to_nat (Length (mkOpen h 0)) ∧ Z.of_nat (length bs) ≤ MaxFileSize) as [Hlen Hmax].
  { destruct (opened_file E stale_words _ _ _ _ _ _ Hv1 Ho) as (t & bm & s & _ & _ & _ & _ & _ & Hh & Hok & Hc).
    rewrite Hk in Hc. injection Hc as ->. unfold Length, FileLength. pose proof (file_length d1 _ Hok Hh). pose proof (ho_bytes _ Hh). cbn [hdr] in *. lia. }
  change MaxFileSize with 3840 in Hmax. rewrite <- Hlen.
  destruct (print_loop_ok (S (length bs)) d1 fs F free (key nm) h 0 bs Hv1 Ho Hk ltac:(lia) ltac:(unfold TransferSize; lia) ltac:(lia)) as (d2 & -> & Hs2).
  cbn [mbind result_bind]. exists d2. split; [done|by eapply same_trans].
Qed.

Lemma Copy_cases d fs F free nm file :
  volume E d fs F free → Z.of_nat (length file) ≤ MaxFileSize →
  ∃ r d', Copy E uninit stale_header stale_entry stale_words d fs (Some file) nm = Ok (r, d') ∧
  match r with
  | SaysNothing => F !! key nm = None ∧ room F free (Z.of_nat (length file)) ∧
      volume E d' fs (<[key nm := file]> F) (free - (1 + divRoundUp (Z.of_nat (length file)) SectorSize))
  | CouldNotCreateOutput => (is_Some (F !! key nm) ∨ ¬ room F free (Z.of_nat (length file))) ∧ volume E d' fs F free
  | CouldNotOpenInput => False
  end.
Proof.
  intros Hv Hmax. unfold Copy.
  destruct (Create_cases E uninit stale_header stale_entry stale_words Hheader Hentry Hwords d fs F free nm (Z.of_nat (length file)) Hv ltac:(lia))
    as (r & d1 & -> & Hr). cbn [mbind result_bind]. destruct r; cbn [negb].
  - destruct Hr as (Hnone & Hroom & bs & Hbs & Hv1).
    destruct (Open_cases E stale_entry stale_words Hentry d1 fs _ _ nm Hv1) as (r & d2 & -> & Hs2 & Hr). rewrite lookup_insert_eq in Hr.
    destruct r as [[h p]|]; [|done]. cbn [mbind result_bind]. destruct Hr as [Ho Hz]. simpl in Hz. subst p.
    pose proof (volume_same E _ _ _ _ _ Hv1 Hs2) as Hv2. change MaxFileSize with 3840 in Hmax.
    destruct (copy_loop_copies (S (length file)) d2 fs _ _ (key nm) h 0 bs file Hv2 Ho (lookup_insert_eq _ _ _) ltac:(lia) ltac:(lia))
      as (d3 & -> & Hv3); [unfold TransferSize; lia|lia|]. cbn [mbind result_bind]. rewrite insert_insert_eq in Hv3. by exists SaysNothing, d3.
  - destruct Hr as [Hwhy Hs]. exists CouldNotCreateOutput, d1. split_and!; [done|done|by eapply volume_same].
Qed.

(** C17: copy makes a file with the bytes of the UNIX file, however long the name is
    and whatever else is on the disk, exactly if the name is free and there is
    room; otherwise it leaves all files alone.  Print then prints these bytes, or
    those that the file had before. *)
Theorem copy_then_print d fs F free nm file :
  volume E d fs F free → Z.of_nat (length file) ≤ MaxFileSize →
  let done := F !! key nm = None ∧ room F free (Z.of_nat (length file)) in
  ∃ r d1 d2, Copy E uninit stale_header stale_entry stale_words d fs (Some file) nm = Ok (r, d1) ∧
  Print E stale_entry d1 fs nm = Ok (if r is SaysNothing then Some file else F !! key nm, d2) ∧
  ((r = SaysNothing ∧ done ∧ volume E d2 fs (<[key nm := file]> F) (free - (1 + divRoundUp (Z.of_nat (length file)) SectorSize))) ∨
   (r = CouldNotCreateOutput ∧ ¬ done ∧ volume E d2 fs F free)).
Proof.
  intros Hv Hmax. destruct (Copy_cases d fs F free nm file Hv Hmax) as (r & d1 & Er & Hr). exists r, d1.
  destruct r; [done| |].
  - destruct Hr as [Hwhy Hv1]. destruct (Print_cases d1 fs F free nm Hv1) as (d2 & Ep & Hs). exists d2. split_and!; [done|done|].
    right. split_and!; [done| |by eapply volume_same]. intros [Hn Hroom]. destruct Hwhy as [[? ?]|]; [congruence|done].
  - destruct Hr as (Hn & Hroom & Hv1). destruct (Print_cases d1 fs _ _ nm Hv1) as (d2 & Ep & Hs). rewrite lookup_insert_eq in Ep.
    exists d2. split_and!; [done|done|]. left. split_and!; [done|done|done|by eapply volume_same].
Qed.

(** Nothing can be written to an empty file, and nothing read from it. *)
Lemma write_loop_empty n d fs F free k h :
  volume E d fs F free → opened E d fs k (mkOpen h 0) → F !! k = Some [] →
  ∃ d', write_loop uninit (S n) d (mkOpen h 0) = Ok ([UnableToWrite], d') ∧ volume E d' fs F free.
Proof.
  intros Hv Ho Hk. cbn [write_loop]. unfold Write. cbn [seekPosition].
  destruct (opened_write E uninit stale_words d fs F free k (mkOpen h 0) Contents ContentSize 0 [] Hv Ho Hk ltac:(done) ltac:(done))
    as (d1 & Ew & Hv1 & _); [done|]. rewrite Ew. exists d1. split; [done|].
  change (list_inserts _ _ []) with (@nil Z) in Hv1. by rewrite insert_id in Hv1.
Qed.

Lemma read_loop_empty n d fs F free k h :
  volume E d fs F free → opened E d fs k (mkOpen h 0) → F !! k = Some [] →
  ∃ d', read_loop (S n) d (mkOpen h 0) = Ok ([UnableToRead], d') ∧ same d d'.
Proof.
  intros Hv Ho Hk. cbn [read_loop]. unfold Read. cbn [seekPosition].
  destruct (opened_read E stale_words d fs F free k (mkOpen h 0) ContentSize 0 [] Hv Ho Hk ltac:(done) ltac:(done)) as (d1 & -> & Hs).
  by exists d1.
Qed.

Lemma rounds : ∃ n, Z.to_nat (FileSize / ContentSize) = S n.
Proof. exists (pred (Z.to_nat (FileSize / ContentSize))). reflexivity. Qed.

Lemma Open_empty d fs F free nm :
  volume E d fs F free → F !! key nm = Some [] →
  ∃ d' h, Open E stale_entry d fs nm = Ok (Some (mkOpen h 0), d') ∧ opened E d' fs (key nm) (mkOpen h 0) ∧ volume E d' fs F free.
Proof.
  intros Hv Hk. destruct (Open_cases E stale_entry stale_words Hentry d fs F free nm Hv) as (r & d' & -> & Hs & Hr). rewrite Hk in Hr.
  destruct r as [[h p]|]; [|done]. destruct Hr as [Ho Hz]. simpl in Hz. subst p. exists d', h. split_and!; [done|done|by eapply volume_same].
Qed.

(** PerformanceTest makes a file of size zero, which cannot grow, so that the
    first write and the first read transfer nothing: it says so, and leaves the
    disk as it was. *)
Theorem performance_test_fails d fs F free :
  volume E d fs F free → F !! key FileName = None → room F free 0 →
  ∃ d', PerformanceTest E uninit stale_header stale_entry stale_words d fs = Ok ([UnableToWrite; UnableToRead], d') ∧ volume E d' fs F free.
Proof.
  intros Hv Hnone Hroom. unfold PerformanceTest, FileWrite, FileRead. destruct rounds as [n ->]. revert Hnone. generalize FileName. intros nm Hnone.
  destruct (Create_cases E uninit stale_header stale_entry stale_words Hheader Hentry Hwords d fs F free nm 0 Hv ltac:(done))
    as (r & d1 & -> & Hr). destruct r; [|destruct Hr as [[[? ?]|?] _]; [congruence|done]]. cbn [mbind result_bind negb].
  destruct Hr as (_ & _ & bs & Hbs & Hv1). assert (bs = []) as -> by (by destruct bs).
  destruct (Open_empty d1 fs _ _ nm Hv1 (lookup_insert_eq _ _ _)) as (d2 & h & -> & Ho2 & Hv2). cbn [mbind result_bind].
  destruct (write_loop_empty n d2 fs _ _ _ h Hv2 Ho2 (lookup_insert_eq _ _ _)) as (d3 & -> & Hv3). cbn [mbind result_bind].
  destruct (Open_empty d3 fs _ _ nm Hv3 (lookup_insert_eq _ _ _)) as (d4 & h' & -> & Ho4 & Hv4). cbn [mbind result_bind].
  destruct (read_loop_empty n d4 fs _ _ _ h' Hv4 Ho4 (lookup_insert_eq _ _ _)) as (d5 & -> & Hs5). cbn [mbind result_bind].
  pose proof (volume_same E _ _ _ _ _ Hv4 Hs5) as Hv5.
  pose proof (Remove_cases E uninit stale_entry stale_words Hentry Hwords d5 fs _ _ nm Hv5) as Hr. rewrite lookup_insert_eq in Hr.
  destruct Hr as (d6 & -> & Hv6). exists d6. split; [done|]. rewrite delete_insert_id in Hv6 by done.
  change (Z.of_nat (length [])) with 0 in Hv6. by rewrite Z.sub_add in Hv6.
Qed.

End properties.

(** *** Witnesses: on the synchronous disk, newly formatted *)

#[local] Instance test_ops : SectorOps (Interrupt.sim SynchDisk) := synch_ops 10 1 11 2.
#[local] Instance test_laws : SectorLaws (Interrupt.sim SynchDisk) := synch_laws 10 1 11 2.

(** A file of twelve bytes, in two pieces. *)
Lemma copy_then_print_witness :
  ∃ (d d1 d2 : Interrupt.sim SynchDisk) fs r, Copy false bytes_at zero_header zero_entry zero_words d fs (Some [1; 2; 3; 4; 5; 6; 7; 8; 9; 10; 11; 12]) [97; 98] = Ok (r, d1) ∧
    Print false zero_entry d1 fs [97; 98] = Ok (Some [1; 2; 3; 4; 5; 6; 7; 8; 9; 10; 11; 12], d2).
Proof.
  destruct formatted as (d & fs & Hv).
  destruct (copy_then_print false bytes_at zero_header zero_entry zero_words zero_header_room zero_entry_ok zero_words_ok
    d fs ∅ (NumSectors - 5) [97; 98] [1; 2; 3; 4; 5; 6; 7; 8; 9; 10; 11; 12] Hv ltac:(done)) as (r & d1 & d2 & E1 & E2 & [(-> & _)|(_ & Hno & _)]).
  - exists d, d1, d2, fs, SaysNothing. split; [exact E1|exact E2].
  - destruct Hno. split; [done|]. by split.
Defined.

Lemma performance_test_fails_witness :
  ∃ (d d' : Interrupt.sim SynchDisk) fs, PerformanceTest false bytes_at zero_header zero_entry zero_words d fs = Ok ([UnableToWrite; UnableToRead], d').
Proof.
  destruct formatted as (d & fs & Hv).
  destruct (performance_test_fails false bytes_at zero_header zero_entry zero_words zero_header_room zero_entry_ok zero_words_ok
    d fs ∅ (NumSectors - 5) Hv) as (d' & E & _); [done|by split|]. exists d, d', fs. exact E.
Defined.

End FsTest.
