(* ===== verification/SynchList.v ===== *)
(** * Synchronised lists: threads/synchlist.h, threads/synchlist.cc

    A list of items under a lock, with a condition variable for the threads that
    wait in [Remove].  A thread is the place in [Append], [Remove] or [Mapcar]
    where it stands; a step takes one thread over one operation of the lock or of
    the condition variable, or over the statements between two of them.  What the
    lock and the condition variable do is what file Threads proves of them:
    [Acquire] waits for the lock to be free, [Wait] gives the lock back and puts
    the thread in the queue of the condition in one go, [Signal] takes the first
    thread off this queue, and a thread that was taken off acquires the lock
    again.  Lists are sequences, by file Lists.

    This is what they do when THREADS is defined; the routines are modelled for
    the other builds as well, in which they do nothing and [Wait] stops on its
    assertion.  The items are pointers, so that one of them may be null; what the
    function of [Mapcar] does to the things they point to is not modelled. *)

From stdpp Require Import base list sorting.
From S2P Require Import Prelude.

Module SynchList.

(** Is a pointer null? *)
Class Nullable (A : Type) := is_null : A → bool.

Section synchlist.
Context {A : Type} {pointers : Nullable A} {build : SynchBuild}.

(** ** The list and the threads that use it *)

(** [class SynchList]; the lock is the thread that holds it, [listEmpty] the
    queue of the condition.  Threads are numbers. *)
Record SynchList := mkSynchList {
  list_ : list A;
  lock : option nat;
  listEmpty : list nat;
}.

Definition SynchList_new : SynchList := mkSynchList [] None [].

Definition set_list (l : SynchList) (x : list A) : SynchList := mkSynchList x (lock l) (listEmpty l).
Definition set_lock (l : SynchList) (x : option nat) : SynchList := mkSynchList (list_ l) x (listEmpty l).
Definition set_listEmpty (l : SynchList) (x : list nat) : SynchList := mkSynchList (list_ l) (lock l) x.

(** Where a thread stands, and [Idle] if it is in none of the three routines. *)
Inductive place :=
  | Idle
  | AAcquire (item : A)     (* Append: lock->Acquire() *)
  | AInsert (item : A)      (* has the lock: list->Append(item) *)
  | ASignal                 (* has the lock: listEmpty->Signal(lock) *)
  | ARelease                (* has the lock: lock->Release() *)
  | RAcquire                (* Remove: lock->Acquire() *)
  | RTest                   (* has the lock: list->IsEmpty() *)
  | RWait                   (* has the lock: listEmpty->Wait(lock) *)
  | RWaiting                (* in Wait; then lock->Acquire() at its end *)
  | RTake                   (* has the lock: list->Remove(); ASSERT(item != NULL) *)
  | RRelease (item : A)     (* has the lock: lock->Release() *)
  | RDone (item : A)        (* returned item *)
  | MAcquire (func : Z)     (* Mapcar: lock->Acquire() *)
  | MMap (func : Z)         (* has the lock: list->Mapcar(func) *)
  | MRelease.               (* has the lock: lock->Release() *)

(** ** The lock and the condition; [None] is waiting *)

Definition Acquire (l : SynchList) (t : nat) : option SynchList :=
  if THREADS_defined then match lock l with None => Some (set_lock l (Some t)) | Some _ => None end else Some l.
Definition Release (l : SynchList) : SynchList := if THREADS_defined then set_lock l None else l.
Definition Wait (l : SynchList) (t : nat) : result SynchList :=
  if THREADS_defined then Ok (set_listEmpty (Release l) (listEmpty l ++ [t])) else Err AssertionFailed.
Definition Signal (l : SynchList) : SynchList :=
  if THREADS_defined then set_listEmpty l (tail (listEmpty l)) else l.

(** [list->Remove()]: null, here [None], for an empty list. *)
Definition list_Remove (l : SynchList) : option A * SynchList :=
  match list_ l with [] => (None, l) | x :: r => (Some x, set_list l r) end.

(** ** The three routines *)

Definition Append (l : SynchList) (t : nat) (p : place) : option (result (SynchList * place)) :=
  match p with
  | AAcquire item => l ← Acquire l t; Some (Ok (l, AInsert item))
  | AInsert item => Some (Ok (set_list l (list_ l ++ [item]), ASignal))
  | ASignal => Some (Ok (Signal l, ARelease))
  | ARelease => Some (Ok (Release l, Idle))
  | _ => None
  end.

Definition Remove (l : SynchList) (t : nat) (p : place) : option (result (SynchList * place)) :=
  match p with
  | RAcquire => l ← Acquire l t; Some (Ok (l, RTest))
  | RTest => Some (Ok (l, if list_ l is [] then RWait else RTake))
  | RWait => Some (l ← Wait l t; Ok (l, RWaiting))
  | RWaiting => if decide (t ∈ listEmpty l) then None else l ← Acquire l t; Some (Ok (l, RTest))
  | RTake =>
    match list_Remove l with
    | (None, _) => Some (Err AssertionFailed)
    | (Some item, l) => Some (_ ← ASSERT (negb (is_null item)); Ok (l, RRelease item))
    end
  | RRelease item => Some (Ok (Release l, RDone item))
  | _ => None
  end.

Definition Mapcar (l : SynchList) (t : nat) (p : place) : option (result (SynchList * place)) :=
  match p with
  | MAcquire func => l ← Acquire l t; Some (Ok (l, MMap func))
  | MMap func => Some (Ok (l, MRelease))
  | MRelease => Some (Ok (Release l, Idle))
  | _ => None
  end.

(** One step of the thread [t], which stands at [p]. *)
Definition step (l : SynchList) (t : nat) (p : place) : option (result (SynchList * place)) :=
  match p with
  | Idle | RDone _ => None
  | AAcquire _ | AInsert _ | ASignal | ARelease => Append l t p
  | MAcquire _ | MMap _ | MRelease => Mapcar l t p
  | _ => Remove l t p
  end.

(** Without THREADS, a thread that calls [Remove] when the list is empty stops
    the machine: it takes the lock, finds the list empty, and [Wait] is
    [ASSERT(FALSE)]. *)
Lemma remove_stops_without_threads l t :
  THREADS_defined = false → list_ l = [] →
  step l t RAcquire = Some (Ok (l, RTest)) ∧ step l t RTest = Some (Ok (l, RWait)) ∧
  step l t RWait = Some (Err AssertionFailed).
Proof.
  intros Hb He. unfold step, Remove, Acquire, Wait. by rewrite Hb, He.
Qed.

(** ** The invariant *)

Definition holds (p : place) : bool :=
  match p with
  | AInsert _ | ASignal | ARelease | RTest | RWait | RTake | RRelease _ | MMap _ | MRelease => true
  | _ => false
  end.

(** In [Wait], or on the way to an item, or about to wake a thread up. *)
Definition coming (p : place) : bool :=
  match p with RWaiting | RTest | RTake | ASignal => true | _ => false end.

Definition waits (p : place) : bool := match p with RWaiting => true | _ => false end.

(** [threads] is where the threads stand; the last clause says that whenever a
    thread waits, there are enough others under way for the items. *)
Record Inv (l : SynchList) (threads : list place) : Prop := mkInv {
  v_lock t : lock l = Some t ↔ ∃ p, threads !! t = Some p ∧ holds p = true;
  v_nodup : NoDup (listEmpty l);
  v_waiting t : t ∈ listEmpty l → threads !! t = Some RWaiting;
  v_take t : threads !! t = Some RTake → list_ l ≠ [];
  v_wait t : threads !! t = Some RWait → list_ l = [];
  v_enough : listEmpty l ≠ [] → (length (list_ l) + length (listEmpty l) ≤ number coming threads)%nat;
}.

Lemma Inv_new threads : Forall (λ p, holds p = false ∧ waits p = false) threads → Inv SynchList_new threads.
Proof.
  intros H. rewrite Forall_lookup in H.
  split; simpl; try done.
  - intros t. split; [done|]. intros (p & Hp & Hh). destruct (H _ _ Hp). congruence.
  - constructor.
  - intros t Ht. by apply not_elem_of_nil in Ht.
  - intros t Ht. by destruct (H _ _ Ht).
Qed.

(** A thread that is neither between [Acquire] and [Release] nor in [Wait]. *)
Definition outside (p : place) : bool := negb (holds p) && negb (waits p).

(** Such a thread may go to another such place by itself. *)
Lemma Inv_outside l (threads : list place) t p p' :
  Inv l threads → threads !! t = Some p → outside p = true → outside p' = true → Inv l (<[t := p']> threads).
Proof.
  intros [V1 V2 V3 V4 V5 V6] Hp Ho Ho'. assert (t < length threads)%nat by (by eapply lookup_lt_Some).
  assert (holds p = false ∧ coming p = false ∧ p ≠ RWaiting) as (H1 & H3 & H7) by (by destruct p).
  assert (holds p' = false ∧ coming p' = false ∧ p' ≠ RTake ∧ p' ≠ RWait) as (H2 & H4 & H5 & H6) by (by destruct p').
  split; try done.
  - intros u. rewrite V1. destruct (decide (u = t)) as [->|Hne].
    + rewrite list_lookup_insert_eq by done. rewrite Hp. split; intros (x & [= <-] & Hx); congruence.
    + by rewrite list_lookup_insert_ne by done.
  - intros u Hu. rewrite list_lookup_insert_ne; [auto|]. intros ->. apply H7. specialize (V3 u Hu). congruence.
  - intros u [[-> E]|[_ Hu]]%lookup_insert_cases; [congruence|eauto].
  - intros u [[-> E]|[_ Hu]]%lookup_insert_cases; [congruence|eauto].
  - intros Hne. pose proof (number_insert coming threads t p p' Hp) as Hn. rewrite H3, H4 in Hn. specialize (V6 Hne). lia.
Qed.

(** ** The steps, one by one, in a build with THREADS *)

Section real_locks.
Context {locks : RealLocks}.

Lemma Acquire_eq l t : Acquire l t = match lock l with None => Some (set_lock l (Some t)) | Some _ => None end.
Proof. unfold Acquire. by rewrite with_THREADS. Qed.
Lemma Release_eq l : Release l = set_lock l None.
Proof. unfold Release. by rewrite with_THREADS. Qed.
Lemma Wait_eq l t : Wait l t = Ok (set_listEmpty (set_lock l None) (listEmpty l ++ [t])).
Proof. unfold Wait. by rewrite with_THREADS, Release_eq. Qed.
Lemma Signal_eq l : Signal l = set_listEmpty l (tail (listEmpty l)).
Proof. unfold Signal. by rewrite with_THREADS. Qed.

Inductive steps (l : SynchList) (t : nat) : place → SynchList → place → Prop :=
  | s_acquire p p' : lock l = None →
      (∃ item, p = AAcquire item ∧ p' = AInsert item) ∨ (p = RAcquire ∧ p' = RTest) ∨
      (p = RWaiting ∧ (t ∉ listEmpty l) ∧ p' = RTest) ∨ (∃ func, p = MAcquire func ∧ p' = MMap func) →
      steps l t p (set_lock l (Some t)) p'
  | s_release p p' : (p = ARelease ∧ p' = Idle) ∨ (∃ item, p = RRelease item ∧ p' = RDone item) ∨ (p = MRelease ∧ p' = Idle) →
      steps l t p (set_lock l None) p'
  | s_insert item : steps l t (AInsert item) (set_list l (list_ l ++ [item])) ASignal
  | s_signal : steps l t ASignal (set_listEmpty l (tail (listEmpty l))) ARelease
  | s_empty : list_ l = [] → steps l t RTest l RWait
  | s_item : list_ l ≠ [] → steps l t RTest l RTake
  | s_wait : steps l t RWait (set_listEmpty (set_lock l None) (listEmpty l ++ [t])) RWaiting
  | s_take item rest : list_ l = item :: rest → is_null item = false → steps l t RTake (set_list l rest) (RRelease item)
  | s_map func : steps l t (MMap func) l MRelease.

Lemma step_inv l t p l' p' : step l t p = Some (Ok (l', p')) → steps l t p l' p'.
Proof.
  unfold step, Append, Remove, Mapcar. rewrite ?Acquire_eq, ?Release_eq, ?Wait_eq, ?Signal_eq. unfold list_Remove. intros Hs.
  destruct p; try discriminate Hs; try case_decide; try discriminate Hs.
  all: try (destruct (lock l) eqn:El; [discriminate Hs|]; injection Hs as <- <-; apply s_acquire; by eauto 8).
  all: try (injection Hs as <- <-; apply s_release; by eauto). all: try (injection Hs as <- <-; by constructor).
  - destruct (list_ l) eqn:E; injection Hs as <- <-; constructor; congruence.
  - destruct (list_ l) as [|x r] eqn:E; [discriminate Hs|]. destruct (is_null x) eqn:Ex; [discriminate Hs|].
    injection Hs as <- <-. by constructor.
Qed.

(** A step fails only in the assertion of [Remove]. *)
Lemma step_fails l t p e :
  step l t p = Some (Err e) ↔ e = AssertionFailed ∧ p = RTake ∧ ∀ item, head (list_ l) = Some item → is_null item = true.
Proof.
  unfold step, Append, Remove, Mapcar. rewrite ?Acquire_eq, ?Wait_eq. unfold list_Remove. split.
  - intros Hs. destruct p; try discriminate Hs; try case_decide; try discriminate Hs; try (destruct (lock l); discriminate Hs).
    destruct (list_ l) as [|x r]; [by injection Hs as <-|]. simpl in *. destruct (is_null x) eqn:Ex; [|discriminate Hs].
    injection Hs as <-. split_and!; [done|done|]. by intros ? [= <-].
  - intros (-> & -> & Hn). destruct (list_ l) as [|x r]; [done|]. by rewrite (Hn x eq_refl).
Qed.

Lemma steps_lock l t p l' p' : steps l t p l' p' →
  (lock l' = lock l ∧ holds p' = holds p ∧ (holds p = false → list_ l' = list_ l ∧ listEmpty l' = listEmpty l)) ∨
  (lock l = None ∧ lock l' = Some t ∧ holds p' = true ∧ holds p = false ∧ list_ l' = list_ l ∧ listEmpty l' = listEmpty l) ∨
  (lock l' = None ∧ holds p = true ∧ holds p' = false).
Proof. destruct 1; naive_solver. Qed.

(** The lock goes with the thread that holds it. *)
Lemma lock_moves l l' (threads : list place) t p p' :
  (∀ u, lock l = Some u ↔ ∃ p, threads !! u = Some p ∧ holds p = true) → threads !! t = Some p → steps l t p l' p' →
  ∀ u, lock l' = Some u ↔ ∃ x, <[t := p']> threads !! u = Some x ∧ holds x = true.
Proof.
  intros V Hp H%steps_lock u. assert (t < length threads)%nat by (by eapply lookup_lt_Some).
  assert (holds p = true → lock l = Some t) as Hown by (intros; apply V; eauto).
  destruct (decide (u = t)) as [->|Hne].
  - rewrite list_lookup_insert_eq by done. destruct H as [(E1 & E2 & _)|[(E1 & E2 & E3 & _)|(E1 & E2 & E3)]].
    + rewrite E1, V, Hp. split; intros (x & [= <-] & Hx); eexists; (split; [done|congruence]).
    + rewrite E2. split; [by eauto|done].
    + rewrite E1. split; [done|]. intros (x & [= <-] & Hx). congruence.
  - rewrite list_lookup_insert_ne by done. rewrite <- V. destruct H as [(E1 & _)|[(E1 & E2 & _)|(E1 & E2 & E3)]].
    + by rewrite E1.
    + rewrite E1, E2. split; [intros [= ->]; done|done].
    + rewrite E1, (Hown E2). split; [done|intros [= ->]; done].
Qed.

(** Another thread that holds the lock finds the list as it left it. *)
Lemma steps_other l (threads : list place) t p l' p' u q :
  Inv l threads → threads !! t = Some p → steps l t p l' p' → u ≠ t → threads !! u = Some q → holds q = true → list_ l' = list_ l.
Proof.
  intros [V1 _ _ _ _ _] Hp H%steps_lock Hne Hq Hh. assert (lock l = Some u) as El by (apply V1; eauto).
  assert (holds p = false) as Hn.
  { destruct (holds p) eqn:E; [|done]. assert (lock l = Some t) by (apply V1; eauto). congruence. }
  destruct H as [(_ & _ & H)|[(_ & _ & _ & _ & H & _)|(_ & H & _)]]; [by apply H|done|congruence].
Qed.

Lemma steps_waiting l (threads : list place) t p l' p' :
  Inv l threads → threads !! t = Some p → steps l t p l' p' →
  NoDup (listEmpty l') ∧ ∀ u, u ∈ listEmpty l' → <[t := p']> threads !! u = Some RWaiting.
Proof.
  intros [_ V2 V3 _ _ _] Hp H. assert (t < length threads)%nat by (by eapply lookup_lt_Some).
  assert (p ≠ RWaiting → t ∉ listEmpty l) as Hw by (intros Hne Hin; apply V3 in Hin; congruence).
  assert (∀ u, t ∉ listEmpty l → u ∈ listEmpty l → <[t := p']> threads !! u = Some RWaiting) as Hkeep.
  { intros u Ht Hu. rewrite list_lookup_insert_ne by (by intros ->). auto. }
  assert (p ≠ RWaiting ∨ t ∉ listEmpty l) as Ht by (inversion H; naive_solver).
  assert (t ∉ listEmpty l) as Hn by naive_solver.
  inversion H; subst; simpl; split; auto.
  - destruct (listEmpty l); [done|]. by apply NoDup_cons in V2 as [_ ?].
  - intros u Hu. apply Hkeep; [done|]. destruct (listEmpty l); [done|by right].
  - apply NoDup_app. split_and!; [done| |apply NoDup_singleton]. intros x Hx ->%list_elem_of_singleton. done.
  - intros u [Hu| ->%list_elem_of_singleton]%elem_of_app; [auto|]. by apply list_lookup_insert_eq.
Qed.

(** The threads of the queue are among those that wait. *)
Lemma number_waits (w : list nat) (threads : list place) :
  NoDup w → (∀ u, u ∈ w → threads !! u = Some RWaiting) → (length w ≤ number waits threads)%nat.
Proof.
  intros Hw. revert threads. induction Hw as [|t w Ht Hw IH]; intros threads H; simpl; [lia|].
  assert (threads !! t = Some RWaiting) as Hp by (apply H; left).
  pose proof (number_insert waits threads t RWaiting Idle Hp) as Hn. simpl in Hn.
  assert (length w ≤ number waits (<[t := Idle]> threads))%nat; [|lia].
  apply IH. intros u Hu. rewrite list_lookup_insert_ne by (by intros ->). apply H. by right.
Qed.

Lemma waits_coming (threads : list place) : (number waits threads ≤ number coming threads)%nat.
Proof.
  induction threads as [|p l IH]; [done|]. rewrite !number_cons. destruct p; simpl; lia.
Qed.

Lemma steps_enough l (threads : list place) t p l' p' :
  Inv l threads → threads !! t = Some p → steps l t p l' p' → listEmpty l' ≠ [] →
  (length (list_ l') + length (listEmpty l') ≤ number coming (<[t := p']> threads))%nat.
Proof.
  intros V Hp H Hne. destruct (steps_waiting _ _ _ _ _ _ V Hp H) as [Hnd Hall].
  destruct V as [_ _ _ _ V5 V6]. pose proof (number_insert coming threads t p p' Hp) as Hnum.
  assert (p = RWait → list_ l = []) as Hempty by (intros ->; eauto).
  inversion H; subst; simpl in *; rewrite ?length_app, ?length_fmap; simpl; try (specialize (V6 Hne); try lia).
  - destruct H1 as [(? & -> & ->)|[[-> ->]|[(-> & _ & ->)|(? & -> & ->)]]]; simpl in *; lia.
  - destruct H0 as [[-> ->]|[(? & -> & ->)|[-> ->]]]; simpl in *; lia.
  - destruct (listEmpty l); [done|]. specialize (V6 ltac:(done)). simpl in *. lia.
  - rewrite H0. etrans; [by apply number_waits|apply waits_coming].
  - rewrite Hempty by done. destruct (listEmpty l); simpl in *; [lia|]. specialize (V6 ltac:(done)). lia.
  - rewrite H0 in V6. simpl in *. lia.
Qed.

(** Every step keeps the invariant. *)
Lemma Inv_step l (threads : list place) t p l' p' :
  Inv l threads → threads !! t = Some p → step l t p = Some (Ok (l', p')) → Inv l' (<[t := p']> threads).
Proof.
  intros V Hp H%step_inv. pose proof V as [V1 _ _ V4 V5 _]. assert (t < length threads)%nat by (by eapply lookup_lt_Some).
  split.
  - by eapply lock_moves.
  - by eapply steps_waiting.
  - by eapply steps_waiting.
  - intros u. destruct (decide (u = t)) as [->|Hne].
    + rewrite list_lookup_insert_eq by done. intros [= ->]. inversion H; naive_solver.
    + rewrite list_lookup_insert_ne by done. intros Hu. rewrite (steps_other _ _ _ _ _ _ _ _ V Hp H Hne Hu eq_refl). eauto.
  - intros u. destruct (decide (u = t)) as [->|Hne].
    + rewrite list_lookup_insert_eq by done. intros [= ->]. inversion H; naive_solver.
    + rewrite list_lookup_insert_ne by done. intros Hu. rewrite (steps_other _ _ _ _ _ _ _ _ V Hp H Hne Hu eq_refl). eauto.
  - by eapply steps_enough.
Qed.

(** The assertion of [Remove] fails only for a null item. *)
Lemma step_safe l (threads : list place) t p e :
  Inv l threads → threads !! t = Some p →
  step l t p = Some (Err e) ↔ e = AssertionFailed ∧ p = RTake ∧ ∃ item, head (list_ l) = Some item ∧ is_null item = true.
Proof.
  intros V Hp. rewrite step_fails. split; intros (-> & -> & Hn); (split_and!; [done|done|]).
  - pose proof (v_take _ _ V t Hp) as Hne. destruct (list_ l) as [|x r]; [done|]. exists x. by split; [|apply Hn].
  - intros item Hi. destruct Hn as (x & Hx & ?). congruence.
Qed.

(** ** Runs *)

(** What happens to the list, with the thread that did it. *)
Inductive event :=
  | EAppend (t : nat) (item : A)
  | ERemove (t : nat) (item : A)
  | EMapcar (t : nat) (func : Z) (items : list A).

Definition emits (l : SynchList) (t : nat) (p p' : place) : list event :=
  match p, p' with
  | AInsert item, _ => [EAppend t item]
  | RTake, RRelease item => [ERemove t item]
  | MMap func, _ => [EMapcar t func (list_ l)]
  | _, _ => []
  end.

(** A thread may call a routine when it is in none. *)
Definition calls (p p' : place) : bool :=
  match p, p' with
  | (Idle | RDone _), (AAcquire _ | RAcquire | MAcquire _) => true
  | _, _ => false
  end.

(** [n] threads, any of which moves at any time. *)
Inductive run (n : nat) : list event → SynchList → list place → Prop :=
  | run_start : run n [] SynchList_new (replicate n Idle)
  | run_call tr l threads t p p' : run n tr l threads → threads !! t = Some p → calls p p' = true → run n tr l (<[t := p']> threads)
  | run_step tr l threads t p l' p' : run n tr l threads → threads !! t = Some p → step l t p = Some (Ok (l', p')) →
      run n (tr ++ emits l t p p') l' (<[t := p']> threads).

Lemma Inv_call l (threads : list place) t p p' :
  Inv l threads → threads !! t = Some p → calls p p' = true → Inv l (<[t := p']> threads).
Proof. intros V Hp Hc. eapply Inv_outside; [done|done|..]; destruct p; try done; by destruct p'. Qed.

Lemma run_inv_kept n tr l threads : run n tr l threads → Inv l threads.
Proof.
  induction 1; [|by eapply Inv_call|by eapply Inv_step].
  apply Inv_new. apply Forall_replicate. done.
Qed.

(** ** The specification: a queue *)

(** The queue [q] becomes [q'] by the events, in their order. *)
Inductive fifo : list A → list event → list A → Prop :=
  | fifo_nil q : fifo q [] q
  | fifo_append q t item tr q' : fifo (q ++ [item]) tr q' → fifo q (EAppend t item :: tr) q'
  | fifo_remove q t item tr q' : fifo q tr q' → fifo (item :: q) (ERemove t item :: tr) q'
  | fifo_mapcar q t func tr q' : fifo q tr q' → fifo q (EMapcar t func q :: tr) q'.

Lemma fifo_app q1 tr1 q2 tr2 q3 : fifo q1 tr1 q2 → fifo q2 tr2 q3 → fifo q1 (tr1 ++ tr2) q3.
Proof. induction 1; intros; simpl; [done|constructor; auto..]. Qed.

Lemma steps_fifo l t p l' p' : steps l t p l' p' → fifo (list_ l) (emits l t p p') (list_ l').
Proof.
  destruct 1; simpl; try (repeat constructor; done).
  - destruct H0 as [(? & -> & ->)|[[-> ->]|[(-> & _ & ->)|(? & -> & ->)]]]; constructor.
  - destruct H as [[-> ->]|[(? & -> & ->)|[-> ->]]]; constructor.
  - rewrite H. repeat constructor.
Qed.

(** The items that a thread has taken. *)
Definition taken (t : nat) (tr : list event) : list A :=
  omap (λ e, match e with ERemove u item => if decide (u = t) then Some item else None | _ => None end) tr.

Lemma taken_app t tr1 tr2 : taken t (tr1 ++ tr2) = taken t tr1 ++ taken t tr2.
Proof. apply omap_app. Qed.

(** What a thread returns is the last item it took off the list. *)
Definition returns (p : place) : option A := match p with RRelease item | RDone item => Some item | _ => None end.

Lemma steps_taken l t p l' p' tr u q item :
  steps l t p l' p' → (∀ item, returns p = Some item → last (taken t tr) = Some item) →
  (u ≠ t → returns q = Some item → last (taken u tr) = Some item) → q = (if decide (u = t) then p' else q) →
  returns q = Some item → last (taken u (tr ++ emits l t p p')) = Some item.
Proof.
  intros H Hp Hq Eq Hr. rewrite taken_app. case_decide as Hu; subst.
  - assert ((∃ x, p = RTake ∧ p' = RRelease x) ∨ (returns p' = returns p ∧ taken t (emits l t p p') = []) ∨ returns p' = None) as Hcase.
    { destruct H as [p p' _ H|p p' H| | | | | | |]; simpl; eauto.
      - destruct H as [(? & -> & ->)|[[-> ->]|[(-> & _ & ->)|(? & -> & ->)]]]; auto.
      - destruct H as [[-> ->]|[(? & -> & ->)|[-> ->]]]; auto. }
    destruct Hcase as [(x & -> & ->)|[(E1 & ->)|E]].
    + simpl in *. rewrite decide_True by done. rewrite last_snoc. done.
    + rewrite app_nil_r. apply Hp. congruence.
    + congruence.
  - assert (taken u (emits l t p p') = []) as -> by (destruct H; simpl; rewrite ?decide_False by done; try done;
      [destruct H0 as [(? & -> & ->)|[[-> ->]|[(-> & _ & ->)|(? & -> & ->)]]]|destruct H as [[-> ->]|[(? & -> & ->)|[-> ->]]]]; done).
    rewrite app_nil_r. auto.
Qed.

Lemma run_returns n tr l threads t p item :
  run n tr l threads → threads !! t = Some p → returns p = Some item → last (taken t tr) = Some item.
Proof.
  intros Hrun. revert t p item. induction Hrun as [|tr l threads t p p' _ IH Hp Hc|tr l threads t p l' p' _ IH Hp Hs];
    intros u q item Hq Hr.
  - apply lookup_replicate in Hq as [-> _]. done.
  - destruct (decide (u = t)) as [->|Hne].
    + rewrite list_lookup_insert_eq in Hq by (by eapply lookup_lt_Some). simplify_eq. destruct p; try done; destruct q; done.
    + rewrite list_lookup_insert_ne in Hq by done. eauto.
  - assert (t < length threads)%nat by (by eapply lookup_lt_Some). apply step_inv in Hs.
    eapply (steps_taken l t p l' p' tr u q item Hs); try done; [eauto|..].
    + intros Hne ?. rewrite list_lookup_insert_ne in Hq by done. eauto.
    + case_decide; [subst; rewrite list_lookup_insert_eq in Hq by done; congruence|done].
Qed.

Lemma run_fifo n tr l threads : run n tr l threads → fifo [] tr (list_ l).
Proof.
  induction 1 as [| |tr l threads t p l' p' _ IH Hp Hs]; [constructor|done|].
  eapply fifo_app; [exact IH|]. by apply steps_fifo, step_inv.
Qed.

(** ** Nobody is forgotten *)

Lemma holder_moves l (threads : list place) t p : threads !! t = Some p → holds p = true → step l t p ≠ None.
Proof.
  intros _ Hh. destruct p; try done; unfold step, Remove, list_Remove; try done. by destruct (list_ l).
Qed.

Lemma number_coming (w : list nat) (threads : list place) :
  (∀ u p, threads !! u = Some p → coming p = true → u ∈ w) → (number coming threads ≤ length w)%nat.
Proof.
  revert threads. induction w as [|t w IH]; intros threads H; simpl.
  - rewrite number_none; [lia|]. intros u p Hp. destruct (coming p) eqn:Hc; [|done].
    by destruct (not_elem_of_nil u (H u p Hp Hc)).
  - destruct (threads !! t) as [p|] eqn:Hp.
    + pose proof (number_insert coming threads t p Idle Hp) as Hn. simpl in Hn.
      assert (number coming (<[t := Idle]> threads) ≤ length w)%nat; [|destruct (coming p); lia].
      apply IH. intros u q Hq Hc. destruct (decide (u = t)) as [->|Hne].
      * rewrite list_lookup_insert_eq in Hq by (by eapply lookup_lt_Some). by simplify_eq.
      * rewrite list_lookup_insert_ne in Hq by done. specialize (H u q Hq Hc). by apply elem_of_cons in H as [->|].
    + assert (number coming threads ≤ length w)%nat; [|lia]. apply IH. intros u q Hq Hc.
      specialize (H u q Hq Hc). apply elem_of_cons in H as [->|]; [congruence|done].
Qed.

(** When no thread can move, a thread that has not returned waits in [Remove]
    for an item, and there is none. *)
Lemma Inv_quiet l (threads : list place) t p :
  Inv l threads → (∀ t p, threads !! t = Some p → step l t p = None) → threads !! t = Some p →
  match p with Idle | RDone _ => True | RWaiting => t ∈ listEmpty l ∧ list_ l = [] | _ => False end.
Proof.
  intros V Hq Hp.
  assert (lock l = None) as El.
  { destruct (lock l) as [u|] eqn:E; [|done]. apply (v_lock _ _ V) in E as (q & Hu & Hh). by destruct (holder_moves l threads u q Hu Hh (Hq u q Hu)). }
  assert (∀ u q, threads !! u = Some q → holds q = false) as Hno.
  { intros u q Hu. destruct (holds q) eqn:E; [|done]. by destruct (holder_moves l threads u q Hu E (Hq u q Hu)). }
  assert (∀ u q, threads !! u = Some q → coming q = true → u ∈ listEmpty l) as Hin.
  { intros u q Hu Hc. specialize (Hno u q Hu). specialize (Hq u q Hu). destruct q; try done.
    simpl in Hq. case_decide; [done|]. rewrite Acquire_eq in Hq. by rewrite El in Hq. }
  specialize (Hno t p Hp). specialize (Hq t p Hp).
  destruct p; try done; simpl in Hq; rewrite ?Acquire_eq, ?El in Hq; try done.
  assert (t ∈ listEmpty l) as Ht by (by eapply Hin). split; [done|].
  assert (listEmpty l ≠ []) as Hne by (intros E; rewrite E in Ht; by apply not_elem_of_nil in Ht).
  pose proof (v_enough _ _ V Hne). pose proof (number_coming (listEmpty l) threads Hin).
  destruct (list_ l); [done|simpl in *; lia].
Qed.

(** A schedule: which thread moves, and what it calls if it is idle. *)
Fixpoint play (tr : list event) (l : SynchList) (threads : list place) (todo : list (nat * option place))
    : option (list event * SynchList * list place) :=
  match todo with
  | [] => Some (tr, l, threads)
  | (t, c) :: todo =>
    p ← threads !! t;
    match c with
    | Some p' => if calls p p' then play tr l (<[t := p']> threads) todo else None
    | None =>
      match step l t p with
      | Some (Ok (l', p')) => play (tr ++ emits l t p p') l' (<[t := p']> threads) todo
      | _ => None
      end
    end
  end.

Lemma play_run n todo : ∀ tr l threads tr' l' threads',
  run n tr l threads → play tr l threads todo = Some (tr', l', threads') → run n tr' l' threads'.
Proof.
  induction todo as [|[t c] todo IH]; intros tr l threads tr' l' threads' Hrun Hp; simpl in Hp; [by simplify_eq|].
  destruct (threads !! t) as [p|] eqn:Et; [|done]. simpl in Hp. destruct c as [p'|].
  - destruct (calls p p') eqn:Ec; [|done]. eapply IH; [|done]. by eapply run_call.
  - destruct (step l t p) as [[[l1 p1]|]|] eqn:Es; try done. eapply IH; [|done]. by eapply run_step.
Qed.

(** C29: in a build with THREADS the synchronised list is a queue: in every
    interleaving of any number of threads the calls take effect one after the
    other as operations of a queue, [Remove] returns the item it took, [Mapcar]
    calls its function for the items of the queue, and only one thread at a time
    is between [Acquire] and [Release].  A step stops the machine only in
    [Remove], on its assertion, exactly when the item at the head of the queue
    is a null pointer that was appended.  (Without THREADS the first [Remove] of
    an empty list stops: [remove_stops_without_threads].) *)
Theorem synchlist_refines_queue n tr l threads :
  run n tr l threads →
  fifo [] tr (list_ l) ∧
  (∀ t p item, threads !! t = Some p → returns p = Some item → last (taken t tr) = Some item) ∧
  (∀ t p e, threads !! t = Some p →
     step l t p = Some (Err e) ↔ e = AssertionFailed ∧ p = RTake ∧ ∃ item, head (list_ l) = Some item ∧ is_null item = true) ∧
  (∀ t u p q, threads !! t = Some p → threads !! u = Some q → holds p = true → holds q = true → t = u).
Proof.
  intros H. pose proof (run_inv_kept _ _ _ _ H) as V. split_and!.
  - by eapply run_fifo.
  - intros t p item. by eapply run_returns.
  - intros t p e. by apply step_safe.
  - intros t u p q Hp Hq Hhp Hhq. assert (lock l = Some t) by (apply (v_lock _ _ V); eauto).
    assert (lock l = Some u) by (apply (v_lock _ _ V); eauto). congruence.
Qed.

(** No wakeup is lost: when no thread can move, every thread has returned or
    waits in [Remove] for an item, and then the list is empty. *)
Theorem synchlist_no_lost_item n tr l threads :
  run n tr l threads → (∀ t p, threads !! t = Some p → step l t p = None) →
  ∀ t p, threads !! t = Some p → match p with Idle | RDone _ => True | RWaiting => list_ l = [] | _ => False end.
Proof.
  intros H Hq t p Hp. pose proof (Inv_quiet l threads t p (run_inv_kept _ _ _ _ H) Hq Hp) as Hc. by destruct p; destruct_and?.
Qed.

End real_locks.
End synchlist.
Arguments SynchList A : clear implicits.
Arguments place A : clear implicits.
Arguments event A : clear implicits.

(** *** Witnesses: one thread waits for an item, another one appends it *)

#[local] Instance with_threads : SynchBuild := true.
#[local] Instance with_threads_real : RealLocks := eq_refl.
#[local] Instance address : Nullable Z := λ x, x =? 0.

Definition remove_waits : list (nat * option (place Z)) :=
  [(0, Some RAcquire); (0, None); (0, None); (0, None); (1, Some (AAcquire 7%Z)); (1, None); (1, None); (1, None); (1, None);
   (0, None); (0, None); (0, None); (0, None)]%nat.

Lemma remove_waits_run :
  run 2 [EAppend 1 7; ERemove 0 7] (mkSynchList [] None []) [RDone 7; Idle].
Proof. eapply (play_run 2 remove_waits [] SynchList_new); [apply run_start|]. vm_compute. reflexivity. Qed.

(** The queue in which 7 came and went. *)
Lemma synchlist_refines_queue_witness :
  fifo [] [EAppend 1 7; ERemove 0 7] [] ∧ last (taken 0 [EAppend 1 7; ERemove 0 7]) = Some 7.
Proof.
  destruct (synchlist_refines_queue 2 _ _ _ remove_waits_run) as (H1 & H2 & _).
  split; [exact H1|]. apply (H2 0%nat (RDone 7)); reflexivity.
Defined.

Definition remove_starves : list (nat * option (place Z)) :=
  [(0, Some RAcquire); (0, None); (0, None); (0, None)]%nat.

Lemma remove_starves_run : run 1 [] (mkSynchList (A := Z) [] None [0%nat]) [RWaiting].
Proof. eapply (play_run 1 remove_starves [] SynchList_new); [apply run_start|]. vm_compute. reflexivity. Qed.

(** A thread that waits for ever, for there is no item. *)
Lemma synchlist_no_lost_item_witness : ∀ t (p : place Z), [RWaiting] !! t = Some p → match p with Idle | RDone _ => True | RWaiting => @nil Z = [] | _ => False end.
Proof.
  apply (synchlist_no_lost_item 1 _ _ _ remove_starves_run). intros [|t] p Hp; simplify_eq/=. reflexivity.
Defined.

End SynchList.
