(* ===== verification/Network.v ===== *)
(** * The network device: machine/network.h, machine/network.cc

    A device of the interrupt simulation that sends packets of fixed size to the
    sockets of other machines, and reads those that arrive at its own.  A socket
    (machine/sysdep.cc: a UNIX datagram socket) is the queue of the packets that
    were sent to it; [SendToSocket] and [ReadFromSocket] transfer whole packets.
    What the device asks of the interrupt simulation is a list of actions of file
    Interrupt, as for the other devices. *)

From stdpp Require Import base list.
From Stdlib Require Import QArith.
From S2P Require Import Prelude Lists Machine Bytes Threads Interrupt.
#[local] Open Scope Z_scope.

Module Network.
Import Bytes Interrupt.

Definition NetworkTime : Z := 100.

(** [class PacketHeader]. *)
Record PacketHeader := mkPacket {
  to : Z;
  from : Z;
  length_ : Z;
}.

Definition sizeof_PacketHeader : Z := 12.
Definition MaxWireSize : Z := 64.
Definition MaxPacketSize : Z := MaxWireSize - sizeof_PacketHeader.

(** A packet on the wire. *)
Definition wire := list Z.

(** [class Network], without the socket and the handlers, which are arguments
    below; the double [chanceToWork] is a rational number. *)
Record Network := mkNetwork {
  ident : Z;
  chanceToWork : Q;
  sendBusy : bool;
  inHdr : PacketHeader;
  inbox : list Z;
}.

Definition set_sendBusy (n : Network) (x : bool) : Network :=
  mkNetwork (ident n) (chanceToWork n) x (inHdr n) (inbox n).
Definition set_inHdr (n : Network) (x : PacketHeader) : Network :=
  mkNetwork (ident n) (chanceToWork n) (sendBusy n) x (inbox n).
Definition set_inbox (n : Network) (x : list Z) : Network :=
  mkNetwork (ident n) (chanceToWork n) (sendBusy n) (inHdr n) x.

Section network.
(** The byte order of the host; the addresses of the static functions
    [NetworkReadPoll] and [NetworkSendDone], and of the device; what memory that
    was not initialised holds. *)
Context (HOST_IS_BIG_ENDIAN : bool) (NetworkReadPoll_addr NetworkSendDone_addr network_addr : Z).
Context (uninit : nat → Z) (uninit_header : PacketHeader).

(** [new char[n]], and an array in an object. *)
Definition buffer (n : Z) : list Z := uninit <$> seq 0 (Z.to_nat n).

Lemma buffer_length n : length (buffer n) = Z.to_nat n.
Proof. unfold buffer. by rewrite length_fmap, length_seq. Qed.

(** [*(PacketHeader * )buffer], to write and to read. *)
Definition packet_bytes (h : PacketHeader) : list Z :=
  int_bytes HOST_IS_BIG_ENDIAN (to h) ++ int_bytes HOST_IS_BIG_ENDIAN (from h) ++ int_bytes HOST_IS_BIG_ENDIAN (length_ h).
Definition packet_of (bs : list Z) : PacketHeader :=
  mkPacket (int_at HOST_IS_BIG_ENDIAN bs 0) (int_at HOST_IS_BIG_ENDIAN bs 4) (word_at HOST_IS_BIG_ENDIAN bs 8).

(** [interrupt->Schedule(NetworkReadPoll, this, NetworkTime, NetworkRecvInt)],
    and that of [NetworkSendDone]. *)
Definition poll : action := ActSchedule NetworkReadPoll_addr network_addr NetworkTime NetworkRecvInt.
Definition send_done : action := ActSchedule NetworkSendDone_addr network_addr NetworkTime NetworkSendInt.

(** [new Network(addr, reliability, ...)]. *)
Definition Network_new (addr : Z) (reliability : Q) : Network * list action :=
  let chance := if negb (Qle_bool 0 reliability) then 0%Q
                else if negb (Qle_bool reliability 1) then 1%Q else reliability in
  (mkNetwork addr chance false (mkPacket (to uninit_header) (from uninit_header) 0) (buffer MaxPacketSize), [poll]).

(** Is there a packet in the buffer? *)
Definition buffered (n : Network) : bool := negb (length_ (inHdr n) =? 0).

(** [CheckPktAvail]: the device, the packets that remain in the socket, the
    interrupts that are scheduled, and whether [readHandler] is called, which is
    the last thing it does. *)
Definition CheckPktAvail (n : Network) (sock : list wire) : result (Network * list wire * list action * bool) :=
  if buffered n then Ok (n, sock, [poll], false)
  else match sock with
  | [] => Ok (n, sock, [poll], false)
  | packet :: sock =>
    _ ← ASSERT (Z.of_nat (length packet) =? MaxWireSize);
    let n := set_inHdr n (packet_of packet) in
    _ ← ASSERT ((to (inHdr n) =? ident n) && (length_ (inHdr n) <=? MaxPacketSize));
    bs ← bcopy (drop (Z.to_nat sizeof_PacketHeader) packet) (inbox n) 0 (length_ (inHdr n));
    Ok (set_inbox n bs, sock, [poll], true)
  end.

(** [SendDone], before it calls [writeHandler]. *)
Definition SendDone (n : Network) : Network := set_sendBusy n false.

(** Does the network lose the packet, for the number that [Random()] gives? *)
Definition loses (n : Network) (random : Z) : bool := Qle_bool (chanceToWork n * 100) (inject_Z (Z.rem random 100)).

(** [Send]: the interrupts that are scheduled, and the packet that goes to the
    socket of [to hdr]. *)
Definition Send (n : Network) (hdr : PacketHeader) (data : list Z) (random : Z)
    : result (list action * option wire) :=
  _ ← ASSERT (negb (sendBusy n) && (length_ hdr >? 0) && (length_ hdr <=? MaxPacketSize) && (from hdr =? ident n));
  if loses n random then Ok ([send_done], None)
  else
    bs ← bcopy (packet_bytes hdr) (buffer MaxWireSize) 0 sizeof_PacketHeader;
    bs ← bcopy data bs sizeof_PacketHeader (length_ hdr);
    Ok ([send_done], Some bs).

(** [Receive(data)]: the header, the device, and the buffer of the caller. *)
Definition Receive (n : Network) (data : list Z) : result (PacketHeader * Network * list Z) :=
  let hdr := inHdr n in
  let n := set_inHdr n (mkPacket (to hdr) (from hdr) 0) in
  data ← if negb (length_ hdr =? 0) then bcopy (inbox n) data 0 (length_ hdr) else Ok data;
  Ok (hdr, n, data).

(** ** Headers and packets *)

(** A header whose fields have the size of their types. *)
Record header_ok (h : PacketHeader) : Prop := mkHeaderOk {
  h_to : is_s32 (to h);
  h_from : is_s32 (from h);
  h_length : 0 < length_ h ≤ MaxPacketSize;
}.

Lemma packet_bytes_length h : length (packet_bytes h) = 12%nat.
Proof. unfold packet_bytes. by rewrite !length_app, !int_bytes_length. Qed.

Lemma packet_roundtrip h rest : header_ok h → packet_of (packet_bytes h ++ rest) = h.
Proof.
  intros [H1 H2 H3]. unfold packet_of, packet_bytes. destruct h as [t f n]; simpl in *. f_equal.
  - rewrite <- !(assoc_L (++)). apply (int_at_int _ []); done.
  - rewrite <- !(assoc_L (++)). apply int_at_int; [by rewrite int_bytes_length|done].
  - rewrite (assoc_L (++)), <- (assoc_L (++) _ _ rest). rewrite word_at_int by by rewrite length_app, !int_bytes_length.
    apply u32_id. unfold is_u32, MaxPacketSize, MaxWireSize, sizeof_PacketHeader in *. lia.
Qed.

(** What [Send] puts on the wire: header, data, and what was in the memory of the
    buffer. *)
Definition packet (hdr : PacketHeader) (data : list Z) : wire :=
  packet_bytes hdr ++ take (Z.to_nat (length_ hdr)) data ++ drop (Z.to_nat (sizeof_PacketHeader + length_ hdr)) (buffer MaxWireSize).

Lemma packet_length hdr data :
  header_ok hdr → length_ hdr ≤ Z.of_nat (length data) → Z.of_nat (length (packet hdr data)) = MaxWireSize.
Proof.
  intros [_ _ H] Hd. unfold packet, MaxPacketSize, MaxWireSize, sizeof_PacketHeader in *.
  rewrite !length_app, packet_bytes_length, length_take, length_drop, buffer_length. lia.
Qed.

Lemma Send_ok n hdr data random :
  sendBusy n = false → from hdr = ident n → header_ok hdr → length_ hdr ≤ Z.of_nat (length data) →
  Send n hdr data random = Ok ([send_done], if loses n random then None else Some (packet hdr data)).
Proof.
  intros Hb Hf [_ _ H] Hd. unfold Send. rewrite Hb, Hf, Z.eqb_refl.
  rewrite (proj2 (Z.gtb_lt _ _)) by lia. rewrite (proj2 (Z.leb_le _ _)) by lia. run_ok. cbn [negb andb]. run_ok.
  destruct (loses n random); [done|]. unfold MaxPacketSize, MaxWireSize, sizeof_PacketHeader in *.
  rewrite bcopy_start by (rewrite ?packet_bytes_length, ?buffer_length; lia). run_ok.
  rewrite (take_ge (packet_bytes hdr)) by (rewrite packet_bytes_length; lia).
  rewrite bcopy_ok by (rewrite ?length_app, ?length_drop, ?packet_bytes_length, ?buffer_length; lia). run_ok.
  unfold packet. rewrite (take_app_length' (packet_bytes hdr)) by by rewrite packet_bytes_length.
  rewrite (drop_app_ge (packet_bytes hdr)) by (rewrite packet_bytes_length; lia). rewrite drop_drop, packet_bytes_length.
  unfold sizeof_PacketHeader, MaxWireSize. do 6 f_equal. lia.
Qed.

(** A packet that was sent to this machine is read into the buffer. *)
Lemma CheckPktAvail_packet n hdr data sock :
  buffered n = false → to hdr = ident n → header_ok hdr → length_ hdr ≤ Z.of_nat (length data) →
  Z.of_nat (length (inbox n)) = MaxPacketSize →
  ∃ bs, CheckPktAvail n (packet hdr data :: sock) = Ok (set_inbox (set_inHdr n hdr) bs, sock, [poll], true) ∧
        Z.of_nat (length bs) = MaxPacketSize ∧ take (Z.to_nat (length_ hdr)) bs = take (Z.to_nat (length_ hdr)) data.
Proof.
  intros Hb Ht Hh Hd Hi. pose proof (packet_length _ _ Hh Hd) as Hl. unfold CheckPktAvail. rewrite Hb, Hl, Z.eqb_refl. run_ok.
  unfold packet. rewrite packet_roundtrip by done. cbn [inHdr set_inHdr ident inbox]. rewrite Ht, Z.eqb_refl.
  pose proof (h_length _ Hh) as Hn. unfold MaxPacketSize, MaxWireSize, sizeof_PacketHeader in *.
  rewrite (proj2 (Z.leb_le _ _)) by lia. cbn [andb]. run_ok.
  rewrite drop_app_length' by by rewrite packet_bytes_length.
  rewrite bcopy_start by (rewrite ?length_app, ?length_take; lia). run_ok. eexists. split_and!; [done|..].
  - rewrite !length_app, !length_take, length_app, length_take, length_drop, length_drop, buffer_length. lia.
  - rewrite take_app_le by (rewrite length_take, length_app, length_take; lia).
    rewrite take_take, Nat.min_id. rewrite take_app_le by (rewrite length_take; lia). by rewrite take_take, Nat.min_id.
Qed.

(** [Receive] takes the packet out of the buffer. *)
Lemma Receive_ok n data :
  0 < length_ (inHdr n) ≤ MaxPacketSize → Z.of_nat (length (inbox n)) = MaxPacketSize → Z.of_nat (length data) = MaxPacketSize →
  ∃ bs, Receive n data = Ok (inHdr n, set_inHdr n (mkPacket (to (inHdr n)) (from (inHdr n)) 0), bs) ∧
        Z.of_nat (length bs) = MaxPacketSize ∧
        take (Z.to_nat (length_ (inHdr n))) bs = take (Z.to_nat (length_ (inHdr n))) (inbox n).
Proof.
  intros Hn Hi Hd. unfold Receive. destruct (Z.eqb_spec (length_ (inHdr n)) 0) as [|_]; [lia|]. cbn [negb inbox set_inHdr].
  rewrite bcopy_start by lia. run_ok. eexists. split_and!; [done|..].
  - rewrite !length_app, !length_take, length_drop. lia.
  - rewrite take_app_le by (rewrite length_take; lia). by rewrite take_take, Nat.min_id.
Qed.

(** With reliability 1 no packet is lost. *)
Lemma reliable_loses n random : chanceToWork n = 1%Q → 0 ≤ random → loses n random = false.
Proof.
  intros Hc Hr. unfold loses. rewrite Hc. destruct (Qle_bool _ _) eqn:E; [|done].
  apply Qle_bool_iff in E. unfold Qle in E. simpl in E. pose proof (Z.rem_bound_pos random 100). lia.
Qed.

End network.
End Network.
