(* ===== verification/Post.v ===== *)
(** * The post office: network/post.h, network/post.cc

    Machines on a network, each with a post office: the network device, mail
    boxes that are synchronised lists, the postal worker that carries mail from
    the device to the boxes, and threads that send and receive.  A thread is the
    place where it stands, as in file SynchList; an interrupt that was scheduled
    may be taken at any later time, so that what is shown does not depend on when
    the interrupt simulation takes it.

    The routines are modelled for builds with and without THREADS.  The theorems
    are about a build with it, as the alternative that network/Makefile gives in
    a comment ([-DTHREADS -DNETWORK]); what a build without it does, like the one
    that the Makefile makes, is at the end of file NetTest. *)

From stdpp Require Import base list gmap.
From Stdlib Require Import QArith.
From S2P Require Import Prelude Lists Machine Bytes Threads Interrupt SynchList Network.
#[local] Open Scope Z_scope.

Module Post.
Import Bytes Interrupt Network.

(** ** Messages *)

(** [class MailHeader]. *)
Record MailHeader := mkMailHdr {
  mto : Z;
  mfrom : Z;
  mlength : Z;
}.
Definition sizeof_MailHeader : Z := 12.
Definition MaxMailSize : Z := MaxPacketSize - sizeof_MailHeader.

(** [class Mail]. *)
Record Mail := mkMail {
  pktHdr : PacketHeader;
  mailHdr : MailHeader;
  data : list Z;
}.

(** The items of the boxes are pointers that come from [new Mail]. *)
#[global] Instance mail_pointer : SynchList.Nullable Mail := λ _, false.

(** [class PostOffice]; a semaphore is its value, the lock the thread that holds
    it. *)
Record PostOffice := mkOffice {
  network : Network;
  netAddr : Z;
  boxes : list (SynchList.SynchList Mail);
  numBoxes : Z;
  messageAvailable : Z;
  messageSent : Z;
  sendLock : option nat;
}.

Definition set_network (o : PostOffice) (x : Network) : PostOffice :=
  mkOffice x (netAddr o) (boxes o) (numBoxes o) (messageAvailable o) (messageSent o) (sendLock o).
Definition set_boxes (o : PostOffice) (x : list (SynchList.SynchList Mail)) : PostOffice :=
  mkOffice (network o) (netAddr o) x (numBoxes o) (messageAvailable o) (messageSent o) (sendLock o).
Definition set_messageAvailable (o : PostOffice) (x : Z) : PostOffice :=
  mkOffice (network o) (netAddr o) (boxes o) (numBoxes o) x (messageSent o) (sendLock o).
Definition set_messageSent (o : PostOffice) (x : Z) : PostOffice :=
  mkOffice (network o) (netAddr o) (boxes o) (numBoxes o) (messageAvailable o) x (sendLock o).
Definition set_sendLock (o : PostOffice) (x : option nat) : PostOffice :=
  mkOffice (network o) (netAddr o) (boxes o) (numBoxes o) (messageAvailable o) (messageSent o) x.

(** ** Threads *)

(** Where the postal worker stands in [PostalDelivery]. *)
Inductive worker_at :=
  | WWait                                       (* messageAvailable->P() *)
  | WReceive                                    (* network->Receive(buffer), up to Put *)
  | WPut (box : Z) (p : SynchList.place Mail).  (* in messages->Append of the box *)

(** Where another thread stands, with its arguments and local variables. *)
Inductive user_at :=
  | UIdle
  | USend (h : PacketHeader) (m : MailHeader) (d : list Z)  (* Send: up to Acquire *)
  | ULock (h : PacketHeader) (buffer : list Z)              (* sendLock->Acquire() *)
  | UPacket (h : PacketHeader) (buffer : list Z)            (* has sendLock: network->Send *)
  | USent                                                   (* has sendLock: messageSent->P() *)
  | UUnlock                                                 (* has sendLock: sendLock->Release() *)
  | UReceive (box room : Z)                                 (* Receive: ASSERT *)
  | UGet (box room : Z) (p : SynchList.place Mail)          (* in messages->Remove of the box *)
  | UGot (h : PacketHeader) (m : MailHeader) (d : list Z).  (* Receive returned *)

(** The worker has a buffer that it uses again for every packet. *)
Inductive thread := Worker (buffer : list Z) (p : worker_at) | User (p : user_at).

(** A machine: its post office, its threads, the interrupts that are scheduled,
    what other machines sent to its socket, and the two counters of [stats]. *)
Record node := mkNode {
  office : PostOffice;
  threads : list thread;
  pending : list action;
  sock : list wire;
  packetsSent : Z;
  packetsRecvd : Z;
}.

Definition set_office (n : node) (x : PostOffice) : node :=
  mkNode x (threads n) (pending n) (sock n) (packetsSent n) (packetsRecvd n).
Definition set_thread (n : node) (t : nat) (x : thread) : node :=
  mkNode (office n) (<[t := x]> (threads n)) (pending n) (sock n) (packetsSent n) (packetsRecvd n).
Definition set_pending (n : node) (x : list action) : node :=
  mkNode (office n) (threads n) x (sock n) (packetsSent n) (packetsRecvd n).
Definition set_sock (n : node) (x : list wire) : node :=
  mkNode (office n) (threads n) (pending n) x (packetsSent n) (packetsRecvd n).
Definition set_packets (n : node) (x y : Z) : node :=
  mkNode (office n) (threads n) (pending n) (sock n) x y.

(** A message as the sender and the receiver see it. *)
Definition message : Type := PacketHeader * MailHeader * list Z.

(** What happens, by which thread of which machine: [Send] is called with a
    message, puts it on the wire to another machine, or sees it lost by the
    network; a message is taken out of a box. *)
Inductive event :=
  | ECall (src : Z) (t : nat) (m : message)
  | ESent (src : Z) (t : nat) (dst : Z) (m : message)
  | ELost (src : Z) (t : nat) (m : message)
  | EGot (addr : Z) (t : nat) (box : Z) (m : message).

Definition actor (e : event) : Z * nat :=
  match e with ECall a t _ | ESent a t _ _ | ELost a t _ | EGot a t _ _ => (a, t) end.

Section post.
Context (HOST_IS_BIG_ENDIAN : bool) (NetworkReadPoll_addr NetworkSendDone_addr network_addr : Z).
Context (uninit : nat → Z) (uninit_header : PacketHeader).
Context {build : SynchBuild}.

(** ** Mail *)

(** [*(MailHeader * )buffer], to write and to read. *)
Definition mail_bytes (m : MailHeader) : list Z :=
  int_bytes HOST_IS_BIG_ENDIAN (mto m) ++ int_bytes HOST_IS_BIG_ENDIAN (mfrom m) ++ int_bytes HOST_IS_BIG_ENDIAN (mlength m).
Definition mail_of (bs : list Z) : MailHeader :=
  mkMailHdr (int_at HOST_IS_BIG_ENDIAN bs 0) (int_at HOST_IS_BIG_ENDIAN bs 4) (word_at HOST_IS_BIG_ENDIAN bs 8).

(** [new Mail(pktH, mailH, msgData)]. *)
Definition Mail_new (pktH : PacketHeader) (mailH : MailHeader) (msgData : list Z) : result Mail :=
  _ ← ASSERT (mlength mailH <=? MaxMailSize);
  d ← bcopy msgData (buffer uninit MaxMailSize) 0 (mlength mailH);
  Ok (mkMail pktH mailH d).

(** [MailBox::Put], up to [messages->Append]: where the thread goes on. *)
Definition Put (pktHdr : PacketHeader) (mailHdr : MailHeader) (data : list Z) : result (SynchList.place Mail) :=
  mail ← Mail_new pktHdr mailHdr data;
  Ok (SynchList.AAcquire mail).

(** [MailBox::Get] after [messages->Remove]; [room] is the size of the caller's
    buffer. *)
Definition Get (mail : Mail) (room : Z) : result message :=
  d ← bcopy (data mail) (buffer uninit room) 0 (mlength (mailHdr mail));
  Ok (pktHdr mail, mailHdr mail, take (Z.to_nat (mlength (mailHdr mail))) d).

(** What [Get] gives for a mail. *)
Definition message_of (mail : Mail) : message :=
  (pktHdr mail, mailHdr mail, take (Z.to_nat (mlength (mailHdr mail))) (data mail)).

(** ** The post office *)

Definition PostOffice_new (addr : Z) (reliability : Q) (nBoxes : Z) : PostOffice * list action :=
  let '(n, l) := Network_new NetworkReadPoll_addr network_addr uninit uninit_header addr reliability in
  (mkOffice n addr (replicate (Z.to_nat nBoxes) SynchList.SynchList_new) nBoxes 0 0 None, l).

(** The interrupt handlers: [messageAvailable->V()] and [messageSent->V()]. *)
Definition IncomingPacket (o : PostOffice) : PostOffice := set_messageAvailable o (messageAvailable o + 1).
Definition PacketSent (o : PostOffice) : PostOffice := set_messageSent o (messageSent o + 1).

(** The interrupt [i] of those that are scheduled. *)
Definition take_interrupt (n : node) (i : nat) : option (result node) :=
  a ← pending n !! i;
  let n := set_pending n (delete i (pending n)) in
  let o := office n in
  match a with
  | ActSchedule func _ _ _ =>
    Some (
      if func =? NetworkReadPoll_addr then
        '(net, s, l, arrived) ← CheckPktAvail HOST_IS_BIG_ENDIAN NetworkReadPoll_addr network_addr (network o) (sock n);
        let n := set_sock (set_pending n (pending n ++ l)) s in
        let o := set_network o net in
        if (arrived : bool)
        then Ok (set_packets (set_office n (IncomingPacket o)) (packetsSent n) (packetsRecvd n + 1))
        else Ok (set_office n o)
      else if func =? NetworkSendDone_addr then
        let o := set_network o (SendDone (network o)) in
        Ok (set_packets (set_office n (PacketSent o)) (packetsSent n + 1) (packetsRecvd n))
      else Err NullDereference)
  | ActYieldOnReturn => Some (Ok n)
  end.

(** [P] of a semaphore with this value, [sendLock->Acquire()] and
    [sendLock->Release()]; [None] is waiting. *)
Definition P (v : Z) : option Z := if v >? 0 then Some (v - 1) else None.
Definition acquire (o : PostOffice) (t : nat) : option PostOffice :=
  if THREADS_defined then match sendLock o with None => Some (set_sendLock o (Some t)) | Some _ => None end else Some o.
Definition release (o : PostOffice) : PostOffice := if THREADS_defined then set_sendLock o None else o.

(** One step of [messages->Append] or [messages->Remove] of a box. *)
Definition box_step (o : PostOffice) (box : Z) (t : nat) (p : SynchList.place Mail)
    : option (result (PostOffice * SynchList.place Mail)) :=
  match aget (boxes o) box with
  | Err e => Some (Err e)
  | Ok l =>
    r ← SynchList.step l t p;
    Some ('(l, p) ← r; bs ← aset (boxes o) box l; Ok (set_boxes o bs, p))
  end.

(** [PostalDelivery], from [network->Receive] to [messages->Append]. *)
Definition deliver (o : PostOffice) (buf : list Z) : result (PostOffice * list Z * worker_at) :=
  '(pktHdr, net, buf) ← Receive (network o) buf;
  let o := set_network o net in
  let mailHdr := mail_of buf in
  _ ← ASSERT ((0 <=? mto mailHdr) && (mto mailHdr <? numBoxes o));
  _ ← ASSERT (mlength mailHdr <=? MaxMailSize);
  p ← Put pktHdr mailHdr (drop (Z.to_nat sizeof_MailHeader) buf);
  Ok (o, buf, WPut (mto mailHdr) p).

(** The loop of the postal worker. *)
Definition PostalDelivery (n : node) (t : nat) (buf : list Z) (p : worker_at) : option (result node) :=
  let o := office n in
  match p with
  | WWait => v ← P (messageAvailable o); Some (Ok (set_thread (set_office n (set_messageAvailable o v)) t (Worker buf WReceive)))
  | WReceive => Some ('(o, buf, p) ← deliver o buf; Ok (set_thread (set_office n o) t (Worker buf p)))
  | WPut box p =>
    r ← box_step o box t p;
    Some ('(o, p) ← r;
          Ok (set_thread (set_office n o) t (Worker buf (match p with SynchList.Idle => WWait | _ => WPut box p end))))
  end.

(** [Send] up to [sendLock->Acquire()]: the header for the network and the
    buffer. *)
Definition prepare (o : PostOffice) (h : PacketHeader) (m : MailHeader) (d : list Z) : result (PacketHeader * list Z) :=
  _ ← ASSERT (mlength m <=? MaxMailSize);
  _ ← ASSERT ((0 <=? mto m) && (mto m <? numBoxes o));
  let h := mkPacket (to h) (netAddr o) (u32 (mlength m + sizeof_MailHeader)) in
  bs ← bcopy (mail_bytes m) (buffer uninit MaxPacketSize) 0 sizeof_MailHeader;
  bs ← bcopy d bs sizeof_MailHeader (mlength m);
  Ok (h, bs).

(** The message in a packet. *)
Definition open_packet (h : PacketHeader) (bs : list Z) : message :=
  let m := mail_of bs in
  (h, m, take (Z.to_nat (mlength m)) (drop (Z.to_nat sizeof_MailHeader) bs)).
Definition open_wire (w : wire) : message :=
  open_packet (packet_of HOST_IS_BIG_ENDIAN w) (drop (Z.to_nat sizeof_PacketHeader) w).

(** One step of a thread in [Send] or [Receive]; [Some (dst, w)] is a packet for
    the socket of another machine. *)
Definition user (n : node) (t : nat) (p : user_at) (random : Z)
    : option (result (node * option (Z * wire) * list event)) :=
  let o := office n in
  let go n x := set_thread n t (User x) in
  match p with
  | UIdle | UGot _ _ _ => None
  | USend h m d => Some ('(h, bs) ← prepare o h m d; Ok (go n (ULock h bs), None, []))
  | ULock h bs => o ← acquire o t; Some (Ok (go (set_office n o) (UPacket h bs), None, []))
  | UPacket h bs =>
    Some ('(l, w) ← Send HOST_IS_BIG_ENDIAN NetworkSendDone_addr network_addr uninit (network o) h bs random;
          let n := set_pending n (pending n ++ l) in
          match w with
          | None => Ok (go n USent, None, [ELost (netAddr o) t (open_packet h bs)])
          | Some w => Ok (go n USent, Some (to h, w), [ESent (netAddr o) t (to h) (open_packet h bs)])
          end)
  | USent => v ← P (messageSent o); Some (Ok (go (set_office n (set_messageSent o v)) UUnlock, None, []))
  | UUnlock => Some (Ok (go (set_office n (release o)) UIdle, None, []))
  | UReceive box room =>
    Some (_ ← ASSERT ((box >=? 0) && (box <? numBoxes o)); Ok (go n (UGet box room SynchList.RAcquire), None, []))
  | UGet box room p =>
    r ← box_step o box t p;
    Some ('(o, p') ← r;
          let n := set_office n o in
          match p' with
          | SynchList.RRelease mail => Ok (go n (UGet box room p'), None, [EGot (netAddr o) t box (message_of mail)])
          | SynchList.RDone mail =>
            '(h, m, d) ← Get mail room;
            _ ← ASSERT (mlength m <=? MaxMailSize);
            Ok (go n (UGot h m d), None, [])
          | _ => Ok (go n (UGet box room p'), None, [])
          end)
  end.

(** The message that [Send] is given, as it will arrive: the header of the packet
    is filled in. *)
Definition sent_message (addr : Z) (h : PacketHeader) (m : MailHeader) (d : list Z) : message :=
  (mkPacket (to h) addr (mlength m + sizeof_MailHeader), m, take (Z.to_nat (mlength m)) d).

(** ** The network *)

Inductive act :=
  | Boot (addr : Z) (reliability : Q) (users : nat)
  | Take (addr : Z) (i : nat)
  | Run (addr : Z) (t : nat) (random : Z)
  | CallSend (addr : Z) (t : nat) (h : PacketHeader) (m : MailHeader) (d : list Z)
  | CallReceive (addr : Z) (t : nat) (box room : Z).

(** Machines all have [nBoxes] boxes. *)
Context (nBoxes : Z).

Definition start (addr : Z) (reliability : Q) (users : nat) : node :=
  let '(o, l) := PostOffice_new addr reliability nBoxes in
  mkNode o (Worker (buffer uninit MaxPacketSize) WWait :: replicate users (User UIdle)) l [] 0 0.

(** [SendToSocket], to a machine that exists. *)
Definition SendToSocket (w : gmap Z node) (p : option (Z * wire)) : result (gmap Z node) :=
  match p with
  | None => Ok w
  | Some (dst, x) => match w !! dst with None => Err AssertionFailed | Some n => Ok (<[dst := set_sock n (sock n ++ [x])]> w) end
  end.

(** May this thread call? *)
Definition free_to_call (n : node) (t : nat) : bool :=
  match threads n !! t with Some (User (UIdle | UGot _ _ _)) => true | _ => false end.

(** [None]: the thread waits, or there is no such interrupt, thread or machine. *)
Definition do_act (w : gmap Z node) (a : act) : option (result (gmap Z node * list event)) :=
  match a with
  | Boot addr r users =>
    match w !! addr with None => Some (Ok (<[addr := start addr r users]> w, [])) | Some _ => None end
  | Take addr i =>
    n ← w !! addr; r ← take_interrupt n i; Some (n ← r; Ok (<[addr := n]> w, []))
  | Run addr t random =>
    n ← w !! addr; x ← threads n !! t;
    match x with
    | Worker buf p => r ← PostalDelivery n t buf p; Some (n ← r; Ok (<[addr := n]> w, []))
    | User p =>
      r ← user n t p random;
      Some ('(n, x, e) ← r; w ← SendToSocket (<[addr := n]> w) x; Ok (w, e))
    end
  | CallSend addr t h m d =>
    n ← w !! addr;
    if free_to_call n t
    then Some (Ok (<[addr := set_thread n t (User (USend h m d))]> w, [ECall addr t (sent_message addr h m d)]))
    else None
  | CallReceive addr t box room =>
    n ← w !! addr; if free_to_call n t then Some (Ok (<[addr := set_thread n t (User (UReceive box room))]> w, [])) else None
  end.

(** ** Packets that carry a message *)

Definition mail_to (m : message) : Z := mto m.1.2.

(** A header and bytes that [prepare] may have made. *)
Record carries (h : PacketHeader) (bs : list Z) : Prop := mkCarries {
  c_header : header_ok h;
  c_length : length_ h ≤ Z.of_nat (length bs);
  c_size : length_ h = mlength (mail_of bs) + sizeof_MailHeader;
  c_mlength : 0 ≤ mlength (mail_of bs) ≤ MaxMailSize;
  c_box : 0 ≤ mto (mail_of bs) < nBoxes;
}.

Lemma mail_of_take k bs : (12 ≤ k)%nat → mail_of (take k bs) = mail_of bs.
Proof.
  intros Hk. unfold mail_of, int_at, word_at. rewrite !skipn_firstn_comm, !take_take.
  do 3 (rewrite Nat.min_l by lia). done.
Qed.

(** Only the bytes that the length of the header counts matter. *)
Lemma carries_take h bs bs' :
  carries h bs → length_ h ≤ Z.of_nat (length bs') → take (Z.to_nat (length_ h)) bs' = take (Z.to_nat (length_ h)) bs →
  carries h bs' ∧ open_packet h bs' = open_packet h bs.
Proof.
  intros [H1 H2 H3 H4 H5] Hl Ht. unfold sizeof_MailHeader in *.
  assert (mail_of bs' = mail_of bs) as Hm.
  { rewrite <- (mail_of_take (Z.to_nat (length_ h)) bs), <- (mail_of_take (Z.to_nat (length_ h)) bs') by lia. by rewrite Ht. }
  split; [by split; rewrite ?Hm|]. unfold open_packet. rewrite Hm. f_equal.
  unfold sizeof_MailHeader. rewrite !firstn_skipn_comm.
  replace (Z.to_nat 12 + Z.to_nat (mlength (mail_of bs)))%nat with (Z.to_nat (length_ h)) by lia. by rewrite Ht.
Qed.

Lemma open_packet_wire h bs : carries h bs → open_wire (packet HOST_IS_BIG_ENDIAN uninit h bs) = open_packet h bs.
Proof.
  intros H. unfold open_wire, packet. rewrite packet_roundtrip by apply H. unfold sizeof_PacketHeader.
  rewrite drop_app_length' by by rewrite packet_bytes_length.
  pose proof (c_length _ _ H). pose proof (h_length _ (c_header _ _ H)).
  eapply carries_take; [done|rewrite length_app, length_take; lia|].
  rewrite take_app_le by (rewrite length_take; lia). by rewrite take_take, Nat.min_id.
Qed.

Lemma mail_roundtrip m rest : is_s32 (mto m) → is_s32 (mfrom m) → is_u32 (mlength m) → mail_of (mail_bytes m ++ rest) = m.
Proof.
  intros H1 H2 H3. unfold mail_of, mail_bytes. destruct m as [t f n]; simpl in *. f_equal.
  - rewrite <- !(assoc_L (++)). apply (int_at_int _ []); done.
  - rewrite <- !(assoc_L (++)). apply int_at_int; [by rewrite int_bytes_length|done].
  - rewrite (assoc_L (++)), <- (assoc_L (++) _ _ rest). rewrite word_at_int by by rewrite length_app, !int_bytes_length.
    by apply u32_id.
Qed.

(** The arguments that [Send] accepts. *)
Record send_ok (m : MailHeader) (d : list Z) : Prop := mkSendOk {
  so_to : 0 ≤ mto m < nBoxes;
  so_from : is_s32 (mfrom m);
  so_length : 0 ≤ mlength m ≤ MaxMailSize;
  so_data : mlength m ≤ Z.of_nat (length d);
}.

Context (Hboxes : is_s32 nBoxes).
Context {locks : RealLocks}.

Lemma acquire_eq o t : acquire o t = match sendLock o with None => Some (set_sendLock o (Some t)) | Some _ => None end.
Proof. unfold acquire. by rewrite with_THREADS. Qed.
Lemma release_eq o : release o = set_sendLock o None.
Proof. unfold release. by rewrite with_THREADS. Qed.

Lemma prepare_ok o h m d :
  numBoxes o = nBoxes → is_s32 (to h) → is_s32 (netAddr o) → send_ok m d →
  ∃ h' bs, prepare o h m d = Ok (h', bs) ∧ carries h' bs ∧ from h' = netAddr o ∧ to h' = to h ∧
           open_packet h' bs = sent_message (netAddr o) h m d.
Proof.
  intros Hn Ht Ha [H1 H2 H3 H4]. unfold MaxMailSize, MaxPacketSize, MaxWireSize, sizeof_PacketHeader, sizeof_MailHeader in *.
  unfold prepare. unfold MaxMailSize, MaxPacketSize, MaxWireSize, sizeof_PacketHeader, sizeof_MailHeader. rewrite Hn.
  do 2 (rewrite (proj2 (Z.leb_le _ _)) by lia). rewrite (proj2 (Z.ltb_lt _ _)) by lia. run_ok. cbn [andb]. run_ok.
  assert (length (mail_bytes m) = 12%nat) as Hb by (unfold mail_bytes; by rewrite !length_app, !int_bytes_length).
  rewrite bcopy_start by (rewrite ?Hb, ?buffer_length; lia). run_ok. rewrite (take_ge (mail_bytes m)) by (rewrite Hb; lia).
  rewrite bcopy_ok by (rewrite ?length_app, ?length_drop, ?Hb, ?buffer_length; lia). run_ok.
  rewrite (take_app_length' (mail_bytes m)) by by rewrite Hb. rewrite u32_id by (unfold is_u32; lia).
  do 2 eexists. split; [done|].
  assert (∀ rest, mail_of (mail_bytes m ++ rest) = m) as Hm.
  { intros rest. unfold is_s32 in *. apply mail_roundtrip; unfold is_s32, is_u32 in *; lia. }
  split_and!; [|done|done|].
  - split; rewrite ?Hm; simpl; try done; unfold MaxMailSize, MaxPacketSize, MaxWireSize, sizeof_PacketHeader, sizeof_MailHeader; try lia.
    + split; simpl; try done. unfold MaxPacketSize, MaxWireSize, sizeof_PacketHeader. lia.
    + rewrite !length_app, Hb, length_take. lia.
  - unfold open_packet, sent_message. rewrite Hm. f_equal. unfold sizeof_MailHeader. rewrite drop_app_length' by by rewrite Hb.
    rewrite take_app_le by (rewrite length_take; lia). by rewrite take_take, Nat.min_id.
Qed.

(** A mail in the box [b]. *)
Record mail_ok (b : Z) (m : Mail) : Prop := mkMailOk {
  mo_to : mto (mailHdr m) = b;
  mo_length : 0 ≤ mlength (mailHdr m) ≤ MaxMailSize;
  mo_data : Z.of_nat (length (data m)) = MaxMailSize;
}.

Lemma deliver_ok o buf :
  numBoxes o = nBoxes → carries (inHdr (network o)) (inbox (network o)) → Z.of_nat (length (inbox (network o))) = MaxPacketSize →
  Z.of_nat (length buf) = MaxPacketSize →
  ∃ buf' mail, deliver o buf = Ok (set_network o (set_inHdr (network o) (mkPacket (to (inHdr (network o))) (from (inHdr (network o))) 0)),
                                   buf', WPut (mto (mailHdr mail)) (SynchList.AAcquire mail)) ∧
               Z.of_nat (length buf') = MaxPacketSize ∧ 0 ≤ mto (mailHdr mail) < nBoxes ∧ mail_ok (mto (mailHdr mail)) mail ∧
               message_of mail = open_packet (inHdr (network o)) (inbox (network o)).
Proof.
  intros Hn Hc Hi Hb. unfold deliver. pose proof (h_length _ (c_header _ _ Hc)) as Hlen.
  destruct (Receive_ok (network o) buf Hlen Hi Hb) as (bs & -> & Hbs & Htake). run_ok.
  destruct (carries_take _ _ bs Hc ltac:(lia) Htake) as [[_ C2 C3 C4 C5] Hopen]. rewrite <- Hopen.
  cbn [numBoxes set_network]. rewrite Hn.
  do 2 (rewrite (proj2 (Z.leb_le _ _)) by lia). rewrite (proj2 (Z.ltb_lt _ _)) by lia. run_ok. cbn [andb]. run_ok.
  unfold Put, Mail_new. rewrite (proj2 (Z.leb_le _ _)) by lia. run_ok.
  unfold MaxMailSize, MaxPacketSize, MaxWireSize, sizeof_PacketHeader, sizeof_MailHeader in *.
  rewrite bcopy_start by (rewrite ?length_drop, ?buffer_length; lia). run_ok.
  match goal with |- context [WPut _ (SynchList.AAcquire ?x)] => exists bs, x end. split; [reflexivity|]. cbn [mailHdr].
  split_and!; [done|lia|lia| |].
  - split; cbn [mailHdr data]; [done|unfold MaxMailSize, MaxPacketSize, MaxWireSize, sizeof_PacketHeader, sizeof_MailHeader; lia|].
    rewrite length_app, length_take, !length_drop, buffer_length.
    unfold MaxMailSize, MaxPacketSize, MaxWireSize, sizeof_PacketHeader, sizeof_MailHeader. lia.
  - unfold message_of, open_packet. cbn [mailHdr data pktHdr]. f_equal. unfold sizeof_MailHeader.
    rewrite take_app_le by (rewrite length_take, length_drop; lia). by rewrite take_take, Nat.min_id.
Qed.

Lemma Get_ok b mail room : mail_ok b mail → MaxMailSize ≤ room → Get mail room = Ok (message_of mail).
Proof.
  intros [H1 H2 H3] Hr. unfold Get, message_of.
  unfold MaxMailSize, MaxPacketSize, MaxWireSize, sizeof_PacketHeader, sizeof_MailHeader in *.
  rewrite bcopy_start by (rewrite ?buffer_length; lia). run_ok. rewrite take_app_le by (rewrite length_take; lia).
  by rewrite take_take, Nat.min_id.
Qed.

(** ** The invariant of a machine *)

Definition append_place (p : SynchList.place Mail) : bool :=
  match p with SynchList.AAcquire _ | SynchList.AInsert _ | SynchList.ASignal | SynchList.ARelease => true | _ => false end.
Definition remove_place (p : SynchList.place Mail) : bool :=
  match p with
  | SynchList.RAcquire | SynchList.RTest | SynchList.RWait | SynchList.RWaiting | SynchList.RTake | SynchList.RRelease _ => true
  | _ => false
  end.

(** The mail that a thread has in its hands, and that which is not in the box
    yet. *)
Definition mails (p : SynchList.place Mail) : list Mail :=
  match p with
  | SynchList.AAcquire m | SynchList.AInsert m | SynchList.RRelease m | SynchList.RDone m => [m]
  | _ => []
  end.
Definition unfiled (p : SynchList.place Mail) : list Mail :=
  match p with SynchList.AAcquire m | SynchList.AInsert m => [m] | _ => [] end.

(** Where a thread stands in the box [b]. *)
Definition place_in (b : Z) (x : thread) : SynchList.place Mail :=
  match x with
  | Worker _ (WPut c p) | User (UGet c _ p) => if b =? c then p else SynchList.Idle
  | _ => SynchList.Idle
  end.

Definition is_worker (x : thread) : bool := match x with Worker _ _ => true | User _ => false end.
Definition has_lock (x : thread) : bool :=
  match x with User (UPacket _ _ | USent | UUnlock) => true | _ => false end.
Definition at_sent (x : thread) : bool := match x with User USent => true | _ => false end.
Definition at_receive (x : thread) : bool := match x with Worker _ WReceive => true | _ => false end.
Definition is_done (a : action) : bool :=
  match a with ActSchedule func _ _ _ => func =? NetworkSendDone_addr | _ => false end.

Section machine.
(** The address of the machine, and which machines exist. *)
Context (a : Z) (known : Z → Prop).

Definition user_ok (p : user_at) : Prop :=
  match p with
  | UIdle | USent | UUnlock | UGot _ _ _ => True
  | USend h m d => is_s32 (to h) ∧ known (to h) ∧ send_ok m d
  | ULock h bs | UPacket h bs => carries h bs ∧ from h = a ∧ known (to h)
  | UReceive b room => 0 ≤ b < nBoxes ∧ MaxMailSize ≤ room
  | UGet b room p => 0 ≤ b < nBoxes ∧ MaxMailSize ≤ room ∧ remove_place p = true ∧ Forall (mail_ok b) (mails p)
  end.
Definition worker_ok (p : worker_at) : Prop :=
  match p with
  | WPut b p => 0 ≤ b < nBoxes ∧ append_place p = true ∧ Forall (mail_ok b) (mails p)
  | _ => True
  end.
Definition thread_ok (x : thread) : Prop :=
  match x with
  | Worker buf p => Z.of_nat (length buf) = MaxPacketSize ∧ worker_ok p
  | User p => user_ok p
  end.

Record office_ok (o : PostOffice) : Prop := mkOfficeOk {
  f_ident : ident (network o) = a ∧ netAddr o = a ∧ is_s32 a;
  f_boxes : numBoxes o = nBoxes ∧ length (boxes o) = Z.to_nat nBoxes;
  f_busy : sendBusy (network o) = false;
  f_inbox : Z.of_nat (length (inbox (network o))) = MaxPacketSize;
}.

(** The lock goes with a thread in [Send]; for every thread that waits for its
    packet to go, there is an interrupt to come or one that came. *)
Record sending (lk : option nat) (sent : Z) (pend : list action) (ths : list thread) : Prop := mkSending {
  s_lock t : lk = Some t ↔ ∃ x, ths !! t = Some x ∧ has_lock x = true;
  s_sent : 0 ≤ sent ∧ sent + Z.of_nat (number is_done pend) = Z.of_nat (number at_sent ths);
  s_poll : poll NetworkReadPoll_addr network_addr ∈ pend;
  s_pending : Forall (λ x, x = poll NetworkReadPoll_addr network_addr ∨ x = send_done NetworkSendDone_addr network_addr) pend;
}.

(** The worker is told of a packet once. *)
Record receiving (avail : Z) (net : Network) (s : list wire) (ths : list thread) : Prop := mkReceiving {
  r_avail : 0 ≤ avail ∧ avail + Z.of_nat (number at_receive ths) = (if buffered net then 1 else 0);
  r_buffered : buffered net = true → carries (inHdr net) (inbox net);
  r_sock : Forall (λ w, ∃ h bs, w = packet HOST_IS_BIG_ENDIAN uninit h bs ∧ to h = a ∧ carries h bs) s;
}.

Definition boxes_ok (bxs : list (SynchList.SynchList Mail)) (ths : list thread) : Prop :=
  ∀ b l, 0 ≤ b → bxs !! Z.to_nat b = Some l → SynchList.Inv l (place_in b <$> ths) ∧ Forall (mail_ok b) (SynchList.list_ l).

Record NInv (n : node) : Prop := mkNInv {
  n_office : office_ok (office n);
  n_threads : (is_worker <$> threads n) = true :: replicate (pred (length (threads n))) false;
  n_ok t x : threads n !! t = Some x → thread_ok x;
  n_sending : sending (sendLock (office n)) (messageSent (office n)) (pending n) (threads n);
  n_receiving : receiving (messageAvailable (office n)) (network (office n)) (sock n) (threads n);
  n_boxes : boxes_ok (boxes (office n)) (threads n);
}.

(** *** Threads that change their place *)

Lemma fmap_same {A B} (f : A → B) (l : list A) t x x' : l !! t = Some x → f x' = f x → f <$> <[t := x']> l = f <$> l.
Proof.
  intros Hx Hf. rewrite list_fmap_insert, Hf. apply list_insert_id. by rewrite list_lookup_fmap, Hx.
Qed.

Lemma sending_same lk sent pend ths t x x' :
  ths !! t = Some x → has_lock x' = has_lock x → at_sent x' = at_sent x → sending lk sent pend ths → sending lk sent pend (<[t := x']> ths).
Proof.
  intros Hx Hl Hs [S1 S2 S3 S4]. pose proof (number_insert at_sent ths t x x' Hx) as Hn. rewrite Hs in Hn.
  split; [|lia|done|done]. intros u. rewrite S1. destruct (decide (u = t)) as [->|Hne].
  - rewrite list_lookup_insert_eq by (by eapply lookup_lt_Some). rewrite Hx.
    split; intros (y & [= <-] & Hy); eexists; (split; [done|congruence]).
  - by rewrite list_lookup_insert_ne by done.
Qed.

Lemma receiving_same avail net s ths t x x' :
  ths !! t = Some x → at_receive x' = at_receive x → receiving avail net s ths → receiving avail net s (<[t := x']> ths).
Proof.
  intros Hx Hr [R1 R2 R3]. pose proof (number_insert at_receive ths t x x' Hx) as Hn. rewrite Hr in Hn. split; [lia|done|done].
Qed.

(** A thread that is outside all boxes before and after. *)
Lemma boxes_outside bxs ths t x x' :
  ths !! t = Some x → (∀ b, SynchList.outside (place_in b x) = true) → (∀ b, SynchList.outside (place_in b x') = true) →
  boxes_ok bxs ths → boxes_ok bxs (<[t := x']> ths).
Proof.
  intros Hx Ho Ho' H b l Hb Hl. destruct (H b l Hb Hl) as [HI HF]. split; [|done].
  rewrite list_fmap_insert. eapply SynchList.Inv_outside; [done|by rewrite list_lookup_fmap, Hx|done|done].
Qed.

(** The mail in a box is moved by the thread that stands in it. *)
Lemma step_mails b l t p l' p' :
  SynchList.steps l t p l' p' → append_place p = true ∨ remove_place p = true →
  Forall (mail_ok b) (SynchList.list_ l) → Forall (mail_ok b) (mails p) →
  Forall (mail_ok b) (SynchList.list_ l') ∧ Forall (mail_ok b) (mails p') ∧
  (append_place p = true → append_place p' = true ∨ p' = SynchList.Idle) ∧
  (remove_place p = true → remove_place p' = true ∨ ∃ m, p = SynchList.RRelease m ∧ p' = SynchList.RDone m) ∧
  SynchList.list_ l ++ unfiled p =
    (match p, p' with SynchList.RTake, SynchList.RRelease m => [m] | _, _ => [] end) ++ SynchList.list_ l' ++ unfiled p'.
Proof.
  intros H Hp HF HM. destruct H as [p p' _ H|p p' H|item| | | | |item rest E|func]; simpl in *; try (split_and!; auto; done).
  - destruct H as [(? & -> & ->)|[[-> ->]|[(-> & _ & ->)|(? & -> & ->)]]]; simpl in *; split_and!; auto; destruct Hp; done.
  - destruct H as [[-> ->]|[(? & -> & ->)|[-> ->]]]; simpl in *; split_and!; auto; try (destruct Hp; done). intros _. right. eauto.
  - split_and!; auto. { by apply Forall_app. } by rewrite app_nil_r.
  - rewrite E in HF. apply Forall_cons in HF as [? ?]. rewrite E, !app_nil_r. split_and!; auto.
Qed.

Lemma box_step_ok o ths b t p r :
  boxes_ok (boxes o) ths → 0 ≤ b < nBoxes → length (boxes o) = Z.to_nat nBoxes →
  (place_in b <$> ths) !! t = Some p → append_place p = true ∨ remove_place p = true → Forall (mail_ok b) (mails p) →
  box_step o b t p = Some r →
  ∃ l l' p', boxes o !! Z.to_nat b = Some l ∧ r = Ok (set_boxes o (<[Z.to_nat b := l']> (boxes o)), p') ∧
             SynchList.steps l t p l' p' ∧ SynchList.Inv l' (<[t := p']> (place_in b <$> ths)) ∧ Forall (mail_ok b) (SynchList.list_ l) ∧
             Forall (mail_ok b) (SynchList.list_ l').
Proof.
  intros H Hb Hlen Hp Hap HM Hs. unfold box_step in Hs.
  destruct (aget_ok (boxes o) b) as (l & Hl & Hg); [lia|]. rewrite Hg in Hs.
  destruct (H b l ltac:(lia) Hl) as [HI HF]. destruct (SynchList.step l t p) as [[[l' p']|e]|] eqn:Es; simplify_eq/=.
  - pose proof (SynchList.step_inv _ _ _ _ _ Es) as Hst. rewrite aset_ok by lia. simpl. exists l, l', p'.
    split_and!; try done; [by eapply SynchList.Inv_step|]. by eapply step_mails.
  - apply (SynchList.step_safe _ _ _ _ e HI Hp) in Es as (_ & _ & m & _ & Hm). discriminate Hm.
Qed.

(** The other boxes do not see it. *)
Lemma boxes_step bxs ths t b x x' l' :
  boxes_ok bxs ths → ths !! t = Some x → 0 ≤ b →
  (∀ c, c ≠ b → place_in c x = SynchList.Idle ∧ place_in c x' = SynchList.Idle) →
  SynchList.Inv l' (<[t := place_in b x']> (place_in b <$> ths)) → Forall (mail_ok b) (SynchList.list_ l') →
  boxes_ok (<[Z.to_nat b := l']> bxs) (<[t := x']> ths).
Proof.
  intros H Hx Hb Ho HI HF c l Hc Hl. destruct (decide (c = b)) as [->|Hne].
  - apply lookup_insert_cases in Hl as [[_ ->]|[? _]]; [|done]. by rewrite list_fmap_insert.
  - rewrite list_lookup_insert_ne in Hl by lia. destruct (Ho c Hne) as [E1 E2].
    rewrite (fmap_same _ _ _ _ _ Hx) by congruence. by apply H.
Qed.

(** ** Where the messages are *)

Definition box_messages (n : node) (b : Z) : list message :=
  match boxes (office n) !! Z.to_nat b with Some l => message_of <$> SynchList.list_ l | None => [] end.

(** What the worker carries, what is in the device, and what is in the socket. *)
Definition carried (x : thread) : list message :=
  match x with Worker _ (WPut _ p) => message_of <$> unfiled p | _ => [] end.
Definition arrived (net : Network) : list message :=
  if buffered net then [open_packet (inHdr net) (inbox net)] else [].
Definition under_way (n : node) : list message :=
  mjoin (carried <$> threads n) ++ arrived (network (office n)) ++ (open_wire <$> sock n).

(** In the order in which the box [b] gives them out. *)
Definition in_transit (n : node) (b : Z) : list message :=
  box_messages n b ++ filter (λ m, mail_to m = b) (under_way n).

(** ** The steps of one machine *)

Lemma worker_first n t buf p : NInv n → threads n !! t = Some (Worker buf p) → t = 0%nat.
Proof.
  intros V Ht. destruct t as [|t]; [done|]. pose proof (n_threads _ V) as H.
  assert ((is_worker <$> threads n) !! S t = Some true) as E by (by rewrite list_lookup_fmap, Ht).
  rewrite H in E. simpl in E. by apply lookup_replicate in E as [? _].
Qed.

(** Users carry nothing. *)
Lemma carried_all n x :
  (is_worker <$> threads n) = true :: replicate (pred (length (threads n))) false →
  mjoin (carried <$> <[0%nat := x]> (threads n)) = carried x.
Proof.
  destruct (threads n) as [|y l]; [done|]. intros H. injection H as _ Hl.
  assert (mjoin (carried <$> l) = []) as E; [|cbn; etrans; [|apply app_nil_r]; f_equal; exact E]. clear -Hl.
  induction l as [|y l IH]; [done|]. injection Hl as H1 H2.
  change (carried y ++ mjoin (carried <$> l) = []). rewrite (IH H2). by destruct y.
Qed.

Lemma carried_worker n x : NInv n → threads n !! 0%nat = Some x → mjoin (carried <$> threads n) = carried x.
Proof. intros V H0. rewrite <- (carried_all n x (n_threads _ V)). by rewrite list_insert_id. Qed.

(** One thread goes from [x] to [x'], and the office, the interrupts and the
    socket change. *)
Lemma NInv_go n n' t x x' :
  NInv n → threads n !! t = Some x → threads n' = <[t := x']> (threads n) → is_worker x' = is_worker x → thread_ok x' →
  office_ok (office n') → sending (sendLock (office n')) (messageSent (office n')) (pending n') (threads n') →
  receiving (messageAvailable (office n')) (network (office n')) (sock n') (threads n') → boxes_ok (boxes (office n')) (threads n') →
  NInv n'.
Proof.
  intros [V1 V2 V3 V4 V5 V6] Hx E Hw Hok Ho Hs Hr Hb. split; try done.
  - rewrite E, length_insert, (fmap_same _ _ _ _ _ Hx) by done. done.
  - intros u y Hy. rewrite E in Hy. apply lookup_insert_cases in Hy as [[_ ->]|[_ Hy]]; [done|by eapply V3].
Qed.

(** Nothing moves when boxes, device and socket stay, and the thread carries what
    it carried. *)
Lemma in_transit_same n n' t x x' :
  threads n !! t = Some x → threads n' = <[t := x']> (threads n) → carried x' = carried x →
  boxes (office n') = boxes (office n) → network (office n') = network (office n) → sock n' = sock n →
  ∀ b, in_transit n' b = in_transit n b.
Proof.
  intros Hx E Hc H1 H2 H3 b. unfold in_transit, box_messages, under_way. rewrite H1, H2, H3, E. by rewrite (fmap_same _ _ _ _ _ Hx).
Qed.

(** A thread in a box moves; [got] is what it takes out. *)
Lemma in_transit_box n n' t x x' b l l' p p' got :
  threads n !! t = Some x → threads n' = <[t := x']> (threads n) → network (office n') = network (office n) → sock n' = sock n →
  0 ≤ b → boxes (office n) !! Z.to_nat b = Some l → boxes (office n') = <[Z.to_nat b := l']> (boxes (office n)) →
  SynchList.list_ l ++ unfiled p = got ++ SynchList.list_ l' ++ unfiled p' →
  Forall (mail_ok b) (mails p) →
  (mjoin (carried <$> threads n) = message_of <$> unfiled p ∧ mjoin (carried <$> threads n') = message_of <$> unfiled p' ∧
     Forall (mail_ok b) (unfiled p')) ∨
  (unfiled p = [] ∧ unfiled p' = [] ∧ carried x' = carried x) →
  ∀ c, 0 ≤ c → in_transit n c = (if decide (c = b) then message_of <$> got else []) ++ in_transit n' c.
Proof.
  intros Hx E H2 H3 Hb Hl HB Hmove HM Hc c Hc0. unfold in_transit, box_messages, under_way. rewrite H2, H3, HB.
  assert (∀ k, Forall (mail_ok b) k → filter (λ m, mail_to m = c) (message_of <$> k) = if decide (c = b) then message_of <$> k else []) as Hf.
  { induction 1 as [|m k Hm _ IH]; [by case_decide|]. rewrite fmap_cons, filter_cons.
    replace (mail_to (message_of m)) with b by (symmetry; apply Hm). rewrite IH. repeat case_decide; congruence. }
  assert (Forall (mail_ok b) (unfiled p)) as HU by (destruct p; simpl in *; auto).
  destruct (decide (c = b)) as [->|Hne].
  - rewrite Hl, list_lookup_insert_eq by (by eapply lookup_lt_Some).
    destruct Hc as [(-> & -> & HU')|(E1 & E2 & E3)].
    + rewrite !filter_app, !(assoc_L (++)). do 2 f_equal. rewrite !Hf by done.
      rewrite <- !fmap_app, Hmove, !fmap_app. by rewrite (assoc_L (++)).
    + rewrite E1, E2, !app_nil_r in Hmove. rewrite Hmove, fmap_app, <- (assoc_L (++)). do 3 f_equal.
      rewrite E, (fmap_same _ _ _ _ _ Hx) by done. done.
  - rewrite list_lookup_insert_ne by lia. simpl. f_equal. rewrite !filter_app. f_equal.
    destruct Hc as [(-> & -> & HU')|(E1 & E2 & E3)].
    + by rewrite !Hf.
    + rewrite E, (fmap_same _ _ _ _ _ Hx) by done. done.
Qed.

(** *** The postal worker *)

Lemma PostalDelivery_ok n t buf p r :
  NInv n → threads n !! t = Some (Worker buf p) → PostalDelivery n t buf p = Some r →
  ∃ n', r = Ok n' ∧ NInv n' ∧ (∀ b, 0 ≤ b → in_transit n b = in_transit n' b) ∧
        ∀ u q, threads n' !! u = Some (User q) → threads n !! u = Some (User q).
Proof.
  intros V Hx Hr. pose proof (worker_first _ _ _ _ V Hx) as ->. pose proof V as [V1 V2 V3 V4 V5 V6].
  pose proof V5 as [R1 R2 R3]. pose proof (V3 _ _ Hx) as [Hbuf Hok].
  destruct p as [| |box p]; simpl in Hr.
  - unfold P in Hr. rewrite Z.gtb_ltb in Hr. destruct (Z.ltb_spec 0 (messageAvailable (office n))); simplify_eq/=.
    pose proof (number_insert at_receive _ _ _ (Worker buf WReceive) Hx) as Hn. simpl in Hn.
    eexists. split; [done|]. split_and!; [| |intros u q [[_ ?]|[_ ?]]%lookup_insert_cases; done].
    + eapply (NInv_go n _ 0 _ (Worker buf WReceive) V Hx); try done; simpl.
      * by destruct V1.
      * by eapply sending_same.
      * split; [lia|done|done].
      * by eapply boxes_outside.
    + intros b _. symmetry. by eapply in_transit_same.
  - assert (buffered (network (office n)) = true) as Hbuffered.
    { pose proof (number_some at_receive _ _ _ Hx eq_refl). destruct (buffered _); [done|lia]. }
    destruct (deliver_ok (office n) buf (proj1 (f_boxes _ V1)) (R2 Hbuffered) (f_inbox _ V1) Hbuf)
      as (buf' & mail & Hd & Hl & Hto & Hmail & Hmsg). rewrite Hd in Hr. simplify_eq/=.
    set (x' := Worker buf' (WPut (mto (mailHdr mail)) (SynchList.AAcquire mail))).
    pose proof (number_insert at_receive _ _ _ x' Hx) as Hn. simpl in Hn. eexists. split; [done|]. split_and!; [| |intros u q [[_ ?]|[_ ?]]%lookup_insert_cases; done].
    + eapply (NInv_go n _ 0 _ x' V Hx); try done; simpl.
      * split; [done|]. split_and!; [lia|lia|done|]. by apply Forall_singleton.
      * destruct V1. by split.
      * by eapply sending_same.
      * split; [|done|done]. rewrite Hbuffered in R1. unfold buffered; simpl. lia.
      * eapply boxes_outside; [done|done| |done]. intros b. unfold x'. cbn [place_in]. by destruct (b =? _).
    + intros b Hb. unfold in_transit, box_messages, under_way. cbn [office set_office set_thread boxes set_network threads sock network].
      f_equal. f_equal. rewrite (carried_worker _ _ V Hx), (carried_all n x' V2). unfold arrived at 1. by rewrite Hbuffered, <- Hmsg.
  - destruct Hok as (Hbox & Hap & HM). destruct (box_step (office n) box 0 p) as [r'|] eqn:Hs; simplify_eq/=.
    assert ((place_in box <$> threads n) !! 0%nat = Some p) as Hp by (rewrite list_lookup_fmap, Hx; simpl; by rewrite Z.eqb_refl).
    destruct (box_step_ok _ _ _ _ _ _ V6 Hbox (proj2 (f_boxes _ V1)) Hp (or_introl Hap) HM Hs)
      as (l & l' & p' & Hl & -> & Hst & HI & HF & HF'). simpl.
    destruct (step_mails box _ _ _ _ _ Hst (or_introl Hap) HF HM) as (_ & HM' & Hap' & _ & Hmove). specialize (Hap' Hap).
    set (x' := Worker buf (match p' with SynchList.Idle => WWait | _ => WPut box p' end)).
    assert (place_in box x' = p' ∧ (∀ c, c ≠ box → place_in c x' = SynchList.Idle) ∧ worker_ok (match p' with SynchList.Idle => WWait | _ => WPut box p' end) ∧
            at_receive x' = false ∧ carried x' = message_of <$> unfiled p') as (Q1 & Q2 & Q3 & Q4 & Q5).
    { destruct Hap' as [Hap'| ->]; [|by split_and!]. assert (p' ≠ SynchList.Idle) by (by destruct p').
      assert (x' = Worker buf (WPut box p')) as -> by (unfold x'; by destruct p').
      assert (match p' with SynchList.Idle => WWait | _ => WPut box p' end = WPut box p') as -> by (by destruct p').
      simpl. rewrite Z.eqb_refl. split_and!; try done; try lia. intros c Hc. by destruct (Z.eqb_spec c box). }
    eexists. split; [done|]. split_and!; [| |intros u q [[_ ?]|[_ ?]]%lookup_insert_cases; done].
    + eapply (NInv_go n _ 0 _ x' V Hx); try done; simpl.
      * destruct V1 as [W1 [W2 W2'] W3 W4]. split; simpl; try done. by rewrite length_insert.
      * by eapply sending_same.
      * by eapply receiving_same.
      * eapply boxes_step; [done|done|lia| |by rewrite Q1|done]. intros c Hc. split; [|by apply Q2]. simpl. by destruct (Z.eqb_spec c box).
    + intros b Hb. assert (SynchList.list_ l ++ unfiled p = [] ++ SynchList.list_ l' ++ unfiled p') as Hmove' by (rewrite Hmove; by destruct p).
      rewrite (in_transit_box n (set_thread (set_office n (set_boxes (office n) (<[Z.to_nat box := l']> (boxes (office n))))) 0 x')
                 0 _ x' box l l' p p' [] Hx eq_refl eq_refl eq_refl ltac:(lia) Hl eq_refl Hmove' HM); [by case_decide| |done].
      left. split; [by apply (carried_worker _ _ V) in Hx|]. split; [|by destruct p'].
      cbn [threads set_office set_thread]. by rewrite (carried_all n x' V2).
Qed.

(** *** The threads that send and receive *)

(** What the events say of the box [b] of the machine [addr]. *)
Definition got_from (addr b : Z) (tr : list event) : list message :=
  omap (λ e, match e with EGot x _ y m => if decide (x = addr ∧ y = b) then Some m else None | _ => None end) tr.
Definition sent_to (addr b : Z) (tr : list event) : list message :=
  omap (λ e, match e with ESent _ _ x m => if decide (x = addr ∧ mail_to m = b) then Some m else None | _ => None end) tr.

(** Messages that were given to [Send], given to the network, and taken out. *)
Definition called (tr : list event) : list message := omap (λ e, match e with ECall _ _ m => Some m | _ => None end) tr.
Definition handed (tr : list event) : list message :=
  omap (λ e, match e with ESent _ _ _ m | ELost _ _ m => Some m | _ => None end) tr.
Definition taken (tr : list event) : list message := omap (λ e, match e with EGot _ _ _ m => Some m | _ => None end) tr.

(** The message that a thread is about to send, and the one it received last. *)
Definition in_hand (p : user_at) : list message :=
  match p with
  | USend h m d => [sent_message a h m d]
  | ULock h bs | UPacket h bs => [open_packet h bs]
  | _ => []
  end.
Definition received (p : user_at) : option message :=
  match p with
  | UGet _ _ (SynchList.RRelease mail) => Some (message_of mail)
  | UGot h m d => Some (h, m, d)
  | _ => None
  end.

Definition goes (p p' : user_at) (e : list event) : Prop :=
  in_hand p = handed e ++ in_hand p' ∧ called e = [] ∧
  ∀ m, received p' = Some m → last (taken e) = Some m ∨ taken e = [] ∧ received p = Some m.

(** What a step hands to the network. *)
Definition hands (t : nat) (x : option (Z * wire)) (e : list event) : Prop :=
  match x with
  | None => ∀ addr b, sent_to addr b e = []
  | Some (dst, w) => known dst ∧ ∃ h bs, w = packet HOST_IS_BIG_ENDIAN uninit h bs ∧ carries h bs ∧ to h = dst ∧ e = [ESent a t dst (open_packet h bs)]
  end.

(** The result of a step of a user thread. *)
Definition user_result (n : node) (t : nat) (p : user_at) (r : result (node * option (Z * wire) * list event)) : Prop :=
  ∃ n' x e p', r = Ok (n', x, e) ∧ NInv n' ∧ threads n' = <[t := User p']> (threads n) ∧
    (∀ b, 0 ≤ b → in_transit n b = got_from a b e ++ in_transit n' b) ∧
    hands t x e ∧ Forall (λ y, actor y = (a, t)) e ∧ goes p p' e.

(** A step that touches neither boxes nor device. *)
Lemma user_moves n n' t p p' :
  NInv n → threads n !! t = Some (User p) → threads n' = <[t := User p']> (threads n) →
  (∀ b, SynchList.outside (place_in b (User p)) = true) → (∀ b, SynchList.outside (place_in b (User p')) = true) → user_ok p' →
  boxes (office n') = boxes (office n) → network (office n') = network (office n) → sock n' = sock n →
  netAddr (office n') = netAddr (office n) → numBoxes (office n') = numBoxes (office n) →
  messageAvailable (office n') = messageAvailable (office n) →
  sending (sendLock (office n')) (messageSent (office n')) (pending n') (threads n') →
  NInv n' ∧ ∀ b, in_transit n' b = in_transit n b.
Proof.
  intros V Hx E Ho Ho' Hok E1 E2 E3 E4 E5 E6 Hs. pose proof V as [V1 _ _ _ V5 V6]. split.
  - eapply (NInv_go n n' t _ (User p')); try done.
    + destruct V1. split; rewrite ?E1, ?E2, ?E4, ?E5; done.
    + rewrite E2, E3, E6, E. by eapply receiving_same.
    + rewrite E1, E. by eapply boxes_outside.
  - by eapply in_transit_same.
Qed.

(** Taking or giving back the lock. *)
Lemma sending_lock lk lk' sent sent' pend pend' ths t x x' :
  sending lk sent pend ths → ths !! t = Some x →
  (lk = None ∧ lk' = Some t ∧ has_lock x' = true) ∨ (lk' = None ∧ has_lock x = true ∧ has_lock x' = false) ∨ (lk' = lk ∧ has_lock x' = has_lock x) →
  0 ≤ sent' → sent' + Z.of_nat (number is_done pend') - (sent + Z.of_nat (number is_done pend)) =
    (if at_sent x' then 1 else 0) - (if at_sent x then 1 else 0) →
  poll NetworkReadPoll_addr network_addr ∈ pend' →
  Forall (λ x, x = poll NetworkReadPoll_addr network_addr ∨ x = send_done NetworkSendDone_addr network_addr) pend' →
  sending lk' sent' pend' (<[t := x']> ths).
Proof.
  intros [S1 S2 S3 S4] Hx Hlk Hs0 Hs Hp Hf. pose proof (number_insert at_sent ths t x x' Hx) as Hn. split; try done.
  - intros u. assert (has_lock x = true → lk = Some t) as Hown by (intros; apply S1; eauto).
    destruct (decide (u = t)) as [->|Hne].
    + rewrite list_lookup_insert_eq by (by eapply lookup_lt_Some). destruct Hlk as [(E1 & E2 & E3)|[(E1 & E2 & E3)|(E1 & E2)]].
      * rewrite E2. split; [by eauto|done].
      * rewrite E1. split; [done|]. intros (y & [= <-] & Hy). congruence.
      * rewrite E1, S1, Hx. split; intros (y & [= <-] & Hy); eexists; (split; [done|congruence]).
    + rewrite list_lookup_insert_ne by done. rewrite <- S1. destruct Hlk as [(E1 & E2 & E3)|[(E1 & E2 & E3)|(E1 & E2)]].
      * rewrite E1, E2. split; [by intros [= ->]|done].
      * rewrite E1, (Hown E2). split; [done|by intros [= ->]].
      * by rewrite E1.
  - destruct (at_sent x), (at_sent x'); lia.
Qed.

(** A thread in [Remove] of a box moves to the place [p'], or returns. *)
Lemma get_moves n t box room p l l' p' x' :
  NInv n → threads n !! t = Some (User (UGet box room p)) → remove_place p = true → Forall (mail_ok box) (mails p) → 0 ≤ box →
  boxes (office n) !! Z.to_nat box = Some l → SynchList.steps l t p l' p' → Forall (mail_ok box) (SynchList.list_ l) →
  SynchList.Inv l' (<[t := place_in box (User x')]> (place_in box <$> threads n)) → Forall (mail_ok box) (SynchList.list_ l') →
  user_ok x' → has_lock (User x') = false → (∀ c, c ≠ box → place_in c (User x') = SynchList.Idle) →
  let n' := set_thread (set_office n (set_boxes (office n) (<[Z.to_nat box := l']> (boxes (office n))))) t (User x') in
  let got := match p, p' with SynchList.RTake, SynchList.RRelease m => [m] | _, _ => [] end in
  NInv n' ∧ ∀ c, 0 ≤ c → in_transit n c = (if decide (c = box) then message_of <$> got else []) ++ in_transit n' c.
Proof.
  intros V Hx Hre HM Hb Hl Hst HF HI HF' Hok Hlk Hpl n' got. pose proof V as [V1 V2 V3 V4 V5 V6].
  destruct (step_mails box _ _ _ _ _ Hst (or_intror Hre) HF HM) as (_ & HM' & _ & Hre' & Hmove). specialize (Hre' Hre).
  assert (at_sent (User x') = false) as Has by (by destruct x'). split.
  - eapply (NInv_go n n' t _ (User x') V Hx); try done; simpl.
    + destruct V1 as [W1 [W2 W2'] W3 W4]. split; simpl; try done. by rewrite length_insert.
    + by eapply sending_same.
    + by eapply receiving_same.
    + eapply boxes_step; try done. intros c Hc. split; [|by apply Hpl]. simpl. by destruct (Z.eqb_spec c box).
  - apply (in_transit_box n n' t _ (User x') box l l' p p' got Hx eq_refl eq_refl eq_refl Hb Hl eq_refl Hmove HM).
    right. split_and!; [by destruct p| |by destruct x']. by destruct Hre' as [?|(? & -> & ->)]; [destruct p'|].
Qed.

Lemma get_step_ok n t box room p r' :
  NInv n → threads n !! t = Some (User (UGet box room p)) → box_step (office n) box t p = Some r' →
  user_result n t (UGet box room p) ('(o, p') ← r';
          let n := set_office n o in
          match p' with
          | SynchList.RRelease mail => Ok (set_thread n t (User (UGet box room p')), None, [EGot (netAddr o) t box (message_of mail)])
          | SynchList.RDone mail =>
            '(h, m, d) ← Get mail room;
            _ ← ASSERT (mlength m <=? MaxMailSize);
            Ok (set_thread n t (User (UGot h m d)), None, [])
          | _ => Ok (set_thread n t (User (UGet box room p')), None, [])
          end).
Proof.
  intros V Hx Hs. pose proof V as [V1 V2 V3 V4 V5 V6]. pose proof (V3 _ _ Hx) as Hok. simpl in Hok.
  destruct Hok as (K1 & K2 & K3 & K4).
  assert ((place_in box <$> threads n) !! t = Some p) as Hp by (rewrite list_lookup_fmap, Hx; simpl; by rewrite Z.eqb_refl).
  destruct (box_step_ok _ _ _ _ _ _ V6 K1 (proj2 (f_boxes _ V1)) Hp (or_intror K3) K4 Hs)
    as (l & l' & p' & Hl & -> & Hst & HI & HF & HF').
  destruct (step_mails box _ _ _ _ _ Hst (or_intror K3) HF K4) as (_ & HM' & _ & Hre & _). specialize (Hre K3).
  cbn [mbind result_bind]. destruct Hre as [Hre|(mail & -> & ->)].
  - destruct (get_moves n t box room p l l' p' (UGet box room p') V Hx K3 K4 ltac:(lia) Hl Hst HF) as [HN HT]; try done.
    + simpl. by rewrite Z.eqb_refl.
    + intros c Hc. simpl. by destruct (Z.eqb_spec c box).
    + destruct (f_ident _ V1) as (I1 & I2 & _).
      assert ((∃ m, p = SynchList.RTake ∧ p' = SynchList.RRelease m) ∨ (∀ m, p' ≠ SynchList.RRelease m)) as [(m & -> & ->)|Hno].
      { inversion Hst; subst; eauto; naive_solver. }
      * do 4 eexists. split_and!; [reflexivity|exact HN|reflexivity| |done| |split; [done|split; [done|]]].
        -- intros b Hb. rewrite (HT b Hb). simpl. rewrite I2. repeat case_decide; naive_solver.
        -- apply Forall_singleton. simpl. by rewrite I2.
        -- intros m' [= <-]. by left.
      * exists (set_thread (set_office n (set_boxes (office n) (<[Z.to_nat box := l']> (boxes (office n))))) t (User (UGet box room p'))), None, [], (UGet box room p').
        split_and!; [by destruct p'; try done; destruct (Hno item)|exact HN|done| |done|done|split; [done|split; [done|]]].
        -- intros b Hb. rewrite (HT b Hb). destruct p, p'; try (by destruct (decide (b = box))). by destruct (Hno item).
        -- simpl. intros m Hm. destruct p'; try done. by destruct (Hno item).
  - cbn [mails] in HM'. rewrite Forall_singleton in HM'.
    rewrite (Get_ok box mail room HM' K2). unfold message_of at 1. cbn [mbind result_bind].
    rewrite (proj2 (Z.leb_le _ _)) by apply HM'. run_ok.
    destruct (get_moves n t box room (SynchList.RRelease mail) l l' (SynchList.RDone mail)
                (UGot (pktHdr mail) (mailHdr mail) (take (Z.to_nat (mlength (mailHdr mail))) (data mail)))
                V Hx K3 K4 ltac:(lia) Hl Hst HF) as [HN HT]; try done.
    + pose proof (SynchList.Inv_outside l' _ t (SynchList.RDone mail) SynchList.Idle HI) as H. rewrite list_insert_insert_eq in H.
      apply H; try done. apply list_lookup_insert_eq. rewrite length_fmap. by eapply lookup_lt_Some.
    + do 4 eexists. split_and!; [reflexivity|exact HN|reflexivity| |done|done|split; [done|split; [done|by right]]].
      intros b Hb. rewrite (HT b Hb). by case_decide.
Qed.

Lemma user_step_ok n t p random r :
  NInv n → threads n !! t = Some (User p) → user n t p random = Some r → user_result n t p r.
Proof.
  intros V Hx Hr. pose proof V as [V1 V2 V3 V4 V5 V6]. pose proof (V3 _ _ Hx) as Hok. simpl in Hok.
  pose proof V4 as [S1 S2 S3 S4]. destruct (f_ident _ V1) as (I1 & I2 & I3).
  (* the quiet steps *)
  assert (∀ n' p', threads n' = <[t := User p']> (threads n) → (∀ b, SynchList.outside (place_in b (User p)) = true) →
            (∀ b, SynchList.outside (place_in b (User p')) = true) → user_ok p' →
            boxes (office n') = boxes (office n) → network (office n') = network (office n) → sock n' = sock n →
            netAddr (office n') = netAddr (office n) → numBoxes (office n') = numBoxes (office n) →
            messageAvailable (office n') = messageAvailable (office n) →
            sending (sendLock (office n')) (messageSent (office n')) (pending n') (threads n') →
            ∀ x e, (∀ b, got_from a b e = []) → hands t x e → Forall (λ y, actor y = (a, t)) e → goes p p' e → user_result n t p (Ok (n', x, e))) as Hquiet.
  { intros n' p' E Ho Ho' Hp' E1 E2 E3 E4 E5 E6 Hs x e Hg Hh Ha Hgo.
    destruct (user_moves n n' t p p' V Hx E Ho Ho' Hp' E1 E2 E3 E4 E5 E6 Hs) as [HN HT].
    exists n', x, e, p'. split_and!; try done. intros b _. by rewrite Hg, HT. }
  destruct p as [|h m d|h bs|h bs| | |box room|box room p|h m d]; simpl in Hr; try done.
  - (* USend *) destruct Hok as (K1 & K2 & K3). destruct (f_boxes _ V1) as [B1 B2]. rewrite <- I2 in I3.
    destruct (prepare_ok (office n) h m d B1 K1 I3 K3) as (h' & bs & Hp & Hc & Hf & Ht & Hopen).
    rewrite Hp in Hr. simplify_eq/=. eapply (Hquiet _ (ULock h' bs)); try done; simpl.
    + split_and!; [done|congruence|by rewrite Ht].
    + by eapply sending_same.
    + split; [|done]. simpl. rewrite Hopen. by rewrite I2.
  - (* ULock *) rewrite acquire_eq in Hr. destruct (sendLock (office n)) eqn:El; simplify_eq/=.
    eapply (Hquiet _ (UPacket h bs)); try done; simpl. eapply sending_lock; try done; [by left|lia|simpl; lia].
  - (* UPacket *) destruct Hok as (K1 & K2 & K3).
    rewrite (Send_ok _ _ _ _ _ h bs random (f_busy _ V1)) in Hr; [|congruence|apply K1|apply K1]. simpl in Hr.
    assert (sending (sendLock (office n)) (messageSent (office n)) (pending n ++ [send_done NetworkSendDone_addr network_addr]) (<[t := User USent]> (threads n))) as Hs.
    { eapply sending_lock; [done|done|by auto|lia| | |].
      - rewrite number_app. unfold send_done. rewrite number_cons. simpl. rewrite Z.eqb_refl. unfold number; simpl. lia.
      - apply elem_of_app. by left.
      - apply Forall_app. split; [done|]. apply Forall_singleton. by right. }
    destruct (loses (network (office n)) random); simplify_eq/=; eapply (Hquiet _ USent); try done; rewrite I2;
      try (by apply Forall_singleton). simpl. split; [done|]. by exists h, bs.
  - (* USent *) unfold P in Hr. rewrite Z.gtb_ltb in Hr. destruct (Z.ltb_spec 0 (messageSent (office n))); simplify_eq/=.
    eapply (Hquiet _ UUnlock); try done; simpl. eapply sending_lock; try done; [by auto|lia|simpl; lia].
  - (* UUnlock *) rewrite release_eq in Hr. simplify_eq/=. eapply (Hquiet _ UIdle); try done; simpl. eapply sending_lock; try done; [by auto|lia|simpl; lia].
  - (* UReceive *) destruct Hok as [K1 K2]. rewrite (proj1 (f_boxes _ V1)) in Hr.
    rewrite (proj2 (Z.ltb_lt _ _)), (proj2 (Z.geb_le _ _)) in Hr by lia. simplify_eq/=.
    eapply (Hquiet _ (UGet box room SynchList.RAcquire)); try done; simpl; [|by eapply sending_same].
    intros b. by destruct (b =? box).
  - (* UGet *) destruct (box_step (office n) box t p) as [r'|] eqn:Hs; simpl in Hr; simplify_eq. by eapply get_step_ok.
Qed.

(** *** Interrupts and packets *)

(** The two static functions have different addresses. *)
Context (Hdiffer : NetworkReadPoll_addr ≠ NetworkSendDone_addr).

Lemma poll_not_done : is_done (poll NetworkReadPoll_addr network_addr) = false.
Proof. simpl. by apply Z.eqb_neq. Qed.

(** Taking an interrupt off the list and scheduling others. *)
Lemma sending_pending lk sent sent' pend i x new ths :
  sending lk sent pend ths → pend !! i = Some x → 0 ≤ sent' →
  sent' + Z.of_nat (number is_done new) = sent + (if is_done x then 1 else 0) →
  (x = poll NetworkReadPoll_addr network_addr → poll NetworkReadPoll_addr network_addr ∈ new) →
  Forall (λ x, x = poll NetworkReadPoll_addr network_addr ∨ x = send_done NetworkSendDone_addr network_addr) new →
  sending lk sent' (delete i pend ++ new) ths.
Proof.
  intros [S1 S2 S3 S4] Hi Hs0 Hs Hp Hf. pose proof (number_delete is_done pend i x Hi) as Hn. split; try done.
  - rewrite number_app. destruct (is_done x); lia.
  - rewrite <- (take_drop_middle pend i x Hi) in S3. rewrite delete_take_drop.
    apply elem_of_app in S3 as [?|[E|?]%elem_of_cons]; rewrite !elem_of_app; auto.
  - apply Forall_app. split; [|done]. by apply Forall_delete.
Qed.

Lemma take_interrupt_ok n i r :
  NInv n → take_interrupt n i = Some r → ∃ n', r = Ok n' ∧ NInv n' ∧ threads n' = threads n ∧ ∀ b, in_transit n b = in_transit n' b.
Proof.
  intros V Hr. pose proof V as [V1 V2 V3 V4 V5 V6]. unfold take_interrupt in Hr.
  destruct (pending n !! i) as [x|] eqn:Hi; [|done]. simpl in Hr. destruct (f_ident _ V1) as (I1 & I2 & I3).
  pose proof V5 as [R1 R2 R3].
  assert (x = poll NetworkReadPoll_addr network_addr ∨ x = send_done NetworkSendDone_addr network_addr) as [-> | ->]
    by (exact (proj1 (Forall_lookup _ _) (s_pending _ _ _ _ V4) i x Hi)); simpl in Hr.
  - rewrite Z.eqb_refl in Hr.
    assert (sending (sendLock (office n)) (messageSent (office n)) (delete i (pending n) ++ [poll NetworkReadPoll_addr network_addr]) (threads n)) as Hs.
    { pose proof V4 as [_ S2 _ _]. eapply sending_pending; try done; [lia| | |].
      - rewrite number_cons, poll_not_done. unfold number; simpl. lia.
      - intros _. apply list_elem_of_singleton. done.
      - apply Forall_singleton. by left. }
    assert (CheckPktAvail HOST_IS_BIG_ENDIAN NetworkReadPoll_addr network_addr (network (office n)) (sock n) =
              Ok (network (office n), sock n, [poll NetworkReadPoll_addr network_addr], false) ∨
            buffered (network (office n)) = false ∧ ∃ h bs s, sock n = packet HOST_IS_BIG_ENDIAN uninit h bs :: s ∧ to h = a ∧ carries h bs)
      as [E|(Hb & h & bs & s & Es & Ht & Hc)].
    { unfold CheckPktAvail. destruct (buffered (network (office n))); [by left|]. destruct (sock n) as [|w s]; [by left|].
      apply Forall_cons in R3 as [(h & bs & -> & Ht & Hc) _]. right. split; [done|]. by exists h, bs, s. }
    + rewrite E in Hr. simplify_eq/=. eexists. split; [done|]. split; [|split; [done|]].
      * split; simpl; try done. by destruct V1.
      * done.
    + destruct (CheckPktAvail_packet HOST_IS_BIG_ENDIAN NetworkReadPoll_addr network_addr uninit (network (office n)) h bs s)
        as (bs' & E & Hl & Htk); [done|congruence|apply Hc|apply Hc|apply V1|]. rewrite Es, E in Hr. simplify_eq/=.
      assert (length_ h ≠ 0) as Hn0 by (pose proof (h_length _ (c_header _ _ Hc)); lia).
      assert (carries h bs' ∧ open_packet h bs' = open_packet h bs) as [Hc' Ho].
      { eapply carries_take; try done. pose proof (h_length _ (c_header _ _ Hc)). lia. }
      eexists. split; [done|]. split; [|split; [done|]].
      * split; simpl; try done.
        -- destruct V1. by split.
        -- split; simpl.
           ++ rewrite Hb in R1. unfold buffered; simpl. destruct (Z.eqb_spec (length_ h) 0); simpl; lia.
           ++ done.
           ++ rewrite Es in R3. by apply Forall_cons in R3 as [_ ?].
      * intros b. unfold in_transit, box_messages, under_way. simpl. rewrite Es. f_equal. f_equal. f_equal.
        unfold arrived. rewrite Hb. unfold buffered; simpl. destruct (Z.eqb_spec (length_ h) 0) as [|_]; [done|]. simpl.
        rewrite open_packet_wire by done. by rewrite Ho.
  - destruct (Z.eqb_spec NetworkSendDone_addr NetworkReadPoll_addr) as [E|_]; [by destruct Hdiffer|]. rewrite Z.eqb_refl in Hr.
    simplify_eq/=. eexists. split; [done|]. split; [|split; [done|]].
    + split; simpl; try done.
      * destruct V1 as [W1 W2 W3 W4]. by split.
      * pose proof V4 as [_ S2 _ _]. rewrite <- (app_nil_r (delete i (pending n))). eapply sending_pending; try done; [lia|].
        simpl. rewrite Z.eqb_refl. unfold number; simpl. lia.
    + intros b. done.
Qed.

(** A packet arrives at the socket. *)
Lemma packet_arrives n h bs :
  NInv n → to h = a → carries h bs →
  let n' := set_sock n (sock n ++ [packet HOST_IS_BIG_ENDIAN uninit h bs]) in
  NInv n' ∧ ∀ b, in_transit n' b = in_transit n b ++ (if decide (mail_to (open_packet h bs) = b) then [open_packet h bs] else []).
Proof.
  intros V Ht Hc. pose proof V as [V1 V2 V3 V4 [R1 R2 R3] V6]. split.
  - split; simpl; try done. split; try done. apply Forall_app. split; [done|]. apply Forall_singleton. by exists h, bs.
  - intros b. unfold in_transit, under_way, box_messages. simpl. rewrite fmap_app, !filter_app, <- !(assoc_L (++)).
    do 4 f_equal. simpl. by rewrite filter_cons, filter_nil, open_packet_wire by done.
Qed.

(** A new machine. *)
Lemma start_NInv r users : is_s32 a → NInv (start a r users) ∧ ∀ b, in_transit (start a r users) b = [].
Proof.
  intros Ha. assert (∀ t x, threads (start a r users) !! t = Some x → x = Worker (buffer uninit MaxPacketSize) WWait ∨ x = User UIdle) as Hth.
  { intros [|t] x Hx; simpl in Hx; [by simplify_eq; left|]. apply lookup_replicate in Hx as [-> _]. by right. }
  assert ((is_worker <$> threads (start a r users)) = true :: replicate (pred (length (threads (start a r users)))) false) as Hsh.
  { simpl. rewrite length_replicate. f_equal. by rewrite fmap_replicate. }
  split; [split|].
  - split; simpl; try done. by rewrite length_replicate.
  - exact Hsh.
  - intros t x [-> | ->]%Hth; [|done]. split; [by rewrite buffer_length|done].
  - split.
    + intros t. split; [done|]. intros (x & [-> | ->]%Hth & ?); done.
    + assert (number at_sent (threads (start a r users)) = 0%nat) as ->.
      { apply number_none. by intros i x [-> | ->]%Hth. }
      change (pending (start a r users)) with [poll NetworkReadPoll_addr network_addr].
      rewrite number_cons, poll_not_done. done.
    + apply list_elem_of_singleton. done.
    + apply Forall_singleton. by left.
  - assert (number at_receive (threads (start a r users)) = 0%nat) as E.
    { apply number_none. by intros i x [-> | ->]%Hth. }
    split; rewrite ?E; simpl; done.
  - intros b l _ Hl. apply lookup_replicate in Hl as [-> _]. split; [|by constructor]. apply SynchList.Inv_new.
    apply Forall_fmap, Forall_lookup. by intros i x [-> | ->]%Hth.
  - intros b. unfold in_transit, under_way.
    assert (mjoin (carried <$> threads (start a r users)) = []) as ->
      by exact (carried_all (start a r users) (Worker (buffer uninit MaxPacketSize) WWait) Hsh).
    simpl. rewrite filter_nil, app_nil_r. unfold box_messages. simpl.
    destruct (replicate (Z.to_nat nBoxes) SynchList.SynchList_new !! Z.to_nat b) eqn:E; [|done].
    by apply lookup_replicate in E as [-> _].
Qed.

(** A call of [Send] or [Receive]. *)
Lemma mail_call_ok n t p p' :
  NInv n → threads n !! t = Some (User p) → p = UIdle ∨ (∃ h m d, p = UGot h m d) →
  (∃ h m d, p' = USend h m d) ∨ (∃ b room, p' = UReceive b room) → user_ok p' →
  NInv (set_thread n t (User p')) ∧ ∀ b, in_transit (set_thread n t (User p')) b = in_transit n b.
Proof.
  intros V Hx Hp Hp' Hok. eapply (user_moves n _ t p p' V Hx); try done.
  - intros b. by destruct Hp as [-> |(? & ? & ? & ->)].
  - intros b. by destruct Hp' as [(? & ? & ? & ->)|(? & ? & ->)].
  - eapply sending_same; [done|..|apply V]; by destruct Hp as [-> |(? & ? & ? & ->)], Hp' as [(? & ? & ? & ->)|(? & ? & ->)].
Qed.

(** *** When nothing can happen *)

(** No thread of the machine can move, and no interrupt changes anything. *)
Definition node_quiet (n : node) : Prop :=
  (∀ t x, threads n !! t = Some x →
     match x with
     | Worker buf p => PostalDelivery n t buf p = None
     | User p => ∀ random, user n t p random = None
     end) ∧
  (∀ i r, take_interrupt n i = Some r → ∃ n', r = Ok n' ∧ office n' = office n ∧ sock n' = sock n).

Lemma quiet_interrupts n : NInv n → node_quiet n →
  number is_done (pending n) = 0%nat ∧ (buffered (network (office n)) = true ∨ sock n = []).
Proof.
  intros V [_ Hq]. split.
  - apply number_none. intros i x Hi. destruct (is_done x) eqn:E; [|done]. exfalso.
    pose proof (proj1 (Forall_lookup _ _) (s_pending _ _ _ _ (n_sending _ V)) i x Hi) as [-> | ->];
      [by rewrite poll_not_done in E|].
    destruct (take_interrupt n i) as [r|] eqn:Ht.
    + destruct (Hq i r Ht) as (n' & -> & Ho & _). unfold take_interrupt in Ht. rewrite Hi in Ht. simpl in Ht.
      destruct (Z.eqb_spec NetworkSendDone_addr NetworkReadPoll_addr); [by destruct Hdiffer|]. rewrite Z.eqb_refl in Ht.
      simplify_eq/=. apply (f_equal messageSent) in Ho. simpl in Ho. lia.
    + unfold take_interrupt in Ht. by rewrite Hi in Ht.
  - pose proof (s_poll _ _ _ _ (n_sending _ V)) as [i Hi]%list_elem_of_lookup_1.
    destruct (buffered (network (office n))) eqn:Hb; [by left|]. right. destruct (sock n) as [|w s] eqn:Es; [done|]. exfalso.
    pose proof (r_sock _ _ _ _ (n_receiving _ V)) as Hf. rewrite Es in Hf. apply Forall_cons in Hf as [(h & bs & -> & Ht & Hc) _].
    destruct (CheckPktAvail_packet HOST_IS_BIG_ENDIAN NetworkReadPoll_addr network_addr uninit (network (office n)) h bs s)
      as (bs' & E & _ & _); [done|by rewrite (proj1 (f_ident _ (n_office _ V)))|apply Hc|apply Hc|apply V|].
    destruct (Hq i _ ltac:(unfold take_interrupt; rewrite Hi; simpl; rewrite Z.eqb_refl, Es, E; reflexivity)) as (n' & Hn & _ & Hs).
    simplify_eq/=. apply (f_equal length) in Hs. simpl in Hs. lia.
Qed.

(** Then no packet is on its way, the postal worker waits for one, no thread is
    in [Send], and one that is in [Receive] waits for a box that is empty. *)
Lemma quiet_ok n : NInv n → node_quiet n →
  under_way n = [] ∧
  ∀ t p, threads n !! t = Some (User p) →
    match p with
    | UIdle | UGot _ _ _ => True
    | UGet b _ SynchList.RWaiting => box_messages n b = []
    | _ => False
    end.
Proof.
  intros V Hq. destruct (quiet_interrupts n V Hq) as [Hd Hs]. destruct Hq as [Hq _]. pose proof V as [V1 V2 V3 V4 V5 V6].
  pose proof V5 as [R1 R2 R3]. pose proof V4 as [S1 S2 S3 S4]. destruct (f_boxes _ V1) as [B1 B2].
  assert (∀ b l, 0 ≤ b < nBoxes → boxes (office n) !! Z.to_nat b = Some l →
            ∀ t p, (place_in b <$> threads n) !! t = Some p → SynchList.step l t p = None) as Hbox.
  { intros b l Hb Hl t p Hp. rewrite list_lookup_fmap in Hp. destruct (threads n !! t) as [x|] eqn:Hx; simplify_eq/=.
    assert (aget (boxes (office n)) b = Ok l) as Hg by (by apply aget_Some; [lia|]).
    specialize (Hq t x Hx). destruct x as [buf [| |c q]|[| | | | | | |c room q|]]; try done; simpl; destruct (Z.eqb_spec b c); try done; subst.
    - simpl in Hq. unfold box_step in Hq. rewrite Hg in Hq. simpl in Hq. by destruct (SynchList.step l t q).
    - specialize (Hq 0). simpl in Hq. unfold box_step in Hq. rewrite Hg in Hq. simpl in Hq. by destruct (SynchList.step l t q). }
  assert (∀ b t p, 0 ≤ b < nBoxes → (place_in b <$> threads n) !! t = Some p →
            match p with SynchList.Idle | SynchList.RDone _ => True | SynchList.RWaiting => box_messages n b = [] | _ => False end) as Hplace.
  { intros b t p Hb Hp. destruct (aget_ok (boxes (office n)) b) as (l & Hl & _); [lia|]. destruct (V6 b l ltac:(lia) Hl) as [HI _].
    pose proof (SynchList.Inv_quiet l _ t p HI (Hbox b l Hb Hl) Hp) as H. destruct p; try done. destruct H as [_ H].
    unfold box_messages. by rewrite Hl, H. }
  assert (∀ b t x, 0 ≤ b < nBoxes → threads n !! t = Some x → (place_in b <$> threads n) !! t = Some (place_in b x)) as Hin.
  { intros b t x Hb Hx. by rewrite list_lookup_fmap, Hx. }
  destruct (threads n !! 0%nat) as [x|] eqn:Hx0; [|exfalso; destruct (threads n); [discriminate V2|discriminate Hx0]].
  assert (is_worker x = true) as Hw by (destruct (threads n); [done|]; injection Hx0 as ->; by injection V2). destruct x as [buf p|]; [|done].
  assert (p = WWait ∧ messageAvailable (office n) = 0) as [-> Hav].
  { pose proof (Hq 0%nat _ Hx0) as H. pose proof (V3 _ _ Hx0) as [_ Hok]. destruct p as [| |b p]; [|done|].
    - split; [done|]. simpl in H. unfold P in H. rewrite Z.gtb_ltb in H. destruct (Z.ltb_spec 0 (messageAvailable (office n))); [done|lia].
    - destruct Hok as (K1 & K2 & _). specialize (Hplace b 0%nat _ K1 (Hin b 0%nat _ K1 Hx0)). simpl in Hplace. rewrite Z.eqb_refl in Hplace. by destruct p. }
  assert (number at_receive (threads n) = 0%nat) as Hrec.
  { apply number_none. intros i y Hy. destruct y as [buf' q|]; [|done]. pose proof (worker_first _ _ _ _ V Hy) as ->. by simplify_eq. }
  assert (buffered (network (office n)) = false) as Hb by (destruct (buffered _); [lia|done]).
  split.
  - unfold under_way. rewrite (carried_worker _ _ V Hx0). unfold arrived. rewrite Hb. destruct Hs as [Hs| ->]; [congruence|done].
  - intros t p Hx. pose proof (V3 _ _ Hx) as Hok. pose proof (Hq t _ Hx) as H. simpl in Hok.
    assert (sendLock (office n) = None) as Hlk.
    { destruct (sendLock (office n)) as [u|] eqn:El; [|done]. destruct (proj1 (S1 u) eq_refl) as (y & Hy & Hl).
      specialize (Hq u y Hy). destruct y as [|[| | | | | | | |]]; try done; specialize (Hq 0); try done.
      pose proof (number_some at_sent _ _ _ Hy eq_refl). simpl in Hq. unfold P in Hq. rewrite Z.gtb_ltb in Hq.
      destruct (Z.ltb_spec 0 (messageSent (office n))); [done|lia]. }
    destruct p as [|h m d|h bs|h bs| | |b room|b room p|]; try done; try (specialize (H 0); done).
    + specialize (H 0). simpl in H. rewrite acquire_eq in H. by rewrite Hlk in H.
    + assert (sendLock (office n) = Some t) by (apply S1; eauto). congruence.
    + destruct Hok as (K1 & K2 & K3 & _). specialize (Hplace b t _ K1 (Hin b t _ K1 Hx)). simpl in Hplace. rewrite Z.eqb_refl in Hplace.
      by destruct p.
Qed.

End machine.

(** ** The network as a whole *)

(** The calls that the comments of the two routines allow: [Send] to a machine
    that is up and to a box that it has, a message that is not too long, and a
    buffer that is long enough. *)
Definition valid (w : gmap Z node) (x : act) : Prop :=
  match x with
  | Boot addr _ _ => is_s32 addr
  | CallSend _ _ h m d => is_Some (w !! to h) ∧ send_ok m d
  | CallReceive _ _ box room => 0 ≤ box < nBoxes ∧ MaxMailSize ≤ room
  | _ => True
  end.

Inductive reach : list event → gmap Z node → Prop :=
  | reach_start : reach [] ∅
  | reach_act tr w x w' e : reach tr w → valid w x → do_act w x = Some (Ok (w', e)) → reach (tr ++ e) w'.

(** The events of one thread. *)
Definition mine (addr : Z) (t : nat) (tr : list event) : list event := filter (λ e, actor e = (addr, t)) tr.

Definition exists_in (w : gmap Z node) (d : Z) : Prop := is_Some (w !! d).

Record WInv (tr : list event) (w : gmap Z node) : Prop := mkWInv {
  w_node a n : w !! a = Some n → NInv a (exists_in w) n;
  w_flow a n b : w !! a = Some n → 0 ≤ b < nBoxes → sent_to a b tr = got_from a b tr ++ in_transit n b;
  w_none a : w !! a = None → (∀ b, sent_to a b tr = []) ∧ ∀ e, e ∈ tr → (actor e).1 ≠ a;
  w_thread a n t p : w !! a = Some n → threads n !! t = Some (User p) →
    called (mine a t tr) = handed (mine a t tr) ++ in_hand a p ∧
    ∀ m, received p = Some m → last (taken (mine a t tr)) = Some m;
}.

Lemma NInv_known a (k k' : Z → Prop) n : (∀ d, k d → k' d) → NInv a k n → NInv a k' n.
Proof.
  intros Hk [V1 V2 V3 V4 V5 V6]. split; try done. intros t x Hx. specialize (V3 t x Hx).
  destruct x as [|[| | | | | | | |]]; simpl in *; naive_solver.
Qed.

Lemma sent_app a b tr e : sent_to a b (tr ++ e) = sent_to a b tr ++ sent_to a b e.
Proof. apply omap_app. Qed.
Lemma got_app a b tr e : got_from a b (tr ++ e) = got_from a b tr ++ got_from a b e.
Proof. apply omap_app. Qed.
Lemma mine_app a t tr e : mine a t (tr ++ e) = mine a t tr ++ mine a t e.
Proof. apply filter_app. Qed.
Lemma called_app tr e : called (tr ++ e) = called tr ++ called e.
Proof. apply omap_app. Qed.
Lemma handed_app tr e : handed (tr ++ e) = handed tr ++ handed e.
Proof. apply omap_app. Qed.
Lemma received_app tr e : taken (tr ++ e) = taken tr ++ taken e.
Proof. apply omap_app. Qed.

(** A machine without events has none for its boxes and threads. *)
Lemma no_events a tr : (∀ e, e ∈ tr → (actor e).1 ≠ a) → (∀ b, got_from a b tr = []) ∧ ∀ t, mine a t tr = [].
Proof.
  induction tr as [|e tr IH]; intros H; [done|]. destruct IH as [IH1 IH2]; [intros; apply H; by right|].
  pose proof (H e (list_elem_of_here _ _)) as He. split.
  - intros b. change (e :: tr) with ([e] ++ tr). rewrite got_app, IH1, app_nil_r. destruct e; try done. simpl in *. rewrite decide_False; naive_solver.
  - intros t. unfold mine in *. rewrite filter_cons, IH2. case_decide as E; [|done]. by rewrite E in He.
Qed.

Lemma mine_all a t e : Forall (λ y, actor y = (a, t)) e → mine a t e = e.
Proof. unfold mine. induction 1 as [|y e Hy _ IH]; [done|]. rewrite filter_cons, decide_True by done. by rewrite IH. Qed.

Lemma mine_other a t c u e : Forall (λ y, actor y = (a, t)) e → (c, u) ≠ (a, t) → mine c u e = [].
Proof.
  intros H Hne. unfold mine. induction H as [|y e Hy _ IH]; [done|]. rewrite filter_cons, decide_False; [done|]. congruence.
Qed.

(** Every machine may change, and the messages move as the events say. *)
Definition moves (a : Z) (p p' : user_at) (e : list event) : Prop :=
  in_hand a p ++ called e = handed e ++ in_hand a p' ∧
  ∀ m, received p' = Some m → last (taken e) = Some m ∨ taken e = [] ∧ received p = Some m.

Lemma moves_refl a p : moves a p p [].
Proof. split; [by rewrite app_nil_r|by right]. Qed.

Lemma WInv_step tr w w' e :
  WInv tr w → (∀ a, is_Some (w' !! a) ↔ is_Some (w !! a)) →
  (∀ a n', w' !! a = Some n' → ∃ n, w !! a = Some n ∧ NInv a (exists_in w) n' ∧
     (∀ b, 0 ≤ b < nBoxes → in_transit n b ++ sent_to a b e = got_from a b e ++ in_transit n' b) ∧
     ∀ t p', threads n' !! t = Some (User p') → ∃ p, threads n !! t = Some (User p) ∧ moves a p p' (mine a t e)) →
  (∀ a, w !! a = None → (∀ b, sent_to a b e = []) ∧ ∀ y, y ∈ e → (actor y).1 ≠ a) →
  WInv (tr ++ e) w'.
Proof.
  intros [W1 W2 W3 W4] Hdom Hn Hnone. split.
  - intros a n' Hw. destruct (Hn a n' Hw) as (n & Hw0 & HN & _). eapply NInv_known; [|done]. intros d Hd. by apply Hdom.
  - intros a n' b Hw Hb. destruct (Hn a n' Hw) as (n & Hw0 & _ & HT & _).
    rewrite sent_app, got_app, (W2 a n b Hw0 Hb), <- !(assoc_L (++)). f_equal. by apply HT.
  - intros a Hw. assert (w !! a = None) as Hw0.
    { apply eq_None_not_Some. rewrite <- Hdom, Hw. by intros [? ?]. }
    destruct (W3 a Hw0) as [S1 S2], (Hnone a Hw0) as [S3 S4]. split.
    + intros b. by rewrite sent_app, S1, S3.
    + intros y [Hy|Hy]%elem_of_app; auto.
  - intros a n' t p' Hw Hp'. destruct (Hn a n' Hw) as (n & Hw0 & _ & _ & HT). destruct (HT t p' Hp') as (p & Hp & M1 & M2).
    destruct (W4 a n t p Hw0 Hp) as [C1 C2]. rewrite mine_app, called_app, handed_app, received_app. split.
    + rewrite C1, <- !(assoc_L (++)). by rewrite M1.
    + intros m Hm. destruct (M2 m Hm) as [Hl|[-> Hr]]; [by rewrite last_app, Hl|]. rewrite app_nil_r. auto.
Qed.

(** One machine changes. *)
Lemma WInv_one tr w a n n' e t :
  WInv tr w → w !! a = Some n → NInv a (exists_in w) n' → Forall (λ y, actor y = (a, t)) e →
  (∀ c b, sent_to c b e = []) → (∀ b, 0 ≤ b → in_transit n b = got_from a b e ++ in_transit n' b) →
  (∀ u p', threads n' !! u = Some (User p') → ∃ p, threads n !! u = Some (User p) ∧ moves a p p' (mine a u e)) →
  WInv (tr ++ e) (<[a := n']> w).
Proof.
  intros W Hw HN Hact Hsent HT Hth. eapply (WInv_step tr w _ e W).
  - intros c. destruct (decide (c = a)) as [->|Hne]; [by rewrite lookup_insert_eq, Hw|by rewrite lookup_insert_ne].
  - intros c m' Hm. destruct (decide (c = a)) as [->|Hne].
    + rewrite lookup_insert_eq in Hm. simplify_eq. exists n. split_and!; try done. intros b Hb. rewrite Hsent, app_nil_r. apply HT. lia.
    + rewrite lookup_insert_ne in Hm by done. exists m'. split_and!; [done|by apply W| |].
      * intros b Hb. rewrite Hsent, app_nil_r. rewrite (proj1 (no_events c e ltac:(rewrite Forall_forall in Hact; intros y ->%Hact; simpl; congruence))). done.
      * intros u p Hp. exists p. split; [done|]. rewrite (mine_other a t c u e Hact) by congruence. apply moves_refl.
  - intros c Hc. split; [by intros|]. rewrite Forall_forall in Hact. intros y ->%Hact. simpl. congruence.
Qed.

(** The two static functions of machine/network.cc have different addresses. *)
Context (Hdiffer : NetworkReadPoll_addr ≠ NetworkSendDone_addr).

(** The threads of a machine of which one changes, by events of its own. *)
Lemma threads_move a n n' t x x' e :
  threads n !! t = Some x → threads n' = <[t := x']> (threads n) → Forall (λ y, actor y = (a, t)) e →
  (∀ p', x' = User p' → ∃ p, x = User p ∧ moves a p p' e) →
  ∀ u p', threads n' !! u = Some (User p') → ∃ p, threads n !! u = Some (User p) ∧ moves a p p' (mine a u e).
Proof.
  intros Hx E Hact Hm u p' Hu. rewrite E in Hu. apply lookup_insert_cases in Hu as [[-> Hx']|[Hne Hu]].
  - destruct (Hm p' (eq_sym Hx')) as (p & -> & Hmv). exists p. rewrite (mine_all a t e Hact). done.
  - exists p'. split; [done|]. rewrite (mine_other a t a u e Hact) by congruence. apply moves_refl.
Qed.

(** A packet goes to the socket of another machine, or of the same one. *)
Lemma WInv_packet tr w a n n' t h bs p p' :
  WInv tr w → w !! a = Some n → NInv a (exists_in w) n' → threads n !! t = Some (User p) → threads n' = <[t := User p']> (threads n) →
  (∀ b, 0 ≤ b → in_transit n b = in_transit n' b) → carries h bs → exists_in w (to h) →
  let e := [ESent a t (to h) (open_packet h bs)] in
  goes a p p' e →
  ∃ w', SendToSocket (<[a := n']> w) (Some (to h, packet HOST_IS_BIG_ENDIAN uninit h bs)) = Ok w' ∧ WInv (tr ++ e) w'.
Proof.
  intros W Hw HN Hp E HT Hc [m Hm] e (G1 & G2 & G3).
  assert (Forall (λ y, actor y = (a, t)) e) as Hact by (by apply Forall_singleton).
  assert (moves a p p' e) as Hmv by (split; [rewrite G2, app_nil_r; done|done]).
  assert (∀ d b, sent_to d b e = if decide (to h = d) then if decide (mail_to (open_packet h bs) = b) then [open_packet h bs] else [] else []) as Hsent.
  { intros d b. unfold e. simpl. repeat case_decide; naive_solver. }
  assert (∃ n1, <[a := n']> w !! to h = Some n1 ∧ NInv (to h) (exists_in w) n1) as (n1 & Hn1 & HN1).
  { destruct (decide (to h = a)) as [->|Hne]; [exists n'; by rewrite lookup_insert_eq|]. exists m. rewrite lookup_insert_ne by congruence. split; [done|by apply W]. }
  destruct (packet_arrives (to h) (exists_in w) n1 h bs HN1 eq_refl Hc) as [HN2 HT2].
  simpl. rewrite Hn1. eexists. split; [done|].
  eapply (WInv_step tr w _ e W).
  - intros d. destruct (decide (d = to h)) as [->|Hne]; [by rewrite lookup_insert_eq, Hm|]. rewrite lookup_insert_ne by congruence.
    destruct (decide (d = a)) as [->|Hne2]; [by rewrite lookup_insert_eq, Hw|rewrite lookup_insert_ne by congruence; done].
  - intros d x Hd.
    assert (∃ x0 n0, <[a := n']> w !! d = Some x0 ∧ w !! d = Some n0 ∧ NInv d (exists_in w) x ∧ threads x = threads x0 ∧
              ∀ b, 0 ≤ b < nBoxes → in_transit x b = in_transit x0 b ++ sent_to d b e) as (x0 & n0 & Hx0 & Hn0 & HNx & Hthx & HTx).
    { destruct (decide (d = to h)) as [->|Hne].
      - rewrite lookup_insert_eq in Hd. simplify_eq. exists n1, m. split_and!; try done. intros b Hb. rewrite HT2, Hsent. destruct (decide (to h = to h)); [done|congruence].
      - rewrite lookup_insert_ne in Hd by congruence. destruct (decide (d = a)) as [->|Hne2].
        + exists x, n. rewrite lookup_insert_eq in Hd. simplify_eq. rewrite lookup_insert_eq. split_and!; try done.
          intros b Hb. rewrite Hsent, decide_False by congruence. by rewrite app_nil_r.
        + exists x, x. rewrite lookup_insert_ne in Hd |- * by congruence. split_and!; try done; [by apply W|].
          intros b Hb. rewrite Hsent, decide_False by congruence. by rewrite app_nil_r. }
    exists n0. split_and!; [done|done| |].
    + intros b Hb. rewrite (HTx b Hb). change (got_from d b e) with (@nil message). simpl. f_equal.
      destruct (decide (d = a)) as [->|Hne]; [|rewrite lookup_insert_ne in Hx0 by congruence; congruence].
      rewrite lookup_insert_eq in Hx0. simplify_eq. apply HT. lia.
    + rewrite Hthx. destruct (decide (d = a)) as [->|Hne].
      * rewrite lookup_insert_eq in Hx0. simplify_eq. eapply (threads_move a n _ t (User p) (User p') e Hp E Hact).
        intros q [= <-]. eauto.
      * rewrite lookup_insert_ne in Hx0 by congruence. simplify_eq. intros u q Hq. exists q. split; [done|].
        rewrite (mine_other a t d u e Hact) by congruence. apply moves_refl.
  - intros d Hd. split.
    + intros b. rewrite Hsent. rewrite decide_False; [done|]. intros <-. congruence.
    + intros y ->%list_elem_of_singleton. simpl. intros ->. congruence.
Qed.

(** Every action that is allowed keeps the invariant, and none fails. *)
Lemma do_act_ok tr w x r :
  WInv tr w → valid w x → do_act w x = Some r → ∃ w' e, r = Ok (w', e) ∧ WInv (tr ++ e) w'.
Proof.
  intros W Hv Hr. destruct x as [a rel users|a i|a t random|a t h m d|a t box room]; simpl in Hr, Hv.
  - destruct (w !! a) eqn:Ha; [done|]. simplify_eq/=. do 2 eexists. split; [done|]. rewrite app_nil_r.
    destruct (start_NInv a (λ d, exists_in (<[a := start a rel users]> w) d) Hdiffer rel users Hv) as [HN HT]. pose proof W as [W1 W2 W3 W4].
    destruct (W3 a Ha) as [N1 N2]. destruct (no_events a tr N2) as [N3 N4]. split.
    + intros c n Hc. destruct (decide (c = a)) as [->|Hne]; [rewrite lookup_insert_eq in Hc; by simplify_eq|].
      rewrite lookup_insert_ne in Hc by congruence. eapply NInv_known; [|by apply W1]. intros d Hd. unfold exists_in in *.
      destruct (decide (d = a)) as [->|]; [by rewrite lookup_insert_eq|rewrite lookup_insert_ne by congruence; done].
    + intros c n b Hc Hb. destruct (decide (c = a)) as [->|Hne].
      * rewrite lookup_insert_eq in Hc. simplify_eq. by rewrite HT, N1, N3.
      * rewrite lookup_insert_ne in Hc by congruence. by apply W2.
    + intros c Hc. destruct (decide (c = a)) as [->|Hne]; [by rewrite lookup_insert_eq in Hc|]. rewrite lookup_insert_ne in Hc by congruence. by apply W3.
    + intros c n t p Hc Hp. destruct (decide (c = a)) as [->|Hne].
      * rewrite lookup_insert_eq in Hc. simplify_eq. rewrite N4. destruct t as [|t]; [done|]. simpl in Hp.
        apply lookup_replicate in Hp as [[= ->] _]. done.
      * rewrite lookup_insert_ne in Hc by congruence. by eapply W4.
  - destruct (w !! a) as [n|] eqn:Ha; [|done]. simpl in Hr. destruct (take_interrupt n i) as [r'|] eqn:Ht; simplify_eq/=.
    destruct (take_interrupt_ok a _ Hdiffer n i r' (w_node _ _ W a n Ha) Ht) as (n' & -> & HN & Hth & HT). simpl. do 2 eexists. split; [done|].
    eapply (WInv_one tr w a n n' [] 0 W Ha HN); try done. intros u p Hp. exists p. split; [by rewrite <- Hth|apply moves_refl].
  - destruct (w !! a) as [n|] eqn:Ha; [|done]. simpl in Hr. destruct (threads n !! t) as [[buf p|p]|] eqn:Hx; simpl in Hr; [| |done].
    + destruct (PostalDelivery n t buf p) as [r'|] eqn:Hp; simplify_eq/=.
      destruct (PostalDelivery_ok a _ n t buf p r' (w_node _ _ W a n Ha) Hx Hp) as (n' & -> & HN & HT & Hth). simpl. do 2 eexists. split; [done|].
      eapply (WInv_one tr w a n n' [] 0 W Ha HN); try done. intros u q Hq. exists q. split; [by apply Hth|apply moves_refl].
    + destruct (user n t p random) as [r'|] eqn:Hp; simplify_eq/=.
      destruct (user_step_ok a _ n t p random r' (w_node _ _ W a n Ha) Hx Hp) as (n' & y & e & p' & -> & HN & Hth & HT & Hh & Hact & Hgo). simpl.
      destruct y as [[dst pkt]|].
      * destruct Hh as (Hk & h & bs & -> & Hc & <- & ->).
        destruct (WInv_packet tr w a n n' t h bs p p' W Ha HN Hx Hth HT Hc Hk Hgo) as (w' & -> & W'). simpl. eauto.
      * simpl. do 2 eexists. split; [done|]. eapply (WInv_one tr w a n n' e t W Ha HN); try done.
        eapply threads_move; try done. intros q [= <-]. exists p. split; [done|]. destruct Hgo as (G1 & G2 & G3). split; [|done]. by rewrite G2, app_nil_r.
  - destruct (w !! a) as [n|] eqn:Ha; [|done]. simpl in Hr. unfold free_to_call in Hr.
    destruct (threads n !! t) as [[|p]|] eqn:Hx; try done. destruct Hv as [[n1 Hn1] Hsend].
    assert (is_s32 (to h)) as Hs by apply (w_node _ _ W _ _ Hn1).
    assert (p = UIdle ∨ ∃ h m d, p = UGot h m d) as Hp by (destruct p; eauto; done).
    destruct (mail_call_ok a (exists_in w) n t p (USend h m d) (w_node _ _ W a n Ha) Hx Hp) as [HN HT]; [by eauto|split; [done|split; [by exists n1|done]]|].
    assert (Some (Ok (<[a := set_thread n t (User (USend h m d))]> w, [ECall a t (sent_message a h m d)])) = Some r) as Hr' by (by destruct p).
    simplify_eq. do 2 eexists. split; [done|].
    eapply (WInv_one tr w a n _ [ECall a t (sent_message a h m d)] t W Ha HN); try done; [by apply Forall_singleton|intros b _; symmetry; apply HT|].
    eapply threads_move; try done; [by apply Forall_singleton|]. intros q [= <-]. exists p. split; [done|]. by destruct Hp as [-> |(? & ? & ? & ->)].
  - destruct (w !! a) as [n|] eqn:Ha; [|done]. simpl in Hr. unfold free_to_call in Hr.
    destruct (threads n !! t) as [[|p]|] eqn:Hx; try done.
    assert (p = UIdle ∨ ∃ h m d, p = UGot h m d) as Hp by (destruct p; eauto; done).
    destruct (mail_call_ok a (exists_in w) n t p (UReceive box room) (w_node _ _ W a n Ha) Hx Hp) as [HN HT]; [by eauto|done|].
    assert (Some (Ok (<[a := set_thread n t (User (UReceive box room))]> w, [])) = Some r) as Hr' by (by destruct p).
    simplify_eq. do 2 eexists. split; [done|].
    eapply (WInv_one tr w a n _ [] t W Ha HN); try done; [intros b _; symmetry; apply HT|].
    eapply threads_move; try done. intros q [= <-]. exists p. split; [done|]. by destruct Hp as [-> |(? & ? & ? & ->)].
Qed.

Lemma reach_WInv tr w : reach tr w → WInv tr w.
Proof.
  induction 1 as [|tr w x w' e _ W Hv Hr].
  - split; try done. intros a _. split; [done|]. intros e He. by apply not_elem_of_nil in He.
  - destruct (do_act_ok tr w x _ W Hv Hr) as (? & ? & ? & ?). by simplify_eq.
Qed.

(** C30: in a build with THREADS, in every interleaving of any number of machines
    and threads: no assertion of the network or of the post office fails for
    calls that are allowed; what a thread gives to [Send] goes to the network in
    the order of its calls, header and data unchanged; each box gives out, each
    once and in the order in which they went on the wire, the messages that were
    sent to it, so that the rest of them is still in the box, with the postal
    worker, in the device or in the socket; and [Receive] returns the message
    that it took. *)
Theorem mail_in_order tr w :
  reach tr w →
  (∀ addr n b, w !! addr = Some n → 0 ≤ b < nBoxes → sent_to addr b tr = got_from addr b tr ++ in_transit n b) ∧
  (∀ addr n t p, w !! addr = Some n → threads n !! t = Some (User p) →
     called (mine addr t tr) = handed (mine addr t tr) ++ in_hand addr p ∧
     ∀ m, received p = Some m → last (taken (mine addr t tr)) = Some m) ∧
  ∀ x e, valid w x → do_act w x ≠ Some (Err e).
Proof.
  intros W%reach_WInv. split_and!.
  - apply W.
  - apply W.
  - intros x e Hv Hr. destruct (do_act_ok tr w x _ W Hv Hr) as (? & ? & ? & ?). done.
Qed.

(** C31: in a build with THREADS, when no thread of any machine can move and no
    interrupt changes anything, no thread is in the middle of [Send], every
    message that went on the wire is in its box or was taken out of it, and a
    thread that is still in [Receive] waits for a box to which no more messages
    were sent than were taken out. *)
Theorem mail_all_delivered tr w :
  reach tr w → (∀ addr n, w !! addr = Some n → node_quiet n) →
  ∀ addr n, w !! addr = Some n →
    (∀ b, 0 ≤ b < nBoxes → sent_to addr b tr = got_from addr b tr ++ box_messages n b) ∧
    ∀ t p, threads n !! t = Some (User p) →
      match p with
      | UIdle | UGot _ _ _ => called (mine addr t tr) = handed (mine addr t tr)
      | UGet b _ SynchList.RWaiting => sent_to addr b tr = got_from addr b tr
      | _ => False
      end.
Proof.
  intros W%reach_WInv Hq addr n Hn. pose proof (w_node _ _ W addr n Hn) as V.
  destruct (quiet_ok addr _ Hdiffer n V (Hq addr n Hn)) as [Hu Hth].
  assert (∀ b, 0 ≤ b < nBoxes → sent_to addr b tr = got_from addr b tr ++ box_messages n b) as Hflow.
  { intros b Hb. rewrite (w_flow _ _ W addr n b Hn Hb). unfold in_transit. by rewrite Hu, filter_nil, app_nil_r. }
  split; [done|]. intros t p Hp. specialize (Hth t p Hp). pose proof (n_ok _ _ _ V t _ Hp) as Hok.
  pose proof (w_thread _ _ W addr n t p Hn Hp) as [Hc _]. destruct p as [| | | | | | |b room []|]; try done.
  - by rewrite app_nil_r in Hc.
  - destruct Hok as [Hb _]. by rewrite (Hflow b Hb), Hth, app_nil_r.
  - by rewrite app_nil_r in Hc.
Qed.

(** Is an action allowed? *)
Definition validb (w : gmap Z node) (x : act) : bool :=
  match x with
  | Boot addr _ _ => (- 2 ^ 31 <=? addr) && (addr <? 2 ^ 31)
  | CallSend _ _ h m d =>
    bool_decide (is_Some (w !! to h)) && ((0 <=? mto m) && (mto m <? nBoxes)) && ((- 2 ^ 31 <=? mfrom m) && (mfrom m <? 2 ^ 31)) &&
    ((0 <=? mlength m) && (mlength m <=? MaxMailSize)) && (mlength m <=? Z.of_nat (length d))
  | CallReceive _ _ box room => (0 <=? box) && (box <? nBoxes) && (MaxMailSize <=? room)
  | _ => true
  end.

Lemma validb_ok w x : validb w x = true → valid w x.
Proof.
  destruct x as [a r u|a i|a t r|a t h m d|a t b room]; simpl; try done; rewrite ?andb_true_iff, ?bool_decide_eq_true; unfold is_s32.
  - lia.
  - intros ((((H1 & H2) & H3) & H4) & H5). split; [done|]. split; unfold is_s32; lia.
  - lia.
Qed.

(** A schedule of actions, each of which must be allowed and possible. *)
Fixpoint play (tr : list event) (w : gmap Z node) (l : list act) : option (list event * gmap Z node) :=
  match l with
  | [] => Some (tr, w)
  | x :: l =>
    if validb w x then match do_act w x with Some (Ok (w, e)) => play (tr ++ e) w l | _ => None end else None
  end.

Lemma post_play_reach l : ∀ tr w tr' w', reach tr w → play tr w l = Some (tr', w') → reach tr' w'.
Proof.
  induction l as [|x l IH]; intros tr w tr' w' Hr Hp; simpl in *; [by simplify_eq|].
  destruct (validb w x) eqn:Hv; [|done]. apply validb_ok in Hv.
  destruct (do_act w x) as [[[w1 e]|]|] eqn:E; try done. eapply IH; [|done]. by eapply reach_act.
Qed.

End post.

(** *** Witnesses: machine 0 sends "Hi" to box 0 of machine 1 *)

#[local] Instance with_threads : SynchBuild := true.
#[local] Instance with_threads_real : RealLocks := eq_refl.

Definition hi : list act :=
  [Boot 0 1 1; Boot 1 1 1; CallSend 0 1 (mkPacket 1 0 0) (mkMailHdr 0 1 2) [72; 105];
   Run 0 1 0; Run 0 1 0; Run 0 1 0; Take 0 1; Run 0 1 0; Run 0 1 0;
   Take 1 0; Run 1 0 0; Run 1 0 0; Run 1 0 0; Run 1 0 0; Run 1 0 0; Run 1 0 0;
   CallReceive 1 1 0 40; Run 1 1 0; Run 1 1 0; Run 1 1 0; Run 1 1 0; Run 1 1 0].

Definition hi_message : message := (mkPacket 1 0 14, mkMailHdr 0 1 2, [72; 105]).

Definition hi_events : list event :=
  [ECall 0 1 hi_message; ESent 0 1 1 hi_message; EGot 1 1 0 hi_message].

Definition hi_nothing : nat → Z := λ _, 0.

Definition hi_world : gmap Z node :=
  match play false 1 2 3 hi_nothing (mkPacket 0 0 0) 10 [] ∅ hi with Some (_, w) => w | None => ∅ end.

Lemma hi_reach : reach false 1 2 3 hi_nothing (mkPacket 0 0 0) 10 hi_events hi_world.
Proof.
  apply (post_play_reach false 1 2 3 hi_nothing (mkPacket 0 0 0) 10 hi [] ∅); [apply reach_start|]. vm_compute. reflexivity.
Qed.

(** "Hi" was sent to the box once and taken out once. *)
Lemma mail_in_order_witness :
  ∃ n, hi_world !! 1 = Some n ∧ sent_to 1 0 hi_events = [hi_message] ∧
       sent_to 1 0 hi_events = got_from 1 0 hi_events ++ in_transit false n 0.
Proof.
  destruct (hi_world !! 1) as [n|] eqn:Hn; [|exfalso; vm_compute in Hn; discriminate Hn]. exists n.
  destruct (mail_in_order false 1 2 3 hi_nothing (mkPacket 0 0 0) 10 ltac:(unfold is_s32; lia) ltac:(lia) _ _ hi_reach) as (H & _).
  split_and!; [reflexivity|reflexivity|apply (H 1 n 0 Hn); lia].
Defined.

Lemma hi_nodes :
  ∃ n0 n1, map_to_list hi_world = [(1, n1); (0, n0)] ∧ node_quiet false 1 2 3 hi_nothing n0 ∧ node_quiet false 1 2 3 hi_nothing n1.
Proof.
  do 2 eexists. split; [vm_compute; reflexivity|].
  split; (split; [intros [|[|t]] x Hx; vm_compute in Hx; [injection Hx as <-; reflexivity|injection Hx as <-; reflexivity|discriminate Hx]|]).
  all: intros [|i] r Hr; vm_compute in Hr; [injection Hr as <-; eexists; split_and!; reflexivity|discriminate Hr].
Qed.

Lemma hi_quiet addr n : hi_world !! addr = Some n → node_quiet false 1 2 3 hi_nothing n.
Proof.
  intros Hn%elem_of_map_to_list. destruct hi_nodes as (n0 & n1 & E & H0 & H1). rewrite E in Hn.
  apply elem_of_cons in Hn as [Hn|Hn%list_elem_of_singleton]; injection Hn as _ ->; assumption.
Qed.

(** After it nothing can happen on machine 1, and nothing is left. *)
Lemma mail_all_delivered_witness :
  ∃ n, hi_world !! 1 = Some n ∧ sent_to 1 0 hi_events = got_from 1 0 hi_events ++ box_messages n 0.
Proof.
  destruct (hi_world !! 1) as [n|] eqn:Hn; [|exfalso; vm_compute in Hn; discriminate Hn]. exists n. split; [reflexivity|].
  apply (mail_all_delivered false 1 2 3 hi_nothing (mkPacket 0 0 0) 10 ltac:(unfold is_s32; lia) ltac:(lia) _ _ hi_reach) with (addr := 1) (b := 0); [|done|lia].
  exact hi_quiet.
Defined.

End Post.
