(* ===== verification/NetTest.v ===== *)
(** * The test of the network: network/nettest.cc

    [MailTest] on two machines that send to each other, as a client of the post
    office (file Post): it sends a message to box 0 of the other machine, waits
    for the one of the other machine, acknowledges it to the box that the message
    names, waits for the acknowledgement in box 1, and halts.  The calls of
    [Send] and [Receive] are those of Post, interleaved in any way with the postal
    workers, the devices and the other machine. *)

From stdpp Require Import base list gmap strings.
From Stdlib Require Import Ascii QArith.
From S2P Require Import Prelude Machine Bytes Threads Interrupt SynchList Network Post.
#[local] Open Scope Z_scope.

Module NetTest.
Import Network Post.

(** ** [MailTest] *)

(** The bytes of a string, with the 0 at its end. *)
Definition c_bytes (s : string) : list Z := ((λ c, Z.of_N (N_of_ascii c)) <$> String.list_ascii_of_string s) ++ [0].
(** What [printf] prints for %s. *)
Fixpoint until_zero (l : list Z) : list Z := match l with [] => [] | x :: l => if x =? 0 then [] else x :: until_zero l end.

Definition data : list Z := c_bytes "Hello there!".
Definition ack : list Z := c_bytes "Got it!".

(** The statement that comes next, once the call before it has returned. *)
Inductive place := SendHello | ReceiveHello | SendAck | ReceiveAck | Finish | Halted.

(** The local variables that are used again, and what was printed: buffer,
    machine, box. *)
Record test := mkTest {
  at_ : place;
  outPktHdr : PacketHeader;
  outMailHdr : MailHeader;
  printed : list (list Z * Z * Z);
}.

Inductive call := DoSend (h : PacketHeader) (m : MailHeader) (d : list Z) | DoReceive (box room : Z) | DoHalt.

Definition line (h : PacketHeader) (m : MailHeader) (d : list Z) : list Z * Z * Z := (until_zero d, from h, mfrom m).

(** [u] is where the thread stands: it has returned from the call before, with
    what [Receive] stored in [inPktHdr], [inMailHdr] and [buffer]. *)
Definition MailTest (farAddr : Z) (s : test) (u : user_at) : option (test * call) :=
  let '(mkTest p h m out) := s in
  match p, u with
  | SendHello, UIdle =>
    let h := mkPacket farAddr (from h) (length_ h) in
    let m := mkMailHdr 0 1 (Z.of_nat (length data)) in
    Some (mkTest ReceiveHello h m out, DoSend h m data)
  | ReceiveHello, UIdle => Some (mkTest SendAck h m out, DoReceive 0 MaxMailSize)
  | SendAck, UGot inPktHdr inMailHdr buffer =>
    let out := out ++ [line inPktHdr inMailHdr buffer] in
    let h := mkPacket (from inPktHdr) (from h) (length_ h) in
    let m := mkMailHdr (mfrom inMailHdr) (mfrom m) (Z.of_nat (length ack)) in
    Some (mkTest ReceiveAck h m out, DoSend h m ack)
  | ReceiveAck, UIdle => Some (mkTest Finish h m out, DoReceive 1 MaxMailSize)
  | Finish, UGot inPktHdr inMailHdr buffer => Some (mkTest Halted h m (out ++ [line inPktHdr inMailHdr buffer]), DoHalt)
  | _, _ => None
  end.

(** ** Two machines *)

Section two.
Context (HOST_IS_BIG_ENDIAN : bool) (NetworkReadPoll_addr NetworkSendDone_addr network_addr : Z).
Context (uninit : nat → Z) (uninit_header : PacketHeader) (uninit_mail : MailHeader).
Context (reliability : Q) (a b : Z).
Context {build : SynchBuild}.

(** The post offices have ten boxes. *)
Definition net_act : gmap Z node → act → option (result (gmap Z node * list event)) :=
  do_act HOST_IS_BIG_ENDIAN NetworkReadPoll_addr NetworkSendDone_addr network_addr uninit uninit_header 10.

Definition far (c : Z) : Z := if c =? a then b else a.

Definition boot (c : Z) : node := start NetworkReadPoll_addr network_addr uninit uninit_header 10 c reliability 1.
Definition test_0 : test := mkTest SendHello uninit_header uninit_mail [].

(** The thread of the test: the worker is thread 0. *)
Definition view (w : gmap Z node) (c : Z) : option user_at :=
  n ← w !! c; match threads n !! 1%nat with Some (User u) => Some u | _ => None end.

Definition is_halted (s : test) : bool := match at_ s with Halted => true | _ => false end.

(** What goes on by itself on machine [c]: an interrupt, or a step of a thread. *)
Definition inner (c : Z) (x : act) : Prop := match x with Take d _ | Run d _ _ => d = c | _ => False end.

Definition call_act (c : Z) (k : call) : option act :=
  match k with DoSend h m d => Some (CallSend c 1 h m d) | DoReceive box room => Some (CallReceive c 1 box room) | DoHalt => None end.

(** A machine that has halted does nothing any more. *)
Inductive treach : list event → gmap Z node → gmap Z test → Prop :=
  | t_start : treach [] (<[b := boot b]> (<[a := boot a]> ∅)) (<[b := test_0]> (<[a := test_0]> ∅))
  | t_inner tr w ts c s x w' e :
    treach tr w ts → ts !! c = Some s → is_halted s = false → inner c x → net_act w x = Some (Ok (w', e)) →
    treach (tr ++ e) w' ts
  | t_call tr w ts c s u s' k x w' e :
    treach tr w ts → ts !! c = Some s → view w c = Some u → MailTest (far c) s u = Some (s', k) → call_act c k = Some x →
    net_act w x = Some (Ok (w', e)) → treach (tr ++ e) w' (<[c := s']> ts)
  | t_halt tr w ts c s u s' :
    treach tr w ts → ts !! c = Some s → view w c = Some u → MailTest (far c) s u = Some (s', DoHalt) →
    treach tr w (<[c := s']> ts).

(** ** What is expected *)

Definition hello_from (c : Z) : message := (mkPacket (far c) c 25, mkMailHdr 0 1 13, data).
Definition ack_from (c : Z) : message := (mkPacket (far c) c 20, mkMailHdr 1 1 8, ack).

(** How many messages were given to [Send], and how many lines printed, when the
    test stands at [p]. *)
Definition calls (p : place) : nat := match p with SendHello => 0 | ReceiveHello | SendAck => 1 | _ => 2 end.
Definition prints (p : place) : nat := match p with SendHello | ReceiveHello | SendAck => 0 | ReceiveAck | Finish => 1 | Halted => 2 end.

Definition lines (c : Z) : list (list Z * Z * Z) := [(until_zero data, far c, 1); (until_zero ack, far c, 1)].

Definition sends (u : user_at) : bool :=
  match u with UIdle | USend _ _ _ | ULock _ _ | UPacket _ _ | USent | UUnlock => true | _ => false end.
Definition gets (box : Z) (u : user_at) : bool :=
  match u with UReceive c _ | UGet c _ _ => c =? box | UGot _ _ _ => true | _ => false end.

Definition stands (p : place) (u : user_at) : bool :=
  match p with
  | SendHello => match u with UIdle => true | _ => false end
  | ReceiveHello | ReceiveAck => sends u
  | SendAck => gets 0 u
  | Finish => gets 1 u
  | Halted => match u with UGot _ _ _ => true | _ => false end
  end.

(** The boxes and messages of the events of taking out. *)
Definition pairs (tr : list event) : list (Z * message) := omap (λ e, match e with EGot _ _ c m => Some (c, m) | _ => None end) tr.

Definition has (u : user_at) : bool := match received u with Some _ => true | None => false end.

Definition boxes_at (p : place) (u : user_at) : list Z :=
  match p with
  | SendHello | ReceiveHello => []
  | SendAck => if has u then [0] else []
  | ReceiveAck => [0]
  | Finish => if has u then [0; 1] else [0]
  | Halted => [0; 1]
  end.

(** ** Steps of a thread *)

(** A packet goes to the machine that its header names. *)
Definition dest_ok (e : event) : Prop := match e with ESent _ _ d m => to m.1.1 = d | _ => True end.

Definition net_user : node → nat → user_at → Z → option (result (node * option (Z * wire) * list event)) :=
  user HOST_IS_BIG_ENDIAN NetworkSendDone_addr network_addr uninit.

(** One step of [SynchList::Remove], by what the thread has. *)
Lemma remove_shape (l : SynchList.SynchList Mail) t p l' p' :
  SynchList.step l t p = Some (Ok (l', p')) → remove_place p = true →
  match p, p' with
  | SynchList.RTake, SynchList.RRelease _ => True
  | SynchList.RTake, _ => False
  | SynchList.RRelease m, q => q = SynchList.RDone m
  | _, (SynchList.RTest | SynchList.RWait | SynchList.RWaiting | SynchList.RTake) => True
  | _, _ => False
  end.
Proof.
  intros H Hp. destruct p; try done; simpl in H; try (destruct (decide _); [done|]);
    try (destruct (SynchList.Acquire l t); simplify_eq/=); try (destruct (SynchList.Wait l t); simplify_eq/=); try (destruct (SynchList.list_Remove l) as [[]]; simplify_eq/=);
    simplify_eq; try done; by destruct (SynchList.list_ l').
Qed.

(** In the middle of a call. *)
Definition busy (u : user_at) : bool := match u with UIdle | UGot _ _ _ => false | _ => true end.

Lemma user_shape n t u random n' x e :
  net_user n t u random = Some (Ok (n', x, e)) → (∀ c r p, u = UGet c r p → remove_place p = true) →
  ∃ u', threads n' = <[t := User u']> (threads n) ∧ Forall dest_ok e ∧ busy u = true ∧ called e = [] ∧
    (sends u = true → sends u' = true ∧ pairs e = []) ∧
    (∀ c, gets c u = true → gets c u' = true ∧ (pairs e).*1 = if has u' && negb (has u) then [c] else []) ∧
    (has u = true → has u' = true).
Proof.
  intros H Hp. unfold net_user, user in H. destruct u as [|h m d|h bs|h bs| | |c r|c r p|]; try done.
  - destruct (prepare _ _ _ _ _ _) as [[h' bs]|]; simplify_eq/=. by eexists.
  - destruct (acquire _ _); simplify_eq/=. by eexists.
  - destruct (Send _ _ _ _ _ _ _ _) as [[l [w|]]|]; simplify_eq/=; (eexists; split; [reflexivity|]; split; [by apply Forall_singleton|]; by split_and!).
  - destruct (P _); simplify_eq/=. by eexists.
  - simplify_eq/=. by eexists.
  - destruct (ASSERT _); simplify_eq/=. eexists. split; [reflexivity|]. by split_and!.
  - specialize (Hp c r p eq_refl). unfold box_step in H. destruct (aget _ _) as [l|]; [|done]. simpl in H.
    destruct (SynchList.step l t p) as [[[l' p']|]|] eqn:Es; try done. simpl in H.
    destruct (aset _ _ _) as [bs|]; [|done]. simpl in H. pose proof (remove_shape l t p l' p' Es Hp) as Hs.
    destruct p; try done; destruct p'; try done; simplify_eq/=;
      try (eexists; split; [reflexivity|]; split; [by repeat constructor|]; split_and!; try done; intros k Hk;
           first [by split|split; [done|simpl in *; by apply Z.eqb_eq in Hk as ->]]).
    destruct (Get _ _ _) as [[[h m] d]|]; [|done]. simpl in H. destruct (ASSERT _); simplify_eq/=.
    eexists. split; [reflexivity|]. by split_and!.
Qed.
(** ** Steps of a machine *)

Context (Hdiffer : NetworkReadPoll_addr ≠ NetworkSendDone_addr).
Context {locks : RealLocks}.

Definition net_inv : list event → gmap Z node → Prop :=
  WInv HOST_IS_BIG_ENDIAN NetworkReadPoll_addr NetworkSendDone_addr network_addr uninit 10.
Definition node_inv (c : Z) (k : Z → Prop) (n : node) : Prop :=
  NInv HOST_IS_BIG_ENDIAN NetworkReadPoll_addr NetworkSendDone_addr network_addr uninit 10 c k n.

Definition two_threads (w : gmap Z node) : Prop := ∀ d n, w !! d = Some n → length (threads n) = 2%nat.

Lemma threads_two c k n : node_inv c k n → length (threads n) = 2%nat → ∃ buf p u, threads n = [Worker buf p; User u].
Proof.
  intros V Hl. pose proof (n_threads _ _ _ _ _ _ _ _ _ V) as Hs. rewrite Hl in Hs.
  destruct (threads n) as [|[buf p|] [|[|u] [|]]]; try done. eauto.
Qed.

Lemma view_here w c n : w !! c = Some n → view w c = match threads n !! 1%nat with Some (User u) => Some u | _ => None end.
Proof. unfold view. by intros ->. Qed.
Lemma view_eq w c n : view (<[c := n]> w) c = match threads n !! 1%nat with Some (User u) => Some u | _ => None end.
Proof. apply view_here, lookup_insert_eq. Qed.
Lemma view_ne w c d n : d ≠ c → view (<[c := n]> w) d = view w d.
Proof. intros Hne. unfold view. by rewrite lookup_insert_ne. Qed.

Lemma two_insert w c n : two_threads w → length (threads n) = 2%nat → two_threads (<[c := n]> w).
Proof. intros Hw Hn d m Hm. destruct (decide (d = c)) as [->|]; [rewrite lookup_insert_eq in Hm; by simplify_eq|rewrite lookup_insert_ne in Hm by done; eauto]. Qed.

Lemma dom_insert_same (w : gmap Z node) c n n' : w !! c = Some n → ∀ d, is_Some (<[c := n']> w !! d) ↔ is_Some (w !! d).
Proof. intros Hc d. destruct (decide (d = c)) as [->|]; [by rewrite lookup_insert_eq, Hc|by rewrite lookup_insert_ne]. Qed.

(** The socket of a machine does not show in its threads. *)
Lemma socket_view w x w' :
  SendToSocket w x = Ok w' → two_threads w →
  two_threads w' ∧ (∀ d, is_Some (w' !! d) ↔ is_Some (w !! d)) ∧ ∀ d, view w' d = view w d.
Proof.
  intros H Hw. unfold SendToSocket in H. destruct x as [[c p]|]; [|by simplify_eq]. destruct (w !! c) as [n|] eqn:Hc; simplify_eq.
  split; [apply two_insert; [done|]; exact (Hw c n Hc)|]. split; [by eapply dom_insert_same|]. intros d.
  destruct (decide (d = c)) as [->|]; [|by rewrite view_ne]. by rewrite view_eq, (view_here w c n Hc).
Qed.

(** What a step of the thread of the test does. *)
Definition test_step (u u' : user_at) (e : list event) : Prop :=
  busy u = true ∧ called e = [] ∧
  (sends u = true → sends u' = true ∧ pairs e = []) ∧
  (∀ c, gets c u = true → gets c u' = true ∧ (pairs e).*1 = if has u' && negb (has u) then [c] else []) ∧
  (has u = true → has u' = true).

Lemma delivery_threads n t buf p n' :
  PostalDelivery HOST_IS_BIG_ENDIAN uninit n t buf p = Some (Ok n') → length (threads n') = length (threads n).
Proof.
  intros H. destruct p as [| |c q]; simpl in H.
  - destruct (P _); simplify_eq/=. by rewrite length_insert.
  - destruct (deliver _ _ _ _) as [[[o buf'] p']|]; simplify_eq/=. by rewrite length_insert.
  - destruct (box_step _ _ _ _) as [[[o p']|]|]; simplify_eq/=. by rewrite length_insert.
Qed.

Lemma inner_step tr w c x w' e :
  net_inv tr w → two_threads w → inner c x → net_act w x = Some (Ok (w', e)) →
  two_threads w' ∧ (∀ d, is_Some (w' !! d) ↔ is_Some (w !! d)) ∧
  Forall (λ y, actor y = (c, 1%nat) ∧ dest_ok y) e ∧
  (∀ d, d ≠ c → view w' d = view w d) ∧
  (e = [] ∧ view w' c = view w c ∨ ∃ u u', view w c = Some u ∧ view w' c = Some u' ∧ test_step u u' e).
Proof.
  intros W Hw Hx H. destruct x as [|d i|d t random| |]; try done; simpl in Hx; subst d; simpl in H;
    (destruct (w !! c) as [n|] eqn:Hc; [|done]); simpl in H; pose proof (w_node _ _ _ _ _ _ _ _ W c n Hc) as V.
  - destruct (take_interrupt _ _ _ _ n i) as [r|] eqn:Ht; simplify_eq/=.
    destruct (take_interrupt_ok _ _ _ _ _ _ c _ Hdiffer n i r V Ht) as (n' & -> & _ & Hth & _). simplify_eq/=.
    split; [apply two_insert; [done|]; rewrite Hth; exact (Hw c n Hc)|]. split; [by eapply dom_insert_same|]. split; [done|].
    split; [intros d Hd; by apply view_ne|]. left. by rewrite view_eq, (view_here w c n Hc), Hth.
  - destruct (threads_two _ _ _ V (Hw c n Hc)) as (buf & p & u & Eth).
    destruct t as [|[|t]]; rewrite Eth in H; simpl in H; [| |done].
    + destruct (PostalDelivery _ _ n 0 buf p) as [r|] eqn:Hp; simplify_eq/=.
      destruct (PostalDelivery_ok _ _ _ _ _ _ c _ n 0%nat buf p r V) as (n' & -> & V' & _ & Hth); [by rewrite Eth|done|]. simplify_eq/=.
      pose proof (delivery_threads n 0 buf p n' Hp) as Hl.
      assert (length (threads n') = 2%nat) as Hl2 by (rewrite Hl; exact (Hw c n Hc)).
      destruct (threads_two _ _ _ V' Hl2) as (buf' & p' & u' & Eth').
      split; [by apply two_insert|]. split; [by eapply dom_insert_same|]. split; [done|]. split; [intros d Hd; by apply view_ne|]. left.
      split; [done|]. rewrite view_eq, (view_here w c n Hc), Eth'. simpl. symmetry. specialize (Hth 1%nat u'). rewrite Eth' in Hth. by rewrite Hth.
    + destruct (user _ _ _ _ n 1 u random) as [r|] eqn:Hu; simplify_eq/=.
      destruct (user_step_ok _ _ _ _ _ 10 ltac:(unfold is_s32; lia) c _ n 1%nat u random r V) as (n' & y & e' & u' & -> & _ & Hth & _ & _ & Hact & _);
        [by rewrite Eth|done|]. simpl in H.
      destruct (user_shape n 1 u random n' y e' Hu) as (u2 & Hth2 & Hd & Hbusy & Hcalls & Hsend & Hget & Hhas).
      { intros k r p0 ->. pose proof (n_ok _ _ _ _ _ _ _ _ _ V 1%nat (User (UGet k r p0)) ltac:(by rewrite Eth)) as Hok. apply Hok. }
      assert (length (threads n') = 2%nat) as Hl by (rewrite Hth, Eth; done).
      destruct (SendToSocket (<[c:=n']> w) y) as [w1|] eqn:Es; simplify_eq/=.
      destruct (socket_view _ _ _ Es (two_insert w c n' Hw Hl)) as (G1 & G2 & G3).
      split; [done|]. split; [intros d; rewrite G2; by eapply dom_insert_same|]. split; [by apply Forall_and|].
      split; [intros d Hne; rewrite G3; by apply view_ne|]. right. exists u, u2.
      rewrite G3, view_eq, (view_here w c n Hc), Eth, Hth2, Eth. done.
Qed.
(** ** The invariant *)

Context (Hab : a ≠ b) (Ha : is_s32 a) (Hb : is_s32 b).

Lemma far_a : far a = b.
Proof. unfold far. by rewrite Z.eqb_refl. Qed.
Lemma far_b : far b = a.
Proof. unfold far. destruct (Z.eqb_spec b a); congruence. Qed.
Lemma far_far c : c = a ∨ c = b → far (far c) = c ∧ far c ≠ c ∧ (far c = a ∨ far c = b).
Proof. intros [-> | ->]; rewrite ?far_a, ?far_b; rewrite ?far_a, ?far_b; auto. Qed.

(** Where the test of machine [c] stands, and what its thread has done. *)
Record test_ok (tr : list event) (c : Z) (s : test) (u : user_at) : Prop := mkTestOk {
  k_called : called (mine c 1 tr) = take (calls (at_ s)) [hello_from c; ack_from c];
  k_boxes : (pairs (mine c 1 tr)).*1 = boxes_at (at_ s) u;
  k_stands : stands (at_ s) u = true;
  k_printed : printed s = take (prints (at_ s)) (lines c);
  k_from : at_ s ≠ SendHello → mfrom (outMailHdr s) = 1;
}.

Definition event_ok (e : event) : Prop := ((actor e).1 = a ∨ (actor e).1 = b) ∧ (actor e).2 = 1%nat ∧ dest_ok e.

Record TInv (tr : list event) (w : gmap Z node) (ts : gmap Z test) : Prop := mkTInv {
  i_net : net_inv tr w;
  i_two : two_threads w;
  i_dom d : is_Some (w !! d) ↔ d = a ∨ d = b;
  i_events : Forall event_ok tr;
  i_test c : c = a ∨ c = b → ∃ s u, ts !! c = Some s ∧ view w c = Some u ∧ test_ok tr c s u;
  i_tests c s : ts !! c = Some s → c = a ∨ c = b;
}.

Lemma pairs_app tr e : pairs (tr ++ e) = pairs tr ++ pairs e.
Proof. apply omap_app. Qed.

Lemma taken_pairs tr : taken tr = (pairs tr).*2.
Proof. induction tr as [|[]]; simpl; by rewrite ?IHtr; f_equal. Qed.

Lemma elem_pairs tr c k m : (k, m) ∈ pairs (mine c 1 tr) → EGot c 1 k m ∈ tr.
Proof.
  unfold pairs. rewrite list_elem_of_omap. intros (e & He & Heq). apply list_elem_of_filter in He as [Hact He].
  destruct e; simplify_eq/=. done.
Qed.

(** A message that was taken out of a box was sent to it by the other machine. *)
Lemma got_what tr w ts c k m :
  TInv tr w ts → c = a ∨ c = b → EGot c 1 k m ∈ tr → 0 ≤ k < 10 →
  m ∈ handed (mine (far c) 1 tr) ∧ (k = 0 → m = hello_from (far c)) ∧ (k = 1 → m = ack_from (far c)).
Proof.
  intros [I1 I2 I3 I4 I5 I6] Hc He Hk. destruct (proj2 (I3 c) Hc) as [n Hn].
  assert (m ∈ got_from c k tr) as Hgot.
  { unfold got_from. apply list_elem_of_omap. exists (EGot c 1 k m). split; [done|]. by rewrite decide_True. }
  assert (m ∈ sent_to c k tr) as Hsent by (rewrite (w_flow _ _ _ _ _ _ _ _ I1 c n k Hn Hk); apply elem_of_app; by left).
  unfold sent_to in Hsent. apply list_elem_of_omap in Hsent as (y & Hy & Hs). destruct y as [|src t d m'| |]; try done.
  destruct (decide (d = c ∧ mail_to m' = k)) as [[Hd Hto]|]; [|discriminate Hs]. injection Hs as Hm. subst m' d.
  pose proof (proj1 (Forall_forall _ _) I4 _ Hy) as (Hsrc & Ht & Hdest). simpl in Hsrc, Ht, Hdest. subst t.
  destruct (I5 src Hsrc) as (s & u & _ & Hv & Hok).
  destruct (proj2 (I3 src) Hsrc) as [n2 Hn2]. rewrite (view_here w src n2 Hn2) in Hv.
  destruct (threads n2 !! 1%nat) as [[|u2]|] eqn:Hth; try discriminate Hv. injection Hv as ->.
  destruct (w_thread _ _ _ _ _ _ _ _ I1 src n2 1%nat u Hn2 Hth) as [Hcalled _].
  assert (m ∈ handed (mine src 1 tr)) as Hhand.
  { unfold handed. apply list_elem_of_omap. exists (ESent src 1 c m). split; [|done]. unfold mine. by apply list_elem_of_filter. }
  assert (m ∈ called (mine src 1 tr)) as Hin by (rewrite Hcalled; apply elem_of_app; by left).
  assert (m ∈ [hello_from src; ack_from src]) as Hi.
  { rewrite <- (take_drop (calls (at_ s)) [hello_from src; ack_from src]). apply elem_of_app. left. by rewrite <- (k_called _ _ _ _ Hok). }
  assert (far src = c → src = far c) as Hfar by (intros <-; by destruct (far_far src Hsrc) as [-> _]).
  apply elem_of_cons in Hi as [Hi|Hi%list_elem_of_singleton]; subst m; simpl in Hdest; apply Hfar in Hdest as ->;
    rewrite <- Hto; (split; [exact Hhand|]); split; intros E; first [reflexivity|discriminate E].
Qed.
Lemma net_act_ok tr w x r :
  net_inv tr w → valid 10 w x → net_act w x = Some r → ∃ w' e, r = Ok (w', e) ∧ net_inv (tr ++ e) w'.
Proof.
  exact (do_act_ok HOST_IS_BIG_ENDIAN NetworkReadPoll_addr NetworkSendDone_addr network_addr uninit uninit_header 10
           ltac:(unfold is_s32; lia) Hdiffer tr w x r).
Qed.

(** One machine moves. *)
Lemma TInv_move tr w ts c w' e ts' s' u' :
  TInv tr w ts → net_inv (tr ++ e) w' → two_threads w' → (∀ d, is_Some (w' !! d) ↔ is_Some (w !! d)) →
  Forall (λ y, actor y = (c, 1%nat) ∧ dest_ok y) e → c = a ∨ c = b →
  (∀ d, d ≠ c → view w' d = view w d ∧ ts' !! d = ts !! d) → ts' !! c = Some s' → view w' c = Some u' →
  test_ok (tr ++ e) c s' u' → TInv (tr ++ e) w' ts'.
Proof.
  intros [I1 I2 I3 I4 I5 I6] W Htwo Hdom He Hc Hd Hs Hu Hok. split; try done.
  - intros d. by rewrite Hdom.
  - apply Forall_app. split; [done|]. eapply Forall_impl; [exact He|]. intros y [Hy Hy2]. unfold event_ok. by rewrite Hy.
  - intros d Hd'. destruct (decide (d = c)) as [->|Hne]; [by exists s', u'|].
    destruct (Hd d Hne) as [-> ->]. destruct (I5 d Hd') as (s & u & E1 & E2 & [K1 K2 K3 K4 K5]). exists s, u. split_and!; try done.
    assert (mine d 1 e = []) as Hm.
    { apply (mine_other c 1 d 1 e); [|congruence]. eapply Forall_impl; [exact He|]. by intros y [? _]. }
    by split; rewrite ?mine_app, ?Hm, ?app_nil_r.
  - intros d s Hd'. destruct (decide (d = c)) as [->|Hne]; [done|]. apply (I6 d s). by rewrite <- (proj2 (Hd d Hne)).
Qed.

Lemma mine_own c e : Forall (λ y, actor y = (c, 1%nat) ∧ dest_ok y) e → mine c 1 e = e.
Proof. intros He. apply (mine_all c 1 e). eapply Forall_impl; [exact He|]. by intros y [? _]. Qed.

Lemma mine_call c m : mine c 1 [ECall c 1 m] = [ECall c 1 m].
Proof. apply mine_own. apply Forall_singleton. done. Qed.

Lemma test_ok_step tr c s u u' e :
  Forall (λ y, actor y = (c, 1%nat) ∧ dest_ok y) e → test_step u u' e → is_halted s = false → test_ok tr c s u → test_ok (tr ++ e) c s u'.
Proof.
  intros He (Hbusy & Hcall & Hsend & Hget & Hhas) Hh [K1 K2 K3 K4 K5]. unfold is_halted in Hh. destruct s as [p h m out]; simpl in *.
  assert (stands p u' = true ∧ (pairs (mine c 1 tr)).*1 ++ (pairs e).*1 = boxes_at p u') as [G1 G2].
  { rewrite K2. destruct p; simpl in *; try done.
    - by destruct u.
    - by destruct (Hsend K3) as [? ->].
    - destruct (Hget 0 K3) as [G ->]. split; [done|]. destruct (has u) eqn:E; [by rewrite Hhas|]. by destruct (has u').
    - by destruct (Hsend K3) as [? ->].
    - destruct (Hget 1 K3) as [G ->]. split; [done|]. destruct (has u) eqn:E; [by rewrite Hhas|]. by destruct (has u'). }
  split; simpl; try done; rewrite mine_app, (mine_own c e He).
  - by rewrite called_app, Hcall, app_nil_r.
  - by rewrite pairs_app, fmap_app.
Qed.

Lemma TInv_inner tr w ts c s x w' e :
  TInv tr w ts → ts !! c = Some s → is_halted s = false → inner c x → net_act w x = Some (Ok (w', e)) → TInv (tr ++ e) w' ts.
Proof.
  intros I Hs Hh Hx H. pose proof I as [I1 I2 I3 I4 I5 I6]. pose proof (I6 c s Hs) as Hc.
  destruct (net_act_ok tr w x _ I1 ltac:(by destruct x) H) as (w1 & e1 & E1 & W).
  injection E1 as <- <-. destruct (inner_step tr w c x w' e I1 I2 Hx H) as (G1 & G2 & G3 & G4 & G5).
  destruct (I5 c Hc) as (s1 & u & E1 & E2 & Hok). rewrite Hs in E1. injection E1 as <-.
  destruct G5 as [[-> Hv]|(u1 & u' & Hv1 & Hv & Hstep)].
  - eapply (TInv_move tr w ts c w' [] ts s u I); try done; [intros d Hd; by rewrite G4|by rewrite Hv|by rewrite app_nil_r].
  - rewrite E2 in Hv1. injection Hv1 as <-. eapply (TInv_move tr w ts c w' e ts s u' I); try done; [intros d Hd; by rewrite G4|].
    by eapply test_ok_step.
Qed.
(** A call of [Send] or [Receive] by the test. *)
Lemma call_step w c k x w' e n u :
  w !! c = Some n → view w c = Some u → call_act c k = Some x → net_act w x = Some (Ok (w', e)) →
  w' = <[c := set_thread n 1 (User (match k with DoSend h m d => USend h m d | DoReceive box room => UReceive box room | DoHalt => u end))]> w ∧
  e = match k with DoSend h m d => [ECall c 1 (sent_message c h m d)] | _ => [] end.
Proof.
  intros Hn Hv Hx H. destruct k as [h m d|box room|]; simplify_eq/=; rewrite Hn in H; simpl in H; destruct (free_to_call n 1); simplify_eq/=; done.
Qed.

(** What the thread got last. *)
Lemma last_got tr w ts c s h m d k l :
  TInv tr w ts → c = a ∨ c = b → view w c = Some (UGot h m d) → ts !! c = Some s → (pairs (mine c 1 tr)).*1 = l ++ [k] → 0 ≤ k < 10 →
  (k = 0 → (h, m, d) = hello_from (far c)) ∧ (k = 1 → (h, m, d) = ack_from (far c)).
Proof.
  intros I Hc Hv Hs Hp Hk. apply (got_what tr w ts c k _ I Hc); [|done]. apply elem_pairs.
  destruct (proj2 (i_dom _ _ _ I c) Hc) as [n Hn]. rewrite (view_here w c n Hn) in Hv.
  destruct (threads n !! 1%nat) as [[|u]|] eqn:Hth; simplify_eq/=.
  destruct (w_thread _ _ _ _ _ _ _ _ (i_net _ _ _ I) c n 1%nat _ Hn Hth) as [_ Hlast]. specialize (Hlast _ eq_refl).
  rewrite taken_pairs in Hlast. destruct (pairs (mine c 1 tr)) as [|q qs _] using rev_ind; [by destruct l|].
  rewrite !fmap_app in *. simpl in *. rewrite last_snoc in Hlast. apply app_inj_tail in Hp as [_ Hq]. destruct q as [k' m']; simplify_eq/=.
  apply elem_of_app. right. by apply list_elem_of_singleton.
Qed.

(** The next statement of the test, given what the thread got. *)
Lemma next_ok tr w ts c s u s' k :
  TInv tr w ts → c = a ∨ c = b → ts !! c = Some s → view w c = Some u → MailTest (far c) s u = Some (s', k) → test_ok tr c s u →
  let u' := match k with DoSend h m d => USend h m d | DoReceive box room => UReceive box room | DoHalt => u end in
  let e := match k with DoSend h m d => [ECall c 1 (sent_message c h m d)] | _ => [] end in
  match call_act c k with Some x => valid 10 w x | None => True end ∧ test_ok (tr ++ e) c s' u'.
Proof.
  intros I Hc Hs Hv H Hok. destruct s as [p h m out]. pose proof Hok as [K1 K2 K3 K4 K5]. simpl in *.
  assert (is_Some (w !! far c)) as Hfar by (apply (i_dom _ _ _ I); by destruct (far_far c Hc) as (_ & _ & ?)).
  destruct p, u as [| | | | | | | |h' m' d']; simplify_eq/=.
  - split; [split; [done|by split; vm_compute]|].
    split; simpl; try done; rewrite mine_app, mine_call; [by rewrite called_app, K1|].
    by rewrite pairs_app, app_nil_r.
  - split; [done|]. split; rewrite ?app_nil_r; try done. intros _. by apply K5.
  - destruct (last_got tr w ts c _ h' m' d' 0 [] I Hc Hv Hs) as [Hgot _]; [done|lia|]. specialize (Hgot eq_refl).
    unfold hello_from in Hgot. destruct (far_far c Hc) as (Hff & _ & _). rewrite Hff in Hgot. simplify_eq/=.
    split; [split; [done|split; simpl; rewrite ?(K5 ltac:(done)); vm_compute; done]|].
    split; simpl; try done.
    + rewrite mine_app, mine_call. rewrite called_app, K1. simpl. by rewrite (K5 ltac:(done)).
    + rewrite mine_app, mine_call. by rewrite pairs_app, app_nil_r.
    + intros _. by apply K5.
  - split; [done|]. split; rewrite ?app_nil_r; try done. intros _. by apply K5.
  - destruct (last_got tr w ts c _ h' m' d' 1 [0] I Hc Hv Hs) as [_ Hgot]; [done|lia|]. specialize (Hgot eq_refl).
    unfold ack_from in Hgot. destruct (far_far c Hc) as (Hff & _ & _). rewrite Hff in Hgot. simplify_eq/=.
    split; [done|]. split; simpl; rewrite ?app_nil_r; try done. intros _. by apply K5.
Qed.
Lemma TInv_start : TInv [] (<[b := boot b]> (<[a := boot a]> ∅)) (<[b := test_0]> (<[a := test_0]> ∅)).
Proof.
  assert (∀ d : Z, (<[b := boot b]> (<[a := boot a]> ∅) : gmap Z node) !! d = if decide (d = b) then Some (boot b) else if decide (d = a) then Some (boot a) else None) as Hlook.
  { intros d. repeat case_decide; subst; by rewrite ?lookup_insert_eq, ?lookup_insert_ne, ?lookup_insert_eq, ?lookup_empty by congruence. }
  split.
  - apply (reach_WInv HOST_IS_BIG_ENDIAN NetworkReadPoll_addr NetworkSendDone_addr network_addr uninit uninit_header 10
             ltac:(unfold is_s32; lia) Hdiffer).
    apply (reach_act _ _ _ _ _ _ _ [] (<[a := boot a]> ∅) (Boot b reliability 1) _ []); [|done|simpl; by rewrite lookup_insert_ne].
    by apply (reach_act _ _ _ _ _ _ _ [] ∅ (Boot a reliability 1) _ []); [apply reach_start|..].
  - intros d n. rewrite Hlook. repeat case_decide; intros; simplify_eq; done.
  - intros d. rewrite Hlook. repeat case_decide; subst; rewrite ?is_Some_alt; naive_solver.
  - done.
  - intros c Hc. exists test_0, UIdle. unfold view. rewrite Hlook. split; [|split].
    + destruct Hc as [-> | ->]; by rewrite ?lookup_insert_eq, ?lookup_insert_ne, ?lookup_insert_eq by congruence.
    + destruct Hc as [-> | ->]; repeat case_decide; by subst.
    + by split.
  - intros c s Hs. destruct (decide (c = b)) as [->|]; [by right|]. destruct (decide (c = a)) as [->|]; [by left|].
    by rewrite !lookup_insert_ne in Hs by congruence.
Qed.

Lemma TInv_call tr w ts c s u s' k x w' e :
  TInv tr w ts → ts !! c = Some s → view w c = Some u → MailTest (far c) s u = Some (s', k) → call_act c k = Some x →
  net_act w x = Some (Ok (w', e)) → TInv (tr ++ e) w' (<[c := s']> ts).
Proof.
  intros I Hs Hv Hm Hx H. pose proof (i_tests _ _ _ I c s Hs) as Hc. destruct (i_test _ _ _ I c Hc) as (s1 & u1 & E1 & E2 & Hok).
  rewrite Hs in E1. rewrite Hv in E2. injection E1 as <-. injection E2 as <-.
  destruct (next_ok tr w ts c s u s' k I Hc Hs Hv Hm Hok) as [Hval Hok']. rewrite Hx in Hval.
  destruct (net_act_ok tr w x _ (i_net _ _ _ I) Hval H) as (w1 & e1 & E1 & W). injection E1 as <- <-.
  destruct (proj2 (i_dom _ _ _ I c) Hc) as [n Hn]. destruct (call_step w c k x w' e n u Hn Hv Hx H) as [-> ->].
  pose proof (i_two _ _ _ I c n Hn) as Hl.
  eapply (TInv_move tr w ts c _ _ _ s' _ I W); try done.
  - apply two_insert; [apply I|]. simpl. by rewrite length_insert.
  - by eapply dom_insert_same.
  - destruct k; [by apply Forall_singleton|done..].
  - intros d Hd. by rewrite view_ne, lookup_insert_ne.
  - by rewrite lookup_insert_eq.
  - rewrite view_eq. simpl. rewrite list_lookup_insert_eq by lia. reflexivity.
Qed.

Lemma TInv_reach tr w ts : treach tr w ts → TInv tr w ts.
Proof.
  induction 1 as [|tr w ts c s x w' e _ I Hs Hh Hx H|tr w ts c s u s' k x w' e _ I Hs Hv Hm Hx H|tr w ts c s u s' _ I Hs Hv Hm].
  - apply TInv_start.
  - by eapply TInv_inner.
  - by eapply TInv_call.
  - pose proof (i_tests _ _ _ I c s Hs) as Hc. destruct (i_test _ _ _ I c Hc) as (s1 & u1 & E1 & E2 & Hok).
    rewrite Hs in E1. rewrite Hv in E2. injection E1 as <-. injection E2 as <-.
    destruct (next_ok tr w ts c s u s' DoHalt I Hc Hs Hv Hm Hok) as [_ Hok']. cbv zeta in Hok'.
    rewrite <- (app_nil_r tr). eapply (TInv_move tr w ts c w [] _ s' u I); try done; [rewrite app_nil_r; apply I|apply I| |by rewrite lookup_insert_eq].
    intros d Hd. by rewrite lookup_insert_ne.
Qed.
(** ** When nothing is left to do *)

Definition net_quiet : node → Prop := node_quiet HOST_IS_BIG_ENDIAN NetworkReadPoll_addr NetworkSendDone_addr network_addr uninit.

(** No machine that runs can go on, and no test makes its next call. *)
Definition at_rest (w : gmap Z node) (ts : gmap Z test) : Prop :=
  ∀ c s n, ts !! c = Some s → w !! c = Some n → is_halted s = false →
    net_quiet n ∧ ∀ u, view w c = Some u → MailTest (far c) s u = None.

(** The network lost nothing. *)
Definition none_lost (tr : list event) : Prop := ∀ c t m, ELost c t m ∉ tr.

Lemma thread_of w c u : view w c = Some u → ∃ n, w !! c = Some n ∧ threads n !! 1%nat = Some (User u).
Proof. unfold view. destruct (w !! c) as [n|]; [|done]. simpl. intros H. exists n. split; [done|]. by destruct (threads n !! 1%nat) as [[]|]; simplify_eq. Qed.

Definition hand (c : Z) (u : user_at) : list message := in_hand HOST_IS_BIG_ENDIAN c u.

Lemma called_handed tr w ts c s u :
  TInv tr w ts → ts !! c = Some s → view w c = Some u →
  handed (mine c 1 tr) ++ hand c u = take (calls (at_ s)) [hello_from c; ack_from c].
Proof.
  intros I Hs Hv. pose proof (i_tests _ _ _ I c s Hs) as Hc. destruct (i_test _ _ _ I c Hc) as (s1 & u1 & E1 & E2 & Hok).
  rewrite Hs in E1. rewrite Hv in E2. injection E1 as <-. injection E2 as <-. destruct (thread_of w c u Hv) as (n & Hn & Hth).
  destruct (w_thread _ _ _ _ _ _ _ _ (i_net _ _ _ I) c n 1%nat u Hn Hth) as [Hcall _]. rewrite <- (k_called _ _ _ _ Hok). symmetry. exact Hcall.
Qed.

(** A message that was handed over and not lost is on its way to the other
    machine. *)
Lemma handed_sent tr w ts c m :
  TInv tr w ts → none_lost tr → m ∈ handed (mine c 1 tr) → m ∈ sent_to (to m.1.1) (mail_to m) tr.
Proof.
  intros I Hl Hm. unfold handed in Hm. apply list_elem_of_omap in Hm as (y & Hy & E). apply list_elem_of_filter in Hy as [Hact Hy].
  destruct y as [|src t d m'|src t m'|]; simplify_eq/=; [|by destruct (Hl c 1%nat m)].
  pose proof (proj1 (Forall_forall _ _) (i_events _ _ _ I) _ Hy) as (_ & _ & Hd). simpl in Hd.
  unfold sent_to. apply list_elem_of_omap. exists (ESent c 1 d m). split; [done|]. by rewrite decide_True.
Qed.

(** A test at rest that has not halted waits for a box to which nothing was
    sent. *)
Lemma rest_waits tr w ts c s :
  TInv tr w ts → at_rest w ts → ts !! c = Some s → is_halted s = false →
  (at_ s = SendAck ∧ sent_to c 0 tr = []) ∨ (at_ s = Finish ∧ sent_to c 1 tr = []).
Proof.
  intros I Hrest Hs Hh. pose proof (i_tests _ _ _ I c s Hs) as Hc. destruct (i_test _ _ _ I c Hc) as (s1 & u & E1 & Hv & [K1 K2 K3 K4 K5]).
  rewrite Hs in E1. injection E1 as <-. destruct (thread_of w c u Hv) as (n & Hn & Hth). destruct (Hrest c s n Hs Hn Hh) as [Hq Hnext].
  specialize (Hnext u Hv). pose proof (w_node _ _ _ _ _ _ _ _ (i_net _ _ _ I) c n Hn) as V.
  destruct (quiet_ok _ _ _ _ _ _ c _ Hdiffer n V Hq) as [Hu Hplace]. specialize (Hplace 1%nat u Hth).
  assert (∃ k room, u = UGet k room SynchList.RWaiting) as (k & room & ->).
  { destruct s as [p h m out]. destruct p, u as [| | | | | | |k room []|]; simpl in *; try done; eauto. }
  assert (0 ≤ k < 10 ∧ (k ∉ (pairs (mine c 1 tr)).*1) ∧ (at_ s = SendAck ∧ k = 0 ∨ at_ s = Finish ∧ k = 1)) as (Hk & Hnot & Hcase).
  { rewrite K2. destruct s as [p h m out]. destruct p; simpl in *; try done; apply Z.eqb_eq in K3 as ->; split_and!; try lia; auto.
    - apply not_elem_of_nil.
    - rewrite list_elem_of_singleton. lia. }
  assert (sent_to c k tr = []) as Hsent.
  { rewrite (w_flow _ _ _ _ _ _ _ _ (i_net _ _ _ I) c n k Hn Hk). unfold in_transit. rewrite Hu, Hplace, filter_nil, !app_nil_r.
    apply elem_of_nil_inv. intros m Hm. unfold got_from in Hm. apply list_elem_of_omap in Hm as (y & Hy & E). destruct y as [| | |d t j m']; try done.
    destruct (decide (d = c ∧ j = k)) as [[-> ->]|]; simplify_eq.
    pose proof (proj1 (Forall_forall _ _) (i_events _ _ _ I) _ Hy) as (_ & Ht & _). simpl in Ht. subst t.
    apply Hnot, list_elem_of_fmap. exists (k, m). split; [done|]. unfold pairs. apply list_elem_of_omap. exists (EGot c 1 k m). split; [|done].
    unfold mine. by apply list_elem_of_filter. }
  destruct Hcase as [[-> ->]|[-> ->]]; auto.
Qed.

(** At rest every message of a test is under way or has arrived. *)
Lemma rest_sent tr w ts c s m :
  TInv tr w ts → at_rest w ts → none_lost tr → ts !! c = Some s → m ∈ take (calls (at_ s)) [hello_from c; ack_from c] →
  m ∈ sent_to (far c) (mail_to m) tr.
Proof.
  intros I Hrest Hl Hs Hm. pose proof (i_tests _ _ _ I c s Hs) as Hc. destruct (i_test _ _ _ I c Hc) as (s1 & u & E1 & Hv & Hok).
  rewrite Hs in E1. injection E1 as <-. rewrite <- (called_handed tr w ts c s u I Hs Hv) in Hm.
  assert (hand c u = []) as Hhand.
  { destruct (is_halted s) eqn:Hh.
    - pose proof (k_stands _ _ _ _ Hok) as Hst. unfold is_halted in Hh. destruct (at_ s); try done. by destruct u.
    - pose proof (k_stands _ _ _ _ Hok) as Hst. destruct (rest_waits tr w ts c s I Hrest Hs Hh) as [[E _]|[E _]]; rewrite E in Hst; by destruct u. }
  rewrite Hhand, app_nil_r in Hm. pose proof (handed_sent tr w ts c m I Hl Hm) as Hsent.
  assert (to m.1.1 = far c) as <-; [|done].
  assert (m ∈ [hello_from c; ack_from c]) as Hin.
  { rewrite <- (take_drop (calls (at_ s)) [hello_from c; ack_from c]). apply elem_of_app. left.
    rewrite <- (called_handed tr w ts c s u I Hs Hv). apply elem_of_app. by left. }
  apply elem_of_cons in Hin as [Hin|Hin%list_elem_of_singleton]; by rewrite Hin.
Qed.

Lemma rest_halted tr w ts c s : TInv tr w ts → at_rest w ts → none_lost tr → ts !! c = Some s → is_halted s = true.
Proof.
  intros I Hrest Hl Hs. destruct (is_halted s) eqn:Hh; [done|exfalso].
  assert (∀ c s, ts !! c = Some s → is_halted s = false → at_ s = SendAck → False) as Hno.
  { intros d s1 Hd Hh1 E. pose proof (i_tests _ _ _ I d s1 Hd) as Hc. destruct (far_far d Hc) as (F1 & F2 & F3).
    destruct (i_test _ _ _ I (far d) F3) as (s2 & u2 & Hs2 & _). destruct (rest_waits tr w ts d s1 I Hrest Hd Hh1) as [[_ Hnone]|[E2 _]]; [|congruence].
    assert (hello_from (far d) ∈ sent_to (far (far d)) (mail_to (hello_from (far d))) tr) as Hin.
    { eapply rest_sent; try done. destruct (is_halted s2) eqn:Hh2.
      - unfold is_halted in Hh2. destruct (at_ s2); try done. by left.
      - destruct (rest_waits tr w ts (far d) s2 I Hrest Hs2 Hh2) as [[-> _]|[-> _]]; by left. }
    rewrite F1 in Hin. change (mail_to (hello_from (far d))) with 0 in Hin. rewrite Hnone in Hin. by apply not_elem_of_nil in Hin. }
  destruct (rest_waits tr w ts c s I Hrest Hs Hh) as [[E _]|[E Hnone]]; [by eapply Hno|].
  pose proof (i_tests _ _ _ I c s Hs) as Hc. destruct (far_far c Hc) as (F1 & F2 & F3).
  destruct (i_test _ _ _ I (far c) F3) as (s2 & u2 & Hs2 & _).
  assert (ack_from (far c) ∈ sent_to (far (far c)) (mail_to (ack_from (far c))) tr) as Hin.
  { eapply rest_sent; try done. destruct (is_halted s2) eqn:Hh2.
    - unfold is_halted in Hh2. destruct (at_ s2); try done. right. by left.
    - destruct (rest_waits tr w ts (far c) s2 I Hrest Hs2 Hh2) as [[E2 _]|[-> _]]; [by destruct (Hno _ _ Hs2 Hh2 E2)|]. right. by left. }
  rewrite F1 in Hin. change (mail_to (ack_from (far c))) with 1 in Hin. rewrite Hnone in Hin. by apply not_elem_of_nil in Hin.
Qed.
(** What a machine calls is accepted. *)
Lemma call_accepted tr w ts c s u s' k x :
  TInv tr w ts → ts !! c = Some s → view w c = Some u → MailTest (far c) s u = Some (s', k) → call_act c k = Some x → valid 10 w x →
  ∃ w' e, net_act w x = Some (Ok (w', e)).
Proof.
  intros I Hs Hv Hm Hx Hval. destruct (thread_of w c u Hv) as (n & Hn & Hth).
  assert (free_to_call n 1 = true) as Hfree.
  { unfold free_to_call. rewrite Hth. destruct s as [p h m out]. by destruct p, u. }
  destruct k as [h m d|box room|]; simplify_eq/=; rewrite Hn; simpl; rewrite Hfree; eauto.
Qed.

(** When a machine has halted, it has the acknowledgement of the other. *)
Lemma halted_other tr w ts c s s2 u2 :
  TInv tr w ts → ts !! c = Some s → is_halted s = true → ts !! far c = Some s2 → view w (far c) = Some u2 →
  calls (at_ s2) = 2%nat ∧ hand (far c) u2 = [].
Proof.
  intros I Hs Hh Hs2 Hv2. pose proof (i_tests _ _ _ I c s Hs) as Hc. destruct (i_test _ _ _ I c Hc) as (s1 & u & E1 & _ & Hok).
  rewrite Hs in E1. injection E1 as <-. pose proof (k_boxes _ _ _ _ Hok) as Hbs. unfold is_halted in Hh.
  assert (boxes_at (at_ s) u = [0; 1]) as Hbx by (by destruct (at_ s)). rewrite Hbx in Hbs.
  destruct (pairs (mine c 1 tr)) as [|q [|[k m] [|]]] eqn:Ep; try done. simpl in Hbs. injection Hbs as _ ->.
  assert (EGot c 1 1 m ∈ tr) as He by (apply elem_pairs; rewrite Ep; right; by left).
  destruct (got_what tr w ts c 1 m I Hc He ltac:(lia)) as (Hhand & _ & Hm). rewrite (Hm eq_refl) in Hhand.
  pose proof (called_handed tr w ts (far c) s2 u2 I Hs2 Hv2) as E.
  destruct (handed (mine (far c) 1 tr)) as [|x [|y l]]; [by apply not_elem_of_nil in Hhand| |].
  - apply list_elem_of_singleton in Hhand as <-. by destruct (calls (at_ s2)) as [|[|]].
  - destruct (at_ s2); try discriminate E; simpl in E; injection E as _ _ E; apply app_eq_nil in E as [_ E]; done.
Qed.

(** ** Theorems *)

(** What a test does and prints, and that nothing stops it. *)
Lemma exchanges tr w ts c s u :
  treach tr w ts → ts !! c = Some s → view w c = Some u →
  printed s = take (prints (at_ s)) (lines c) ∧
  (∀ x e, inner c x → net_act w x ≠ Some (Err e)) ∧
  (∀ s' k x, MailTest (far c) s u = Some (s', k) → call_act c k = Some x → ∃ w' e, net_act w x = Some (Ok (w', e))) ∧
  (is_halted s = true → ∃ s2 u2, ts !! far c = Some s2 ∧ view w (far c) = Some u2 ∧ calls (at_ s2) = 2%nat ∧ hand (far c) u2 = []).
Proof.
  intros I%TInv_reach Hs Hv. pose proof (i_tests _ _ _ I c s Hs) as Hc. destruct (i_test _ _ _ I c Hc) as (s1 & u1 & E1 & E2 & Hok).
  rewrite Hs in E1. rewrite Hv in E2. injection E1 as <-. injection E2 as <-. split_and!.
  - apply Hok.
  - intros x e Hx H. destruct (net_act_ok tr w x _ (i_net _ _ _ I) ltac:(by destruct x) H) as (? & ? & ? & _). done.
  - intros s' k x Hm Hx. destruct (next_ok tr w ts c s u s' k I Hc Hs Hv Hm Hok) as [Hval _]. rewrite Hx in Hval.
    by eapply call_accepted.
  - intros Hh. destruct (far_far c Hc) as (F1 & F2 & F3). destruct (i_test _ _ _ I (far c) F3) as (s2 & u2 & Hs2 & Hv2 & _).
    exists s2, u2. split; [done|]. split; [done|]. by eapply halted_other.
Qed.

(** C33: in a build with THREADS, on a network that loses nothing, the test ends:
    when no machine that still runs can go on, both have halted and have printed
    both lines. *)
Theorem mail_test_finishes tr w ts :
  treach tr w ts → none_lost tr → at_rest w ts →
  ∀ c, c = a ∨ c = b → ∃ s, ts !! c = Some s ∧ at_ s = Halted ∧ printed s = lines c.
Proof.
  intros I%TInv_reach Hl Hrest c Hc. destruct (i_test _ _ _ I c Hc) as (s & u & Hs & _ & Hok). exists s. split; [done|].
  pose proof (rest_halted tr w ts c s I Hrest Hl Hs) as Hh. unfold is_halted in Hh.
  pose proof (k_printed _ _ _ _ Hok) as Hp. destruct (at_ s); try done.
Qed.

(** *** Schedules *)

Inductive move_ := MInner (x : act) | MTest (c : Z).

Definition machine_of (x : act) : Z := match x with Boot c _ _ | Take c _ | Run c _ _ | CallSend c _ _ _ _ | CallReceive c _ _ _ => c end.
Definition innerb (x : act) : bool := match x with Take _ _ | Run _ _ _ => true | _ => false end.

Fixpoint tplay (tr : list event) (w : gmap Z node) (ts : gmap Z test) (l : list move_) : option (list event * gmap Z node * gmap Z test) :=
  match l with
  | [] => Some (tr, w, ts)
  | MInner x :: l =>
    s ← ts !! machine_of x;
    if innerb x && negb (is_halted s) then match net_act w x with Some (Ok (w, e)) => tplay (tr ++ e) w ts l | _ => None end else None
  | MTest c :: l =>
    s ← ts !! c; u ← view w c; '(s', k) ← MailTest (far c) s u;
    match call_act c k with
    | Some x => match net_act w x with Some (Ok (w, e)) => tplay (tr ++ e) w (<[c := s']> ts) l | _ => None end
    | None => tplay tr w (<[c := s']> ts) l
    end
  end.

Lemma tplay_reach l : ∀ tr w ts tr' w' ts', treach tr w ts → tplay tr w ts l = Some (tr', w', ts') → treach tr' w' ts'.
Proof.
  induction l as [|[x|c] l IH]; intros tr w ts tr' w' ts' Hr H; simpl in H; [by simplify_eq|..].
  - destruct (ts !! machine_of x) as [s|] eqn:Hs; [|done]. simpl in H. destruct (innerb x) eqn:Hx; [|done]. destruct (is_halted s) eqn:Hh; [done|]. simpl in H.
    destruct (net_act w x) as [[[w1 e]|]|] eqn:E; try done. eapply IH; [|exact H]. eapply (t_inner tr w ts (machine_of x) s x w1 e); try done. by destruct x.
  - destruct (ts !! c) as [s|] eqn:Hs; [|done]. simpl in H. destruct (view w c) as [u|] eqn:Hv; [|done]. simpl in H.
    destruct (MailTest (far c) s u) as [[s' k]|] eqn:Hm; [|done]. simpl in H. destruct (call_act c k) as [x|] eqn:Hk.
    + destruct (net_act w x) as [[[w1 e]|]|] eqn:E; try done. eapply IH; [|exact H]. by eapply t_call.
    + destruct k; try done. eapply IH; [|exact H]. by eapply t_halt.
Qed.
End two.

(** *** Witnesses: machines 0 and 1 *)


Definition runs (c : Z) (t n : nat) : list move_ := replicate n (MInner (Run c t 0)).
Definition sends_ (c : Z) : list move_ := MTest c :: runs c 1 3 ++ [MInner (Take c 1)] ++ runs c 1 2.
Definition delivers (c : Z) : list move_ := MInner (Take c 0) :: runs c 0 6.
Definition receives (c : Z) : list move_ := MTest c :: runs c 1 5.
Definition whole_test : list move_ :=
  sends_ 0 ++ sends_ 1 ++ delivers 1 ++ delivers 0 ++ receives 0 ++ receives 1 ++
  sends_ 0 ++ sends_ 1 ++ delivers 0 ++ delivers 1 ++ receives 0 ++ receives 1 ++ [MTest 0; MTest 1].

(** ** Both builds *)

Section builds.
Context (HOST_IS_BIG_ENDIAN : bool) (NetworkReadPoll_addr NetworkSendDone_addr network_addr : Z).
Context (uninit : nat → Z) (uninit_header : PacketHeader) (uninit_mail : MailHeader).
Context (reliability : Q) (a b : Z) {build : SynchBuild}.

(** Without THREADS a thread of any machine that waits for an empty box stops the
    machine. *)
Lemma receive_stops w c u box room random :
  THREADS_defined = false → view w c = Some u → u = UGet box room SynchList.RWait →
  ∃ e, net_act HOST_IS_BIG_ENDIAN NetworkReadPoll_addr NetworkSendDone_addr network_addr uninit uninit_header w (Run c 1 random) = Some (Err e).
Proof.
  intros Hb Hv ->. unfold view in Hv. destruct (w !! c) as [n|] eqn:En; [|done]. simpl in Hv.
  destruct (threads n !! 1%nat) as [[]|] eqn:Et; try done. injection Hv as ->.
  unfold net_act, do_act. rewrite En. cbn [mbind option_bind]. rewrite Et. cbn [mbind option_bind]. unfold user, box_step.
  destruct (aget (boxes (office n)) box) as [l|e]; [|by eexists]. simpl. unfold SynchList.Wait. rewrite Hb. by eexists.
Qed.

(** C32: two machines run the test against each other, in any interleaving and
    even if the network loses packets.  In a build with THREADS nothing stops,
    the next call is always accepted, and what a machine prints is a beginning of
    the two lines: the greeting of the other machine from its box 1, then its
    acknowledgement; when a machine has halted, the other one has no message for
    it left, so that nothing is sent to a socket that is gone.  In a build without
    THREADS, as network/Makefile makes it, the machine stops when its test comes
    to wait for a message, because [Condition::Wait] is [ASSERT(FALSE)] there
    (and [mail_test_stops] shows a run in which it does). *)
Theorem mail_test_exchanges tr w ts c s u :
  NetworkReadPoll_addr ≠ NetworkSendDone_addr → a ≠ b → is_s32 a → is_s32 b →
  let net_act := net_act HOST_IS_BIG_ENDIAN NetworkReadPoll_addr NetworkSendDone_addr network_addr uninit uninit_header in
  treach HOST_IS_BIG_ENDIAN NetworkReadPoll_addr NetworkSendDone_addr network_addr uninit uninit_header uninit_mail reliability a b tr w ts →
  ts !! c = Some s → view w c = Some u →
  (THREADS_defined = true →
   printed s = take (prints (at_ s)) (lines a b c) ∧
   (∀ x e, inner c x → net_act w x ≠ Some (Err e)) ∧
   (∀ s' k x, MailTest (far a b c) s u = Some (s', k) → call_act c k = Some x → ∃ w' e, net_act w x = Some (Ok (w', e))) ∧
   (is_halted s = true →
    ∃ s2 u2, ts !! far a b c = Some s2 ∧ view w (far a b c) = Some u2 ∧ calls (at_ s2) = 2%nat ∧ hand HOST_IS_BIG_ENDIAN (far a b c) u2 = [])) ∧
  (THREADS_defined = false → ∀ box room random, u = UGet box room SynchList.RWait →
   ∃ e, net_act w (Run c 1 random) = Some (Err e)).
Proof.
  intros Hd Hab Ha Hb act Hr Hs Hv. split.
  - intros locks. by eapply (exchanges _ _ _ _ _ _ _ _ _ _ Hd (locks := locks)).
  - intros Hf box room random Hu. by eapply receive_stops.
Qed.
End builds.

(** ** The build that network/Makefile makes: without THREADS *)

Section without_threads.
#[local] Instance without_threads : SynchBuild := false.

(** Machine 0 sends its greeting and looks for the one of machine 1, which has
    not come yet: the test stops, at [ASSERT(FALSE)] of [Condition::Wait]. *)
Theorem mail_test_stops :
  ∃ tr w ts, treach false 1 2 3 (λ _, 0) (mkPacket 0 0 0) (mkMailHdr 0 0 0) 1 0 1 tr w ts ∧
    net_act false 1 2 3 (λ _, 0) (mkPacket 0 0 0) w (Run 0 1 0) = Some (Err AssertionFailed).
Proof.
  assert (match tplay false 1 2 3 (λ _, 0) (mkPacket 0 0 0) 0 1 []
      (<[1 := boot 1 3 (λ _, 0) (mkPacket 0 0 0) 1 1]> (<[0 := boot 1 3 (λ _, 0) (mkPacket 0 0 0) 1 0]> ∅))
      (<[1 := test_0 (mkPacket 0 0 0) (mkMailHdr 0 0 0)]> (<[0 := test_0 (mkPacket 0 0 0) (mkMailHdr 0 0 0)]> ∅))
      (sends_ 0 ++ MTest 0 :: runs 0 1 3) with
    | Some (_, w, _) => net_act false 1 2 3 (λ _, 0) (mkPacket 0 0 0) w (Run 0 1 0) = Some (Err AssertionFailed)
    | None => False
    end) as H by (vm_compute; reflexivity).
  destruct (tplay _ _ _ _ _ _ _ _ _ _ _ _) as [[[tr w] ts]|] eqn:E; [|done]. exists tr, w, ts. split; [|exact H].
  eapply tplay_reach; [apply t_start|exact E].
Qed.
End without_threads.

(** ** A whole run, with THREADS *)

#[local] Instance with_threads : SynchBuild := true.
#[local] Instance with_threads_real : RealLocks := eq_refl.

Definition ended : option (list event * gmap Z node * gmap Z test) :=
  tplay false 1 2 3 (λ _, 0) (mkPacket 0 0 0) 0 1 [] (<[1 := boot 1 3 (λ _, 0) (mkPacket 0 0 0) 1 1]> (<[0 := boot 1 3 (λ _, 0) (mkPacket 0 0 0) 1 0]> ∅))
    (<[1 := test_0 (mkPacket 0 0 0) (mkMailHdr 0 0 0)]> (<[0 := test_0 (mkPacket 0 0 0) (mkMailHdr 0 0 0)]> ∅)) whole_test.

Definition end_events : list event := match ended with Some (tr, _, _) => tr | None => [] end.
Definition end_world : gmap Z node := match ended with Some (_, w, _) => w | None => ∅ end.
Definition end_tests : gmap Z test := match ended with Some (_, _, ts) => ts | None => ∅ end.

Lemma end_reach : treach false 1 2 3 (λ _, 0) (mkPacket 0 0 0) (mkMailHdr 0 0 0) 1 0 1 end_events end_world end_tests.
Proof.
  eapply (tplay_reach false 1 2 3 (λ _, 0) (mkPacket 0 0 0) (mkMailHdr 0 0 0) 1 0 1 whole_test []); [apply t_start|]. vm_compute. reflexivity.
Qed.

Lemma mail_test_exchanges_witness :
  ∃ s u, end_tests !! 0 = Some s ∧ view end_world 0 = Some u ∧ is_halted s = true ∧ printed s = take (prints (at_ s)) (lines 0 1 0).
Proof.
  destruct (end_tests !! 0) as [s|] eqn:Hs; [|vm_compute in Hs; discriminate Hs].
  destruct (view end_world 0) as [u|] eqn:Hv; [|vm_compute in Hv; discriminate Hv].
  exists s, u. split; [reflexivity|]. split; [reflexivity|]. split; [vm_compute in Hs; injection Hs as <-; reflexivity|].
  apply (mail_test_exchanges false 1 2 3 (λ _, 0) (mkPacket 0 0 0) (mkMailHdr 0 0 0) 1 0 1 end_events end_world end_tests 0 s u
    ltac:(lia) ltac:(lia) ltac:(unfold is_s32; lia) ltac:(unfold is_s32; lia) end_reach Hs Hv); reflexivity.
Defined.

Lemma end_lost : none_lost end_events.
Proof. intros c t m H. vm_compute in H. repeat (apply elem_of_cons in H as [H|H]; [discriminate H|]). by apply not_elem_of_nil in H. Qed.

Lemma end_rest : at_rest false 1 2 3 (λ _, 0) 0 1 end_world end_tests.
Proof.
  intros c s n Hs _ Hh. exfalso.
  apply elem_of_map_to_list in Hs. vm_compute in Hs.
  repeat (apply elem_of_cons in Hs as [Hs|Hs]; [injection Hs as _ ->; discriminate Hh|]). by apply not_elem_of_nil in Hs.
Qed.

Lemma mail_test_finishes_witness : ∃ s, end_tests !! 1 = Some s ∧ at_ s = Halted ∧ printed s = lines 0 1 1.
Proof.
  apply (mail_test_finishes false 1 2 3 (λ _, 0) (mkPacket 0 0 0) (mkMailHdr 0 0 0) 1 0 1
    ltac:(lia) ltac:(lia) ltac:(unfold is_s32; lia) ltac:(unfold is_s32; lia) end_events end_world end_tests end_reach end_lost end_rest 1).
  by right.
Defined.
End NetTest.
