(* ===== verification/Elevator.v ===== *)
(** * The elevator: threads/elevator.cc

    One elevator thread ([Manager]) and a thread for every person share the
    variables of the file under the lock [e], the semaphores [q] and [c], and
    the condition variable [cv].  A thread is the place in its routine where it
    stands; a step takes one thread over one operation of a lock, semaphore or
    condition variable, or over the statements between two of them, in any order
    of the threads.  What the lock and the semaphores do is what file Threads
    proves of them: [Acquire] waits for the lock to be free, [P] for a positive
    value, [Wait] gives the lock back and waits for [Broadcast].

    [ArrivingGoingFromTo] is called by one thread, as [main] does, one call after
    the other.  The cells of the four arrays are [int]s that start from whatever
    the memory held, so they wrap around; [id] and [count] start from 0 and are
    kept without a width: they stand for fewer than 2^31 calls. *)

From stdpp Require Import base list gmap.
From S2P Require Import Prelude.

Module Elevator.

(** ** The shared variables *)

(** The four arrays, by name. *)
Inductive queue := upQueue | upToQueue | downQueue | downToQueue.
#[global] Instance queue_eq_dec : EqDecision queue.
Proof. solve_decision. Defined.

(** Where [Person] stands. *)
Inductive person_at :=
  | PStart      (* q->P(), before pressing the button *)
  | PPress      (* has q: queue[atFloor]++; q->V() *)
  | PLoop       (* e->Acquire() *)
  | PWait       (* has e: cv->Wait(e) *)
  | PWaiting    (* in the queue of cv *)
  | PWoken      (* at the end of Wait: e->Acquire() *)
  | PCheck      (* has e: the tests *)
  | PSame       (* has e: q->P(), the same floor *)
  | PSameQ      (* has e and q: upQueue[atFloor]--; q->V(); break *)
  | PEnter      (* has e: q->P(), getting in *)
  | PEnterQ     (* has e and q: the two queues; q->V() *)
  | PEntered    (* has e: numPeopleIn++; in = true *)
  | PRelease    (* has e: e->Release() *)
  | PLeave      (* has e: q->P(), getting out *)
  | PLeaveQ     (* has e and q: the destination queue; q->V() *)
  | PLeft       (* has e: numPeopleIn--; break *)
  | PCount      (* has e: c->P() *)
  | PCountC     (* has e and c: count++; c->V() *)
  | PLast       (* has e: e->Release() *)
  | PEnd.
#[global] Instance person_at_eq_dec : EqDecision person_at.
Proof. solve_decision. Defined.

(** [struct PersonThread] with the local variables of [Person]. *)
Record person := mkPerson {
  atFloor : Z;
  toFloor : Z;
  inside : bool;
  place : person_at;
}.
Definition goingUp (p : person) : bool := toFloor p >=? atFloor p.

(** Where [Manager] stands; [ManagerHelper] with its two arguments, [floor],
    [getIn] and [getOut]. *)
Inductive manager_at :=
  | MStart                                       (* e->Acquire() *)
  | MLoop                                        (* has e: which way *)
  | MHelp (inQueue outQueue : queue)             (* has e: q->P() *)
  | MLook (inQueue outQueue : queue)             (* has e and q: the tests; e->Release() *)
  | MLooked (inQueue outQueue : queue) (floor : Z) (doors : bool)  (* has q: q->V() *)
  | MWhile (inQueue outQueue : queue) (floor : Z) (doors : bool)   (* while (getIn || getOut) *)
  | MOpen (inQueue outQueue : queue) (floor : Z)   (* has e: q->P() *)
  | MCall (inQueue outQueue : queue) (floor : Z)   (* has e and q: the tests; Broadcast *)
  | MCalled (inQueue outQueue : queue) (floor : Z) (doors : bool)  (* has e and q: q->V() *)
  | MShut (inQueue outQueue : queue) (floor : Z) (doors : bool)    (* has e: e->Release(); Yield() *)
  | MMove                                        (* has e: the next floor *)
  | MDone                                        (* has e: c->P() *)
  | MTest                                        (* has e and c: id == count *)
  | MBreak                                       (* has e and c: e->Release() *)
  | MEnd.

(** Who has the lock. *)
Inductive thread := TManager | TPerson (i : nat).
#[global] Instance thread_eq_dec : EqDecision thread.
Proof. solve_decision. Defined.

(** Where the caller of [ArrivingGoingFromTo] stands, with its arguments. *)
Inductive caller_at :=
  | CIdle
  | CCounted (atFloor toFloor : Z)    (* has c: c->V() *)
  | CForks (atFloor toFloor : Z).     (* new Thread, Fork *)

(** The variables of the file; [struct ElevatorThread] is the first three. *)
Record state := mkState {
  numFloors : Z;
  currentFloor : Z;
  numPeopleIn : Z;
  movingUp : bool;
  queues : queue → list Z;
  id : Z;
  count : Z;
  q : Z;
  c : Z;
  e : option thread;
  manager : manager_at;
  persons : list person;
  arriving : caller_at;
}.

Definition set_elevator (s : state) (floor people : Z) (up : bool) : state :=
  mkState (numFloors s) floor people up (queues s) (id s) (count s) (q s) (c s) (e s) (manager s) (persons s) (arriving s).
Definition set_queues (s : state) (x : queue → list Z) : state :=
  mkState (numFloors s) (currentFloor s) (numPeopleIn s) (movingUp s) x (id s) (count s) (q s) (c s) (e s) (manager s) (persons s) (arriving s).
Definition set_counts (s : state) (x y : Z) : state :=
  mkState (numFloors s) (currentFloor s) (numPeopleIn s) (movingUp s) (queues s) x y (q s) (c s) (e s) (manager s) (persons s) (arriving s).
Definition set_q (s : state) (x : Z) : state :=
  mkState (numFloors s) (currentFloor s) (numPeopleIn s) (movingUp s) (queues s) (id s) (count s) x (c s) (e s) (manager s) (persons s) (arriving s).
Definition set_c (s : state) (x : Z) : state :=
  mkState (numFloors s) (currentFloor s) (numPeopleIn s) (movingUp s) (queues s) (id s) (count s) (q s) x (e s) (manager s) (persons s) (arriving s).
Definition set_e (s : state) (x : option thread) : state :=
  mkState (numFloors s) (currentFloor s) (numPeopleIn s) (movingUp s) (queues s) (id s) (count s) (q s) (c s) x (manager s) (persons s) (arriving s).
Definition set_manager (s : state) (x : manager_at) : state :=
  mkState (numFloors s) (currentFloor s) (numPeopleIn s) (movingUp s) (queues s) (id s) (count s) (q s) (c s) (e s) x (persons s) (arriving s).
Definition set_persons (s : state) (x : list person) : state :=
  mkState (numFloors s) (currentFloor s) (numPeopleIn s) (movingUp s) (queues s) (id s) (count s) (q s) (c s) (e s) (manager s) x (arriving s).
Definition set_arriving (s : state) (x : caller_at) : state :=
  mkState (numFloors s) (currentFloor s) (numPeopleIn s) (movingUp s) (queues s) (id s) (count s) (q s) (c s) (e s) (manager s) (persons s) x.

(** ** The operations of the lock and of the semaphores; [None] is waiting *)

Definition acquire (s : state) (t : thread) : option state :=
  match e s with None => Some (set_e s (Some t)) | Some _ => None end.
Definition release (s : state) : state := set_e s None.
Definition P_q (s : state) : option state := if q s >? 0 then Some (set_q s (q s - 1)) else None.
Definition V_q (s : state) : state := set_q s (q s + 1).
Definition P_c (s : state) : option state := if c s >? 0 then Some (set_c s (c s - 1)) else None.
Definition V_c (s : state) : state := set_c s (c s + 1).

(** [queue[floor] += d], on an [int]. *)
Definition add_queue (s : state) (n : queue) (floor d : Z) : result state :=
  x ← aget (queues s n) floor;
  l ← aset (queues s n) floor (s32 (x + d));
  Ok (set_queues s (λ m, if decide (m = n) then l else queues s m)).

(** ** Person *)

Definition move (p : person) (x : person_at) : person := mkPerson (atFloor p) (toFloor p) (inside p) x.
Definition set_inside (p : person) (b : bool) : person := mkPerson (atFloor p) (toFloor p) b (place p).

Definition to_place (s : state) (i : nat) (p : person) (x : person_at) : state :=
  set_persons s (<[i := move p x]> (persons s)).

(** The tests after [Wait], in the order of the source. *)
Definition check (s : state) (p : person) : person_at :=
  let readyEnter := currentFloor s =? atFloor p in
  let readyLeave := currentFloor s =? toFloor p in
  let capacity := numPeopleIn s <? 5 in
  let direction := (goingUp p && movingUp s) || (negb (goingUp p) && negb (movingUp s)) in
  if (atFloor p =? toFloor p) && readyEnter then PSame
  else if negb (inside p) && readyEnter && direction && capacity then PEnter
  else if inside p && readyLeave then PLeave
  else PRelease.

Definition Person (s : state) (i : nat) (p : person) : option (result state) :=
  let go s x := to_place s i p x in
  match place p with
  | PStart => s ← P_q s; Some (Ok (go s PPress))
  | PPress => Some (s ← add_queue s (if goingUp p then upQueue else downQueue) (atFloor p) 1; Ok (go (V_q s) PLoop))
  | PLoop => s ← acquire s (TPerson i); Some (Ok (go s PWait))
  | PWait => Some (Ok (go (release s) PWaiting))
  | PWaiting => None
  | PWoken => s ← acquire s (TPerson i); Some (Ok (go s PCheck))
  | PCheck => Some (Ok (go s (check s p)))
  | PSame => s ← P_q s; Some (Ok (go s PSameQ))
  | PSameQ => Some (s ← add_queue s upQueue (atFloor p) (-1); Ok (go (V_q s) PCount))
  | PEnter => s ← P_q s; Some (Ok (go s PEnterQ))
  | PEnterQ =>
    Some (s ← add_queue s (if goingUp p then upToQueue else downToQueue) (toFloor p) 1;
          s ← add_queue s (if goingUp p then upQueue else downQueue) (atFloor p) (-1);
          Ok (go (V_q s) PEntered))
  | PEntered =>
    let s := set_elevator s (currentFloor s) (numPeopleIn s + 1) (movingUp s) in
    Some (Ok (to_place s i (set_inside p true) PRelease))
  | PRelease => Some (Ok (go (release s) PLoop))
  | PLeave => s ← P_q s; Some (Ok (go s PLeaveQ))
  | PLeaveQ =>
    Some (s ← add_queue s (if goingUp p then upToQueue else downToQueue) (toFloor p) (-1); Ok (go (V_q s) PLeft))
  | PLeft =>
    let s := set_elevator s (currentFloor s) (numPeopleIn s - 1) (movingUp s) in
    Some (Ok (go s PCount))
  | PCount => s ← P_c s; Some (Ok (go s PCountC))
  | PCountC => let s := set_counts s (id s) (count s + 1) in Some (Ok (go (V_c s) PLast))
  | PLast => Some (Ok (go (release s) PEnd))
  | PEnd => None
  end.

(** ** Manager *)

(** [getIn || getOut]. *)
Definition wanted (s : state) (inQueue outQueue : queue) (floor : Z) : result bool :=
  x ← aget (queues s inQueue) floor;
  let getIn := (x >? 0) && (numPeopleIn s <? 5) in
  y ← aget (queues s outQueue) floor;
  let getOut := y >? 0 in
  Ok (getIn || getOut).

Definition wake (p : person) : person := if decide (place p = PWaiting) then move p PWoken else p.

Definition Manager (s : state) : option (result state) :=
  let go s x := set_manager s x in
  match manager s with
  | MStart => s ← acquire s TManager; Some (Ok (go s MLoop))
  | MLoop =>
    let turn up := set_elevator s (currentFloor s) (numPeopleIn s) up in
    Some (Ok (if currentFloor s =? 1 then go (turn true) (MHelp upQueue downToQueue)
              else if currentFloor s =? numFloors s then go (turn false) (MHelp downQueue upToQueue)
              else if movingUp s then go s (MHelp upQueue upToQueue)
              else go s (MHelp downQueue downToQueue)))
  | MHelp i o => s ← P_q s; Some (Ok (go s (MLook i o)))
  | MLook i o =>
    let floor := currentFloor s in
    Some (w ← wanted s i o floor; Ok (go (release s) (MLooked i o floor w)))
  | MLooked i o floor w => Some (Ok (go (V_q s) (MWhile i o floor w)))
  | MWhile i o floor w =>
    s ← acquire s TManager;
    Some (Ok (go s (if (w : bool) then MOpen i o floor else MMove)))
  | MOpen i o floor => s ← P_q s; Some (Ok (go s (MCall i o floor)))
  | MCall i o floor =>
    Some (w ← wanted s i o floor; Ok (go (set_persons s (wake <$> persons s)) (MCalled i o floor w)))
  | MCalled i o floor w => Some (Ok (go (V_q s) (MShut i o floor w)))
  | MShut i o floor w => Some (Ok (go (release s) (MWhile i o floor w)))
  | MMove =>
    let floor := if movingUp s then currentFloor s + 1 else currentFloor s - 1 in
    Some (Ok (go (set_elevator s floor (numPeopleIn s) (movingUp s)) MDone))
  | MDone => s ← P_c s; Some (Ok (go s MTest))
  | MTest => Some (Ok (if id s =? count s then go s MBreak else go (V_c s) MLoop))
  | MBreak => Some (Ok (go (release s) MEnd))
  | MEnd => None
  end.

(** ** ArrivingGoingFromTo and Elevator *)

(** [c->P(); generateID()]. *)
Definition ArrivingGoingFromTo (s : state) (atFloor toFloor : Z) : option state :=
  match arriving s with
  | CIdle => s ← P_c s; Some (set_arriving (set_counts s (id s + 1) (count s)) (CCounted atFloor toFloor))
  | _ => None
  end.

(** The rest of it: [c->V()], then the new thread. *)
Definition Arriving_rest (s : state) : option state :=
  match arriving s with
  | CIdle => None
  | CCounted a t => Some (set_arriving (V_c s) (CForks a t))
  | CForks a t => Some (set_arriving (set_persons s (persons s ++ [mkPerson a t false PStart])) CIdle)
  end.

(** [Elevator(numFloors)] when the file has just been loaded; [garbage] is what
    [new int[size]] leaves in the arrays. *)
Definition Elevator (numFloors : Z) (garbage : queue → nat → Z) : option state :=
  if numFloors <=? 0 then None
  else Some (mkState numFloors 1 0 true (λ n, (λ i, s32 (garbage n i)) <$> seq 0 (Z.to_nat (numFloors + 1))) 0 0 1 1 None MStart [] CIdle).

(** ** Runs *)

Inductive action :=
  | RunManager
  | RunPerson (i : nat)
  | Call (atFloor toFloor : Z)
  | RunCaller.

(** [None] if the thread waits or has ended. *)
Definition act (s : state) (a : action) : option (result state) :=
  match a with
  | RunManager => Manager s
  | RunPerson i => p ← persons s !! i; Person s i p
  | Call f t => s ← ArrivingGoingFromTo s f t; Some (Ok s)
  | RunCaller => s ← Arriving_rest s; Some (Ok s)
  end.

(** The floors that may be asked for. *)
Definition valid (s : state) (a : action) : Prop :=
  match a with Call f t => 1 ≤ f ≤ numFloors s ∧ 1 ≤ t ≤ numFloors s | _ => True end.

Inductive reachable (s0 : state) : state → Prop :=
  | reach_start : reachable s0 s0
  | reach_step s a s' : reachable s0 s → valid s a → act s a = Some (Ok s') → reachable s0 s'.

(** The same, as a function. *)
Fixpoint play (s : state) (l : list action) : option (result state) :=
  match l with
  | [] => Some (Ok s)
  | a :: l => match act s a with Some (Ok s) => play s l | r => r end
  end.

(** ** Who has what *)

Definition has_e (x : person_at) : bool :=
  match x with PStart | PPress | PLoop | PWaiting | PWoken | PEnd => false | _ => true end.
Definition has_q (x : person_at) : bool :=
  match x with PPress | PSameQ | PEnterQ | PLeaveQ => true | _ => false end.
Definition has_c (x : person_at) : bool := match x with PCountC => true | _ => false end.
Definition manager_has_e (m : manager_at) : bool :=
  match m with MStart | MLooked _ _ _ _ | MWhile _ _ _ _ | MEnd => false | _ => true end.
Definition manager_has_q (m : manager_at) : bool :=
  match m with MLook _ _ | MLooked _ _ _ _ | MCall _ _ _ | MCalled _ _ _ _ => true | _ => false end.
(** [Manager] keeps [c] when it ends. *)
Definition manager_has_c (m : manager_at) : bool := match m with MTest | MBreak | MEnd => true | _ => false end.
Definition caller_has_c (x : caller_at) : bool := match x with CCounted _ _ => true | _ => false end.

(** Is the person counted in [numPeopleIn]; in one of the queues in front of the
    elevator; in one of those of the destinations; not yet in [count]? *)
Definition rides (p : person) : bool :=
  inside p && match place p with PCount | PCountC | PLast | PEnd => false | _ => true end.
Definition waits (p : person) : bool :=
  negb (inside p) && match place p with PStart | PPress | PEntered | PCount | PCountC | PLast | PEnd => false | _ => true end.
Definition heads (p : person) : bool :=
  match place p with
  | PEntered => true
  | PLeft | PCount | PCountC | PLast | PEnd => false
  | _ => inside p
  end.
Definition uncounted (p : person) : bool := match place p with PLast | PEnd => false | _ => true end.

Definition b2z (b : bool) : Z := if b then 1 else 0.

(** The part of a person in a queue. *)
Definition presses (n : queue) (f : Z) (p : person) : bool :=
  match n with
  | upQueue => waits p && goingUp p && (atFloor p =? f)
  | downQueue => waits p && negb (goingUp p) && (atFloor p =? f)
  | upToQueue => heads p && goingUp p && (toFloor p =? f)
  | downToQueue => heads p && negb (goingUp p) && (toFloor p =? f)
  end.

(** How many. *)
Definition headcount (x : person → bool) (l : list person) : Z := foldr (λ p z, b2z (x p) + z) 0 l.

Lemma headcount_insert x l i p p' : l !! i = Some p → headcount x (<[i := p']> l) = headcount x l - b2z (x p) + b2z (x p').
Proof.
  revert i. induction l as [|y l IH]; intros [|i] Hi; simplify_eq/=; [lia|]. rewrite (IH i Hi). lia.
Qed.

Lemma headcount_app x l p : headcount x (l ++ [p]) = headcount x l + b2z (x p).
Proof. induction l as [|y l IH]; simpl; [lia|]. rewrite IH. lia. Qed.

Lemma headcount_map x (f : person → person) l : (∀ p, x (f p) = x p) → headcount x (f <$> l) = headcount x l.
Proof. intros Hf. induction l as [|y l IH]; simpl; [done|]. rewrite Hf. f_equal. exact IH. Qed.

Lemma headcount_nonneg x l : 0 ≤ headcount x l.
Proof. induction l as [|y l IH]; simpl; [done|]. destruct (x y); simpl; lia. Qed.

Lemma headcount_one x l i p : l !! i = Some p → x p = true → 1 ≤ headcount x l.
Proof.
  revert i. induction l as [|y l IH]; intros [|i] Hi Hx; simplify_eq/=.
  - rewrite Hx. pose proof (headcount_nonneg x l). simpl. lia.
  - specialize (IH i Hi Hx). destruct (x y); simpl; lia.
Qed.

(** ** The invariant *)

(** What a person may rely on between its tests and what it does then. *)
Record person_ok (s : state) (p : person) : Prop := mkPersonOk {
  po_at : 1 ≤ atFloor p ≤ numFloors s;
  po_to : 1 ≤ toFloor p ≤ numFloors s;
  po_same : atFloor p = toFloor p → inside p = false;
  po_place : match place p with
    | PStart | PPress => inside p = false
    | PSame | PSameQ => atFloor p = toFloor p ∧ currentFloor s = atFloor p
    | PEnter | PEnterQ | PEntered => inside p = false ∧ numPeopleIn s < 5 ∧ currentFloor s = atFloor p ∧ atFloor p ≠ toFloor p
    | PLeave | PLeaveQ | PLeft => inside p = true ∧ currentFloor s = toFloor p
    | _ => True
    end;
}.

(** Where the elevator is while it serves a floor. *)
Definition manager_ok (s : state) : Prop :=
  let ahead := if movingUp s then currentFloor s < numFloors s else 1 < currentFloor s in
  match manager s with
  | MHelp _ _ | MLook _ _ | MMove => ahead
  | MLooked _ _ f _ | MWhile _ _ f _ | MOpen _ _ f | MCall _ _ f | MCalled _ _ f _ | MShut _ _ f _ => ahead ∧ f = currentFloor s
  | MBreak | MEnd => id s = count s
  | _ => True
  end.

Definition caller_ok (s : state) : Prop :=
  match arriving s with
  | CIdle => True
  | CCounted a t | CForks a t => 1 ≤ a ≤ numFloors s ∧ 1 ≤ t ≤ numFloors s
  end.

Definition calling (x : caller_at) : bool := match x with CIdle => false | _ => true end.

Section invariant.
Context (N : Z) (garbage : queue → nat → Z).

Record Inv (s : state) : Prop := mkInv {
  v_floors : numFloors s = N ∧ 2 ≤ N;
  v_floor : 1 ≤ currentFloor s ≤ numFloors s;
  v_queues n : Z.of_nat (length (queues s n)) = numFloors s + 1;
  v_queue n f : 1 ≤ f ≤ numFloors s →
    queues s n !! Z.to_nat f = Some (s32 (garbage n (Z.to_nat f) + headcount (presses n f) (persons s)));
  v_q : 0 ≤ q s ∧ q s + headcount (λ p, has_q (place p)) (persons s) + b2z (manager_has_q (manager s)) = 1;
  v_c : 0 ≤ c s ∧ c s + headcount (λ p, has_c (place p)) (persons s) + b2z (manager_has_c (manager s)) + b2z (caller_has_c (arriving s)) = 1;
  v_e i : e s = Some (TPerson i) ↔ ∃ p, persons s !! i = Some p ∧ has_e (place p) = true;
  v_e_manager : e s = Some TManager ↔ manager_has_e (manager s) = true;
  v_people : numPeopleIn s = headcount rides (persons s) ∧ numPeopleIn s ≤ 5;
  v_count : id s = count s + headcount uncounted (persons s) + b2z (calling (arriving s));
  v_persons i p : persons s !! i = Some p → person_ok s p;
  v_manager : manager_ok s;
  v_caller : caller_ok s;
}.

(** ** Steps of a person *)

(** The person at [i] goes from [p] to [p'], and takes with it what it changes. *)
Record goes (s s' : state) (i : nat) (p p' : person) : Prop := mkGoes {
  g_at : persons s !! i = Some p;
  g_persons : persons s' = <[i := p']> (persons s);
  g_rest : manager s' = manager s ∧ arriving s' = arriving s ∧ numFloors s' = numFloors s ∧
           currentFloor s' = currentFloor s ∧ movingUp s' = movingUp s ∧ id s' = id s;
  g_q : 0 ≤ q s' ∧ q s' + b2z (has_q (place p')) = q s + b2z (has_q (place p));
  g_c : 0 ≤ c s' ∧ c s' + b2z (has_c (place p')) = c s + b2z (has_c (place p));
  g_count : count s' - count s = b2z (uncounted p) - b2z (uncounted p') ∧ (count s' ≠ count s → has_c (place p) = true);
  g_people : numPeopleIn s' - numPeopleIn s = b2z (rides p') - b2z (rides p) ∧ numPeopleIn s' ≤ 5 ∧
             (numPeopleIn s' ≠ numPeopleIn s → has_e (place p) = true);
  g_e : (e s' = e s ∧ has_e (place p') = has_e (place p)) ∨ (e s = None ∧ e s' = Some (TPerson i) ∧ has_e (place p') = true) ∨
        (e s' = None ∧ has_e (place p) = true ∧ has_e (place p') = false);
  g_queues n : length (queues s' n) = length (queues s n);
  g_queue n f x : 1 ≤ f ≤ numFloors s → queues s n !! Z.to_nat f = Some (s32 x) →
    queues s' n !! Z.to_nat f = Some (s32 (x + b2z (presses n f p') - b2z (presses n f p)));
  g_ok : person_ok s' p';
}.

Lemma goes_Inv s s' i p p' : Inv s → goes s s' i p p' → Inv s'.
Proof.
  intros [V1 V2 V3 V4 V5 V6 V7 V8 V9 V10 V11 V12 V13] [G1 G2 (R1 & R2 & R3 & R4 & R5 & R6) G3 G4 [G5 G5'] (G6 & G6' & G6'') G7 G8 G9 G10].
  assert (i < length (persons s))%nat as Hi by (by eapply lookup_lt_Some).
  assert (has_e (place p) = true → e s = Some (TPerson i)) as Hown by (intros Hp; apply V7; by exists p).
  split; rewrite ?R1, ?R2, ?R3, ?R4, ?G2; try done.
  - intros n. by rewrite G8.
  - intros n f Hf. rewrite (G9 n f _ Hf (V4 n f Hf)). rewrite (headcount_insert _ _ _ _ _ G1). do 2 f_equal. lia.
  - rewrite (headcount_insert _ _ _ _ _ G1). lia.
  - rewrite (headcount_insert _ _ _ _ _ G1). lia.
  - intros j. destruct (decide (j = i)) as [->|Hne].
    + rewrite list_lookup_insert_eq by done. destruct G7 as [[E1 E2]|[(E1 & E2 & E3)|(E1 & E2 & E3)]].
      * rewrite E1, V7, G1. split; intros (x & [= <-] & Hx); eexists; (split; [done|congruence]).
      * rewrite E2. split; [by eauto|done].
      * rewrite E1. split; [done|]. intros (x & [= <-] & Hx). congruence.
    + rewrite list_lookup_insert_ne by done. rewrite <- V7. destruct G7 as [[E1 _]|[(E1 & E2 & _)|(E1 & E2 & E3)]].
      * by rewrite E1.
      * rewrite E1, E2. split; [intros [= ->]; done|done].
      * rewrite E1, (Hown E2). split; [done|intros [= ->]; done].
  - rewrite <- V8. destruct G7 as [[E1 _]|[(E1 & E2 & _)|(E1 & E2 & E3)]].
    + by rewrite E1.
    + by rewrite E1, E2.
    + by rewrite E1, (Hown E2).
  - rewrite (headcount_insert _ _ _ _ _ G1). lia.
  - rewrite (headcount_insert _ _ _ _ _ G1). lia.
  - intros j x Hx. destruct (decide (j = i)) as [->|Hne]; [rewrite list_lookup_insert_eq in Hx by done; by simplify_eq|].
    rewrite list_lookup_insert_ne in Hx by done. destruct (V11 j x Hx) as [O1 O2 O3 O4].
    split; rewrite ?R3, ?R4; try done. destruct (decide (numPeopleIn s' = numPeopleIn s)) as [->|Hne2]; [done|].
    pose proof (Hown (G6'' Hne2)) as Ee.
    assert (has_e (place x) = false) as Hno.
    { destruct (has_e (place x)) eqn:Ex; [|done]. assert (e s = Some (TPerson j)) by (apply V7; by exists x). congruence. }
    destruct (place x); done.
  - unfold manager_ok in *. rewrite R1, R3, R4, R5, R6. destruct (decide (count s' = count s)) as [->|Hne]; [done|].
    specialize (G5' Hne). pose proof (headcount_one (λ p, has_c (place p)) _ _ _ G1 G5') as Hone.
    destruct (manager s); try done; cbn [manager_has_c b2z] in V6; destruct (caller_has_c (arriving s)); simpl in V6; lia.
  - unfold caller_ok in *. by rewrite R2, R3.
Qed.

(** A step that leaves the queues alone. *)
Lemma queue_kept s n f p p' x :
  (∀ n f, presses n f p' = presses n f p) → queues s n !! Z.to_nat f = Some (s32 x) →
  queues s n !! Z.to_nat f = Some (s32 (x + b2z (presses n f p') - b2z (presses n f p))).
Proof. intros E ->. rewrite E. do 2 f_equal. lia. Qed.

Lemma add_queue_ok s n f d :
  Z.of_nat (length (queues s n)) = numFloors s + 1 → 1 ≤ f ≤ numFloors s →
  ∃ l, add_queue s n f d = Ok (set_queues s (λ m, if decide (m = n) then l else queues s m)) ∧
       length l = length (queues s n) ∧
       ∀ f' x, 1 ≤ f' ≤ numFloors s → queues s n !! Z.to_nat f' = Some (s32 x) →
               l !! Z.to_nat f' = Some (s32 (x + if f =? f' then d else 0)).
Proof.
  intros Hl Hf. unfold add_queue.
  destruct (aget_ok (queues s n) f) as (y & Hy & ->); [lia|]. run_ok. rewrite aset_ok by lia. run_ok.
  eexists. split_and!; [done|apply length_insert|]. intros f' x Hf' Hx. destruct (Z.eqb_spec f f') as [<-|Hne].
  - rewrite list_lookup_insert_eq by lia. simplify_eq. by rewrite s32_add_s32.
  - rewrite list_lookup_insert_ne by lia. rewrite Hx. do 2 f_equal. lia.
Qed.

Lemma P_q_ok s s' : P_q s = Some s' → s' = set_q s (q s - 1) ∧ 0 < q s.
Proof. unfold P_q. rewrite Z.gtb_ltb. destruct (Z.ltb_spec 0 (q s)); [|done]. by intros [= <-]. Qed.
Lemma P_c_ok s s' : P_c s = Some s' → s' = set_c s (c s - 1) ∧ 0 < c s.
Proof. unfold P_c. rewrite Z.gtb_ltb. destruct (Z.ltb_spec 0 (c s)); [|done]. by intros [= <-]. Qed.
Lemma acquire_ok s t s' : acquire s t = Some s' → s' = set_e s (Some t) ∧ e s = None.
Proof. unfold acquire. destruct (e s); [done|]. by intros [= <-]. Qed.

(** Steps that move a person and take or give back at most [q], [c] or [e]. *)
Lemma move_goes s i p x q' c' e' :
  Inv s → persons s !! i = Some p →
  0 ≤ q' → q' + b2z (has_q x) = q s + b2z (has_q (place p)) →
  0 ≤ c' → c' + b2z (has_c x) = c s + b2z (has_c (place p)) →
  (e' = e s ∧ has_e x = has_e (place p)) ∨ (e s = None ∧ e' = Some (TPerson i) ∧ has_e x = true) ∨
    (e' = None ∧ has_e (place p) = true ∧ has_e x = false) →
  rides (move p x) = rides p → uncounted (move p x) = uncounted p → waits (move p x) = waits p → heads (move p x) = heads p →
  person_ok s (move p x) →
  Inv (to_place (set_e (set_c (set_q s q') c') e') i p x).
Proof.
  intros Hv Hp Hq1 Hq2 Hc1 Hc2 He Hr Hu Hw Hh Hok. eapply (goes_Inv s _ i p (move p x) Hv).
  split; simpl; try done.
  - rewrite Hu. split; [lia|done].
  - rewrite Hr. pose proof (v_people s Hv). split_and!; [lia|lia|done].
  - intros n f y Hf Hy. apply queue_kept; [|done]. intros m g. unfold presses. rewrite Hw, Hh. done.
  - destruct Hok as [H1 H2 H3 H4]. by split.
Qed.

(** The steps that change a queue; [q] is given back. *)
Lemma queue_goes s i p x (l : queue → list Z) :
  Inv s → persons s !! i = Some p → has_q (place p) = true → has_q x = false → has_c x = has_c (place p) → has_e x = has_e (place p) →
  rides (move p x) = rides p → uncounted (move p x) = uncounted p → person_ok s (move p x) →
  (∀ n, length (l n) = length (queues s n)) →
  (∀ n f y, 1 ≤ f ≤ numFloors s → queues s n !! Z.to_nat f = Some (s32 y) →
            l n !! Z.to_nat f = Some (s32 (y + b2z (presses n f (move p x)) - b2z (presses n f p)))) →
  Inv (to_place (V_q (set_queues s l)) i p x).
Proof.
  intros Hv Hp Hq Hq' Hc He Hr Hu Hok Hlen Hl. eapply (goes_Inv s _ i p (move p x) Hv). pose proof (v_q s Hv).
  split; simpl; try done.
  - rewrite Hq, Hq'. simpl. lia.
  - rewrite Hc. pose proof (v_c s Hv). lia.
  - rewrite Hu. split; [lia|done].
  - rewrite Hr. pose proof (v_people s Hv). split_and!; [lia|lia|done].
  - by left.
  - destruct Hok as [H1 H2 H3 H4]. by split.
Qed.

Lemma check_ok s p :
  match check s p with
  | PSame => atFloor p = toFloor p ∧ currentFloor s = atFloor p
  | PEnter => inside p = false ∧ numPeopleIn s < 5 ∧ currentFloor s = atFloor p ∧ atFloor p ≠ toFloor p
  | PLeave => inside p = true ∧ currentFloor s = toFloor p
  | PRelease => True
  | _ => False
  end.
Proof.
  unfold check. set (dir := _ || _). clearbody dir.
  destruct (Z.eqb_spec (currentFloor s) (atFloor p)), (Z.eqb_spec (atFloor p) (toFloor p)), (Z.eqb_spec (currentFloor s) (toFloor p)),
    (Z.ltb_spec (numPeopleIn s) 5), (inside p), dir; simpl; try done; split_and!; congruence || lia.
Qed.

Ltac finish H := try done; try lia; first [by left | by auto | by rewrite H | by split].

Lemma Person_simple s i p r :
  Inv s → persons s !! i = Some p → Person s i p = Some r →
  match place p with PPress | PSameQ | PEnterQ | PLeaveQ | PEntered | PLeft | PCountC => True | _ => ∃ s', r = Ok s' ∧ Inv s' end.
Proof.
  intros Hv Hp Hr. pose proof (v_persons s Hv i p Hp) as [O1 O2 O3 O4].
  pose proof (v_q s Hv) as [Hq _]. pose proof (v_c s Hv) as [Hc _].
  assert (∀ x, place p = x → p = mkPerson (atFloor p) (toFloor p) (inside p) x) as Hpl by (intros x <-; by destruct p).
  unfold Person in Hr. destruct (place p) eqn:Ep; try done; specialize (Hpl _ eq_refl);
    try (destruct (P_q s) as [s1|] eqn:E1; [apply P_q_ok in E1 as [-> Hpos]|done]);
    try (destruct (P_c s) as [s1|] eqn:E1; [apply P_c_ok in E1 as [-> Hpos]|done]);
    try (destruct (acquire s _) as [s1|] eqn:E1; [apply acquire_ok in E1 as [-> Hfree]|done]);
    simpl in Hr; injection Hr as <-; eexists; (split; [reflexivity|]).
  - apply (move_goes s i p PPress (q s - 1) (c s) (e s)); rewrite ?Ep; simpl; finish Hpl.
  - apply (move_goes s i p PWait (q s) (c s) (Some (TPerson i))); rewrite ?Ep; simpl; finish Hpl.
  - apply (move_goes s i p PWaiting (q s) (c s) None); rewrite ?Ep; simpl; finish Hpl.
  - apply (move_goes s i p PCheck (q s) (c s) (Some (TPerson i))); rewrite ?Ep; simpl; finish Hpl.
  - assert (has_q (check s p) = false ∧ has_c (check s p) = false ∧ has_e (check s p) = true) as (C1 & C2 & C3)
      by (unfold check; by repeat case_match).
    apply (move_goes s i p (check s p) (q s) (c s) (e s)); rewrite ?Ep, ?C1, ?C2, ?C3; try done; [by left|..].
    1-4: rewrite Hpl; unfold rides, waits, heads, uncounted, check; simpl; by repeat case_match.
    split; try done. cbn [move place inside atFloor toFloor]. pose proof (check_ok s p) as Hch. by destruct (check s p).
  - apply (move_goes s i p PSameQ (q s - 1) (c s) (e s)); rewrite ?Ep; simpl; finish Hpl.
  - apply (move_goes s i p PEnterQ (q s - 1) (c s) (e s)); rewrite ?Ep; simpl; finish Hpl.
  - apply (move_goes s i p PLoop (q s) (c s) None); rewrite ?Ep; simpl; finish Hpl.
  - apply (move_goes s i p PLeaveQ (q s - 1) (c s) (e s)); rewrite ?Ep; simpl; finish Hpl.
  - apply (move_goes s i p PCountC (q s) (c s - 1) (e s)); rewrite ?Ep; simpl; finish Hpl.
  - apply (move_goes s i p PEnd (q s) (c s) None); rewrite ?Ep; simpl; finish Hpl.
Qed.

(** One queue changes by what the person changes its part in it. *)
Lemma one_queue s i p x n f d :
  Inv s → persons s !! i = Some p → 1 ≤ f ≤ numFloors s →
  has_q (place p) = true → has_q x = false → has_c x = has_c (place p) → has_e x = has_e (place p) →
  rides (move p x) = rides p → uncounted (move p x) = uncounted p → person_ok s (move p x) →
  (∀ m g, b2z (presses m g (move p x)) - b2z (presses m g p) = if decide (m = n) then if f =? g then d else 0 else 0) →
  ∃ s', add_queue s n f d = Ok s' ∧ Inv (to_place (V_q s') i p x).
Proof.
  intros Hv Hp Hf H1 H2 H3 H4 H5 H6 Hok Hd. destruct (add_queue_ok s n f d (v_queues s Hv n) Hf) as (l & -> & Hlen & Hl).
  eexists. split; [done|]. apply queue_goes; try done.
  - intros m. case_decide; [by subst|done].
  - intros m g y Hg Hy. specialize (Hd m g). case_decide as Hm; [|rewrite Hy; do 2 f_equal; lia]. subst m. rewrite (Hl g y Hg Hy). do 2 f_equal. lia.
Qed.

Lemma Person_queue s i p r :
  Inv s → persons s !! i = Some p → Person s i p = Some r →
  match place p with PPress | PSameQ | PLeaveQ => ∃ s', r = Ok s' ∧ Inv s' | _ => True end.
Proof.
  intros Hv Hp Hr. pose proof (v_persons s Hv i p Hp) as [O1 O2 O3 O4].
  destruct p as [f t ins pl]. unfold Person in Hr. simpl in *. destruct pl; try done; injection Hr as <-.
  - subst ins. set (p := mkPerson f t false PPress) in *.
    assert (∃ s', add_queue s (if goingUp p then upQueue else downQueue) f 1 = Ok s' ∧ Inv (to_place (V_q s') i p PLoop)) as (s' & -> & Hs').
    { apply one_queue; try done; try (by destruct (goingUp p)); try (by split). intros m g.
      destruct m, (goingUp p) eqn:Eg; unfold presses, waits, heads, goingUp in *; simpl in *; rewrite ?Eg; simpl; try done; by destruct (f =? g). }
    run_ok. by eexists.
  - destruct O4 as [-> Hfl]. pose proof (O3 eq_refl) as Hi. subst ins. set (p := mkPerson t t false PSameQ) in *.
    assert (goingUp p = true) as Eg by (unfold goingUp; simpl; rewrite Z.geb_leb; lia).
    assert (∃ s', add_queue s upQueue t (-1) = Ok s' ∧ Inv (to_place (V_q s') i p PCount)) as (s' & -> & Hs').
    { apply one_queue; try done; try (by split). intros m g.
      destruct m; unfold presses, waits, heads, goingUp in *; simpl in *; rewrite ?Eg; simpl; try done; by destruct (t =? g). }
    run_ok. by eexists.
  - destruct O4 as [-> Hfl]. set (p := mkPerson f t true PLeaveQ) in *.
    assert (∃ s', add_queue s (if goingUp p then upToQueue else downToQueue) t (-1) = Ok s' ∧ Inv (to_place (V_q s') i p PLeft)) as (s' & -> & Hs').
    { apply one_queue; try done; try (by split). intros m g.
      destruct m, (goingUp p) eqn:Eg; unfold presses, waits, heads, goingUp in *; simpl in *; rewrite ?Eg; simpl; try done; by destruct (t =? g). }
    run_ok. by eexists.
Qed.

Lemma Person_enters s i p r :
  Inv s → persons s !! i = Some p → Person s i p = Some r → place p = PEnterQ → ∃ s', r = Ok s' ∧ Inv s'.
Proof.
  intros Hv Hp Hr Ep. pose proof (v_persons s Hv i p Hp) as [O1 O2 O3 O4]. unfold Person in Hr. rewrite Ep in O4, Hr. injection Hr as <-.
  destruct O4 as (Hi & Hcap & Hfl & Hne). set (n1 := if goingUp p then upToQueue else downToQueue). set (n2 := if goingUp p then upQueue else downQueue).
  destruct (add_queue_ok s n1 (toFloor p) 1 (v_queues s Hv n1) O2) as (l1 & -> & L1 & K1). run_ok. set (s1 := set_queues _ _).
  assert (n2 ≠ n1) as Hn by (unfold n1, n2; by destruct (goingUp p)).
  assert (queues s1 n2 = queues s n2) as E2 by (simpl; by rewrite decide_False).
  destruct (add_queue_ok s1 n2 (atFloor p) (-1)) as (l2 & -> & L2 & K2); [rewrite E2; apply Hv|done|]. run_ok.
  eexists. split; [reflexivity|]. rewrite E2 in L2, K2.
  apply (queue_goes s i p PEntered (λ m, if decide (m = n2) then l2 else if decide (m = n1) then l1 else queues s m)); rewrite ?Ep; try done.
  - unfold rides. simpl. by rewrite Hi.
  - by destruct p; simpl in *; subst.
  - intros m. repeat case_decide; by subst.
  - intros m g y Hg Hy. specialize (K1 g). specialize (K2 g). destruct p as [f t ins pl]. simpl in *. subst ins pl.
    destruct (goingUp (mkPerson f t false PEnterQ)) eqn:Eg; subst n1 n2; destruct m; simpl;
      unfold presses, waits, heads, goingUp in *; simpl in *; rewrite ?Eg; simpl;
      first [rewrite (K1 y Hg Hy); do 2 f_equal; by destruct (t =? g); simpl; lia | rewrite (K2 y Hg Hy); do 2 f_equal; by destruct (f =? g); simpl; lia | rewrite Hy; do 2 f_equal; lia].
Qed.

Ltac count_case :=
  split; unfold rides; simpl; rewrite ?andb_false_r; simpl; try done; try lia; try (by left); try (by split);
  try (split_and!; (done || lia));
  try (intros n g y Hg Hy; apply queue_kept; [|done]; intros []; unfold presses, waits, heads; simpl; by rewrite ?andb_false_r).

(** The steps that change [numPeopleIn] or [count]. *)
Lemma Person_counts s i p r :
  Inv s → persons s !! i = Some p → Person s i p = Some r →
  match place p with PEntered | PLeft | PCountC => ∃ s', r = Ok s' ∧ Inv s' | _ => True end.
Proof.
  intros Hv Hp Hr. pose proof (v_persons s Hv i p Hp) as [O1 O2 O3 O4]. pose proof (v_people s Hv) as [_ H5].
  pose proof (v_q s Hv) as [Hq _]. pose proof (v_c s Hv) as [Hc _].
  destruct p as [f t ins pl]. unfold Person in Hr. simpl in *. destruct pl; try done; injection Hr as <-; eexists; (split; [reflexivity|]).
  - destruct O4 as (-> & Hcap & Hfl & Hne). apply (goes_Inv s _ i (mkPerson f t false PEntered) (mkPerson f t true PRelease) Hv). count_case.
  - destruct O4 as (-> & Hfl). apply (goes_Inv s _ i (mkPerson f t true PLeft) (mkPerson f t true PCount) Hv). count_case.
  - apply (goes_Inv s _ i (mkPerson f t ins PCountC) (mkPerson f t ins PLast) Hv). count_case.
Qed.

Lemma Person_Inv s i p r : Inv s → persons s !! i = Some p → Person s i p = Some r → ∃ s', r = Ok s' ∧ Inv s'.
Proof.
  intros Hv Hp Hr. pose proof (Person_simple s i p r Hv Hp Hr). pose proof (Person_queue s i p r Hv Hp Hr).
  pose proof (Person_counts s i p r Hv Hp Hr). pose proof (Person_enters s i p r Hv Hp Hr). destruct (place p); auto.
Qed.

(** ** Steps of the elevator *)

Lemma manager_Inv s m q' c' e' fl up :
  Inv s →
  0 ≤ q' → q' + b2z (manager_has_q m) = q s + b2z (manager_has_q (manager s)) →
  0 ≤ c' → c' + b2z (manager_has_c m) = c s + b2z (manager_has_c (manager s)) →
  (e' = e s ∧ manager_has_e m = manager_has_e (manager s)) ∨ (e s = None ∧ e' = Some TManager ∧ manager_has_e m = true) ∨
    (e' = None ∧ manager_has_e (manager s) = true ∧ manager_has_e m = false) →
  fl = currentFloor s ∨ manager_has_e (manager s) = true → 1 ≤ fl ≤ numFloors s →
  let s' := set_manager (set_elevator (set_e (set_c (set_q s q') c') e') fl (numPeopleIn s) up) m in
  manager_ok s' → Inv s'.
Proof.
  intros [V1 V2 V3 V4 V5 V6 V7 V8 V9 V10 V11 V12 V13] Hq1 Hq2 Hc1 Hc2 He Hfl Hr s' Hm.
  split; simpl; try done; try lia.
  - intros i. rewrite <- V7. destruct He as [[-> _]|[(E1 & -> & _)|(-> & E2 & _)]]; [done|by rewrite E1|].
    apply V8 in E2. by rewrite E2.
  - destruct He as [[-> ->]|[(_ & -> & ->)|(-> & _ & ->)]]; done.
  - intros i p Hp. destruct (V11 i p Hp) as [O1 O2 O3 O4]. split; try done. simpl. destruct Hfl as [->|Hfl]; [done|].
    apply V8 in Hfl. assert (has_e (place p) = false) as Hno.
    { destruct (has_e (place p)) eqn:Ex; [|done]. assert (e s = Some (TPerson i)) by (apply V7; by exists p). congruence. }
    by destruct (place p).
Qed.

Lemma wake_Inv s : Inv s → Inv (set_persons s (wake <$> persons s)).
Proof.
  assert (∀ p, wake p = p ∨ (place p = PWaiting ∧ wake p = move p PWoken)) as Hw.
  { intros p. unfold wake. case_decide; auto. }
  assert (∀ (x : person → bool), (∀ p, place p = PWaiting → x (move p PWoken) = x p) → ∀ l, headcount x (wake <$> l) = headcount x l) as Hn.
  { intros x Hx l. apply headcount_map. intros p. destruct (Hw p) as [->|[Hp ->]]; auto. }
  assert (∀ p, place p = PWaiting → waits (move p PWoken) = waits p ∧ heads (move p PWoken) = heads p) as Hp.
  { intros [f t ins pl]; simpl; intros ->; done. }
  intros [V1 V2 V3 V4 V5 V6 V7 V8 V9 V10 V11 V12 V13]. split; simpl; try done.
  - intros n f Hf. rewrite Hn; [by apply V4|]. intros p Ep. destruct (Hp p Ep) as [E1 E2]. unfold presses. by rewrite E1, E2.
  - rewrite Hn; [done|]. by intros p ->.
  - rewrite Hn; [done|]. by intros p ->.
  - intros i. rewrite V7, list_lookup_fmap. split; intros (p & E1 & E2).
    + rewrite E1. exists (wake p). split; [done|]. destruct (Hw p) as [->|[Ep _]]; [done|]. by rewrite Ep in E2.
    + destruct (persons s !! i) as [x|]; [|done]. injection E1 as <-. exists x. split; [done|].
      destruct (Hw x) as [E|[_ E]]; rewrite E in E2; done.
  - rewrite Hn; [done|]. intros [f t ins pl]; simpl; intros ->; done.
  - rewrite Hn; [done|]. intros [f t ins pl]; simpl; intros ->; done.
  - intros i p. rewrite list_lookup_fmap. destruct (persons s !! i) as [x|] eqn:Ex; [|done]. intros [= <-].
    destruct (V11 i x Ex) as [O1 O2 O3 O4]. destruct (Hw x) as [->|[_ ->]]; by split.
Qed.

Lemma wanted_ok s i o f : Inv s → 1 ≤ f ≤ numFloors s → ∃ w, wanted s i o f = Ok w.
Proof.
  intros Hv Hf. unfold wanted. pose proof (v_queues s Hv i). pose proof (v_queues s Hv o).
  destruct (aget_ok (queues s i) f) as (x & _ & ->); [lia|]. run_ok.
  destruct (aget_ok (queues s o) f) as (y & _ & ->); [lia|]. run_ok. by eexists.
Qed.

Ltac manager_case := simpl; try done; try lia; try (by left); try (by auto).

Lemma Manager_Inv s r : Inv s → Manager s = Some r → ∃ s', r = Ok s' ∧ Inv s'.
Proof.
  intros Hv Hr. pose proof (v_manager s Hv) as Hm. pose proof (v_floor s Hv) as Hf. pose proof (v_floors s Hv) as Hn.
  pose proof (v_q s Hv) as [Hq _]. pose proof (v_c s Hv) as [Hc _]. unfold Manager in Hr. unfold manager_ok in Hm.
  destruct (manager s) as [| |i o|i o|i o f w|i o f w|i o f|i o f|i o f w|i o f w| | | | |] eqn:Em; try done;
    try (destruct (P_q s) as [s1|] eqn:E1; [apply P_q_ok in E1 as [-> Hpos]|done]);
    try (destruct (P_c s) as [s1|] eqn:E1; [apply P_c_ok in E1 as [-> Hpos]|done]);
    try (destruct (acquire s _) as [s1|] eqn:E1; [apply acquire_ok in E1 as [-> Hfree]|done]);
    simpl in Hr; injection Hr as <-.
  - eexists. split; [reflexivity|]. apply (manager_Inv s MLoop (q s) (c s) (Some TManager) (currentFloor s) (movingUp s) Hv); rewrite ?Em; manager_case.
  - eexists. split; [reflexivity|].
    destruct (Z.eqb_spec (currentFloor s) 1); [|destruct (Z.eqb_spec (currentFloor s) (numFloors s)); [|destruct (movingUp s) eqn:Eup]].
    + apply (manager_Inv s (MHelp upQueue downToQueue) (q s) (c s) (e s) (currentFloor s) true Hv); rewrite ?Em; manager_case. unfold manager_ok. simpl. lia.
    + apply (manager_Inv s (MHelp downQueue upToQueue) (q s) (c s) (e s) (currentFloor s) false Hv); rewrite ?Em; manager_case. unfold manager_ok. simpl. lia.
    + apply (manager_Inv s (MHelp upQueue upToQueue) (q s) (c s) (e s) (currentFloor s) (movingUp s) Hv); rewrite ?Em; manager_case.
      unfold manager_ok. simpl. rewrite Eup. lia.
    + apply (manager_Inv s (MHelp downQueue downToQueue) (q s) (c s) (e s) (currentFloor s) (movingUp s) Hv); rewrite ?Em; manager_case.
      unfold manager_ok. simpl. rewrite Eup. lia.
  - eexists. split; [reflexivity|]. apply (manager_Inv s (MLook i o) (q s - 1) (c s) (e s) (currentFloor s) (movingUp s) Hv); rewrite ?Em; manager_case.
  - destruct (wanted_ok s i o (currentFloor s) Hv Hf) as (w & ->). run_ok. eexists. split; [reflexivity|].
    apply (manager_Inv s (MLooked i o (currentFloor s) w) (q s) (c s) None (currentFloor s) (movingUp s) Hv); rewrite ?Em; manager_case.
  - eexists. split; [reflexivity|]. apply (manager_Inv s (MWhile i o f w) (q s + 1) (c s) (e s) (currentFloor s) (movingUp s) Hv); rewrite ?Em; manager_case.
  - eexists. split; [reflexivity|].
    destruct w; [apply (manager_Inv s (MOpen i o f) (q s) (c s) (Some TManager) (currentFloor s) (movingUp s) Hv)
                |apply (manager_Inv s MMove (q s) (c s) (Some TManager) (currentFloor s) (movingUp s) Hv)]; rewrite ?Em; manager_case.
    by destruct Hm.
  - eexists. split; [reflexivity|]. apply (manager_Inv s (MCall i o f) (q s - 1) (c s) (e s) (currentFloor s) (movingUp s) Hv); rewrite ?Em; manager_case.
  - destruct Hm as [Hm ->]. destruct (wanted_ok s i o (currentFloor s) Hv Hf) as (w & ->). run_ok. eexists. split; [reflexivity|].
    apply (manager_Inv (set_persons s (wake <$> persons s)) (MCalled i o (currentFloor s) w) (q s) (c s) (e s) (currentFloor s) (movingUp s) (wake_Inv s Hv));
      simpl; rewrite ?Em; manager_case.
  - eexists. split; [reflexivity|]. apply (manager_Inv s (MShut i o f w) (q s + 1) (c s) (e s) (currentFloor s) (movingUp s) Hv); rewrite ?Em; manager_case.
  - eexists. split; [reflexivity|]. apply (manager_Inv s (MWhile i o f w) (q s) (c s) None (currentFloor s) (movingUp s) Hv); rewrite ?Em; manager_case.
  - eexists. split; [reflexivity|].
    apply (manager_Inv s MDone (q s) (c s) (e s) (if movingUp s then currentFloor s + 1 else currentFloor s - 1) (movingUp s) Hv); rewrite ?Em; manager_case.
    destruct (movingUp s); lia.
  - eexists. split; [reflexivity|]. apply (manager_Inv s MTest (q s) (c s - 1) (e s) (currentFloor s) (movingUp s) Hv); rewrite ?Em; manager_case.
  - eexists. split; [reflexivity|]. destruct (Z.eqb_spec (id s) (count s)).
    + apply (manager_Inv s MBreak (q s) (c s) (e s) (currentFloor s) (movingUp s) Hv); rewrite ?Em; manager_case.
    + apply (manager_Inv s MLoop (q s) (c s + 1) (e s) (currentFloor s) (movingUp s) Hv); rewrite ?Em; manager_case.
  - eexists. split; [reflexivity|]. apply (manager_Inv s MEnd (q s) (c s) None (currentFloor s) (movingUp s) Hv); rewrite ?Em; manager_case.
Qed.

(** ** People arrive *)

Lemma caller_has_to_wait s : Inv s → manager_has_c (manager s) = true → c s = 0.
Proof.
  intros Hv Hm. pose proof (v_c s Hv) as [Hc1 Hc2]. rewrite Hm in Hc2. pose proof (headcount_nonneg (λ p, has_c (place p)) (persons s)).
  destruct (caller_has_c (arriving s)); simpl in Hc2; lia.
Qed.

Lemma Arriving_Inv s f t s' :
  Inv s → 1 ≤ f ≤ numFloors s → 1 ≤ t ≤ numFloors s → ArrivingGoingFromTo s f t = Some s' → Inv s'.
Proof.
  intros Hv Hf Ht Hs. pose proof (caller_has_to_wait s Hv) as Hwait. unfold ArrivingGoingFromTo in Hs.
  destruct (arriving s) eqn:Ea; try done. destruct (P_c s) as [s1|] eqn:E1; [apply P_c_ok in E1 as [-> Hpos]|done].
  injection Hs as <-. destruct Hv as [V1 V2 V3 V4 V5 V6 V7 V8 V9 V10 V11 V12 V13]. rewrite Ea in V6, V10. simpl in V6, V10.
  split; simpl; try done; try lia.
  - intros i p Hp. destruct (V11 i p Hp). by split.
  - unfold manager_ok in *. simpl. destruct (manager s) eqn:Em; try done; exfalso; specialize (Hwait eq_refl); lia.
Qed.

Lemma Arriving_rest_Inv s s' : Inv s → Arriving_rest s = Some s' → Inv s'.
Proof.
  intros [V1 V2 V3 V4 V5 V6 V7 V8 V9 V10 V11 V12 V13] Hs. unfold Arriving_rest in Hs. unfold caller_ok in V13.
  destruct (arriving s) as [|a t|a t] eqn:Ea; try done; injection Hs as <-; simpl in *.
  - split; simpl; try done; try lia. intros i p Hp. destruct (V11 i p Hp). by split.
  - destruct V13 as [Ha Ht]. split; simpl; rewrite ?headcount_app; simpl; try done; try lia.
    + intros n f Hf. rewrite headcount_app, (V4 n f Hf). do 2 f_equal. destruct n; simpl; lia.
    + intros i. rewrite V7. split; intros (p & E1 & E2).
      * exists p. split; [|done]. rewrite lookup_app_l by (by eapply lookup_lt_Some). done.
      * exists p. split; [|done]. apply lookup_app_Some in E1 as [E1|[_ E1]]; [done|].
        apply list_lookup_singleton_Some in E1 as [_ <-]. done.
    + intros i p [Hp|[_ Hp]]%lookup_app_Some; [destruct (V11 i p Hp); by split|].
      apply list_lookup_singleton_Some in Hp as [_ <-]. by split.
Qed.

Lemma act_Inv s a r : Inv s → valid s a → act s a = Some r → ∃ s', r = Ok s' ∧ Inv s'.
Proof.
  intros Hv Hval Hr. destruct a as [|i|f t|]; simpl in Hr.
  - by apply Manager_Inv in Hr.
  - destruct (persons s !! i) as [p|] eqn:Hp; [|done]. by eapply Person_Inv.
  - destruct (ArrivingGoingFromTo s f t) as [s'|] eqn:E1; [|done]. injection Hr as <-. exists s'. split; [done|].
    destruct Hval as [Hval1 Hval2]. exact (Arriving_Inv s f t s' Hv Hval1 Hval2 E1).
  - destruct (Arriving_rest s) as [s'|] eqn:E1; [|done]. injection Hr as <-. exists s'. split; [done|]. by eapply Arriving_rest_Inv.
Qed.

Lemma Elevator_Inv s : Elevator N garbage = Some s → 2 ≤ N → Inv s.
Proof.
  unfold Elevator. intros Hs Hn. destruct (Z.leb_spec N 0); [lia|]. injection Hs as <-. split; simpl; try done; try lia.
  - intros m. rewrite length_fmap, length_seq. lia.
  - intros m f Hf. rewrite list_lookup_fmap, lookup_seq_lt by lia. simpl. do 2 f_equal. lia.
  - intros i. split; [done|]. by intros (p & ? & _).
Qed.

Lemma run_Inv s0 s : Elevator N garbage = Some s0 → 2 ≤ N → reachable s0 s → Inv s.
Proof.
  intros H0 Hn Hr. induction Hr as [|s a s' _ IH Hval Ha]; [by apply Elevator_Inv|].
  by destruct (act_Inv s a _ IH Hval Ha) as (s'' & [= <-] & Hv).
Qed.

End invariant.

(** ** Properties *)

(** C12: an elevator for two floors or more, called by one thread for floors
    between 1 and the last, in any order of the steps of the threads.  No step
    leaves an array; the elevator stays between the first and the last floor;
    [numPeopleIn] is the number of people inside and at most five; each cell of
    the four queues is, as an [int], the number of people who wait at a floor,
    or go to it, up or down, on top of what was in the memory when it was
    allocated; people get in on the floor where they are and out on the floor
    where they want to go; and [q] is never with two threads.  When the elevator
    has stopped, everyone who called it has arrived; it has kept the semaphore
    [c], so that whoever calls it later waits for ever.  (An elevator for one
    floor overruns its arrays: [one_floor_overruns].) *)
Theorem elevator_safe N garbage s0 s :
  Elevator N garbage = Some s0 → 2 ≤ N → reachable s0 s →
  (∀ a, valid s a → act s a = None ∨ ∃ s', act s a = Some (Ok s')) ∧
  1 ≤ currentFloor s ≤ N ∧
  numPeopleIn s = headcount rides (persons s) ∧ 0 ≤ numPeopleIn s ≤ 5 ∧
  (∀ n f, 1 ≤ f ≤ N → queues s n !! Z.to_nat f = Some (s32 (garbage n (Z.to_nat f) + headcount (presses n f) (persons s)))) ∧
  headcount (λ p, has_q (place p)) (persons s) + b2z (manager_has_q (manager s)) ≤ 1 ∧
  (∀ i p, persons s !! i = Some p →
     (place p = PEntered → currentFloor s = atFloor p) ∧ (place p = PLeft → currentFloor s = toFloor p)) ∧
  (manager s = MEnd →
     (∀ i p, persons s !! i = Some p → place p = PLast ∨ place p = PEnd) ∧ ∀ f t, ArrivingGoingFromTo s f t = None).
Proof.
  intros H0 HN Hr. pose proof (run_Inv N garbage s0 s H0 HN Hr) as Hv. pose proof (v_people _ _ s Hv) as [Hp1 Hp2].
  pose proof (v_floors _ _ s Hv) as [Hfl _]. pose proof (v_q _ _ s Hv) as [Hq1 Hq2]. split_and!.
  - intros a Hval. destruct (act s a) as [r|] eqn:Ea; [|by left]. destruct (act_Inv _ _ s a r Hv Hval Ea) as (s' & -> & _). right. by exists s'.
  - apply (v_floor _ _ s Hv).
  - rewrite <- Hfl. apply (v_floor _ _ s Hv).
  - done.
  - rewrite Hp1. apply headcount_nonneg.
  - done.
  - intros n f Hf. apply (v_queue _ _ s Hv). by rewrite Hfl.
  - lia.
  - intros i p Hp. destruct (v_persons _ _ s Hv i p Hp) as [_ _ _ O4]. split; intros E; rewrite E in O4; apply O4.
  - intros Hm. pose proof (v_manager _ _ s Hv) as Hc. unfold manager_ok in Hc. rewrite Hm in Hc.
    pose proof (v_count _ _ s Hv) as Hcount. pose proof (headcount_nonneg uncounted (persons s)) as Hnn.
    assert (headcount uncounted (persons s) = 0 ∧ calling (arriving s) = false) as [Hz Hcall] by (destruct (calling (arriving s)); simpl in Hcount; [lia|split; [lia|done]]).
    split.
    + intros i p Hp. destruct (uncounted p) eqn:Hu; [pose proof (headcount_one uncounted _ _ _ Hp Hu); lia|].
      unfold uncounted in Hu. destruct (place p); auto; done.
    + intros f t. unfold ArrivingGoingFromTo. destruct (arriving s); try done. unfold P_c.
      rewrite (caller_has_to_wait _ _ s Hv) by by rewrite Hm. done.
Qed.

(** A run of two floors: someone calls the elevator on the second floor. *)
Definition no_garbage (n : queue) (i : nat) : Z := 0.

Lemma play_reaches s0 s l s' :
  reachable s0 s → Forall (λ a, match a with Call _ _ => False | _ => True end) l → play s l = Some (Ok s') → reachable s0 s'.
Proof.
  intros Hr Hl. revert s Hr. induction Hl as [|a l Ha _ IH]; intros s Hr Hp; cbn [play] in Hp; [by injection Hp as <-|].
  destruct (act s a) as [[s1|]|] eqn:Ea; try done. apply (IH s1); [|done]. apply (reach_step s0 s a); [done|by destruct a|done].
Qed.

Definition two_floors : state := mkState 2 1 0 true (λ n, (λ i, s32 (no_garbage n i)) <$> seq 0 3) 0 0 1 1 None MStart [] CIdle.
Definition called : state := match act two_floors (Call 2 1) with Some (Ok s) => s | _ => two_floors end.
Definition upstairs : state :=
  match play called (RunCaller :: RunCaller :: replicate 7 RunManager) with Some (Ok s) => s | _ => called end.

Lemma upstairs_reachable : reachable two_floors upstairs.
Proof.
  apply (play_reaches two_floors called (RunCaller :: RunCaller :: replicate 7 RunManager)).
  - apply (reach_step two_floors two_floors (Call 2 1)); [apply reach_start|simpl; lia|reflexivity].
  - repeat constructor.
  - vm_compute. reflexivity.
Qed.

Lemma elevator_safe_witness : currentFloor upstairs = 2 ∧ 0 ≤ numPeopleIn upstairs ≤ 5.
Proof.
  split; [vm_compute; reflexivity|].
  apply (elevator_safe 2 no_garbage two_floors upstairs); [reflexivity|lia|exact upstairs_reachable].
Defined.

(** With one floor the elevator leaves the building: the first floor is not
    compared with the last one before the elevator moves up. *)
Lemma one_floor_overruns :
  ∃ s0, Elevator 1 no_garbage = Some s0 ∧
  play s0 (Call 1 1 :: RunCaller :: RunCaller :: replicate 12 RunManager) = Some (Err OutOfBounds).
Proof. eexists. split; reflexivity. Qed.

End Elevator.
