(* ===== verification/ThreadTest.v ===== *)
(** * The test of the threads: threads/threadtest.cc

    [ThreadTest(n)] forks [n] threads and runs [SimpleThread] in them and in the
    main thread: each adds 1 to [SharedVariable] five times, and prints the value
    at the end.  Three versions: with semaphores and a barrier (HW1_SEMAPHORES),
    with locks (HW1_LOCKS), and without synchronisation.  A thread is the place
    where it stands, a step takes it over one operation on a semaphore or a lock
    or one access to a shared variable, and any thread may move next: this covers
    the timer (option -rs), which switches threads at any time.  The semaphores
    and locks do what file Threads shows of them: [P] and [Acquire] wait for a
    positive value and a free lock. *)

From stdpp Require Import base list.
From S2P Require Import Prelude.

Module ThreadTest.

(** ** Sums over the threads *)

Definition sum {A} (f : A → Z) (l : list A) : Z := foldr (λ x z, f x + z) 0 l.

Lemma sum_insert {A} (f : A → Z) (l : list A) i x y : l !! i = Some x → sum f (<[i := y]> l) = sum f l - f x + f y.
Proof.
  revert i. induction l as [|z l IH]; intros [|i] Hi; simplify_eq/=; [lia|]. rewrite (IH i Hi). lia.
Qed.

Lemma sum_ext {A} (f g : A → Z) (l : list A) : (∀ x, x ∈ l → f x = g x) → sum f l = sum g l.
Proof.
  induction l as [|x l IH]; intros H; [done|]. simpl. rewrite (H x) by left. rewrite IH; [done|]. intros y Hy. apply H. by right.
Qed.

Lemma sum_const {A} (f : A → Z) (c : Z) (l : list A) : (∀ x, x ∈ l → f x = c) → sum f l = c * Z.of_nat (length l).
Proof.
  induction l as [|x l IH]; intros H; [simpl; lia|]. simpl. rewrite (H x) by left. rewrite IH; [lia|]. intros y Hy. apply H. by right.
Qed.

(** The rounds of the loop. *)
Definition rounds : Z := 5.

(** ** With semaphores *)

Module Semaphores.

(** Where a thread stands in [SimpleThread], with its variables [num] and [val]. *)
Inductive place :=
  | Top (num : Z)            (* num < 5; then semaphore->P() *)
  | Look (num : Z)           (* val = SharedVariable *)
  | Set_ (num val : Z)       (* Yield(); SharedVariable = val + 1 *)
  | Leave (num : Z)          (* semaphore->V(); Yield(); num++ *)
  | Test                     (* if (count < numThreads) *)
  | Load                     (* count += 1: reading it *)
  | Store (c : Z)            (* count += 1: writing c + 1 *)
  | Open_                    (* else barrier->V() *)
  | Wait                     (* barrier->P() *)
  | Pass                     (* barrier->V() *)
  | Final                    (* val = SharedVariable; printf *)
  | Done (val : Z).

(** The globals. *)
Record globals := mkGlobals {
  semaphore : Z;
  barrier : Z;
  numThreads : Z;
  count : Z;
  SharedVariable : Z;
}.

Definition init (n : Z) : globals := mkGlobals 1 0 n 0 0.

(** [SimpleThread], one step; [None] is waiting in [P], or done. *)
Definition SimpleThread (g : globals) (p : place) : option (globals * place) :=
  let '(mkGlobals s b n c v) := g in
  match p with
  | Top num => if num <? rounds then if s >? 0 then Some (mkGlobals (s - 1) b n c v, Look num) else None else Some (g, Test)
  | Look num => Some (g, Set_ num v)
  | Set_ num val => Some (mkGlobals s b n c (val + 1), Leave num)
  | Leave num => Some (mkGlobals (s + 1) b n c v, Top (num + 1))
  | Test => Some (g, if c <? n then Load else Open_)
  | Load => Some (g, Store c)
  | Store c' => Some (mkGlobals s b n (c' + 1) v, Wait)
  | Open_ => Some (mkGlobals s (b + 1) n c v, Wait)
  | Wait => if b >? 0 then Some (mkGlobals s (b - 1) n c v, Pass) else None
  | Pass => Some (mkGlobals s (b + 1) n c v, Final)
  | Final => Some (g, Done v)
  | Done _ => None
  end.

(** [ThreadTest(n)]: the forked threads and the main thread, in [SimpleThread]. *)
Definition ThreadTest (n : nat) : globals * list place := (init (Z.of_nat n), replicate (S n) (Top 0)).

(** Between the two halves of [count += 1], or before the first one. *)
Definition mid (p : place) : bool := match p with Load | Store _ => true | _ => false end.

(** Does thread [t] move without another one in the middle of [count += 1]?  That
    is so when threads switch only in [Yield] and [P]. *)
Definition cooperative (threads : list place) (t : nat) : Prop := ∀ u p, threads !! u = Some p → mid p = true → u = t.

Inductive reach (n : nat) (R : list place → nat → Prop) : globals → list place → Prop :=
  | reach_start : reach n R (ThreadTest n).1 (ThreadTest n).2
  | reach_step g threads t p g' p' :
      reach n R g threads → threads !! t = Some p → R threads t → SimpleThread g p = Some (g', p') → reach n R g' (<[t := p']> threads).

(** *** The invariant *)

Definition critical (p : place) : bool := match p with Look _ | Set_ _ _ | Leave _ => true | _ => false end.

(** How often the thread has added 1. *)
Definition added (p : place) : Z :=
  match p with Top k | Look k | Set_ k _ => k | Leave k => k + 1 | _ => rounds end.

Definition in_loop (p : place) : bool := match p with Top _ | Look _ | Set_ _ _ | Leave _ => true | _ => false end.

(** At the barrier or behind it. *)
Definition past (p : place) : bool := match p with Wait | Pass | Final | Done _ => true | _ => false end.

(** Shows that the barrier has been opened. *)
Definition opened (p : place) : bool := match p with Open_ | Pass | Final | Done _ => true | _ => false end.

Definition place_ok (v total pasts : Z) (p : place) : Prop :=
  match p with
  | Top k => 0 ≤ k ≤ rounds
  | Look k | Leave k => 0 ≤ k < rounds
  | Set_ k val => 0 ≤ k < rounds ∧ val = v
  | Store c' => 0 ≤ c' ≤ pasts
  | Done val => val = total
  | _ => True
  end.

Record Inv (n : nat) (g : globals) (threads : list place) : Prop := mkInv {
  i_length : length threads = S n;
  i_num : numThreads g = Z.of_nat n;
  i_mutex : semaphore g + Z.of_nat (number critical threads) = 1;
  i_sem : 0 ≤ semaphore g;
  i_barrier : 0 ≤ barrier g;
  i_sum : SharedVariable g = sum added threads;
  i_count : 0 ≤ count g ≤ Z.of_nat (number past threads);
  i_open : barrier g > 0 ∨ (∃ t p, threads !! t = Some p ∧ opened p = true) → ∀ t p, threads !! t = Some p → in_loop p = false;
  i_places t p : threads !! t = Some p →
    place_ok (SharedVariable g) (rounds * Z.of_nat (S n)) (Z.of_nat (number past threads)) p;
}.

Lemma init_inv n : Inv n (init (Z.of_nat n)) (replicate (S n) (Top 0)).
Proof.
  assert (∀ t p, replicate (S n) (Top 0) !! t = Some p → p = Top 0) as Hr by (intros t p Hp; by apply lookup_replicate in Hp as [-> _]).
  split; simpl; try lia.
  - by rewrite length_replicate.
  - rewrite (number_none critical (Top 0 :: replicate n (Top 0))); [lia|]. intros t p ->%Hr. done.
  - change (0 = sum added (replicate (S n) (Top 0))). rewrite (sum_const _ 0); [lia|]. intros x Hx. by apply elem_of_replicate in Hx as [-> _].
  - intros [|(t & p & ->%Hr & ?)]; [lia|done].
  - intros t p ->%Hr. simpl. unfold rounds. lia.
Qed.

(** One thread moves: what has to be seen of the thread and of the globals. *)
Lemma move_inv n g g' threads t p p' :
  Inv n g threads → threads !! t = Some p →
  numThreads g' = numThreads g → 0 ≤ semaphore g' → 0 ≤ barrier g' →
  semaphore g' + (if critical p' then 1 else 0) = semaphore g + (if critical p then 1 else 0) →
  SharedVariable g' = SharedVariable g - added p + added p' →
  (SharedVariable g' = SharedVariable g ∨ critical p = true) →
  (past p = true → past p' = true) →
  0 ≤ count g' ≤ Z.of_nat (number past threads) + (if past p' then 1 else 0) - (if past p then 1 else 0) →
  (in_loop p = false → in_loop p' = false) →
  (barrier g' > 0 ∨ opened p' = true → barrier g > 0 ∨ opened p = true ∨ (in_loop p' = false ∧ ∀ u q, threads !! u = Some q → u ≠ t → in_loop q = false)) →
  (place_ok (SharedVariable g') (rounds * Z.of_nat (S n)) (Z.of_nat (number past (<[t := p']> threads))) p') →
  Inv n g' (<[t := p']> threads).
Proof.
  intros [I1 I2 I3 I4 I5 I6 I7 I8 I9] Ht Hn Hs Hb Hcrit Hsum Hsame Hpast Hcount Hloop Hopen Hok.
  pose proof (number_insert critical threads t p p' Ht) as Nc. pose proof (number_insert past threads t p p' Ht) as Np.
  split; try done; try lia.
  - by rewrite length_insert.
  - destruct (critical p), (critical p'); lia.
  - rewrite (sum_insert _ _ _ _ _ Ht). lia.
  - destruct (past p), (past p'); lia.
  - intros Ho u q Hu. apply lookup_insert_cases in Hu.
    assert (barrier g > 0 ∨ (∃ t p, threads !! t = Some p ∧ opened p = true) ∨
            (in_loop p' = false ∧ ∀ u q, threads !! u = Some q → u ≠ t → in_loop q = false)) as Hcase.
    { destruct Ho as [Hb'|(v & r & Hv & Hr)].
      - destruct (Hopen (or_introl Hb')) as [|[|]]; [by left|right; left; eauto|by do 2 right].
      - apply lookup_insert_cases in Hv. destruct Hv as [[-> ->]|[Hne Hv]]; [|right; left; eauto].
        destruct (Hopen (or_intror Hr)) as [|[|]]; [by left|right; left; eauto|by do 2 right]. }
    destruct Hcase as [Hc|[Hc|[Hc1 Hc2]]].
    + destruct Hu as [[-> ->]|[Hne Hu]]; [|by eapply I8; eauto]. apply Hloop. eapply I8; eauto.
    + destruct Hu as [[-> ->]|[Hne Hu]]; [|by eapply I8; eauto]. apply Hloop. eapply I8; eauto.
    + destruct Hu as [[-> ->]|[Hne Hu]]; [done|by eapply Hc2].
  - intros u q Hu. apply lookup_insert_cases in Hu. destruct Hu as [[-> ->]|[Hne Hu]]; [done|].
    pose proof (I9 u q Hu) as Hq. assert (number past threads ≤ number past (<[t := p']> threads))%nat as Hmono.
    { destruct (past p) eqn:E; [rewrite (Hpast eq_refl) in Np; lia|destruct (past p'); lia]. }
    destruct q; simpl in *; try done; try lia. destruct Hsame as [->|Hc]; [done|]. exfalso.
    pose proof (number_two critical threads u t (Set_ num val) p Hu Ht Hne eq_refl Hc). lia.
Qed.

Ltac goes_on :=
  eapply move_inv; try done; simpl in *; try lia; try (by left); try (by right); try (intros [|]; by auto); try (intros; by auto).

Lemma test_step_inv n g threads t p g' p' :
  Inv n g threads → threads !! t = Some p → SimpleThread g p = Some (g', p') → Inv n g' (<[t := p']> threads).
Proof.
  intros HI Ht Hstep. pose proof HI as [I1 I2 I3 I4 I5 I6 I7 I8 I9]. pose proof (I9 t p Ht) as Hp.
  pose proof (number_insert past threads t p p' Ht) as Np.
  assert (∀ q, threads !! t = Some q → critical q = true → semaphore g = 0) as Hcrit.
  { intros q Hq Hc. pose proof (number_some critical threads t q Hq Hc). lia. }
  destruct g as [s b m c v]. simpl in *.
  destruct p as [k|k|k w|k| | |c'| | | | |w]; simpl in Hstep, Hp, Np; try discriminate Hstep.
  - destruct (Z.ltb_spec k rounds).
    + destruct (Z.gtb_spec s 0); [|done]. simplify_eq. goes_on.
    + simplify_eq. goes_on.
  - simplify_eq. goes_on.
  - simplify_eq. destruct Hp as [Hk ->]. goes_on.
  - simplify_eq. goes_on.
  - destruct (Z.ltb_spec c m); simplify_eq; goes_on.
    intros _. do 2 right. split; [done|]. intros u q Hu Hne.
    assert (past q = true) as Hq; [|by destruct q]. eapply (number_but_one past threads t u Test q); try done. lia.
  - simplify_eq. goes_on.
  - simplify_eq. goes_on.
  - simplify_eq. goes_on.
  - destruct (Z.gtb_spec b 0); [|done]. simplify_eq. goes_on.
  - simplify_eq. goes_on.
  - simplify_eq. goes_on.
    assert (∀ x, x ∈ threads → added x = rounds) as Ha.
    { intros x [u Hu]%list_elem_of_lookup. assert (in_loop x = false) as Hx; [|by destruct x]. eapply I8; [right; by exists t, Final|done]. }
    rewrite (sum_const _ rounds _ Ha), I1. done.
Qed.

Lemma test_reach_inv n R g threads : reach n R g threads → Inv n g threads.
Proof. induction 1 as [|g threads t p g' p' _ IH Ht _ Hs]; [apply init_inv|by eapply test_step_inv]. Qed.

(** *** Cooperative threads *)

Definition at_pass (p : place) : bool := match p with Pass => true | _ => false end.

(** With [count += 1] in one piece, [count] is exact: whoever is at the barrier
    or behind it was counted or opened it. *)
Record Exact (n : nat) (g : globals) (threads : list place) : Prop := mkExact {
  e_count : count g + barrier g + Z.of_nat (number at_pass threads) = Z.of_nat (number past threads);
  e_max : count g ≤ Z.of_nat n;
  e_mid t p : threads !! t = Some p → mid p = true → count g < Z.of_nat n ∧ ∀ c, p = Store c → c = count g;
  e_one t u p q : threads !! t = Some p → threads !! u = Some q → mid p = true → mid q = true → t = u;
}.

Lemma init_exact n : Exact n (init (Z.of_nat n)) (replicate (S n) (Top 0)).
Proof.
  assert (∀ t p, replicate (S n) (Top 0) !! t = Some p → p = Top 0) as Hr by (intros t p Hp; by apply lookup_replicate in Hp as [-> _]).
  split; simpl; try lia.
  - rewrite !(number_none _ (Top 0 :: replicate n (Top 0))); [done|..]; intros t p ->%Hr; done.
  - intros t p ->%Hr. done.
  - intros t u p q ->%Hr ->%Hr. done.
Qed.

Lemma step_exact n g threads t p g' p' :
  Inv n g threads → Exact n g threads → threads !! t = Some p → cooperative threads t → SimpleThread g p = Some (g', p') →
  Exact n g' (<[t := p']> threads).
Proof.
  intros HI [X1 X2 X3 X4] Ht Hco Hstep. pose proof (i_num _ _ _ HI) as Hn.
  pose proof (number_insert past threads t p p' Ht) as Np. pose proof (number_insert at_pass threads t p p' Ht) as Na.
  assert (∀ u q, <[t := p']> threads !! u = Some q → mid q = true → u = t ∧ q = p') as Hmid.
  { intros u q Hu Hq. apply lookup_insert_cases in Hu as [[-> ->]|[Hne Hu]]; [done|]. by destruct Hne; eapply Hco. }
  assert (count g + barrier g + Z.of_nat (number at_pass threads) = Z.of_nat (number past threads)) as X1' by done.
  destruct g as [s b m c v]. simpl in *.
  assert (mid p = true → c < Z.of_nat n ∧ ∀ c', p = Store c' → c' = c) as Hp by (intros Hm; by eapply X3).
  split.
  - destruct p; simpl in Hstep, Na, Np, Hp; repeat case_match; simplify_eq/=; try lia.
    destruct (Hp eq_refl) as [_ Hc]. rewrite (Hc _ eq_refl). lia.
  - destruct p; simpl in Hstep, Hp; repeat case_match; simplify_eq/=; try lia.
    destruct (Hp eq_refl) as [Hlt Hc]. rewrite (Hc _ eq_refl). lia.
  - intros u q Hu Hq. destruct (Hmid u q Hu Hq) as [-> ->].
    destruct p; simpl in Hstep, Hp; try discriminate Hstep.
    5: { destruct (Z.ltb_spec c m); simplify_eq/=. split; [lia|done]. }
    5: { simplify_eq/=. split; [by apply Hp|]. intros c' [=]. done. }
    all: repeat case_match; simplify_eq/=; done.
  - intros u1 u2 q1 q2 H1 H2 M1 M2. destruct (Hmid _ _ H1 M1) as [-> _], (Hmid _ _ H2 M2) as [-> _]. done.
Qed.

Lemma reach_exact n g threads : reach n cooperative g threads → Exact n g threads.
Proof.
  induction 1 as [|g threads t p g' p' Hr IH Ht Hco Hs]; [apply init_exact|]. eapply step_exact; [by eapply test_reach_inv|done..].
Qed.

(** Steps to go. *)
Definition remaining (p : place) : Z :=
  match p with
  | Top k => 4 * (rounds - k) + 8 | Look k => 4 * (rounds - k) + 7 | Set_ k _ => 4 * (rounds - k) + 6 | Leave k => 4 * (rounds - k) + 5
  | Test => 7 | Load => 6 | Store _ => 5 | Open_ => 4 | Wait => 3 | Pass => 2 | Final => 1 | Done _ => 0
  end.

Lemma remaining_less v total pasts g p g' p' :
  place_ok v total pasts p → SimpleThread g p = Some (g', p') → remaining p' < remaining p.
Proof.
  destruct g, p; simpl; intros; repeat case_match; simplify_eq/=; try lia.
Qed.

Lemma remaining_nonneg v total pasts p : place_ok v total pasts p → 0 ≤ remaining p.
Proof. destruct p; simpl; unfold rounds; lia. Qed.

Lemma sum_nonneg {A} (f : A → Z) (l : list A) : (∀ i x, l !! i = Some x → 0 ≤ f x) → 0 ≤ sum f l.
Proof.
  induction l as [|x l IH]; intros H; simpl; [lia|]. pose proof (H 0%nat x eq_refl). specialize (IH (λ i y, H (S i) y)). lia.
Qed.

(** Who cannot move. *)
Lemma stuck_place g p : SimpleThread g p = None → (∃ k, p = Top k ∧ semaphore g ≤ 0) ∨ (p = Wait ∧ barrier g ≤ 0) ∨ ∃ v, p = Done v.
Proof.
  destruct g, p; simpl; intros; repeat case_match; simplify_eq/=; eauto.
  - left. eexists. split; [done|]. rewrite Z.gtb_ltb in *. match goal with H : (0 <? _) = false |- _ => apply Z.ltb_ge in H end. lia.
  - right. left. split; [done|]. rewrite Z.gtb_ltb in *. match goal with H : (0 <? _) = false |- _ => apply Z.ltb_ge in H end. lia.
Qed.

Lemma stuck_done n g threads :
  Inv n g threads → Exact n g threads → (∀ t p, threads !! t = Some p → SimpleThread g p = None) →
  ∀ t p, threads !! t = Some p → p = Done (rounds * Z.of_nat (S n)).
Proof.
  intros [I1 I2 I3 I4 I5 I6 I7 I8 I9] [X1 X2 X3 X4] Hst t p Ht.
  assert (number critical threads = 0%nat) as Hnc.
  { apply number_none. intros u q Hu. destruct (stuck_place g q (Hst u q Hu)) as [(k & -> & _)|[[-> _]|[v ->]]]; done. }
  assert (∀ u q, threads !! u = Some q → q = Wait ∨ ∃ v, q = Done v) as Hq.
  { intros u q Hu. destruct (stuck_place g q (Hst u q Hu)) as [(k & -> & Hs)|[[-> _]|[v ->]]]; eauto. lia. }
  assert (number past threads = S n) as Hpast.
  { rewrite <- I1. pose proof (number_negb past threads) as Hn. rewrite (number_none (λ x, negb (past x)) threads) in Hn; [lia|].
    intros u q Hu. destruct (Hq u q Hu) as [->|[v ->]]; done. }
  assert (number at_pass threads = 0%nat) as Hpass by (apply number_none; intros u q Hu; destruct (Hq u q Hu) as [->|[v ->]]; done).
  destruct (stuck_place g p (Hst t p Ht)) as [(k & -> & Hs)|[[-> Hb]|[v ->]]]; [lia|lia|]. by rewrite (I9 t _ Ht).
Qed.

(** Any thread may move next: what the timer does. *)
Definition preemptive (threads : list place) (t : nat) : Prop := True.

(** C36: in the version with semaphores, with [n] forked threads and whatever way the
    threads are switched, every thread that prints a final value prints
    5 * (n + 1); [SharedVariable] is at all times the number of rounds done, and at
    most one thread is between [P] and [V]. *)
Theorem semaphores_count_all n g threads :
  reach n preemptive g threads →
  (∀ t v, threads !! t = Some (Done v) → v = 5 * (Z.of_nat n + 1)) ∧
  SharedVariable g = sum added threads ∧
  (∀ t u p q, threads !! t = Some p → threads !! u = Some q → critical p = true → critical q = true → t = u).
Proof.
  intros Hr. pose proof (test_reach_inv _ _ _ _ Hr) as [I1 I2 I3 I4 I5 I6 I7 I8 I9]. split_and!; [|done|].
  - intros t v Hv. rewrite (I9 t _ Hv). unfold rounds. lia.
  - intros t u p q Ht Hu Hp Hq. destruct (decide (t = u)) as [|Hne]; [done|]. pose proof (number_two critical threads t u p q Ht Hu Hne Hp Hq). lia.
Qed.

(** When threads switch only in [Yield] and [P], the test with semaphores comes to
    its end: every step brings it nearer, and in every state some thread can go
    on, or all have printed 5 * (n + 1). *)
Theorem semaphores_finish n g threads :
  reach n cooperative g threads →
  0 ≤ sum remaining threads ∧
  (∀ t p g' p', threads !! t = Some p → SimpleThread g p = Some (g', p') → sum remaining (<[t := p']> threads) < sum remaining threads) ∧
  ((∃ t p, threads !! t = Some p ∧ cooperative threads t ∧ is_Some (SimpleThread g p)) ∨
   (∀ t p, threads !! t = Some p → p = Done (5 * (Z.of_nat n + 1)))).
Proof.
  intros Hr. pose proof (test_reach_inv _ _ _ _ Hr) as HI. pose proof (reach_exact _ _ _ Hr) as HX. split_and!.
  - apply sum_nonneg. intros t p Ht. eapply remaining_nonneg, i_places; done.
  - intros t p g' p' Ht Hs. rewrite (sum_insert _ _ _ _ _ Ht). pose proof (remaining_less _ _ _ g p g' p' (i_places _ _ _ HI t p Ht) Hs). lia.
  - destruct (decide (Exists (λ p, mid p = true) threads)) as [Hm|Hm].
    + left. apply Exists_exists in Hm as (p & [t Ht]%list_elem_of_lookup & Hp). exists t, p. split; [done|]. split.
      * intros u q Hu Hq. by eapply e_one.
      * destruct g, p; try done; eexists; done.
    + assert (∀ t, cooperative threads t) as Hco.
      { intros t u q Hu Hq. destruct Hm. apply Exists_exists. exists q. split; [by eapply list_elem_of_lookup_2|done]. }
      destruct (decide (Exists (λ p, is_Some (SimpleThread g p)) threads)) as [Hs|Hs].
      * left. apply Exists_exists in Hs as (p & [t Ht]%list_elem_of_lookup & Hp). eauto.
      * right. intros t p Ht. replace (5 * (Z.of_nat n + 1)) with (rounds * Z.of_nat (S n)) by (unfold rounds; lia).
        eapply stuck_done; [done|done| |done]. intros u q Hu. apply eq_None_not_Some. intros Hq. apply Hs, Exists_exists.
        exists q. split; [by eapply list_elem_of_lookup_2|done].
Qed.

(** *** Examples *)

(** A schedule: the threads in the order in which they move. *)
Fixpoint play (g : globals) (threads : list place) (todo : list nat) : option (globals * list place) :=
  match todo with
  | [] => Some (g, threads)
  | t :: todo => p ← threads !! t; '(g, p) ← SimpleThread g p; play g (<[t := p]> threads) todo
  end.

Lemma test_play_reach n todo : ∀ g threads g' threads',
  reach n preemptive g threads → play g threads todo = Some (g', threads') → reach n preemptive g' threads'.
Proof.
  induction todo as [|t todo IH]; intros g threads g' threads' Hr Hp; simpl in Hp; [by simplify_eq|].
  destruct (threads !! t) as [p|] eqn:Et; [|done]. simpl in Hp. destruct (SimpleThread g p) as [[g1 p1]|] eqn:Es; [|done].
  simpl in Hp. eapply IH; [|done]. by eapply reach_step.
Qed.

(** One forked thread, after the main thread, to the end. *)
Definition to_the_end : list nat :=
  replicate 21 0%nat ++ [0; 0; 0]%nat ++ replicate 21 1%nat ++ [1; 1; 1; 1; 1; 0; 0; 0]%nat.

Lemma to_the_end_reach : reach 1 preemptive (mkGlobals 1 1 1 1 10) [Done 10; Done 10].
Proof. eapply (test_play_reach 1 to_the_end (ThreadTest 1).1 (ThreadTest 1).2); [apply reach_start|]. vm_compute. reflexivity. Qed.

Lemma semaphores_count_all_witness : [Done 10; Done 10] !! 0%nat = Some (Done 10) ∧ 10 = 5 * (Z.of_nat 1 + 1).
Proof. split; [reflexivity|]. exact (proj1 (semaphores_count_all 1 _ _ to_the_end_reach) 0%nat 10 eq_refl). Defined.

Lemma semaphores_finish_witness :
  ∃ t p, (ThreadTest 3).2 !! t = Some p ∧ cooperative (ThreadTest 3).2 t ∧ is_Some (SimpleThread (ThreadTest 3).1 p).
Proof.
  destruct (semaphores_finish 3 _ _ (reach_start 3 cooperative)) as (_ & _ & [H|H]); [exact H|].
  exfalso. discriminate (H 0%nat (Top 0) eq_refl).
Defined.

(** With the timer two threads can read [count] before either writes it.  Then
    nobody opens the barrier, and both wait for ever. *)
Definition both_read : list nat :=
  replicate 21 0%nat ++ replicate 21 1%nat ++ [0; 1; 0; 1; 0; 1]%nat.

Example preempted_test_hangs :
  reach 1 preemptive (mkGlobals 1 0 1 1 10) [Wait; Wait] ∧ SimpleThread (mkGlobals 1 0 1 1 10) Wait = None.
Proof.
  split; [|done]. eapply (test_play_reach 1 both_read (ThreadTest 1).1 (ThreadTest 1).2); [apply reach_start|]. vm_compute. reflexivity.
Qed.
End Semaphores.

(** ** With locks *)

Module Locks.

Inductive place :=
  | Enter                    (* b->Acquire() *)
  | Load                     (* count++: reading it *)
  | Store (c : Z)            (* count++: writing c + 1 *)
  | Exit_                    (* b->Release() *)
  | Top (num : Z)            (* num < 5; then l->Acquire() *)
  | Look (num : Z)           (* val = SharedVariable *)
  | Set_ (num val : Z)       (* Yield(); SharedVariable = val+1 *)
  | Leave (num : Z)          (* l->Release(); Yield(); num++ *)
  | Loop                     (* while (SharedVariable < 5*count) Yield() *)
  | Final                    (* val = SharedVariable; printf *)
  | Done (val : Z).

(** The globals; a lock is whether it is held. *)
Record globals := mkGlobals {
  l : bool;
  b : bool;
  count : Z;
  SharedVariable : Z;
}.

Definition SimpleThread (g : globals) (p : place) : option (globals * place) :=
  let '(mkGlobals l b c v) := g in
  match p with
  | Enter => if b then None else Some (mkGlobals l true c v, Load)
  | Load => Some (g, Store c)
  | Store c' => Some (mkGlobals l b (c' + 1) v, Exit_)
  | Exit_ => Some (mkGlobals l false c v, Top 0)
  | Top num => if num <? rounds then if l then None else Some (mkGlobals true b c v, Look num) else Some (g, Loop)
  | Look num => Some (g, Set_ num v)
  | Set_ num val => Some (mkGlobals l b c (val + 1), Leave num)
  | Leave num => Some (mkGlobals false b c v, Top (num + 1))
  | Loop => Some (g, if v <? 5 * c then Loop else Final)
  | Final => Some (g, Done v)
  | Done _ => None
  end.

Definition ThreadTest (n : nat) : globals * list place := (mkGlobals false false 0 0, replicate (S n) Enter).

Inductive reach (n : nat) : globals → list place → Prop :=
  | reach_start : reach n (ThreadTest n).1 (ThreadTest n).2
  | reach_step g threads t p g' p' :
      reach n g threads → threads !! t = Some p → SimpleThread g p = Some (g', p') → reach n g' (<[t := p']> threads).

Definition has_l (p : place) : bool := match p with Look _ | Set_ _ _ | Leave _ => true | _ => false end.
Definition has_b (p : place) : bool := match p with Load | Store _ | Exit_ => true | _ => false end.

(** Has the thread added itself to [count]? *)
Definition counted (p : place) : bool := match p with Enter | Load | Store _ => false | _ => true end.

Definition added (p : place) : Z :=
  match p with Enter | Load | Store _ | Exit_ => 0 | Top k | Look k | Set_ k _ => k | Leave k => k + 1 | _ => rounds end.

Definition place_ok (n : nat) (v c : Z) (p : place) : Prop :=
  match p with
  | Store c' => c' = c
  | Top k => 0 ≤ k ≤ rounds
  | Look k | Leave k => 0 ≤ k < rounds
  | Set_ k val => 0 ≤ k < rounds ∧ val = v
  | Done val => rounds ≤ val ≤ rounds * Z.of_nat (S n)
  | _ => True
  end.

Record Inv (n : nat) (g : globals) (threads : list place) : Prop := mkInv {
  i_length : length threads = S n;
  i_l : number has_l threads = if l g then 1%nat else 0%nat;
  i_b : number has_b threads = if b g then 1%nat else 0%nat;
  i_count : count g = Z.of_nat (number counted threads);
  i_sum : SharedVariable g = sum added threads;
  i_places t p : threads !! t = Some p → place_ok n (SharedVariable g) (count g) p;
}.

Lemma locks_init n : Inv n (ThreadTest n).1 (ThreadTest n).2.
Proof.
  assert (∀ t p, replicate (S n) Enter !! t = Some p → p = Enter) as Hr by (intros t p Hp; by apply lookup_replicate in Hp as [-> _]).
  unfold ThreadTest. split; cbn [fst snd l b count SharedVariable].
  - by rewrite length_replicate.
  - apply number_none. by intros t p ->%Hr.
  - apply number_none. by intros t p ->%Hr.
  - rewrite number_none; [done|]. by intros t p ->%Hr.
  - rewrite (sum_const _ 0); [lia|]. intros x Hx. by apply elem_of_replicate in Hx as [-> _].
  - by intros t p ->%Hr.
Qed.

(** One thread moves; shared variables change only under their lock. *)
Lemma locks_move n g g' threads t p p' :
  Inv n g threads → threads !! t = Some p →
  (number has_l (<[t := p']> threads) = if l g' then 1%nat else 0%nat) →
  (number has_b (<[t := p']> threads) = if b g' then 1%nat else 0%nat) →
  count g' = count g + (if counted p' then 1 else 0) - (if counted p then 1 else 0) →
  SharedVariable g' = SharedVariable g - added p + added p' →
  (SharedVariable g' = SharedVariable g ∨ has_l p = true) → (count g' = count g ∨ has_b p = true) →
  place_ok n (SharedVariable g') (count g') p' → Inv n g' (<[t := p']> threads).
Proof.
  intros [I1 I2 I3 I4 I5 I6] Ht Hl Hb Hc Hs Hsame1 Hsame2 Hok. pose proof (number_insert counted threads t p p' Ht) as Nc.
  split; try done.
  - by rewrite length_insert.
  - destruct (counted p), (counted p'); lia.
  - rewrite (sum_insert _ _ _ _ _ Ht). lia.
  - intros u q Hu. apply lookup_insert_cases in Hu as [[-> ->]|[Hne Hu]]; [done|]. pose proof (I6 u q Hu) as Hq.
    destruct q; simpl in *; try done.
    + destruct Hsame2 as [->|Hp]; [done|]. pose proof (number_two has_b threads u t (Store c) p Hu Ht Hne eq_refl Hp). destruct (b g); lia.
    + destruct Hsame1 as [->|Hp]; [done|]. pose proof (number_two has_l threads u t (Set_ num val) p Hu Ht Hne eq_refl Hp). destruct (l g); lia.
Qed.

(** The rounds of the threads that were counted. *)
Lemma added_bounds n v c p : place_ok n v c p → 0 ≤ added p ≤ (if counted p then rounds else 0).
Proof. destruct p; simpl; unfold rounds; lia. Qed.

Lemma sum_counted (threads : list place) :
  (∀ t p, threads !! t = Some p → 0 ≤ added p ≤ (if counted p then rounds else 0)) →
  0 ≤ sum added threads ≤ rounds * Z.of_nat (number counted threads) ∧
  (sum added threads = rounds * Z.of_nat (number counted threads) → ∀ t p, threads !! t = Some p → counted p = true → added p = rounds).
Proof.
  induction threads as [|x threads IH]; intros H; [done|]. destruct (IH (λ t p Hp, H (S t) p Hp)) as [IH1 IH2].
  pose proof (H 0%nat x eq_refl) as Hx. rewrite number_cons. cbn [sum foldr]. fold (sum added threads). split.
  - destruct (counted x); lia.
  - intros E t p Hp Hc. destruct t as [|t]; simpl in Hp.
    + injection Hp as ->. rewrite Hc in *. lia.
    + apply (IH2 ltac:(destruct (counted x); lia) t p Hp Hc).
Qed.

Lemma number_le {A} (f : A → bool) (threads : list A) : (number f threads ≤ length threads)%nat.
Proof. pose proof (number_negb f threads). lia. Qed.

(** A thread that is behind its rounds has seen five at least. *)
Lemma sum_one (threads : list place) t p :
  (∀ t p, threads !! t = Some p → 0 ≤ added p) → threads !! t = Some p → added p ≤ sum added threads.
Proof.
  revert t. induction threads as [|x threads IH]; intros [|t] H Ht; simplify_eq/=.
  - pose proof (Semaphores.sum_nonneg added threads (λ i y, H (S i) y)). unfold sum in *. lia.
  - pose proof (H 0%nat x eq_refl). specialize (IH t (λ i y, H (S i) y) Ht). unfold sum in *. lia.
Qed.

Lemma locks_step n g threads t p g' p' :
  Inv n g threads → threads !! t = Some p → SimpleThread g p = Some (g', p') → Inv n g' (<[t := p']> threads).
Proof.
  intros HI Ht Hstep. pose proof HI as [I1 I2 I3 I4 I5 I6]. pose proof (I6 t p Ht) as Hp.
  pose proof (number_insert has_l threads t p p' Ht) as Nl. pose proof (number_insert has_b threads t p p' Ht) as Nb.
  assert (∀ u q, threads !! u = Some q → 0 ≤ added q ≤ (if counted q then rounds else 0)) as Hadd by (intros u q Hu; eapply added_bounds, I6; done).
  pose proof (sum_counted threads Hadd) as [Hbound _]. pose proof (number_le counted threads) as Hle.
  assert (∀ u q, threads !! u = Some q → 0 ≤ added q) as Hadd0 by (intros u q Hu; by destruct (Hadd u q Hu)).
  pose proof (sum_one threads t p Hadd0 Ht) as Hone.
  destruct g as [la ba c v]. simpl in *.
  destruct p; simpl in Hstep, Hp, Nl, Nb, Hone; try discriminate Hstep; repeat case_match; simplify_eq/=;
    (eapply locks_move; [exact HI|exact Ht|..]; simpl in *; try lia; try done; try (by left); try (by right)); try (unfold rounds in *; lia).
Qed.

Lemma locks_reach n g threads : reach n g threads → Inv n g threads.
Proof. induction 1 as [|g threads t p g' p' _ IH Ht Hs]; [apply locks_init|by eapply locks_step]. Qed.

(** In the version with locks, whatever way the threads are switched: no
    increment of [count] or [SharedVariable] is lost; a thread leaves the loop at
    the end only when every thread that has counted itself so far is through its
    five rounds, so that it prints 5 * (n + 1) if all have counted themselves by
    then; and every value printed is between 5 and 5 * (n + 1). *)
Theorem locks_count_all n g threads :
  reach n g threads →
  SharedVariable g = sum added threads ∧ count g = Z.of_nat (number counted threads) ∧
  (∀ g', SimpleThread g Loop = Some (g', Final) →
     (∀ t p, threads !! t = Some p → counted p = true → added p = 5) ∧
     (count g = Z.of_nat n + 1 → SharedVariable g = 5 * (Z.of_nat n + 1))) ∧
  (∀ t v, threads !! t = Some (Done v) → 5 ≤ v ≤ 5 * (Z.of_nat n + 1)).
Proof.
  intros [I1 I2 I3 I4 I5 I6]%locks_reach. split; [done|]. split; [done|].
  assert (∀ u q, threads !! u = Some q → 0 ≤ added q ≤ (if counted q then rounds else 0)) as Hadd by (intros u q Hu; eapply added_bounds, I6; done).
  destruct (sum_counted threads Hadd) as [Hbound Hall]. unfold rounds in *. split.
  - intros g'. destruct g as [la ba c v]. simpl in *. destruct (Z.ltb_spec v (5 * c)) as [|Hge]; [done|]. intros _. split; [|lia].
    apply Hall. lia.
  - intros t v Ht. specialize (I6 t _ Ht). simpl in I6. unfold rounds in I6. lia.
Qed.

Fixpoint play (g : globals) (threads : list place) (todo : list nat) : option (globals * list place) :=
  match todo with
  | [] => Some (g, threads)
  | t :: todo => p ← threads !! t; '(g, p) ← SimpleThread g p; play g (<[t := p]> threads) todo
  end.

Lemma locks_play_reach n todo : ∀ g threads g' threads',
  reach n g threads → play g threads todo = Some (g', threads') → reach n g' threads'.
Proof.
  induction todo as [|t todo IH]; intros g threads g' threads' Hr Hp; simpl in Hp; [by simplify_eq|].
  destruct (threads !! t) as [p|] eqn:Et; [|done]. simpl in Hp. destruct (SimpleThread g p) as [[g1 p1]|] eqn:Es; [|done].
  simpl in Hp. eapply IH; [|done]. by eapply reach_step.
Qed.

(** One forked thread; both count themselves first. *)
Definition both_counted : list nat := replicate 4 0%nat ++ replicate 4 1%nat ++ replicate 21 0%nat ++ replicate 23 1%nat ++ [0; 0]%nat.

Lemma both_counted_reach : reach 1 (mkGlobals false false 2 10) [Done 10; Done 10].
Proof. eapply (locks_play_reach 1 both_counted (ThreadTest 1).1 (ThreadTest 1).2); [apply reach_start|]. vm_compute. reflexivity. Qed.

Lemma locks_count_all_witness : [Done 10; Done 10] !! 0%nat = Some (Done 10) ∧ 5 ≤ 10 ≤ 5 * (Z.of_nat 1 + 1).
Proof. split; [reflexivity|]. exact (proj2 (proj2 (proj2 (locks_count_all 1 _ _ both_counted_reach))) 0%nat 10 eq_refl). Defined.

(** With the timer, a thread that runs through before the other one has counted
    itself prints 5 as the final value. *)
Example late_thread : reach 1 (mkGlobals false false 2 10) [Done 5; Done 10].
Proof.
  eapply (locks_play_reach 1 (replicate 27 0%nat ++ replicate 27 1%nat) (ThreadTest 1).1 (ThreadTest 1).2); [apply reach_start|].
  vm_compute. reflexivity.
Qed.
End Locks.

(** ** Without synchronisation *)

Module Unsynchronised.

Inductive place :=
  | Top (num : Z)            (* num < 5; then val = SharedVariable *)
  | Set_ (num val : Z)       (* Yield(); SharedVariable = val + 1 *)
  | Leave (num : Z)          (* Yield(); num++ *)
  | Final                    (* val = SharedVariable; printf *)
  | Done (val : Z).

Definition SimpleThread (v : Z) (p : place) : option (Z * place) :=
  match p with
  | Top num => Some (v, if num <? rounds then Set_ num v else Final)
  | Set_ num val => Some (val + 1, Leave num)
  | Leave num => Some (v, Top (num + 1))
  | Final => Some (v, Done v)
  | Done _ => None
  end.

Definition ThreadTest (n : nat) : Z * list place := (0, replicate (S n) (Top 0)).

Fixpoint play (v : Z) (threads : list place) (todo : list nat) : option (Z * list place) :=
  match todo with
  | [] => Some (v, threads)
  | t :: todo => p ← threads !! t; '(v, p) ← SimpleThread v p; play v (<[t := p]> threads) todo
  end.

(** Threads that take turns at [Yield]: every increment is made twice, and five of
    the ten are lost. *)
Definition turns : list nat := concat (replicate 17 [0; 1]%nat).

Example increments_lost : play (ThreadTest 1).1 (ThreadTest 1).2 turns = Some (5, [Done 5; Done 5]).
Proof. vm_compute. reflexivity. Qed.
End Unsynchronised.
End ThreadTest.
