(* ===== verification/Console.v ===== *)
(** * The console: machine/console.h, machine/console.cc, [ConsoleTest] of
      userprog/progtest.cc

    The device with its one-character buffer, its two interrupts, and the test
    that echoes the keyboard on the display until a q is typed.  An interrupt that
    was scheduled may be taken at any later time, and characters may be typed at
    any time.  A [char] is signed; [EOF] is -1. *)

From stdpp Require Import base list.
From S2P Require Import Prelude.

Module Console.

Definition EOF : Z := -1.

(** The [char] of a byte of the keyboard file. *)
Definition to_char (b : Z) : Z := if b <? 128 then b else b - 256.

(** The functions that the device schedules. *)
Inductive handler := ConsoleReadPoll | ConsoleWriteDone.

(** The fields of [class Console] that change. *)
Record Console := mkConsole {
  putBusy : bool;
  incoming : Z;
}.

(** A UNIX file that stands for the keyboard: what was typed and not read, and
    whether it ends there. *)
Record keyboard := mkKeyboard {
  typed : list Z;
  closed : bool;
}.

(** [PollFile]: [select] also answers at the end of a file. *)
Definition PollFile (k : keyboard) : bool := negb (bool_decide (typed k = [])) || closed k.

(** [Read(readFileNo, &c, sizeof(char))]. *)
Definition Read (k : keyboard) : result (Z * keyboard) :=
  match typed k with
  | [] => Err AssertionFailed
  | b :: l => Ok (b, mkKeyboard l (closed k))
  end.

(** [Console::Console], and the interrupt that it schedules. *)
Definition Console_new : Console * list handler := (mkConsole false EOF, [ConsoleReadPoll]).

(** [Console::CheckCharAvail]; the last part of the answer is whether the handler
    for a character is called. *)
Definition CheckCharAvail (c : Console) (k : keyboard) : result (Console * keyboard * list handler * bool) :=
  let scheduled := [ConsoleReadPoll] in
  if negb (incoming c =? EOF) || negb (PollFile k) then Ok (c, k, scheduled, false)
  else
    '(b, k) ← Read k;
    Ok (mkConsole (putBusy c) (to_char b), k, scheduled, true).

(** [Console::WriteDone], which calls the handler. *)
Definition WriteDone (c : Console) : Console := mkConsole false (incoming c).

Definition GetChar (c : Console) : Z * Console := (incoming c, mkConsole (putBusy c) EOF).

(** [Console::PutChar]: what goes to the display. *)
Definition PutChar (c : Console) (ch : Z) : result (Console * list Z * list handler) :=
  _ ← ASSERT (negb (putBusy c));
  Ok (mkConsole true (incoming c), [ch], [ConsoleWriteDone]).

(** ** [ConsoleTest] *)

Inductive place :=
  | WaitChar            (* readAvail->P() *)
  | Echo                (* ch = console->GetChar(); console->PutChar(ch) *)
  | WaitWritten (ch : Z)  (* writeDone->P(); if (ch == 'q') return *)
  | Returned.

(** The device, the keyboard, the display, the semaphores [readAvail] and
    [writeDone], the interrupts to come, the thread, and the two counters of
    [stats]. *)
Record world := mkWorld {
  console : Console;
  input : keyboard;
  display : list Z;
  readAvail : Z;
  writeDone : Z;
  pending : list handler;
  thread : place;
  numConsoleCharsRead : Z;
  numConsoleCharsWritten : Z;
}.

Definition start : world :=
  let '(c, l) := Console_new in mkWorld c (mkKeyboard [] false) [] 0 0 l WaitChar 0 0.

Definition q : Z := 113.

(** The thread. *)
Definition ConsoleTest (w : world) : option (result world) :=
  let '(mkWorld c k out r d pend p nr nw) := w in
  match p with
  | WaitChar => if r >? 0 then Some (Ok (mkWorld c k out (r - 1) d pend Echo nr nw)) else None
  | Echo =>
    let '(ch, c) := GetChar c in
    Some ('(c, o, l) ← PutChar c ch; Ok (mkWorld c k (out ++ o) r d (pend ++ l) (WaitWritten ch) nr nw))
  | WaitWritten ch =>
    if d >? 0 then Some (Ok (mkWorld c k out r (d - 1) pend (if ch =? q then Returned else WaitChar) nr nw)) else None
  | Returned => None
  end.

(** The interrupt [i] of those to come; the handlers [ReadAvail] and [WriteDone] of
    the test signal the semaphores. *)
Definition take_interrupt (w : world) (i : nat) : option (result world) :=
  let '(mkWorld c k out r d pend p nr nw) := w in
  h ← pend !! i;
  let pend := delete i pend in
  Some (match h with
  | ConsoleReadPoll =>
    '(c, k, l, arrived) ← CheckCharAvail c k;
    Ok (if (arrived : bool) then mkWorld c k out (r + 1) d (pend ++ l) p (nr + 1) nw else mkWorld c k out r d (pend ++ l) p nr nw)
  | ConsoleWriteDone => Ok (mkWorld (WriteDone c) k out r (d + 1) pend p nr (nw + 1))
  end).

(** Somebody types. *)
Definition type_ (w : world) (b : Z) : world :=
  let '(mkWorld c k out r d pend p nr nw) := w in mkWorld c (mkKeyboard (typed k ++ [b]) (closed k)) out r d pend p nr nw.

(** All that can happen, with the bytes typed so far. *)
Inductive reach : list Z → world → Prop :=
  | reach_start : reach [] start
  | reach_type ts w b : reach ts w → 0 ≤ b < 255 → reach (ts ++ [b]) (type_ w b)
  | reach_thread ts w w' : reach ts w → ConsoleTest w = Some (Ok w') → reach ts w'
  | reach_interrupt ts w i w' : reach ts w → take_interrupt w i = Some (Ok w') → reach ts w'.

(** ** The invariant *)

Definition is_done (h : handler) : bool := match h with ConsoleWriteDone => true | ConsoleReadPoll => false end.

(** The character in the buffer of the device. *)
Definition buffered (c : Console) : list Z := if incoming c =? EOF then [] else [incoming c].

Definition quits (p : place) : bool := match p with Returned => true | WaitWritten ch => ch =? q | _ => false end.

Record Inv (ts : list Z) (w : world) : Prop := mkInv {
  i_open : closed (input w) = false;
  i_range : Forall (λ b, 0 ≤ b < 255) (typed (input w));
  i_poll : number (λ h, negb (is_done h)) (pending w) = 1%nat;
  i_order : to_char <$> ts = display w ++ buffered (console w) ++ (to_char <$> typed (input w));
  i_read : readAvail w + (if thread w is Echo then 1 else 0) = Z.of_nat (length (buffered (console w)));
  i_write : writeDone w + Z.of_nat (number is_done (pending w)) = (if thread w is WaitWritten _ then 1 else 0);
  i_busy : putBusy (console w) = bool_decide (number is_done (pending w) = 1%nat);
  i_nonneg : 0 ≤ readAvail w ∧ 0 ≤ writeDone w;
  i_quit : if quits (thread w) then ∃ l, display w = l ++ [q] ∧ (q ∉ l) else q ∉ display w;
  i_last ch : thread w = WaitWritten ch → last (display w) = Some ch;
}.

Lemma console_start_inv : Inv [] start.
Proof. split; simpl; try done; try (by apply not_elem_of_nil). Qed.

Lemma to_char_eof b : 0 ≤ b < 255 → to_char b ≠ EOF.
Proof. intros Hb. unfold to_char, EOF. destruct (Z.ltb_spec b 128); lia. Qed.

Lemma type_inv ts w b : Inv ts w → 0 ≤ b < 255 → Inv (ts ++ [b]) (type_ w b).
Proof.
  intros [I1 I2 I3 I4 I5 I6 I7 I8 I9 I10] Hb. destruct w as [c [k cl] out r d pend p nr nw]. simpl in *. split; simpl; try done.
  - apply Forall_app. by split; [|constructor].
  - rewrite !fmap_app, I4, <- !(assoc_L (++)). done.
Qed.

(** A step goes well and keeps the invariant. *)
Definition fine (ts : list Z) (r : option (result world)) : Prop :=
  match r with None => True | Some (Ok w) => Inv ts w | Some (Err _) => False end.

Lemma thread_fine ts w : Inv ts w → fine ts (ConsoleTest w).
Proof.
  intros [I1 I2 I3 I4 I5 I6 I7 I8 I9 I10]. destruct w as [[busy inc] k out r d pend p nr nw]. simpl in *.
  destruct p as [| |ch|]; simpl in *.
  - destruct (Z.gtb_spec r 0); [|done]. split; simpl; try done; lia.
  - assert (number is_done pend = 0%nat) as Hn by lia. rewrite bool_decide_eq_false_2 in I7 by lia. subst busy. simpl.
    unfold buffered in *. simpl in *. destruct (Z.eqb_spec inc EOF) as [|Hinc]; [simpl in I5; lia|].
    split; simpl; try done; try lia.
    + rewrite number_app, number_singleton. simpl. lia.
    + by rewrite I4, <- !(assoc_L (++)).
    + simpl in I5. lia.
    + rewrite number_app, number_singleton. simpl. lia.
    + rewrite number_app, number_singleton. rewrite bool_decide_eq_true_2; [done|]. simpl. lia.
    + destruct (Z.eqb_spec inc q) as [->|Hq]; [by exists out|]. rewrite not_elem_of_app, list_elem_of_singleton. split; [done|congruence].
    + intros ch [= <-]. by rewrite last_snoc.
  - destruct (Z.gtb_spec d 0); [|done]. split; simpl; try done; try lia; destruct (ch =? q); simpl; done || lia.
  - done.
Qed.

Lemma number_delete_le {A} (f : A → bool) (l : list A) i x : l !! i = Some x → number f (delete i l) = (number f l - (if f x then 1 else 0))%nat.
Proof. intros H. pose proof (number_delete f l i x H). destruct (f x); lia. Qed.

Lemma interrupt_fine ts w i : Inv ts w → fine ts (take_interrupt w i).
Proof.
  intros [I1 I2 I3 I4 I5 I6 I7 I8 I9 I10]. destruct w as [[busy inc] [k cl] out r d pend p nr nw]. simpl in *.
  destruct (pend !! i) as [h|] eqn:Eh; [|done]. simpl.
  pose proof (number_delete_le is_done pend i h Eh) as N1. pose proof (number_delete_le (λ h, negb (is_done h)) pend i h Eh) as N2.
  destruct h; simpl in N1, N2.
  - unfold CheckCharAvail. simpl. unfold PollFile. simpl. subst cl. rewrite orb_false_r, negb_involutive.
    assert (Inv ts (mkWorld (mkConsole busy inc) (mkKeyboard k false) out r d (delete i pend ++ [ConsoleReadPoll]) p nr nw)) as Hnothing.
    { split; simpl; try done; rewrite number_app, number_singleton; simpl; rewrite ?N1, ?N2; try lia. rewrite Nat.add_0_r, Nat.sub_0_r. done. }
    destruct (Z.eqb_spec inc EOF) as [->|Hinc]; simpl; [|exact Hnothing]. destruct k as [|b k]; simpl; [exact Hnothing|].
    apply Forall_cons in I2 as [Hb Hk]. pose proof (to_char_eof b Hb) as Hne. unfold buffered in *. simpl in *.
    split; simpl; try done; unfold buffered; simpl; rewrite ?number_app, ?number_singleton, ?N1, ?N2; simpl; try lia.
    + destruct (Z.eqb_spec (to_char b) EOF); done.
    + destruct (Z.eqb_spec (to_char b) EOF); [done|]. simpl. lia.
    + by rewrite Nat.add_0_r, Nat.sub_0_r.
  - pose proof (number_some is_done pend i _ Eh eq_refl) as Hpos.
    split; simpl; try done; rewrite ?N1, ?N2; try lia.
    rewrite bool_decide_eq_false_2; [done|]. destruct p; lia.
Qed.

Lemma console_reach_inv ts w : reach ts w → Inv ts w.
Proof.
  induction 1 as [|ts w b _ IH Hb|ts w w' _ IH E|ts w i w' _ IH E].
  - apply console_start_inv.
  - by apply type_inv.
  - pose proof (thread_fine ts w IH) as F. by rewrite E in F.
  - pose proof (interrupt_fine ts w i IH) as F. by rewrite E in F.
Qed.

(** C37: the console test echoes: however typing, interrupts and the thread
    interleave, nothing stops, and what is on the display are the first of the
    characters typed, in order; the others are in the buffer of the device or not
    read.  The test has returned or is about to if and only if the last character
    displayed is the first q. *)
Theorem console_echoes ts w :
  reach ts w →
  to_char <$> ts = display w ++ buffered (console w) ++ (to_char <$> typed (input w)) ∧
  (if quits (thread w) then ∃ l, display w = l ++ [q] ∧ (q ∉ l) else q ∉ display w) ∧
  (∀ e, ConsoleTest w ≠ Some (Err e)) ∧ (∀ i e, take_interrupt w i ≠ Some (Err e)).
Proof.
  intros Hr. pose proof (console_reach_inv ts w Hr) as HI. split_and!; [apply HI|apply HI|..].
  - intros e E. pose proof (thread_fine ts w HI) as F. by rewrite E in F.
  - intros i e E. pose proof (interrupt_fine ts w i HI) as F. by rewrite E in F.
Qed.

(** Nothing more happens: the thread waits or has returned, and the interrupts to
    come change nothing but the time of the next poll. *)
Definition at_rest (w : world) : Prop :=
  ConsoleTest w = None ∧ ∀ i, match take_interrupt w i with Some (Ok w') => readAvail w' = readAvail w ∧ writeDone w' = writeDone w | _ => True end.

(** When the console has come to rest, everything that was typed is on the
    display, or the test has returned after a q. *)
Theorem console_echoes_all ts w :
  reach ts w → at_rest w → thread w = Returned ∨ (thread w = WaitChar ∧ display w = to_char <$> ts).
Proof.
  intros Hr [Ht Hi]. pose proof (console_reach_inv ts w Hr) as [I1 I2 I3 I4 I5 I6 I7 I8 I9 I10].
  destruct w as [[busy inc] [k cl] out r d pend p nr nw]. simpl in *. subst cl.
  assert (number is_done pend = 0%nat) as Hdone.
  { apply number_none. intros i h Eh. destruct h; [done|]. specialize (Hi i). rewrite Eh in Hi. simpl in Hi. lia. }
  assert (inc = EOF → k = []) as Hk.
  { intros ->. destruct (number_pos (λ h, negb (is_done h)) pend ltac:(lia)) as (i & h & Eh & Hh). destruct h; [|done].
    specialize (Hi i). rewrite Eh in Hi. simpl in Hi. unfold CheckCharAvail, PollFile in Hi. simpl in Hi.
    destruct k as [|b k]; [done|]. simpl in Hi. lia. }
  unfold buffered in *. simpl in *. destruct p as [| |ch|]; simpl in *; [|done| |by left].
  - right. split; [done|]. destruct (Z.gtb_spec r 0); [done|]. destruct (Z.eqb_spec inc EOF) as [->|]; [|simpl in *; lia].
    rewrite I4, (Hk eq_refl). simpl. by rewrite app_nil_r.
  - destruct (Z.gtb_spec d 0); [done|]. lia.
Qed.

(** *** Examples *)

Inductive act := Type_ (b : Z) | Thread | Interrupt (i : nat).

Definition do_act (w : world) (a : act) : option world :=
  match a with
  | Type_ b => if (0 <=? b) && (b <? 255) then Some (type_ w b) else None
  | Thread => match ConsoleTest w with Some (Ok w) => Some w | _ => None end
  | Interrupt i => match take_interrupt w i with Some (Ok w) => Some w | _ => None end
  end.

Definition typed_by (l : list act) : list Z := omap (λ a, match a with Type_ b => Some b | _ => None end) l.

Lemma console_play_reach l : ∀ ts w w',
  reach ts w → foldl (λ w a, w ← w; do_act w a) (Some w) l = Some w' → reach (ts ++ typed_by l) w'.
Proof.
  assert (∀ l, foldl (λ w a, w ← w; do_act w a) None l = None) as Hnone by (intros l'; induction l' as [|a' l' IH']; [done|exact IH']).
  induction l as [|a l IH]; intros ts w w' Hr Hp; simpl in Hp; [simplify_eq; by rewrite app_nil_r|].
  destruct (do_act w a) as [w1|] eqn:Ea; [|by rewrite Hnone in Hp].
  destruct a as [b| |i]; simpl in *.
  - destruct (Z.leb_spec 0 b), (Z.ltb_spec b 255); simplify_eq/=. replace (ts ++ b :: typed_by l) with ((ts ++ [b]) ++ typed_by l) by by rewrite <- (assoc_L (++)).
    eapply IH; [|done]. by constructor.
  - destruct (ConsoleTest w) as [[w2|]|] eqn:Et; simplify_eq. eapply IH; [|done]. by eapply reach_thread.
  - destruct (take_interrupt w i) as [[w2|]|] eqn:Et; simplify_eq. eapply IH; [|done]. by eapply reach_interrupt.
Qed.

(** A and q are typed, and echoed. *)
Definition a_and_q : list act :=
  [Type_ 65; Type_ 113; Interrupt 0; Thread; Thread; Interrupt 0; Interrupt 0; Thread; Thread; Thread; Interrupt 1; Thread].
Definition a_and_q_world : world :=
  mkWorld (mkConsole false EOF) (mkKeyboard [] false) [65; 113] 0 0 [ConsoleReadPoll] Returned 2 2.

Lemma a_and_q_reach : reach [65; 113] a_and_q_world.
Proof. apply (console_play_reach a_and_q [] start); [constructor|]. vm_compute. reflexivity. Qed.

Lemma console_echoes_witness : ∃ l, [65; 113] = l ++ [q] ∧ (q ∉ l).
Proof. exact (proj1 (proj2 (console_echoes _ _ a_and_q_reach))). Defined.

Lemma console_echoes_all_witness : thread start = Returned ∨ (thread start = WaitChar ∧ display start = to_char <$> []).
Proof.
  apply (console_echoes_all [] start reach_start). split; [reflexivity|]. intros [|i]; vm_compute; done.
Defined.

(** At the end of a keyboard file the kernel stops: [select] says that there is
    something to read, and [Read] asserts that it got a character. *)
Example end_of_keyboard_file c : CheckCharAvail (mkConsole c EOF) (mkKeyboard [] true) = Err AssertionFailed.
Proof. reflexivity. Qed.

(** The byte 255 looks like an empty buffer: the next poll puts the character
    behind it in its place, and signals a second time. *)
Example byte_255_is_lost c k :
  CheckCharAvail (mkConsole c EOF) (mkKeyboard (255 :: 65 :: k) false) =
    Ok (mkConsole c EOF, mkKeyboard (65 :: k) false, [ConsoleReadPoll], true).
Proof. reflexivity. Qed.
End Console.
