(* ===== verification/System.v ===== *)
(** * Start of the kernel: threads/main.cc, threads/system.cc

    The command line: the options that [Initialize] reads, the objects that it
    makes, the commands that [main] carries out.  What is compiled depends on the
    directory that is built: a [build] says which of the five macros its Makefile
    defines (CHANGED always is).  The numbers of options are kept as the strings
    that [atoi] and [atof] get.  Whether a program that is started or a command on
    files comes back to [main] depends on the disk and on what was done before: it
    is a parameter. *)

From stdpp Require Import base list strings.
From Stdlib Require Import Ascii.
From S2P Require Import Prelude.

Module System.

(** ** What is built *)

Record build := mkBuild {
  THREADS : bool;
  USER_PROGRAM : bool;
  FILESYS_NEEDED : bool;
  FILESYS : bool;
  NETWORK : bool;
}.

(** DEFINES of the Makefiles. *)
Definition threads_build : build := mkBuild true false false false false.
Definition userprog_build : build := mkBuild false true true false false.
Definition filesys_build : build := mkBuild true true true true false.
Definition network_build : build := mkBuild false true true true true.

(** ** [Initialize] *)

(** The local variables of [Initialize], and the argument of [RandomInit]. *)
Record options := mkOptions {
  debugArgs : string;
  seed : option string;
  randomYield : bool;
  debugUserProg : bool;
  format : bool;
  rely : option string;
  netname : option string;
}.

Definition no_options : options := mkOptions "" None false false false None None.

(** [!strcmp(arg, option)]. *)
Definition same (arg option_ : string) : bool := bool_decide (arg = option_).

Section kernel.
Context (b : build).

(** One round of the loop: the options after it and [argCount].  [args] are the
    arguments from [*argv] on, [argc] how many there are. *)
Definition option_step (o : options) (argc : Z) (args : list string) : result (options * Z) :=
  arg ← aget args 0;
  let '(mkOptions dbg sd ry du fm rl nn) := o in
  '(o, argCount) ←
    (if same arg "-d" then
       if argc =? 1 then Ok (mkOptions "+" sd ry du fm rl nn, 1)
       else x ← aget args 1; Ok (mkOptions x sd ry du fm rl nn, 2)
     else if same arg "-rs" then
       _ ← ASSERT (argc >? 1);
       x ← aget args 1; Ok (mkOptions dbg (Some x) true du fm rl nn, 2)
     else Ok (o, 1));
  let '(mkOptions dbg sd ry du fm rl nn) := o in
  let du := if USER_PROGRAM b && same arg "-s" then true else du in
  let fm := if FILESYS_NEEDED b && same arg "-f" then true else fm in
  if NETWORK b && same arg "-l" then
    _ ← ASSERT (argc >? 1);
    x ← aget args 1; Ok (mkOptions dbg sd ry du fm (Some x) nn, 2)
  else if NETWORK b && same arg "-m" then
    _ ← ASSERT (argc >? 1);
    x ← aget args 1; Ok (mkOptions dbg sd ry du fm rl (Some x), 2)
  else Ok (mkOptions dbg sd ry du fm rl nn, argCount).

(** [for (...; argc > 0; argc -= argCount, argv += argCount)]. *)
Fixpoint options_loop (fuel : nat) (o : options) (argc : Z) (args : list string) : result options :=
  match fuel with
  | O => Err OutOfFuel
  | S fuel =>
    if argc >? 0 then '(o, n) ← option_step o argc args; options_loop fuel o (argc - n) (drop (Z.to_nat n) args)
    else Ok o
  end.

(** What [Initialize] makes, in this order. *)
Inductive object :=
  | OStatistics | OInterrupt | OScheduler | OTimer (randomize : bool) | OThread
  | OMachine (debug : bool) | OMemoryManager (pages : Z) | OProcessManager (processes : Z)
  | OSynchDisk | OFileSystem (format : bool) | OPostOffice (netname rely : option string) (boxes : Z).

Definition objects (o : options) : list object :=
  [OStatistics; OInterrupt; OScheduler] ++
  (if randomYield o then [OTimer true] else []) ++
  [OThread] ++
  (if USER_PROGRAM b then [OMachine (debugUserProg o); OMemoryManager 32; OProcessManager 10] else []) ++
  (if FILESYS b then [OSynchDisk] else []) ++
  (if FILESYS_NEEDED b then [OFileSystem (format o)] else []) ++
  (if NETWORK b then [OPostOffice (netname o) (rely o) 10] else []).

Definition Initialize (argc : Z) (argv : list string) : result (options * list object) :=
  o ← options_loop (S (length argv)) no_options (argc - 1) (drop 1 argv);
  Ok (o, objects o).

(** ** [main] *)

(** What a command of the command line makes [main] call. *)
Inductive command :=
  | Copyright
  | StartProcess (file : string)
  | ConsoleTest (files : option (string * string))   (* and then Halt *)
  | Copy (from to : string) | Print (file : string) | Remove (file : string) | List | PrintAll | PerformanceTest
  | MailTest (far : string).
#[global] Instance command_eq_dec : EqDecision command.
Proof. solve_decision. Defined.

(** Does the command come back, after those in [done]?  [main] halts the machine
    after [ConsoleTest], and [MailTest] itself does.  [StartProcess] comes back
    when the file cannot be opened or there is no number for the process, and
    otherwise runs the program and does not; a command on files comes back unless
    it stops on the way.  Both are up to [comes_back]. *)
Context (comes_back : list command → command → bool).

Definition returns (done : list command) (c : command) : bool :=
  match c with ConsoleTest _ | MailTest _ => false | Copyright => true | _ => comes_back done c end.

(** The commands up to one that does not come back. *)
Fixpoint until_end (done l : list command) : list command :=
  match l with [] => [] | c :: l => c :: if returns done c then until_end (done ++ [c]) l else [] end.

(** Do they all come back? *)
Fixpoint all_return (done l : list command) : bool :=
  match l with [] => true | c :: l => returns done c && all_return (done ++ [c]) l end.

(** One round of the loop: the commands of the three [#ifdef] parts, and
    [argCount]. *)
Definition command_step (argc : Z) (args : list string) : result (list command * Z) :=
  arg ← aget args 0;
  let copyright := if same arg "-z" then [Copyright] else [] in
  '(user, n) ←
    (if USER_PROGRAM b && same arg "-x" then
       _ ← ASSERT (argc >? 1);
       x ← aget args 1; Ok ([StartProcess x], 2)
     else if USER_PROGRAM b && same arg "-c" then
       if argc =? 1 then Ok ([ConsoleTest None], 1)
       else _ ← ASSERT (argc >? 2); x ← aget args 1; y ← aget args 2; Ok ([ConsoleTest (Some (x, y))], 3)
     else Ok ([], 1));
  '(files, n) ←
    (if FILESYS b then
       if same arg "-cp" then _ ← ASSERT (argc >? 2); x ← aget args 1; y ← aget args 2; Ok ([Copy x y], 3)
       else if same arg "-p" then _ ← ASSERT (argc >? 1); x ← aget args 1; Ok ([Print x], 2)
       else if same arg "-r" then _ ← ASSERT (argc >? 1); x ← aget args 1; Ok ([Remove x], 2)
       else if same arg "-l" then Ok ([List], n)
       else if same arg "-D" then Ok ([PrintAll], n)
       else if same arg "-t" then Ok ([PerformanceTest], n)
       else Ok ([], n)
     else Ok ([], n));
  '(net, n) ←
    (if NETWORK b && same arg "-o" then _ ← ASSERT (argc >? 1); x ← aget args 1; Ok ([MailTest x], 2)
     else Ok ([], n));
  Ok (copyright ++ user ++ files ++ net, n).

(** The calls of the loop after those in [done], up to one that does not come
    back. *)
Fixpoint commands_loop (fuel : nat) (done : list command) (argc : Z) (args : list string) : result (list command) :=
  match fuel with
  | O => Err OutOfFuel
  | S fuel =>
    if argc >? 0 then
      '(l, n) ← command_step argc args;
      if all_return done l then l' ← commands_loop fuel (done ++ l) (argc - n) (drop (Z.to_nat n) args); Ok (l ++ l')
      else Ok (until_end done l)
    else Ok []
  end.

(** [argv[0][1]]; behind the end of an empty string is another one. *)
Definition second (arg : string) : option Ascii.ascii := match arg with String _ (String c _) => Some c | _ => None end.

(** The loop over the arguments under THREADS: [testnum] as it was set by -q,
    [argc] and [argv] after it.  [atoi] of the null pointer behind the last
    argument is not defined. *)
Fixpoint testnum_loop (fuel : nat) (testnum : option string) (argc : Z) (args : list string)
    : result (option string * Z * list string) :=
  match fuel with
  | O => Err OutOfFuel
  | S fuel =>
    if argc >? 0 then
      arg ← aget args 0;
      if bool_decide (second arg = Some "q"%char) then
        match args !! 1%nat with
        | None => Err NullDereference
        | Some x => testnum_loop fuel (Some x) (argc - 2) (drop 2 args)
        end
      else testnum_loop fuel None (argc - 1) (drop 1 args)
    else Ok (testnum, argc, args)
  end.

(** [main]: the objects that were made, the number of threads of [ThreadTest], if
    it is called, and the commands. *)
Definition main (argc : Z) (argv : list string) : result (list object * option Z * list command) :=
  let fuel := S (length argv) in
  '(_, objs) ← Initialize argc argv;
  '(test, argc, argv) ←
    (if THREADS b then
       '(_, argc, argv) ← testnum_loop fuel None (argc - 1) (drop 1 argv);
       Ok (Some 4, argc, argv)
     else Ok (None, argc, argv));
  l ← commands_loop fuel [] (argc - 1) (drop 1 argv);
  Ok (objs, test, l).
End kernel.

(** ** A command line, in parts *)

Inductive item :=
  | IDebug (flags : string) | ISeed (n : string) | IStep | IFormat | IRely (x : string) | INet (n : string)
  | ICommand (c : command).

Definition print (i : item) : list string :=
  match i with
  | IDebug x => ["-d"; x] | ISeed x => ["-rs"; x] | IStep => ["-s"] | IFormat => ["-f"] | IRely x => ["-l"; x] | INet x => ["-m"; x]
  | ICommand c =>
    match c with
    | Copyright => ["-z"] | StartProcess x => ["-x"; x]
    | ConsoleTest None => ["-c"] | ConsoleTest (Some (x, y)) => ["-c"; x; y]
    | Copy x y => ["-cp"; x; y] | Print x => ["-p"; x] | Remove x => ["-r"; x] | List => ["-l"] | PrintAll => ["-D"]
    | PerformanceTest => ["-t"] | MailTest x => ["-o"; x]
    end
  end.

(** No argument looks like an option. *)
Definition plain (x : string) : bool := match x with String c _ => negb (bool_decide (c = "-"%char)) | EmptyString => true end.

(** Is the part compiled in this build, and unambiguous?  With NETWORK, -l is the
    reliability, and -c without files would take the next arguments. *)
Definition supported (b : build) (i : item) : bool :=
  forallb plain (tail (print i)) &&
  match i with
  | IDebug _ | ISeed _ | ICommand Copyright => true
  | IStep | ICommand (StartProcess _) | ICommand (ConsoleTest (Some _)) => USER_PROGRAM b
  | IFormat => FILESYS_NEEDED b
  | IRely _ | INet _ | ICommand (MailTest _) => NETWORK b
  | ICommand (ConsoleTest None) => false
  | ICommand List => FILESYS b && negb (NETWORK b)
  | ICommand _ => FILESYS b
  end.

Definition apply_item (o : options) (i : item) : options :=
  let '(mkOptions dbg sd ry du fm rl nn) := o in
  match i with
  | IDebug x => mkOptions x sd ry du fm rl nn
  | ISeed x => mkOptions dbg (Some x) true du fm rl nn
  | IStep => mkOptions dbg sd ry true fm rl nn
  | IFormat => mkOptions dbg sd ry du true rl nn
  | IRely x => mkOptions dbg sd ry du fm (Some x) nn
  | INet x => mkOptions dbg sd ry du fm rl (Some x)
  | ICommand _ => o
  end.

(** What [main] does for a part: the reliability of the network is read as a
    request for the list of files. *)
Definition effect (b : build) (i : item) : list command :=
  match i with ICommand c => [c] | IRely _ => if FILESYS b then [List] else [] | _ => [] end.

Definition command_line (items : list item) : list string := items ≫= print.

(** ** Lemmas *)

Lemma plain_same x o : plain x = true → same x (String "-" o) = false.
Proof.
  intros Hp. unfold same. apply bool_decide_eq_false_2. intros ->. done.
Qed.

Lemma more_than (k n : nat) : (k < n)%nat → (Z.of_nat n >? Z.of_nat k) = true.
Proof. intros. rewrite Z.gtb_ltb. apply Z.ltb_lt. lia. Qed.

Lemma not_one (n : nat) : (1 < n)%nat → (Z.of_nat n =? 1) = false.
Proof. intros. apply Z.eqb_neq. lia. Qed.

Section reading.
Context (b : build) (comes_back : list command → command → bool).

Lemma option_plain o x rest : plain x = true → option_step b o (Z.of_nat (length (x :: rest))) (x :: rest) = Ok (o, 1).
Proof.
  intros Hp. destruct o. unfold option_step. change (aget (x :: rest) 0) with (Ok x). run_ok.
  rewrite !plain_same by done. run_ok. by rewrite !andb_false_r.
Qed.

Lemma command_plain x rest : plain x = true → command_step b (Z.of_nat (length (x :: rest))) (x :: rest) = Ok ([], 1).
Proof.
  intros Hp. unfold command_step. change (aget (x :: rest) 0) with (Ok x). run_ok.
  rewrite !plain_same by done. run_ok. rewrite !andb_false_r. destruct (FILESYS b); run_ok; by rewrite ?andb_false_r.
Qed.

(** Arguments that are plain are passed over. *)
Lemma options_pass o xs rest : ∀ fuel,
  Forall (λ x, plain x = true) xs → options_loop b (length xs + fuel) o (Z.of_nat (length (xs ++ rest))) (xs ++ rest) =
    options_loop b fuel o (Z.of_nat (length rest)) rest.
Proof.
  intros fuel. induction xs as [|x xs IH]; intros HF; [done|]. apply Forall_cons in HF as [Hx HF].
  change (length (x :: xs) + fuel)%nat with (S (length xs + fuel)). cbn [options_loop app].
  rewrite (more_than 0) by (simpl; lia). rewrite option_plain by done. run_ok.
  change (drop (Z.to_nat 1) (x :: xs ++ rest)) with (xs ++ rest). cbn [length]. rewrite Nat2Z.inj_succ.
  replace (Z.succ (Z.of_nat (length (xs ++ rest))) - 1) with (Z.of_nat (length (xs ++ rest))) by lia. by apply IH.
Qed.

Lemma commands_pass xs rest : ∀ fuel done,
  Forall (λ x, plain x = true) xs →
  commands_loop b comes_back (length xs + fuel) done (Z.of_nat (length (xs ++ rest))) (xs ++ rest) =
    commands_loop b comes_back fuel done (Z.of_nat (length rest)) rest.
Proof.
  intros fuel done_. induction xs as [|x xs IH]; intros HF; [done|]. apply Forall_cons in HF as [Hx HF].
  change (length (x :: xs) + fuel)%nat with (S (length xs + fuel)). cbn [commands_loop app].
  rewrite (more_than 0) by (simpl; lia). rewrite command_plain by done. run_ok. cbn [all_return]. rewrite app_nil_r.
  change (drop (Z.to_nat 1) (x :: xs ++ rest)) with (xs ++ rest). cbn [length]. rewrite Nat2Z.inj_succ.
  replace (Z.succ (Z.of_nat (length (xs ++ rest))) - 1) with (Z.of_nat (length (xs ++ rest))) by lia. rewrite IH by done.
  by destruct (commands_loop b comes_back fuel _ _ rest).
Qed.

Lemma supported_plain i k : supported b i = true → (1 ≤ k)%nat → Forall (λ x, plain x = true) (drop k (print i)).
Proof.
  intros Hs Hk. apply andb_true_iff in Hs as [Hp _]. apply forallb_forall in Hp || idtac.
  destruct k as [|k]; [lia|]. assert (Forall (λ x, plain x = true) (tail (print i))) as HF.
  { apply Forall_forall. intros x Hx. rewrite forallb_forall in Hp. by apply Hp, list_elem_of_In. }
  replace (drop (S k) (print i)) with (drop k (tail (print i))); [by apply Forall_drop|]. by destruct (print i); [destruct k|].
Qed.

Lemma aget_0 (x : string) l : aget (x :: l) 0 = Ok x.
Proof. done. Qed.
Lemma aget_1 (x y : string) l : aget (x :: y :: l) 1 = Ok y.
Proof. done. Qed.
Lemma aget_2 (x y z : string) l : aget (x :: y :: z :: l) 2 = Ok z.
Proof. done. Qed.

Ltac compare := repeat match goal with |- context [same ?a ?c] => let v := eval vm_compute in (same a c) in change (same a c) with v end.
Ltac walk_args :=
  cbn [print app apply_item effect length];
  rewrite ?aget_0, ?aget_1, ?aget_2; run_ok; compare; rewrite ?andb_true_r, ?andb_false_r;
  cbn -[Z.of_nat Z.gtb Z.eqb aget];
  rewrite ?not_one by lia; rewrite ?(more_than 1), ?(more_than 2) by lia; run_ok; rewrite ?aget_0, ?aget_1, ?aget_2; run_ok.

(** [Initialize] at the beginning of a part. *)
Lemma option_item o i rest :
  supported b i = true → ∃ k, (1 ≤ k ≤ length (print i))%nat ∧
    option_step b o (Z.of_nat (length (print i ++ rest))) (print i ++ rest) = Ok (apply_item o i, Z.of_nat k).
Proof.
  intros Hs. apply andb_true_iff in Hs as [_ Hs]. destruct o as [dbg sd ry du fm rl nn].
  destruct i as [x|x| | |x|x|c]; [..|destruct c as [|x|[[x y]|]|x y|x|x| | | |x]]; try discriminate Hs;
    rewrite ?andb_true_iff, ?negb_true_iff in Hs; unfold option_step; walk_args;
    first [rewrite Hs|rewrite (proj2 Hs)|idtac]; walk_args;
    first [by exists 1%nat; split; [lia|]|by exists 2%nat; split; [lia|]].
Qed.

(** [main] at the beginning of a part. *)
Lemma command_item i rest :
  supported b i = true → ∃ k, (1 ≤ k ≤ length (print i))%nat ∧
    command_step b (Z.of_nat (length (print i ++ rest))) (print i ++ rest) = Ok (effect b i, Z.of_nat k).
Proof.
  intros Hs. apply andb_true_iff in Hs as [_ Hs].
  destruct i as [x|x| | |x|x|c]; [..|destruct c as [|x|[[x y]|]|x y|x|x| | | |x]]; try discriminate Hs;
    rewrite ?andb_true_iff, ?negb_true_iff in Hs; unfold command_step; walk_args;
    first [rewrite Hs|rewrite (proj1 Hs)|idtac]; walk_args; destruct (FILESYS b) eqn:Ef; walk_args; rewrite ?Hs, ?Ef; walk_args;
    first [by exists 1%nat; split; [lia|]|by exists 2%nat; split; [lia|]|by exists 3%nat; split; [lia|]].
Qed.

Lemma print_pos i : (1 ≤ length (print i))%nat.
Proof. destruct i as [| | | | | |[| |[[]|]| | | | | | |]]; simpl; lia. Qed.

(** What is left of a part after a step into it. *)
Lemma skip_part i k rest :
  (1 ≤ k ≤ length (print i))%nat →
  drop (Z.to_nat (Z.of_nat k)) (print i ++ rest) = drop k (print i) ++ rest ∧
  Z.of_nat (length (print i ++ rest)) - Z.of_nat k = Z.of_nat (length (drop k (print i) ++ rest)).
Proof.
  intros Hk. rewrite Nat2Z.id, drop_app_le by lia. split; [done|]. rewrite !length_app, length_drop. lia.
Qed.

Lemma options_read items : ∀ fuel o,
  Forall (λ i, supported b i = true) items → (length (command_line items) < fuel)%nat →
  options_loop b fuel o (Z.of_nat (length (command_line items))) (command_line items) = Ok (foldl apply_item o items).
Proof.
  induction items as [|i items IH]; intros fuel o HF Hf; [by destruct fuel; [simpl in Hf; lia|]|].
  apply Forall_cons in HF as [Hi HF]. pose proof (print_pos i).
  change (command_line (i :: items)) with (print i ++ command_line items) in *. rewrite length_app in Hf.
  destruct fuel as [|fuel]; [lia|]. cbn [options_loop]. rewrite (more_than 0) by (rewrite length_app; lia).
  destruct (option_item o i (command_line items) Hi) as (k & Hk & ->). run_ok.
  destruct (skip_part i k (command_line items) Hk) as [-> ->].
  replace fuel with (length (drop k (print i)) + (fuel - length (drop k (print i))))%nat by (rewrite length_drop; lia).
  rewrite options_pass by (apply supported_plain; [done|lia]). rewrite IH; [done..|]. rewrite length_drop. lia.
Qed.

Lemma effect_cases i : effect b i = [] ∨ ∃ c, effect b i = [c].
Proof. destruct i; simpl; try destruct (FILESYS b); eauto. Qed.

Lemma commands_read items : ∀ fuel done,
  Forall (λ i, supported b i = true) items → (length (command_line items) < fuel)%nat →
  commands_loop b comes_back fuel done (Z.of_nat (length (command_line items))) (command_line items) =
    Ok (until_end comes_back done (items ≫= effect b)).
Proof.
  induction items as [|i items IH]; intros fuel done_ HF Hf; [by destruct fuel; [simpl in Hf; lia|]|].
  apply Forall_cons in HF as [Hi HF]. pose proof (print_pos i).
  change (command_line (i :: items)) with (print i ++ command_line items) in *. rewrite length_app in Hf.
  destruct fuel as [|fuel]; [lia|]. cbn [commands_loop]. rewrite (more_than 0) by (rewrite length_app; lia).
  destruct (command_item i (command_line items) Hi) as (k & Hk & ->). run_ok.
  destruct (skip_part i k (command_line items) Hk) as [-> ->].
  replace fuel with (length (drop k (print i)) + (fuel - length (drop k (print i))))%nat by (rewrite length_drop; lia).
  rewrite commands_pass by (apply supported_plain; [done|lia]). rewrite IH; [|done|rewrite length_drop; lia]. run_ok.
  rewrite bind_cons.
  destruct (effect_cases i) as [->|[c ->]]; cbn [all_return app until_end]; [by rewrite app_nil_r|]. by destruct (returns _ _ c).
Qed.

(** The loop under THREADS reads all arguments, or stops at a -q that is the
    last one. *)
Lemma testnum_loop_ends fuel : ∀ t args, (length args < fuel)%nat →
  (∃ t' args', testnum_loop fuel t (Z.of_nat (length args)) args = Ok (t', 0, args')) ∨
  testnum_loop fuel t (Z.of_nat (length args)) args = Err NullDereference.
Proof.
  induction fuel as [|fuel IH]; intros t args Hf; [lia|]. cbn [testnum_loop]. destruct args as [|x args]; [left; by eauto|].
  rewrite (more_than 0) by (simpl; lia). rewrite aget_0. run_ok. case_bool_decide.
  - destruct args as [|y args]; [by right|]. cbn [lookup list_lookup drop].
    replace (Z.of_nat (length (x :: y :: args)) - 2) with (Z.of_nat (length args)) by (cbn [length]; lia).
    rewrite drop_0. apply IH. cbn [length] in Hf. lia.
  - cbn [drop]. rewrite ?drop_0. replace (Z.of_nat (length (x :: args)) - 1) with (Z.of_nat (length args)) by (cbn [length]; lia).
    apply IH. cbn [length] in Hf. lia.
Qed.

Lemma testnum_loop_rest fuel : ∀ t argc args t' argc' args',
  testnum_loop fuel t argc args = Ok (t', argc', args') → argc' ≤ 0.
Proof.
  induction fuel as [|fuel IH]; intros * E; [done|]. cbn [testnum_loop] in E.
  destruct (Z.gtb_spec argc 0) as [|Hle]; [|by injection E; intros; subst].
  destruct (aget args 0); [|done]. revert E. run_ok. repeat case_match; intros E; try done; by eapply IH.
Qed.
End reading.

(** ** Theorems *)


(** Nothing stops in these commands. *)
Definition all_fine : list command → command → bool := λ _ c, match c with StartProcess _ => false | _ => true end.


(** Where the threads are tested nothing else is done, whatever the command line. *)
Theorem threads_build_ignores_commands comes_back b argc argv objs test l :
  THREADS b = true → main b comes_back argc argv = Ok (objs, test, l) → test = Some 4 ∧ l = [].
Proof.
  intros Ht. unfold main. rewrite Ht.
  destruct (Initialize b argc argv) as [[o objs']|]; [|done]. run_ok.
  destruct (testnum_loop _ _ _ _) as [[[t argc'] args']|] eqn:El; [|done]. run_ok.
  apply testnum_loop_rest in El. cbn [commands_loop]. destruct (Z.gtb_spec (argc' - 1) 0); [lia|]. run_ok. by intros [= -> <- <-].
Qed.

(** The last argument -q: [atoi] gets the null pointer. *)
Example q_is_last : main threads_build all_fine 2 ["nachos"; "-q"] = Err NullDereference.
Proof. reflexivity. Qed.

(** A program that is started after another is not, when the first one runs. *)
Example second_program_ignored :
  main userprog_build all_fine 5 ["nachos"; "-x"; "halt"; "-x"; "shell"] =
    Ok ([OStatistics; OInterrupt; OScheduler; OThread; OMachine false; OMemoryManager 32; OProcessManager 10; OFileSystem false],
        None, [StartProcess "halt"]).
Proof. reflexivity. Qed.

(** It is when the file of the first one cannot be opened. *)
Example second_program_started :
  main userprog_build (λ _ c, bool_decide (c = StartProcess "hlat")) 5 ["nachos"; "-x"; "hlat"; "-x"; "shell"] =
    Ok ([OStatistics; OInterrupt; OScheduler; OThread; OMachine false; OMemoryManager 32; OProcessManager 10; OFileSystem false],
        None, [StartProcess "hlat"; StartProcess "shell"]).
Proof. reflexivity. Qed.
End System.
